(* ===== verification/_CoqProject ===== *)
-Q . S2P
Prelude.v
RustStd.v
RustText.v
DiscordModel.v
DesiredState.v
DesiredCompiler.v
DiffEngine.v
OperationGraph.v
GraphOrder.v
GraphCompile.v
Policy.v
Simulator.v
Resolution.v
VirtualApply.v
Plan.v
PlanApply.v
PlanSatisfied.v
PlanTotal.v
Preview.v
Approval.v
Executor.v
ExecutorSpec.v
Pipeline.v
ConvergenceTypes.v
Convergence.v
ConvergenceStep.v
ConvergenceInv.v
ConvergenceSafety.v
Examples.v
ConvergenceExamples.v
Instance.v
InstanceStore.v
Teardown.v
TeardownSpec.v
TeardownLocks.v
InstanceScan.v
RetrySupervisor.v
TeardownExamples.v
AutomationState.v
Template.v
AutomationPlan.v
AutomationValidate.v
AutomationExec.v
AutomationSound.v
AutomationFootprint.v
AutomationExamples.v
RuleSet.v
RuleSetSpec.v
Readiness.v
ReadinessSpec.v
Dispatch.v
DispatchExamples.v
ApprovalBinding.v
Activation.v
ActivationStore.v
ActivationService.v
ActivationSpec.v
ActivationStoreSpec.v
ActivationSystem.v
ActivationSafety.v
ActivationLive.v
ActivationExamples.v
SpecModel.v
SpecValidate.v
SpecCompile.v
SpecSound.v
SpecReady.v
SpecExamples.v
StatefulModel.v
StatefulValidate.v
StatefulEval.v
StatefulSound.v
StatefulStore.v
StatefulCompile.v
Interaction.v
StatefulEvent.v
StatefulPrepare.v
StatefulSafety.v
StatefulFlow.v
StatefulExamples.v
