(* ===== verification/Prelude.v ===== *)
(** * Starring: a verification development

    Starring configures Discord guilds from declarative documents and runs
    automations in them. This library models, in Rocq, the part that decides and
    changes things: the planning pipeline from a document to the calls made to
    Discord, the interaction rules of automations and the instances they create, the
    publication, approval and activation of rule sets, stateful automations with their
    store, and the state machine that brings a runtime deployment live. It is a
    shallow embedding: each definition translates one function or type of the
    Rust source and carries its name; the theorems are about those definitions.

    ** The program and the files

    The planning pipeline (under [src/crates/]), in the order data flows:

    - [DiscordModel.v], crate [discord-model]: guilds, roles, channels, overwrites,
      permission bits as a [u64], identifiers as decimal strings on the wire.
    - [DesiredState.v], crate [desired-state]: the document a user writes, and
      [validate].
    - [DesiredCompiler.v], crate [desired-compiler]: [compile] turns capabilities
      into permission bits and merges the grants and raw overwrites of a channel.
    - [DiffEngine.v], crate [diff-engine]: [ResourceResolver] (a type class with the
      in-memory instance) and [diff], the changes and conflicts between a document
      and a guild.
    - [OperationGraph.v], crate [operation-graph]: [compile_operations] (nodes,
      payloads, dependencies) and [topological_order] (Kahn's algorithm over a
      binary heap, here a sorted list). [GraphOrder.v] has the theory of the order,
      [GraphCompile.v] that of the compilation.
    - [Policy.v], crate [policy-engine]: rules, findings, verdicts.
    - [Simulator.v], crate [simulator]: effective permissions and access matrices.
    - [Resolution.v], crate [resource-resolution] (contexts only): which id a key
      stands for, with the cache.
    - [VirtualApply.v], crate [virtual-apply]: the graph applied to a guild in memory.
    - [Preview.v], crate [preview]: what the user sees before approving.
    - [Approval.v], crate [approval-manager]: requests, approvals, rejections.
    - [Executor.v], crate [executor-core]: [DiscordAdapter] (a type class for the
      asynchronous trait, whose calls are sequential in the source), execution of an
      approved graph, rollback, and the mock adapter of the crate.
    - [Pipeline.v], tools [ai-eval] and [executor-smoke]: how the crates are composed.

    The runtime deployment machine, crate [automation-runtime-convergence]:

    - [ConvergenceTypes.v]: identities, attestations, leases, phases, errors.
    - [Convergence.v]: validation, every command of [machine.rs] and
      [product_drain.rs], [request], [restore] and [snapshot].
    - [ConvergenceStep.v]: the machine as an inductive relation, one case per command,
      on which invariants are proved.

    Interaction rules, crates [automation-state] and [automation-core]:

    - [AutomationState.v]: panels, modals, triggers, actions and references.
    - [Template.v]: [template.rs], templates with inputs, rendering and sanitizing,
      and their theory.
    - [AutomationPlan.v]: [event.rs], [modal_input.rs], [plan.rs], [interpret.rs],
      [policy.rs]: from an event to a plan.
    - [AutomationValidate.v]: [validate.rs], every check of a rule set.
    - [AutomationExec.v]: [adapter.rs], [prepare.rs], [run.rs], [mock.rs] and the
      [execution] module: the services as a type class, the execution state, what an
      action is prepared into, its effect, and [handle_event].
    - [AutomationSound.v]: validated rules do not go wrong; [AutomationFootprint.v]:
      what a rule creates is owned by the instance it registers.

    Instances, crates [automation-instance], [automation-instance-teardown] and the
    retry supervisor of [automation-runtime]:

    - [Instance.v]: ids and generators, the record, the in-memory store, retry keys,
      cursors and pages, with the theory of ids; [InstanceStore.v] has that of the
      store and the store interface ([TeardownStoreLaws]) that clients rely on.
    - [Teardown.v]: [domain.rs] and [service.rs]; [TeardownSpec.v] has the meaning of
      each answer, over any store and deleter that keep their laws;
      [TeardownLocks.v] has the locks as a step relation over interleaved threads.
    - [InstanceScan.v], [RetrySupervisor.v]: scanning pages of pending deletions, the
      concurrent retries of a page as tasks that are polled, time out and end in any
      order, the steps of the supervisor's loop with other teardowns in between, and
      whole sweeps.

    Rule sets, crates [automation-ruleset], [-readiness], [-dispatch] and
    [-activation]:

    - [RuleSet.v]: keys, versions, content hashes and the versioned store with its
      guarded activation; [RuleSetSpec.v] has its theory.
    - [Readiness.v]: the gate a version passes before it runs, hydration, and the
      hierarchy of guild roles; [ReadinessSpec.v] says what passes.
    - [Dispatch.v]: an action of an instance, from the pinned version to its
      execution, over any resolver, snapshot provider and services, and what is
      executed.
    - [ApprovalBinding.v], [approval.rs] of [resource-resolution]: the bindings an
      approval covers and their fingerprint.
    - [Activation.v]: identifiers, approval contexts and digests, and the request
      with its transitions ([id.rs], [approval.rs], [model.rs]);
      [ActivationStore.v]: the request store ([store.rs]); [ActivationService.v]: the
      product preflight and the service ([product_preflight.rs], [service.rs]).
    - [ActivationSpec.v] and [ActivationStoreSpec.v] follow a request through the
      transitions and the store; [ActivationSystem.v] is the system of interleaved
      service runs, with the facts a run has learned from its calls and the clock as an
      argument;
      [ActivationSafety.v] and [ActivationLive.v] have the theorems.

    Automation documents, crate [automation-spec]:

    - [SpecModel.v]: the document an author writes ([model.rs]) and its lowering to
      interaction rules; [SpecValidate.v]: every check of [validate.rs] with the
      diagnostics it reports; [SpecCompile.v]: simulation, preview, source maps,
      digests and compilation.
    - [SpecSound.v]: the loop that propagates required roles along forwarded actions
      computes reachability, and what validation promises of routes and instances;
      [SpecReady.v]: compilation is exact, what compiles runs, and the
      simulation agrees with the runtime.

    Stateful automations, crates [automation-stateful-spec],
    [automation-stateful-compiler], [automation-stateful-runtime] and
    [automation-runtime-interaction]:

    - [StatefulModel.v]: a document with state variables and workflows that choose a
      branch and assign state ([model.rs]), and the stateless views of its branches
      ([view.rs]); [StatefulValidate.v]: every check of [validate.rs];
      [StatefulEval.v]: conditions, expressions and parallel assignments, event
      normalization, simulation and its traces ([evaluate.rs], [event.rs],
      [simulate.rs], [canonical.rs]).
    - [StatefulStore.v]: state keys, read and write sets, prepared commits with their
      digests ([state.rs], [digest.rs]), and the store with its outbox ([store.rs]).
    - [StatefulCompile.v]: compiled bundles with the state each workflow reads and
      writes, source maps, digests and the check of a stored compilation (crate
      [automation-stateful-compiler], with [stateless_fragment.rs] of
      [automation-spec]); [StatefulEvent.v]: event envelopes, their routes, pins and
      identities ([event.rs]); [StatefulPrepare.v]: the request for a snapshot, the
      evaluation prepared from it and its commit ([state.rs], [evaluator.rs],
      [digest.rs]).
    - [Interaction.v]: custom ids, identities, the digests of requests and claims, and
      the check of a request against its receipt ([custom_id.rs], [identity.rs],
      [digest.rs], [verified_request.rs] of [automation-runtime-interaction]), with
      what the digests commit to.
    - [StatefulSound.v]: evaluation of validated documents, and when the validator
      panics; [StatefulSafety.v]: the store under any sequence of calls;
      [StatefulFlow.v]: compiler, evaluator, commit and store together.

    ** How the source is rendered

    A [Result<A, E>] is [Result E A], a method on [&mut self] is a [Cmd S E A],
    that is [S -> Result E A * S]: what was assigned before an error is returned
    stays assigned, as in Rust. Integers are [Z] with their width written where it
    matters ([RustStd.v] has [checked_add], [wrapping_add], bit complement, decimal
    parsing and printing). Strings are their UTF-8 bytes; [RustText.v] has what the
    standard library does on characters (decoding, trimming, lower case of the Latin
    letters, searching and replacing). A [BTreeMap] or [BTreeSet]
    that is iterated is a sorted association list ([bt_upsert] and its lemmas), one
    that is only looked up is a [gmap], like a [HashMap]. Instants are integers,
    since the code only compares them. Identifier newtypes are the value they wrap.
    Logging, printing and serde derives are left out. A formatted error message is a
    constructor with the values that are formatted.

    The activation service runs beside other runs over shared stores, so its methods
    are programs ([Prog]): trees of calls on the stores and the environment provider.
    A run executes one call at a time and may be cut off before any of them; a call
    may fail, or take effect and lose its answer; the deadline may expire at any poll.
    SHA-256, the canonical hash of a definition and the calendar arithmetic of
    [chrono] are parameters.

    ** What is proved

    - Documents: [validate] accepts exactly the well-formed documents; [compile]
      fails exactly when a target is allowed and denied the same bit, and otherwise
      yields sorted, disjoint, exact overwrites.
    - Plans: the guild satisfies the document exactly when [diff] is quiet and the
      channels it found are under their parents, which [diff] does not compare; every
      change it proposes is justified; the operations of a plan are exactly the
      ones the fields of the document require ([Plan.v]); Kahn's algorithm agrees with a reference scheduler and
      fails only where no order exists.
    - Convergence of plans: [PlanApply.v], [PlanSatisfied.v] and [PlanTotal.v] follow
      the virtual application of a plan and show that it succeeds, that planning again
      proposes nothing, that created channels are under their parents, and that the
      resulting guild satisfies the document if the channels that existed were under
      theirs. The hypotheses say that names and ids are unambiguous and references
      declared; [Examples.v] has an instance.
    - Access: the simulator computes each permission bit as Discord's rules say;
      the preview lists exactly the access that changes.
    - Safety: the default policy denies exactly the privileged plans; the state of a
      request is a function of its history; nothing executes without the approval it
      needs; a step makes at most one call; after a failure nothing else runs and the
      rollback asks the adapter for the calls that take back what was done, in reverse
      ([ExecutorSpec.v], [Pipeline.v]).
    - Deployments: [ConvergenceInv.v] shows that every command keeps snapshots
      valid, so that what is persisted can be restored; [ConvergenceSafety.v] states
      the rules of the protocol on the fields of a deployment and its certificates and
      shows that the machine applies exactly those, up to the last revision, and has
      fencing, leases, the evidence of live
      deployments, replays and the closed and blocked phases, and shows that every
      requested deployment can go live.
    - Interaction rules: parsing and printing templates are inverse; rendered texts
      have the shape and length Discord asks for, and mentions are broken; validation
      is a sound type system, so that a validated rule fails only for reasons of run
      time; the instance a rule registers lists everything the rule created.
    - Instances: secure ids are valid and as unique as their entropy; the store
      implements a finite map; each answer of a teardown says what happened, no
      history of teardowns leaves an orphan, an interrupted one can be resumed; at
      most one thread tears an instance down; however the concurrent retries of a sweep
      are scheduled and cut off, none is run twice, and every instance that stays
      pending is retried before the cursor is back at the start.
    - Rule sets: a published version is permanent and numbered by its place in the
      log; a guarded activation is a compare-and-set; the readiness gate and the role
      hierarchy check accept exactly what can run, with the permissions of Discord that
      the actions need; what activation reports is what hydration returns; a dispatched
      action runs the pinned version of an active instance, ready with the roles of the
      snapshot it took, and fails only for reasons of run time.
    - Activation, while the clock is not set back: in every interleaving the active
      version of a rule set moves only to the target of a request that enough users
      approved, published with the approved hash and ready, and for product requests only from the approved
      baseline; stored requests stay valid, one at a time is applied to a rule set,
      and what is decided is permanent; a healthy run takes an approved request live,
      and recovery settles the interrupted ones. The digests of an approval commit to
      everything approved unless SHA-256 collides on the very bytes that were hashed.
    - Automation documents: everything a validated document renders has exactly one
      handler; an instance it creates has every role that any chain of its buttons
      can ask for; a stored compilation is accepted exactly when it is the document's;
      a compiled document passes the readiness gate of every guild that has the
      permissions of its preview, and then fails only for reasons of run time; the
      simulation picks the rule, the actions and the inputs the runtime does.
    - Stateful automations: a validated document evaluates to the parallel assignment
      of the branch its condition selects, by a semantics of its own, or fails because
      arithmetic leaves the safe integers or a value the bounds of its variable; in every sequence of calls on the store a receipt is committed once, on
      the state it was evaluated on, the ledger replays to the state, the effects of a
      commit are started under one claim with its payload, and a refused call changes
      nothing. From the compiler to the store: the rows the compiler lists are all that
      a workflow depends on, so that a commit the store applies is the workflow run in
      one step on everything the store holds at that moment.
    - Interactions: a custom id decodes to what was encoded; a request verified against
      a receipt is the one the receipt recorded, unless SHA-256 collides on the two.
    - Divergences: a mention with a control character inside is rendered whole; a
      button that names an instance nobody registers passes validation; a channel
      that is its own parent previews but does not execute; a command that overflows
      the revision keeps its changes; a restored live deployment whose gateway was ready
      before its panels is recovered into one that cannot be restored; a request decided
      before it was created stays in the store and is refused by every read; a stateful
      document that uses up the ids of its acknowledgements makes the validator panic.

    [Examples.v], [ConvergenceExamples.v], [TeardownExamples.v],
    [AutomationExamples.v], [DispatchExamples.v], [ActivationExamples.v],
    [SpecExamples.v] and [StatefulExamples.v] run the smoke scenarios, a sample
    deployment, sample teardowns, a sample rule set, its activation, the document it
    comes from and a stateful one with its store, and instantiate each theorem that has
    hypotheses.

    ** Bounds and fuel

    Kahn's loop has the number of nodes as fuel: each turn takes one node off the
    heap and a node is pushed at most once; [GraphOrder.v] proves that it is enough,
    since an order is found whenever one exists. Printing a [u64] has fuel 20,
    its largest number of digits, which the round trip of identifiers rests on. The
    template parser has the length of the text as fuel, of which every turn uses at
    least two characters; the encoder of secure ids takes at most two quintets per
    byte. The loop over forwarded actions has more fuel than there are pairs of an
    action and a role, of which every turn but the last adds one ([SpecSound.v] proves
    that its result is the least closed one). The supervisor's loop is a step relation
    without a bound: its theorems bound the scans of a sweep and show that the retries
    of a page end. The ids of acknowledgements are tried up to 65,535, as in the source;
    where the source panics after the last the model returns [None], and
    [StatefulSound.v] says when. All other recursion is structural. The convergence of plans needs that
    the synthetic ids of the new resources fit in a [u64].

    ** What is not modelled

    The Postgres stores and migrations (SQL), the HTTP services, the Discord client
    and the language-model gateway are input and output. The preflight of
    [automation-core], the descriptor table of [automation-spec], the deployment
    bindings and the preview of [automation-stateful-spec], the tokens, effects and
    recovery of [automation-runtime-interaction], the remaining automation crates
    (effect contracts and journals, panel installation, authoring and promotion) and
    the authority snapshots of [resource-resolution] are pure code that can be added in
    the same way. The thread that times the deadline of the
    activation service is abstracted to its effect, and [unsafe_dev_activate], which
    skips approvals in development builds, is outside the system. *)

From Stdlib Require Import ZArith Lia Ascii String.
From stdpp Require Import base decidable list strings gmap numbers.
Open Scope Z_scope.

Create HintDb starring.

(** ** Fallible computations

    Rust's [Result<A, E>] with the error type first, so that [Result E] is a
    functor and the notations of [stdpp] apply: [x ← c; k] is the [?] operator. *)
Inductive Result (E A : Type) : Type :=
| Ok (a : A)
| Err (e : E).
Arguments Ok {E A} a.
Arguments Err {E A} e.

#[export] Instance Result_ret (E : Type) : MRet (Result E) := λ A a, Ok a.
#[export] Instance Result_bind (E : Type) : MBind (Result E) :=
  λ A B f m, match m with Ok a => f a | Err e => Err e end.
#[export] Instance Result_fmap (E : Type) : FMap (Result E) :=
  λ A B f m, match m with Ok a => Ok (f a) | Err e => Err e end.
#[export] Instance Result_eq_dec (E A : Type) `{EqDecision E, EqDecision A} :
  EqDecision (Result E A).
Proof. solve_decision. Defined.

Definition is_ok {E A} (r : Result E A) : bool :=
  match r with Ok _ => true | Err _ => false end.

(** [Option::ok_or] and [Result::map_err]. *)
Definition ok_or {E A} (o : option A) (e : E) : Result E A :=
  match o with Some a => Ok a | None => Err e end.

Definition map_err {E F A} (f : E → F) (r : Result E A) : Result F A :=
  match r with Ok a => Ok a | Err e => Err (f e) end.

(** [ensure b e] is the guard clause [if !b { return Err(e) }]. *)
Definition ensure {E} (b : bool) (e : E) : Result E unit :=
  if b then Ok tt else Err e.

Lemma bind_Ok_inv {E A B} (m : Result E A) (f : A → Result E B) b :
  (x ← m; f x) = Ok b → ∃ a, m = Ok a ∧ f a = Ok b.
Proof. destruct m; cbn; naive_solver. Qed.

Lemma ensure_Ok_inv {E} (b : bool) (e : E) u : ensure b e = Ok u → b = true.
Proof. by destruct b. Qed.

Lemma ensure_Ok {E} (b : bool) (e : E) u : ensure b e = Ok u ↔ b = true.
Proof. destruct b, u; split; done. Qed.

Lemma then_Ok {E A} (m : Result E unit) (f : unit → Result E A) a :
  (x ← m; f x) = Ok a ↔ m = Ok tt ∧ f tt = Ok a.
Proof. destruct m as [[]|]; cbn; split; try done; by intros []. Qed.

Lemma map_err_Ok {E F A} (f : E → F) (r : Result E A) a : map_err f r = Ok a ↔ r = Ok a.
Proof. destruct r; cbn; split; congruence. Qed.

Lemma is_ok_true {E A} (r : Result E A) : is_ok r = true ↔ ∃ a, r = Ok a.
Proof. destruct r; cbn; naive_solver. Qed.

Lemma ok_or_Ok_inv {E A} (o : option A) (e : E) a : ok_or o e = Ok a → o = Some a.
Proof. destruct o; cbn; congruence. Qed.

(** ** Stateful computations

    A Rust method on [&mut self] returning [Result<A, E>] becomes a function
    from the state to the result and the state left behind: a mutation made
    before an error is reported stays visible, as in the source. *)
Definition Cmd (S E A : Type) : Type := S → Result E A * S.

Definition cmd_ret {S E A} (a : A) : Cmd S E A := λ s, (Ok a, s).
Definition cmd_bind {S E A B} (f : A → Cmd S E B) (m : Cmd S E A) : Cmd S E B :=
  λ s, match m s with
       | (Ok a, s') => f a s'
       | (Err e, s') => (Err e, s')
       end.
#[export] Instance Cmd_ret (S E : Type) : MRet (Cmd S E) := λ A a, cmd_ret a.
#[export] Instance Cmd_bind (S E : Type) : MBind (Cmd S E) := λ A B, cmd_bind.

(** [&self] methods, assignments to [self] and reads of [self]. *)
Definition cmd_lift {S E A} (f : S → Result E A) : Cmd S E A := λ s, (f s, s).
Definition cmd_fail {S E A} (e : E) : Cmd S E A := λ s, (Err e, s).
Definition cmd_modify {S E} (f : S → S) : Cmd S E unit := λ s, (Ok tt, f s).
Definition cmd_get {S E} : Cmd S E S := λ s, (Ok s, s).

(** A method called on a field of [self], and [?] converting the error. *)
Definition cmd_zoom {S T E A} (get : S → T) (put : T → S → S) (m : Cmd T E A) : Cmd S E A :=
  λ s, let (r, t) := m (get s) in (r, put t s).
Definition cmd_map_err {S E F A} (f : E → F) (m : Cmd S E A) : Cmd S F A :=
  λ s, let (r, s') := m s in (map_err f r, s').

Lemma cmd_bind_Ok_inv {S E A B} (m : Cmd S E A) (f : A → Cmd S E B) s b s' :
  (x ← m; f x) s = (Ok b, s') → ∃ a s1, m s = (Ok a, s1) ∧ f a s1 = (Ok b, s').
Proof.
  unfold mbind, Cmd_bind, cmd_bind. destruct (m s) as [[a|e] s1]; [eauto|discriminate].
Qed.

Lemma cmd_lift_step {S E A B} (f : S → Result E A) (k : A → Cmd S E B) s r s' :
  (x ← cmd_lift f; k x) s = (r, s') →
  (∃ e, f s = Err e ∧ r = Err e ∧ s' = s) ∨ ∃ a, f s = Ok a ∧ k a s = (r, s').
Proof.
  unfold mbind, Cmd_bind, cmd_bind, cmd_lift. destruct (f s) eqn:Hf; naive_solver.
Qed.

Lemma cmd_modify_step {S E B} (f : S → S) (k : unit → Cmd S E B) s :
  (x ← cmd_modify f; k x) s = k tt (f s).
Proof. done. Qed.

Lemma cmd_get_step {S E B} (k : S → Cmd S E B) s : (x ← cmd_get; k x) s = k s s.
Proof. done. Qed.

Lemma cmd_lift_run {S E A B} (f : S → Result E A) (k : A → Cmd S E B) s a :
  f s = Ok a → (x ← cmd_lift f; k x) s = k a s.
Proof. unfold mbind, Cmd_bind, cmd_bind, cmd_lift. by intros ->. Qed.

(** ** Options

    [Option::is_some], [Option::is_some_and] and [Option::is_none_or]. *)
Definition is_some {A} (o : option A) : bool :=
  match o with Some _ => true | None => false end.
Definition is_some_and {A} (P : A → bool) (o : option A) : bool :=
  match o with Some a => P a | None => false end.
Definition is_none_or {A} (P : A → bool) (o : option A) : bool :=
  match o with Some a => P a | None => true end.

Lemma is_none_or_true {A} (P : A → bool) o :
  is_none_or P o = true ↔ ∀ a, o = Some a → P a = true.
Proof. destruct o; cbn; naive_solver. Qed.

Lemma is_some_false {A} (o : option A) : is_some o = false → o = None.
Proof. by destruct o. Qed.

Lemma is_some_true {A} (o : option A) : is_some o = true → ∃ a, o = Some a.
Proof. destruct o; naive_solver. Qed.

(** ** Tactics

    [result_cases] follows a fallible computation that succeeded through its
    checks; [bool_facts] turns boolean tests into propositions. *)
Ltac result_cases :=
  repeat (match goal with
          | H : (if ?b then _ else _) = _ |- _ => let E := fresh "E" in destruct b eqn:E
          | H : (_ ← ?m; _) = Ok _ |- _ => apply bind_Ok_inv in H as (? & ? & H)
          | H : ok_or _ _ = Ok _ |- _ => apply ok_or_Ok_inv in H
          | H : ensure _ _ = Ok _ |- _ => apply ensure_Ok_inv in H
          end; try discriminate).

Ltac bool_facts :=
  repeat match goal with
         | H : negb _ = true |- _ => apply negb_true_iff in H
         | H : negb _ = false |- _ => apply negb_false_iff in H
         | H : (_ || _) = false |- _ => apply orb_false_iff in H as [? H]
         | H : (_ && _) = true |- _ => apply andb_true_iff in H as [? H]
         | H : bool_decide _ = true |- _ => apply bool_decide_eq_true in H
         | H : bool_decide _ = false |- _ => apply bool_decide_eq_false in H
         | H : (_ =? _) = true |- _ => apply Z.eqb_eq in H
         | H : (_ =? _) = false |- _ => apply Z.eqb_neq in H
         | H : (_ <=? _) = true |- _ => apply Z.leb_le in H
         | H : (_ <=? _) = false |- _ => apply Z.leb_gt in H
         | H : (_ <? _) = true |- _ => apply Z.ltb_lt in H
         | H : (_ <? _) = false |- _ => apply Z.ltb_ge in H
         | H : Is_true _ |- _ => apply Is_true_true in H
         end.
