(* ===== verification/RustStd.v ===== *)
(** * The Rust standard library the sources use

    Machine integers, UTF-8 strings, decimal parsing and printing, the
    ordering traits and [BTreeMap]. A [u64] is a [Z] with its range written
    out; a [String] is the list of its UTF-8 bytes; a [BTreeMap] is the strictly
    sorted association list its iterator yields. *)

From Stdlib Require Import ZArith Lia Ascii String.
From stdpp Require Import base decidable list strings gmap numbers sorting.
From S2P Require Import Prelude.
Open Scope Z_scope.

(** ** Unsigned integers *)
Definition u32_max : Z := 2 ^ 32 - 1.
Definition u64_max : Z := 2 ^ 64 - 1.

Definition u64_valid (n : Z) : Prop := 0 ≤ n ≤ u64_max.
Definition u32_valid (n : Z) : Prop := 0 ≤ n ≤ u32_max.

Definition u64_checked_add (a b : Z) : option Z :=
  if a + b <=? u64_max then Some (a + b) else None.
Definition u32_checked_add (a b : Z) : option Z :=
  if a + b <=? u32_max then Some (a + b) else None.

(** [!x] on a [u64]. *)
Definition u64_not (n : Z) : Z := Z.lxor n u64_max.

(** [a + b] on [u64] as release builds compute it. *)
Definition u64_wrapping_add (a b : Z) : Z := (a + b) mod 2 ^ 64.

Definition u32_wrapping_add (a b : Z) : Z := (a + b) mod 2 ^ 32.

Lemma u64_wrapping_add_small a b :
  0 ≤ a → 0 ≤ b → a + b ≤ u64_max → u64_wrapping_add a b = a + b.
Proof. intros. unfold u64_wrapping_add. apply Z.mod_small. unfold u64_max in *. lia. Qed.

Lemma u32_wrapping_add_small a b :
  0 ≤ a → 0 ≤ b → a + b < 2 ^ 32 → u32_wrapping_add a b = a + b.
Proof. intros. unfold u32_wrapping_add. apply Z.mod_small. lia. Qed.

Lemma u64_not_testbit n i :
  0 ≤ i < 64 → Z.testbit (u64_not n) i = negb (Z.testbit n i).
Proof.
  intros Hi. unfold u64_not. rewrite Z.lxor_spec.
  change u64_max with (Z.ones 64). rewrite Z.ones_spec_low by lia.
  by destruct (Z.testbit n i).
Qed.

Lemma u64_testbit_high n i : u64_valid n → 64 ≤ i → Z.testbit n i = false.
Proof.
  intros [H0 H1] Hi. unfold u64_max in H1.
  destruct (decide (n = 0)) as [->|Hn]; [apply Z.testbit_0_l|].
  apply Z.bits_above_log2; [lia|].
  apply Z.log2_lt_pow2; [lia|].
  apply Z.lt_le_trans with (2 ^ 64); [lia|apply Z.pow_le_mono_r; lia].
Qed.

Lemma u64_valid_testbits n :
  0 ≤ n → (∀ i, 64 ≤ i → Z.testbit n i = false) → u64_valid n.
Proof.
  intros Hn Hbits. split; [done|].
  destruct (decide (n ≤ u64_max)) as [|Hgt]; [done|exfalso].
  unfold u64_max in Hgt.
  assert (64 ≤ Z.log2 n) as Hlog.
  { apply Z.log2_le_pow2; lia. }
  pose proof (Z.bit_log2 n ltac:(lia)) as Hb.
  rewrite Hbits in Hb; done.
Qed.

Lemma u64_valid_lor a b : u64_valid a → u64_valid b → u64_valid (Z.lor a b).
Proof.
  intros Ha Hb. apply u64_valid_testbits.
  - apply Z.lor_nonneg. unfold u64_valid in *. lia.
  - intros i Hi. rewrite Z.lor_spec, !u64_testbit_high by done. done.
Qed.

Lemma u64_valid_land a b : u64_valid a → 0 ≤ b → u64_valid (Z.land a b).
Proof.
  intros Ha Hb. apply u64_valid_testbits.
  - apply Z.land_nonneg. unfold u64_valid in *. lia.
  - intros i Hi. rewrite Z.land_spec, (u64_testbit_high a) by done. done.
Qed.

Lemma u64_not_nonneg n : u64_valid n → 0 ≤ u64_not n.
Proof.
  intros [H0 H1]. unfold u64_not. apply Z.lxor_nonneg. unfold u64_max in *. lia.
Qed.

(** ** Decimal text: [Display] and [FromStr] of [u64] *)
Definition digit_value (c : ascii) : option Z :=
  let n := Z.of_N (N_of_ascii c) in
  if (48 <=? n) && (n <=? 57) then Some (n - 48) else None.

Definition digit_char (d : Z) : ascii := ascii_of_N (Z.to_N (d + 48)).

(** The digit loop of [u64::from_str]: [checked_mul] and [checked_add]. *)
Fixpoint parse_digits (acc : Z) (s : string) : option Z :=
  match s with
  | EmptyString => Some acc
  | String c rest =>
      match digit_value c with
      | None => None
      | Some d =>
          if acc * 10 <=? u64_max then
            match u64_checked_add (acc * 10) d with
            | Some acc' => parse_digits acc' rest
            | None => None
            end
          else None
      end
  end.

(** [str::parse::<u64>]: an optional leading plus sign, then at least one
    digit, no overflow. *)
Definition parse_u64 (s : string) : option Z :=
  match s with
  | EmptyString => None
  | String c rest =>
      if Ascii.eqb c "+"%char then
        match rest with EmptyString => None | _ => parse_digits 0 rest end
      else parse_digits 0 s
  end.

(** [u64::to_string]; twenty digits are enough for [u64::MAX]. *)
Fixpoint print_digits (fuel : nat) (n : Z) (acc : string) : string :=
  match fuel with
  | O => acc
  | S fuel' =>
      let acc' := String (digit_char (n mod 10)) acc in
      if n / 10 =? 0 then acc' else print_digits fuel' (n / 10) acc'
  end.

Definition print_u64 (n : Z) : string := print_digits 20 n EmptyString.

Lemma digit_value_char d : 0 ≤ d < 10 → digit_value (digit_char d) = Some d.
Proof.
  intros Hd.
  assert (d = 0 ∨ d = 1 ∨ d = 2 ∨ d = 3 ∨ d = 4 ∨ d = 5 ∨ d = 6 ∨ d = 7 ∨ d = 8 ∨ d = 9)
    as Hc by lia.
  by repeat destruct Hc as [->|Hc]; [..|subst].
Qed.

Lemma parse_digits_print fuel n s :
  u64_valid n → n < 10 ^ Z.of_nat fuel →
  parse_digits 0 (print_digits fuel n s) = parse_digits n s.
Proof.
  revert n s. induction fuel as [|fuel IH]; intros n s Hn Hlt.
  { assert (n = 0) as -> by (unfold u64_valid in *; cbn in Hlt; lia). done. }
  assert (0 ≤ n mod 10 < 10) as Hm by (apply Z.mod_pos_bound; lia).
  pose proof (Z.div_mod n 10 ltac:(lia)) as Hdm.
  assert (0 ≤ n / 10) as Hd by (apply Z.div_pos; unfold u64_valid in *; lia).
  assert (Hstep : parse_digits (n / 10) (String (digit_char (n mod 10)) s) = parse_digits n s).
  { cbn [parse_digits]. rewrite digit_value_char by done.
    unfold u64_valid, u64_checked_add in *.
    rewrite (proj2 (Z.leb_le _ _)) by lia.
    replace (n / 10 * 10 + n mod 10) with n by lia.
    by rewrite (proj2 (Z.leb_le _ _)) by lia. }
  cbn [print_digits]. destruct (Z.eqb_spec (n / 10) 0) as [H0|H0].
  - by rewrite <- Hstep, H0.
  - rewrite IH; [done| |].
    + unfold u64_valid in *. nia.
    + rewrite Nat2Z.inj_succ, Z.pow_succ_r in Hlt by lia. nia.
Qed.

Lemma print_digits_cons fuel n s :
  u64_valid n → ∃ d s', 0 ≤ d < 10 ∧ print_digits (S fuel) n s = String (digit_char d) s'.
Proof.
  revert n s. induction fuel as [|fuel IH]; intros n s Hn.
  - cbn. exists (n mod 10). destruct (_ =? _); eexists; split;
      eauto using Z.mod_pos_bound with lia.
  - change (print_digits (S (S fuel)) n s) with
      (if n / 10 =? 0 then String (digit_char (n mod 10)) s
       else print_digits (S fuel) (n / 10) (String (digit_char (n mod 10)) s)).
    destruct (_ =? _).
    + exists (n mod 10), s. split; [apply Z.mod_pos_bound; lia|done].
    + apply IH. unfold u64_valid in *. split; [apply Z.div_pos; lia|].
      etrans; [|apply Hn]. apply Z.div_le_upper_bound; lia.
Qed.

Lemma digit_char_not_plus d : 0 ≤ d < 10 → Ascii.eqb (digit_char d) "+" = false.
Proof.
  intros Hd.
  assert (d = 0 ∨ d = 1 ∨ d = 2 ∨ d = 3 ∨ d = 4 ∨ d = 5 ∨ d = 6 ∨ d = 7 ∨ d = 8 ∨ d = 9)
    as Hc by lia.
  by repeat destruct Hc as [->|Hc]; [..|subst].
Qed.

(** Printing then parsing gives the number back. *)
Lemma parse_print_u64 n : u64_valid n → parse_u64 (print_u64 n) = Some n.
Proof.
  intros Hn. unfold print_u64.
  destruct (print_digits_cons 19 n EmptyString Hn) as (d & s & Hd & Heq).
  unfold parse_u64. rewrite Heq, digit_char_not_plus, <- Heq by done.
  rewrite parse_digits_print; [done|done|].
  unfold u64_valid, u64_max in Hn. cbn. lia.
Qed.

Lemma print_u64_inj a b : u64_valid a → u64_valid b → print_u64 a = print_u64 b → a = b.
Proof.
  intros Ha Hb H. pose proof (parse_print_u64 a Ha) as Pa. rewrite H in Pa.
  rewrite (parse_print_u64 b Hb) in Pa. congruence.
Qed.

Lemma parse_digits_valid acc s n :
  u64_valid acc → parse_digits acc s = Some n → u64_valid n.
Proof.
  revert acc. induction s as [|c s IH]; intros acc Hacc; cbn; [naive_solver|].
  destruct (digit_value c) as [d|] eqn:Hd; [|done].
  unfold u64_checked_add.
  destruct (acc * 10 <=? u64_max); [|done].
  destruct (Z.leb_spec (acc * 10 + d) u64_max) as [Hle|]; [|done].
  apply IH. unfold digit_value in Hd.
  destruct (_ && _) eqn:Hr in Hd; [|done]. injection Hd as <-.
  apply andb_prop in Hr as [?%Z.leb_le ?]. unfold u64_valid in *. lia.
Qed.

Lemma parse_u64_valid s n : parse_u64 s = Some n → u64_valid n.
Proof.
  assert (u64_valid 0) as H0 by (split; vm_compute; congruence).
  destruct s as [|c s]; cbn [parse_u64]; [done|].
  destruct (Ascii.eqb c "+"); [destruct s; [done|]|]; by apply parse_digits_valid.
Qed.

(** ** Character classes of bytes and Unicode blanks *)
Definition byte_value (c : ascii) : Z := Z.of_N (N_of_ascii c).
Definition byte_in (lo hi : Z) (c : ascii) : bool :=
  (lo <=? byte_value c) && (byte_value c <=? hi).

Definition is_ascii_digit (c : ascii) : bool := byte_in 48 57 c.
Definition is_ascii_lowercase (c : ascii) : bool := byte_in 97 122 c.
Definition is_ascii_uppercase (c : ascii) : bool := byte_in 65 90 c.
Definition is_ascii_alphanumeric (c : ascii) : bool :=
  is_ascii_digit c || is_ascii_lowercase c || is_ascii_uppercase c.
Definition is_lower_hex (c : ascii) : bool := is_ascii_digit c || byte_in 97 102 c.

(** [str::len] counts bytes. *)
Definition str_len (s : string) : Z := Z.of_nat (String.length s).

Fixpoint str_all (P : ascii → bool) (s : string) : bool :=
  match s with
  | EmptyString => true
  | String c rest => P c && str_all P rest
  end.

(** [s.trim().is_empty()]: every scalar of [s] is Unicode [White_Space], read
    from its UTF-8 encoding. *)
Fixpoint is_blank (s : string) : bool :=
  match s with
  | EmptyString => true
  | String a rest =>
      if byte_in 9 13 a || byte_in 32 32 a then is_blank rest
      else match rest with
      | EmptyString => false
      | String b rest2 =>
          if byte_in 194 194 a && (byte_in 133 133 b || byte_in 160 160 b)
          then is_blank rest2
          else match rest2 with
          | EmptyString => false
          | String c rest3 =>
              if (byte_in 225 225 a && byte_in 154 154 b && byte_in 128 128 c)
                 || (byte_in 226 226 a && byte_in 128 128 b
                     && (byte_in 128 138 c || byte_in 168 169 c || byte_in 175 175 c))
                 || (byte_in 226 226 a && byte_in 129 129 b && byte_in 159 159 c)
                 || (byte_in 227 227 a && byte_in 128 128 b && byte_in 128 128 c)
              then is_blank rest3 else false
          end
      end
  end.

Definition str_is_empty (s : string) : bool := String.eqb s EmptyString.

(** ** Total orders: the [Ord] trait *)
Class Ord (A : Type) := cmp : A → A → comparison.

Class OrdLaws (A : Type) `{Ord A} := {
  cmp_eq_iff (x y : A) : cmp x y = Eq ↔ x = y;
  cmp_antisym (x y : A) : cmp y x = CompOpp (cmp x y);
  cmp_lt_trans (x y z : A) : cmp x y = Lt → cmp y z = Lt → cmp x z = Lt;
}.

Section ord_facts.
Context {A : Type} `{OrdLaws A}.

Lemma cmp_refl (x : A) : cmp x x = Eq.
Proof. by apply cmp_eq_iff. Qed.

Lemma cmp_gt_lt (x y : A) : cmp x y = Gt ↔ cmp y x = Lt.
Proof. rewrite (cmp_antisym x y). by destruct (cmp x y). Qed.

Lemma cmp_lt_ne (x y : A) : cmp x y = Lt → x ≠ y.
Proof. intros Hlt ->. by rewrite cmp_refl in Hlt. Qed.
End ord_facts.

#[export] Instance Z_Ord : Ord Z := Z.compare.
#[export] Instance Z_OrdLaws : OrdLaws Z.
Proof.
  split; unfold cmp, Z_Ord; intros.
  - apply Z.compare_eq_iff.
  - apply Z.compare_antisym.
  - rewrite Z.compare_lt_iff in *. lia.
Qed.

(** Strings are ordered by their bytes. *)
#[export] Instance string_Ord : Ord string := String.compare.

Lemma ascii_compare_lt_trans a b c :
  Ascii.compare a b = Lt → Ascii.compare b c = Lt → Ascii.compare a c = Lt.
Proof. unfold Ascii.compare. rewrite !N.compare_lt_iff. lia. Qed.

Lemma string_compare_lt_trans (x y z : string) :
  String.compare x y = Lt → String.compare y z = Lt → String.compare x z = Lt.
Proof.
  revert y z. induction x as [|a x IH]; intros [|b y] [|c z]; cbn; try done.
  destruct (Ascii.compare a b) eqn:Hab; try done.
  - apply Ascii.compare_eq_iff in Hab as ->.
    destruct (Ascii.compare b c); naive_solver.
  - intros _. destruct (Ascii.compare b c) eqn:Hbc; try done.
    + apply Ascii.compare_eq_iff in Hbc as ->. by rewrite Hab.
    + by rewrite (ascii_compare_lt_trans _ _ _ Hab Hbc).
Qed.

Lemma string_compare_refl (x : string) : String.compare x x = Eq.
Proof.
  induction x as [|a x IH]; cbn; [done|]. unfold Ascii.compare. by rewrite N.compare_refl.
Qed.

#[export] Instance string_OrdLaws : OrdLaws string.
Proof.
  split; unfold cmp, string_Ord; intros.
  - split; [apply String.compare_eq_iff|intros ->; apply string_compare_refl].
  - apply String.compare_antisym.
  - eauto using string_compare_lt_trans.
Qed.

(** The derived lexicographic order on pairs. *)
#[export] Instance pair_Ord {A B} `{Ord A, Ord B} : Ord (A * B) :=
  λ x y, match cmp x.1 y.1 with Eq => cmp x.2 y.2 | c => c end.
#[export] Instance pair_OrdLaws {A B} `{OrdLaws A, OrdLaws B} : OrdLaws (A * B).
Proof.
  split.
  - intros [a b] [a' b']. unfold cmp, pair_Ord; cbn.
    destruct (cmp a a') eqn:Ha.
    + apply cmp_eq_iff in Ha as ->. rewrite cmp_eq_iff. naive_solver.
    + pose proof (cmp_lt_ne _ _ Ha). naive_solver.
    + apply cmp_gt_lt, cmp_lt_ne in Ha. naive_solver.
  - intros [a b] [a' b']. unfold cmp, pair_Ord; cbn.
    rewrite (cmp_antisym a a'), (cmp_antisym b b'). by destruct (cmp a a').
  - intros [a b] [a' b'] [a'' b'']. unfold cmp, pair_Ord; cbn.
    destruct (cmp a a') eqn:Ha; try done.
    + apply cmp_eq_iff in Ha as ->. destruct (cmp a' a''); eauto using cmp_lt_trans.
    + intros _. destruct (cmp a' a'') eqn:Ha'; try done.
      * apply cmp_eq_iff in Ha' as ->. by rewrite Ha.
      * by rewrite (cmp_lt_trans _ _ _ Ha Ha').
Qed.

(** ** [BTreeMap]

    The map is the list of its entries in iteration order. *)
Section btree.
Context {K V : Type} `{OrdLaws K}.
Implicit Types (m : list (K * V)) (k : K) (v : V).

Fixpoint bt_get m k : option V :=
  match m with
  | [] => None
  | (k', v) :: rest => match cmp k k' with Eq => Some v | _ => bt_get rest k end
  end.

(** [f] receives the entry's current value, [None] when it is vacant. *)
Fixpoint bt_upsert (f : option V → V) k m : list (K * V) :=
  match m with
  | [] => [(k, f None)]
  | (k', v) :: rest =>
      match cmp k k' with
      | Lt => (k, f None) :: (k', v) :: rest
      | Eq => (k, f (Some v)) :: rest
      | Gt => (k', v) :: bt_upsert f k rest
      end
  end.

Definition bt_insert k v m : list (K * V) := bt_upsert (λ _, v) k m.

Definition bt_sorted m : Prop :=
  StronglySorted (λ a b : K * V, cmp a.1 b.1 = Lt) m.

Lemma bt_get_fresh m k :
  Forall (λ e : K * V, cmp k e.1 = Lt) m → bt_get m k = None.
Proof.
  induction 1 as [|[k' v'] m Hk _ IH]; cbn; [done|]. cbn in Hk. by rewrite Hk.
Qed.

Lemma bt_get_upsert_eq f k m :
  bt_sorted m → bt_get (bt_upsert f k m) k = Some (f (bt_get m k)).
Proof.
  induction 1 as [|[k' v] m Hm IH Hall]; cbn; [by rewrite cmp_refl|].
  destruct (cmp k k') eqn:Hc; cbn.
  - by rewrite cmp_refl.
  - rewrite cmp_refl. rewrite bt_get_fresh; [done|].
    eapply Forall_impl; [exact Hall|]. intros e He. eauto using cmp_lt_trans.
  - by rewrite Hc.
Qed.

Lemma bt_get_upsert_ne f k k' m :
  k ≠ k' → bt_get (bt_upsert f k m) k' = bt_get m k'.
Proof.
  intros Hne. induction m as [|[k0 v] m IH]; cbn.
  - destruct (cmp k' k) eqn:Hc; try done. apply cmp_eq_iff in Hc. congruence.
  - destruct (cmp k k0) eqn:Hc; cbn.
    + apply cmp_eq_iff in Hc as ->. destruct (cmp k' k0) eqn:Hc'; try done.
      apply cmp_eq_iff in Hc'. congruence.
    + destruct (cmp k' k) eqn:Hc'; try done. apply cmp_eq_iff in Hc'. congruence.
    + by rewrite IH.
Qed.

Lemma bt_upsert_keys f k m e :
  e ∈ bt_upsert f k m → e.1 = k ∨ e ∈ m.
Proof.
  induction m as [|[k0 v] m IH]; cbn.
  - intros ->%list_elem_of_singleton. by left.
  - destruct (cmp k k0); rewrite !elem_of_cons; naive_solver.
Qed.

Lemma bt_upsert_sorted f k m : bt_sorted m → bt_sorted (bt_upsert f k m).
Proof.
  induction 1 as [|[k' v] m Hm IH Hall]; cbn.
  { repeat constructor. }
  destruct (cmp k k') eqn:Hc.
  - apply cmp_eq_iff in Hc as <-. by constructor.
  - constructor; [by constructor|]. constructor; [done|].
    eapply Forall_impl; [exact Hall|]. cbn. eauto using cmp_lt_trans.
  - constructor; [done|]. apply Forall_forall. intros e He.
    apply bt_upsert_keys in He as [->|He]; cbn.
    + by apply cmp_gt_lt.
    + by eapply Forall_forall in Hall.
Qed.

Lemma bt_get_elem m k v : bt_sorted m → (k, v) ∈ m ↔ bt_get m k = Some v.
Proof.
  induction 1 as [|[k' v'] m Hm IH Hall]; cbn.
  { split; [by intros ?%not_elem_of_nil|done]. }
  rewrite elem_of_cons. destruct (cmp k k') eqn:Hc.
  - apply cmp_eq_iff in Hc as ->. split; [|naive_solver].
    intros [?|Hin]; [naive_solver|]. eapply Forall_forall in Hin; [|exact Hall].
    cbn in Hin. by rewrite cmp_refl in Hin.
  - rewrite IH. split; [|naive_solver]. intros [?|?]; [|done]. simplify_eq.
    by rewrite cmp_refl in Hc.
  - rewrite IH. split; [|naive_solver]. intros [?|?]; [|done]. simplify_eq.
    by rewrite cmp_refl in Hc.
Qed.

Lemma bt_sorted_NoDup m : bt_sorted m → NoDup m.*1.
Proof.
  induction 1 as [|[k v] m Hm IH Hall]; cbn; constructor; [|done].
  intros (e & -> & He)%list_elem_of_fmap.
  eapply Forall_forall in He; [|exact Hall]. cbn in He. by rewrite cmp_refl in He.
Qed.
End btree.

#[export] Hint Resolve bt_upsert_sorted : starring.

(** ** Vectors

    [if let Some(x) = v.iter_mut().find(p) { f(x) }]. *)
Fixpoint update_first {A} (p : A → bool) (f : A → A) (l : list A) : list A :=
  match l with
  | [] => []
  | x :: rest => if p x then f x :: rest else x :: update_first p f rest
  end.

Lemma update_first_map {A B} (g : A → B) p f l :
  (∀ x, p x = true → g (f x) = g x) → g <$> update_first p f l = g <$> l.
Proof.
  intros Hg. induction l as [|x l IH]; cbn; [done|].
  destruct (p x) eqn:Hp; cbn; [by rewrite Hg|by rewrite IH].
Qed.

(** With distinct keys, updating the element with a key keeps the others. *)
Lemma update_first_elem {A} (key : A → Z) f l (k : Z) x :
  NoDup (key <$> l) →
  x ∈ update_first (λ y, key y =? k) f l ↔
  (x ∈ l ∧ key x ≠ k) ∨ ∃ y, y ∈ l ∧ key y = k ∧ x = f y.
Proof.
  induction l as [|a l IH]; cbn; [set_solver|].
  intros [Ha Hnd]%NoDup_cons. destruct (Z.eqb_spec (key a) k) as [Hk|Hk].
  - assert (Hl : ∀ y, y ∈ l → key y ≠ k).
    { intros y Hy <-. apply Ha. rewrite Hk. by apply list_elem_of_fmap_2. }
    rewrite elem_of_cons. setoid_rewrite elem_of_cons. naive_solver.
  - rewrite elem_of_cons, IH by done. setoid_rewrite elem_of_cons. naive_solver.
Qed.

Lemma find_key_elem {A} (key : A → Z) l (k : Z) x :
  NoDup (key <$> l) →
  List.find (λ y, key y =? k) l = Some x ↔ x ∈ l ∧ key x = k.
Proof.
  induction l as [|a l IH]; cbn; [set_solver|].
  intros [Ha Hnd]%NoDup_cons. destruct (Z.eqb_spec (key a) k) as [Hk|Hk].
  - split; [intros [= <-]; set_solver|]. intros [[->|Hx]%elem_of_cons Hkx]; [done|].
    destruct Ha. rewrite Hk, <- Hkx. by apply list_elem_of_fmap_2.
  - rewrite IH by done. rewrite elem_of_cons. naive_solver.
Qed.

(** Sorted vectors. *)
Lemma sorted_filter {A} (R : A → A → Prop) (P : A → Prop) `{∀ x, Decision (P x)} l :
  StronglySorted R l → StronglySorted R (filter P l).
Proof.
  induction 1 as [|x l Hl IH Hx]; [constructor|]. rewrite filter_cons.
  case_decide; [|done]. constructor; [done|]. rewrite Forall_forall in *.
  intros y [_ Hy]%list_elem_of_filter. by apply Hx.
Qed.

Lemma filter_id {A} (P : A → Prop) `{∀ x, Decision (P x)} (l : list A) :
  (∀ x, x ∈ l → P x) → filter P l = l.
Proof.
  induction l as [|x l IH]; intros Hl; [done|].
  rewrite filter_cons_True by (apply Hl; left). f_equal. apply IH. intros y Hy. apply Hl. by right.
Qed.

Lemma sorted_app {A} (R : A → A → Prop) l l' :
  StronglySorted R (l ++ l') ↔
  StronglySorted R l ∧ StronglySorted R l' ∧ ∀ x y, x ∈ l → y ∈ l' → R x y.
Proof.
  induction l as [|x l IH]; cbn.
  { split; [|tauto]. intros H. split_and!; [constructor|done|]. intros x y Hx. by apply not_elem_of_nil in Hx. }
  split.
  - intros H. apply StronglySorted_inv in H as [H Hx]. apply IH in H as (H1 & H2 & H3).
    rewrite Forall_forall in Hx. split_and!; [|done|].
    + constructor; [done|]. apply Forall_forall. intros y Hy. apply Hx, elem_of_app. by left.
    + intros a b [->|Ha]%elem_of_cons Hb; [|by apply H3]. apply Hx, elem_of_app. by right.
  - intros (H1 & H2 & H3). apply StronglySorted_inv in H1 as [H1 Hx]. constructor.
    + apply IH. split_and!; [done|done|]. intros a b Ha. apply H3. by right.
    + rewrite Forall_forall in *. intros y [Hy|Hy]%elem_of_app; [by apply Hx|].
      apply H3; [left|done].
Qed.
