(* ===== verification/RustText.v ===== *)
(** * Unicode text

    The operations of [str] that look at characters rather than bytes. A [char]
    is a Unicode scalar value, a [Z]; [chars] reads the scalars of a UTF-8
    string and [of_chars] writes them back. A Rust string is always well formed,
    so what [chars] makes of ill-formed bytes (the replacement character) never
    matters. Searching and replacing act on the scalars. *)

From Stdlib Require Import ZArith Lia Ascii String.
From stdpp Require Import base decidable list strings numbers sets.
From S2P Require Import Prelude RustStd.
Open Scope Z_scope.

(** ** Scalars and UTF-8 *)
Definition is_scalar (c : Z) : bool :=
  ((0 <=? c) && (c <=? 55295)) || ((57344 <=? c) && (c <=? 1114111)).

Definition replacement_char : Z := 65533.

Definition scalar_or_replacement (c : Z) : Z :=
  if is_scalar c then c else replacement_char.

Definition byte_of (n : Z) : ascii := ascii_of_N (Z.to_N n).

(** [char::encode_utf8]. *)
Definition encode_char (c : Z) (rest : string) : string :=
  if c <? 128 then String (byte_of c) rest
  else if c <? 2048 then
    String (byte_of (192 + c / 64)) (String (byte_of (128 + c mod 64)) rest)
  else if c <? 65536 then
    String (byte_of (224 + c / 4096))
      (String (byte_of (128 + c / 64 mod 64)) (String (byte_of (128 + c mod 64)) rest))
  else
    String (byte_of (240 + c / 262144))
      (String (byte_of (128 + c / 4096 mod 64))
        (String (byte_of (128 + c / 64 mod 64)) (String (byte_of (128 + c mod 64)) rest))).

(** [iter.collect::<String>()]. *)
Fixpoint of_chars (cs : list Z) : string :=
  match cs with
  | [] => EmptyString
  | c :: rest => encode_char c (of_chars rest)
  end.

(** [str::chars]. *)
Fixpoint chars (s : string) : list Z :=
  match s with
  | EmptyString => []
  | String b1 r1 =>
      let x1 := byte_value b1 in
      if x1 <? 128 then x1 :: chars r1
      else match r1 with
      | EmptyString => [replacement_char]
      | String b2 r2 =>
          let x2 := byte_value b2 - 128 in
          if x1 <? 224 then scalar_or_replacement ((x1 - 192) * 64 + x2) :: chars r2
          else match r2 with
          | EmptyString => [replacement_char]
          | String b3 r3 =>
              let x3 := byte_value b3 - 128 in
              if x1 <? 240
              then scalar_or_replacement ((x1 - 224) * 4096 + x2 * 64 + x3) :: chars r3
              else match r3 with
              | EmptyString => [replacement_char]
              | String b4 r4 =>
                  let x4 := byte_value b4 - 128 in
                  scalar_or_replacement
                    ((x1 - 240) * 262144 + x2 * 4096 + x3 * 64 + x4) :: chars r4
              end
          end
      end
  end.

(** The well-formed strings. *)
Definition utf8 (s : string) : Prop := of_chars (chars s) = s.

Lemma is_scalar_spec c : is_scalar c = true ↔ 0 ≤ c ≤ 55295 ∨ 57344 ≤ c ≤ 1114111.
Proof. unfold is_scalar. rewrite orb_true_iff, !andb_true_iff, !Z.leb_le. lia. Qed.

Lemma byte_value_of n : 0 ≤ n < 256 → byte_value (byte_of n) = n.
Proof. intros Hn. unfold byte_value, byte_of. rewrite N_ascii_embedding; lia. Qed.

Lemma byte_value_range c : 0 ≤ byte_value c < 256.
Proof. unfold byte_value. pose proof (N_ascii_bounded c). lia. Qed.

Lemma scalar_or_replacement_scalar c : is_scalar (scalar_or_replacement c) = true.
Proof. unfold scalar_or_replacement. by destruct (is_scalar c) eqn:E. Qed.

Lemma scalar_or_replacement_id c : is_scalar c = true → scalar_or_replacement c = c.
Proof. unfold scalar_or_replacement. by intros ->. Qed.

(** Reading a character back. *)
Lemma chars_encode_char c rest :
  is_scalar c = true → chars (encode_char c rest) = c :: chars rest.
Proof.
  intros Hc. pose proof (proj1 (is_scalar_spec c) Hc) as Hr.
  pose proof (Z.div_mod c 64 ltac:(lia)). pose proof (Z.mod_pos_bound c 64 ltac:(lia)).
  pose proof (Z.div_mod (c / 64) 64 ltac:(lia)).
  pose proof (Z.mod_pos_bound (c / 64) 64 ltac:(lia)).
  pose proof (Z.div_mod (c / 4096) 64 ltac:(lia)).
  pose proof (Z.mod_pos_bound (c / 4096) 64 ltac:(lia)).
  assert (c / 64 / 64 = c / 4096) by (by rewrite Z.div_div by lia).
  assert (c / 4096 / 64 = c / 262144) by (by rewrite Z.div_div by lia).
  unfold encode_char.
  destruct (Z.ltb_spec c 128); [|destruct (Z.ltb_spec c 2048); [|destruct (Z.ltb_spec c 65536)]];
    cbn [chars]; rewrite !byte_value_of by lia.
  - by rewrite (proj2 (Z.ltb_lt c 128)) by lia.
  - rewrite (proj2 (Z.ltb_ge _ 128)), (proj2 (Z.ltb_lt _ 224)) by lia.
    f_equal. replace (_ * 64 + _) with c by lia. by apply scalar_or_replacement_id.
  - rewrite (proj2 (Z.ltb_ge _ 128)), (proj2 (Z.ltb_ge _ 224)), (proj2 (Z.ltb_lt _ 240)) by lia.
    f_equal. replace (_ * 4096 + _ + _) with c by lia. by apply scalar_or_replacement_id.
  - rewrite (proj2 (Z.ltb_ge _ 128)), (proj2 (Z.ltb_ge _ 224)), (proj2 (Z.ltb_ge _ 240)) by lia.
    f_equal. replace (_ * 262144 + _ + _ + _) with c by lia. by apply scalar_or_replacement_id.
Qed.

Lemma chars_of_chars cs : Forall (λ c, is_scalar c = true) cs → chars (of_chars cs) = cs.
Proof.
  induction 1 as [|c cs Hc Hcs IH]; [done|]. cbn [of_chars].
  rewrite chars_encode_char by done. by rewrite IH.
Qed.

Lemma chars_scalars s : Forall (λ c, is_scalar c = true) (chars s).
Proof.
  remember (String.length s) as n eqn:Hn. revert s Hn.
  induction (lt_wf n) as [n _ IH]. intros s ->.
  destruct s as [|b1 r1]; cbn [chars]; [constructor|].
  pose proof (byte_value_range b1).
  destruct (Z.ltb_spec (byte_value b1) 128).
  { constructor; [apply is_scalar_spec; lia|]. by eapply IH; [|done]; cbn; lia. }
  destruct r1 as [|b2 r2]; [by repeat constructor|].
  destruct (byte_value b1 <? 224).
  { constructor; [apply scalar_or_replacement_scalar|]. by eapply IH; [|done]; cbn; lia. }
  destruct r2 as [|b3 r3]; [by repeat constructor|].
  destruct (byte_value b1 <? 240).
  { constructor; [apply scalar_or_replacement_scalar|]. by eapply IH; [|done]; cbn; lia. }
  destruct r3 as [|b4 r4]; [by repeat constructor|].
  constructor; [apply scalar_or_replacement_scalar|]. by eapply IH; [|done]; cbn; lia.
Qed.

#[export] Hint Resolve chars_scalars : starring.

Lemma of_chars_utf8 cs : Forall (λ c, is_scalar c = true) cs → utf8 (of_chars cs).
Proof. intros H. unfold utf8. by rewrite chars_of_chars. Qed.

Lemma of_chars_empty cs : of_chars cs = EmptyString ↔ cs = [].
Proof.
  split; [|by intros ->]. destruct cs as [|c cs]; cbn; [done|]. unfold encode_char.
  by repeat case_match.
Qed.

(** ASCII text is its bytes. *)
Lemma chars_ascii s : str_all (byte_in 0 127) s = true → chars s = map byte_value (String.list_ascii_of_string s).
Proof.
  induction s as [|c s IH]; cbn; [done|]. intros [Hc Hs]%andb_true_iff.
  unfold byte_in in Hc. apply andb_true_iff in Hc as [_ Hc%Z.leb_le].
  rewrite (proj2 (Z.ltb_lt _ 128)) by lia. by rewrite IH.
Qed.

(** ** Character classes

    [char::is_control] is the general category [Cc]; [char::is_whitespace] is
    the property [White_Space]. *)
Definition char_in (lo hi c : Z) : bool := (lo <=? c) && (c <=? hi).
Definition is_control (c : Z) : bool := char_in 0 31 c || char_in 127 159 c.
Definition is_whitespace (c : Z) : bool :=
  char_in 9 13 c || char_in 32 32 c || char_in 133 133 c || char_in 160 160 c
  || char_in 5760 5760 c || char_in 8192 8202 c || char_in 8232 8233 c
  || char_in 8239 8239 c || char_in 8287 8287 c || char_in 12288 12288 c.
Definition char_is_ascii_lowercase (c : Z) : bool := char_in 97 122 c.
Definition char_is_ascii_uppercase (c : Z) : bool := char_in 65 90 c.
Definition char_is_ascii_digit (c : Z) : bool := char_in 48 57 c.

(** [char::to_lowercase] as far as ASCII is concerned: beside the ASCII capitals
    only U+0130 and U+212A have an ASCII character in their lowercase. Any other
    character beyond ASCII has a lowercase beyond ASCII, and stands for it. *)
Definition to_lowercase (c : Z) : list Z :=
  if char_is_ascii_uppercase c then [c + 32]
  else if c =? 304 then [105; 775]
  else if c =? 8490 then [107]
  else [c].

(** ** Trimming and splitting *)
Fixpoint drop_while (P : Z → bool) (cs : list Z) : list Z :=
  match cs with
  | [] => []
  | c :: rest => if P c then drop_while P rest else cs
  end.

Definition trim_chars (P : Z → bool) (cs : list Z) : list Z :=
  reverse (drop_while P (reverse (drop_while P cs))).

(** [str::trim] and [str::trim_matches]. *)
Definition str_trim (s : string) : string := of_chars (trim_chars is_whitespace (chars s)).
Definition str_trim_matches (c : Z) (s : string) : string :=
  of_chars (trim_chars (Z.eqb c) (chars s)).

(** [str::split_whitespace]: the maximal runs without white space; [word] is the
    run being read. *)
Fixpoint split_words (word cs : list Z) : list (list Z) :=
  match cs with
  | [] => match word with [] => [] | _ => [word] end
  | c :: rest =>
      if is_whitespace c
      then match word with [] => split_words [] rest | _ => word :: split_words [] rest end
      else split_words (word ++ [c]) rest
  end.

(** [words.join(sep)]. *)
Fixpoint join_chars (sep : list Z) (words : list (list Z)) : list Z :=
  match words with
  | [] => []
  | [w] => w
  | w :: rest => w ++ sep ++ join_chars sep rest
  end.

(** [value.encode_utf16().count()]. *)
Definition utf16_len (s : string) : Z :=
  foldr (λ c n, (if c <? 65536 then 1 else 2) + n) 0 (chars s).

(** ** Searching and replacing *)
Fixpoint is_prefix (p cs : list Z) : bool :=
  match p, cs with
  | [], _ => true
  | a :: p', c :: cs' => (a =? c) && is_prefix p' cs'
  | _ :: _, [] => false
  end.

(** [str::contains]. *)
Fixpoint contains (p cs : list Z) : bool :=
  is_prefix p cs || match cs with [] => false | _ :: rest => contains p rest end.

(** [str::replace] for a pattern that is not empty: occurrences are found from the
    left and do not overlap; [skip] characters of the last one remain to be
    dropped. *)
Fixpoint replace_from (p r : list Z) (skip : nat) (cs : list Z) : list Z :=
  match cs with
  | [] => []
  | c :: rest =>
      match skip with
      | S k => replace_from p r k rest
      | O => if is_prefix p cs then r ++ replace_from p r (length p - 1) rest
             else c :: replace_from p r 0 rest
      end
  end.

Definition replace_chars (p r cs : list Z) : list Z := replace_from p r 0 cs.
Definition str_replace (p r s : string) : string :=
  of_chars (replace_chars (chars p) (chars r) (chars s)).

Lemma is_prefix_spec p cs : is_prefix p cs = true ↔ p `prefix_of` cs.
Proof.
  revert cs. induction p as [|a p IH]; intros cs; cbn.
  { split; [intros _; apply prefix_nil|done]. }
  destruct cs as [|c cs].
  { split; [done|intros [k Hk]; done]. }
  rewrite andb_true_iff, Z.eqb_eq, IH. split.
  - intros [-> H]. by apply prefix_cons.
  - intros H. split; [by eapply prefix_cons_inv_1|by eapply prefix_cons_inv_2].
Qed.

Lemma contains_cons p c cs :
  contains p (c :: cs) = is_prefix p (c :: cs) || contains p cs.
Proof. done. Qed.

Lemma contains_spec p cs : contains p cs = true ↔ ∃ a b, cs = a ++ p ++ b.
Proof.
  induction cs as [|c cs IH].
  - cbn. rewrite orb_false_r, is_prefix_spec. split.
    + intros [k Hk]. exists [], k. done.
    + intros (a & b & H). destruct a; [|done]. by exists b.
  - rewrite contains_cons, orb_true_iff, is_prefix_spec, IH. split.
    + intros [[k Hk]|(a & b & ->)]; [by exists [], k|by exists (c :: a), b].
    + intros (a & b & H). destruct a as [|x a].
      * left. by exists b.
      * right. injection H as _ ->. eauto.
Qed.

Lemma replace_from_skip p r k cs :
  replace_from p r k cs = replace_chars p r (drop k cs).
Proof. revert k. induction cs as [|c cs IH]; intros [|k]; cbn; try done. Qed.

Lemma replace_chars_unfold p r cs : p ≠ [] →
  replace_chars p r cs =
  match cs with
  | [] => []
  | c :: rest =>
      if is_prefix p cs then r ++ replace_chars p r (drop (length p) cs)
      else c :: replace_chars p r rest
  end.
Proof.
  intros Hp. destruct cs as [|c rest]; [done|]. unfold replace_chars at 1.
  cbn [replace_from]. destruct (is_prefix p (c :: rest)); [|done].
  rewrite replace_from_skip. destruct p as [|a p]; [done|]. cbn. by rewrite Nat.sub_0_r.
Qed.

Lemma contains_past (c : Z) t u cs : c ∉ u → contains (c :: t) (u ++ cs) = contains (c :: t) cs.
Proof.
  induction u as [|x u IH]; cbn [app]; [done|]. intros Hc. rewrite contains_cons.
  rewrite IH by set_solver. destruct (is_prefix (c :: t) (x :: u ++ cs)) eqn:E; [|done].
  apply is_prefix_spec, prefix_cons_inv_1 in E. set_solver.
Qed.

(** Breaking a pattern [c :: t] by a character [z] it does not have. *)
Section break.
Context (c z : Z) (t : list Z) (Hz : z ∉ c :: t).
Abbreviation broken := (replace_chars (c :: t) (c :: z :: t)).

Lemma broken_cases cs :
  (cs = [] ∧ broken cs = []) ∨
  (∃ rest, cs = c :: t ++ rest ∧ broken cs = c :: z :: t ++ broken rest) ∨
  (∃ x rest, cs = x :: rest ∧ is_prefix (c :: t) cs = false ∧ broken cs = x :: broken rest).
Proof.
  rewrite replace_chars_unfold by done. destruct cs as [|x rest]; [by left|right].
  destruct (is_prefix (c :: t) (x :: rest)) eqn:E; [left|right; eauto].
  apply is_prefix_spec in E as [k Hk]. rewrite Hk. exists k. split; [done|].
  by rewrite drop_app_length.
Qed.

Lemma broken_prefix u q cs :
  z ∉ q → q `prefix_of` u ++ broken cs → q `prefix_of` u ++ cs.
Proof.
  intros Hq. remember (length u + length cs)%nat as n eqn:Hn. revert u q cs Hq Hn.
  induction (lt_wf n) as [n _ IH]. intros u q cs Hq -> H.
  destruct q as [|y q]; [apply prefix_nil|].
  assert (z ≠ y ∧ z ∉ q) as [Hy Hq'] by (rewrite elem_of_cons in Hq; tauto).
  destruct u as [|x u].
  - cbn in *. destruct (broken_cases cs) as [[-> Hb]|[(rest & -> & Hb)|(x & rest & -> & _ & Hb)]].
    + by rewrite Hb in H.
    + rewrite Hb in H. rewrite (prefix_cons_inv_1 _ _ _ _ H).
      apply prefix_cons_inv_2 in H. destruct q as [|y' q].
      * apply prefix_cons, prefix_nil.
      * rewrite (prefix_cons_inv_1 _ _ _ _ H) in Hq'. set_solver.
    + rewrite Hb in H. rewrite (prefix_cons_inv_1 _ _ _ _ H).
      apply prefix_cons, (IH (length rest) ltac:(cbn; lia) [] q rest Hq' eq_refl).
      by eapply prefix_cons_inv_2.
  - cbn in *. rewrite (prefix_cons_inv_1 _ _ _ _ H).
    apply prefix_cons, (IH (length u + length cs)%nat ltac:(cbn; lia) u q cs Hq' eq_refl). by eapply prefix_cons_inv_2.
Qed.

Lemma contains_skip q x cs : contains q cs = true → contains q (x :: cs) = true.
Proof. intros H. rewrite contains_cons, H. apply orb_true_r. Qed.

Lemma contains_skips q u cs : contains q cs = true → contains q (u ++ cs) = true.
Proof. intros H. induction u; cbn [app]; [done|by apply contains_skip]. Qed.

(** Breaking one pattern does not create another that lacks [z]. *)
Lemma broken_contains u q cs :
  z ∉ q → contains q (u ++ broken cs) = true → contains q (u ++ cs) = true.
Proof.
  intros Hq. remember (length u + length cs)%nat as n eqn:Hn. revert u cs Hn.
  induction (lt_wf n) as [n _ IH]. intros u cs -> H.
  assert (∀ l, q `prefix_of` l → contains q l = true) as Hpre.
  { intros l [k ->]. apply contains_spec. by exists [], k. }
  destruct u as [|x u].
  - cbn [app] in *.
    destruct (broken_cases cs) as [[-> Hb]|[(rest & -> & Hb)|(x & rest & -> & _ & Hb)]].
    + by rewrite Hb in H.
    + rewrite Hb, contains_cons, <- Hb, orb_true_iff, is_prefix_spec in H.
      destruct H as [H|H]; [by apply Hpre, (broken_prefix [] q)|].
      rewrite contains_cons, orb_true_iff, is_prefix_spec in H. destruct H as [H|H].
      * destruct q as [|y q]; [apply Hpre, prefix_nil|].
        rewrite (prefix_cons_inv_1 _ _ _ _ H) in Hq. set_solver.
      * apply contains_skip, (IH (length t + length rest)%nat); [|done|done].
        cbn. rewrite length_app. lia.
    + rewrite Hb, contains_cons, <- Hb, orb_true_iff, is_prefix_spec in H.
      destruct H as [H|H]; [by apply Hpre, (broken_prefix [] q)|].
      apply contains_skip, (IH (length rest) ltac:(cbn; lia) [] rest eq_refl H).
  - cbn [app] in *. rewrite contains_cons, orb_true_iff, is_prefix_spec in H.
    destruct H as [H|H]; [by apply Hpre, (broken_prefix (x :: u) q)|].
    apply contains_skip, (IH (length u + length cs)%nat); [cbn; lia|done|done].
Qed.

(** The pattern itself is gone when its first character does not come back in it. *)
Lemma broken_absent cs : c ∉ t → t ≠ [] → contains (c :: t) (broken cs) = false.
Proof.
  intros Hc Ht. remember (length cs) as n eqn:Hn. revert cs Hn.
  induction (lt_wf n) as [n _ IH]. intros cs ->.
  destruct (broken_cases cs) as [[-> Hb]|[(rest & -> & Hb)|(x & rest & -> & E & Hb)]].
  - by rewrite Hb.
  - rewrite Hb, !contains_cons, !orb_false_iff. split_and!.
    + apply not_true_iff_false. rewrite is_prefix_spec. intros H%prefix_cons_inv_2.
      destruct t as [|y t']; [done|]. rewrite (prefix_cons_inv_1 _ _ _ _ H) in Hz. set_solver.
    + apply not_true_iff_false. rewrite is_prefix_spec. intros H%prefix_cons_inv_1. set_solver.
    + rewrite contains_past by done.
      apply (IH (length rest)); [cbn; rewrite length_app; lia|done].
  - rewrite Hb, contains_cons, orb_false_iff. split; [|apply (IH (length rest)); [cbn; lia|done]].
    apply not_true_iff_false. rewrite is_prefix_spec. intros H.
    apply (broken_prefix [x]) in H; [|done]. apply is_prefix_spec in H. cbn [app] in H. congruence.
Qed.
End break.

(** An occurrence does not reach across a character the pattern lacks. *)
Lemma is_prefix_stop x q a b : x ∉ q → is_prefix q (a ++ x :: b) = is_prefix q a.
Proof.
  revert a. induction q as [|y q IH]; intros [|c a] Hx; cbn; try done.
  - assert (y ≠ x) as Hne by set_solver. by rewrite (proj2 (Z.eqb_neq y x)).
  - rewrite IH by set_solver. done.
Qed.

Lemma contains_stop x q a b :
  x ∉ q → contains q (a ++ x :: b) = contains q a || contains q b.
Proof.
  intros Hx. induction a as [|c a IH].
  - pose proof (is_prefix_stop x q [] b Hx) as H. cbn [app] in *.
    rewrite contains_cons, H. cbn [contains]. by rewrite orb_false_r.
  - pose proof (is_prefix_stop x q (c :: a) b Hx) as H. cbn [app] in *.
    rewrite !contains_cons, IH, H. by rewrite orb_assoc.
Qed.

Lemma contains_join_space q ws :
  32 ∉ q → q ≠ [] → contains q (join_chars [32] ws) = true → ∃ w, w ∈ ws ∧ contains q w = true.
Proof.
  intros Hs Hq. induction ws as [|w ws IH]; cbn [join_chars].
  { destruct q; done. }
  destruct ws as [|w' ws]; [intros H; exists w; split; [left|done]|].
  cbn [app]. rewrite contains_stop by done. rewrite orb_true_iff. intros [H|H].
  - exists w. split; [left|done].
  - destruct (IH H) as (v & Hv & Hc). exists v. split; [by right|done].
Qed.

(** The words of a text are parts of it, without white space. *)
Lemma split_words_infix word cs w :
  w ∈ split_words word cs → ∃ a b, word ++ cs = a ++ w ++ b.
Proof.
  revert word. induction cs as [|c cs IH]; intros word; cbn [split_words].
  - destruct word; [set_solver|]. rewrite list_elem_of_singleton. intros ->.
    exists [], []. by rewrite !app_nil_r.
  - destruct (is_whitespace c).
    + assert (w ∈ split_words [] cs → ∃ a b, word ++ c :: cs = a ++ w ++ b) as Hrest.
      { intros (a & b & H)%IH. cbn in H. rewrite H. exists (word ++ c :: a), b. cbn. by rewrite <- app_assoc. }
      destruct word as [|x word]; [done|]. rewrite elem_of_cons. intros [->|?]; [|by auto].
      by exists [], (c :: cs).
    + intros (a & b & H)%IH. exists a, b. by rewrite <- H, <- app_assoc.
Qed.

Lemma split_words_plain word cs w :
  Forall (λ c, is_whitespace c = false) word → w ∈ split_words word cs →
  w ≠ [] ∧ Forall (λ c, is_whitespace c = false) w.
Proof.
  revert word. induction cs as [|c cs IH]; intros word Hw; cbn [split_words].
  - destruct word; [set_solver|]. rewrite list_elem_of_singleton. by intros ->.
  - destruct (is_whitespace c) eqn:E.
    + destruct word as [|x word]; [by apply IH|]. rewrite elem_of_cons. intros [->|?]; [done|].
      by apply (IH []).
    + apply IH. apply Forall_app. by split; [|constructor].
Qed.

Lemma contains_infix q a w b : contains q w = true → contains q (a ++ w ++ b) = true.
Proof.
  rewrite !contains_spec. intros (u & v & ->). exists (a ++ u), (v ++ b).
  by rewrite <- !app_assoc.
Qed.

(** ** Trimming *)
Lemma drop_while_head P cs : match drop_while P cs with [] => True | c :: _ => P c = false end.
Proof. induction cs as [|c cs IH]; cbn; [done|]. by destruct (P c) eqn:E. Qed.

Lemma drop_while_suffix P cs : ∃ pre, cs = pre ++ drop_while P cs.
Proof.
  induction cs as [|c cs [pre IH]]; cbn; [by exists []|]. destruct (P c); [|by exists []].
  exists (c :: pre). cbn. by rewrite <- IH.
Qed.

Lemma trim_chars_infix P cs : ∃ a b, cs = a ++ trim_chars P cs ++ b.
Proof.
  unfold trim_chars. destruct (drop_while_suffix P cs) as [a Ha].
  destruct (drop_while_suffix P (reverse (drop_while P cs))) as [b Hb].
  exists a, (reverse b). rewrite <- reverse_app, <- Hb, reverse_involutive. done.
Qed.

Lemma trim_chars_head P cs : match trim_chars P cs with [] => True | c :: _ => P c = false end.
Proof.
  unfold trim_chars. pose proof (drop_while_head P cs) as Hh.
  destruct (drop_while P cs) as [|c l]; [done|].
  destruct (drop_while_suffix P (reverse (c :: l))) as [b Hb].
  pose proof (drop_while_head P (reverse (c :: l))) as Hd.
  destruct (drop_while P (reverse (c :: l))) as [|d e] eqn:E; [done|].
  assert (reverse (d :: e) ++ reverse b = c :: l) as H.
  { rewrite <- reverse_app, <- Hb. by rewrite reverse_involutive. }
  destruct (reverse (d :: e)) as [|x y]; [done|]. by injection H as -> _.
Qed.

Lemma trim_chars_last P cs : match last (trim_chars P cs) with None => True | Some c => P c = false end.
Proof.
  unfold trim_chars. pose proof (drop_while_head P (reverse (drop_while P cs))) as H.
  destruct (drop_while P (reverse (drop_while P cs))) as [|d e]; [done|].
  by rewrite reverse_cons, last_snoc.
Qed.

(** ** Searching in the bytes

    [str::strip_prefix] and [str::find]; the result of a search is the text before
    the match and the text after it. *)
Fixpoint strip_prefix (p s : string) : option string :=
  match p, s with
  | EmptyString, _ => Some s
  | String a p', String b s' => if Ascii.eqb a b then strip_prefix p' s' else None
  | String _ _, EmptyString => None
  end.

Fixpoint str_find (p s : string) : option (string * string) :=
  match strip_prefix p s with
  | Some after => Some (EmptyString, after)
  | None =>
      match s with
      | EmptyString => None
      | String c s' =>
          match str_find p s' with
          | Some (before, after) => Some (String c before, after)
          | None => None
          end
      end
  end.

Lemma str_app_cons c (a b : string) : (String c a +:+ b = String c (a +:+ b))%string.
Proof. done. Qed.

Lemma str_app_nil (a : string) : (EmptyString +:+ a = a)%string.
Proof. done. Qed.

Lemma str_app_assoc (a b c : string) : (a +:+ b +:+ c = (a +:+ b) +:+ c)%string.
Proof. induction a as [|x a IH]; [done|]. by rewrite !str_app_cons, IH. Qed.

Lemma strip_prefix_spec p s r : strip_prefix p s = Some r ↔ s = (p +:+ r)%string.
Proof.
  revert s. induction p as [|a p IH]; intros [|b s]; cbn [strip_prefix];
    rewrite ?str_app_nil, ?str_app_cons; try naive_solver.
  destruct (Ascii.eqb_spec a b) as [->|Hne]; [|naive_solver]. rewrite IH. naive_solver.
Qed.

Lemma str_find_Some p s a b : str_find p s = Some (a, b) → s = (a +:+ p +:+ b)%string.
Proof.
  revert a. induction s as [|c s IH]; intros a; cbn [str_find].
  - destruct (strip_prefix p EmptyString) eqn:E; [|done]. intros [= <- <-].
    by apply strip_prefix_spec in E.
  - destruct (strip_prefix p (String c s)) eqn:E.
    + intros [= <- <-]. by apply strip_prefix_spec in E.
    + destruct (str_find p s) as [[u v]|]; [|done]. intros [= <- <-].
      by rewrite str_app_cons, <- (IH u).
Qed.

(** The match found is the first one. *)
Lemma str_find_first p s a b :
  p ≠ EmptyString → str_find p s = Some (a, b) → str_find p a = None.
Proof.
  intros Hp. revert a. induction s as [|c s IH]; intros a H; cbn [str_find] in H.
  - destruct p; [done|]. done.
  - destruct (strip_prefix p (String c s)) eqn:E.
    + injection H as <- <-. by destruct p.
    + destruct (str_find p s) as [[u v]|] eqn:F; [|done]. injection H as <- <-.
      cbn [str_find]. rewrite (IH u eq_refl).
      destruct (strip_prefix p (String c u)) eqn:G; [|done].
      apply str_find_Some in F. apply strip_prefix_spec in G. exfalso.
      enough (strip_prefix p (String c s) = Some (s0 +:+ p +:+ v)%string) by congruence.
      apply strip_prefix_spec. by rewrite str_app_assoc, <- G, str_app_cons, <- F.
Qed.
