(* ===== verification/DiscordModel.v ===== *)
(** * The Discord domain model

    [crates/discord-model]: identifiers, permission bits and the guild state
    every other component reads. The identifier newtypes over [u64] are [Z];
    a permission set is the [u64] of its bits. *)

From Stdlib Require Import ZArith Lia String.
From stdpp Require Import base decidable list strings gmap numbers.
From S2P Require Import Prelude RustStd.
Open Scope Z_scope.

Abbreviation GuildId := Z (only parsing).
Abbreviation RoleId := Z (only parsing).
Abbreviation ChannelId := Z (only parsing).
Abbreviation UserId := Z (only parsing).
Abbreviation MessageId := Z (only parsing).
Abbreviation Permissions := Z (only parsing).

(** ** Identifiers on the wire

    Identifiers travel as decimal strings. *)
Definition id_serialize (id : Z) : string := print_u64 id.
Definition id_deserialize (s : string) : option Z := parse_u64 s.

(** ** Permission bits *)
Definition CREATE_INSTANT_INVITE : Permissions := Z.shiftl 1 0.
Definition KICK_MEMBERS : Permissions := Z.shiftl 1 1.
Definition BAN_MEMBERS : Permissions := Z.shiftl 1 2.
Definition ADMINISTRATOR : Permissions := Z.shiftl 1 3.
Definition MANAGE_CHANNELS : Permissions := Z.shiftl 1 4.
Definition MANAGE_GUILD : Permissions := Z.shiftl 1 5.
Definition ADD_REACTIONS : Permissions := Z.shiftl 1 6.
Definition VIEW_CHANNEL : Permissions := Z.shiftl 1 10.
Definition SEND_MESSAGES : Permissions := Z.shiftl 1 11.
Definition MANAGE_MESSAGES : Permissions := Z.shiftl 1 13.
Definition EMBED_LINKS : Permissions := Z.shiftl 1 14.
Definition ATTACH_FILES : Permissions := Z.shiftl 1 15.
Definition READ_MESSAGE_HISTORY : Permissions := Z.shiftl 1 16.
Definition MENTION_EVERYONE : Permissions := Z.shiftl 1 17.
Definition CONNECT : Permissions := Z.shiftl 1 20.
Definition SPEAK : Permissions := Z.shiftl 1 21.
Definition MANAGE_ROLES : Permissions := Z.shiftl 1 28.
Definition MODERATE_MEMBERS : Permissions := Z.shiftl 1 40.

Definition perms_empty : Permissions := 0.
Definition perms_union (a b : Permissions) : Permissions := Z.lor a b.
Definition perms_contains (a b : Permissions) : bool := Z.land a b =? b.

(** [Permissions::all()]: the union of the named flags. *)
Definition perms_all : Permissions :=
  foldr perms_union perms_empty
    [CREATE_INSTANT_INVITE; KICK_MEMBERS; BAN_MEMBERS; ADMINISTRATOR; MANAGE_CHANNELS;
     MANAGE_GUILD; ADD_REACTIONS; VIEW_CHANNEL; SEND_MESSAGES; MANAGE_MESSAGES;
     EMBED_LINKS; ATTACH_FILES; READ_MESSAGE_HISTORY; MENTION_EVERYONE; CONNECT; SPEAK;
     MANAGE_ROLES; MODERATE_MEMBERS].

(** ** Entities *)
Inductive ChannelType := Text | Voice | Category.

Inductive OverwriteTarget :=
| TargetRole (role : RoleId)
| TargetMember (user : UserId).

Record Guild := mkGuild {
  guild_id : GuildId;
  guild_name : string;
  guild_owner_id : UserId;
}.

Record Role := mkRole {
  role_id : RoleId;
  role_name : string;
  role_permissions : Permissions;
  role_position : Z;
  role_managed : bool;
}.

Record PermissionOverwrite := mkOverwrite {
  ow_target : OverwriteTarget;
  ow_allow : Permissions;
  ow_deny : Permissions;
}.

Record Channel := mkChannel {
  channel_id : ChannelId;
  channel_name : string;
  channel_kind : ChannelType;
  channel_parent_id : option ChannelId;
  channel_position : Z;
  channel_overwrites : list PermissionOverwrite;
}.

Record Member := mkMember {
  member_user_id : UserId;
  member_roles : list RoleId;
}.

Record GuildState := mkGuildState {
  gs_guild : Guild;
  gs_roles : list Role;
  gs_channels : list Channel;
  gs_members : list Member;
}.

#[export] Instance ChannelType_eq_dec : EqDecision ChannelType.
Proof. solve_decision. Defined.
#[export] Instance OverwriteTarget_eq_dec : EqDecision OverwriteTarget.
Proof. solve_decision. Defined.
#[export] Instance Guild_eq_dec : EqDecision Guild.
Proof. solve_decision. Defined.
#[export] Instance Role_eq_dec : EqDecision Role.
Proof. solve_decision. Defined.
#[export] Instance PermissionOverwrite_eq_dec : EqDecision PermissionOverwrite.
Proof. solve_decision. Defined.
#[export] Instance Channel_eq_dec : EqDecision Channel.
Proof. solve_decision. Defined.
#[export] Instance Member_eq_dec : EqDecision Member.
Proof. solve_decision. Defined.
#[export] Instance GuildState_eq_dec : EqDecision GuildState.
Proof. solve_decision. Defined.

(** ** Well-formed guild snapshots

    Discord identifies roles and channels by id. *)
Record guild_wf (g : GuildState) : Prop := {
  wf_roles_nodup : NoDup (role_id <$> gs_roles g);
  wf_channels_nodup : NoDup (channel_id <$> gs_channels g);
}.

Lemma perms_contains_spec a b :
  perms_contains a b = true ↔ ∀ i, 0 ≤ i → Z.testbit b i = true → Z.testbit a i = true.
Proof.
  unfold perms_contains. rewrite Z.eqb_eq. split.
  - intros Heq i Hi Hb. rewrite <- Heq, Z.land_spec in Hb.
    by apply andb_prop in Hb as [? _].
  - intros Hsub. apply Z.bits_inj'. intros i Hi. rewrite Z.land_spec.
    destruct (Z.testbit b i) eqn:Hb; [|by rewrite andb_false_r].
    by rewrite (Hsub i Hi Hb).
Qed.

Lemma perms_contains_flag a n :
  0 ≤ n → perms_contains a (Z.shiftl 1 n) = Z.testbit a n.
Proof.
  intros Hn. apply eq_bool_prop_intro. rewrite !Is_true_true, perms_contains_spec.
  rewrite Z.shiftl_1_l. split.
  - intros Hsub. apply Hsub; [done|]. by apply Z.pow2_bits_true.
  - intros Ha i Hi Hb. rewrite Z.pow2_bits_eqb in Hb by done.
    by apply Z.eqb_eq in Hb as <-.
Qed.

(** Identifiers survive the wire: every [u64] identifier is read back from the
    decimal string it is written as. *)
Theorem ids_round_trip id : u64_valid id → id_deserialize (id_serialize id) = Some id.
Proof. apply parse_print_u64. Qed.
