(* ===== verification/DesiredState.v ===== *)
(** * The desired-state language

    [crates/desired-state]: the configuration document an operator or the AI
    gateway authors, and [DesiredState::validate]. A [ResourceKey] is its
    string. *)

From Stdlib Require Import ZArith Lia String.
From stdpp Require Import base decidable list strings gmap.
From S2P Require Import Prelude RustStd DiscordModel.

Abbreviation ResourceKey := string (only parsing).

Inductive MatchStrategy :=
| ByName
| ByExplicitId (id : string).

Inductive Ownership := Managed | Adopted | Referenced.

Inductive ResourceState := Present | Absent.

Record Identity := mkIdentity {
  id_key : ResourceKey;
  id_match_by : MatchStrategy;
  id_ownership : Ownership;
  id_state : ResourceState;
}.

Inductive Capability :=
| View | Send | ReadHistory | AddReactions | AttachFiles | EmbedLinks
| ManageMessages | Connect | Speak.

Record AccessGrant := mkGrant {
  grant_allow : list Capability;
  grant_deny : list Capability;
}.

Record AccessIntent := mkAccess {
  access_everyone : option AccessGrant;
  access_roles : list (ResourceKey * AccessGrant);
}.

Inductive OverwriteOp := OpAdd | OpRemove | OpReplace.

Inductive OverwriteTargetIntent :=
| IntentRole (key : ResourceKey)
| IntentMember (id : string).

Record PermissionOverwriteIntent := mkOverwriteIntent {
  oi_target : OverwriteTargetIntent;
  oi_op : OverwriteOp;
  oi_allow : Permissions;
  oi_deny : Permissions;
}.

Record RoleIntent := mkRoleIntent {
  ri_identity : Identity;
  ri_name : option string;
  ri_permissions : option Permissions;
}.

Record ChannelIntent := mkChannelIntent {
  ci_identity : Identity;
  ci_name : option string;
  ci_channel_type : option ChannelType;
  ci_parent : option ResourceKey;
  ci_access : option AccessIntent;
  ci_raw_overwrites : option (list PermissionOverwriteIntent);
}.

Record VerificationIntent := mkVerification {
  vi_identity : Identity;
  vi_channel : ResourceKey;
  vi_grants_role : ResourceKey;
}.

Inductive FeatureIntent :=
| Verification (v : VerificationIntent)
| Moderation
| Logging.

Definition feature_identity (f : FeatureIntent) : option Identity :=
  match f with
  | Verification v => Some (vi_identity v)
  | Moderation | Logging => None
  end.

Inductive DesiredStateMode := Patch | ScopedAuthoritative | FullAuthoritative.

Inductive ResourceScope :=
| ScopeAll
| ScopeKeys (keys : list ResourceKey)
| ScopeNamePrefix (prefix : string).

Record Scope_ := mkScope {
  scope_roles : option ResourceScope;
  scope_channels : option ResourceScope;
}.

Record DesiredState := mkDesiredState {
  ds_mode : DesiredStateMode;
  ds_scope : option Scope_;
  ds_roles : list RoleIntent;
  ds_channels : list ChannelIntent;
  ds_features : list FeatureIntent;
}.

#[export] Instance MatchStrategy_eq_dec : EqDecision MatchStrategy.
Proof. solve_decision. Defined.
#[export] Instance Ownership_eq_dec : EqDecision Ownership.
Proof. solve_decision. Defined.
#[export] Instance ResourceState_eq_dec : EqDecision ResourceState.
Proof. solve_decision. Defined.
#[export] Instance DesiredStateMode_eq_dec : EqDecision DesiredStateMode.
Proof. solve_decision. Defined.
#[export] Instance ResourceScope_eq_dec : EqDecision ResourceScope.
Proof. solve_decision. Defined.
#[export] Instance Scope_eq_dec : EqDecision Scope_.
Proof. solve_decision. Defined.
#[export] Instance Identity_eq_dec : EqDecision Identity.
Proof. solve_decision. Defined.

(** ** Validation *)
Inductive ValidationError :=
| DuplicateKey (key : string)
| DanglingReference (key : string)
| ScopeWithoutScopedMode
| ScopedModeWithoutScope
| ReferencedNotMutable (key : string)
| AbsentRequiresOwnership (key : string)
| MatchByNameRequiresName (key : string).

Definition declared_keys (d : DesiredState) : list ResourceKey :=
  ((λ r, id_key (ri_identity r)) <$> ds_roles d)
  ++ ((λ c, id_key (ci_identity c)) <$> ds_channels d)
  ++ (id_key <$> omap feature_identity (ds_features d)).

Fixpoint duplicate_keys (seen : gset string) (keys : list ResourceKey) : list ValidationError :=
  match keys with
  | [] => []
  | key :: rest =>
      if decide (key ∈ seen)
      then DuplicateKey key :: duplicate_keys seen rest
      else duplicate_keys ({[key]} ∪ seen) rest
  end.

Definition check_key_uniqueness (d : DesiredState) : list ValidationError :=
  duplicate_keys ∅ (declared_keys d).

Definition overwrite_references (o : PermissionOverwriteIntent) : list ResourceKey :=
  match oi_target o with IntentRole key => [key] | IntentMember _ => [] end.

Definition channel_references (c : ChannelIntent) : list ResourceKey :=
  (match ci_parent c with Some parent => [parent] | None => [] end)
  ++ (match ci_access c with Some access => (access_roles access).*1 | None => [] end)
  ++ (match ci_raw_overwrites c with
      | Some raw => raw ≫= overwrite_references
      | None => []
      end).

Definition feature_references (f : FeatureIntent) : list ResourceKey :=
  match f with
  | Verification v => [vi_channel v; vi_grants_role v]
  | Moderation | Logging => []
  end.

Definition references (d : DesiredState) : list ResourceKey :=
  (ds_channels d ≫= channel_references) ++ (ds_features d ≫= feature_references).

Definition check_reference_integrity (d : DesiredState) : list ValidationError :=
  let declared : gset string := list_to_set (declared_keys d) in
  DanglingReference <$> filter (λ key, key ∉ declared) (references d).

Definition check_mode_scope (d : DesiredState) : list ValidationError :=
  match ds_mode d, ds_scope d with
  | ScopedAuthoritative, None => [ScopedModeWithoutScope]
  | ScopedAuthoritative, Some _ => []
  | _, Some _ => [ScopeWithoutScopedMode]
  | _, None => []
  end.

Definition check_one_ownership_state (identity : Identity) (mutated : bool)
  : list ValidationError :=
  (if bool_decide (id_ownership identity = Referenced) && mutated
   then [ReferencedNotMutable (id_key identity)] else [])
  ++ (if bool_decide (id_state identity = Absent)
         && bool_decide (id_ownership identity = Referenced)
      then [AbsentRequiresOwnership (id_key identity)] else []).

Definition role_mutated (r : RoleIntent) : bool :=
  is_some (ri_name r) || is_some (ri_permissions r).

Definition channel_mutated (c : ChannelIntent) : bool :=
  is_some (ci_name c) || is_some (ci_channel_type c) || is_some (ci_parent c)
  || is_some (ci_access c) || is_some (ci_raw_overwrites c).

Definition check_ownership_state (d : DesiredState) : list ValidationError :=
  (ds_roles d ≫= λ r, check_one_ownership_state (ri_identity r) (role_mutated r))
  ++ (ds_channels d ≫= λ c, check_one_ownership_state (ci_identity c) (channel_mutated c)).

Definition check_one_match_name (identity : Identity) (name : option string)
  : list ValidationError :=
  if bool_decide (id_match_by identity = ByName) && negb (is_some name)
  then [MatchByNameRequiresName (id_key identity)] else [].

Definition check_match_name (d : DesiredState) : list ValidationError :=
  (ds_roles d ≫= λ r, check_one_match_name (ri_identity r) (ri_name r))
  ++ (ds_channels d ≫= λ c, check_one_match_name (ci_identity c) (ci_name c)).

Definition validate (d : DesiredState) : Result (list ValidationError) unit :=
  let errors := check_key_uniqueness d ++ check_reference_integrity d
                ++ check_mode_scope d ++ check_ownership_state d ++ check_match_name d in
  match errors with [] => Ok tt | _ => Err errors end.

(** ** What a valid document promises *)
Definition identity_owned (identity : Identity) (mutated : bool) : Prop :=
  id_ownership identity = Referenced → mutated = false ∧ id_state identity = Present.

Definition identity_named (identity : Identity) (name : option string) : Prop :=
  id_match_by identity = ByName → is_Some name.

Record desired_wf (d : DesiredState) : Prop := {
  wf_keys_unique : NoDup (declared_keys d);
  wf_references : ∀ key, key ∈ references d → key ∈ declared_keys d;
  wf_scope : ds_mode d = ScopedAuthoritative ↔ is_Some (ds_scope d);
  wf_roles_owned : ∀ r, r ∈ ds_roles d → identity_owned (ri_identity r) (role_mutated r);
  wf_channels_owned :
    ∀ c, c ∈ ds_channels d → identity_owned (ci_identity c) (channel_mutated c);
  wf_roles_named : ∀ r, r ∈ ds_roles d → identity_named (ri_identity r) (ri_name r);
  wf_channels_named : ∀ c, c ∈ ds_channels d → identity_named (ci_identity c) (ci_name c);
}.

Lemma duplicate_keys_nil seen keys :
  duplicate_keys seen keys = [] ↔ NoDup keys ∧ ∀ k, k ∈ keys → k ∉ seen.
Proof.
  revert seen. induction keys as [|k keys IH]; intros seen; cbn.
  { split; [intros _; split; [constructor|by intros ? ?%not_elem_of_nil]|done]. }
  case_decide as Hk.
  - split; [done|]. intros [_ Hseen]. by destruct (Hseen k (list_elem_of_here _ _)).
  - rewrite IH, NoDup_cons. setoid_rewrite elem_of_cons.
    split.
    + intros [Hnd Hall]. split_and!; [|done|].
      * intros Hin. apply Hall in Hin. set_solver.
      * intros k' [->|Hin]; [done|]. apply Hall in Hin. set_solver.
    + intros [[Hni Hnd] Hall]. split; [done|]. intros k' Hin.
      rewrite elem_of_union, elem_of_singleton.
      intros [->|Hs]; [done|]. eapply Hall; eauto.
Qed.

Lemma bind_nil_iff {A B} (f : A → list B) l :
  l ≫= f = [] ↔ ∀ x, x ∈ l → f x = [].
Proof.
  induction l as [|a l IH]; cbn.
  { split; [by intros _ x ?%not_elem_of_nil|done]. }
  setoid_rewrite elem_of_cons. split.
  - intros [Ha Hl]%app_nil. intros x [->|?]; [done|]. by apply IH.
  - intros Hall. rewrite (Hall a) by auto. cbn. apply IH. auto.
Qed.

Lemma check_one_ownership_state_nil identity mutated :
  check_one_ownership_state identity mutated = [] ↔ identity_owned identity mutated.
Proof.
  unfold check_one_ownership_state, identity_owned.
  destruct identity as [k m [] []], mutated; cbn; naive_solver.
Qed.

Lemma check_one_match_name_nil identity name :
  check_one_match_name identity name = [] ↔ identity_named identity name.
Proof.
  unfold check_one_match_name, identity_named.
  destruct identity as [k [] o s], name; cbn; split; try done.
  intros Hs. by destruct (Hs eq_refl).
Qed.

Lemma fmap_filter_nil {A B} (f : A → B) (P : A → Prop) `{∀ x, Decision (P x)} l :
  f <$> filter P l = [] ↔ ∀ x, x ∈ l → ¬ P x.
Proof.
  induction l as [|a l IH].
  { split; [by intros _ x ?%not_elem_of_nil|done]. }
  rewrite filter_cons. setoid_rewrite elem_of_cons. case_decide; cbn.
  - split; [done|]. intros Hall. by destruct (Hall a); auto.
  - rewrite IH. naive_solver.
Qed.

Lemma check_reference_integrity_nil d :
  check_reference_integrity d = [] ↔ ∀ key, key ∈ references d → key ∈ declared_keys d.
Proof.
  unfold check_reference_integrity. rewrite fmap_filter_nil.
  setoid_rewrite elem_of_list_to_set. split; intros Hall key Hin.
  - by apply dec_stable, Hall.
  - intros Hn. by apply Hn, Hall.
Qed.

Lemma check_mode_scope_nil d :
  check_mode_scope d = [] ↔ (ds_mode d = ScopedAuthoritative ↔ is_Some (ds_scope d)).
Proof.
  unfold check_mode_scope.
  destruct (ds_mode d), (ds_scope d); rewrite ?is_Some_alt; naive_solver.
Qed.

Lemma validate_Ok_iff d :
  validate d = Ok tt ↔
    check_key_uniqueness d = [] ∧ check_reference_integrity d = []
    ∧ check_mode_scope d = [] ∧ check_ownership_state d = [] ∧ check_match_name d = [].
Proof.
  unfold validate. rewrite <- !app_nil. cbv zeta.
  by destruct (check_key_uniqueness d ++ _).
Qed.

(** [DesiredState::validate] accepts a document exactly when its keys are
    pairwise distinct, every key it refers to is declared, a scope is given
    exactly in scoped-authoritative mode, referenced resources are neither
    changed nor removed, and every resource matched by name has a name. *)
Theorem validate_sound_complete d : validate d = Ok tt ↔ desired_wf d.
Proof.
  rewrite validate_Ok_iff. unfold check_ownership_state, check_match_name.
  rewrite !app_nil, !bind_nil_iff, check_reference_integrity_nil, check_mode_scope_nil.
  unfold check_key_uniqueness. rewrite duplicate_keys_nil.
  setoid_rewrite check_one_ownership_state_nil.
  setoid_rewrite check_one_match_name_nil.
  split.
  - intros ((? & _) & ? & ? & (? & ?) & ? & ?). by split.
  - intros []. by split_and!.
Qed.
