(* ===== verification/DesiredCompiler.v ===== *)
(** * The desired-state compiler

    [crates/desired-compiler]: access intents and raw overwrites of a channel
    are normalised to one allow/deny pair per target, in target order, and a
    channel whose pair overlaps is rejected. *)

From Stdlib Require Import ZArith Lia String.
From stdpp Require Import base decidable list strings gmap sorting.
From S2P Require Import Prelude RustStd DiscordModel DesiredState.
Open Scope Z_scope.

Definition capability_to_permission (cap : Capability) : Permissions :=
  match cap with
  | View => VIEW_CHANNEL
  | Send => SEND_MESSAGES
  | ReadHistory => READ_MESSAGE_HISTORY
  | AddReactions => ADD_REACTIONS
  | AttachFiles => ATTACH_FILES
  | EmbedLinks => EMBED_LINKS
  | ManageMessages => MANAGE_MESSAGES
  | Connect => CONNECT
  | Speak => SPEAK
  end.

Definition capabilities_to_permissions (caps : list Capability) : Permissions :=
  foldl (λ acc cap, perms_union acc (capability_to_permission cap)) perms_empty caps.

Inductive NormalizedTarget :=
| Everyone
| NRole (key : ResourceKey)
| NMember (id : string).

#[export] Instance NormalizedTarget_eq_dec : EqDecision NormalizedTarget.
Proof. solve_decision. Defined.

(** The derived order: constructors in declaration order, then the payload. *)
#[export] Instance NormalizedTarget_Ord : Ord NormalizedTarget := λ a b,
  match a, b with
  | Everyone, Everyone => Eq
  | Everyone, _ => Lt
  | _, Everyone => Gt
  | NRole x, NRole y => cmp x y
  | NRole _, NMember _ => Lt
  | NMember _, NRole _ => Gt
  | NMember x, NMember y => cmp x y
  end.

#[export] Instance NormalizedTarget_OrdLaws : OrdLaws NormalizedTarget.
Proof.
  split.
  - intros [|x|x] [|y|y]; unfold cmp, NormalizedTarget_Ord; try done;
      rewrite cmp_eq_iff; naive_solver.
  - intros [|x|x] [|y|y]; unfold cmp, NormalizedTarget_Ord; try done; apply cmp_antisym.
  - intros [|x|x] [|y|y] [|z|z]; unfold cmp, NormalizedTarget_Ord; try done;
      apply cmp_lt_trans.
Qed.

Record NormalizedOverwrite := mkNOverwrite {
  no_target : NormalizedTarget;
  no_allow : Permissions;
  no_deny : Permissions;
}.

Record NormalizedRole := mkNRole {
  nr_identity : Identity;
  nr_name : option string;
  nr_permissions : option Permissions;
}.

Record NormalizedChannel := mkNChannel {
  nc_identity : Identity;
  nc_name : option string;
  nc_channel_type : option ChannelType;
  nc_parent : option ResourceKey;
  nc_overwrites : list NormalizedOverwrite;
}.

Record NormalizedVerificationPanel := mkNPanel {
  np_identity : Identity;
  np_channel : ResourceKey;
  np_grants_role : ResourceKey;
}.

Record NormalizedDesiredState := mkNormalized {
  nd_mode : DesiredStateMode;
  nd_scope : option Scope_;
  nd_roles : list NormalizedRole;
  nd_channels : list NormalizedChannel;
  nd_verification_panels : list NormalizedVerificationPanel;
}.

Inductive CompileError :=
| PermissionConflict (channel target : string).

(** ** Normalisation *)
Definition normalize_role (role : RoleIntent) : NormalizedRole :=
  mkNRole (ri_identity role) (ri_name role) (ri_permissions role).

Definition normalize_verification (v : VerificationIntent) : NormalizedVerificationPanel :=
  mkNPanel (vi_identity v) (vi_channel v) (vi_grants_role v).

Definition normalize_feature (f : FeatureIntent) : option NormalizedVerificationPanel :=
  match f with
  | Verification v => Some (normalize_verification v)
  | Moderation | Logging => None
  end.

(** An entry of the overwrite map: the allow and the deny bits. *)
Abbreviation PermPair := (Z * Z)%type (only parsing).

Definition apply_grant (grant : AccessGrant) (entry : PermPair) : PermPair :=
  (perms_union entry.1 (capabilities_to_permissions (grant_allow grant)),
   perms_union entry.2 (capabilities_to_permissions (grant_deny grant))).

Definition apply_raw (raw : PermissionOverwriteIntent) (entry : PermPair) : PermPair :=
  match oi_op raw with
  | OpAdd => (perms_union entry.1 (oi_allow raw), perms_union entry.2 (oi_deny raw))
  | OpRemove =>
      (Z.land entry.1 (u64_not (oi_allow raw)), Z.land entry.2 (u64_not (oi_deny raw)))
  | OpReplace => (oi_allow raw, oi_deny raw)
  end.

Definition raw_target (target : OverwriteTargetIntent) : NormalizedTarget :=
  match target with
  | IntentRole key => NRole key
  | IntentMember id => NMember id
  end.

Definition target_label (target : NormalizedTarget) : string :=
  match target with
  | Everyone => "everyone"
  | NRole key => key
  | NMember id => id
  end.

(** [map.entry(target).or_default()] updated in place. *)
Definition entry_update (target : NormalizedTarget) (f : PermPair → PermPair)
  (map : list (NormalizedTarget * PermPair)) : list (NormalizedTarget * PermPair) :=
  bt_upsert (λ current, f (default (perms_empty, perms_empty) current)) target map.

Definition access_entries (access : AccessIntent)
  (map : list (NormalizedTarget * PermPair)) : list (NormalizedTarget * PermPair) :=
  let map := match access_everyone access with
             | Some grant => entry_update Everyone (apply_grant grant) map
             | None => map
             end in
  foldl (λ map kg, entry_update (NRole kg.1) (apply_grant kg.2) map) map
    (access_roles access).

Definition raw_entries (raws : list PermissionOverwriteIntent)
  (map : list (NormalizedTarget * PermPair)) : list (NormalizedTarget * PermPair) :=
  foldl (λ map raw, entry_update (raw_target (oi_target raw)) (apply_raw raw) map) map raws.

Definition overwrite_map (channel : ChannelIntent) : list (NormalizedTarget * PermPair) :=
  let map := match ci_access channel with
             | Some access => access_entries access []
             | None => []
             end in
  match ci_raw_overwrites channel with
  | Some raws => raw_entries raws map
  | None => map
  end.

(** The loop over the map: conflicting entries are reported, the others kept. *)
Fixpoint split_entries (channel_key : string) (map : list (NormalizedTarget * PermPair))
  : list CompileError * list NormalizedOverwrite :=
  match map with
  | [] => ([], [])
  | (target, (allow, deny)) :: rest =>
      let (errors, overwrites) := split_entries channel_key rest in
      if negb (Z.land allow deny =? 0)
      then (PermissionConflict channel_key (target_label target) :: errors, overwrites)
      else (errors, mkNOverwrite target allow deny :: overwrites)
  end.

Definition normalize_channel (channel : ChannelIntent)
  : Result (list CompileError) NormalizedChannel :=
  let (errors, overwrites) :=
    split_entries (id_key (ci_identity channel)) (overwrite_map channel) in
  match errors with
  | [] => Ok (mkNChannel (ci_identity channel) (ci_name channel) (ci_channel_type channel)
                (ci_parent channel) overwrites)
  | _ => Err errors
  end.

Fixpoint normalize_channels (channels : list ChannelIntent)
  : list CompileError * list NormalizedChannel :=
  match channels with
  | [] => ([], [])
  | channel :: rest =>
      let (errors, normalized) := normalize_channels rest in
      match normalize_channel channel with
      | Ok normalized_channel => (errors, normalized_channel :: normalized)
      | Err channel_errors => (channel_errors ++ errors, normalized)
      end
  end.

Definition compile (desired : DesiredState) : Result (list CompileError) NormalizedDesiredState :=
  let (errors, channels) := normalize_channels (ds_channels desired) in
  match errors with
  | [] => Ok (mkNormalized (ds_mode desired) (ds_scope desired)
                (normalize_role <$> ds_roles desired) channels
                (omap normalize_feature (ds_features desired)))
  | _ => Err errors
  end.

(** ** The meaning of a channel's access document

    Each grant and raw overwrite is an update of the pair of its target; the
    pair of a target is what the document's updates of that target, in document
    order, make of the empty pair, and a target never mentioned has none. *)
Definition access_updates (access : AccessIntent)
  : list (NormalizedTarget * (PermPair → PermPair)) :=
  match access_everyone access with
  | Some grant => [(Everyone, apply_grant grant)]
  | None => []
  end ++ ((λ kg, (NRole kg.1, apply_grant kg.2)) <$> access_roles access).

Definition channel_updates (channel : ChannelIntent)
  : list (NormalizedTarget * (PermPair → PermPair)) :=
  match ci_access channel with Some access => access_updates access | None => [] end
  ++ match ci_raw_overwrites channel with
     | Some raws => (λ raw, (raw_target (oi_target raw), apply_raw raw)) <$> raws
     | None => []
     end.

Definition run_update (target : NormalizedTarget) (acc : option PermPair)
  (update : NormalizedTarget * (PermPair → PermPair)) : option PermPair :=
  if decide (update.1 = target) then Some (update.2 (default (0, 0) acc)) else acc.

Definition channel_pair (channel : ChannelIntent) (target : NormalizedTarget)
  : option PermPair :=
  foldl (run_update target) None (channel_updates channel).

Definition run_entries (updates : list (NormalizedTarget * (PermPair → PermPair)))
  (map : list (NormalizedTarget * PermPair)) : list (NormalizedTarget * PermPair) :=
  foldl (λ map update, entry_update update.1 update.2 map) map updates.

Lemma overwrite_map_run channel : overwrite_map channel = run_entries (channel_updates channel) [].
Proof.
  unfold overwrite_map, channel_updates, run_entries.
  rewrite foldl_app. unfold raw_entries, access_entries, access_updates.
  destruct (ci_access channel) as [[[g|] roles]|], (ci_raw_overwrites channel) as [raws|]; cbn;
    rewrite ?foldl_app, ?foldl_fmap; cbn; rewrite ?foldl_fmap; done.
Qed.

Lemma run_entries_spec updates map target :
  bt_sorted map →
  bt_sorted (run_entries updates map)
  ∧ bt_get (run_entries updates map) target
    = foldl (run_update target) (bt_get map target) updates.
Proof.
  revert map. induction updates as [|[t f] updates IH]; intros map Hmap; cbn; [done|].
  destruct (IH (entry_update t f map)) as [Hs Hg].
  { by apply bt_upsert_sorted. }
  split; [done|]. fold (run_entries updates (entry_update t f map)). rewrite Hg. f_equal.
  unfold run_update; cbn. case_decide as Ht.
  - subst. unfold entry_update. by rewrite bt_get_upsert_eq.
  - by apply bt_get_upsert_ne.
Qed.

Lemma overwrite_map_sorted channel : bt_sorted (overwrite_map channel).
Proof. rewrite overwrite_map_run. apply (run_entries_spec _ _ Everyone). constructor. Qed.

Lemma overwrite_map_elem channel target pair :
  (target, pair) ∈ overwrite_map channel ↔ channel_pair channel target = Some pair.
Proof.
  rewrite (bt_get_elem _ _ _ (overwrite_map_sorted channel)), overwrite_map_run.
  by rewrite (proj2 (run_entries_spec _ [] target ltac:(constructor))).
Qed.

Definition overlapping (pair : PermPair) : Prop := Z.land pair.1 pair.2 ≠ 0.

Lemma split_entries_errors key map :
  (split_entries key map).1 = [] ↔ ∀ e, e ∈ map → ¬ overlapping e.2.
Proof.
  unfold overlapping. induction map as [|[t [a d]] map IH]; cbn.
  { split; [by intros _ e ?%not_elem_of_nil|done]. }
  destruct (split_entries key map) as [errors overwrites]. cbn in *.
  setoid_rewrite elem_of_cons.
  destruct (Z.eqb_spec (Z.land a d) 0); cbn.
  - rewrite IH. naive_solver.
  - split; [done|]. intros Hall. by destruct (Hall (t, (a, d))); auto.
Qed.

Definition entry_overwrite (e : NormalizedTarget * PermPair) : NormalizedOverwrite :=
  mkNOverwrite e.1 e.2.1 e.2.2.

Lemma split_entries_overwrites key map :
  (split_entries key map).1 = [] → (split_entries key map).2 = entry_overwrite <$> map.
Proof.
  induction map as [|[t [a d]] map IH]; cbn; [done|].
  destruct (split_entries key map) as [errors overwrites]. cbn in *.
  destruct (Z.land a d =? 0); cbn; [|done]. intros Herr. by rewrite IH.
Qed.

(** What [normalize_channel] promises of the channel it returns. *)
Record channel_compiled (c : ChannelIntent) (nc : NormalizedChannel) : Prop := {
  cc_identity : nc_identity nc = ci_identity c;
  cc_name : nc_name nc = ci_name c;
  cc_type : nc_channel_type nc = ci_channel_type c;
  cc_parent : nc_parent nc = ci_parent c;
  cc_overwrites : ∀ target allow deny,
    mkNOverwrite target allow deny ∈ nc_overwrites nc
    ↔ channel_pair c target = Some (allow, deny);
  cc_disjoint : ∀ o, o ∈ nc_overwrites nc → Z.land (no_allow o) (no_deny o) = 0;
  cc_sorted : StronglySorted (λ a b, cmp (no_target a) (no_target b) = Lt) (nc_overwrites nc);
}.

Lemma StronglySorted_fmap {A B} (R : B → B → Prop) (f : A → B) l :
  StronglySorted (λ x y, R (f x) (f y)) l → StronglySorted R (f <$> l).
Proof.
  induction 1 as [|a l Hl IH Hall]; cbn; constructor; [done|]. by apply Forall_fmap.
Qed.

Lemma normalize_channel_Ok c nc :
  normalize_channel c = Ok nc → channel_compiled c nc.
Proof.
  unfold normalize_channel. intros Hc.
  destruct (split_entries _ _) as [errors overwrites] eqn:Hsplit.
  destruct errors; [|done]. injection Hc as <-.
  pose proof (split_entries_overwrites (id_key (ci_identity c)) (overwrite_map c)) as Hov.
  pose proof (split_entries_errors (id_key (ci_identity c)) (overwrite_map c)) as Herr.
  rewrite Hsplit in Hov, Herr; cbn in Hov, Herr.
  rewrite (Hov eq_refl). destruct Herr as [Herr _]. specialize (Herr eq_refl).
  split; cbn; try done.
  - intros t a d. rewrite <- overwrite_map_elem, list_elem_of_fmap. split.
    + intros ([t' [a' d']] & Heq & Hin). unfold entry_overwrite in Heq. by simplify_eq.
    + intros Hin. by exists (t, (a, d)).
  - intros o ([t [a d]] & -> & Hin)%list_elem_of_fmap. cbn.
    apply dec_stable. exact (Herr _ Hin).
  - apply StronglySorted_fmap, overwrite_map_sorted.
Qed.

Lemma normalize_channel_is_ok c :
  is_ok (normalize_channel c) = true ↔
  ∀ target pair, channel_pair c target = Some pair → ¬ overlapping pair.
Proof.
  unfold normalize_channel.
  pose proof (split_entries_errors (id_key (ci_identity c)) (overwrite_map c)) as Herr.
  destruct (split_entries _ _) as [errs overwrites]. cbn in Herr.
  transitivity (errs = []); [by destruct errs|]. rewrite Herr.
  setoid_rewrite <- overwrite_map_elem. split.
  - intros Hall t p Hin. exact (Hall (t, p) Hin).
  - intros Hall [t p] Hin. exact (Hall t p Hin).
Qed.

Lemma normalize_channel_Err_nonempty c errors : normalize_channel c = Err errors → errors ≠ [].
Proof.
  unfold normalize_channel. destruct (split_entries _ _) as [[|err errs] ?]; naive_solver.
Qed.

Lemma normalize_channels_Ok channels :
  (normalize_channels channels).1 = [] →
  Forall2 channel_compiled channels (normalize_channels channels).2.
Proof.
  induction channels as [|c channels IH]; cbn; [constructor|].
  destruct (normalize_channels channels) as [errors normalized]. cbn in IH.
  destruct (normalize_channel c) as [nc|errs] eqn:Hc; cbn.
  - intros ->. constructor; [by apply normalize_channel_Ok|by apply IH].
  - intros [-> _]%app_nil. by apply normalize_channel_Err_nonempty in Hc.
Qed.

Lemma normalize_channels_errors channels :
  (normalize_channels channels).1 = [] ↔
  ∀ c, c ∈ channels → is_ok (normalize_channel c) = true.
Proof.
  induction channels as [|c channels IH]; cbn.
  { split; [by intros _ c ?%not_elem_of_nil|done]. }
  destruct (normalize_channels channels) as [errors normalized]. cbn in IH.
  setoid_rewrite elem_of_cons.
  destruct (normalize_channel c) as [nc|errs] eqn:Hc; cbn.
  - rewrite IH. split; [|naive_solver]. intros Hall c' [->|?]; [by rewrite Hc|auto].
  - split.
    + intros [-> _]%app_nil. by apply normalize_channel_Err_nonempty in Hc.
    + intros Hall. specialize (Hall c (or_introl eq_refl)). by rewrite Hc in Hall.
Qed.

(** When [compile] succeeds the roles, mode and scope are carried over, the
    verification panels are the verification features, and each channel of the
    document yields one channel whose overwrites are sorted by target, mention
    a target at most once, hold exactly the pair the document's grants and raw
    overwrites give that target, and never allow and deny the same bit. *)
Theorem compile_normalizes d n :
  compile d = Ok n →
  nd_mode n = ds_mode d ∧ nd_scope n = ds_scope d
  ∧ nd_roles n = normalize_role <$> ds_roles d
  ∧ nd_verification_panels n = omap normalize_feature (ds_features d)
  ∧ Forall2 channel_compiled (ds_channels d) (nd_channels n).
Proof.
  unfold compile. pose proof (normalize_channels_Ok (ds_channels d)) as Hok.
  destruct (normalize_channels _) as [errors channels]. cbn in Hok.
  destruct errors; [|done]. intros [= <-]. cbn. auto 10.
Qed.

(** [compile] fails exactly when some channel of the document gives a target
    a pair that allows and denies the same permission bit. *)
Theorem compile_fails_iff_overlap d :
  is_ok (compile d) = false ↔
  ∃ c target pair, c ∈ ds_channels d ∧ channel_pair c target = Some pair ∧ overlapping pair.
Proof.
  unfold compile. pose proof (normalize_channels_errors (ds_channels d)) as Herr.
  assert (is_ok (compile d) = true ↔ (normalize_channels (ds_channels d)).1 = []) as Hok.
  { unfold compile. by destruct (normalize_channels _) as [[] ?]. }
  fold (compile d). rewrite <- not_true_iff_false, Hok, Herr.
  setoid_rewrite normalize_channel_is_ok. split.
  - intros Hn. destruct (decide (Exists (λ c, Exists
        (λ e : NormalizedTarget * PermPair, Z.land e.2.1 e.2.2 ≠ 0) (overwrite_map c))
        (ds_channels d))) as [Hex|Hno].
    + apply Exists_exists in Hex as (c & Hc & ([t p] & Hin & Ho)%Exists_exists).
      exists c, t, p. by rewrite <- overwrite_map_elem.
    + destruct Hn. intros c Hc t p Hp Ho. apply Hno, Exists_exists. exists c. split; [done|].
      apply Exists_exists. exists (t, p). by rewrite overwrite_map_elem.
  - intros (c & t & p & Hc & Hp & Ho) Hall. by eapply Hall.
Qed.

(** Permission bits stay within 64 bits. *)
Lemma capabilities_to_permissions_valid caps : u64_valid (capabilities_to_permissions caps).
Proof.
  unfold capabilities_to_permissions.
  assert (∀ acc, u64_valid acc →
    u64_valid (foldl (λ acc cap, perms_union acc (capability_to_permission cap)) acc caps))
    as Hgen.
  { induction caps as [|cap caps IH]; intros acc Hacc; cbn; [done|].
    apply IH, u64_valid_lor; [done|]. destruct cap; by vm_compute. }
  apply Hgen. by vm_compute.
Qed.
