(* ===== verification/DiffEngine.v ===== *)
(** * The diff engine

    [crates/diff-engine]: the resolver interface, its in-memory implementation
    over a guild snapshot, and the comparison of a normalised desired state with
    what the resolver finds. The [&mut DiffResult] the source threads through its
    calls only ever grows at the end of its vectors; each definition returns what
    it pushes and [diff_app] appends. *)

From Stdlib Require Import ZArith Lia String.
From stdpp Require Import base decidable list strings gmap.
From S2P Require Import Prelude RustStd DiscordModel DesiredState DesiredCompiler.

(** ** Results *)
Inductive ChangeOp := Create | Update | Delete | NoOp.

Inductive DiffTarget :=
| DRole (key : ResourceKey)
| DChannel (key : ResourceKey)
| DOverwrite (channel : ResourceKey) (target : NormalizedTarget).

Inductive ChangedField := FName | FPermissions | FChannelType | FParent | FAllow | FDeny.

Record DiffChange := mkChange {
  dc_op : ChangeOp;
  dc_target : DiffTarget;
  dc_changed : list ChangedField;
}.

Record DiffConflict := mkConflict {
  df_target : DiffTarget;
  df_reason : string;
}.

Record DeferredItem := mkDeferred {
  di_kind : string;
  di_key : ResourceKey;
  di_reason : string;
}.

Record DiffResult := mkDiff {
  changes : list DiffChange;
  conflicts : list DiffConflict;
  deferred : list DeferredItem;
}.

#[export] Instance ChangeOp_eq_dec : EqDecision ChangeOp.
Proof. solve_decision. Defined.
#[export] Instance DiffTarget_eq_dec : EqDecision DiffTarget.
Proof. solve_decision. Defined.

Definition diff_empty : DiffResult := mkDiff [] [] [].
Definition diff_app (a b : DiffResult) : DiffResult :=
  mkDiff (changes a ++ changes b) (conflicts a ++ conflicts b) (deferred a ++ deferred b).
Definition diff_concat (rs : list DiffResult) : DiffResult := foldr diff_app diff_empty rs.

Definition push_change (c : DiffChange) : DiffResult := mkDiff [c] [] [].
Definition push_conflict (target : DiffTarget) (reason : string) : DiffResult :=
  mkDiff [] [mkConflict target reason] [].
Definition noop (target : DiffTarget) : DiffChange := mkChange NoOp target [].

(** ** Resolvers *)
Inductive ResolveResult (T : Type) :=
| Existing (t : T)
| Missing
| Conflict (reason : string).
Arguments Existing {T} t.
Arguments Missing {T}.
Arguments Conflict {T} reason.

Class ResourceResolver (R : Type) := {
  resolve_role : R → Identity → option string → ResolveResult Role;
  resolve_channel : R → Identity → option string → ResolveResult Channel;
  everyone_overwrite_target : R → OverwriteTarget;
}.

Record InMemoryMatchResolver := mkResolver { imr_guild : GuildState }.

(** The matching both resource kinds share: the unique element with the wanted
    name, or the first one with the wanted id. *)
Definition match_resource {T} (name_of : T → string) (id_of : T → Z) (plural : string)
  (pool : list T) (identity : Identity) (name : option string) : ResolveResult T :=
  match id_match_by identity with
  | ByName =>
      match name with
      | None => Conflict "ByName requires a name"
      | Some name =>
          match filter (λ t, name_of t = name) pool with
          | [] => Missing
          | [t] => Existing t
          | _ => Conflict ("multiple " +:+ plural +:+ " named " +:+ name)
          end
      end
  | ByExplicitId id =>
      match parse_u64 id with
      | None => Conflict ("invalid id " +:+ id)
      | Some raw =>
          match List.find (λ t, Z.eqb (id_of t) raw) pool with
          | Some t => Existing t
          | None => Missing
          end
      end
  end.

#[export] Instance InMemoryMatchResolver_resolver : ResourceResolver InMemoryMatchResolver := {
  resolve_role r identity name :=
    match_resource role_name role_id "roles" (gs_roles (imr_guild r)) identity name;
  resolve_channel r identity name :=
    match_resource channel_name channel_id "channels" (gs_channels (imr_guild r)) identity name;
  everyone_overwrite_target r := TargetRole (guild_id (gs_guild (imr_guild r)));
}.

(** ** Comparison *)
Definition is_explicit_id (identity : Identity) : bool :=
  match id_match_by identity with ByExplicitId _ => true | ByName => false end.

Definition field_differs {T} `{EqDecision T} (wanted : option T) (current : T) : bool :=
  match wanted with Some v => bool_decide (v ≠ current) | None => false end.

Definition role_changed (role : NormalizedRole) (current : Role) : list ChangedField :=
  (if field_differs (nr_name role) (role_name current) then [FName] else [])
  ++ (if field_differs (nr_permissions role) (role_permissions current)
      then [FPermissions] else []).

Definition channel_meta_changed (channel : NormalizedChannel) (current : Channel)
  : list ChangedField :=
  (if field_differs (nc_name channel) (channel_name current) then [FName] else [])
  ++ (if field_differs (nc_channel_type channel) (channel_kind current)
      then [FChannelType] else []).

Definition overwrite_changed (overwrite : NormalizedOverwrite) (current : PermissionOverwrite)
  : list ChangedField :=
  (if bool_decide (no_allow overwrite ≠ ow_allow current) then [FAllow] else [])
  ++ (if bool_decide (no_deny overwrite ≠ ow_deny current) then [FDeny] else []).

(** [noop] when nothing differs, an update listing the fields otherwise. *)
Definition update_or_noop (target : DiffTarget) (changed : list ChangedField) : DiffChange :=
  match changed with [] => noop target | _ => mkChange Update target changed end.

Section diff.
Context {R : Type} `{ResourceResolver R} (resolver : R).

Definition diff_role (role : NormalizedRole) : DiffResult :=
  let identity := nr_identity role in
  let target := DRole (id_key identity) in
  let resolved := resolve_role resolver identity (nr_name role) in
  match id_state identity with
  | Present =>
      match resolved with
      | Existing current =>
          if bool_decide (id_ownership identity = Referenced)
          then push_change (noop target)
          else push_change (update_or_noop target (role_changed role current))
      | Missing =>
          if bool_decide (id_ownership identity = Referenced)
          then push_conflict target "referenced role not found"
          else if is_explicit_id identity
          then push_conflict target "explicit id not found"
          else push_change (mkChange Create target [])
      | Conflict reason => push_conflict target reason
      end
  | Absent =>
      match resolved with
      | Existing _ =>
          if bool_decide (id_ownership identity = Referenced)
          then push_conflict target "cannot delete referenced role"
          else push_change (mkChange Delete target [])
      | Missing => push_change (noop target)
      | Conflict reason => push_conflict target reason
      end
  end.

Definition resolve_overwrite_target (target : NormalizedTarget)
  (roles_by_key : gmap string NormalizedRole) : Result string (option OverwriteTarget) :=
  match target with
  | Everyone => Ok (Some (everyone_overwrite_target resolver))
  | NMember id =>
      match parse_u64 id with
      | Some raw => Ok (Some (TargetMember raw))
      | None => Err ("invalid member id " +:+ id)
      end
  | NRole key =>
      match roles_by_key !! key with
      | None => Err ("overwrite references undeclared role key " +:+ key)
      | Some role =>
          match resolve_role resolver (nr_identity role) (nr_name role) with
          | Existing current => Ok (Some (TargetRole (role_id current)))
          | Missing => Ok None
          | Conflict reason => Err reason
          end
      end
  end.

Definition find_current_overwrite (current : Channel) (target : option OverwriteTarget)
  : option PermissionOverwrite :=
  target ≫= λ t, List.find (λ o, bool_decide (ow_target o = t)) (channel_overwrites current).

Definition diff_overwrite (channel : NormalizedChannel) (current : Channel)
  (roles_by_key : gmap string NormalizedRole) (overwrite : NormalizedOverwrite) : DiffResult :=
  let target := DOverwrite (id_key (nc_identity channel)) (no_target overwrite) in
  match resolve_overwrite_target (no_target overwrite) roles_by_key with
  | Err reason => push_conflict target reason
  | Ok current_target =>
      match find_current_overwrite current current_target with
      | Some current_overwrite =>
          push_change (update_or_noop target (overwrite_changed overwrite current_overwrite))
      | None => push_change (mkChange Create target [])
      end
  end.

Definition diff_overwrites (channel : NormalizedChannel) (current : Channel)
  (roles_by_key : gmap string NormalizedRole) : DiffResult :=
  diff_concat (diff_overwrite channel current roles_by_key <$> nc_overwrites channel).

Definition diff_channel (roles_by_key : gmap string NormalizedRole)
  (channel : NormalizedChannel) : DiffResult :=
  let identity := nc_identity channel in
  let target := DChannel (id_key identity) in
  let resolved := resolve_channel resolver identity (nc_name channel) in
  match id_state identity with
  | Present =>
      match resolved with
      | Existing current =>
          if bool_decide (id_ownership identity = Referenced)
          then push_change (noop target)
          else diff_app
                 (push_change (update_or_noop target (channel_meta_changed channel current)))
                 (diff_overwrites channel current roles_by_key)
      | Missing =>
          if bool_decide (id_ownership identity = Referenced)
          then push_conflict target "referenced channel not found"
          else if is_explicit_id identity
          then push_conflict target "explicit id not found"
          else diff_app
                 (push_change (mkChange Create target []))
                 (diff_concat
                    ((λ overwrite, push_change
                        (mkChange Create
                           (DOverwrite (id_key identity) (no_target overwrite)) []))
                     <$> nc_overwrites channel))
      | Conflict reason => push_conflict target reason
      end
  | Absent =>
      match resolved with
      | Existing _ =>
          if bool_decide (id_ownership identity = Referenced)
          then push_conflict target "cannot delete referenced channel"
          else push_change (mkChange Delete target [])
      | Missing => push_change (noop target)
      | Conflict reason => push_conflict target reason
      end
  end.

Definition collect_roles_by_key (roles : list NormalizedRole) : gmap string NormalizedRole :=
  foldl (λ m role, <[id_key (nr_identity role) := role]> m) ∅ roles.

Definition defer_panel (panel : NormalizedVerificationPanel) : DiffResult :=
  mkDiff [] [] [mkDeferred "verification_panel" (id_key (np_identity panel))
                  "panel state not tracked in Phase 4"].

Definition diff (desired : NormalizedDesiredState) : DiffResult :=
  let roles_by_key := collect_roles_by_key (nd_roles desired) in
  diff_app (diff_concat (diff_role <$> nd_roles desired))
    (diff_app (diff_concat (diff_channel roles_by_key <$> nd_channels desired))
       (diff_concat (defer_panel <$> nd_verification_panels desired))).
End diff.

(** ** Quiet differences and satisfied documents

    A document is satisfied by what a resolver sees when every role and channel
    it wants present is there with the wanted fields and overwrites, every
    channel is under the parent it asks for, and every one it wants absent is
    missing. *)
Definition diff_quiet (r : DiffResult) : Prop :=
  conflicts r = [] ∧ Forall (λ c, dc_op c = NoOp) (changes r).

Definition field_matches {T} (wanted : option T) (current : T) : Prop :=
  ∀ v, wanted = Some v → current = v.

Section satisfaction.
Context {R : Type} `{ResourceResolver R} (resolver : R).

Definition role_satisfied (role : NormalizedRole) : Prop :=
  let resolved := resolve_role resolver (nr_identity role) (nr_name role) in
  match id_state (nr_identity role) with
  | Present => ∃ current, resolved = Existing current
      ∧ (id_ownership (nr_identity role) ≠ Referenced →
         field_matches (nr_name role) (role_name current)
         ∧ field_matches (nr_permissions role) (role_permissions current))
  | Absent => resolved = Missing
  end.

Definition overwrite_satisfied (roles_by_key : gmap string NormalizedRole)
  (current : Channel) (overwrite : NormalizedOverwrite) : Prop :=
  ∃ target current_overwrite,
    resolve_overwrite_target resolver (no_target overwrite) roles_by_key = Ok (Some target)
    ∧ find_current_overwrite current (Some target) = Some current_overwrite
    ∧ ow_allow current_overwrite = no_allow overwrite
    ∧ ow_deny current_overwrite = no_deny overwrite.

(** The channel is under the one its document names as parent, if it names one. *)
Definition parent_matches (desired : NormalizedDesiredState) (channel : NormalizedChannel)
  (current : Channel) : Prop :=
  ∀ key, nc_parent channel = Some key →
    ∃ declared parent, declared ∈ nd_channels desired ∧ id_key (nc_identity declared) = key
      ∧ resolve_channel resolver (nc_identity declared) (nc_name declared) = Existing parent
      ∧ channel_parent_id current = Some (channel_id parent).

Definition channel_satisfied (desired : NormalizedDesiredState) (channel : NormalizedChannel)
  : Prop :=
  let resolved := resolve_channel resolver (nc_identity channel) (nc_name channel) in
  match id_state (nc_identity channel) with
  | Present => ∃ current, resolved = Existing current
      ∧ (id_ownership (nc_identity channel) ≠ Referenced →
         field_matches (nc_name channel) (channel_name current)
         ∧ field_matches (nc_channel_type channel) (channel_kind current)
         ∧ parent_matches desired channel current
         ∧ Forall (overwrite_satisfied (collect_roles_by_key (nd_roles desired)) current)
             (nc_overwrites channel))
  | Absent => resolved = Missing
  end.

Definition desired_satisfied (desired : NormalizedDesiredState) : Prop :=
  Forall role_satisfied (nd_roles desired)
  ∧ Forall (channel_satisfied desired) (nd_channels desired).

(** Every channel the document owns and the resolver finds is under its parent. *)
Definition parents_in_place (desired : NormalizedDesiredState) : Prop :=
  ∀ channel current, channel ∈ nd_channels desired →
    id_state (nc_identity channel) = Present → id_ownership (nc_identity channel) ≠ Referenced →
    resolve_channel resolver (nc_identity channel) (nc_name channel) = Existing current →
    parent_matches desired channel current.
End satisfaction.

Lemma diff_quiet_app a b : diff_quiet (diff_app a b) ↔ diff_quiet a ∧ diff_quiet b.
Proof.
  unfold diff_quiet; cbn. rewrite app_nil, Forall_app. naive_solver.
Qed.

Lemma diff_quiet_concat {A} (f : A → DiffResult) l :
  diff_quiet (diff_concat (f <$> l)) ↔ Forall (λ x, diff_quiet (f x)) l.
Proof.
  induction l as [|a l IH]; cbn.
  - unfold diff_quiet; cbn. split; [constructor|]. split; constructor.
  - rewrite diff_quiet_app, Forall_cons. by rewrite <- IH.
Qed.

Lemma diff_quiet_push c : diff_quiet (push_change c) ↔ dc_op c = NoOp.
Proof. unfold diff_quiet; cbn. rewrite Forall_singleton. naive_solver. Qed.

Lemma diff_quiet_conflict t reason : ¬ diff_quiet (push_conflict t reason).
Proof. by intros [? _]. Qed.

Lemma update_or_noop_quiet t changed : dc_op (update_or_noop t changed) = NoOp ↔ changed = [].
Proof. by destruct changed. Qed.

Lemma field_differs_matches {T} `{EqDecision T} (wanted : option T) current :
  field_differs wanted current = false ↔ field_matches wanted current.
Proof.
  unfold field_differs, field_matches. destruct wanted as [v|]; [|naive_solver].
  rewrite bool_decide_eq_false. split.
  - intros Hs%dec_stable v' [= <-]. done.
  - intros Hm. rewrite (Hm v) by done. naive_solver.
Qed.

Lemma field_list_nil (b : bool) (f : ChangedField) l :
  (if b then [f] else []) ++ l = [] ↔ b = false ∧ l = [].
Proof. destruct b; cbn; naive_solver. Qed.

Lemma field_single_nil (b : bool) (f : ChangedField) :
  (if b then [f] else []) = [] ↔ b = false.
Proof. destruct b; cbn; naive_solver. Qed.

Create Rewrite HintDb quiet.
#[local] Hint Rewrite field_list_nil field_single_nil @field_differs_matches
  diff_quiet_push update_or_noop_quiet : quiet.

Section quiet.
Context {R : Type} `{ResourceResolver R} (resolver : R).

Lemma diff_role_quiet role :
  diff_quiet (diff_role resolver role) ↔ role_satisfied resolver role.
Proof.
  unfold diff_role, role_satisfied.
  destruct (id_state (nr_identity role)),
    (resolve_role resolver _ (nr_name role)) as [current| |reason];
    repeat case_bool_decide; repeat case_match; unfold role_changed;
    autorewrite with quiet; cbn; try (split; [by intros []%diff_quiet_conflict|naive_solver]);
    naive_solver.
Qed.

Lemma overwrite_changed_nil o current :
  overwrite_changed o current = [] ↔
  ow_allow current = no_allow o ∧ ow_deny current = no_deny o.
Proof.
  unfold overwrite_changed. repeat case_bool_decide; cbn; naive_solver.
Qed.

Lemma diff_overwrite_quiet channel current roles_by_key o :
  diff_quiet (diff_overwrite resolver channel current roles_by_key o)
  ↔ overwrite_satisfied resolver roles_by_key current o.
Proof.
  unfold diff_overwrite, overwrite_satisfied.
  destruct (resolve_overwrite_target _ _ _) as [[t|]|reason]; cbn.
  - destruct (List.find _ _) as [co|] eqn:Hf; autorewrite with quiet.
    + rewrite overwrite_changed_nil. unfold find_current_overwrite; cbn. naive_solver.
    + cbn. split; [done|]. intros (? & ? & [= <-] & Hf' & _).
      unfold find_current_overwrite in Hf'; cbn in Hf'. congruence.
  - autorewrite with quiet. cbn. split; [done|naive_solver].
  - split; [by intros []%diff_quiet_conflict|naive_solver].
Qed.

(** What [diff_channel] compares of a channel: everything but its parent. *)
Definition channel_compared (roles_by_key : gmap string NormalizedRole)
  (channel : NormalizedChannel) : Prop :=
  let resolved := resolve_channel resolver (nc_identity channel) (nc_name channel) in
  match id_state (nc_identity channel) with
  | Present => ∃ current, resolved = Existing current
      ∧ (id_ownership (nc_identity channel) ≠ Referenced →
         field_matches (nc_name channel) (channel_name current)
         ∧ field_matches (nc_channel_type channel) (channel_kind current)
         ∧ Forall (overwrite_satisfied resolver roles_by_key current) (nc_overwrites channel))
  | Absent => resolved = Missing
  end.

Lemma diff_channel_quiet roles_by_key channel :
  diff_quiet (diff_channel resolver roles_by_key channel)
  ↔ channel_compared roles_by_key channel.
Proof.
  unfold diff_channel, channel_compared.
  destruct (id_state (nc_identity channel)),
    (resolve_channel resolver _ (nc_name channel)) as [current| |reason];
    repeat case_bool_decide; repeat case_match;
    rewrite ?diff_quiet_app; unfold channel_meta_changed, diff_overwrites;
    rewrite ?diff_quiet_concat; autorewrite with quiet; cbn;
    try (split; [by intros []%diff_quiet_conflict|naive_solver]); try naive_solver.
  setoid_rewrite diff_overwrite_quiet. naive_solver.
Qed.

Lemma diff_quiet_compared desired :
  diff_quiet (diff resolver desired)
  ↔ Forall (role_satisfied resolver) (nd_roles desired)
    ∧ Forall (channel_compared (collect_roles_by_key (nd_roles desired))) (nd_channels desired).
Proof.
  unfold diff. rewrite !diff_quiet_app, !diff_quiet_concat.
  setoid_rewrite diff_role_quiet. setoid_rewrite diff_channel_quiet.
  assert (Forall (λ p, diff_quiet (defer_panel p)) (nd_verification_panels desired)) as Hp.
  { apply Forall_true. intros p. by split. }
  tauto.
Qed.

Lemma channel_satisfied_compared desired channel :
  channel_satisfied resolver desired channel
  ↔ channel_compared (collect_roles_by_key (nd_roles desired)) channel
    ∧ (∀ current, id_state (nc_identity channel) = Present →
         id_ownership (nc_identity channel) ≠ Referenced →
         resolve_channel resolver (nc_identity channel) (nc_name channel) = Existing current →
         parent_matches resolver desired channel current).
Proof.
  unfold channel_satisfied, channel_compared. destruct (id_state (nc_identity channel)); [|naive_solver].
  split.
  - intros (current & Hres & Hall). split; [exists current; naive_solver|].
    intros current' _ Hown Hres'. rewrite Hres in Hres'. injection Hres' as <-. by apply Hall.
  - intros [(current & Hres & Hall) Hp]. exists current. naive_solver.
Qed.

Lemma satisfied_quiet_parents desired :
  desired_satisfied resolver desired
  ↔ diff_quiet (diff resolver desired) ∧ parents_in_place resolver desired.
Proof.
  rewrite diff_quiet_compared. unfold desired_satisfied, parents_in_place.
  rewrite !Forall_forall. setoid_rewrite channel_satisfied_compared. naive_solver.
Qed.

End quiet.

(** ** Why a change is proposed *)
Section justification.
Context {R : Type} `{ResourceResolver R} (resolver : R).

Definition op_justified {T} (identity : Identity) (resolved : ResolveResult T)
  (changed_fields : T → list ChangedField) (c : DiffChange) : Prop :=
  match dc_op c with
  | NoOp => True
  | Create => id_state identity = Present ∧ id_match_by identity = ByName
              ∧ resolved = Missing
  | Update => id_state identity = Present ∧ dc_changed c ≠ []
              ∧ ∃ current, resolved = Existing current
                           ∧ dc_changed c = changed_fields current
  | Delete => id_state identity = Absent ∧ ∃ current, resolved = Existing current
  end.

Definition role_justified (role : NormalizedRole) (c : DiffChange) : Prop :=
  dc_target c = DRole (id_key (nr_identity role))
  ∧ (dc_op c ≠ NoOp → id_ownership (nr_identity role) ≠ Referenced)
  ∧ op_justified (nr_identity role)
      (resolve_role resolver (nr_identity role) (nr_name role)) (role_changed role) c.

Definition channel_justified (channel : NormalizedChannel) (c : DiffChange) : Prop :=
  dc_target c = DChannel (id_key (nc_identity channel))
  ∧ (dc_op c ≠ NoOp → id_ownership (nc_identity channel) ≠ Referenced)
  ∧ op_justified (nc_identity channel)
      (resolve_channel resolver (nc_identity channel) (nc_name channel))
      (channel_meta_changed channel) c.

(** Overwrites are only created or updated, on owned channels that stay. *)
Definition overwrite_justified (channel : NormalizedChannel) (c : DiffChange) : Prop :=
  dc_op c ≠ Delete
  ∧ id_ownership (nc_identity channel) ≠ Referenced
  ∧ id_state (nc_identity channel) = Present
  ∧ ∃ o, o ∈ nc_overwrites channel
         ∧ dc_target c = DOverwrite (id_key (nc_identity channel)) (no_target o).

Definition change_justified (desired : NormalizedDesiredState) (c : DiffChange) : Prop :=
  (∃ role, role ∈ nd_roles desired ∧ role_justified role c)
  ∨ (∃ channel, channel ∈ nd_channels desired
      ∧ (channel_justified channel c ∨ overwrite_justified channel c)).

Lemma changes_concat {A} (f : A → DiffResult) l c :
  c ∈ changes (diff_concat (f <$> l)) ↔ ∃ x, x ∈ l ∧ c ∈ changes (f x).
Proof.
  induction l as [|a l IH]; cbn.
  - rewrite elem_of_nil. setoid_rewrite elem_of_nil. naive_solver.
  - rewrite elem_of_app, IH. setoid_rewrite elem_of_cons. naive_solver.
Qed.

Lemma diff_role_justified role c :
  c ∈ changes (diff_role resolver role) → role_justified role c.
Proof.
  unfold diff_role, role_justified, op_justified, is_explicit_id.
  intros Hc. repeat case_match; repeat case_bool_decide; cbn in Hc;
    rewrite ?elem_of_nil, ?list_elem_of_singleton in Hc; try done; subst; cbn in *;
    try (by naive_solver);
    unfold update_or_noop in *; repeat case_match; cbn in *; naive_solver.
Qed.

Lemma diff_overwrites_justified channel current rbk c :
  id_ownership (nc_identity channel) ≠ Referenced →
  id_state (nc_identity channel) = Present →
  c ∈ changes (diff_overwrites resolver channel current rbk) → overwrite_justified channel c.
Proof.
  intros Ho Hs (o & Ho' & Hin)%changes_concat.
  unfold diff_overwrite, push_change, update_or_noop in Hin.
  repeat case_match; cbn in Hin; rewrite ?elem_of_nil, ?list_elem_of_singleton in Hin;
    try done; subst; (split_and!; cbn; [done..|]); by exists o.
Qed.

Lemma diff_channel_justified rbk channel c :
  c ∈ changes (diff_channel resolver rbk channel) →
  channel_justified channel c ∨ overwrite_justified channel c.
Proof.
  unfold diff_channel, channel_justified, is_explicit_id. intros Hc.
  destruct (id_state (nc_identity channel)) eqn:Hstate,
    (resolve_channel resolver _ (nc_name channel)) as [current| |reason];
    repeat case_bool_decide; repeat case_match; cbn in Hc;
    rewrite ?elem_of_cons, ?elem_of_nil in Hc; try done;
    try (left; unfold op_justified; naive_solver).
  - destruct Hc as [->|Hc]; [|right; eauto using diff_overwrites_justified].
    left. unfold op_justified, update_or_noop; case_match; cbn; naive_solver.
  - destruct Hc as [->|(o & Ho & ->%list_elem_of_singleton)%changes_concat].
    + left. unfold op_justified. naive_solver.
    + right. split_and!; cbn; [done..|]. by exists o.
Qed.

Lemma diff_change_origin desired c :
  c ∈ changes (diff resolver desired) → change_justified desired c.
Proof.
  unfold diff, change_justified. cbn. rewrite !elem_of_app, !changes_concat.
  intros [(role & Hin & Hc)|[(channel & Hin & Hc)|(panel & _ & Hc)]].
  - left. eauto using diff_role_justified.
  - right. eauto using diff_channel_justified.
  - by apply not_elem_of_nil in Hc.
Qed.

(** Every change [diff] proposes stems from a declared resource and is
    justified by it: nothing is changed on a referenced resource, a resource is
    created only when it is wanted, matched by name and missing, updated only
    when it exists and the listed fields differ, deleted only when it is wanted
    absent and exists, and overwrites are never deleted. *)
Theorem diff_changes_justified desired :
  Forall (change_justified desired) (changes (diff resolver desired)).
Proof. apply Forall_forall. intros c. apply diff_change_origin. Qed.
End justification.
