(* ===== verification/OperationGraph.v ===== *)
(** * The operation graph

    [crates/operation-graph]: the changes of a conflict-free difference become
    operation nodes, dependencies are derived from the resource symbols nodes
    produce and consume, and [topological_order] schedules them with Kahn's
    algorithm over a min-heap. Node ids count from zero in a [u32]. *)

From Stdlib Require Import ZArith Lia String.
From stdpp Require Import base decidable list strings gmap sorting.
From S2P Require Import Prelude RustStd DiscordModel DesiredState DesiredCompiler DiffEngine.
Open Scope Z_scope.

Abbreviation OpId := Z (only parsing).

Inductive ResourceSymbol :=
| SymRole (key : ResourceKey)
| SymChannel (key : ResourceKey).

#[export] Instance ResourceSymbol_eq_dec : EqDecision ResourceSymbol.
Proof. solve_decision. Defined.
#[export] Instance ResourceSymbol_countable : Countable ResourceSymbol.
Proof.
  refine (inj_countable'
    (λ s, match s with SymRole k => inl k | SymChannel k => inr k end)
    (λ s, match s with inl k => SymRole k | inr k => SymChannel k end) _).
  by intros [].
Defined.

Inductive Operation :=
| CreateRole (key : ResourceKey) (name : option string) (permissions : option Permissions)
| UpdateRole (key : ResourceKey) (name : option string) (permissions : option Permissions)
| DeleteRole (key : ResourceKey)
| CreateChannel (key : ResourceKey) (name : option string) (channel_type : option ChannelType)
    (parent : option ResourceKey)
| UpdateChannel (key : ResourceKey) (name : option string) (channel_type : option ChannelType)
| DeleteChannel (key : ResourceKey)
| CreateOverwrite (channel : ResourceKey) (target : NormalizedTarget) (allow deny : Permissions)
| UpdateOverwrite (channel : ResourceKey) (target : NormalizedTarget) (allow deny : Permissions).

Record OperationNode := mkNode {
  node_id : OpId;
  node_operation : Operation;
  node_produces : list ResourceSymbol;
  node_consumes : list ResourceSymbol;
  node_depends_on : list OpId;
}.

Record OperationGraph := mkGraph { graph_nodes : list OperationNode }.

Inductive OperationGraphError :=
| DiffHasConflicts (count : Z)
| MissingPayload (key : string)
| UnsupportedChange
| DependencyCycle.

#[export] Instance Operation_eq_dec : EqDecision Operation.
Proof. solve_decision. Defined.
#[export] Instance OperationGraphError_eq_dec : EqDecision OperationGraphError.
Proof. solve_decision. Defined.

(** ** Scheduling

    [BinaryHeap<Reverse<OpId>>] pops its least element; it is kept as the
    sorted list of its elements. *)
Fixpoint heap_push (x : OpId) (heap : list OpId) : list OpId :=
  match heap with
  | [] => [x]
  | y :: rest => if x <=? y then x :: y :: rest else y :: heap_push x rest
  end.

(** [*e -= 1] on a [usize], wrapping at zero. *)
Definition usize_dec (n : Z) : Z := if n =? 0 then 2 ^ 64 - 1 else n - 1.

Definition initial_indegree (nodes : list OperationNode) : gmap Z Z :=
  foldl (λ m node, <[node_id node := 0]> m) ∅ nodes.

(** One edge [dep -> node]: the in-degree of the node grows and the node is
    recorded among the dependents of [dep]. *)
Definition add_edge (id dep : OpId) (st : gmap Z Z * gmap Z (list Z))
  : gmap Z Z * gmap Z (list Z) :=
  let (indegree, dependents) := st in
  (alter (λ d, d + 1) id indegree,
   <[dep := default [] (dependents !! dep) ++ [id]]> dependents).

Definition add_node_edges (st : gmap Z Z * gmap Z (list Z)) (node : OperationNode)
  : gmap Z Z * gmap Z (list Z) :=
  foldl (λ st dep, add_edge (node_id node) dep st) st (node_depends_on node).

Definition build_edges (nodes : list OperationNode) : gmap Z Z * gmap Z (list Z) :=
  foldl add_node_edges (initial_indegree nodes, ∅) nodes.

Definition initial_heap (nodes : list OperationNode) (indegree : gmap Z Z) : list OpId :=
  foldl (λ heap node,
           if default 0 (indegree !! node_id node) =? 0
           then heap_push (node_id node) heap else heap)
    [] nodes.

(** The loop body over the dependents of a popped node. *)
Definition relax (st : gmap Z Z * list OpId) (dep : OpId) : gmap Z Z * list OpId :=
  let (indegree, heap) := st in
  match indegree !! dep with
  | None => (indegree, heap)
  | Some e =>
      let e' := usize_dec e in
      (<[dep := e']> indegree, if e' =? 0 then heap_push dep heap else heap)
  end.

(** [while let Some(Reverse(id)) = heap.pop()]; every iteration emits a node. *)
Fixpoint kahn_loop (fuel : nat) (dependents : gmap Z (list Z)) (indegree : gmap Z Z)
  (heap order : list OpId) : list OpId :=
  match fuel, heap with
  | O, _ | _, [] => order
  | S fuel', id :: heap' =>
      let (indegree', heap'') :=
        foldl relax (indegree, heap') (default [] (dependents !! id)) in
      kahn_loop fuel' dependents indegree' heap'' (order ++ [id])
  end.

Definition topological_order (graph : OperationGraph) : Result OperationGraphError (list OpId) :=
  let nodes := graph_nodes graph in
  let (indegree, dependents) := build_edges nodes in
  let order := kahn_loop (length nodes) dependents indegree (initial_heap nodes indegree) [] in
  if Nat.eqb (length order) (length nodes) then Ok order else Err DependencyCycle.

Definition rollback_order (graph : OperationGraph) : Result OperationGraphError (list OpId) :=
  order ← topological_order graph; Ok (reverse order).

(** ** From changes to operations *)
Definition find_role (desired : NormalizedDesiredState) (key : ResourceKey)
  : Result OperationGraphError NormalizedRole :=
  ok_or (List.find (λ role, String.eqb (id_key (nr_identity role)) key) (nd_roles desired))
    (MissingPayload key).

Definition find_channel (desired : NormalizedDesiredState) (key : ResourceKey)
  : Result OperationGraphError NormalizedChannel :=
  ok_or (List.find (λ channel, String.eqb (id_key (nc_identity channel)) key)
           (nd_channels desired))
    (MissingPayload key).

Definition find_overwrite (desired : NormalizedDesiredState) (channel : ResourceKey)
  (target : NormalizedTarget) : Result OperationGraphError NormalizedOverwrite :=
  c ← find_channel desired channel;
  ok_or (List.find (λ o, bool_decide (no_target o = target)) (nc_overwrites c))
    (MissingPayload (id_key (nc_identity c))).

Definition overwrite_consumes (channel : ResourceKey) (target : NormalizedTarget)
  : list ResourceSymbol :=
  SymChannel channel :: match target with NRole role_key => [SymRole role_key] | _ => [] end.

Definition build_operation (change : DiffChange) (desired : NormalizedDesiredState)
  : Result OperationGraphError (Operation * list ResourceSymbol * list ResourceSymbol) :=
  match dc_op change, dc_target change with
  | Create, DRole key =>
      role ← find_role desired key;
      Ok (CreateRole key (nr_name role) (nr_permissions role), [SymRole key], [])
  | Update, DRole key =>
      role ← find_role desired key;
      Ok (UpdateRole key (nr_name role) (nr_permissions role), [], [])
  | Delete, DRole key => Ok (DeleteRole key, [], [])
  | Create, DChannel key =>
      channel ← find_channel desired key;
      Ok (CreateChannel key (nc_name channel) (nc_channel_type channel) (nc_parent channel),
          [SymChannel key],
          match nc_parent channel with Some parent => [SymChannel parent] | None => [] end)
  | Update, DChannel key =>
      channel ← find_channel desired key;
      Ok (UpdateChannel key (nc_name channel) (nc_channel_type channel), [], [])
  | Delete, DChannel key => Ok (DeleteChannel key, [], [])
  | Create, DOverwrite channel target =>
      overwrite ← find_overwrite desired channel target;
      Ok (CreateOverwrite channel target (no_allow overwrite) (no_deny overwrite), [],
          overwrite_consumes channel target)
  | Update, DOverwrite channel target =>
      overwrite ← find_overwrite desired channel target;
      Ok (UpdateOverwrite channel target (no_allow overwrite) (no_deny overwrite), [],
          overwrite_consumes channel target)
  | _, _ => Err UnsupportedChange
  end.

(** The loop over the changes; [next_id] is a [u32] that wraps as release builds do. *)
Fixpoint build_nodes (next_id : Z) (cs : list DiffChange) (desired : NormalizedDesiredState)
  : Result OperationGraphError (list OperationNode) :=
  match cs with
  | [] => Ok []
  | change :: rest =>
      if decide (dc_op change = NoOp) then build_nodes next_id rest desired
      else
        built ← build_operation change desired;
        nodes ← build_nodes (u32_wrapping_add next_id 1) rest desired;
        Ok (mkNode next_id built.1.1 built.1.2 built.2 [] :: nodes)
  end.

Definition collect_producers (nodes : list OperationNode) : gmap ResourceSymbol OpId :=
  foldl (λ m node, foldl (λ m symbol, <[symbol := node_id node]> m) m (node_produces node))
    ∅ nodes.

(** [deps.sort()]: the sorted list is unique whatever the algorithm. *)
Fixpoint insert_sorted (x : OpId) (l : list OpId) : list OpId :=
  match l with
  | [] => [x]
  | y :: rest => if x <=? y then x :: y :: rest else y :: insert_sorted x rest
  end.
Definition sort_ids (l : list OpId) : list OpId := foldr insert_sorted [] l.

(** [deps.dedup()] removes consecutive repetitions. *)
Fixpoint dedup (l : list OpId) : list OpId :=
  match l with
  | x :: (y :: _) as rest => if x =? y then dedup rest else x :: dedup rest
  | _ => l
  end.

Definition node_dependencies (producers : gmap ResourceSymbol OpId) (node : OperationNode)
  : list OpId :=
  dedup (sort_ids
    (filter (λ dep, dep ≠ node_id node)
       (omap (λ symbol, producers !! symbol) (node_consumes node)))).

Definition derive_dependencies (nodes : list OperationNode) : list OperationNode :=
  let producers := collect_producers nodes in
  (λ node, mkNode (node_id node) (node_operation node) (node_produces node)
             (node_consumes node) (node_dependencies producers node)) <$> nodes.

Definition compile_operations (d : DiffResult) (desired : NormalizedDesiredState)
  : Result OperationGraphError OperationGraph :=
  match conflicts d with
  | [] =>
      nodes ← build_nodes 0 (changes d) desired;
      let graph := mkGraph (derive_dependencies nodes) in
      _ ← topological_order graph;
      Ok graph
  | cs => Err (DiffHasConflicts (Z.of_nat (length cs)))
  end.
