(* ===== verification/GraphOrder.v ===== *)
(** * Scheduling is correct

    Kahn's algorithm of [OperationGraph.topological_order] is equal to a
    reference scheduler that recomputes the ready nodes from scratch and emits
    the least one; the reference is sound and complete for the existence of a
    dependency-respecting order. *)

From Stdlib Require Import ZArith Lia String.
From stdpp Require Import base decidable list strings gmap sorting.
From S2P Require Import Prelude RustStd DesiredCompiler DiffEngine OperationGraph.
Open Scope Z_scope.

Definition graph_ids (nodes : list OperationNode) : list OpId := node_id <$> nodes.

(** ** The reference scheduler *)
Definition node_ready (emitted : list OpId) (node : OperationNode) : Prop :=
  (node_id node ∉ emitted) ∧ Forall (λ dep, dep ∈ emitted) (node_depends_on node).

#[export] Instance node_ready_dec emitted node : Decision (node_ready emitted node).
Proof. unfold node_ready. apply _. Defined.

Definition ready_ids (nodes : list OperationNode) (emitted : list OpId) : list OpId :=
  node_id <$> filter (node_ready emitted) nodes.

Fixpoint least (l : list Z) : option Z :=
  match l with
  | [] => None
  | x :: rest => Some (match least rest with Some y => Z.min x y | None => x end)
  end.

Fixpoint reference_loop (fuel : nat) (nodes : list OperationNode) (emitted : list OpId)
  : list OpId :=
  match fuel with
  | O => emitted
  | S fuel' =>
      match least (ready_ids nodes emitted) with
      | None => emitted
      | Some id => reference_loop fuel' nodes (emitted ++ [id])
      end
  end.

Definition reference_order (graph : OperationGraph) : Result OperationGraphError (list OpId) :=
  let nodes := graph_nodes graph in
  let order := reference_loop (length nodes) nodes [] in
  if Nat.eqb (length order) (length nodes) then Ok order else Err DependencyCycle.

Lemma least_None l : least l = None ↔ l = [].
Proof. by destruct l. Qed.

Lemma least_spec l x : least l = Some x ↔ x ∈ l ∧ ∀ y, y ∈ l → x ≤ y.
Proof.
  revert x. induction l as [|a l IH]; intros x; cbn.
  { split; [done|]. intros [?%not_elem_of_nil _]. done. }
  setoid_rewrite elem_of_cons. destruct (least l) as [b|] eqn:Hb.
  - destruct (proj1 (IH b) eq_refl) as [Hin Hmin]. split.
    + intros [= <-]. split.
      * destruct (Z.min_spec a b) as [[_ ->]|[_ ->]]; auto.
      * intros y [->|Hy]; [lia|]. specialize (Hmin y Hy). lia.
    + intros [[->|Hx] Hall]; f_equal.
      * specialize (Hall b (or_intror Hin)). lia.
      * specialize (Hall a (or_introl eq_refl)) as Ha.
        specialize (Hall b (or_intror Hin)). specialize (Hmin x Hx). lia.
  - apply least_None in Hb as ->. setoid_rewrite elem_of_nil. split.
    + intros [= <-]. split; [auto|]. intros y [->|[]]. lia.
    + intros [[->|[]] _]. done.
Qed.

(** ** The heap *)
Lemma heap_push_elem x y heap : y ∈ heap_push x heap ↔ y = x ∨ y ∈ heap.
Proof.
  induction heap as [|z heap IH]; cbn; [by rewrite elem_of_cons|].
  destruct (x <=? z); rewrite !elem_of_cons; [done|]. rewrite IH. tauto.
Qed.

Lemma heap_push_sorted x heap :
  StronglySorted Z.lt heap → x ∉ heap → StronglySorted Z.lt (heap_push x heap).
Proof.
  induction 1 as [|y heap Hs IH Hall]; intros Hx; cbn.
  { repeat constructor. }
  apply not_elem_of_cons in Hx as [Hne Hx].
  destruct (Z.leb_spec x y).
  - constructor; [by constructor|]. constructor; [lia|].
    eapply Forall_impl; [exact Hall|]. cbn. lia.
  - constructor; [by apply IH|]. apply Forall_forall. intros z [->|Hz]%heap_push_elem; [done|].
    by eapply Forall_forall in Hall.
Qed.

Lemma heap_least x heap : StronglySorted Z.lt (x :: heap) → least (x :: heap) = Some x.
Proof.
  inversion 1 as [|? ? ? Hall]; subst. apply least_spec. split; [by left|].
  intros y [->|Hy]%elem_of_cons; [lia|]. eapply Forall_forall in Hall; [|done]. lia.
Qed.

Lemma least_ext l k : (∀ x, x ∈ l ↔ x ∈ k) → least l = least k.
Proof.
  intros Hext. destruct (least k) as [x|] eqn:Hk.
  - apply least_spec in Hk. apply least_spec. setoid_rewrite Hext. done.
  - apply least_None in Hk as ->. apply least_None.
    destruct l as [|a l]; [done|]. exfalso.
    eapply not_elem_of_nil, Hext. by left.
Qed.

(** ** Counting *)
Definition count (x : Z) (l : list Z) : Z := Z.of_nat (length (filter (λ y, y = x) l)).

Lemma count_cons x a l : count x (a :: l) = (if decide (a = x) then 1 else 0) + count x l.
Proof. unfold count. rewrite filter_cons. case_decide; cbn [length]; lia. Qed.

Lemma count_nonneg x l : 0 ≤ count x l.
Proof. unfold count. lia. Qed.

Lemma count_pos x l : 0 < count x l ↔ x ∈ l.
Proof.
  induction l as [|a l IH].
  - unfold count; cbn. rewrite elem_of_nil. lia.
  - rewrite count_cons, elem_of_cons. pose proof (count_nonneg x l).
    case_decide; naive_solver lia.
Qed.

(** The dependencies of a node that are not emitted yet. *)
Definition remaining (emitted : list OpId) (node : OperationNode) : Z :=
  Z.of_nat (length (filter (λ dep, dep ∉ emitted) (node_depends_on node))).

Lemma remaining_zero emitted node :
  remaining emitted node = 0 ↔ Forall (λ dep, dep ∈ emitted) (node_depends_on node).
Proof.
  unfold remaining. induction (node_depends_on node) as [|d l IH].
  { split; [constructor|done]. }
  rewrite filter_cons, Forall_cons. case_decide as Hd; cbn [length].
  - split; [lia|]. by intros [? _].
  - rewrite IH. tauto.
Qed.

Lemma remaining_snoc emitted id node :
  id ∉ emitted →
  remaining emitted node = remaining (emitted ++ [id]) node + count id (node_depends_on node).
Proof.
  intros Hid. unfold remaining. induction (node_depends_on node) as [|d l IH]; [done|].
  rewrite count_cons, !filter_cons.
  destruct (decide (d = id)) as [->|Hne].
  - rewrite decide_True by done. rewrite decide_False by set_solver. cbn [length]. lia.
  - destruct (decide (d ∈ emitted)) as [Hd|Hd].
    + rewrite !decide_False by set_solver. lia.
    + rewrite !decide_True by set_solver. cbn [length]. lia.
Qed.

(** ** The edge maps *)
Definition edges_from (dep : OpId) (nodes : list OperationNode) : list OpId :=
  nodes ≫= λ node, (λ _, node_id node) <$> filter (λ d, d = dep) (node_depends_on node).

Definition own_dependencies (id : OpId) (nodes : list OperationNode) : list OpId :=
  nodes ≫= λ node, if decide (node_id node = id) then node_depends_on node else [].

Lemma add_node_edges_spec st node :
  (∀ y, (add_node_edges st node).1 !! y
        = (if decide (node_id node = y)
           then (λ d, d + Z.of_nat (length (node_depends_on node))) <$> st.1 !! y
           else st.1 !! y))
  ∧ (∀ x, default [] ((add_node_edges st node).2 !! x)
          = default [] (st.2 !! x)
            ++ ((λ _, node_id node) <$> filter (λ d, d = x) (node_depends_on node))).
Proof.
  unfold add_node_edges. generalize (node_id node) as id.
  induction (node_depends_on node) as [|d deps IH] in st |- *; intros id; cbn [foldl].
  - split; intros y; cbn; [case_decide; [|done]|by rewrite app_nil_r].
    destruct (st.1 !! y); cbn; [by rewrite Z.add_0_r|done].
  - destruct (IH (add_edge id d st) id) as [IH1 IH2]. destruct st as [ind dep]. split.
    + intros y. rewrite IH1. cbn [add_edge fst length]. rewrite lookup_alter.
      repeat case_decide; try done. subst.
      destruct (ind !! y); simpl; [|done].
      f_equal. rewrite Nat2Z.inj_succ. lia.
    + intros x. rewrite IH2. cbn [add_edge snd]. rewrite lookup_insert, filter_cons.
      repeat case_decide; subst; try done. simpl. by rewrite <- app_assoc.
Qed.

Lemma build_edges_fold nodes st :
  (∀ y, (foldl add_node_edges st nodes).1 !! y
        = (λ d, d + Z.of_nat (length (own_dependencies y nodes))) <$> st.1 !! y)
  ∧ (∀ x, default [] ((foldl add_node_edges st nodes).2 !! x)
          = default [] (st.2 !! x) ++ edges_from x nodes).
Proof.
  induction nodes as [|node nodes IH] in st |- *; cbn [foldl].
  - split; intros y; cbn; [|by rewrite app_nil_r].
    destruct (st.1 !! y); cbn; [by rewrite Z.add_0_r|done].
  - destruct (add_node_edges_spec st node) as [H1 H2].
    destruct (IH (add_node_edges st node)) as [IH1 IH2]. split; intros y.
    + rewrite IH1, H1. unfold own_dependencies. cbn. rewrite length_app.
      case_decide; cbn; [|done].
      destruct (st.1 !! y); cbn; [f_equal; lia|done].
    + rewrite IH2, H2. unfold edges_from. cbn. by rewrite <- app_assoc.
Qed.

Lemma initial_indegree_spec nodes id :
  id ∈ graph_ids nodes → initial_indegree nodes !! id = Some 0.
Proof.
  unfold initial_indegree.
  assert (∀ m : gmap Z Z, (id ∈ graph_ids nodes ∨ m !! id = Some 0) →
    foldl (λ m node, <[node_id node := 0]> m) m nodes !! id = Some 0) as Hgen; [|auto].
  induction nodes as [|node nodes IH]; intros m; cbn.
  - intros [?%not_elem_of_nil|?]; done.
  - intros Hid. apply IH. rewrite lookup_insert. case_decide; [auto|].
    destruct Hid as [[?|?]%elem_of_cons|?]; [congruence|auto..].
Qed.

Lemma own_dependencies_node nodes node :
  NoDup (graph_ids nodes) → node ∈ nodes →
  own_dependencies (node_id node) nodes = node_depends_on node.
Proof.
  unfold own_dependencies, graph_ids. induction nodes as [|n nodes IH]; cbn.
  { by intros _ ?%not_elem_of_nil. }
  intros [Hn Hnd]%NoDup_cons [->|Hin]%elem_of_cons.
  - rewrite decide_True by done.
    assert (nodes ≫= (λ m, if decide (node_id m = node_id n) then node_depends_on m else []) = [])
      as ->; [|by rewrite app_nil_r].
    clear IH Hnd. induction nodes as [|m nodes IH]; cbn; [done|]. cbn in Hn.
    apply not_elem_of_cons in Hn as [Hne Hn]. rewrite decide_False by done. by apply IH.
  - rewrite decide_False; [by apply IH|].
    intros Heq. apply Hn. rewrite Heq. by apply list_elem_of_fmap_2.
Qed.

Lemma count_app x l k : count x (l ++ k) = count x l + count x k.
Proof. unfold count. rewrite filter_app, length_app. lia. Qed.

Lemma count_const x y (l : list Z) :
  count x ((λ _, y) <$> l) = if decide (y = x) then Z.of_nat (length l) else 0.
Proof.
  induction l as [|a l IH]; cbn [fmap list_fmap length]; [by case_decide|].
  rewrite count_cons, IH. case_decide; lia.
Qed.

Lemma count_edges_from dep id nodes :
  count id (edges_from dep nodes) = count dep (own_dependencies id nodes).
Proof.
  unfold edges_from, own_dependencies. induction nodes as [|n nodes IH]; cbn; [done|].
  rewrite !count_app, IH, count_const. case_decide; [done|]. done.
Qed.

(** ** One iteration *)
Definition heap_ok (indegree : gmap Z Z) (heap : list OpId) : Prop :=
  StronglySorted Z.lt heap ∧ ∀ x, x ∈ heap → indegree !! x = Some 0.

(** Decrementing the indegree of a node that is not ready yet keeps the heap. *)
Lemma relax_heap_ok d e indegree heap :
  heap_ok indegree heap → d ∉ heap →
  heap_ok (<[d := e - 1]> indegree) (if e - 1 =? 0 then heap_push d heap else heap).
Proof.
  intros [Hsorted Hzero] Hdh. split.
  - destruct (_ =? _); [by apply heap_push_sorted|done].
  - intros x Hx. destruct (Z.eqb_spec (e - 1) 0) as [H0|H0].
    + apply heap_push_elem in Hx as [->|Hx]; [by rewrite lookup_insert_eq, H0|].
      rewrite lookup_insert_ne by congruence. auto.
    + rewrite lookup_insert_ne by congruence. auto.
Qed.

Lemma relax_fold ds indegree heap :
  heap_ok indegree heap →
  (∀ x, x ∈ ds → ∃ e, indegree !! x = Some e ∧ count x ds ≤ e) →
  let st := foldl relax (indegree, heap) ds in
  (∀ x, st.1 !! x = (λ e, e - count x ds) <$> indegree !! x)
  ∧ heap_ok st.1 st.2
  ∧ (∀ x, x ∈ st.2 ↔ x ∈ heap ∨ (x ∈ ds ∧ indegree !! x = Some (count x ds))).
Proof.
  induction ds as [|d ds IH] in indegree, heap |- *; intros Hok Hds; cbn [foldl].
  { split_and!; [intros x| |intros x]; cbn.
    - destruct (indegree !! x); cbn; [by rewrite Z.sub_0_r|done].
    - done.
    - rewrite elem_of_nil. tauto. }
  destruct (Hds d) as (e & He & Hcount); [by left|].
  rewrite count_cons, decide_True in Hcount by done.
  pose proof (count_nonneg d ds) as Hnn.
  cbn [relax]. rewrite He. unfold usize_dec. rewrite (proj2 (Z.eqb_neq e 0)) by lia.
  assert (d ∉ heap) as Hdh.
  { intros Hin%(proj2 Hok). rewrite He in Hin. injection Hin as ->. lia. }
  set (heap1 := if e - 1 =? 0 then heap_push d heap else heap).
  destruct (IH (<[d := e - 1]> indegree) heap1) as (IH1 & IH2 & IH3);
    [by apply relax_heap_ok|..].
  { intros x Hx. destruct (decide (d = x)) as [<-|Hne].
    - exists (e - 1). rewrite lookup_insert_eq. split; [done|lia].
    - destruct (Hds x) as (e' & He' & Hc'); [by right|].
      rewrite count_cons, decide_False in Hc' by done. exists e'.
      by rewrite lookup_insert_ne. }
  split_and!.
  - intros x. rewrite IH1, count_cons. destruct (decide (d = x)) as [<-|Hne].
    + rewrite lookup_insert_eq, He. cbn. f_equal. lia.
    + rewrite lookup_insert_ne by done. destruct (indegree !! x); [|done]. cbn. f_equal; lia.
  - exact IH2.
  - intros x. rewrite IH3, count_cons, elem_of_cons. unfold heap1.
    destruct (decide (d = x)) as [<-|Hne].
    + rewrite lookup_insert_eq, He, <- (count_pos d ds).
      destruct (Z.eqb_spec (e - 1) 0) as [H0|H0]; rewrite ?heap_push_elem.
      * split; [intros _; right; split; [auto|f_equal; lia]|auto].
      * split.
        -- intros [?|[? [= ?]]]; [auto|]. right. split; [auto|f_equal; lia].
        -- intros [?|[_ [= ?]]]; [auto|]. right. split; [lia|f_equal; lia].
    + rewrite lookup_insert_ne by done. rewrite Z.add_0_l.
      destruct (e - 1 =? 0); rewrite ?heap_push_elem; naive_solver.
Qed.

(** ** The loop invariant *)
Section kahn.
Context (nodes : list OperationNode) (Hnodup : NoDup (graph_ids nodes)).

Record kahn_inv (indegree : gmap Z Z) (heap emitted : list OpId) : Prop := {
  ki_indegree : ∀ node, node ∈ nodes →
    indegree !! node_id node = Some (remaining emitted node);
  ki_sorted : StronglySorted Z.lt heap;
  ki_ready : ∀ x, x ∈ heap ↔ x ∈ ready_ids nodes emitted;
  ki_closed : ∀ node, node ∈ nodes → node_id node ∈ emitted → remaining emitted node = 0;
}.

Lemma ready_ids_elem emitted x :
  x ∈ ready_ids nodes emitted ↔
  ∃ node, node ∈ nodes ∧ x = node_id node ∧ (x ∉ emitted) ∧ remaining emitted node = 0.
Proof.
  unfold ready_ids. rewrite list_elem_of_fmap. setoid_rewrite list_elem_of_filter.
  unfold node_ready. setoid_rewrite <- remaining_zero. naive_solver.
Qed.

Lemma node_by_id node node' :
  node ∈ nodes → node' ∈ nodes → node_id node = node_id node' → node = node'.
Proof.
  intros (i & Hi)%list_elem_of_lookup (j & Hj)%list_elem_of_lookup Heq.
  assert (i = j) as ->; [|congruence].
  eapply (NoDup_lookup (graph_ids nodes)); [done|..];
    unfold graph_ids; rewrite list_lookup_fmap; [by rewrite Hi|by rewrite Hj, Heq].
Qed.

Lemma kahn_inv_heap_ok indegree heap emitted :
  kahn_inv indegree heap emitted → heap_ok indegree heap.
Proof.
  intros [Hind Hs Hr _]. split; [done|]. intros x Hx.
  apply Hr, ready_ids_elem in Hx as (node & Hin & -> & _ & H0).
  by rewrite Hind, H0.
Qed.

Lemma edges_from_count dep node :
  node ∈ nodes → count (node_id node) (edges_from dep nodes) = count dep (node_depends_on node).
Proof. intros Hin. by rewrite count_edges_from, own_dependencies_node. Qed.

Lemma edges_from_elem dep x :
  x ∈ edges_from dep nodes → ∃ node, node ∈ nodes ∧ x = node_id node.
Proof.
  unfold edges_from. intros (node & (? & -> & _)%list_elem_of_fmap & Hin)%list_elem_of_bind.
  eauto.
Qed.

(** What membership in the heap of an invariant state says. *)
Lemma kahn_inv_heap indegree heap emitted node :
  kahn_inv indegree heap emitted → node ∈ nodes →
  node_id node ∈ heap ↔ (node_id node ∉ emitted) ∧ remaining emitted node = 0.
Proof.
  intros [_ _ Hready _] Hin. rewrite Hready, ready_ids_elem. split; [|by eauto].
  intros (n & Hn & He & ? & ?). pose proof (node_by_id node n Hin Hn He). by subst n.
Qed.

Lemma kahn_inv_heap_node indegree heap emitted x :
  kahn_inv indegree heap emitted → x ∈ heap → ∃ node, node ∈ nodes ∧ x = node_id node.
Proof. intros [_ _ Hready _] (n & ? & ? & _)%Hready%ready_ids_elem. eauto. Qed.

Lemma remaining_step emitted id node :
  id ∉ emitted →
  0 ≤ remaining (emitted ++ [id]) node ∧ 0 ≤ count id (node_depends_on node)
  ∧ remaining emitted node = remaining (emitted ++ [id]) node + count id (node_depends_on node).
Proof. intros Hid. split_and!; [unfold remaining; lia|apply count_nonneg|by apply remaining_snoc]. Qed.

(** Popping [id]: which nodes are ready afterwards. *)
Lemma kahn_step_ready indegree id heap emitted node :
  kahn_inv indegree (id :: heap) emitted → node ∈ nodes →
  (node_id node ∈ heap
   ∨ (0 < count id (node_depends_on node)
      ∧ remaining emitted node = count id (node_depends_on node)))
  ↔ (node_id node ∉ emitted ++ [id]) ∧ remaining (emitted ++ [id]) node = 0.
Proof.
  intros Hinv Hin. pose proof (ki_sorted _ _ _ Hinv) as Hs.
  inversion Hs as [|? ? _ Hall]; subst.
  destruct (kahn_inv_heap_node _ _ _ id Hinv) as (n & Hn & ->); [by left|].
  destruct (proj1 (kahn_inv_heap _ _ _ n Hinv Hn)) as [Hid Hn0]; [by left|].
  pose proof (remaining_step emitted (node_id n) node Hid) as (Hr & Hc & Hsum).
  pose proof (kahn_inv_heap _ _ _ node Hinv Hin) as Hheap.
  rewrite elem_of_cons in Hheap. rewrite not_elem_of_app, list_elem_of_singleton.
  assert (node_id node ∈ heap → node_id node ≠ node_id n) as Hlt.
  { intros Hx Heq. eapply Forall_forall in Hx; [|exact Hall]. lia. }
  assert (node_id node = node_id n → remaining emitted node = 0) as Heq0.
  { intros Heq. by rewrite (node_by_id node n Hin Hn Heq). }
  pose proof (ki_closed _ _ _ Hinv node Hin) as Hcl.
  split.
  - intros [Hx|[Hpos Hrem]].
    + destruct (proj1 Hheap) as [? ?]; [by right|]. split; [auto|lia].
    + split; [|lia]. split; [intros ?%Hcl; lia|]. intros ?%Heq0. lia.
  - intros [[He Hne] H0].
    destruct (decide (0 < count (node_id n) (node_depends_on node))); [right; lia|left].
    destruct (proj2 Hheap) as [?|?]; [split; [done|lia]|done..].
Qed.

Lemma kahn_step indegree id heap emitted :
  kahn_inv indegree (id :: heap) emitted →
  let st := foldl relax (indegree, heap) (edges_from id nodes) in
  kahn_inv st.1 st.2 (emitted ++ [id]).
Proof.
  intros Hinv. pose proof (kahn_inv_heap_ok _ _ _ Hinv) as [Hsorted Hzero].
  inversion Hsorted as [|? ? Hs _]; subst.
  destruct (kahn_inv_heap_node _ _ _ id Hinv) as (n & Hn & ->); [by left|].
  destruct (proj1 (kahn_inv_heap _ _ _ n Hinv Hn)) as [Hid _]; [by left|].
  destruct (relax_fold (edges_from (node_id n) nodes) indegree heap) as (H1 & [H2 _] & H3).
  { split; [done|]. intros x Hx. apply Hzero. by right. }
  { intros x (node & Hin & ->)%edges_from_elem. exists (remaining emitted node).
    rewrite edges_from_count, (ki_indegree _ _ _ Hinv) by done. split; [done|].
    pose proof (remaining_step emitted (node_id n) node Hid). lia. }
  split; [|exact H2|..].
  - intros node Hin. rewrite H1, (ki_indegree _ _ _ Hinv), edges_from_count by done. cbn. f_equal.
    pose proof (remaining_step emitted (node_id n) node Hid). lia.
  - intros x. rewrite H3, ready_ids_elem. split.
    + intros Hx.
      assert (∃ node, node ∈ nodes ∧ x = node_id node) as (node & Hin & ->).
      { destruct Hx as [Hx|[Hx%edges_from_elem _]]; [|done].
        eapply kahn_inv_heap_node; [done|by right]. }
      exists node. rewrite <- (count_pos _ (edges_from _ _)) in Hx.
      rewrite edges_from_count, (ki_indegree _ _ _ Hinv) in Hx by done.
      assert (Hx' : node_id node ∈ heap ∨ (0 < count (node_id n) (node_depends_on node)
        ∧ remaining emitted node = count (node_id n) (node_depends_on node))).
      { destruct Hx as [?|[? [= ?]]]; auto. }
      by apply (kahn_step_ready _ _ _ _ node Hinv Hin) in Hx' as [? ?].
    + intros (node & Hin & -> & Hx & H0).
      rewrite <- (count_pos _ (edges_from _ _)).
      rewrite edges_from_count, (ki_indegree _ _ _ Hinv) by done.
      destruct (proj2 (kahn_step_ready _ _ _ _ node Hinv Hin)) as [?|[? ->]]; auto.
  - intros node Hin Hx. pose proof (remaining_step emitted (node_id n) node Hid).
    assert (remaining emitted node = 0); [|lia].
    apply elem_of_app in Hx as [Hx|Hx%list_elem_of_singleton]; [by eapply ki_closed|].
    apply (kahn_inv_heap _ _ _ node Hinv Hin). rewrite Hx. by left.
Qed.

Lemma kahn_loop_reference fuel dependents indegree heap emitted :
  (∀ x, default [] (dependents !! x) = edges_from x nodes) →
  kahn_inv indegree heap emitted →
  kahn_loop fuel dependents indegree heap emitted = reference_loop fuel nodes emitted.
Proof.
  intros Hdep. induction fuel as [|fuel IH] in indegree, heap, emitted |- *; intros Hinv; [done|].
  cbn. rewrite <- (least_ext _ _ (ki_ready _ _ _ Hinv)).
  destruct heap as [|id heap]; [done|].
  rewrite (heap_least _ _ (ki_sorted _ _ _ Hinv)), Hdep.
  pose proof (kahn_step _ _ _ _ Hinv) as Hstep.
  destruct (foldl relax _ _) as [indegree' heap']. by apply IH.
Qed.

Lemma ready_ids_cons n ns x :
  x ∈ ready_ids (n :: ns) [] ↔ (x = node_id n ∧ remaining [] n = 0) ∨ x ∈ ready_ids ns [].
Proof.
  unfold ready_ids. rewrite filter_cons.
  assert (node_ready [] n ↔ remaining [] n = 0) as Hr.
  { unfold node_ready. rewrite <- remaining_zero. rewrite elem_of_nil. tauto. }
  case_decide as Hd; rewrite Hr in Hd; cbn; rewrite ?elem_of_cons; naive_solver.
Qed.

Definition seed (indegree : gmap Z Z) (heap : list OpId) (node : OperationNode) : list OpId :=
  if default 0 (indegree !! node_id node) =? 0 then heap_push (node_id node) heap else heap.

Lemma seed_fold indegree ns heap :
  (∀ node, node ∈ ns → indegree !! node_id node = Some (remaining [] node)) →
  NoDup (graph_ids ns) → StronglySorted Z.lt heap →
  (∀ x, x ∈ heap → x ∉ graph_ids ns) →
  StronglySorted Z.lt (foldl (seed indegree) heap ns)
  ∧ ∀ x, x ∈ foldl (seed indegree) heap ns ↔ x ∈ heap ∨ x ∈ ready_ids ns [].
Proof.
  induction ns as [|n ns IH] in heap |- *; intros Hind Hnd Hs Hfresh; cbn [foldl].
  { split; [done|]. intros x. unfold ready_ids. cbn. rewrite elem_of_nil. tauto. }
  cbn in Hnd. apply NoDup_cons in Hnd as [Hn Hnd].
  assert (seed indegree heap n = if remaining [] n =? 0 then heap_push (node_id n) heap else heap)
    as ->. { unfold seed. by rewrite (Hind n) by left. }
  setoid_rewrite ready_ids_cons.
  destruct (Z.eqb_spec (remaining [] n) 0) as [H0|H0].
  - destruct (IH (heap_push (node_id n) heap)) as [IH1 IH2]; [|done|..].
    + intros m Hm. apply Hind. by right.
    + apply heap_push_sorted; [done|]. intros Hx%Hfresh. apply Hx. by left.
    + intros y [->|Hy]%heap_push_elem; [done|]. intros Hy'. apply (Hfresh y Hy). by right.
    + split; [exact IH1|]. intros y. rewrite IH2, heap_push_elem. naive_solver.
  - destruct (IH heap) as [IH1 IH2]; [|done..| |].
    + intros m Hm. apply Hind. by right.
    + intros y Hy Hy'. apply (Hfresh y Hy). by right.
    + split; [exact IH1|]. intros y. rewrite IH2. naive_solver.
Qed.

Lemma remaining_nil node : remaining [] node = Z.of_nat (length (node_depends_on node)).
Proof.
  unfold remaining. do 2 f_equal. induction (node_depends_on node) as [|d l IH]; [done|].
  rewrite filter_cons, decide_True by apply not_elem_of_nil. by rewrite IH.
Qed.

Lemma kahn_inv_initial :
  kahn_inv (build_edges nodes).1 (initial_heap nodes (build_edges nodes).1) [].
Proof.
  assert (Hind : ∀ node, node ∈ nodes →
    (build_edges nodes).1 !! node_id node = Some (remaining [] node)).
  { intros node Hin. unfold build_edges. rewrite (proj1 (build_edges_fold _ _)). cbn.
    rewrite initial_indegree_spec by (by apply list_elem_of_fmap_2). cbn.
    by rewrite own_dependencies_node, remaining_nil. }
  destruct (seed_fold (build_edges nodes).1 nodes []) as [Hs Hr];
    [done|done|constructor|by intros x ?%not_elem_of_nil|].
  split; [done|exact Hs| |by intros ? ? ?%not_elem_of_nil].
  intros x. unfold initial_heap. fold (seed (build_edges nodes).1).
  rewrite Hr, elem_of_nil. tauto.
Qed.
End kahn.

(** The order [topological_order] computes before it compares lengths. *)
Definition kahn_order (nodes : list OperationNode) : list OpId :=
  kahn_loop (length nodes) (build_edges nodes).2 (build_edges nodes).1
    (initial_heap nodes (build_edges nodes).1) [].

Lemma topological_order_unfold graph :
  topological_order graph =
  if Nat.eqb (length (kahn_order (graph_nodes graph))) (length (graph_nodes graph))
  then Ok (kahn_order (graph_nodes graph)) else Err DependencyCycle.
Proof. unfold topological_order, kahn_order. by destruct (build_edges _). Qed.

Lemma kahn_order_reference nodes :
  NoDup (graph_ids nodes) → kahn_order nodes = reference_loop (length nodes) nodes [].
Proof.
  intros Hnd. apply (kahn_loop_reference nodes Hnd); [|by apply kahn_inv_initial].
  intros x. unfold build_edges. by rewrite (proj2 (build_edges_fold _ _)).
Qed.

(** C22: Kahn's algorithm over the min-heap computes, for every graph with
    distinct node ids, the order of the reference scheduler, which at each step
    emits the least node whose dependencies have all been emitted. *)
Theorem topological_order_reference graph :
  NoDup (graph_ids (graph_nodes graph)) →
  topological_order graph = reference_order graph.
Proof.
  intros Hnd. by rewrite topological_order_unfold, kahn_order_reference.
Qed.

(** ** Dependency-respecting orders *)
Definition respects (nodes : list OperationNode) (order : list OpId) : Prop :=
  ∀ node (i : nat) dep, node ∈ nodes → order !! i = Some (node_id node) →
    dep ∈ node_depends_on node → ∃ j, (j < i)%nat ∧ order !! j = Some dep.

Definition is_topological (graph : OperationGraph) (order : list OpId) : Prop :=
  order ≡ₚ graph_ids (graph_nodes graph) ∧ respects (graph_nodes graph) order.

Section reference.
Context (nodes : list OperationNode) (Hnodup : NoDup (graph_ids nodes)).

Record emitted_ok (emitted : list OpId) : Prop := {
  eo_nodup : NoDup emitted;
  eo_ids : ∀ x, x ∈ emitted → x ∈ graph_ids nodes;
  eo_respects : respects nodes emitted;
}.

Lemma emitted_ok_step emitted id :
  emitted_ok emitted → id ∈ ready_ids nodes emitted → emitted_ok (emitted ++ [id]).
Proof.
  intros [Hnd Hids Hresp] (n & Hn & -> & Hid & H0)%ready_ids_elem. split.
  - apply NoDup_app. split_and!; [done| |apply NoDup_singleton].
    by intros x Hx ->%list_elem_of_singleton.
  - intros x [?| ->%list_elem_of_singleton]%elem_of_app; [auto|].
    by apply list_elem_of_fmap_2.
  - intros node i dep Hin Hi Hdep. apply lookup_app_Some in Hi as [Hi|[Hlen Hi]].
    + destruct (Hresp node i dep) as (j & Hj & Hl); [done..|]. exists j. split; [done|].
      by apply lookup_app_l_Some.
    + apply list_lookup_singleton_Some in Hi as [Hi0 Heq].
      pose proof (node_by_id nodes Hnodup node n Hin Hn (eq_sym Heq)) as ->.
      apply remaining_zero in H0. rewrite Forall_forall in H0.
      destruct (list_elem_of_lookup_1 _ _ (H0 dep Hdep)) as (j & Hj).
      exists j. pose proof (lookup_lt_Some _ _ _ Hj). split; [lia|].
      by apply lookup_app_l_Some.
Qed.

Lemma reference_loop_ok fuel emitted :
  emitted_ok emitted → emitted_ok (reference_loop fuel nodes emitted).
Proof.
  induction fuel as [|fuel IH] in emitted |- *; cbn; [done|]. intros Hok.
  destruct (least _) as [id|] eqn:Hl; [|done].
  apply IH, emitted_ok_step; [done|]. by apply least_spec in Hl as [? _].
Qed.

(** While a dependency-respecting order exists, some node is ready. *)
Lemma ready_exists emitted order :
  emitted_ok emitted → order ≡ₚ graph_ids nodes → respects nodes order →
  (length emitted < length nodes)%nat → least (ready_ids nodes emitted) ≠ None.
Proof.
  intros [Hnd Hids _] Hperm Hresp Hlen Hnone. apply least_None in Hnone.
  destruct (decide (Exists (λ x, x ∉ emitted) order)) as [Hex|Hall].
  - destruct (list_find (λ x, x ∉ emitted) order) as [[i x]|] eqn:Hf.
    + apply list_find_Some in Hf as (Hi & Hx & Hbefore).
      assert (x ∈ graph_ids nodes) as (n & -> & Hn)%list_elem_of_fmap.
      { rewrite <- Hperm. by eapply list_elem_of_lookup_2. }
      assert (node_id n ∈ ready_ids nodes emitted) as Hr; [|rewrite Hnone in Hr;
        by apply not_elem_of_nil in Hr].
      apply ready_ids_elem. exists n. split_and!; [done..|].
      apply remaining_zero, Forall_forall. intros dep Hdep.
      destruct (Hresp n i dep) as (j & Hj & Hl); [done..|].
      apply dec_stable. by eapply Hbefore.
    + apply list_find_None in Hf. apply Exists_exists in Hex as (x & Hin & Hx).
      rewrite Forall_forall in Hf. by destruct (Hf x Hin).
  - assert (Hsub : ∀ x, x ∈ graph_ids nodes → x ∈ emitted).
    { intros x Hx. apply dec_stable. intros Hn. apply Hall, Exists_exists.
      exists x. by rewrite Hperm. }
    assert (length (graph_ids nodes) ≤ length emitted)%nat as Hle.
    { by apply submseteq_length, NoDup_submseteq. }
    unfold graph_ids in Hle. rewrite length_fmap in Hle. lia.
Qed.

Lemma reference_loop_length fuel emitted order :
  emitted_ok emitted → order ≡ₚ graph_ids nodes → respects nodes order →
  (length emitted + fuel = length nodes)%nat →
  length (reference_loop fuel nodes emitted) = length nodes.
Proof.
  intros Hok Hperm Hresp. induction fuel as [|fuel IH] in emitted, Hok |- *; cbn; [lia|].
  intros Hlen. destruct (least _) as [id|] eqn:Hl.
  - apply IH; [|rewrite length_app; cbn; lia].
    apply emitted_ok_step; [done|]. by apply least_spec in Hl as [? _].
  - exfalso. eapply (ready_exists emitted order); eauto. lia.
Qed.
End reference.

Lemma emitted_ok_nil nodes : emitted_ok nodes [].
Proof.
  split; [constructor|by intros x ?%not_elem_of_nil|]. intros node i dep _ Hi. done.
Qed.

Lemma topological_order_Ok graph order :
  NoDup (graph_ids (graph_nodes graph)) → topological_order graph = Ok order →
  is_topological graph order.
Proof.
  intros Hnd. rewrite topological_order_unfold, kahn_order_reference by done.
  destruct graph as [nodes]. cbn [graph_nodes] in *.
  pose proof (reference_loop_ok nodes Hnd (length nodes) [] (emitted_ok_nil nodes)) as Hok.
  destruct (Nat.eqb_spec (length (reference_loop (length nodes) nodes [])) (length nodes))
    as [Hlen|Hlen]; [|done].
  intros [= <-]. destruct Hok as [Hnd' Hids Hresp]. split; [|done]. cbn.
  apply submseteq_length_Permutation; [by apply NoDup_submseteq|].
  unfold graph_ids. rewrite length_fmap. lia.
Qed.

Lemma topological_order_Err graph e :
  NoDup (graph_ids (graph_nodes graph)) → topological_order graph = Err e →
  e = DependencyCycle ∧ ∀ order, ¬ is_topological graph order.
Proof.
  intros Hnd Ho. rewrite topological_order_unfold, kahn_order_reference in Ho by done.
  destruct graph as [nodes]. cbn [graph_nodes] in *.
  destruct (Nat.eqb_spec (length (reference_loop (length nodes) nodes [])) (length nodes))
    as [Hlen|Hlen]; [done|].
  injection Ho as <-. split; [done|]. intros order [Hperm Hresp]. apply Hlen.
  by eapply reference_loop_length; [..|apply emitted_ok_nil|done|done|].
Qed.

(** C21: on a graph with distinct node ids [topological_order] returns an order
    that lists every node once with all its dependencies before it, and fails
    only when no such order exists (a cycle, or a dependency on no node). *)
Theorem topological_order_sound_complete graph :
  NoDup (graph_ids (graph_nodes graph)) →
  match topological_order graph with
  | Ok order => is_topological graph order
  | Err e => e = DependencyCycle ∧ ∀ order, ¬ is_topological graph order
  end.
Proof.
  intros Hnd. destruct (topological_order graph) as [order|e] eqn:Ho.
  - by apply topological_order_Ok.
  - by apply topological_order_Err.
Qed.

(** ** Graphs with a rank have a schedule *)
Section ranked.
Context (nodes : list OperationNode) (Hnodup : NoDup (graph_ids nodes)).
Context (rank : OperationNode → nat).
Context (Hrank : ∀ node dep, node ∈ nodes → dep ∈ node_depends_on node →
           ∃ n, n ∈ nodes ∧ node_id n = dep ∧ (rank n < rank node)%nat).

(** Every node below a rank is emitted or some node below it is ready. *)
Lemma ranked_ready emitted node :
  node ∈ nodes → node_id node ∉ emitted → ready_ids nodes emitted ≠ [].
Proof.
  remember (rank node) as r eqn:Hr. revert node Hr.
  induction (lt_wf r) as [r _ IH]. intros node -> Hin Hne Hnil.
  destruct (decide (Exists (λ dep, dep ∉ emitted) (node_depends_on node))) as [Hex|Hall].
  - apply Exists_exists in Hex as (dep & Hdep & Hnd).
    destruct (Hrank node dep Hin Hdep) as (n & Hn & <- & Hlt).
    by eapply (IH (rank n) Hlt n).
  - assert (node_id node ∈ ready_ids nodes emitted) as Hready.
    { apply ready_ids_elem. exists node. split_and!; [done..|].
      apply remaining_zero, Forall_forall. intros dep Hdep. apply dec_stable. intros Hnd.
      apply Hall, Exists_exists. eauto. }
    rewrite Hnil in Hready. by apply not_elem_of_nil in Hready.
Qed.

Lemma ranked_loop_length fuel emitted :
  emitted_ok nodes emitted → (length emitted + fuel = length nodes)%nat →
  length (reference_loop fuel nodes emitted) = length nodes.
Proof.
  induction fuel as [|fuel IH] in emitted |- *; cbn; intros Hok Hlen; [lia|].
  destruct (least _) as [id|] eqn:Hl.
  - apply IH; [|rewrite length_app; cbn; lia].
    apply emitted_ok_step; [done..|]. by apply least_spec in Hl as [? _].
  - apply least_None in Hl.
    destruct (decide (Exists (λ node, node_id node ∉ emitted) nodes)) as [Hex|Hall].
    + apply Exists_exists in Hex as (node & Hin & Hne). by destruct (ranked_ready emitted node).
    + assert (length (graph_ids nodes) ≤ length emitted)%nat as Hle.
      { apply submseteq_length, NoDup_submseteq; [done|].
        intros x (node & -> & Hin)%list_elem_of_fmap. apply dec_stable. intros Hne.
        apply Hall, Exists_exists. eauto. }
      unfold graph_ids in Hle. rewrite length_fmap in Hle. lia.
Qed.

Lemma ranked_topological_order : ∃ order, topological_order (mkGraph nodes) = Ok order.
Proof.
  rewrite topological_order_unfold. cbn [graph_nodes].
  rewrite (kahn_order_reference nodes Hnodup).
  rewrite ranked_loop_length by (apply emitted_ok_nil || done).
  rewrite Nat.eqb_refl. eauto.
Qed.
End ranked.
