(* ===== verification/GraphCompile.v ===== *)
(** * Compiling differences to graphs

    What [OperationGraph.compile_operations] promises: the nodes are the
    proposed changes in order, numbered from zero, with the payload the document
    holds; the dependencies are exactly the producers of the consumed symbols;
    and on the differences [DiffEngine.diff] computes for a document with
    distinct keys, compilation only fails for conflicts or cyclic parents. *)

From Stdlib Require Import ZArith Lia String.
From stdpp Require Import base decidable list strings gmap sorting.
From S2P Require Import Prelude RustStd DesiredState DesiredCompiler DiffEngine.
From S2P Require Import OperationGraph GraphOrder.
Open Scope Z_scope.

(** ** Nodes *)
Definition effective (cs : list DiffChange) : list DiffChange :=
  filter (λ c, dc_op c ≠ NoOp) cs.

Definition node_built (desired : NormalizedDesiredState) (change : DiffChange)
  (node : OperationNode) : Prop :=
  build_operation change desired
  = Ok (node_operation node, node_produces node, node_consumes node).

Lemma build_nodes_spec next cs desired nodes :
  build_nodes next cs desired = Ok nodes →
  (0 ≤ next → next + Z.of_nat (length nodes) ≤ 2 ^ 32 →
   graph_ids nodes = seqZ next (Z.of_nat (length nodes)))
  ∧ Forall2 (node_built desired) (effective cs) nodes.
Proof.
  revert next nodes. induction cs as [|c cs IH]; intros next nodes; cbn [build_nodes].
  { intros [= <-]. split; [done|constructor]. }
  unfold effective. rewrite filter_cons. case_decide as Hop.
  - intros Hb. rewrite decide_False by (by intros ?). by apply IH.
  - rewrite decide_True by done. intros ([[op ps] qs] & Hop' & Hb)%bind_Ok_inv.
    apply bind_Ok_inv in Hb as (rest & Hrest & [= <-]).
    destruct (IH _ _ Hrest) as [Hids Hall]. split.
    + cbn [graph_ids fmap list_fmap length node_id]. intros H0 Hfit.
      rewrite Nat2Z.inj_succ in Hfit |- *. rewrite seqZ_cons by lia. rewrite Z.pred_succ. f_equal.
      destruct rest as [|node rest]; [done|].
      assert (u32_wrapping_add next 1 = Z.succ next) as Hs.
      { rewrite u32_wrapping_add_small; cbn [length] in Hfit; lia. }
      rewrite Hs in Hids. apply Hids; lia.
    + by constructor.
Qed.

(** ** Dependencies *)
Definition last_producer (nodes : list OperationNode) (symbol : ResourceSymbol) (id : OpId)
  : Prop :=
  ∃ before node after, nodes = before ++ node :: after
    ∧ symbol ∈ node_produces node ∧ node_id node = id
    ∧ Forall (λ later, symbol ∉ node_produces later) after.

Definition produce (m : gmap ResourceSymbol OpId) (node : OperationNode)
  : gmap ResourceSymbol OpId :=
  foldl (λ m symbol, <[symbol := node_id node]> m) m (node_produces node).

Lemma produce_lookup m node symbol :
  produce m node !! symbol
  = if decide (symbol ∈ node_produces node) then Some (node_id node) else m !! symbol.
Proof.
  unfold produce. induction (node_produces node) as [|s l IH] in m |- *; cbn [foldl].
  { by rewrite decide_False by apply not_elem_of_nil. }
  rewrite IH, lookup_insert.
  repeat case_decide; try done; set_solver.
Qed.

Lemma collect_producers_spec nodes symbol id :
  collect_producers nodes !! symbol = Some id ↔ last_producer nodes symbol id.
Proof.
  unfold collect_producers. fold produce. unfold last_producer.
  induction nodes as [|node nodes IH] using rev_ind.
  { cbn. split; [done|]. intros ([] & ? & ? & ? & _); done. }
  rewrite foldl_snoc, produce_lookup. case_decide as Hp.
  - split.
    + intros [= <-]. exists nodes, node, []. split_and!; [done..|constructor].
    + intros (b & n & a & Heq & Hs & <- & Hall). f_equal.
      destruct a as [|x a _] using rev_ind.
      { by apply app_inj_tail in Heq as [_ ->]. }
      rewrite app_comm_cons, app_assoc in Heq. apply app_inj_tail in Heq as [_ ->].
      apply Forall_app in Hall as [_ Hx].
      rewrite Forall_singleton in Hx. done.
  - rewrite IH. split.
    + intros (b & n & a & -> & Hs & Hid & Hall). exists b, n, (a ++ [node]).
      rewrite <- app_assoc. split_and!; [done..|]. apply Forall_app. split; [done|].
      by apply Forall_singleton.
    + intros (b & n & a & Heq & Hs & Hid & Hall).
      destruct a as [|x a _] using rev_ind.
      { apply app_inj_tail in Heq as [_ ->]. done. }
      rewrite app_comm_cons, app_assoc in Heq. apply app_inj_tail in Heq as [-> ->].
      apply Forall_app in Hall as [Hall _]. by exists b, n, a.
Qed.

Lemma insert_sorted_elem x y l : y ∈ insert_sorted x l ↔ y = x ∨ y ∈ l.
Proof.
  induction l as [|z l IH]; cbn; [by rewrite elem_of_cons|].
  destruct (x <=? z); rewrite !elem_of_cons; [done|]. rewrite IH. tauto.
Qed.

Lemma sort_ids_elem x l : x ∈ sort_ids l ↔ x ∈ l.
Proof.
  unfold sort_ids. induction l as [|y l IH]; cbn; [done|].
  by rewrite insert_sorted_elem, IH, elem_of_cons.
Qed.

Lemma dedup_elem x l : x ∈ dedup l ↔ x ∈ l.
Proof.
  induction l as [|y [|z l] IH]; [done..|].
  change (dedup (y :: z :: l)) with (if y =? z then dedup (z :: l) else y :: dedup (z :: l)).
  destruct (Z.eqb_spec y z) as [->|Hne].
  - rewrite IH, !elem_of_cons. tauto.
  - rewrite elem_of_cons, IH, (elem_of_cons (z :: l)). done.
Qed.

(** The dependencies of a derived node, in terms of the nodes before derivation. *)
Lemma node_dependencies_spec nodes node dep :
  dep ∈ node_dependencies (collect_producers nodes) node ↔
  dep ≠ node_id node ∧ ∃ symbol, symbol ∈ node_consumes node ∧ last_producer nodes symbol dep.
Proof.
  unfold node_dependencies. rewrite dedup_elem, sort_ids_elem, list_elem_of_filter.
  rewrite list_elem_of_omap. setoid_rewrite collect_producers_spec. naive_solver.
Qed.

Lemma last_producer_derived nodes symbol id :
  last_producer (derive_dependencies nodes) symbol id ↔ last_producer nodes symbol id.
Proof.
  rewrite <- !collect_producers_spec. unfold collect_producers, derive_dependencies.
  rewrite foldl_fmap. done.
Qed.

Lemma derive_dependencies_ids nodes : graph_ids (derive_dependencies nodes) = graph_ids nodes.
Proof. unfold graph_ids, derive_dependencies. by rewrite <- list_fmap_compose. Qed.

Lemma derive_dependencies_spec nodes node dep :
  node ∈ derive_dependencies nodes →
  dep ∈ node_depends_on node ↔
  dep ≠ node_id node
  ∧ ∃ symbol, symbol ∈ node_consumes node
              ∧ last_producer (derive_dependencies nodes) symbol dep.
Proof.
  setoid_rewrite last_producer_derived.
  intros (n & -> & Hn)%list_elem_of_fmap. cbn. apply node_dependencies_spec.
Qed.

Lemma derive_dependencies_built desired cs nodes :
  Forall2 (node_built desired) cs nodes →
  Forall2 (node_built desired) cs (derive_dependencies nodes).
Proof. intros Hall. unfold derive_dependencies. by apply Forall2_fmap_r. Qed.

Lemma compile_operations_inv d desired graph :
  compile_operations d desired = Ok graph →
  conflicts d = [] ∧ ∃ nodes order, build_nodes 0 (changes d) desired = Ok nodes
    ∧ graph = mkGraph (derive_dependencies nodes) ∧ topological_order graph = Ok order.
Proof.
  unfold compile_operations. destruct (conflicts d); [|done].
  intros (nodes & Hn & (order & Ho & [= <-])%bind_Ok_inv)%bind_Ok_inv. eauto 10.
Qed.

(** The ids of a compiled graph are distinct, as long as a [u32] can count its nodes. *)
Definition op_ids_fit (graph : OperationGraph) : Prop :=
  Z.of_nat (length (graph_nodes graph)) ≤ 2 ^ 32.

Lemma derive_dependencies_length nodes : length (derive_dependencies nodes) = length nodes.
Proof. apply length_fmap. Qed.

Lemma compile_operations_nodup d desired graph :
  compile_operations d desired = Ok graph → op_ids_fit graph → NoDup (graph_ids (graph_nodes graph)).
Proof.
  intros (_ & nodes & order & Hn & -> & _)%compile_operations_inv. cbn.
  unfold op_ids_fit. cbn. rewrite derive_dependencies_length, derive_dependencies_ids. intros Hfit.
  rewrite (proj1 (build_nodes_spec _ _ _ _ Hn)) by lia. apply NoDup_seqZ.
Qed.

(** A compiled graph holds one node per proposed change that is not a no-op,
    in the order of the difference, numbered from zero and carrying the payload
    of the document; a node depends exactly on the last producers of the symbols
    it consumes, itself excepted; and the graph has a schedule. *)
Theorem compile_operations_faithful d desired graph :
  compile_operations d desired = Ok graph → op_ids_fit graph →
  conflicts d = []
  ∧ graph_ids (graph_nodes graph) = seqZ 0 (Z.of_nat (length (graph_nodes graph)))
  ∧ Forall2 (node_built desired) (effective (changes d)) (graph_nodes graph)
  ∧ (∀ node dep, node ∈ graph_nodes graph →
       dep ∈ node_depends_on node ↔
       dep ≠ node_id node
       ∧ ∃ symbol, symbol ∈ node_consumes node
                   ∧ last_producer (graph_nodes graph) symbol dep)
  ∧ ∃ order, topological_order graph = Ok order.
Proof.
  intros (Hc & nodes & order & Hn & -> & Ho)%compile_operations_inv. unfold op_ids_fit. cbn.
  rewrite derive_dependencies_length. intros Hfit.
  apply build_nodes_spec in Hn as [Hids Hall].
  split_and!; [done| | | |by exists order].
  - rewrite derive_dependencies_ids, Hids; [|lia..]. by rewrite ?derive_dependencies_length.
  - by apply derive_dependencies_built.
  - intros node dep. apply derive_dependencies_spec.
Qed.

(** ** Compilation of computed differences *)
Definition role_keys (n : NormalizedDesiredState) : list string :=
  (λ r, id_key (nr_identity r)) <$> nd_roles n.
Definition channel_keys (n : NormalizedDesiredState) : list string :=
  (λ c, id_key (nc_identity c)) <$> nd_channels n.

Record keys_distinct (n : NormalizedDesiredState) : Prop := {
  kd_roles : NoDup (role_keys n);
  kd_channels : NoDup (channel_keys n);
}.

Definition parents_acyclic (n : NormalizedDesiredState) : Prop :=
  ∃ rank : string → nat, ∀ channel parent,
    channel ∈ nd_channels n → nc_parent channel = Some parent →
    (rank parent < rank (id_key (nc_identity channel)))%nat.

Lemma find_eqb_Some {A} (key_of : A → string) (l : list A) x :
  NoDup (key_of <$> l) → x ∈ l → List.find (λ y, String.eqb (key_of y) (key_of x)) l = Some x.
Proof.
  induction l as [|a l IH]; cbn; [by intros _ ?%not_elem_of_nil|].
  intros [Ha Hnd]%NoDup_cons [->|Hin]%elem_of_cons.
  - by rewrite String.eqb_refl.
  - destruct (String.eqb_spec (key_of a) (key_of x)) as [Heq|]; [|by apply IH].
    destruct Ha. rewrite Heq. by apply list_elem_of_fmap_2.
Qed.

Lemma find_bool_Some {A} (P : A → bool) (l : list A) x :
  x ∈ l → P x = true → ∃ y, List.find P l = Some y ∧ P y = true.
Proof.
  intros Hin HP. destruct (List.find P l) as [y|] eqn:Hf.
  - exists y. split; [done|]. by apply find_some in Hf as [_ ?].
  - eapply find_none in Hf; [|by apply list_elem_of_In]. congruence.
Qed.

Lemma find_role_Ok n role :
  keys_distinct n → role ∈ nd_roles n → find_role n (id_key (nr_identity role)) = Ok role.
Proof.
  intros [Hr _] Hin. unfold find_role.
  by rewrite (find_eqb_Some (λ r, id_key (nr_identity r))).
Qed.

Lemma find_channel_Ok n channel :
  keys_distinct n → channel ∈ nd_channels n →
  find_channel n (id_key (nc_identity channel)) = Ok channel.
Proof.
  intros [_ Hc] Hin. unfold find_channel.
  by rewrite (find_eqb_Some (λ c, id_key (nc_identity c))).
Qed.

Lemma find_overwrite_Ok n channel o :
  keys_distinct n → channel ∈ nd_channels n → o ∈ nc_overwrites channel →
  ∃ o', find_overwrite n (id_key (nc_identity channel)) (no_target o) = Ok o'
        ∧ no_target o' = no_target o.
Proof.
  intros Hk Hc Ho. unfold find_overwrite. rewrite find_channel_Ok by done. cbn.
  destruct (find_bool_Some (λ o', bool_decide (no_target o' = no_target o))
              (nc_overwrites channel) o Ho) as (o' & -> & Ht%bool_decide_eq_true).
  { by apply bool_decide_eq_true. }
  eauto.
Qed.

Section computed.
Context {R : Type} `{ResourceResolver R} (resolver : R).
Context (n : NormalizedDesiredState) (Hkeys : keys_distinct n).

Lemma justified_builds c :
  change_justified resolver n c → dc_op c ≠ NoOp → ∃ built, build_operation c n = Ok built.
Proof.
  unfold build_operation. intros [(role & Hin & Ht & _ & _)|(channel & Hin & Hc)] Hop.
  - rewrite Ht, find_role_Ok by done. destruct (dc_op c); eauto. done.
  - destruct Hc as [(Ht & _ & _)|(Hd & _ & _ & o & Ho & Ht)].
    + rewrite Ht, find_channel_Ok by done. destruct (dc_op c); eauto. done.
    + destruct (find_overwrite_Ok n channel o) as (o' & Hf & _); [done..|].
      rewrite Ht, Hf. destruct (dc_op c); eauto; done.
Qed.

Lemma build_nodes_total next cs :
  (∀ c, c ∈ cs → change_justified resolver n c) → ∃ nodes, build_nodes next cs n = Ok nodes.
Proof.
  revert next. induction cs as [|c cs IH]; intros next Hall; cbn; [eauto|].
  destruct (IH (u32_wrapping_add next 1)) as (rest & Hrest); [intros; apply Hall; by right|].
  case_decide as Hop; [apply IH; intros; apply Hall; by right|].
  destruct (justified_builds c) as (built & ->); [apply Hall; by left|done|].
  cbn. rewrite Hrest. eauto.
Qed.

(** Symbols are produced by creations and consumed by channels and overwrites. *)
Definition op_rank (rank : string → nat) (top : nat) (op : Operation) : nat :=
  match op with
  | CreateChannel key _ _ _ => S (rank key)
  | CreateOverwrite _ _ _ _ | UpdateOverwrite _ _ _ _ => top
  | _ => O
  end.

Lemma built_produces change node symbol :
  node_built n change node → symbol ∈ node_produces node →
  (∃ key, symbol = SymRole key ∧ ∃ a b, node_operation node = CreateRole key a b)
  ∨ (∃ key, symbol = SymChannel key ∧ ∃ a b p, node_operation node = CreateChannel key a b p
       ∧ key ∈ channel_keys n).
Proof.
  unfold node_built, build_operation. intros Hb Hs.
  destruct (dc_op change), (dc_target change); try done; cbn in Hb;
    try (apply bind_Ok_inv in Hb as (x & Hf & Hb)); injection Hb as Hop Hp Hq;
    rewrite <- Hp in Hs; apply list_elem_of_singleton in Hs || (by apply not_elem_of_nil in Hs);
    subst symbol; rewrite <- Hop.
  - left. eauto.
  - right. eexists. split; [done|]. do 3 eexists. split; [done|].
    apply ok_or_Ok_inv, find_some in Hf as [Hin Heq%String.eqb_eq].
    rewrite <- Heq. apply (list_elem_of_fmap_2 (λ c, id_key (nc_identity c))).
    by apply list_elem_of_In.
Qed.

Lemma built_consumes change node symbol :
  node_built n change node → symbol ∈ node_consumes node →
  (∃ key a b parent channel, node_operation node = CreateChannel key a b (Some parent)
     ∧ symbol = SymChannel parent ∧ channel ∈ nd_channels n
     ∧ id_key (nc_identity channel) = key ∧ nc_parent channel = Some parent)
  ∨ (∃ key t a d, node_operation node = CreateOverwrite key t a d
                  ∨ node_operation node = UpdateOverwrite key t a d).
Proof.
  unfold node_built, build_operation. intros Hb Hs.
  destruct (dc_op change), (dc_target change); try done; cbn in Hb;
    try (apply bind_Ok_inv in Hb as (x & Hf & Hb)); injection Hb as Hop Hp Hq;
    rewrite <- Hq in Hs; try (by apply not_elem_of_nil in Hs); rewrite <- Hop;
    try (right; by eauto 10).
  destruct (nc_parent x) as [parent|] eqn:Hparent; [|by apply not_elem_of_nil in Hs].
  apply list_elem_of_singleton in Hs as ->. left.
  apply ok_or_Ok_inv, find_some in Hf as [Hin Heq%String.eqb_eq].
  do 4 eexists. exists x. split_and!; [done|done|by apply list_elem_of_In|done|done].
Qed.

Lemma compiled_ranked cs nodes :
  parents_acyclic n → Forall2 (node_built n) cs nodes → NoDup (graph_ids nodes) →
  ∃ order, topological_order (mkGraph (derive_dependencies nodes)) = Ok order.
Proof.
  intros (rank & Hacyclic) Hall Hnd.
  set (top := S (S (max_list (rank <$> channel_keys n)))).
  apply (ranked_topological_order _ ltac:(by rewrite derive_dependencies_ids)
           (λ node, op_rank rank top (node_operation node))).
  assert (Hbuilt : Forall2 (node_built n) cs (derive_dependencies nodes))
    by (by apply derive_dependencies_built).
  assert (Hof : ∀ node, node ∈ derive_dependencies nodes → ∃ c, node_built n c node).
  { intros node (i & Hi)%list_elem_of_lookup.
    destruct (Forall2_lookup_r _ _ _ _ _ Hbuilt Hi) as (c & _ & ?). eauto. }
  intros node dep Hin Hdep.
  apply (derive_dependencies_spec nodes node dep Hin) in Hdep as (_ & symbol & Hs & Hlp).
  destruct Hlp as (before & p & after & Heq & Hp & <- & _).
  assert (p ∈ derive_dependencies nodes) as Hpin by (rewrite Heq; set_solver).
  exists p. split_and!; [done..|].
  destruct (Hof _ Hin) as [cn Hcn], (Hof _ Hpin) as [cp Hcp].
  apply (built_produces _ _ _ Hcp) in Hp. apply (built_consumes _ _ _ Hcn) in Hs.
  assert (Hmax : ∀ key, key ∈ channel_keys n → (rank key ≤ max_list (rank <$> channel_keys n))%nat).
  { intros key Hk. apply max_list_elem_of_le. by apply list_elem_of_fmap_2. }
  destruct Hp as [(k & -> & a & b & ->)|(k & -> & a & b & q & -> & Hk)],
    Hs as [(key & ? & ? & parent & channel & -> & Hsym & Hch & Hkey & Hpar)
          |(key & ? & ? & ? & [-> | ->])]; cbn; unfold top; try lia; try done.
  - injection Hsym as ->. rewrite <- Hkey. specialize (Hacyclic _ _ Hch Hpar). lia.
  - specialize (Hmax k Hk). lia.
  - specialize (Hmax k Hk). lia.
Qed.

(** On the difference computed for a document with distinct keys,
    [compile_operations] fails only with the number of conflicts when the
    difference has conflicts, or with a cycle when channel parents form one: a
    payload is never missing and no proposed change is unsupported. The changes
    are few enough for a [u32] to number them. *)
Theorem compile_operations_diff_total e :
  Z.of_nat (length (effective (changes (diff resolver n)))) ≤ 2 ^ 32 →
  compile_operations (diff resolver n) n = Err e →
  (conflicts (diff resolver n) ≠ []
   ∧ e = DiffHasConflicts (Z.of_nat (length (conflicts (diff resolver n)))))
  ∨ (conflicts (diff resolver n) = [] ∧ e = DependencyCycle ∧ ¬ parents_acyclic n).
Proof.
  intros Hfit. unfold compile_operations. destruct (conflicts (diff resolver n)) eqn:Hc.
  - destruct (build_nodes_total 0 (changes (diff resolver n))) as (nodes & Hn).
    { apply diff_change_origin. }
    rewrite Hn. cbn. intros He. right.
    apply build_nodes_spec in Hn as [Hids Hall].
    destruct (topological_order _) as [order|err] eqn:Ho; [done|].
    injection He as ->. split_and!; [done| |].
    + rewrite topological_order_unfold in Ho. case_match; naive_solver.
    + intros Hac. edestruct compiled_ranked as (order & Ho'); [done..| |].
      { rewrite (Forall2_length _ _ _ Hall) in Hfit. rewrite Hids by lia. apply NoDup_seqZ. }
      congruence.
  - intros [= <-]. by left.
Qed.
End computed.
