(* ===== verification/Policy.v ===== *)
(** * The policy engine

    [crates/policy-engine]: rules inspect an operation graph and report
    findings, and the engine decides with the most severe one. *)

From Stdlib Require Import ZArith Lia String.
From stdpp Require Import base decidable list strings.
From S2P Require Import Prelude RustStd DiscordModel DesiredState DesiredCompiler OperationGraph.
Open Scope Z_scope.

(** ** Verdicts, findings and rules *)
Inductive Verdict := Allow | Warn | RequireApproval | Deny.

#[export] Instance Verdict_eq_dec : EqDecision Verdict.
Proof. solve_decision. Defined.

(** The derived order of the variants. *)
Definition verdict_rank (v : Verdict) : Z :=
  match v with Allow => 0 | Warn => 1 | RequireApproval => 2 | Deny => 3 end.
Definition verdict_max (a b : Verdict) : Verdict :=
  if verdict_rank a <=? verdict_rank b then b else a.

Record Finding := mkFinding {
  finding_rule_id : string;
  finding_verdict : Verdict;
  finding_target : string;
  finding_message : string;
}.

#[export] Instance Finding_eq_dec : EqDecision Finding.
Proof. solve_decision. Defined.

(** The trait [PolicyRule]: an identifier and an evaluation. *)
Record PolicyRule := mkRule {
  rule_id : string;
  rule_evaluate : OperationGraph → list Finding;
}.

(** ** The rules *)
Definition privileged_mask : Permissions :=
  Z.lor ADMINISTRATOR (Z.lor MANAGE_GUILD (Z.lor MANAGE_ROLES (Z.lor MANAGE_CHANNELS
    (Z.lor KICK_MEMBERS (Z.lor BAN_MEMBERS (Z.lor MENTION_EVERYONE MODERATE_MEMBERS)))))).

(** What a node grants and to whom; [None] is the [continue] of the rule. *)
Definition granted_permissions (op : Operation) : option (option Permissions * string) :=
  match op with
  | CreateRole key _ permissions | UpdateRole key _ permissions =>
      Some (permissions, "role:" +:+ key)
  | CreateOverwrite channel _ allow _ | UpdateOverwrite channel _ allow _ =>
      Some (Some allow, "overwrite:" +:+ channel)
  | _ => None
  end.

Definition privileged_findings (node : OperationNode) : list Finding :=
  match granted_permissions (node_operation node) with
  | Some (Some permissions, target) =>
      if Z.land permissions privileged_mask =? 0 then []
      else [mkFinding "privileged-permission" Deny target "privileged permission granted"]
  | _ => []
  end.

Definition PrivilegedPermissionRule : PolicyRule :=
  mkRule "privileged-permission" (λ graph, graph_nodes graph ≫= privileged_findings).

Definition destructive_findings (node : OperationNode) : list Finding :=
  match node_operation node with
  | DeleteRole key =>
      [mkFinding "destructive-operation" RequireApproval ("role:" +:+ key) "role deletion"]
  | DeleteChannel key =>
      [mkFinding "destructive-operation" RequireApproval ("channel:" +:+ key) "channel deletion"]
  | _ => []
  end.

Definition DestructiveOperationRule : PolicyRule :=
  mkRule "destructive-operation" (λ graph, graph_nodes graph ≫= destructive_findings).

Definition everyone_findings (node : OperationNode) : list Finding :=
  match node_operation node with
  | CreateOverwrite channel Everyone _ _ | UpdateOverwrite channel Everyone _ _ =>
      [mkFinding "everyone-change" RequireApproval ("overwrite:" +:+ channel +:+ ":everyone")
         "changes @everyone access"]
  | _ => []
  end.

Definition EveryoneChangeRule : PolicyRule :=
  mkRule "everyone-change" (λ graph, graph_nodes graph ≫= everyone_findings).

(** ** The engine *)
Record PolicyDecision := mkDecision {
  decision_verdict : Verdict;
  decision_findings : list Finding;
}.

Record PolicyEngine := mkEngine { engine_rules : list PolicyRule }.

Definition with_default_rules : PolicyEngine :=
  mkEngine [PrivilegedPermissionRule; DestructiveOperationRule; EveryoneChangeRule].

(** [.max().unwrap_or(Verdict::Allow)]; [Allow] is the least verdict. *)
Definition max_verdict (findings : list Finding) : Verdict :=
  foldr (λ f v, verdict_max (finding_verdict f) v) Allow findings.

Definition evaluate (engine : PolicyEngine) (graph : OperationGraph) : PolicyDecision :=
  let findings := engine_rules engine ≫= (λ rule, rule_evaluate rule graph) in
  mkDecision (max_verdict findings) findings.

(** ** The maximum verdict *)
Lemma verdict_rank_inj a b : verdict_rank a = verdict_rank b → a = b.
Proof. by destruct a, b. Qed.

Lemma verdict_max_rank a b :
  verdict_rank (verdict_max a b) = Z.max (verdict_rank a) (verdict_rank b).
Proof. by destruct a, b. Qed.

Lemma max_verdict_ge findings v :
  verdict_rank v ≤ verdict_rank (max_verdict findings) ↔
  v = Allow ∨ Exists (λ f, verdict_rank v ≤ verdict_rank (finding_verdict f)) findings.
Proof.
  induction findings as [|f fs IH]; cbn [max_verdict foldr].
  - rewrite Exists_nil. split; [left; apply verdict_rank_inj; by destruct v|].
    intros [->|[]]. done.
  - fold (max_verdict fs). rewrite verdict_max_rank, Z.max_le_iff, IH, Exists_cons. tauto.
Qed.

(** ** What the default rules ask of a graph *)
Definition privileged_flags : list Permissions :=
  [ADMINISTRATOR; MANAGE_GUILD; MANAGE_ROLES; MANAGE_CHANNELS; KICK_MEMBERS; BAN_MEMBERS;
   MENTION_EVERYONE; MODERATE_MEMBERS].

(** The permissions an operation hands out. *)
Inductive op_grants : Operation → Permissions → Prop :=
| grants_create_role key name p : op_grants (CreateRole key name (Some p)) p
| grants_update_role key name p : op_grants (UpdateRole key name (Some p)) p
| grants_create_overwrite channel target allow deny :
    op_grants (CreateOverwrite channel target allow deny) allow
| grants_update_overwrite channel target allow deny :
    op_grants (UpdateOverwrite channel target allow deny) allow.

Inductive op_destructive : Operation → Prop :=
| destructive_role key : op_destructive (DeleteRole key)
| destructive_channel key : op_destructive (DeleteChannel key).

Inductive op_touches_everyone : Operation → Prop :=
| touches_create channel allow deny :
    op_touches_everyone (CreateOverwrite channel Everyone allow deny)
| touches_update channel allow deny :
    op_touches_everyone (UpdateOverwrite channel Everyone allow deny).

Definition grants_privileged (op : Operation) : Prop :=
  ∃ p flag, op_grants op p ∧ flag ∈ privileged_flags ∧ perms_contains p flag = true.

Definition needs_approval (op : Operation) : Prop :=
  op_destructive op ∨ op_touches_everyone op.

Lemma land_mask_fold p flags :
  Z.land p (foldr Z.lor 0 flags) = 0 ↔ Forall (λ flag, Z.land p flag = 0) flags.
Proof.
  induction flags as [|flag flags IH]; cbn [foldr].
  { rewrite Z.land_0_r. split; [constructor|done]. }
  rewrite Forall_cons, <- IH, Z.land_lor_distr_r. apply Z.lor_eq_0_iff.
Qed.

Lemma privileged_mask_flags : privileged_mask = foldr Z.lor 0 privileged_flags.
Proof. reflexivity. Qed.

Lemma land_flag p k : 0 ≤ k → Z.land p (Z.shiftl 1 k) = 0 ↔ perms_contains p (Z.shiftl 1 k) = false.
Proof.
  intros Hk. rewrite perms_contains_flag by done. rewrite Z.shiftl_1_l. split.
  - intros Hz. apply (f_equal (λ z, Z.testbit z k)) in Hz.
    rewrite Z.land_spec, Z.pow2_bits_true, andb_true_r, Z.bits_0 in Hz by done. done.
  - intros Hb. apply Z.bits_inj'. intros i Hi. rewrite Z.land_spec, Z.bits_0.
    rewrite Z.pow2_bits_eqb by done. destruct (Z.eqb_spec k i) as [<-|]; [by rewrite Hb|].
    apply andb_false_r.
Qed.

Lemma privileged_flag_shift flag :
  flag ∈ privileged_flags → ∃ k, 0 ≤ k ∧ flag = Z.shiftl 1 k.
Proof.
  revert flag. apply Forall_forall.
  repeat (constructor; [eexists; split; [|reflexivity]; done|]). constructor.
Qed.

Lemma privileged_mask_spec p :
  Z.land p privileged_mask ≠ 0 ↔
  ∃ flag, flag ∈ privileged_flags ∧ perms_contains p flag = true.
Proof.
  rewrite privileged_mask_flags, land_mask_fold, Forall_forall. split.
  - intros Hne. apply Exists_exists, dec_stable. intros Hex. apply Hne.
    intros flag Hin. destruct (privileged_flag_shift flag Hin) as (k & Hk & Heq).
    rewrite Heq. apply land_flag; [done|]. rewrite <- Heq. apply not_true_is_false.
    intros Hc. apply Hex, Exists_exists. eauto.
  - intros (flag & Hin & Hc) Hall. specialize (Hall flag Hin).
    destruct (privileged_flag_shift flag Hin) as (k & Hk & Heq). rewrite Heq in *.
    apply land_flag in Hall; [congruence|done].
Qed.

Lemma privileged_findings_spec node :
  Exists (λ f, finding_verdict f = Deny) (privileged_findings node)
  ↔ grants_privileged (node_operation node).
Proof.
  assert (Hgrant : ∀ p t,
    Exists (λ f, finding_verdict f = Deny)
      (if Z.land p privileged_mask =? 0 then []
       else [mkFinding "privileged-permission" Deny t "privileged permission granted"])
    ↔ ∃ flag, flag ∈ privileged_flags ∧ perms_contains p flag = true).
  { intros p t. rewrite <- privileged_mask_spec.
    destruct (Z.eqb_spec (Z.land p privileged_mask) 0); rewrite ?Exists_nil, ?Exists_cons;
      cbn; tauto. }
  unfold privileged_findings, grants_privileged.
  destruct (node_operation node) as [k n [p|]|k n [p|]| | | | |c t a d|c t a d];
    cbn [granted_permissions]; rewrite ?Hgrant, ?Exists_nil; split; try done;
    try (intros (flag & ? & ?); do 2 eexists; split_and!; [constructor|done..]);
    intros (p' & flag & Hg & Hrest); inversion Hg; subst; eauto.
Qed.

Definition approval_findings (node : OperationNode) : list Finding :=
  destructive_findings node ++ everyone_findings node.

Lemma approval_findings_spec node :
  approval_findings node ≠ [] ↔ needs_approval (node_operation node).
Proof.
  unfold approval_findings, destructive_findings, everyone_findings, needs_approval.
  destruct (node_operation node) as [| | | | | |c [] a d|c [] a d]; cbn; split; try done;
    try (intros _; first [left; constructor | right; constructor]);
    intros [Hd|He]; solve [inversion Hd|inversion He].
Qed.

Lemma approval_findings_verdict node :
  Forall (λ f, finding_verdict f = RequireApproval) (approval_findings node).
Proof.
  unfold approval_findings, destructive_findings, everyone_findings.
  destruct (node_operation node) as [| | | | | |c [] a d|c [] a d]; by repeat constructor.
Qed.

Lemma privileged_findings_verdict node :
  Forall (λ f, finding_verdict f = Deny) (privileged_findings node).
Proof. unfold privileged_findings. repeat case_match; by repeat constructor. Qed.

Lemma default_findings_elem graph f :
  f ∈ decision_findings (evaluate with_default_rules graph) ↔
  ∃ node, node ∈ graph_nodes graph
          ∧ (f ∈ privileged_findings node ∨ f ∈ approval_findings node).
Proof.
  cbn. rewrite app_nil_r, !elem_of_app, !list_elem_of_bind. unfold approval_findings.
  setoid_rewrite elem_of_app. naive_solver.
Qed.

Lemma default_denies graph :
  Exists (λ f, 3 ≤ verdict_rank (finding_verdict f))
    (decision_findings (evaluate with_default_rules graph))
  ↔ ∃ node, node ∈ graph_nodes graph ∧ grants_privileged (node_operation node).
Proof.
  rewrite Exists_exists. setoid_rewrite default_findings_elem.
  setoid_rewrite <- privileged_findings_spec. setoid_rewrite Exists_exists. split.
  - intros (f & (node & Hn & [Hf|Hf]) & Hrank).
    + exists node. split; [done|]. exists f. split; [done|].
      by apply (proj1 (Forall_forall _ _) (privileged_findings_verdict node)).
    + by rewrite (proj1 (Forall_forall _ _) (approval_findings_verdict node) f Hf) in Hrank.
  - intros (node & Hn & f & Hf & Hv). exists f. rewrite Hv. split; [eauto|done].
Qed.

Lemma default_escalates graph :
  Exists (λ f, 1 ≤ verdict_rank (finding_verdict f))
    (decision_findings (evaluate with_default_rules graph))
  ↔ ∃ node, node ∈ graph_nodes graph
      ∧ (grants_privileged (node_operation node) ∨ needs_approval (node_operation node)).
Proof.
  rewrite Exists_exists. setoid_rewrite default_findings_elem.
  setoid_rewrite <- privileged_findings_spec. setoid_rewrite <- approval_findings_spec.
  setoid_rewrite Exists_exists. split.
  - intros (f & (node & Hn & [Hf|Hf]) & Hrank); exists node; (split; [done|]).
    + left. exists f. split; [done|].
      by apply (proj1 (Forall_forall _ _) (privileged_findings_verdict node)).
    + right. intros Hnil. rewrite Hnil in Hf. by apply not_elem_of_nil in Hf.
  - intros (node & Hn & [(f & Hf & Hv)|Hne]).
    + exists f. rewrite Hv. split; [eauto|done].
    + pose proof (approval_findings_verdict node) as Hall.
      destruct (approval_findings node) as [|f fs] eqn:Hfs; [done|].
      apply Forall_cons in Hall as [Hv _]. exists f. rewrite Hv. split; [|done].
      exists node. rewrite Hfs. split; [done|]. right. by left.
Qed.

(** The verdict of the default rules, as a specification of graphs. *)
Definition default_verdict (graph : OperationGraph) (v : Verdict) : Prop :=
  let some P := ∃ node, node ∈ graph_nodes graph ∧ P (node_operation node) in
  match v with
  | Deny => some grants_privileged
  | RequireApproval => ¬ some grants_privileged ∧ some needs_approval
  | Warn => False
  | Allow => ¬ some grants_privileged ∧ ¬ some needs_approval
  end.

Lemma default_no_warn graph : decision_verdict (evaluate with_default_rules graph) ≠ Warn.
Proof.
  intros Hw. pose proof (proj1 (max_verdict_ge
    (decision_findings (evaluate with_default_rules graph)) Warn)) as Hge.
  change (decision_verdict (evaluate with_default_rules graph))
    with (max_verdict (decision_findings (evaluate with_default_rules graph))) in Hw.
  destruct Hge as [?|Hex]; [rewrite Hw; cbn; lia|done|].
  assert (Hra : ¬ verdict_rank RequireApproval ≤ verdict_rank (max_verdict
    (decision_findings (evaluate with_default_rules graph)))) by (rewrite Hw; cbn; lia).
  apply Hra, max_verdict_ge. right.
  apply Exists_exists in Hex as (f & Hin & Hf). apply Exists_exists. exists f. split; [done|].
  apply default_findings_elem in Hin as (node & _ & [Hp|Ha]).
  - by rewrite (proj1 (Forall_forall _ _) (privileged_findings_verdict node) f Hp).
  - by rewrite (proj1 (Forall_forall _ _) (approval_findings_verdict node) f Ha).
Qed.

Lemma default_verdict_exact graph v :
  decision_verdict (evaluate with_default_rules graph) = v ↔ default_verdict graph v.
Proof.
  pose proof (default_denies graph) as Hd. pose proof (default_escalates graph) as He.
  pose proof (default_no_warn graph) as Hw.
  pose proof (max_verdict_ge (decision_findings (evaluate with_default_rules graph))) as Hge.
  change (decision_verdict (evaluate with_default_rules graph))
    with (max_verdict (decision_findings (evaluate with_default_rules graph))) in *.
  set (m := max_verdict _) in *. unfold default_verdict.
  set (P := ∃ node, _) in *. set (Q := ∃ node, node ∈ _ ∧ needs_approval _).
  assert (HD : m = Deny ↔ P).
  { rewrite <- Hd. transitivity (verdict_rank Deny ≤ verdict_rank m); [by destruct m|].
    rewrite Hge. naive_solver. }
  assert (HW : m ≠ Allow ↔ P ∨ Q).
  { transitivity (verdict_rank Warn ≤ verdict_rank m); [destruct m; cbn; split; (done || lia)|].
    rewrite Hge, He. unfold P, Q. naive_solver. }
  clearbody P Q m. clear Hge Hd He. destruct m, v; naive_solver.
Qed.

(** The default engine denies a graph exactly when some operation grants a
    privileged permission to a role or through an overwrite, requires approval
    exactly when none does but some operation deletes a resource or changes
    access of everyone, and allows it otherwise; it never only warns. *)
Theorem default_engine_verdict graph v :
  decision_verdict (evaluate with_default_rules graph) = v ↔ default_verdict graph v.
Proof. apply default_verdict_exact. Qed.

(** The engine never decides below one of its findings, its verdict is
    [Allow] or that of a finding, and extending the rules never lowers it. *)
Theorem engine_verdict_monotone rules extra graph :
  let d := evaluate (mkEngine rules) graph in
  (∀ f, f ∈ decision_findings d →
        verdict_rank (finding_verdict f) ≤ verdict_rank (decision_verdict d))
  ∧ (decision_verdict d = Allow
     ∨ ∃ f, f ∈ decision_findings d ∧ finding_verdict f = decision_verdict d)
  ∧ verdict_rank (decision_verdict d)
    ≤ verdict_rank (decision_verdict (evaluate (mkEngine (rules ++ extra)) graph)).
Proof.
  cbn. set (fs := rules ≫= _). split_and!.
  - intros f Hf. apply max_verdict_ge. right. apply Exists_exists. exists f. split; [done|lia].
  - clearbody fs. induction fs as [|f fs IH]; [by left|]. cbn [max_verdict foldr].
    fold (max_verdict fs). unfold verdict_max. case_match.
    + destruct IH as [Ha|(g & Hg & Hv)]; [by left|]. right. exists g. split; [by right|done].
    + right. exists f. split; [by left|done].
  - apply max_verdict_ge. rewrite bind_app.
    destruct (proj1 (max_verdict_ge fs _) (Z.le_refl _)) as [?|Hex]; [by left|].
    right. apply Exists_app. by left.
Qed.
