(* ===== verification/Simulator.v ===== *)
(** * The permission simulator

    [crates/simulator]: effective permissions of a set of roles in a channel,
    the two access questions built on them, and the access matrix. *)

From Stdlib Require Import ZArith Lia String.
From stdpp Require Import base decidable list strings.
From S2P Require Import Prelude RustStd DiscordModel.
Open Scope Z_scope.

(** [role_permissions] of [permissions.rs]. *)
Definition permissions_of_role (guild : GuildState) (id : RoleId) : Permissions :=
  match List.find (λ r, role_id r =? id) (gs_roles guild) with
  | Some r => role_permissions r
  | None => perms_empty
  end.

(** [find_overwrite] of [permissions.rs]. *)
Definition find_role_overwrite (channel : Channel) (id : RoleId) : option PermissionOverwrite :=
  List.find (λ o, bool_decide (ow_target o = TargetRole id)) (channel_overwrites channel).

Definition apply_overwrite (perms allow deny : Permissions) : Permissions :=
  Z.lor (Z.land perms (u64_not deny)) allow.

(** The loop body that accumulates the overwrites of the subject's roles. *)
Definition accumulate (channel : Channel) (acc : Permissions * Permissions) (rid : RoleId)
  : Permissions * Permissions :=
  match find_role_overwrite channel rid with
  | Some overwrite =>
      (perms_union acc.1 (ow_allow overwrite), perms_union acc.2 (ow_deny overwrite))
  | None => acc
  end.

Definition effective_permissions (guild : GuildState) (subject_roles : list RoleId)
  (channel : Channel) : Permissions :=
  let everyone_id := guild_id (gs_guild guild) in
  let base := foldl (λ base rid, perms_union base (permissions_of_role guild rid))
                (permissions_of_role guild everyone_id) subject_roles in
  if perms_contains base ADMINISTRATOR then perms_all
  else
    let perms := match find_role_overwrite channel everyone_id with
                 | Some overwrite => apply_overwrite base (ow_allow overwrite) (ow_deny overwrite)
                 | None => base
                 end in
    let '(allow_accum, deny_accum) :=
      foldl (accumulate channel) (perms_empty, perms_empty) subject_roles in
    apply_overwrite perms allow_accum deny_accum.

Definition can_view (guild : GuildState) (subject_roles : list RoleId) (channel : Channel)
  : bool :=
  perms_contains (effective_permissions guild subject_roles channel) VIEW_CHANNEL.

Definition can_send (guild : GuildState) (subject_roles : list RoleId) (channel : Channel)
  : bool :=
  let perms := effective_permissions guild subject_roles channel in
  perms_contains perms VIEW_CHANNEL && perms_contains perms SEND_MESSAGES.

Record SubjectSpec := mkSubject { subject_name : string; subject_roles : list RoleId }.

Record AccessCell := mkCell {
  cell_subject : string;
  cell_channel : string;
  cell_can_view : bool;
  cell_can_send : bool;
}.

Record AccessMatrix := mkMatrix { cells : list AccessCell }.

#[export] Instance AccessCell_eq_dec : EqDecision AccessCell.
Proof. solve_decision. Defined.

Definition access_matrix (guild : GuildState) (subjects : list SubjectSpec) : AccessMatrix :=
  mkMatrix (subjects ≫= λ subject,
    (λ channel, mkCell (subject_name subject) (channel_name channel)
                  (can_view guild (subject_roles subject) channel)
                  (can_send guild (subject_roles subject) channel))
    <$> gs_channels guild).

(** ** Bits of the accumulated sets *)
Lemma union_fold_testbit {A} (f : A → Z) init l i :
  Z.testbit (foldl (λ acc x, perms_union acc (f x)) init l) i
  = Z.testbit init i || existsb (λ x, Z.testbit (f x) i) l.
Proof.
  induction l as [|x l IH] in init |- *; cbn [foldl existsb]; [by rewrite orb_false_r|].
  rewrite IH. unfold perms_union. by rewrite Z.lor_spec, orb_assoc.
Qed.

Definition role_allows (channel : Channel) (i : Z) (rid : RoleId) : bool :=
  match find_role_overwrite channel rid with
  | Some o => Z.testbit (ow_allow o) i | None => false end.
Definition role_denies (channel : Channel) (i : Z) (rid : RoleId) : bool :=
  match find_role_overwrite channel rid with
  | Some o => Z.testbit (ow_deny o) i | None => false end.

Lemma accumulate_testbit channel roles acc i :
  let r := foldl (accumulate channel) acc roles in
  Z.testbit r.1 i = Z.testbit acc.1 i || existsb (role_allows channel i) roles
  ∧ Z.testbit r.2 i = Z.testbit acc.2 i || existsb (role_denies channel i) roles.
Proof.
  induction roles as [|rid roles IH] in acc |- *; cbn [foldl existsb].
  { by rewrite !orb_false_r. }
  destruct (IH (accumulate channel acc rid)) as [-> ->].
  unfold accumulate, role_allows, role_denies, perms_union.
  destruct (find_role_overwrite channel rid); cbn; rewrite ?Z.lor_spec, ?orb_assoc;
    rewrite ?orb_false_r; auto.
Qed.

Lemma apply_overwrite_testbit perms allow deny i :
  0 ≤ i < 64 →
  Z.testbit (apply_overwrite perms allow deny) i
  = (Z.testbit perms i && negb (Z.testbit deny i)) || Z.testbit allow i.
Proof.
  intros Hi. unfold apply_overwrite. by rewrite Z.lor_spec, Z.land_spec, u64_not_testbit.
Qed.

Definition base_testbit (guild : GuildState) (roles : list RoleId) (i : Z) : bool :=
  existsb (λ rid, Z.testbit (permissions_of_role guild rid) i)
    (guild_id (gs_guild guild) :: roles).

(** The bits of the result, in terms of single roles and overwrites. *)
Lemma effective_testbit guild roles channel i :
  0 ≤ i < 64 →
  Z.testbit (effective_permissions guild roles channel) i
  = if base_testbit guild roles 3 then Z.testbit perms_all i
    else
      let everyone := guild_id (gs_guild guild) in
      (((base_testbit guild roles i && negb (role_denies channel i everyone))
        || role_allows channel i everyone)
       && negb (existsb (role_denies channel i) roles))
      || existsb (role_allows channel i) roles.
Proof.
  intros Hi. unfold effective_permissions.
  assert (Hbase : ∀ j, Z.testbit (foldl (λ base rid, perms_union base (permissions_of_role guild rid))
      (permissions_of_role guild (guild_id (gs_guild guild))) roles) j
      = base_testbit guild roles j) by (intros j; apply union_fold_testbit).
  change ADMINISTRATOR with (Z.shiftl 1 3).
  rewrite perms_contains_flag, Hbase by done.
  destruct (base_testbit guild roles 3); [done|].
  pose proof (accumulate_testbit channel roles (perms_empty, perms_empty) i) as [Ha Hd].
  destruct (foldl (accumulate channel) _ roles) as [allow deny]. cbn in Ha, Hd.
  rewrite apply_overwrite_testbit, Ha, Hd by done. rewrite Z.testbit_0_l. cbn.
  f_equal. f_equal. unfold role_denies, role_allows.
  destruct (find_role_overwrite channel _) as [o|].
  - by rewrite apply_overwrite_testbit, Hbase by done.
  - by rewrite Hbase, andb_true_r, orb_false_r.
Qed.

(** ** The specification of effective permissions *)
Definition role_grants (guild : GuildState) (rid : RoleId) (i : Z) : Prop :=
  Z.testbit (permissions_of_role guild rid) i = true.
Definition allowed_by (channel : Channel) (rid : RoleId) (i : Z) : Prop :=
  ∃ o, find_role_overwrite channel rid = Some o ∧ Z.testbit (ow_allow o) i = true.
Definition denied_by (channel : Channel) (rid : RoleId) (i : Z) : Prop :=
  ∃ o, find_role_overwrite channel rid = Some o ∧ Z.testbit (ow_deny o) i = true.

(** A permission holds when an overwrite of a subject role allows it, or no
    overwrite of a subject role denies it and it holds at the everyone level. *)
Definition permitted (guild : GuildState) (roles : list RoleId) (channel : Channel) (i : Z)
  : Prop :=
  let everyone := guild_id (gs_guild guild) in
  (∃ rid, rid ∈ roles ∧ allowed_by channel rid i)
  ∨ (¬ ∃ rid, rid ∈ roles ∧ denied_by channel rid i)
    ∧ (allowed_by channel everyone i
       ∨ ¬ denied_by channel everyone i
         ∧ ∃ rid, rid ∈ everyone :: roles ∧ role_grants guild rid i).

Lemma role_allows_spec channel i rid : role_allows channel i rid = true ↔ allowed_by channel rid i.
Proof. unfold role_allows, allowed_by. case_match; naive_solver. Qed.
Lemma role_denies_spec channel i rid : role_denies channel i rid = true ↔ denied_by channel rid i.
Proof. unfold role_denies, denied_by. case_match; naive_solver. Qed.

Lemma existsb_elem {A} (f : A → bool) l : existsb f l = true ↔ ∃ x, x ∈ l ∧ f x = true.
Proof. rewrite existsb_exists. by setoid_rewrite list_elem_of_In. Qed.

Lemma existsb_ext_elem {A} (f : A → bool) l l' :
  (∀ x, x ∈ l ↔ x ∈ l') → existsb f l = existsb f l'.
Proof.
  intros Heq. apply eq_bool_prop_intro. rewrite !Is_true_true, !existsb_elem.
  by setoid_rewrite Heq.
Qed.

(** C23: [effective_permissions] gives every known permission to subjects with
    the administrator bit at the guild level, and otherwise a permission holds
    exactly when the role overwrites allow it, or do not deny it and it holds
    after the overwrite of everyone over the union of the role permissions. *)
Theorem effective_permissions_exact guild roles channel i :
  0 ≤ i < 64 →
  Z.testbit (effective_permissions guild roles channel) i = true ↔
  ((∃ rid, rid ∈ guild_id (gs_guild guild) :: roles ∧ role_grants guild rid 3)
   ∧ Z.testbit perms_all i = true)
  ∨ ((¬ ∃ rid, rid ∈ guild_id (gs_guild guild) :: roles ∧ role_grants guild rid 3)
     ∧ permitted guild roles channel i).
Proof.
  intros Hi. rewrite effective_testbit by done. unfold permitted, role_grants.
  setoid_rewrite <- role_allows_spec. setoid_rewrite <- role_denies_spec.
  unfold base_testbit. rewrite <- !existsb_elem.
  destruct (existsb _ (_ :: roles)); [naive_solver|].
  rewrite !orb_true_iff, !andb_true_iff, !orb_true_iff, !andb_true_iff, !negb_true_iff.
  rewrite <- !not_true_iff_false. naive_solver.
Qed.

(** The result depends on the subject's roles only as a set: neither their
    order nor repetitions matter. *)
Theorem effective_permissions_set guild roles roles' channel i :
  0 ≤ i < 64 → (∀ rid, rid ∈ roles ↔ rid ∈ roles') →
  Z.testbit (effective_permissions guild roles channel) i
  = Z.testbit (effective_permissions guild roles' channel) i.
Proof.
  intros Hi Heq. rewrite !effective_testbit by done. unfold base_testbit.
  rewrite !(existsb_ext_elem _ roles roles' Heq).
  rewrite !(existsb_ext_elem _ (_ :: roles) (guild_id (gs_guild guild) :: roles')); [done|..];
    intros x; rewrite !elem_of_cons; by rewrite Heq.
Qed.

(** A cell is in the matrix exactly when it is that of a subject and a
    channel: it says that the subject can view when its effective permissions
    there have the view bit, and that it can send when it can view and they have
    the send bit. *)
Theorem access_matrix_complete guild subjects cell :
  cell ∈ cells (access_matrix guild subjects) ↔
  ∃ subject channel, subject ∈ subjects ∧ channel ∈ gs_channels guild
    ∧ cell_subject cell = subject_name subject ∧ cell_channel cell = channel_name channel
    ∧ cell_can_view cell
      = Z.testbit (effective_permissions guild (subject_roles subject) channel) 10
    ∧ cell_can_send cell
      = cell_can_view cell
        && Z.testbit (effective_permissions guild (subject_roles subject) channel) 11.
Proof.
  cbn. rewrite list_elem_of_bind. setoid_rewrite list_elem_of_fmap.
  assert (Hview : ∀ roles channel, can_view guild roles channel
    = Z.testbit (effective_permissions guild roles channel) 10)
    by (intros; by apply perms_contains_flag).
  assert (Hsend : ∀ roles channel, can_send guild roles channel
    = can_view guild roles channel
      && Z.testbit (effective_permissions guild roles channel) 11)
    by (intros; unfold can_send; f_equal; by apply perms_contains_flag).
  split.
  - intros (subject & (channel & -> & Hc) & Hs). exists subject, channel. cbn.
    rewrite Hsend, Hview. done.
  - intros (subject & channel & Hs & Hc & H1 & H2 & H3 & H4).
    exists subject. split; [|done]. exists channel. split; [|done].
    destruct cell; cbn in *; subst. by rewrite Hsend, Hview.
Qed.
