(* ===== verification/Resolution.v ===== *)
(** * Resource resolution

    [crates/resource-resolution]: the context that turns resource keys of a
    document into Discord identifiers while operations run. Keys of created
    resources are bound explicitly; other keys are looked up in the document,
    resolved against the guild and remembered. The binding maps are only looked
    up and inserted into. *)

From Stdlib Require Import ZArith Lia String.
From stdpp Require Import base decidable list strings gmap.
From S2P Require Import Prelude RustStd DiscordModel DesiredState DesiredCompiler DiffEngine.
Open Scope Z_scope.

Inductive ResolutionError :=
| UnresolvedKey (key : string)
| MissingIdentity (key : string).

#[export] Instance ResolutionError_eq_dec : EqDecision ResolutionError.
Proof. solve_decision. Defined.

Record ResourceBindingMap := mkBindings {
  role_bindings : gmap string RoleId;
  channel_bindings : gmap string ChannelId;
}.

Record ResourceResolutionContext (R : Type) := mkContext {
  bindings : ResourceBindingMap;
  ctx_normalized : NormalizedDesiredState;
  ctx_resolver : R;
  ctx_guild_id : GuildId;
}.
Arguments mkContext {R}.
Arguments bindings {R}.
Arguments ctx_normalized {R}.
Arguments ctx_resolver {R}.
Arguments ctx_guild_id {R}.

Section resolution.
Context {R : Type} `{ResourceResolver R}.
Abbreviation Ctx := (ResourceResolutionContext R).

Definition context_new (normalized : NormalizedDesiredState) (resolver : R)
  (guild_id : GuildId) : Ctx :=
  mkContext (mkBindings ∅ ∅) normalized resolver guild_id.

Definition bind_role (key : ResourceKey) (id : RoleId) (ctx : Ctx) : Ctx :=
  mkContext
    (mkBindings (<[key := id]> (role_bindings (bindings ctx)))
       (channel_bindings (bindings ctx)))
    (ctx_normalized ctx) (ctx_resolver ctx) (ctx_guild_id ctx).

Definition bind_channel (key : ResourceKey) (id : ChannelId) (ctx : Ctx) : Ctx :=
  mkContext
    (mkBindings (role_bindings (bindings ctx))
       (<[key := id]> (channel_bindings (bindings ctx))))
    (ctx_normalized ctx) (ctx_resolver ctx) (ctx_guild_id ctx).

Definition resolve_role_key (key : ResourceKey) : Cmd Ctx ResolutionError RoleId :=
  λ ctx,
    match role_bindings (bindings ctx) !! key with
    | Some id => (Ok id, ctx)
    | None =>
        match List.find (λ r, String.eqb (id_key (nr_identity r)) key)
                (nd_roles (ctx_normalized ctx)) with
        | None => (Err (MissingIdentity key), ctx)
        | Some nr =>
            match resolve_role (ctx_resolver ctx) (nr_identity nr) (nr_name nr) with
            | Existing role => (Ok (role_id role), bind_role key (role_id role) ctx)
            | _ => (Err (UnresolvedKey key), ctx)
            end
        end
    end.

Definition resolve_channel_key (key : ResourceKey) : Cmd Ctx ResolutionError ChannelId :=
  λ ctx,
    match channel_bindings (bindings ctx) !! key with
    | Some id => (Ok id, ctx)
    | None =>
        match List.find (λ c, String.eqb (id_key (nc_identity c)) key)
                (nd_channels (ctx_normalized ctx)) with
        | None => (Err (MissingIdentity key), ctx)
        | Some nc =>
            match resolve_channel (ctx_resolver ctx) (nc_identity nc) (nc_name nc) with
            | Existing ch => (Ok (channel_id ch), bind_channel key (channel_id ch) ctx)
            | _ => (Err (UnresolvedKey key), ctx)
            end
        end
    end.

Definition resolve_target (target : NormalizedTarget)
  : Cmd Ctx ResolutionError OverwriteTarget :=
  match target with
  | Everyone => λ ctx, (Ok (TargetRole (ctx_guild_id ctx)), ctx)
  | NRole key => id ← resolve_role_key key; cmd_ret (TargetRole id)
  | NMember id => λ ctx,
      match parse_u64 id with
      | Some raw => (Ok (TargetMember raw), ctx)
      | None => (Err (UnresolvedKey id), ctx)
      end
  end.

(** ** What a key denotes

    The denotation of a key under a set of bindings: the binding if there is
    one, the resolved resource of the document otherwise. It does not change
    when resolution remembers its answers. *)
Definition role_denotation (ctx : Ctx) (key : ResourceKey) : option RoleId :=
  match role_bindings (bindings ctx) !! key with
  | Some id => Some id
  | None =>
      nr ← List.find (λ r, String.eqb (id_key (nr_identity r)) key)
             (nd_roles (ctx_normalized ctx));
      match resolve_role (ctx_resolver ctx) (nr_identity nr) (nr_name nr) with
      | Existing role => Some (role_id role)
      | _ => None
      end
  end.

Definition channel_denotation (ctx : Ctx) (key : ResourceKey) : option ChannelId :=
  match channel_bindings (bindings ctx) !! key with
  | Some id => Some id
  | None =>
      nc ← List.find (λ c, String.eqb (id_key (nc_identity c)) key)
             (nd_channels (ctx_normalized ctx));
      match resolve_channel (ctx_resolver ctx) (nc_identity nc) (nc_name nc) with
      | Existing ch => Some (channel_id ch)
      | _ => None
      end
  end.

Definition target_denotation (ctx : Ctx) (target : NormalizedTarget) : option OverwriteTarget :=
  match target with
  | Everyone => Some (TargetRole (ctx_guild_id ctx))
  | NRole key => TargetRole <$> role_denotation ctx key
  | NMember id => TargetMember <$> parse_u64 id
  end.

(** Contexts that denote the same: resolution moves within such a class. *)
Definition same_denotation (ctx ctx' : Ctx) : Prop :=
  (∀ key, role_denotation ctx' key = role_denotation ctx key)
  ∧ (∀ key, channel_denotation ctx' key = channel_denotation ctx key)
  ∧ ctx_guild_id ctx' = ctx_guild_id ctx.

#[export] Instance same_denotation_equiv : Equivalence same_denotation.
Proof.
  split.
  - by intros ctx.
  - intros c c' (Hr & Hc & Hg). split_and!; congruence.
  - intros c1 c2 c3 (Hr & Hc & Hg) (Hr' & Hc' & Hg').
    split_and!; [intros; by rewrite Hr', Hr|intros; by rewrite Hc', Hc|congruence].
Qed.

Lemma resolve_role_key_denotes key ctx :
  let '(r, ctx') := resolve_role_key key ctx in
  same_denotation ctx ctx'
  ∧ match r with
    | Ok id => role_denotation ctx key = Some id
    | Err e => role_denotation ctx key = None ∧ (e = UnresolvedKey key ∨ e = MissingIdentity key)
    end.
Proof.
  unfold resolve_role_key, role_denotation.
  destruct (role_bindings (bindings ctx) !! key) as [id|] eqn:Hb; [done|].
  destruct (List.find _ _) as [nr|] eqn:Hf; cbn; [|split; [done|by auto]].
  destruct (resolve_role _ _ _) as [role| |] eqn:Hr; [|split; [done|by auto]..].
  split; [|done]. split_and!; [|done|done].
  intros k. unfold role_denotation; cbn. rewrite lookup_insert.
  case_decide as Hk; [subst k|done]. by rewrite Hb, Hf; cbn; rewrite Hr.
Qed.

Lemma resolve_channel_key_denotes key ctx :
  let '(r, ctx') := resolve_channel_key key ctx in
  same_denotation ctx ctx'
  ∧ match r with
    | Ok id => channel_denotation ctx key = Some id
    | Err e => channel_denotation ctx key = None
               ∧ (e = UnresolvedKey key ∨ e = MissingIdentity key)
    end.
Proof.
  unfold resolve_channel_key, channel_denotation.
  destruct (channel_bindings (bindings ctx) !! key) as [id|] eqn:Hb; [done|].
  destruct (List.find _ _) as [nc|] eqn:Hf; cbn; [|split; [done|by auto]].
  destruct (resolve_channel _ _ _) as [ch| |] eqn:Hr; [|split; [done|by auto]..].
  split; [|done]. split_and!; [done| |done].
  intros k. unfold channel_denotation; cbn. rewrite lookup_insert.
  case_decide as Hk; [subst k|done]. by rewrite Hb, Hf; cbn; rewrite Hr.
Qed.

Lemma resolve_target_denotes target ctx :
  let '(r, ctx') := resolve_target target ctx in
  same_denotation ctx ctx'
  ∧ match r with
    | Ok t => target_denotation ctx target = Some t
    | Err _ => target_denotation ctx target = None
    end.
Proof.
  destruct target as [|key|id]; cbn.
  - done.
  - unfold mbind, Cmd_bind, cmd_bind. pose proof (resolve_role_key_denotes key ctx) as Hd.
    destruct (resolve_role_key key ctx) as [[id|e] ctx']; destruct Hd as [Hs Hd];
      [by rewrite Hd|by destruct Hd as [-> _]].
  - by destruct (parse_u64 id).
Qed.

Lemma target_denotation_same (ctx ctx' : Ctx) t :
  same_denotation ctx ctx' → target_denotation ctx' t = target_denotation ctx t.
Proof. intros (Hr & _ & Hg). destruct t; cbn; by rewrite ?Hr, ?Hg. Qed.

Lemma role_denotation_bind key id ctx k :
  role_denotation (bind_role key id ctx) k
  = if decide (key = k) then Some id else role_denotation ctx k.
Proof. unfold role_denotation; cbn. rewrite lookup_insert. by case_decide. Qed.

Lemma channel_denotation_bind key id ctx k :
  channel_denotation (bind_channel key id ctx) k
  = if decide (key = k) then Some id else channel_denotation ctx k.
Proof. unfold channel_denotation; cbn. rewrite lookup_insert. by case_decide. Qed.

(** Resolving a key or an overwrite target succeeds exactly when it has a
    denotation, returns it, and leaves the denotation of every key unchanged;
    so the answers do not depend on the order in which keys are resolved, and
    a bound key always resolves to its binding. *)
Theorem resolution_stable ctx key target :
  (∀ id, (resolve_role_key key ctx).1 = Ok id ↔ role_denotation ctx key = Some id)
  ∧ (∀ id, (resolve_channel_key key ctx).1 = Ok id ↔ channel_denotation ctx key = Some id)
  ∧ (∀ t, (resolve_target target ctx).1 = Ok t ↔ target_denotation ctx target = Some t)
  ∧ same_denotation ctx (resolve_role_key key ctx).2
  ∧ same_denotation ctx (resolve_channel_key key ctx).2
  ∧ same_denotation ctx (resolve_target target ctx).2
  ∧ (∀ id, (resolve_role_key key (bind_role key id ctx)).1 = Ok id)
  ∧ (∀ id, (resolve_channel_key key (bind_channel key id ctx)).1 = Ok id).
Proof.
  pose proof (resolve_role_key_denotes key ctx) as Hr.
  pose proof (resolve_channel_key_denotes key ctx) as Hc.
  pose proof (resolve_target_denotes target ctx) as Ht.
  destruct (resolve_role_key key ctx) as [rr cr], (resolve_channel_key key ctx) as [rc cc],
    (resolve_target target ctx) as [rt ct]; cbn in *.
  destruct Hr as [Hr1 Hr2], Hc as [Hc1 Hc2], Ht as [Ht1 Ht2].
  split_and!; try done; try (intros v; split; destruct rr, rc, rt; naive_solver);
    intros id; unfold resolve_role_key, resolve_channel_key; cbn; by rewrite lookup_insert_eq.
Qed.
End resolution.
