(* ===== verification/VirtualApply.v ===== *)
(** * Virtual application

    [crates/virtual-apply]: the operations of a graph run against a copy of the
    guild, with synthetic identifiers for created resources, to show what
    executing the graph would give. [Vec::push] appends; [next_id] is a [u64]
    that wraps as release builds do. *)

From Stdlib Require Import ZArith Lia String.
From stdpp Require Import base decidable list strings gmap.
From S2P Require Import Prelude RustStd DiscordModel DesiredState DesiredCompiler DiffEngine.
From S2P Require Import OperationGraph Resolution.
Open Scope Z_scope.

Inductive VirtualApplyError :=
| VUnresolvedKey (key : string)
| VMissingIdentity (key : string)
| GraphCycle.

(** [From<ResolutionError>]. *)
Definition from_resolution_error (err : ResolutionError) : VirtualApplyError :=
  match err with
  | UnresolvedKey key => VUnresolvedKey key
  | MissingIdentity key => VMissingIdentity key
  end.

Record VirtualApplyResult := mkApplyResult {
  va_after : GuildState;
  va_applied : list OpId;
  va_synthetic_roles : gmap string RoleId;
  va_synthetic_channels : gmap string ChannelId;
  va_warnings : list string;
}.

Record ApplyContext (R : Type) := mkApply {
  after : GuildState;
  resources : ResourceResolutionContext R;
  next_id : Z;
  synthetic_roles : gmap string RoleId;
  synthetic_channels : gmap string ChannelId;
  applied : list OpId;
  warnings : list string;
}.
Arguments mkApply {R}.
Arguments after {R}.
Arguments resources {R}.
Arguments next_id {R}.
Arguments synthetic_roles {R}.
Arguments synthetic_channels {R}.
Arguments applied {R}.
Arguments warnings {R}.

(** Updates of a guild snapshot's vectors. *)
Definition set_roles (roles : list Role) (g : GuildState) : GuildState :=
  mkGuildState (gs_guild g) roles (gs_channels g) (gs_members g).
Definition set_channels (channels : list Channel) (g : GuildState) : GuildState :=
  mkGuildState (gs_guild g) (gs_roles g) channels (gs_members g).

(** Edits of one resource. *)
Definition edit_role (name : option string) (permissions : option Permissions) (role : Role)
  : Role :=
  mkRole (role_id role) (default (role_name role) name)
    (default (role_permissions role) permissions) (role_position role) (role_managed role).

Definition edit_channel (name : option string) (kind : option ChannelType) (ch : Channel)
  : Channel :=
  mkChannel (channel_id ch) (default (channel_name ch) name) (default (channel_kind ch) kind)
    (channel_parent_id ch) (channel_position ch) (channel_overwrites ch).

Definition put_overwrite (target : OverwriteTarget) (allow deny : Permissions) (ch : Channel)
  : Channel :=
  mkChannel (channel_id ch) (channel_name ch) (channel_kind ch) (channel_parent_id ch)
    (channel_position ch)
    (filter (λ o, ow_target o ≠ target) (channel_overwrites ch)
     ++ [mkOverwrite target allow deny]).

Section apply.
Context {R : Type} `{ResourceResolver R}.
Abbreviation Ctx := (ApplyContext R).

(** The largest identifier of the guild, its roles and its channels. *)
Definition max_id (current : GuildState) : Z :=
  foldl (λ m c, Z.max m (channel_id c))
    (foldl (λ m r, Z.max m (role_id r)) (guild_id (gs_guild current)) (gs_roles current))
    (gs_channels current).

Definition apply_new (current : GuildState) (normalized : NormalizedDesiredState)
  (resolver : R) : Ctx :=
  mkApply current (context_new normalized resolver (guild_id (gs_guild current)))
    (u64_wrapping_add (max_id current) 1) ∅ ∅ [] [].

Definition put_resources (res : ResourceResolutionContext R) (ctx : Ctx) : Ctx :=
  mkApply (after ctx) res (next_id ctx) (synthetic_roles ctx) (synthetic_channels ctx)
    (applied ctx) (warnings ctx).
Definition put_after (g : GuildState) (ctx : Ctx) : Ctx :=
  mkApply g (resources ctx) (next_id ctx) (synthetic_roles ctx) (synthetic_channels ctx)
    (applied ctx) (warnings ctx).

Definition next_synthetic : Cmd Ctx VirtualApplyError Z :=
  λ ctx, (Ok (next_id ctx),
          mkApply (after ctx) (resources ctx) (u64_wrapping_add (next_id ctx) 1)
            (synthetic_roles ctx) (synthetic_channels ctx) (applied ctx) (warnings ctx)).

(** A call on [self.resources] with [?]. *)
Definition on_resources {A} (m : Cmd (ResourceResolutionContext R) ResolutionError A)
  : Cmd Ctx VirtualApplyError A :=
  cmd_map_err from_resolution_error (cmd_zoom resources put_resources m).

Definition modify_roles (f : list Role → list Role) : Cmd Ctx VirtualApplyError unit :=
  cmd_modify (λ ctx, put_after (set_roles (f (gs_roles (after ctx))) (after ctx)) ctx).
Definition modify_channels (f : list Channel → list Channel) : Cmd Ctx VirtualApplyError unit :=
  cmd_modify (λ ctx, put_after (set_channels (f (gs_channels (after ctx))) (after ctx)) ctx).

Definition insert_synthetic_role (key : ResourceKey) (id : RoleId) (ctx : Ctx) : Ctx :=
  mkApply (after ctx) (bind_role key id (resources ctx)) (next_id ctx)
    (<[key := id]> (synthetic_roles ctx)) (synthetic_channels ctx) (applied ctx)
    (warnings ctx).
Definition insert_synthetic_channel (key : ResourceKey) (id : ChannelId) (ctx : Ctx) : Ctx :=
  mkApply (after ctx) (bind_channel key id (resources ctx)) (next_id ctx)
    (synthetic_roles ctx) (<[key := id]> (synthetic_channels ctx)) (applied ctx)
    (warnings ctx).

Definition warn (message : string) (ctx : Ctx) : Ctx :=
  mkApply (after ctx) (resources ctx) (next_id ctx) (synthetic_roles ctx)
    (synthetic_channels ctx) (applied ctx) (warnings ctx ++ [message]).

(** The branch shared by [CreateOverwrite] and [UpdateOverwrite]. *)
Definition apply_overwrite_op (channel : ResourceKey) (target : NormalizedTarget)
  (allow deny : Permissions) : Cmd Ctx VirtualApplyError unit :=
  channel_id' ← on_resources (resolve_channel_key channel);
  ow_target' ← on_resources (resolve_target target);
  ctx ← cmd_get;
  if existsb (λ c, channel_id c =? channel_id') (gs_channels (after ctx))
  then modify_channels
         (update_first (λ c, channel_id c =? channel_id')
            (put_overwrite ow_target' allow deny))
  else cmd_modify (warn ("overwrite channel not found: " +:+ channel)).

Definition apply_operation (op : Operation) : Cmd Ctx VirtualApplyError unit :=
  match op with
  | CreateRole key name permissions =>
      id ← next_synthetic;
      _ ← cmd_modify (insert_synthetic_role key id);
      modify_roles (λ roles, roles ++
        [mkRole id (default EmptyString name) (default perms_empty permissions) 0 false])
  | UpdateRole key name permissions =>
      id ← on_resources (resolve_role_key key);
      modify_roles (update_first (λ r, role_id r =? id) (edit_role name permissions))
  | DeleteRole key =>
      id ← on_resources (resolve_role_key key);
      modify_roles (filter (λ r, role_id r ≠ id))
  | CreateChannel key name channel_type parent =>
      id ← next_synthetic;
      _ ← cmd_modify (insert_synthetic_channel key id);
      parent_id ← match parent with
                  | Some pk =>
                      p ← on_resources (resolve_channel_key pk); cmd_ret (Some p)
                  | None => cmd_ret None
                  end;
      modify_channels (λ channels, channels ++
        [mkChannel id (default EmptyString name) (default Text channel_type) parent_id 0 []])
  | UpdateChannel key name channel_type =>
      id ← on_resources (resolve_channel_key key);
      modify_channels (update_first (λ c, channel_id c =? id) (edit_channel name channel_type))
  | DeleteChannel key =>
      id ← on_resources (resolve_channel_key key);
      modify_channels (filter (λ c, channel_id c ≠ id))
  | CreateOverwrite channel target allow deny | UpdateOverwrite channel target allow deny =>
      apply_overwrite_op channel target allow deny
  end.

Definition push_applied (id : OpId) (ctx : Ctx) : Ctx :=
  mkApply (after ctx) (resources ctx) (next_id ctx) (synthetic_roles ctx)
    (synthetic_channels ctx) (applied ctx ++ [id]) (warnings ctx).

(** The loop of [apply] over the schedule. *)
Fixpoint apply_all (nodes : list OperationNode) (order : list OpId)
  : Cmd Ctx VirtualApplyError unit :=
  match order with
  | [] => cmd_ret tt
  | id :: rest =>
      match List.find (λ n, node_id n =? id) nodes with
      | Some node =>
          _ ← apply_operation (node_operation node);
          _ ← cmd_modify (push_applied id);
          apply_all nodes rest
      | None => apply_all nodes rest
      end
  end.

Definition into_result (ctx : Ctx) : VirtualApplyResult :=
  mkApplyResult (after ctx) (applied ctx) (synthetic_roles ctx) (synthetic_channels ctx)
    (warnings ctx).

Definition apply (current : GuildState) (graph : OperationGraph)
  (normalized : NormalizedDesiredState) (resolver : R)
  : Result VirtualApplyError VirtualApplyResult :=
  match topological_order graph with
  | Err _ => Err GraphCycle
  | Ok order =>
      match apply_all (graph_nodes graph) order (apply_new current normalized resolver) with
      | (Ok _, ctx) => Ok (into_result ctx)
      | (Err e, _) => Err e
      end
  end.
End apply.
