(* ===== verification/Plan.v ===== *)
(** * The planned operations

    What planning computes end to end: the operations of the graph compiled
    from the difference of a document are exactly those the document requires
    of the resources the resolver sees, each created resource once. What the
    document requires is said here in terms of its fields; the one request of a
    document that no operation serves is to move an existing channel under
    another parent. *)

From Stdlib Require Import ZArith Lia String.
From stdpp Require Import base decidable list strings gmap sorting.
From S2P Require Import Prelude RustStd DiscordModel DesiredState DesiredCompiler DiffEngine.
From S2P Require Import OperationGraph GraphOrder GraphCompile.

(** Overwrites of a channel have distinct targets, as compilation produces them. *)
Definition targets_distinct (n : NormalizedDesiredState) : Prop :=
  Forall (λ c, NoDup (no_target <$> nc_overwrites c)) (nd_channels n).

Definition graph_operations (graph : OperationGraph) : list Operation :=
  node_operation <$> graph_nodes graph.

Section required.
Context {R : Type} `{ResourceResolver R} (resolver : R) (n : NormalizedDesiredState).

Abbreviation role_resolved r := (resolve_role resolver (nr_identity r) (nr_name r)).
Abbreviation channel_resolved c := (resolve_channel resolver (nc_identity c) (nc_name c)).
Abbreviation rbk := (collect_roles_by_key (nd_roles n)).

(** Resources the document manages and wants present. *)
Definition owned_present (identity : Identity) : Prop :=
  id_state identity = Present ∧ id_ownership identity ≠ Referenced.
Definition owned_absent (identity : Identity) : Prop :=
  id_state identity = Absent ∧ id_ownership identity ≠ Referenced.

(** The document asks for a value of a field, and it is another one. *)
Definition asks_for_another {T} (wanted : option T) (current : T) : Prop :=
  ∃ v, wanted = Some v ∧ v ≠ current.

(** What the target of an overwrite stands for; a role that is still to be created is
    [None]. *)
Inductive stands_for : NormalizedTarget → option OverwriteTarget → Prop :=
| sf_everyone : stands_for Everyone (Some (everyone_overwrite_target resolver))
| sf_member id raw : parse_u64 id = Some raw → stands_for (NMember id) (Some (TargetMember raw))
| sf_role r current :
    r ∈ nd_roles n → role_resolved r = Existing current →
    stands_for (NRole (id_key (nr_identity r))) (Some (TargetRole (role_id current)))
| sf_new_role r :
    r ∈ nd_roles n → role_resolved r = Missing → stands_for (NRole (id_key (nr_identity r))) None.

(** The channel has no overwrite for the target, or this one first. *)
Definition lacks_overwrite (current : Channel) (target : option OverwriteTarget) : Prop :=
  ∀ t o, target = Some t → o ∈ channel_overwrites current → ow_target o ≠ t.
Definition first_overwrite (current : Channel) (target : option OverwriteTarget)
  (o : PermissionOverwrite) : Prop :=
  ∃ before after, channel_overwrites current = before ++ o :: after
    ∧ target = Some (ow_target o) ∧ ∀ o', o' ∈ before → ow_target o' ≠ ow_target o.

Inductive required : Operation → Prop :=
| req_create_role r :
    r ∈ nd_roles n → owned_present (nr_identity r) → role_resolved r = Missing →
    required (CreateRole (id_key (nr_identity r)) (nr_name r) (nr_permissions r))
| req_update_role r current :
    r ∈ nd_roles n → owned_present (nr_identity r) → role_resolved r = Existing current →
    asks_for_another (nr_name r) (role_name current)
    ∨ asks_for_another (nr_permissions r) (role_permissions current) →
    required (UpdateRole (id_key (nr_identity r)) (nr_name r) (nr_permissions r))
| req_delete_role r current :
    r ∈ nd_roles n → owned_absent (nr_identity r) → role_resolved r = Existing current →
    required (DeleteRole (id_key (nr_identity r)))
| req_create_channel c :
    c ∈ nd_channels n → owned_present (nc_identity c) → channel_resolved c = Missing →
    required (CreateChannel (id_key (nc_identity c)) (nc_name c) (nc_channel_type c)
                (nc_parent c))
| req_update_channel c current :
    c ∈ nd_channels n → owned_present (nc_identity c) →
    channel_resolved c = Existing current →
    asks_for_another (nc_name c) (channel_name current)
    ∨ asks_for_another (nc_channel_type c) (channel_kind current) →
    required (UpdateChannel (id_key (nc_identity c)) (nc_name c) (nc_channel_type c))
| req_delete_channel c current :
    c ∈ nd_channels n → owned_absent (nc_identity c) →
    channel_resolved c = Existing current →
    required (DeleteChannel (id_key (nc_identity c)))
| req_fresh_overwrite c o :
    c ∈ nd_channels n → owned_present (nc_identity c) → channel_resolved c = Missing →
    o ∈ nc_overwrites c →
    required (CreateOverwrite (id_key (nc_identity c)) (no_target o) (no_allow o) (no_deny o))
| req_create_overwrite c o current target :
    c ∈ nd_channels n → owned_present (nc_identity c) →
    channel_resolved c = Existing current → o ∈ nc_overwrites c →
    stands_for (no_target o) target → lacks_overwrite current target →
    required (CreateOverwrite (id_key (nc_identity c)) (no_target o) (no_allow o) (no_deny o))
| req_update_overwrite c o current target current_overwrite :
    c ∈ nd_channels n → owned_present (nc_identity c) →
    channel_resolved c = Existing current → o ∈ nc_overwrites c →
    stands_for (no_target o) target → first_overwrite current target current_overwrite →
    no_allow o ≠ ow_allow current_overwrite ∨ no_deny o ≠ ow_deny current_overwrite →
    required (UpdateOverwrite (id_key (nc_identity c)) (no_target o) (no_allow o) (no_deny o)).

Lemma asks_for_another_differs {T} `{EqDecision T} (wanted : option T) current :
  asks_for_another wanted current ↔ field_differs wanted current = true.
Proof.
  unfold asks_for_another, field_differs. destruct wanted as [v|]; [|naive_solver].
  rewrite bool_decide_eq_true. naive_solver.
Qed.

Lemma role_asks_changed r current :
  asks_for_another (nr_name r) (role_name current)
  ∨ asks_for_another (nr_permissions r) (role_permissions current)
  ↔ role_changed r current ≠ [].
Proof.
  rewrite !asks_for_another_differs. unfold role_changed.
  destruct (field_differs _ (role_name _)), (field_differs _ (role_permissions _)); naive_solver.
Qed.

Lemma channel_asks_changed c current :
  asks_for_another (nc_name c) (channel_name current)
  ∨ asks_for_another (nc_channel_type c) (channel_kind current)
  ↔ channel_meta_changed c current ≠ [].
Proof.
  rewrite !asks_for_another_differs. unfold channel_meta_changed.
  destruct (field_differs _ (channel_name _)), (field_differs _ (channel_kind _)); naive_solver.
Qed.

Lemma overwrite_asks_changed o current :
  no_allow o ≠ ow_allow current ∨ no_deny o ≠ ow_deny current ↔ overwrite_changed o current ≠ [].
Proof. unfold overwrite_changed. repeat case_bool_decide; naive_solver. Qed.

Lemma lacks_overwrite_find current target :
  lacks_overwrite current target ↔ find_current_overwrite current target = None.
Proof.
  unfold lacks_overwrite, find_current_overwrite. destruct target as [t|]; cbn; [|naive_solver].
  split.
  - intros Hl. destruct (List.find _ _) as [o|] eqn:Hf; [|done].
    apply find_some in Hf as [Hin%list_elem_of_In Ht%bool_decide_eq_true].
    by destruct (Hl t o eq_refl Hin).
  - intros Hf t' o [= <-] Hin%list_elem_of_In Ht. apply (find_none _ _ Hf) in Hin.
    by apply bool_decide_eq_false in Hin.
Qed.

Lemma first_overwrite_find current target o :
  first_overwrite current target o ↔ find_current_overwrite current target = Some o.
Proof.
  unfold first_overwrite, find_current_overwrite. split.
  - intros (before & after & -> & -> & Hb). cbn.
    induction before as [|o' before IH]; cbn; [by rewrite bool_decide_eq_true_2|].
    rewrite bool_decide_eq_false_2 by (apply Hb; by left). apply IH. intros o'' Ho''. apply Hb. by right.
  - destruct target as [t|]; cbn; [|done]. induction (channel_overwrites current) as [|o' l IH]; cbn; [done|].
    case_bool_decide as Ht.
    + intros [= ->]. exists [], l. split_and!; [done|by rewrite Ht|by intros ? ?%not_elem_of_nil].
    + intros (before & after & -> & Ht' & Hb)%IH. exists (o' :: before), after.
      split_and!; [done..|]. intros o'' [->|Ho'']%elem_of_cons; [|by apply Hb].
      injection Ht' as ->. done.
Qed.

Context (Hkeys : keys_distinct n) (Htargets : targets_distinct n).

Lemma role_by_key r r' :
  r ∈ nd_roles n → r' ∈ nd_roles n → id_key (nr_identity r) = id_key (nr_identity r') → r = r'.
Proof.
  intros Hr Hr' Heq.
  pose proof (find_eqb_Some (λ r, id_key (nr_identity r)) _ _ (kd_roles _ Hkeys) Hr) as H1.
  pose proof (find_eqb_Some (λ r, id_key (nr_identity r)) _ _ (kd_roles _ Hkeys) Hr') as H2.
  cbn in H1, H2. rewrite Heq in H1. congruence.
Qed.

Lemma collect_roles_lookup roles k r :
  collect_roles_by_key roles !! k = Some r → r ∈ roles ∧ id_key (nr_identity r) = k.
Proof.
  unfold collect_roles_by_key. induction roles as [|r' roles IH] using rev_ind; [done|].
  rewrite foldl_snoc, lookup_insert. case_decide as Hk.
  - intros [= <-]. split; [|done]. apply elem_of_app. right. by left.
  - intros [Hr Hkr]%IH. split; [|done]. apply elem_of_app. by left.
Qed.

Lemma collect_roles_complete r :
  r ∈ nd_roles n → rbk !! id_key (nr_identity r) = Some r.
Proof.
  intros Hr. destruct (rbk !! id_key (nr_identity r)) as [r'|] eqn:Hl.
  - apply collect_roles_lookup in Hl as [Hr' Hk]. f_equal. by apply role_by_key.
  - exfalso. revert Hl. unfold collect_roles_by_key.
    induction (nd_roles n) as [|r' roles IH] using rev_ind; [by apply not_elem_of_nil in Hr|].
    rewrite foldl_snoc, lookup_insert. case_decide as Hk; [done|].
    apply elem_of_app in Hr as [Hr| ->%list_elem_of_singleton]; [by apply IH|done].
Qed.

Lemma stands_for_resolves target t :
  stands_for target t ↔ resolve_overwrite_target resolver target rbk = Ok t.
Proof.
  split.
  - destruct 1 as [|id raw Hraw|r current Hr Hres|r Hr Hres]; cbn; [done|by rewrite Hraw|..];
      by rewrite collect_roles_complete, Hres.
  - destruct target as [|key|id]; cbn.
    + intros [= <-]. constructor.
    + destruct (rbk !! key) as [r|] eqn:Hl; [|done]. apply collect_roles_lookup in Hl as [Hr <-].
      destruct (role_resolved r) eqn:Hres; [| |done]; intros [= <-]; by constructor.
    + destruct (parse_u64 id) eqn:Hraw; [|done]. intros [= <-]. by constructor.
Qed.

(** The change a required operation is built from. *)
Definition change_for (op : Operation) : ChangeOp * DiffTarget :=
  match op with
  | CreateRole key _ _ => (Create, DRole key)
  | UpdateRole key _ _ => (Update, DRole key)
  | DeleteRole key => (Delete, DRole key)
  | CreateChannel key _ _ _ => (Create, DChannel key)
  | UpdateChannel key _ _ => (Update, DChannel key)
  | DeleteChannel key => (Delete, DChannel key)
  | CreateOverwrite channel target _ _ => (Create, DOverwrite channel target)
  | UpdateOverwrite channel target _ _ => (Update, DOverwrite channel target)
  end.

Lemma update_or_noop_elem t changed c :
  c ∈ changes (push_change (update_or_noop t changed)) → dc_op c ≠ NoOp →
  changed ≠ [] ∧ dc_op c = Update ∧ dc_target c = t.
Proof.
  cbn. rewrite list_elem_of_singleton. intros -> Hop. by destruct changed.
Qed.

Lemma find_overwrite_exact c o :
  c ∈ nd_channels n → o ∈ nc_overwrites c →
  find_overwrite n (id_key (nc_identity c)) (no_target o) = Ok o.
Proof.
  intros Hc Ho. unfold find_overwrite. rewrite find_channel_Ok by done. cbn.
  destruct (find_bool_Some (λ o', bool_decide (no_target o' = no_target o))
              (nc_overwrites c) o Ho) as (o' & Hf & Ht%bool_decide_eq_true).
  { by apply bool_decide_eq_true. }
  rewrite Hf. cbn. f_equal.
  apply find_some in Hf as [Hin%list_elem_of_In _].
  assert (Hnd : NoDup (no_target <$> nc_overwrites c))
    by (by apply (proj1 (Forall_forall _ _) Htargets)).
  apply list_elem_of_lookup in Hin as [i Hi], Ho as [j Hj].
  assert (i = j) as ->; [|congruence].
  eapply NoDup_lookup; [exact Hnd|rewrite list_lookup_fmap, Hi; done|].
  by rewrite list_lookup_fmap, Hj; cbn; rewrite Ht.
Qed.

Lemma build_required op :
  required op → ∀ change, (dc_op change, dc_target change) = change_for op →
  ∃ ps qs, build_operation change n = Ok (op, ps, qs).
Proof.
  intros Hreq change. unfold build_operation.
  destruct Hreq; cbn [change_for]; intros [= -> ->];
    rewrite ?find_role_Ok, ?find_channel_Ok, ?find_overwrite_exact by done; cbn; eauto.
Qed.

Definition proposed (d : DiffResult) (op : Operation) : Prop :=
  ∃ change, change ∈ changes d ∧ (dc_op change, dc_target change) = change_for op.

Lemma role_change_required r c :
  r ∈ nd_roles n → c ∈ changes (diff_role resolver r) → dc_op c ≠ NoOp →
  ∃ op, required op ∧ (dc_op c, dc_target c) = change_for op.
Proof.
  intros Hr Hc Hop. unfold diff_role in Hc.
  destruct (id_state (nr_identity r)) eqn:Hs, (role_resolved r) as [cur| |] eqn:Hres;
    repeat case_bool_decide; repeat case_match;
    try (by apply not_elem_of_nil in Hc);
    try (cbn in Hc; apply list_elem_of_singleton in Hc as ->; done).
  - apply update_or_noop_elem in Hc as (Hch & -> & ->); [|done].
    eexists. split; [eapply req_update_role; [done..|by apply role_asks_changed]|done].
  - apply list_elem_of_singleton in Hc as ->.
    eexists. split; [by eapply req_create_role|done].
  - apply list_elem_of_singleton in Hc as ->.
    eexists. split; [by eapply req_delete_role|done].
Qed.

Lemma overwrite_change_required ch current o c :
  ch ∈ nd_channels n → owned_present (nc_identity ch) →
  channel_resolved ch = Existing current → o ∈ nc_overwrites ch →
  c ∈ changes (diff_overwrite resolver ch current rbk o) → dc_op c ≠ NoOp →
  ∃ op, required op ∧ (dc_op c, dc_target c) = change_for op.
Proof.
  intros Hch Hown Hres Ho Hc Hop. unfold diff_overwrite in Hc.
  destruct (resolve_overwrite_target _ _ _) as [target|] eqn:Ht;
    [|by apply not_elem_of_nil in Hc].
  destruct (find_current_overwrite current target) eqn:Hf.
  - apply update_or_noop_elem in Hc as (Hchanged & -> & ->); [|done].
    eexists. split; [eapply req_update_overwrite|done];
      [done..|by apply stands_for_resolves|by apply first_overwrite_find|by apply overwrite_asks_changed].
  - apply list_elem_of_singleton in Hc as ->.
    eexists. split; [eapply req_create_overwrite|done];
      [done..|by apply stands_for_resolves|by apply lacks_overwrite_find].
Qed.

Lemma channel_change_required ch c :
  ch ∈ nd_channels n → c ∈ changes (diff_channel resolver rbk ch) → dc_op c ≠ NoOp →
  ∃ op, required op ∧ (dc_op c, dc_target c) = change_for op.
Proof.
  intros Hch Hc Hop. unfold diff_channel in Hc.
  destruct (id_state (nc_identity ch)) eqn:Hs, (channel_resolved ch) as [cur| |] eqn:Hres;
    repeat case_bool_decide; repeat case_match;
    try (by apply not_elem_of_nil in Hc);
    try (cbn in Hc; apply list_elem_of_singleton in Hc as ->; done).
  - cbn [diff_app changes] in Hc. apply elem_of_app in Hc as [Hc|Hc].
    + apply update_or_noop_elem in Hc as (Hchanged & -> & ->); [|done].
      eexists. split; [eapply req_update_channel; [done..|by apply channel_asks_changed]|done].
    + apply changes_concat in Hc as (o & Ho & Hc).
      by eapply overwrite_change_required.
  - cbn [diff_app changes] in Hc. apply elem_of_app in Hc as [Hc|Hc].
    + apply list_elem_of_singleton in Hc as ->.
      eexists. split; [by eapply req_create_channel|done].
    + apply changes_concat in Hc as (o & Ho & ->%list_elem_of_singleton).
      eexists. split; [by eapply req_fresh_overwrite|done].
  - apply list_elem_of_singleton in Hc as ->.
    eexists. split; [by eapply req_delete_channel|done].
Qed.

(** ** Conflict-free differences *)
Lemma conflicts_concat {A} (f : A → DiffResult) l :
  conflicts (diff_concat (f <$> l)) = [] → ∀ x, x ∈ l → conflicts (f x) = [].
Proof.
  induction l as [|a l IH]; cbn; [by intros _ ? ?%not_elem_of_nil|].
  intros [Ha Hl]%app_nil x [->|Hx]%elem_of_cons; auto.
Qed.

Lemma conflict_free_parts :
  conflicts (diff resolver n) = [] →
  (∀ r, r ∈ nd_roles n → conflicts (diff_role resolver r) = [])
  ∧ (∀ c, c ∈ nd_channels n → conflicts (diff_channel resolver rbk c) = []).
Proof.
  cbn. intros [Hr [Hc _]%app_nil]%app_nil. split; by apply conflicts_concat.
Qed.

Lemma conflict_free_role r :
  conflicts (diff_role resolver r) = [] →
  (∀ reason, role_resolved r ≠ Conflict reason)
  ∧ (id_state (nr_identity r) = Present → role_resolved r = Missing →
     id_ownership (nr_identity r) ≠ Referenced ∧ id_match_by (nr_identity r) = ByName)
  ∧ (id_state (nr_identity r) = Absent → role_resolved r ≠ Missing →
     id_ownership (nr_identity r) ≠ Referenced).
Proof.
  unfold diff_role, is_explicit_id. intros Hc.
  repeat case_match; repeat case_bool_decide; try discriminate Hc; naive_solver.
Qed.

Lemma conflict_free_channel c :
  conflicts (diff_channel resolver rbk c) = [] →
  (∀ reason, channel_resolved c ≠ Conflict reason)
  ∧ (id_state (nc_identity c) = Present → channel_resolved c = Missing →
     id_ownership (nc_identity c) ≠ Referenced ∧ id_match_by (nc_identity c) = ByName)
  ∧ (id_state (nc_identity c) = Absent → channel_resolved c ≠ Missing →
     id_ownership (nc_identity c) ≠ Referenced)
  ∧ (owned_present (nc_identity c) → ∀ current o, channel_resolved c = Existing current →
     o ∈ nc_overwrites c →
     ∃ target, resolve_overwrite_target resolver (no_target o) rbk = Ok target).
Proof.
  unfold diff_channel, is_explicit_id, owned_present. intros Hc.
  destruct (id_state (nc_identity c)) eqn:Hs, (channel_resolved c) as [cur| |] eqn:Hres;
    repeat case_bool_decide; repeat case_match; try discriminate Hc;
    (split_and!; try naive_solver).
  intros _ current o [= <-] Ho. cbn in Hc.
  pose proof (conflicts_concat _ _ Hc o Ho) as Hco. unfold diff_overwrite in Hco.
  destruct (resolve_overwrite_target _ _ _); [eauto|done].
Qed.

Lemma update_or_noop_push t changed :
  changed ≠ [] → mkChange Update t changed ∈ changes (push_change (update_or_noop t changed)).
Proof. destruct changed; [done|]. intros _. by left. Qed.

Lemma role_change_in r change :
  r ∈ nd_roles n → change ∈ changes (diff_role resolver r) → change ∈ changes (diff resolver n).
Proof. intros Hr Hc. cbn. rewrite elem_of_app, changes_concat. eauto. Qed.

Lemma channel_change_in c change :
  c ∈ nd_channels n → change ∈ changes (diff_channel resolver rbk c) →
  change ∈ changes (diff resolver n).
Proof. intros Hr Hc. cbn. rewrite !elem_of_app, !changes_concat. eauto. Qed.

(** Exhibits the change of a resource and computes the branch of the diff. *)
Local Ltac propose lem :=
  eexists; split; [eapply lem; [done|]|by instantiate (1 := mkChange _ _ _)];
  unfold diff_role, diff_channel, is_explicit_id;
  repeat match goal with Hs : _ = _ |- _ => rewrite Hs end;
  rewrite ?bool_decide_eq_false_2 by done.

Lemma required_proposed op :
  conflicts (diff resolver n) = [] → required op → proposed (diff resolver n) op.
Proof.
  intros [Hfr Hfc]%conflict_free_parts Hreq.
  assert (Hrn : ∀ r, r ∈ nd_roles n → id_state (nr_identity r) = Present →
            role_resolved r = Missing → id_match_by (nr_identity r) = ByName).
  { intros r Hr Hs Hm. by apply (conflict_free_role r (Hfr r Hr)). }
  assert (Hcn : ∀ c, c ∈ nd_channels n → id_state (nc_identity c) = Present →
            channel_resolved c = Missing → id_match_by (nc_identity c) = ByName).
  { intros c Hc Hs Hm. by apply (conflict_free_channel c (Hfc c Hc)). }
  clear Hfr Hfc. unfold proposed. destruct Hreq as
    [r Hr [Hs Ho] Hres|r cur Hr [Hs Ho] Hres Hch|r cur Hr [Hs Ho] Hres
    |c Hc [Hs Ho] Hres|c cur Hc [Hs Ho] Hres Hch|c cur Hc [Hs Ho] Hres
    |c o Hc [Hs Ho] Hres Hin|c o cur t Hc [Hs Ho] Hres Hin Ht Hf
    |c o cur t co Hc [Hs Ho] Hres Hin Ht Hf Hch].
  - propose role_change_in. rewrite (Hrn r) by done. by left.
  - propose role_change_in. by apply update_or_noop_push, role_asks_changed.
  - propose role_change_in. by left.
  - propose channel_change_in. rewrite (Hcn c) by done. by left.
  - propose channel_change_in. apply elem_of_app. left.
    by apply update_or_noop_push, channel_asks_changed.
  - propose channel_change_in. by left.
  - propose channel_change_in. rewrite (Hcn c) by done. apply elem_of_app. right.
    apply changes_concat. exists o. split; [done|by left].
  - propose channel_change_in. apply elem_of_app. right. apply changes_concat.
    exists o. split; [done|]. unfold diff_overwrite.
    apply stands_for_resolves in Ht. apply lacks_overwrite_find in Hf. rewrite Ht, Hf. by left.
  - propose channel_change_in. apply elem_of_app. right. apply changes_concat.
    exists o. split; [done|]. unfold diff_overwrite.
    apply stands_for_resolves in Ht. apply first_overwrite_find in Hf. rewrite Ht, Hf.
    by apply update_or_noop_push, overwrite_asks_changed.
Qed.

Lemma change_required change :
  change ∈ changes (diff resolver n) → dc_op change ≠ NoOp →
  ∃ op, required op ∧ (dc_op change, dc_target change) = change_for op.
Proof.
  cbn. rewrite !elem_of_app, !changes_concat.
  intros [(r & Hr & Hc)|[(c & Hch & Hc)|(p & _ & Hc)]] Hop.
  - by eapply role_change_required.
  - by eapply channel_change_required.
  - by apply not_elem_of_nil in Hc.
Qed.

Lemma graph_operation_change graph op :
  compile_operations (diff resolver n) n = Ok graph →
  op ∈ graph_operations graph ↔
  ∃ change ps qs, change ∈ changes (diff resolver n) ∧ dc_op change ≠ NoOp
    ∧ build_operation change n = Ok (op, ps, qs).
Proof.
  intros (_ & nodes & order & Hn & -> & _)%compile_operations_inv. cbn.
  apply build_nodes_spec in Hn as [_ Hall%derive_dependencies_built].
  unfold graph_operations; cbn. rewrite list_elem_of_fmap. split.
  - intros (node & -> & (i & Hi)%list_elem_of_lookup).
    destruct (Forall2_lookup_r _ _ _ _ _ Hall Hi) as (change & Hch & Hb).
    apply list_elem_of_lookup_2, list_elem_of_filter in Hch as [Hop Hin].
    by do 3 eexists.
  - intros (change & ps & qs & Hin & Hop & Hb).
    assert (change ∈ effective (changes (diff resolver n))) as (i & Hi)%list_elem_of_lookup
      by (by apply list_elem_of_filter).
    destruct (Forall2_lookup_l _ _ _ _ _ Hall Hi) as (node & Hnode & Hb').
    exists node. unfold node_built in Hb'. split; [congruence|].
    by eapply list_elem_of_lookup_2.
Qed.

Lemma graph_operations_required graph op :
  compile_operations (diff resolver n) n = Ok graph →
  op ∈ graph_operations graph ↔ required op.
Proof.
  intros Hcomp. rewrite graph_operation_change by done. split.
  - intros (change & ps & qs & Hin & Hop & Hb).
    destruct (change_required change Hin Hop) as (op' & Hreq & Heq).
    destruct (build_required op' Hreq change Heq) as (ps' & qs' & Hb').
    by assert (op = op') as -> by congruence.
  - intros Hreq. apply compile_operations_inv in Hcomp as [Hcf _].
    destruct (required_proposed op Hcf Hreq) as (change & Hin & Heq).
    destruct (build_required op Hreq change Heq) as (ps & qs & Hb).
    exists change, ps, qs. split_and!; [done| |done].
    destruct op; cbn in Heq; congruence.
Qed.

(** ** Each resource is created once *)
Definition change_creates_role (c : DiffChange) : option ResourceKey :=
  match dc_op c, dc_target c with Create, DRole key => Some key | _, _ => None end.
Definition change_creates_channel (c : DiffChange) : option ResourceKey :=
  match dc_op c, dc_target c with Create, DChannel key => Some key | _, _ => None end.

Lemma omap_changes_sublist {A} (p : DiffChange → option string) (key : A → string)
  (f : A → DiffResult) l :
  (∀ x, omap p (changes (f x)) `sublist_of` [key x]) →
  omap p (changes (diff_concat (f <$> l))) `sublist_of` (key <$> l).
Proof.
  intros Hf. induction l as [|a l IH]; cbn; [done|].
  rewrite omap_app. change (key a :: (key <$> l)) with ([key a] ++ (key <$> l)).
  by apply sublist_app.
Qed.

Lemma omap_changes_nil {A} (p : DiffChange → option string) (f : A → DiffResult) l :
  (∀ x, omap p (changes (f x)) = []) → omap p (changes (diff_concat (f <$> l))) = [].
Proof.
  intros Hf. induction l as [|a l IH]; cbn; [done|]. rewrite omap_app, Hf. exact IH.
Qed.

(** Overwrite changes create neither roles nor channels. *)
Lemma overwrite_changes_create_nothing ch current p :
  (p = change_creates_role ∨ p = change_creates_channel) →
  omap p (changes (diff_overwrites resolver ch current rbk)) = [].
Proof.
  intros Hp. apply omap_changes_nil. intros o.
  unfold diff_overwrite. destruct (resolve_overwrite_target _ _ _); [|done].
  destruct (find_current_overwrite _ _) as [co|];
    [destruct (overwrite_changed o co)|]; by destruct Hp as [-> | ->].
Qed.

Lemma fresh_overwrites_create_nothing key (os : list NormalizedOverwrite) p :
  (p = change_creates_role ∨ p = change_creates_channel) →
  omap p (changes (diff_concat
    ((λ o, push_change (mkChange Create (DOverwrite key (no_target o)) [])) <$> os))) = [].
Proof. intros Hp. apply omap_changes_nil. intros o. by destruct Hp as [-> | ->]. Qed.

Lemma role_creates r :
  omap change_creates_role (changes (diff_role resolver r)) `sublist_of` [id_key (nr_identity r)]
  ∧ omap change_creates_channel (changes (diff_role resolver r)) = [].
Proof.
  unfold diff_role. repeat case_match; cbn; (split; [|try done]);
    try apply sublist_nil_l; try done;
    unfold update_or_noop in *; repeat case_match; cbn; try apply sublist_nil_l; done.
Qed.

Lemma channel_creates ch :
  omap change_creates_channel (changes (diff_channel resolver rbk ch))
    `sublist_of` [id_key (nc_identity ch)]
  ∧ omap change_creates_role (changes (diff_channel resolver rbk ch)) = [].
Proof.
  unfold diff_channel. repeat case_match; cbn [diff_app push_change push_conflict changes];
    rewrite ?omap_app;
    rewrite ?overwrite_changes_create_nothing, ?fresh_overwrites_create_nothing by auto;
    cbn; (split; [|try done]);
    try apply sublist_nil_l; try done;
    unfold update_or_noop in *; repeat case_match; cbn; try apply sublist_nil_l; done.
Qed.

Definition creates_role (op : Operation) : option ResourceKey :=
  match op with CreateRole key _ _ => Some key | _ => None end.
Definition creates_channel (op : Operation) : option ResourceKey :=
  match op with CreateChannel key _ _ _ => Some key | _ => None end.

Lemma built_creates change node :
  node_built n change node →
  creates_role (node_operation node) = change_creates_role change
  ∧ creates_channel (node_operation node) = change_creates_channel change.
Proof.
  unfold node_built, build_operation, change_creates_role, change_creates_channel.
  destruct (dc_op change), (dc_target change); intros Hb; cbn in Hb; try discriminate Hb;
    try (apply bind_Ok_inv in Hb as (x & _ & Hb)); injection Hb as <- _ _; done.
Qed.

Lemma omap_built {B} (p : Operation → option B) (q : DiffChange → option B) cs nodes :
  (∀ c node, node_built n c node → p (node_operation node) = q c) →
  (∀ c, dc_op c = NoOp → q c = None) →
  Forall2 (node_built n) (effective cs) nodes →
  omap p (node_operation <$> nodes) = omap q cs.
Proof.
  intros Hpq Hq. unfold effective.
  induction cs as [|c cs IH] in nodes |- *; [by intros ->%Forall2_nil_inv_l|].
  rewrite filter_cons. case_decide as Hop.
  - intros (node & nodes' & Hb & Hall & ->)%Forall2_cons_inv_l. cbn.
    rewrite (Hpq c node Hb). by rewrite IH.
  - intros Hall. cbn. rewrite (Hq c); [by apply IH|]. destruct (dc_op c); naive_solver.
Qed.

Lemma graph_creates_nodup graph :
  compile_operations (diff resolver n) n = Ok graph →
  NoDup (omap creates_role (graph_operations graph))
  ∧ NoDup (omap creates_channel (graph_operations graph)).
Proof.
  intros (_ & nodes & order & Hn & -> & _)%compile_operations_inv.
  apply build_nodes_spec in Hn as [_ Hall%derive_dependencies_built].
  destruct Hkeys as [Hkr Hkc]. unfold graph_operations; cbn [graph_nodes].
  split.
  - rewrite (omap_built _ change_creates_role (changes (diff resolver n)))
      by (done || by intros c node []%built_creates || by intros [[] ? ?]).
    eapply sublist_NoDup; [exact Hkr|]. cbn. rewrite !omap_app.
    rewrite (omap_changes_nil _ (diff_channel _ _)) by apply channel_creates.
    rewrite (omap_changes_nil _ defer_panel), !app_nil_r by done.
    apply omap_changes_sublist. apply role_creates.
  - rewrite (omap_built _ change_creates_channel (changes (diff resolver n)))
      by (done || by intros c node []%built_creates || by intros [[] ? ?]).
    eapply sublist_NoDup; [exact Hkc|]. cbn. rewrite !omap_app.
    rewrite (omap_changes_nil _ (diff_role _)) by apply role_creates.
    rewrite (omap_changes_nil _ defer_panel), app_nil_r by done.
    apply omap_changes_sublist. apply channel_creates.
Qed.

(** C17: for a document with distinct keys and overwrite targets, the graph
    compiled from its difference holds exactly the operations the document
    requires given what the resolver sees, and creates no resource twice. A
    document never requires to move an existing channel under another parent:
    there is no such operation. *)
Theorem planned_operations_exact graph :
  compile_operations (diff resolver n) n = Ok graph →
  (∀ op, op ∈ graph_operations graph ↔ required op)
  ∧ NoDup (omap creates_role (graph_operations graph))
  ∧ NoDup (omap creates_channel (graph_operations graph)).
Proof.
  intros Hc. split; [|by apply graph_creates_nodup].
  intros op. by apply graph_operations_required.
Qed.
End required.
