(* ===== verification/PlanApply.v ===== *)
(** * The virtual application of a plan

    Pools of identified resources first, then the steps of a plan on them. Roles and channels live in vectors, carry an id and a name, and are
    addressed by document keys: a created key denotes its synthetic id, any other
    key the resource it resolved to. The first part describes what one operation may
    do to such a pool and which facts about a single key survive it. *)

From Stdlib Require Import ZArith Lia String.
From stdpp Require Import base decidable list strings gmap sorting.
From S2P Require Import Prelude RustStd DiscordModel DesiredState DesiredCompiler DiffEngine OperationGraph.
From S2P Require Import GraphOrder GraphCompile Resolution VirtualApply Plan.
Open Scope Z_scope.

Section pool.
Context {T : Type} (id_of : T → Z).

Definition at_id (i : Z) (pool : list T) : option T := List.find (λ t, id_of t =? i) pool.

Lemma at_id_Some i pool x : at_id i pool = Some x → x ∈ pool ∧ id_of x = i.
Proof. intros [Hin%list_elem_of_In Heq%Z.eqb_eq]%find_some. done. Qed.

Lemma at_id_None i pool : at_id i pool = None ↔ ∀ x, x ∈ pool → id_of x ≠ i.
Proof.
  split.
  - intros Hn x Hx%list_elem_of_In. by apply Z.eqb_neq, (find_none _ _ Hn x Hx).
  - intros Hall. destruct (at_id i pool) eqn:Ha; [|done].
    apply at_id_Some in Ha as [? ?]. naive_solver.
Qed.

Lemma at_id_elem i pool x :
  NoDup (id_of <$> pool) → at_id i pool = Some x ↔ x ∈ pool ∧ id_of x = i.
Proof. apply find_key_elem. Qed.

Lemma at_id_app i pool x :
  at_id i (pool ++ [x])
  = match at_id i pool with Some y => Some y | None => if id_of x =? i then Some x else None end.
Proof.
  unfold at_id. induction pool as [|a pool IH]; cbn; [done|]. by destruct (id_of a =? i).
Qed.

Lemma at_id_update i j f pool :
  (∀ y, id_of (f y) = id_of y) →
  at_id i (update_first (λ t, id_of t =? j) f pool)
  = if i =? j then f <$> at_id i pool else at_id i pool.
Proof.
  intros Hf. unfold at_id. induction pool as [|a pool IH]; cbn; [by destruct (i =? j)|].
  destruct (Z.eqb_spec (id_of a) j) as [Hj|Hj]; cbn; rewrite ?Hf.
  - destruct (Z.eqb_spec i j) as [->|Hij].
    + by rewrite (proj2 (Z.eqb_eq _ _) Hj).
    + by rewrite (proj2 (Z.eqb_neq _ _)) by congruence.
  - destruct (Z.eqb_spec (id_of a) i) as [Hi|Hi]; [|done].
    by rewrite (proj2 (Z.eqb_neq _ _)) by congruence.
Qed.

Lemma at_id_filter i j pool :
  at_id i (filter (λ t, id_of t ≠ j) pool) = if i =? j then None else at_id i pool.
Proof.
  unfold at_id. induction pool as [|a pool IH]; [by destruct (i =? j)|].
  rewrite filter_cons. cbn [List.find].
  case_decide as Ha; cbn [List.find]; rewrite IH;
    destruct (Z.eqb_spec i j), (Z.eqb_spec (id_of a) i); try done; subst; naive_solver.
Qed.

(** ** Invariant of a pool

    [orig] maps keys to the resources they resolve to, all with ids up to
    [top]; synthetic ids are above it and below the next one. *)
Context (orig : ResourceKey → option T) (top : Z).
Context (Horig_top : ∀ k y, orig k = Some y → id_of y ≤ top).
Context (Horig_inj : ∀ k k' y y', orig k = Some y → orig k' = Some y' →
           id_of y = id_of y' → k = k').

Record pool_inv (syn : gmap string Z) (pool : list T) (next : Z) : Prop := {
  pi_next : top < next;
  pi_syn : ∀ k id, syn !! k = Some id → top < id < next;
  pi_syn_inj : ∀ k k' id, syn !! k = Some id → syn !! k' = Some id → k = k';
  pi_below : ∀ x, x ∈ pool → id_of x < next;
  pi_nodup : NoDup (id_of <$> pool);
}.

Definition addr (syn : gmap string Z) (k : ResourceKey) : option Z :=
  match syn !! k with Some id => Some id | None => id_of <$> orig k end.

Lemma addr_below syn pool next k id :
  pool_inv syn pool next → addr syn k = Some id → id < next.
Proof.
  intros Hp. unfold addr. destruct (syn !! k) as [i|] eqn:Hs.
  - intros [= <-]. by apply (pi_syn _ _ _ Hp) in Hs as [_ ?].
  - destruct (orig k) as [y|] eqn:Ho; [|done]. intros [= <-].
    pose proof (Horig_top _ _ Ho). pose proof (pi_next _ _ _ Hp). lia.
Qed.

Lemma addr_inj syn pool next k k' id :
  pool_inv syn pool next → addr syn k = Some id → addr syn k' = Some id → k = k'.
Proof.
  intros Hp. unfold addr.
  destruct (syn !! k) as [i|] eqn:Hs, (syn !! k') as [i'|] eqn:Hs'.
  - intros [= ->] [= ->]. by eapply pi_syn_inj.
  - destruct (orig k') as [y'|] eqn:Ho'; [|done]. intros [= ->] [= Heq].
    apply (pi_syn _ _ _ Hp) in Hs. apply Horig_top in Ho'. lia.
  - destruct (orig k) as [y|] eqn:Ho; [|done]. intros [= Heq] [= ->].
    apply (pi_syn _ _ _ Hp) in Hs'. apply Horig_top in Ho. lia.
  - destruct (orig k) as [y|] eqn:Ho, (orig k') as [y'|] eqn:Ho'; try done.
    intros [= <-] [= Heq]. by eapply Horig_inj.
Qed.

(** ** What an operation does to a pool *)
Inductive pool_op :=
| PNone
| PCreate (key : ResourceKey) (made : T → Prop)
| PEdit (key : ResourceKey) (edit : (T → T) → Prop)
| PDelete (key : ResourceKey).

Inductive pool_effect (syn : gmap string Z) (pool : list T) (next : Z)
  : pool_op → gmap string Z → list T → Prop :=
| eff_none : pool_effect syn pool next PNone syn pool
| eff_create key (made : T → Prop) x :
    syn !! key = None → orig key = None → made x → id_of x = next →
    pool_effect syn pool next (PCreate key made) (<[key := next]> syn) (pool ++ [x])
| eff_edit key (edit : (T → T) → Prop) f id :
    addr syn key = Some id → edit f → (∀ y, id_of (f y) = id_of y) →
    pool_effect syn pool next (PEdit key edit) syn
      (update_first (λ t, id_of t =? id) f pool)
| eff_delete key id :
    addr syn key = Some id →
    pool_effect syn pool next (PDelete key) syn (filter (λ t, id_of t ≠ id) pool).

Definition is_create (op : pool_op) : bool :=
  match op with PCreate _ _ => true | _ => false end.

Lemma pool_effect_inv syn pool next op syn' pool' next' :
  pool_inv syn pool next → pool_effect syn pool next op syn' pool' →
  next ≤ next' → (is_create op = true → next < next') → pool_inv syn' pool' next'.
Proof.
  intros Hp He Hle Hlt. pose proof Hp as [Hnext Hsyn Hinj Hbelow Hnd].
  assert (Hwk : pool_inv syn pool next').
  { split; [lia| |done| |done]; [|intros x Hx; specialize (Hbelow x Hx); lia].
    intros k id Hk. specialize (Hsyn _ _ Hk). lia. }
  destruct He as [|key made x Hs Ho Hm Hx|key edit f id Ha He Hf|key id Ha]; [done|..].
  - specialize (Hlt eq_refl). split; [lia|..].
    + intros k id. rewrite lookup_insert. case_decide as Hk.
      * intros [= <-]. lia.
      * intros Hid%Hsyn. lia.
    + intros k k' id. rewrite !lookup_insert. repeat case_decide; subst; try done.
      * intros [= <-] Hid%Hsyn. lia.
      * intros Hid%Hsyn [= <-]. lia.
      * by apply Hinj.
    + intros y [Hy%Hbelow| ->%list_elem_of_singleton]%elem_of_app; lia.
    + rewrite fmap_app. apply NoDup_app. split_and!; [done| |apply NoDup_singleton].
      intros i (y & -> & Hy%Hbelow)%list_elem_of_fmap Hi%list_elem_of_singleton. lia.
  - destruct Hwk as [? ? ? Hb ?]. split; [done..| |].
    + intros y [[Hy _]|(z & Hz & _ & ->)]%update_first_elem; [by apply Hb| |done].
      rewrite Hf. by apply Hb.
    + by rewrite update_first_map.
  - destruct Hwk as [? ? ? Hb ?]. split; [done..| |].
    + intros y [_ Hy]%list_elem_of_filter. by apply Hb.
    + eapply sublist_NoDup; [exact Hnd|]. apply fmap_sublist, sublist_filter.
Qed.

Lemma pool_effect_addr syn pool next op syn' pool' k id :
  pool_effect syn pool next op syn' pool' → addr syn k = Some id → addr syn' k = Some id.
Proof.
  intros He. destruct He as [|key made x Hs Ho Hm Hx| |]; try done.
  unfold addr. rewrite lookup_insert. case_decide as Hk; [subst k|done].
  by rewrite Hs, Ho.
Qed.

Lemma pool_effect_addr_None syn pool next op syn' pool' k :
  pool_effect syn pool next op syn' pool' → (∀ made, op ≠ PCreate k made) →
  addr syn k = None → addr syn' k = None.
Proof.
  intros He Hne. destruct He as [|key made x Hs Ho Hm Hx| |]; try done.
  unfold addr. rewrite lookup_insert. case_decide as Hk; [subst k|done].
  by destruct (Hne made).
Qed.

(** ** Facts about one key *)
Definition holds_at (k : ResourceKey) (φ : option T → Prop) (syn : gmap string Z)
  (pool : list T) : Prop :=
  ∃ id, addr syn k = Some id ∧ φ (at_id id pool).

(** The operation keeps [φ] if it happens to be about the key itself. *)
Definition keeps (k : ResourceKey) (φ : option T → Prop) (op : pool_op) : Prop :=
  match op with
  | PNone | PCreate _ _ => True
  | PEdit key edit => key = k → ∀ f o, edit f → φ o → φ (f <$> o)
  | PDelete key => key = k → ∀ o, φ o → φ None
  end.

Lemma holds_at_keeps k φ syn pool next op syn' pool' :
  pool_inv syn pool next → pool_effect syn pool next op syn' pool' → keeps k φ op →
  holds_at k φ syn pool → holds_at k φ syn' pool'.
Proof.
  intros Hp He Hk (id & Ha & Hφ). exists id.
  split; [by eapply pool_effect_addr|].
  destruct He as [|key made x Hs Ho Hm Hx|key edit f id' Ha' He Hf|key id' Ha']; [done|..].
  - pose proof (addr_below _ _ _ _ _ Hp Ha). rewrite at_id_app.
    destruct (at_id id pool); [done|]. by rewrite (proj2 (Z.eqb_neq _ _)) by lia.
  - rewrite at_id_update by done. destruct (Z.eqb_spec id id') as [->|]; [|done].
    apply Hk; [by eapply addr_inj|done..].
  - rewrite at_id_filter. destruct (Z.eqb_spec id id') as [->|]; [|done].
    eapply Hk; [by eapply addr_inj|done].
Qed.

(** The operation of the key itself establishes [φ]. *)
Definition establishes (k : ResourceKey) (φ : option T → Prop) (op : pool_op) : Prop :=
  match op with
  | PNone => False
  | PCreate key made => key = k ∧ ∀ x, made x → φ (Some x)
  | PEdit key edit => key = k ∧ ∀ f o, edit f → φ (f <$> o)
  | PDelete key => key = k ∧ φ None
  end.

Lemma holds_at_establishes k φ syn pool next op syn' pool' :
  pool_inv syn pool next → pool_effect syn pool next op syn' pool' → establishes k φ op →
  holds_at k φ syn' pool'.
Proof.
  intros Hp He Hk.
  destruct He as [|key made x Hs Ho Hm Hx|key edit f id Ha He Hf|key id Ha];
    cbn in Hk; [done|destruct Hk as [-> Hk]..].
  - exists next. split; [unfold addr; by rewrite lookup_insert_eq|].
    rewrite at_id_app, (proj2 (at_id_None _ _)), Hx, Z.eqb_refl; [by apply Hk|].
    intros y Hy%(pi_below _ _ _ Hp). lia.
  - exists id. split; [done|]. rewrite at_id_update, Z.eqb_refl by done. by apply Hk.
  - exists id. split; [done|]. by rewrite at_id_filter, Z.eqb_refl.
Qed.

(** ** Ids below the synthetic ones *)
Lemma missing_id_step i syn pool next op syn' pool' :
  pool_inv syn pool next → pool_effect syn pool next op syn' pool' → i ≤ top →
  at_id i pool = None → at_id i pool' = None.
Proof.
  intros Hp He Hi Hnone.
  destruct He as [|key made x Hs Ho Hm Hx|key edit f id Ha He Hf|key id Ha]; [done|..].
  - rewrite at_id_app, Hnone, (proj2 (Z.eqb_neq _ _)); [done|].
    pose proof (pi_next _ _ _ Hp). lia.
  - rewrite at_id_update, Hnone by done. by destruct (i =? id).
  - rewrite at_id_filter, Hnone. by destruct (i =? id).
Qed.

(** ** Names *)
Context (name_of : T → string).

Definition only_named (k : ResourceKey) (m : string) (syn : gmap string Z) (pool : list T)
  : Prop :=
  ∀ x, x ∈ pool → name_of x = m → addr syn k = Some (id_of x).

(** The operation gives the name [m] to no resource but that of the key. *)
Definition names_apart (k : ResourceKey) (m : string) (op : pool_op) : Prop :=
  match op with
  | PNone | PDelete _ => True
  | PCreate key made => key ≠ k → ∀ x, made x → name_of x ≠ m
  | PEdit key edit => key ≠ k → ∀ f y, edit f → name_of (f y) = m → name_of y = m
  end.

Lemma only_named_step k m syn pool next op syn' pool' :
  pool_inv syn pool next → pool_effect syn pool next op syn' pool' → names_apart k m op →
  only_named k m syn pool → only_named k m syn' pool'.
Proof.
  intros Hp He Hn Hon x Hx Hm.
  assert (Hold : ∀ y, y ∈ pool → name_of y = m → addr syn' k = Some (id_of y)).
  { intros y Hy Hym. by eapply pool_effect_addr, Hon. }
  destruct He as [|key made x' Hs Ho Hmade Hx'|key edit f id Ha He Hf|key id Ha]; [auto|..].
  - apply elem_of_app in Hx as [Hx| ->%list_elem_of_singleton]; [auto|].
    destruct (decide (key = k)) as [->|Hne]; [|by destruct (Hn Hne x')].
    unfold addr. by rewrite lookup_insert_eq, Hx'.
  - apply update_first_elem in Hx as [[Hx _]|(y & Hy & Hid & ->)];
      [auto| |by eapply pi_nodup].
    rewrite Hf. destruct (decide (key = k)) as [->|Hne]; [by rewrite Hid|].
    apply Hold; [done|]. by apply (Hn Hne f).
  - apply list_elem_of_filter in Hx as [_ Hx]. auto.
Qed.

(** ** Matching in the final pool *)
Lemma filter_unique (P : T → Prop) `{∀ x, Decision (P x)} pool x :
  NoDup (id_of <$> pool) → x ∈ pool → P x → (∀ y, y ∈ pool → P y → id_of y = id_of x) →
  filter P pool = [x].
Proof.
  induction pool as [|a pool IH]; [by intros _ ?%not_elem_of_nil|].
  rewrite fmap_cons. intros [Ha Hnd]%NoDup_cons Hin HP Hall.
  assert (Hnone : ∀ y, id_of y = id_of a → y ∈ pool → False).
  { intros y Hy Hin'. apply Ha. rewrite <- Hy. by apply list_elem_of_fmap_2. }
  rewrite filter_cons. apply elem_of_cons in Hin as [->|Hin].
  - rewrite decide_True by done. f_equal. apply elem_of_nil_inv. intros y Hy.
    apply list_elem_of_filter in Hy as [HPy Hy].
    apply (Hnone y); [|done]. apply Hall; [by right|done].
  - rewrite decide_False.
    + apply IH; [done..|]. intros y Hy. apply Hall. by right.
    + intros HPa. apply (Hnone x); [|done]. symmetry. apply Hall; [by left|done].
Qed.

Lemma match_named plural identity k m syn pool id x :
  id_match_by identity = ByName → NoDup (id_of <$> pool) → only_named k m syn pool →
  addr syn k = Some id → at_id id pool = Some x → name_of x = m →
  match_resource name_of id_of plural pool identity (Some m) = Existing x.
Proof.
  intros Hby Hnd Hon Ha Hx Hm. unfold match_resource. rewrite Hby.
  apply at_id_Some in Hx as [Hx Hid].
  rewrite (filter_unique _ _ x Hnd Hx Hm); [done|].
  intros y Hy Hym. specialize (Hon y Hy Hym). congruence.
Qed.

Lemma match_named_missing plural identity k m syn pool :
  id_match_by identity = ByName → only_named k m syn pool →
  (∀ id, addr syn k = Some id → at_id id pool = None) →
  match_resource name_of id_of plural pool identity (Some m) = Missing.
Proof.
  intros Hby Hon Hnone. unfold match_resource. rewrite Hby.
  replace (filter (λ t, name_of t = m) pool) with (@nil T); [done|].
  symmetry. apply elem_of_nil_inv. intros x Hx.
  apply list_elem_of_filter in Hx as [Hm Hin].
  specialize (Hnone _ (Hon x Hin Hm)). by eapply (proj1 (at_id_None _ _) Hnone).
Qed.

Lemma match_explicit plural identity s raw pool name :
  id_match_by identity = ByExplicitId s → parse_u64 s = Some raw →
  match_resource name_of id_of plural pool identity name
  = match at_id raw pool with Some x => Existing x | None => Missing end.
Proof. intros Hby Hs. unfold match_resource. by rewrite Hby, Hs. Qed.
End pool.

(** ** Applying a plan satisfies the document

    Virtual application of the graph planned for a document leads to a guild
    that satisfies the document: planning again over the result proposes nothing.
    The proof follows the run operation by operation ([run_inv], [step_effect])
    and keeps, for every declared resource, a fact its own operation establishes
    and all others preserve. *)

Definition role_pool_op (op : Operation) : pool_op (T := Role) :=
  match op with
  | CreateRole key name permissions =>
      PCreate key (λ x, role_name x = default EmptyString name
                        ∧ role_permissions x = default perms_empty permissions)
  | UpdateRole key name permissions => PEdit key (λ f, f = edit_role name permissions)
  | DeleteRole key => PDelete key
  | _ => PNone
  end.

(** [targets] and [parents] say what overwrite targets and parent keys denote. *)
Definition channel_pool_op (targets : NormalizedTarget → option OverwriteTarget)
  (parents : ResourceKey → option ChannelId) (op : Operation) : pool_op (T := Channel) :=
  match op with
  | CreateChannel key name kind parent =>
      PCreate key (λ x, channel_name x = default EmptyString name
                        ∧ channel_kind x = default Text kind ∧ channel_overwrites x = []
                        ∧ (∀ p, parent = Some p →
                             ∃ id, parents p = Some id ∧ channel_parent_id x = Some id))
  | UpdateChannel key name kind => PEdit key (λ f, f = edit_channel name kind)
  | DeleteChannel key => PDelete key
  | CreateOverwrite channel target allow deny | UpdateOverwrite channel target allow deny =>
      PEdit channel (λ f, ∃ t, targets target = Some t ∧ f = put_overwrite t allow deny)
  | _ => PNone
  end.

Section run.
Context (g : GuildState) (n : NormalizedDesiredState).
Abbreviation R := InMemoryMatchResolver.
Abbreviation Ctx := (ApplyContext R).
Abbreviation role_resolved r := (resolve_role (mkResolver g) (nr_identity r) (nr_name r)).
Abbreviation channel_resolved c :=
  (resolve_channel (mkResolver g) (nc_identity c) (nc_name c)).

Definition orig_role (k : ResourceKey) : option Role :=
  r ← List.find (λ r, String.eqb (id_key (nr_identity r)) k) (nd_roles n);
  match role_resolved r with Existing role => Some role | _ => None end.
Definition orig_channel (k : ResourceKey) : option Channel :=
  c ← List.find (λ c, String.eqb (id_key (nc_identity c)) k) (nd_channels n);
  match channel_resolved c with Existing ch => Some ch | _ => None end.

Abbreviation role_addr := (addr role_id orig_role).
Abbreviation channel_addr := (addr channel_id orig_channel).

Record run_inv (ops : list Operation) (ctx : Ctx) : Prop := {
  ri_roles : pool_inv role_id (max_id g) (synthetic_roles ctx) (gs_roles (after ctx))
               (next_id ctx);
  ri_channels : pool_inv channel_id (max_id g) (synthetic_channels ctx)
                  (gs_channels (after ctx)) (next_id ctx);
  ri_role_den : ∀ k, role_denotation (resources ctx) k = role_addr (synthetic_roles ctx) k;
  ri_channel_den : ∀ k,
    channel_denotation (resources ctx) k = channel_addr (synthetic_channels ctx) k;
  ri_guild_id : ctx_guild_id (resources ctx) = guild_id (gs_guild g);
  ri_guild : gs_guild (after ctx) = gs_guild g;
  ri_room : 0 ≤ next_id ctx ∧ next_id ctx + Z.of_nat (length ops) ≤ u64_max;
  ri_new_roles : NoDup (omap creates_role ops)
    ∧ ∀ k, k ∈ omap creates_role ops → synthetic_roles ctx !! k = None ∧ orig_role k = None;
  ri_new_channels : NoDup (omap creates_channel ops)
    ∧ ∀ k, k ∈ omap creates_channel ops →
           synthetic_channels ctx !! k = None ∧ orig_channel k = None;
}.

Definition role_effect (op : Operation) (ctx ctx' : Ctx) : Prop :=
  pool_effect role_id orig_role (synthetic_roles ctx) (gs_roles (after ctx)) (next_id ctx)
    (role_pool_op op) (synthetic_roles ctx') (gs_roles (after ctx')).
Definition channel_effect (op : Operation) (ctx ctx' : Ctx) : Prop :=
  pool_effect channel_id orig_channel (synthetic_channels ctx) (gs_channels (after ctx))
    (next_id ctx)
    (channel_pool_op (target_denotation (resources ctx)) (channel_denotation (resources ctx')) op)
    (synthetic_channels ctx') (gs_channels (after ctx')).

(** New keys stay new when the operation at the head has run. *)
Lemma new_keys_tail {T} (id_of : T → Z) (orig : string → option T)
  (creates : Operation → option string) op ops pop syn pool next syn' pool' :
  (∀ k made, pop = PCreate k made → creates op = Some k) →
  pool_effect id_of orig syn pool next pop syn' pool' →
  NoDup (omap creates (op :: ops))
  ∧ (∀ k, k ∈ omap creates (op :: ops) → syn !! k = None ∧ orig k = None) →
  NoDup (omap creates ops) ∧ (∀ k, k ∈ omap creates ops → syn' !! k = None ∧ orig k = None).
Proof.
  intros Hcr He [Hnd Hall].
  assert (Hsub : ∀ k, k ∈ omap creates ops → k ∈ omap creates (op :: ops)).
  { intros k Hk. cbn. destruct (creates op); [by right|done]. }
  split.
  - cbn in Hnd. destruct (creates op); [by apply NoDup_cons in Hnd as [_ ?]|done].
  - intros k Hk. destruct (Hall k (Hsub k Hk)) as [Hs Ho]. split; [|done].
    destruct He as [|key made x ? ? ? ?| |]; try done.
    rewrite lookup_insert_ne; [done|]. intros <-.
    cbn in Hnd. rewrite (Hcr key made eq_refl) in Hnd. by apply NoDup_cons in Hnd as [? _].
Qed.

Record step_spec (op : Operation) (ctx ctx' : Ctx) : Prop := {
  ss_roles : role_effect op ctx ctx';
  ss_channels : channel_effect op ctx ctx';
  ss_role_den : ∀ k, role_denotation (resources ctx') k = role_addr (synthetic_roles ctx') k;
  ss_channel_den : ∀ k,
    channel_denotation (resources ctx') k = channel_addr (synthetic_channels ctx') k;
  ss_guild_id : ctx_guild_id (resources ctx') = ctx_guild_id (resources ctx);
  ss_guild : gs_guild (after ctx') = gs_guild (after ctx);
  ss_next : next_id ctx' = next_id ctx ∧ creates_role op = None ∧ creates_channel op = None
            ∨ next_id ctx' = u64_wrapping_add (next_id ctx) 1;
}.

Lemma run_inv_advance op ops (ctx ctx' : Ctx) :
  run_inv (op :: ops) ctx → step_spec op ctx ctx' → run_inv ops ctx'.
Proof.
  intros [Hr Hc Hrd Hcd Hgi Hgu Hroom Hnr Hnc] [Her Hec Hrd' Hcd' Hgi' Hgu' Hn].
  cbn [length] in Hroom. rewrite Nat2Z.inj_succ in Hroom.
  assert (Hnext : next_id ctx' = next_id ctx ∧ creates_role op = None ∧ creates_channel op = None
                  ∨ next_id ctx' = next_id ctx + 1).
  { destruct Hn as [?|Hn]; [by left|right]. rewrite Hn. apply u64_wrapping_add_small; lia. }
  split; [| |done|done|congruence|congruence|lia| |].
  - eapply pool_effect_inv; [exact Hr|exact Her|lia|].
    destruct op; cbn; try done; destruct Hnext as [(_ & ? & _)|]; (done || lia).
  - eapply pool_effect_inv; [exact Hc|exact Hec|lia|].
    destruct op; cbn; try done; destruct Hnext as [(_ & _ & ?)|]; (done || lia).
  - eapply (new_keys_tail role_id orig_role creates_role op); [|exact Her|exact Hnr].
    intros k made. destruct op; cbn; try done. by intros [= -> _].
  - eapply (new_keys_tail channel_id orig_channel creates_channel op); [|exact Hec|exact Hnc].
    intros k made. destruct op; cbn; try done. by intros [= -> _].
Qed.

(** ** One operation *)
Lemma on_resources_Ok {A} (m : Cmd (ResourceResolutionContext R) ResolutionError A)
  (ctx ctx' : Ctx) a :
  on_resources m ctx = (Ok a, ctx') →
  ∃ res, m (resources ctx) = (Ok a, res) ∧ ctx' = put_resources res ctx.
Proof.
  unfold on_resources, cmd_map_err, cmd_zoom.
  destruct (m (resources ctx)) as [[a'|e] res]; cbn; [|done]. intros [= -> <-]. eauto.
Qed.

Lemma role_key_step key (ctx ctx' : Ctx) id :
  on_resources (resolve_role_key key) ctx = (Ok id, ctx') →
  role_denotation (resources ctx) key = Some id
  ∧ ∃ res, same_denotation (resources ctx) res ∧ ctx' = put_resources res ctx.
Proof.
  intros (res & Hm & ->)%on_resources_Ok.
  pose proof (resolve_role_key_denotes key (resources ctx)) as Hd. rewrite Hm in Hd.
  destruct Hd as [Hs Hd]. eauto.
Qed.

Lemma channel_key_step key (ctx ctx' : Ctx) id :
  on_resources (resolve_channel_key key) ctx = (Ok id, ctx') →
  channel_denotation (resources ctx) key = Some id
  ∧ ∃ res, same_denotation (resources ctx) res ∧ ctx' = put_resources res ctx.
Proof.
  intros (res & Hm & ->)%on_resources_Ok.
  pose proof (resolve_channel_key_denotes key (resources ctx)) as Hd. rewrite Hm in Hd.
  destruct Hd as [Hs Hd]. eauto.
Qed.

Lemma target_step target (ctx ctx' : Ctx) t :
  on_resources (resolve_target target) ctx = (Ok t, ctx') →
  target_denotation (resources ctx) target = Some t
  ∧ ∃ res, same_denotation (resources ctx) res ∧ ctx' = put_resources res ctx.
Proof.
  intros (res & Hm & ->)%on_resources_Ok.
  pose proof (resolve_target_denotes target (resources ctx)) as Hd. rewrite Hm in Hd.
  destruct Hd as [Hs Hd]. eauto.
Qed.

(** What the operations leave in the context, in terms of denotations. *)
Lemma overwrite_op_Ok channel target allow deny (ctx ctx' : Ctx) :
  apply_overwrite_op channel target allow deny ctx = (Ok tt, ctx') →
  ∃ id t res, channel_denotation (resources ctx) channel = Some id
    ∧ target_denotation (resources ctx) target = Some t
    ∧ same_denotation (resources ctx) res
    ∧ resources ctx' = res ∧ next_id ctx' = next_id ctx
    ∧ synthetic_roles ctx' = synthetic_roles ctx
    ∧ synthetic_channels ctx' = synthetic_channels ctx
    ∧ after ctx' = set_channels (update_first (λ c, channel_id c =? id)
                     (put_overwrite t allow deny) (gs_channels (after ctx))) (after ctx).
Proof.
  unfold apply_overwrite_op.
  intros (id & c1 & H1 & Hrest)%cmd_bind_Ok_inv.
  apply cmd_bind_Ok_inv in Hrest as (t & c2 & H2 & Hrest).
  apply channel_key_step in H1 as (Hid & res1 & Hs1 & ->).
  apply target_step in H2 as (Ht & res2 & Hs2 & ->). cbn in Ht, Hs2.
  rewrite (target_denotation_same _ _ _ Hs1) in Ht.
  exists id, t, res2. split; [done|]. split; [done|]. split; [by transitivity res1|].
  apply cmd_bind_Ok_inv in Hrest as (c & c3 & [= <- <-] & Hrest). cbn in Hrest.
  destruct (existsb (λ c, channel_id c =? id) _) eqn:Hex; injection Hrest as <-; [done|].
  cbn. split_and!; try done.
  replace (update_first _ _ _) with (gs_channels (after ctx)); [by destruct (after ctx)|].
  induction (gs_channels (after ctx)) as [|c l IH]; cbn in *; [done|].
  apply orb_false_iff in Hex as [-> Hex]. by rewrite <- IH.
Qed.

Lemma overwrite_op_applied channel target allow deny (ctx ctx' : Ctx) :
  apply_overwrite_op channel target allow deny ctx = (Ok tt, ctx') → applied ctx' = applied ctx.
Proof.
  unfold apply_overwrite_op.
  intros (id & c1 & (_ & res1 & _ & ->)%channel_key_step & Hrest)%cmd_bind_Ok_inv.
  apply cmd_bind_Ok_inv in Hrest as (t & c2 & (_ & res2 & _ & ->)%target_step & Hrest).
  apply cmd_bind_Ok_inv in Hrest as (c & c3 & [= <- <-] & Hrest). cbn in Hrest.
  by destruct (existsb (λ c, channel_id c =? id) _); injection Hrest as <-.
Qed.

Lemma addr_bind {T} (id_of : T → Z) orig syn key id k :
  addr id_of orig (<[key := id]> syn) k
  = if decide (key = k) then Some id else addr id_of orig syn k.
Proof. unfold addr. rewrite lookup_insert. by case_decide. Qed.

Section step.
Context (op : Operation) (ops : list Operation) (ctx ctx' : Ctx).
Context (Hinv : run_inv (op :: ops) ctx) (Hstep : apply_operation op ctx = (Ok tt, ctx')).

Lemma step_create_role key name perms :
  op = CreateRole key name perms → step_spec op ctx ctx'.
Proof.
  intros ->. injection Hstep as <-.
  destruct (proj2 (ri_new_roles _ _ Hinv) key) as [Hs Ho]; [by left|].
  split; cbn; [by apply eff_create|apply eff_none| |apply (ri_channel_den _ _ Hinv)|done
              |done|by right].
  intros k. rewrite role_denotation_bind, addr_bind, (ri_role_den _ _ Hinv). done.
Qed.

(** Operations that resolve a role key and edit the vector. *)
Lemma step_role_key key f :
  creates_role op = None → creates_channel op = None →
  (∀ targets parents, channel_pool_op targets parents op = PNone) →
  apply_operation op = (id ← on_resources (resolve_role_key key); modify_roles (f id)) →
  (∀ id, role_addr (synthetic_roles ctx) key = Some id →
     pool_effect role_id orig_role (synthetic_roles ctx) (gs_roles (after ctx)) (next_id ctx)
       (role_pool_op op) (synthetic_roles ctx) (f id (gs_roles (after ctx)))) →
  step_spec op ctx ctx'.
Proof.
  intros Hcr Hcc Hp Heq Heff. rewrite Heq in Hstep.
  apply cmd_bind_Ok_inv in Hstep as (id & c1 & (Hid & res & Hs & ->)%role_key_step & [= <-]).
  destruct Hs as (Hsr & Hsc & Hsg).
  split; cbn; [|unfold channel_effect; rewrite Hp; apply eff_none|..|done|done|by left].
  - apply Heff. by rewrite <- (ri_role_den _ _ Hinv).
  - intros k. by rewrite Hsr, (ri_role_den _ _ Hinv).
  - intros k. by rewrite Hsc, (ri_channel_den _ _ Hinv).
Qed.

Lemma step_channel_key key f :
  creates_role op = None → creates_channel op = None → role_pool_op op = PNone →
  apply_operation op = (id ← on_resources (resolve_channel_key key); modify_channels (f id)) →
  (∀ id parents, channel_addr (synthetic_channels ctx) key = Some id →
     pool_effect channel_id orig_channel (synthetic_channels ctx) (gs_channels (after ctx))
       (next_id ctx) (channel_pool_op (target_denotation (resources ctx)) parents op)
       (synthetic_channels ctx) (f id (gs_channels (after ctx)))) →
  step_spec op ctx ctx'.
Proof.
  intros Hcr Hcc Hp Heq Heff. rewrite Heq in Hstep.
  apply cmd_bind_Ok_inv in Hstep
    as (id & c1 & (Hid & res & Hs & ->)%channel_key_step & [= <-]).
  destruct Hs as (Hsr & Hsc & Hsg).
  split; cbn; [unfold role_effect; rewrite Hp; apply eff_none|..|done|done|by left].
  - apply Heff. by rewrite <- (ri_channel_den _ _ Hinv).
  - intros k. by rewrite Hsr, (ri_role_den _ _ Hinv).
  - intros k. by rewrite Hsc, (ri_channel_den _ _ Hinv).
Qed.

Lemma step_create_channel key name kind parent :
  op = CreateChannel key name kind parent → step_spec op ctx ctx'.
Proof.
  intros ->. destruct (proj2 (ri_new_channels _ _ Hinv) key) as [Hs Ho]; [by left|].
  cbn in Hstep. apply cmd_bind_Ok_inv in Hstep as (id & c1 & [= <- <-] & Hrest).
  apply cmd_bind_Ok_inv in Hrest as (u & c2 & [= <- <-] & Hrest).
  apply cmd_bind_Ok_inv in Hrest as (pid & c3 & Hpar & [= <-]).
  assert (∃ res, c3 = put_resources res (insert_synthetic_channel key (next_id ctx)
            (mkApply (after ctx) (resources ctx) (u64_wrapping_add (next_id ctx) 1)
               (synthetic_roles ctx) (synthetic_channels ctx) (applied ctx) (warnings ctx)))
          ∧ same_denotation (bind_channel key (next_id ctx) (resources ctx)) res
          ∧ (∀ p, parent = Some p → ∃ id, channel_denotation res p = Some id ∧ pid = Some id))
    as (res & -> & (Hsr & Hsc & Hsg) & Hpid).
  { destruct parent as [pk|]; [|injection Hpar as <- <-; by eexists].
    apply cmd_bind_Ok_inv in Hpar as (p & c4 & Hp & [= <- <-]).
    apply channel_key_step in Hp as (Hp & res & Hs' & ->). eexists.
    split_and!; [done..|]. intros p' [= <-]. exists p. cbn in Hp. destruct Hs' as (_ & -> & _). done. }
  split; cbn; [apply eff_none|by apply eff_create|..|done|done|by right].
  - intros k. rewrite Hsr. apply (ri_role_den _ _ Hinv).
  - intros k. by rewrite Hsc, channel_denotation_bind, addr_bind, (ri_channel_den _ _ Hinv).
Qed.

Lemma step_overwrite ch t a d :
  apply_operation op = apply_overwrite_op ch t a d →
  creates_role op = None → creates_channel op = None → role_pool_op op = PNone →
  (∀ parents, channel_pool_op (target_denotation (resources ctx)) parents op
     = PEdit ch (λ f, ∃ t', target_denotation (resources ctx) t = Some t'
                            ∧ f = put_overwrite t' a d)) →
  step_spec op ctx ctx'.
Proof.
  intros Heq Hcr Hcc Hpr Hpc. rewrite Heq in Hstep.
  apply overwrite_op_Ok in Hstep
    as (id & t' & res & Hid & Ht & (Hsr & Hsc & Hsg) & Hres & Hn & Hyr & Hyc & Hafter).
  rewrite (ri_channel_den _ _ Hinv) in Hid.
  split; unfold role_effect, channel_effect;
    rewrite ?Hpr, ?Hpc, ?Hyr, ?Hyc, ?Hafter, ?Hres, ?Hn; cbn; [apply eff_none|..|done|done|by left].
  - apply eff_edit; [done|by eauto|done].
  - intros k. by rewrite Hsr, (ri_role_den _ _ Hinv).
  - intros k. by rewrite Hsc, (ri_channel_den _ _ Hinv).
Qed.
End step.

Lemma step_effect op ops (ctx ctx' : Ctx) :
  run_inv (op :: ops) ctx → apply_operation op ctx = (Ok tt, ctx') → step_spec op ctx ctx'.
Proof.
  intros Hinv Hop. destruct op as [key name perms|key name perms|key|key name kind parent
                                  |key name kind|key|ch t a d|ch t a d].
  - by eapply step_create_role.
  - eapply (step_role_key _ _ _ _ Hinv Hop key); [done..|]. intros id Ha. by apply eff_edit.
  - eapply (step_role_key _ _ _ _ Hinv Hop key); [done..|]. intros id Ha. by apply eff_delete.
  - by eapply step_create_channel.
  - eapply (step_channel_key _ _ _ _ Hinv Hop key); [done..|]. intros id parents Ha. by apply eff_edit.
  - eapply (step_channel_key _ _ _ _ Hinv Hop key); [done..|]. intros id parents Ha. by apply eff_delete.
  - by eapply step_overwrite.
  - by eapply step_overwrite.
Qed.

(** ** Whole runs *)
Inductive steps : list Operation → Ctx → Ctx → Prop :=
| steps_nil ctx : steps [] ctx ctx
| steps_cons op ops ctx ctx1 ctx2 id :
    apply_operation op ctx = (Ok tt, ctx1) → steps ops (push_applied id ctx1) ctx2 →
    steps (op :: ops) ctx ctx2.

Definition scheduled (nodes : list OperationNode) (order : list OpId) : list Operation :=
  omap (λ id, node_operation <$> List.find (λ node, node_id node =? id) nodes) order.

Lemma apply_all_steps nodes order (ctx ctx' : Ctx) u :
  apply_all nodes order ctx = (Ok u, ctx') → steps (scheduled nodes order) ctx ctx'.
Proof.
  revert ctx. induction order as [|id order IH]; intros ctx; cbn.
  { intros [= _ <-]. constructor. }
  destruct (List.find _ nodes) as [node|]; cbn; [|by apply IH].
  intros ([] & c1 & Hop & (v & c2 & [= _ <-] & Hrest)%cmd_bind_Ok_inv)%cmd_bind_Ok_inv.
  econstructor; [exact Hop|]. by apply IH.
Qed.

(** Operations do not touch the log of applied ids. *)
Lemma apply_operation_applied op (ctx ctx' : Ctx) u :
  apply_operation op ctx = (Ok u, ctx') → applied ctx' = applied ctx.
Proof.
  destruct u. destruct op as [key name perms|key name perms|key|key name kind parent
                                  |key name kind|key|ch t a d|ch t a d]; cbn.
  - by intros [= <-].
  - intros (id & c1 & (_ & res & _ & ->)%role_key_step & [= <-])%cmd_bind_Ok_inv. done.
  - intros (id & c1 & (_ & res & _ & ->)%role_key_step & [= <-])%cmd_bind_Ok_inv. done.
  - intros (id & c1 & [= <- <-] & (v & c2 & [= <- <-] & Hr)%cmd_bind_Ok_inv)%cmd_bind_Ok_inv.
    apply cmd_bind_Ok_inv in Hr as (p & c3 & Hp & [= <-]). cbn.
    destruct parent as [pk|]; [|by injection Hp as <- <-].
    apply cmd_bind_Ok_inv in Hp as (q & c4 & (_ & res & _ & ->)%channel_key_step & [= <- <-]).
    done.
  - intros (id & c1 & (_ & res & _ & ->)%channel_key_step & [= <-])%cmd_bind_Ok_inv. done.
  - intros (id & c1 & (_ & res & _ & ->)%channel_key_step & [= <-])%cmd_bind_Ok_inv. done.
  - by apply overwrite_op_applied.
  - by apply overwrite_op_applied.
Qed.

Lemma apply_all_applied nodes order (ctx ctx' : Ctx) u :
  apply_all nodes order ctx = (Ok u, ctx') → (∀ id, id ∈ order → id ∈ graph_ids nodes) →
  applied ctx' = applied ctx ++ order.
Proof.
  revert ctx. induction order as [|id order IH]; intros ctx; cbn.
  { intros [= _ <-] _. by rewrite app_nil_r. }
  intros Hrun Hin.
  destruct (List.find (λ n, node_id n =? id) nodes) as [node|] eqn:Hf.
  - apply cmd_bind_Ok_inv in Hrun as (v & c1 & Hop & Hrun).
    apply cmd_bind_Ok_inv in Hrun as (w & c2 & [= _ <-] & Hrun).
    apply IH in Hrun; [|intros; apply Hin; by right].
    rewrite Hrun. cbn. rewrite (apply_operation_applied _ _ _ _ Hop).
    by rewrite <- app_assoc.
  - destruct (proj1 (list_elem_of_fmap _ _ _) (Hin id (list_elem_of_here _ _))) as (node & -> & Hn).
    apply list_elem_of_In, (find_none _ _ Hf) in Hn. by rewrite Z.eqb_refl in Hn.
Qed.

Lemma omap_map {A B C} (f : B → option C) (key : A → B) (h : A → C) (l : list A) :
  (∀ x, x ∈ l → f (key x) = Some (h x)) → omap f (key <$> l) = h <$> l.
Proof.
  induction l as [|x l IH]; cbn; intros Hf; [done|].
  rewrite (Hf x) by (by left). f_equal. apply IH. intros y Hy. apply Hf. by right.
Qed.

Lemma scheduled_perm nodes order :
  NoDup (graph_ids nodes) → order ≡ₚ graph_ids nodes →
  scheduled nodes order ≡ₚ node_operation <$> nodes.
Proof.
  intros Hnd Hperm. unfold scheduled. rewrite Hperm. unfold graph_ids.
  erewrite (omap_map _ _ node_operation); [done|].
  intros node Hin. cbn.
  by rewrite (proj2 (find_key_elem node_id nodes (node_id node) node Hnd)).
Qed.

Lemma run_inv_push ops id (ctx : Ctx) : run_inv ops ctx → run_inv ops (push_applied id ctx).
Proof. by intros [? ? ? ? ? ? ? ? ?]; split. Qed.

Lemma steps_inv ops (ctx ctx' : Ctx) : steps ops ctx ctx' → run_inv ops ctx → run_inv [] ctx'.
Proof.
  induction 1 as [|op ops ctx c1 c2 id Hop Hs IH]; [done|].
  intros Hinv. apply IH, run_inv_push. eapply run_inv_advance; [done|].
  by eapply step_effect.
Qed.

(** A fact about the pools that every planned operation preserves holds at the
    end of a run if it held at the start or some operation establishes it. *)
Definition pool_fact : Type :=
  ResourceResolutionContext R → gmap string Z → list Role → gmap string Z → list Channel → Prop.
Definition holds (Q : pool_fact) (ctx : Ctx) : Prop :=
  Q (resources ctx) (synthetic_roles ctx) (gs_roles (after ctx)) (synthetic_channels ctx)
    (gs_channels (after ctx)).

Definition preserved_by (Q : pool_fact) (op : Operation) : Prop :=
  ∀ ops ctx ctx', run_inv (op :: ops) ctx → step_spec op ctx ctx' → run_inv ops ctx' →
  holds Q ctx → holds Q ctx'.
Definition established_by (Q : pool_fact) (op : Operation) : Prop :=
  ∀ ops ctx ctx', run_inv (op :: ops) ctx → step_spec op ctx ctx' → run_inv ops ctx' →
  holds Q ctx'.

Lemma steps_holds Q ops (ctx ctx' : Ctx) :
  steps ops ctx ctx' → run_inv ops ctx → Forall (preserved_by Q) ops →
  holds Q ctx ∨ Exists (established_by Q) ops → holds Q ctx'.
Proof.
  induction 1 as [|op ops ctx c1 c2 id Hop Hs IH].
  { intros _ _ [?|[]%Exists_nil]; done. }
  intros Hinv [Hpr Hall]%Forall_cons Hq.
  pose proof (step_effect _ _ _ _ Hinv Hop) as Hspec.
  pose proof (run_inv_advance _ _ _ _ Hinv Hspec) as Hinv1.
  apply IH; [by apply run_inv_push|done|].
  destruct Hq as [Hq|[He|He]%Exists_cons].
  - left. by eapply (Hpr ops ctx c1).
  - left. by eapply (He ops ctx c1).
  - by right.
Qed.
End run.
