(* ===== verification/PlanSatisfied.v ===== *)
(** * Plans converge

    The end-to-end statement over [PlanApply]: for an unambiguous document the
    guild a virtual application produces satisfies the document. *)

From Stdlib Require Import ZArith Lia String.
From stdpp Require Import base decidable list strings gmap sorting.
From S2P Require Import Prelude RustStd DiscordModel DesiredState DesiredCompiler DiffEngine.
From S2P Require Import OperationGraph GraphOrder GraphCompile Resolution VirtualApply Plan.
From S2P Require Import PlanApply.
Open Scope Z_scope.

(** ** Unambiguous documents

    No two declared resources may be matched to the same name or resource,
    explicit ids are ids the guild has allocated, and overwrites of a channel go
    to distinct targets that stay. *)
Section unambiguous.
Context (g : GuildState) (n : NormalizedDesiredState).
Abbreviation role_resolved r := (resolve_role (mkResolver g) (nr_identity r) (nr_name r)).
Abbreviation channel_resolved c :=
  (resolve_channel (mkResolver g) (nc_identity c) (nc_name c)).

Record unambiguous : Prop := {
  un_role_names : ∀ r r', r ∈ nd_roles n → r' ∈ nd_roles n →
    id_match_by (nr_identity r) = ByName → nr_name r = nr_name r' →
    id_key (nr_identity r) = id_key (nr_identity r');
  un_role_alias : ∀ r r' y y', r ∈ nd_roles n → r' ∈ nd_roles n →
    role_resolved r = Existing y → role_resolved r' = Existing y' →
    role_id y = role_id y' → id_key (nr_identity r) = id_key (nr_identity r');
  un_role_ids : ∀ r s raw, r ∈ nd_roles n → id_match_by (nr_identity r) = ByExplicitId s →
    parse_u64 s = Some raw → raw ≤ max_id g;
  un_channel_names : ∀ c c', c ∈ nd_channels n → c' ∈ nd_channels n →
    id_match_by (nc_identity c) = ByName → nc_name c = nc_name c' →
    id_key (nc_identity c) = id_key (nc_identity c');
  un_channel_alias : ∀ c c' y y', c ∈ nd_channels n → c' ∈ nd_channels n →
    channel_resolved c = Existing y → channel_resolved c' = Existing y' →
    channel_id y = channel_id y' → id_key (nc_identity c) = id_key (nc_identity c');
  un_channel_ids : ∀ c s raw, c ∈ nd_channels n →
    id_match_by (nc_identity c) = ByExplicitId s → parse_u64 s = Some raw → raw ≤ max_id g;
  un_overwrite_roles : ∀ c o k, c ∈ nd_channels n → o ∈ nc_overwrites c →
    no_target o = NRole k →
    ∃ r, r ∈ nd_roles n ∧ id_key (nr_identity r) = k ∧ id_state (nr_identity r) = Present
      ∧ ∀ y, role_resolved r = Existing y → role_id y ≠ guild_id (gs_guild g);
  un_overwrite_members : ∀ c o o' s s', c ∈ nd_channels n →
    o ∈ nc_overwrites c → o' ∈ nc_overwrites c →
    no_target o = NMember s → no_target o' = NMember s' → parse_u64 s = parse_u64 s' → s = s';
}.
End unambiguous.

(** The parents of channels are declared, and wanted present. *)
Definition parents_declared (n : NormalizedDesiredState) : Prop :=
  ∀ c p, c ∈ nd_channels n → nc_parent c = Some p →
  ∃ c', c' ∈ nd_channels n ∧ id_key (nc_identity c') = p ∧ id_state (nc_identity c') = Present.

(** ** Original resources *)
Lemma foldl_max_ge {A} (f : A → Z) l m : m ≤ foldl (λ m x, Z.max m (f x)) m l.
Proof.
  revert m. induction l as [|x l IH]; intros m; cbn; [lia|]. etransitivity; [|apply IH]. lia.
Qed.

Lemma foldl_max_elem {A} (f : A → Z) l m x :
  x ∈ l → f x ≤ foldl (λ m x, Z.max m (f x)) m l.
Proof.
  revert m. induction l as [|y l IH]; intros m; [by intros ?%not_elem_of_nil|].
  intros [->|Hin]%elem_of_cons; cbn; [|by apply IH].
  etransitivity; [|apply foldl_max_ge]. lia.
Qed.

Lemma max_id_roles g r : r ∈ gs_roles g → role_id r ≤ max_id g.
Proof.
  intros Hin. unfold max_id. etransitivity; [|apply foldl_max_ge].
  by apply (foldl_max_elem role_id).
Qed.

Lemma max_id_channels g c : c ∈ gs_channels g → channel_id c ≤ max_id g.
Proof. apply (foldl_max_elem channel_id). Qed.

Lemma max_id_guild g : guild_id (gs_guild g) ≤ max_id g.
Proof. unfold max_id. etransitivity; [|apply foldl_max_ge]. apply foldl_max_ge. Qed.

Lemma match_resource_existing {T} (name_of : T → string) id_of plural pool identity name x :
  match_resource name_of id_of plural pool identity name = Existing x →
  x ∈ pool
  ∧ match id_match_by identity with
    | ByName => ∃ m, name = Some m ∧ filter (λ t, name_of t = m) pool = [x]
    | ByExplicitId s => ∃ raw, parse_u64 s = Some raw ∧ at_id id_of raw pool = Some x
    end.
Proof.
  unfold match_resource. destruct (id_match_by identity) as [|s].
  - destruct name as [m|]; [|done]. destruct (filter _ pool) as [|y [|]] eqn:Hf; try done.
    intros [= ->]. split; [|eauto].
    assert (x ∈ filter (λ t, name_of t = m) pool) as Hx by (rewrite Hf; by left).
    by apply list_elem_of_filter in Hx as [_ ?].
  - destruct (parse_u64 s) as [raw|]; [|done]. destruct (List.find _ pool) eqn:Hf; [|done].
    intros [= ->]. split; [|eauto]. by apply (at_id_Some id_of raw) in Hf as [? _].
Qed.

Lemma match_resource_missing {T} (name_of : T → string) id_of plural pool identity name :
  match_resource name_of id_of plural pool identity name = Missing →
  match id_match_by identity with
  | ByName => ∃ m, name = Some m ∧ filter (λ t, name_of t = m) pool = []
  | ByExplicitId s => ∃ raw, parse_u64 s = Some raw ∧ at_id id_of raw pool = None
  end.
Proof.
  unfold match_resource. destruct (id_match_by identity) as [|s].
  - destruct name as [m|]; [|done]. destruct (filter _ pool) as [|y [|]] eqn:Hf; try done. eauto.
  - destruct (parse_u64 s) as [raw|]; [|done]. destruct (List.find _ pool) eqn:Hf; [done|]. eauto.
Qed.

Section satisfied.
Context (g : GuildState) (n : NormalizedDesiredState) (graph : OperationGraph).
Context (Hwf : guild_wf g) (Hkeys : keys_distinct n) (Htargets : targets_distinct n).
Context (Hun : unambiguous g n) (Hparents : parents_declared n).
Context (Hcompile : compile_operations (diff (mkResolver g) n) n = Ok graph).

Abbreviation R := InMemoryMatchResolver.
Abbreviation Ctx := (ApplyContext R).
Abbreviation role_resolved r := (resolve_role (mkResolver g) (nr_identity r) (nr_name r)).
Abbreviation channel_resolved c :=
  (resolve_channel (mkResolver g) (nc_identity c) (nc_name c)).
Abbreviation role_key r := (id_key (nr_identity r)).
Abbreviation channel_key c := (id_key (nc_identity c)).
Abbreviation planned := (required (mkResolver g) n).

Lemma orig_role_of r :
  r ∈ nd_roles n →
  orig_role g n (role_key r) = match role_resolved r with Existing y => Some y | _ => None end.
Proof.
  intros Hr. unfold orig_role.
  by rewrite (find_eqb_Some (λ r, id_key (nr_identity r))) by (done || apply Hkeys).
Qed.

Lemma orig_channel_of c :
  c ∈ nd_channels n →
  orig_channel g n (channel_key c)
  = match channel_resolved c with Existing y => Some y | _ => None end.
Proof.
  intros Hc. unfold orig_channel.
  by rewrite (find_eqb_Some (λ c, id_key (nc_identity c))) by (done || apply Hkeys).
Qed.

Lemma orig_role_inv k y :
  orig_role g n k = Some y → ∃ r, r ∈ nd_roles n ∧ role_key r = k ∧ role_resolved r = Existing y.
Proof.
  unfold orig_role. destruct (List.find _ _) as [r|] eqn:Hf; cbn; [|done].
  apply find_some in Hf as [Hin%list_elem_of_In Hk%String.eqb_eq].
  destruct (match_resource _ _ _ _ _ _) eqn:Hres; [|done..]. intros [= ->]. eauto.
Qed.

Lemma orig_channel_inv k y :
  orig_channel g n k = Some y →
  ∃ c, c ∈ nd_channels n ∧ channel_key c = k ∧ channel_resolved c = Existing y.
Proof.
  unfold orig_channel. destruct (List.find _ _) as [r|] eqn:Hf; cbn; [|done].
  apply find_some in Hf as [Hin%list_elem_of_In Hk%String.eqb_eq].
  destruct (match_resource _ _ _ _ _ _) eqn:Hres; [|done..]. intros [= ->]. eauto.
Qed.

Lemma orig_role_top k y : orig_role g n k = Some y → role_id y ≤ max_id g.
Proof.
  intros (r & _ & _ & [Hin _]%match_resource_existing)%orig_role_inv. by apply max_id_roles.
Qed.
Lemma orig_channel_top k y : orig_channel g n k = Some y → channel_id y ≤ max_id g.
Proof.
  intros (r & _ & _ & [Hin _]%match_resource_existing)%orig_channel_inv.
  by apply max_id_channels.
Qed.
Lemma orig_role_inj k k' y y' :
  orig_role g n k = Some y → orig_role g n k' = Some y' → role_id y = role_id y' → k = k'.
Proof.
  intros (r & Hr & <- & Hy)%orig_role_inv (r' & Hr' & <- & Hy')%orig_role_inv.
  by apply (un_role_alias _ _ Hun).
Qed.
Lemma orig_channel_inj k k' y y' :
  orig_channel g n k = Some y → orig_channel g n k' = Some y' →
  channel_id y = channel_id y' → k = k'.
Proof.
  intros (r & Hr & <- & Hy)%orig_channel_inv (r' & Hr' & <- & Hy')%orig_channel_inv.
  by apply (un_channel_alias _ _ Hun).
Qed.

Lemma channel_by_key c c' :
  c ∈ nd_channels n → c' ∈ nd_channels n → channel_key c = channel_key c' → c = c'.
Proof.
  intros Hc Hc' Heq.
  pose proof (find_eqb_Some (λ c, id_key (nc_identity c)) _ _ (kd_channels _ Hkeys) Hc) as H1.
  pose proof (find_eqb_Some (λ c, id_key (nc_identity c)) _ _ (kd_channels _ Hkeys) Hc') as H2.
  cbn in H1, H2. rewrite Heq in H1. congruence.
Qed.

Lemma conflict_free : conflicts (diff (mkResolver g) n) = [].
Proof. by apply compile_operations_inv in Hcompile as [? _]. Qed.

(** ** Facts about roles *)
Definition role_fact (k : ResourceKey) (φ : option Role → Prop) : pool_fact :=
  λ _ syn pool _ _, holds_at role_id (orig_role g n) k φ syn pool.
Definition role_named (k : ResourceKey) (m : string) : pool_fact :=
  λ _ syn pool _ _, only_named role_id (orig_role g n) role_name k m syn pool.

Lemma role_fact_preserved k φ op :
  keeps k φ (role_pool_op op) → preserved_by g n (role_fact k φ) op.
Proof.
  intros Hk ops ctx ctx' Hinv Hspec _ Hq.
  eapply holds_at_keeps; [exact orig_role_top|exact orig_role_inj|apply (ri_roles _ _ _ _ Hinv)
                         |apply (ss_roles _ _ _ _ _ Hspec)|done|done].
Qed.

Lemma role_fact_established k φ op :
  establishes k φ (role_pool_op op) → established_by g n (role_fact k φ) op.
Proof.
  intros Hk ops ctx ctx' Hinv Hspec _.
  eapply holds_at_establishes; [apply (ri_roles _ _ _ _ Hinv)
                               |apply (ss_roles _ _ _ _ _ Hspec)|done].
Qed.

Lemma role_named_preserved k m op :
  names_apart role_name k m (role_pool_op op) → preserved_by g n (role_named k m) op.
Proof.
  intros Hk ops ctx ctx' Hinv Hspec _ Hq.
  eapply only_named_step; [apply (ri_roles _ _ _ _ Hinv)
                          |apply (ss_roles _ _ _ _ _ Hspec)|done|done].
Qed.

(** Planned role operations carry the declared fields. *)
Lemma planned_role_keeps r φ op :
  r ∈ nd_roles n → planned op →
  (id_state (nr_identity r) = Present →
   ∀ y, φ (Some y) → φ (Some (edit_role (nr_name r) (nr_permissions r) y))) →
  (id_state (nr_identity r) = Absent → ∀ o, φ o → φ None) →
  keeps (role_key r) φ (role_pool_op op).
Proof.
  intros Hr Hreq Hedit Hdel.
  destruct Hreq as [|r' cur Hr' [Hs _] _ _|r' cur Hr' [Hs _] _| | | | | |]; cbn; try done.
  - intros Hk f o -> Hφ. apply (role_by_key n) in Hk; [subst r'|done..].
    destruct o as [y|]; [|done]. by apply Hedit.
  - intros Hk o Hφ. apply (role_by_key n) in Hk; [subst r'|done..]. by eapply Hdel.
Qed.

Lemma planned_role_names r m op :
  r ∈ nd_roles n → id_match_by (nr_identity r) = ByName → nr_name r = Some m → planned op →
  names_apart role_name (role_key r) m (role_pool_op op).
Proof.
  intros Hr Hby Hm Hreq. destruct Hreq as [r' Hr' Hown Hres|r' cur Hr' Hown Hres _| | | | | | |];
    cbn; try done.
  - intros Hne x [Hx _] Hxm. apply Hne.
    pose proof (proj1 (conflict_free_parts _ _ conflict_free) r' Hr') as Hcf.
    apply conflict_free_role in Hcf as (_ & Hby' & _).
    destruct (Hby' (proj1 Hown) Hres) as [_ Hn].
    apply match_resource_missing in Hres. rewrite Hn in Hres.
    destruct Hres as (m' & Hm' & _). rewrite Hm' in Hx. cbn in Hx.
    symmetry. apply (un_role_names _ _ Hun); [done..|congruence].
  - intros Hne f y -> Hy. cbn in Hy. destruct (nr_name r') as [m'|] eqn:Hm'; [|done].
    cbn in Hy. subst m'. destruct Hne. symmetry.
    apply (un_role_names _ _ Hun); [done..|congruence].
Qed.

(** ** Facts about channels *)
Definition channel_fact (k : ResourceKey) (φ : option Channel → Prop) : pool_fact :=
  λ _ _ _ syn pool, holds_at channel_id (orig_channel g n) k φ syn pool.
Definition channel_named (k : ResourceKey) (m : string) : pool_fact :=
  λ _ _ _ syn pool, only_named channel_id (orig_channel g n) channel_name k m syn pool.

Lemma channel_fact_preserved k φ op :
  (∀ targets parents, keeps k φ (channel_pool_op targets parents op)) → preserved_by g n (channel_fact k φ) op.
Proof.
  intros Hk ops ctx ctx' Hinv Hspec _ Hq.
  eapply holds_at_keeps; [exact orig_channel_top|exact orig_channel_inj|apply (ri_channels _ _ _ _ Hinv)
                         |apply (ss_channels _ _ _ _ _ Hspec)|done|done].
Qed.

Lemma channel_fact_established k φ op :
  (∀ targets parents, establishes k φ (channel_pool_op targets parents op)) → established_by g n (channel_fact k φ) op.
Proof.
  intros Hk ops ctx ctx' Hinv Hspec _.
  eapply holds_at_establishes; [apply (ri_channels _ _ _ _ Hinv)
                               |apply (ss_channels _ _ _ _ _ Hspec)|done].
Qed.

Lemma channel_named_preserved k m op :
  (∀ targets parents, names_apart channel_name k m (channel_pool_op targets parents op)) → preserved_by g n (channel_named k m) op.
Proof.
  intros Hk ops ctx ctx' Hinv Hspec _ Hq.
  eapply only_named_step; [apply (ri_channels _ _ _ _ Hinv)
                          |apply (ss_channels _ _ _ _ _ Hspec)|done|done].
Qed.

(** Planned channel operations carry the declared fields. *)
Lemma planned_channel_keeps c φ op targets parents :
  c ∈ nd_channels n → planned op →
  (id_state (nc_identity c) = Present →
   ∀ y, φ (Some y) → φ (Some (edit_channel (nc_name c) (nc_channel_type c) y))) →
  (∀ t a d y, φ (Some y) → φ (Some (put_overwrite t a d y))) →
  (id_state (nc_identity c) = Absent → ∀ o, φ o → φ None) →
  keeps (channel_key c) φ (channel_pool_op targets parents op).
Proof.
  intros Hc Hreq Hedit Hput Hdel.
  assert (Hown : ∀ key t a d, keeps (channel_key c) φ
    (PEdit key (λ f, ∃ t', targets t = Some t' ∧ f = put_overwrite t' a d))).
  { intros key t a d _ f o (t' & _ & ->) Hφ. destruct o; [by apply Hput|done]. }
  destruct Hreq as [| | | |c' cur Hc' [Hs _] _ _|c' cur Hc' [Hs _] _| | |];
    try done; try apply Hown.
  - intros Hk f o -> Hφ. apply channel_by_key in Hk; [subst c'|done..].
    destruct o as [y|]; [|done]. by apply Hedit.
  - intros Hk o Hφ. apply channel_by_key in Hk; [subst c'|done..]. by eapply Hdel.
Qed.

Lemma planned_channel_names c m op targets parents :
  c ∈ nd_channels n → id_match_by (nc_identity c) = ByName → nc_name c = Some m →
  planned op → names_apart channel_name (channel_key c) m (channel_pool_op targets parents op).
Proof.
  intros Hc Hby Hm Hreq.
  destruct Hreq as [| | |c' Hc' Hown Hres|c' cur Hc' Hown Hres _| | | |];
    cbn; try done; try (by intros _ f y (t & _ & ->)).
  - intros Hne x (Hx & _ & _) Hxm. apply Hne.
    pose proof (proj2 (conflict_free_parts _ _ conflict_free) c' Hc') as Hcf.
    apply conflict_free_channel in Hcf as (_ & Hby' & _).
    destruct (Hby' (proj1 Hown) Hres) as [_ Hn].
    apply match_resource_missing in Hres. rewrite Hn in Hres.
    destruct Hres as (m' & Hm' & _). rewrite Hm' in Hx. cbn in Hx.
    symmetry. apply (un_channel_names _ _ Hun); [done..|congruence].
  - intros Hne f y -> Hy. cbn in Hy. destruct (nc_name c') as [m'|] eqn:Hm'; [|done].
    cbn in Hy. subst m'. destruct Hne. symmetry.
    apply (un_channel_names _ _ Hun); [done..|congruence].
Qed.

(** ** Facts about overwrites *)
Lemma find_put_overwrite t t' a d ch :
  find_current_overwrite (put_overwrite t' a d ch) (Some t)
  = if decide (t' = t) then Some (mkOverwrite t a d) else find_current_overwrite ch (Some t).
Proof.
  unfold find_current_overwrite; cbn.
  induction (channel_overwrites ch) as [|o l IH].
  { cbn. case_bool_decide; case_decide; subst; done. }
  rewrite filter_cons. destruct (decide (ow_target o ≠ t')) as [Ho|Ho]; cbn [app List.find].
  - case_bool_decide as Ht; [|exact IH]. by rewrite decide_False by congruence.
  - apply dec_stable in Ho. rewrite IH. case_decide as Ht; [done|].
    by rewrite bool_decide_eq_false_2 by congruence.
Qed.

Definition has_overwrite (t : OverwriteTarget) (a d : Permissions) (o : option Channel) : Prop :=
  ∀ ch, o = Some ch → find_current_overwrite ch (Some t) = Some (mkOverwrite t a d).

Definition overwrite_fact (c : NormalizedChannel) (o : NormalizedOverwrite) : pool_fact :=
  λ res _ _ syn pool, ∃ t, target_denotation res (no_target o) = Some t
    ∧ holds_at channel_id (orig_channel g n) (channel_key c)
        (has_overwrite t (no_allow o) (no_deny o)) syn pool.

Lemma target_stable op ops (ctx ctx' : Ctx) target t :
  run_inv g n (op :: ops) ctx → step_spec g n op ctx ctx' →
  target_denotation (resources ctx) target = Some t →
  target_denotation (resources ctx') target = Some t.
Proof.
  intros Hinv Hspec. destruct target as [|k|id]; cbn; [|..|done].
  - by rewrite (ss_guild_id _ _ _ _ _ Hspec).
  - rewrite (ri_role_den _ _ _ _ Hinv), (ss_role_den _ _ _ _ _ Hspec).
    intros (id & Ha & ->)%fmap_Some.
    by rewrite (pool_effect_addr _ _ _ _ _ _ _ _ _ _ (ss_roles _ _ _ _ _ Hspec) Ha).
Qed.

Lemma role_addr_not_everyone ops (ctx : Ctx) c o k :
  run_inv g n ops ctx → c ∈ nd_channels n → o ∈ nc_overwrites c → no_target o = NRole k →
  addr role_id (orig_role g n) (synthetic_roles ctx) k ≠ Some (guild_id (gs_guild g)).
Proof.
  intros Hinv Hc Ho Ht. unfold addr. destruct (synthetic_roles ctx !! k) as [id|] eqn:Hs.
  - apply (pi_syn _ _ _ _ _ (ri_roles _ _ _ _ Hinv)) in Hs.
    pose proof (max_id_guild g). intros [= ->]. lia.
  - destruct (un_overwrite_roles _ _ Hun c o k Hc Ho Ht) as (r & Hr & <- & _ & Hne).
    rewrite orig_role_of by done. destruct (role_resolved r); [|done..].
    intros [= Heq]. by eapply Hne.
Qed.

Lemma target_inj ops (ctx : Ctx) c o o' t :
  run_inv g n ops ctx → c ∈ nd_channels n → o ∈ nc_overwrites c → o' ∈ nc_overwrites c →
  target_denotation (resources ctx) (no_target o) = Some t →
  target_denotation (resources ctx) (no_target o') = Some t → no_target o = no_target o'.
Proof.
  intros Hinv Hc Ho Ho'.
  pose proof (λ k, role_addr_not_everyone ops ctx c o k Hinv Hc Ho) as Hne.
  pose proof (λ k, role_addr_not_everyone ops ctx c o' k Hinv Hc Ho') as Hne'.
  pose proof (un_overwrite_members _ _ Hun c o o') as Hm.
  destruct (no_target o) as [|k|s], (no_target o') as [|k'|s']; cbn; try done;
    rewrite ?(ri_role_den _ _ _ _ Hinv), ?(ri_guild_id _ _ _ _ Hinv).
  - intros [= <-] (id & Ha & [= Heq])%fmap_Some. destruct (Hne' k'); congruence.
  - intros [= <-] (id & _ & ?)%fmap_Some. done.
  - intros (id & Ha & ->)%fmap_Some [= Heq]. destruct (Hne k); congruence.
  - intros (id & Ha & ->)%fmap_Some (id' & Ha' & [= ->])%fmap_Some. f_equal.
    eapply addr_inj; [exact orig_role_top|exact orig_role_inj|apply (ri_roles _ _ _ _ Hinv)|done..].
  - intros (id & _ & ->)%fmap_Some (id' & _ & ?)%fmap_Some. done.
  - intros (id & _ & ->)%fmap_Some [= ?].
  - intros (id & _ & ->)%fmap_Some (id' & _ & ?)%fmap_Some. done.
  - intros (id & Ha & ->)%fmap_Some (id' & Ha' & [= ->])%fmap_Some.
    f_equal. by apply Hm; [..|congruence].
Qed.

Lemma overwrite_by_target c o o' :
  c ∈ nd_channels n → o ∈ nc_overwrites c → o' ∈ nc_overwrites c →
  no_target o = no_target o' → o = o'.
Proof.
  intros Hc Ho Ho' Heq. pose proof (find_overwrite_exact n Hkeys Htargets c o Hc Ho) as H1.
  pose proof (find_overwrite_exact n Hkeys Htargets c o' Hc Ho') as H2.
  rewrite Heq in H1. congruence.
Qed.

Lemma has_overwrite_keeps (ctx : Ctx) os op c o t parents :
  run_inv g n os ctx → c ∈ nd_channels n → o ∈ nc_overwrites c → planned op →
  target_denotation (resources ctx) (no_target o) = Some t →
  keeps (channel_key c) (has_overwrite t (no_allow o) (no_deny o))
    (channel_pool_op (target_denotation (resources ctx)) parents op).
Proof.
  intros Hinv Hc Ho Hop Ht.
  assert (Hput : ∀ c' o', c' ∈ nd_channels n → o' ∈ nc_overwrites c' →
    keeps (channel_key c) (has_overwrite t (no_allow o) (no_deny o))
      (PEdit (channel_key c')
         (λ f, ∃ t', target_denotation (resources ctx) (no_target o') = Some t'
                     ∧ f = put_overwrite t' (no_allow o') (no_deny o')))).
  { intros c' o' Hc' Ho' Hk f ch (t' & Ht' & ->) Hh x Hx.
    apply channel_by_key in Hk; [subst c'|done..].
    destruct ch as [ch|]; [|done]. injection Hx as <-. rewrite find_put_overwrite.
    case_decide as Heq; [subst t'|by apply Hh].
    by rewrite (overwrite_by_target c o' o) by (done || by eapply target_inj). }
  destruct Hop; cbn [channel_pool_op]; try apply Hput; try done.
  - intros Hk f ch -> Hh x Hx. destruct ch as [ch|]; [|done].
    injection Hx as <-. exact (Hh ch eq_refl).
Qed.

Lemma overwrite_fact_preserved c o op :
  c ∈ nd_channels n → o ∈ nc_overwrites c → planned op →
  preserved_by g n (overwrite_fact c o) op.
Proof.
  intros Hc Ho Hop os ctx ctx' Hinv Hspec _ (t & Ht & Hq). exists t.
  split; [by eapply target_stable|].
  eapply holds_at_keeps; [exact orig_channel_top|exact orig_channel_inj
    |apply (ri_channels _ _ _ _ Hinv)|apply (ss_channels _ _ _ _ _ Hspec)| |done].
  by eapply has_overwrite_keeps.
Qed.

Lemma overwrite_fact_established c o op :
  (∀ targets parents, channel_pool_op targets parents op
     = PEdit (channel_key c) (λ f, ∃ t, targets (no_target o) = Some t
                                      ∧ f = put_overwrite t (no_allow o) (no_deny o))) →
  established_by g n (overwrite_fact c o) op.
Proof.
  intros Hop os ctx ctx' Hinv Hspec _.
  pose proof (ss_channels _ _ _ _ _ Hspec) as He. unfold channel_effect in He.
  rewrite Hop in He.
  assert (∃ t, target_denotation (resources ctx) (no_target o) = Some t) as (t & Ht)
    by (inversion He; naive_solver).
  exists t. split; [by eapply target_stable|].
  eapply holds_at_establishes; [apply (ri_channels _ _ _ _ Hinv)|exact He|].
  split; [done|]. intros f ch (t' & Ht' & ->) x Hx.
  assert (t' = t) as -> by congruence.
  destruct ch as [ch|]; [|done]. injection Hx as <-.
  by rewrite find_put_overwrite, decide_True.
Qed.

Lemma initial_target target t :
  resolve_overwrite_target (mkResolver g) target (collect_roles_by_key (nd_roles n)) = Ok (Some t) →
  target_denotation (context_new n (mkResolver g) (guild_id (gs_guild g))) target = Some t.
Proof.
  destruct target as [|k|id]; cbn; [congruence| |destruct (parse_u64 id); naive_solver].
  destruct (collect_roles_by_key _ !! k) as [r|] eqn:Hl; [|done].
  apply collect_roles_lookup in Hl as [Hr <-]. unfold role_denotation. cbn.
  rewrite lookup_empty, (find_eqb_Some (λ r, id_key (nr_identity r))) by (done || apply Hkeys).
  cbn. destruct (match_resource _ _ _ _ _ _); [|done..]. by intros [= <-].
Qed.

(** ** The end of a run *)
Section final.
Context (ops : list Operation) (ctx : Ctx).
Context (Hops : ∀ op, op ∈ ops ↔ planned op).
Context (Hsteps : steps ops (apply_new g n (mkResolver g)) ctx).
Context (Hinv0 : run_inv g n ops (apply_new g n (mkResolver g))).

Lemma final_inv : run_inv g n [] ctx.
Proof. by eapply steps_inv. Qed.

Lemma final_holds Q :
  (∀ op, planned op → preserved_by g n Q op) →
  holds Q (apply_new g n (mkResolver g)) ∨ (∃ op, planned op ∧ established_by g n Q op) →
  holds Q ctx.
Proof.
  intros Hpr Hq. eapply steps_holds; [exact Hsteps|exact Hinv0| |].
  - apply Forall_forall. intros op Hop. by apply Hpr, Hops.
  - destruct Hq as [?|(op & Hop & He)]; [by left|right].
    apply Exists_exists. exists op. split; [by apply Hops|done].
Qed.

Lemma role_not_conflicting r :
  r ∈ nd_roles n →
  (∀ reason, role_resolved r ≠ Conflict reason)
  ∧ (id_state (nr_identity r) = Present → role_resolved r = Missing →
     id_ownership (nr_identity r) ≠ Referenced ∧ id_match_by (nr_identity r) = ByName)
  ∧ (id_state (nr_identity r) = Absent → role_resolved r ≠ Missing →
     id_ownership (nr_identity r) ≠ Referenced).
Proof.
  intros Hr. apply conflict_free_role.
  by apply (proj1 (conflict_free_parts _ _ conflict_free)).
Qed.

(** Facts that hold of an original resource at the start. *)
Lemma role_fact_initial r y (φ : option Role → Prop) :
  r ∈ nd_roles n → role_resolved r = Existing y → φ (Some y) →
  holds (role_fact (role_key r) φ) (apply_new g n (mkResolver g)).
Proof.
  intros Hr Hres Hφ. exists (role_id y). cbn. split.
  - unfold addr. rewrite lookup_empty, orig_role_of by done. by rewrite Hres.
  - rewrite (proj2 (at_id_elem role_id (role_id y) (gs_roles g) y (wf_roles_nodup _ Hwf)));
      [done|]. split; [|done]. by apply match_resource_existing in Hres as [? _].
Qed.

Lemma role_named_final r m :
  r ∈ nd_roles n → id_match_by (nr_identity r) = ByName → nr_name r = Some m →
  only_named role_id (orig_role g n) role_name (role_key r) m (synthetic_roles ctx)
    (gs_roles (after ctx)).
Proof.
  intros Hr Hby Hm. apply (final_holds (role_named (role_key r) m)).
  { intros op Hop. by apply role_named_preserved, planned_role_names. }
  left. intros x Hx Hxm. cbn in *. unfold addr. rewrite lookup_empty, orig_role_of by done.
  assert (x ∈ filter (λ t, role_name t = m) (gs_roles g)) as Hf
    by (by apply list_elem_of_filter).
  destruct (role_resolved r) as [y| |reason] eqn:Hres.
  - apply match_resource_existing in Hres as [_ Hy]. rewrite Hby in Hy.
    destruct Hy as (m' & Hm' & Hfy). assert (m' = m) as -> by congruence.
    cbn [imr_guild] in Hfy. rewrite Hfy in Hf. by apply list_elem_of_singleton in Hf as ->.
  - apply match_resource_missing in Hres. rewrite Hby in Hres.
    destruct Hres as (m' & Hm' & Hfy). assert (m' = m) as -> by congruence.
    cbn [imr_guild] in Hfy. rewrite Hfy in Hf. by apply not_elem_of_nil in Hf.
  - by destruct (proj1 (role_not_conflicting r Hr) reason).
Qed.

Definition role_fields (r : NormalizedRole) (o : option Role) : Prop :=
  ∀ x, o = Some x → field_matches (nr_name r) (role_name x)
                    ∧ field_matches (nr_permissions r) (role_permissions x).

Lemma edit_role_fields r y :
  field_matches (nr_name r) (role_name (edit_role (nr_name r) (nr_permissions r) y))
  ∧ field_matches (nr_permissions r)
      (role_permissions (edit_role (nr_name r) (nr_permissions r) y)).
Proof. by split; intros v Hv; cbn; rewrite Hv. Qed.

Lemma role_fields_final r :
  r ∈ nd_roles n → owned_present (nr_identity r) →
  holds (role_fact (role_key r) (role_fields r)) ctx.
Proof.
  intros Hr Hown. apply final_holds.
  { intros op Hop. apply role_fact_preserved, planned_role_keeps; [done..| |].
    - intros _ y _ x [= <-]. apply edit_role_fields.
    - by intros _ o _ x ?. }
  destruct (role_resolved r) as [y| |reason] eqn:Hres.
  - destruct (role_changed r y) as [|] eqn:Hch.
    + left. eapply role_fact_initial; [done..|]. intros x [= <-].
      unfold role_changed in Hch. apply field_list_nil in Hch as [H1 H2%field_single_nil].
      split; by apply field_differs_matches.
    + right. eexists.
      split; [eapply req_update_role; [done..|by apply role_asks_changed; rewrite Hch]|].
      apply role_fact_established. split; [done|]. intros f o -> x Hx.
      destruct o; [|done]. injection Hx as <-. apply edit_role_fields.
  - right. eexists. split; [by eapply req_create_role|].
    apply role_fact_established. split; [done|].
    intros x [Hn Hp] x' [= <-]. split; intros v Hv.
    + by rewrite Hn, Hv.
    + by rewrite Hp, Hv.
  - by destruct (proj1 (role_not_conflicting r Hr) reason).
Qed.

(** A wanted role is there under the id its key denotes. *)
Definition role_alive (r : NormalizedRole) (o : option Role) : Prop :=
  ∃ x, o = Some x
    ∧ (∀ m, id_match_by (nr_identity r) = ByName → nr_name r = Some m → role_name x = m)
    ∧ (∀ s raw, id_match_by (nr_identity r) = ByExplicitId s → parse_u64 s = Some raw →
       role_id x = raw).

Lemma role_alive_final r :
  r ∈ nd_roles n → id_state (nr_identity r) = Present →
  holds (role_fact (role_key r) (role_alive r)) ctx.
Proof.
  intros Hr Hs. apply final_holds.
  { intros op Hop. apply role_fact_preserved, planned_role_keeps; [done..| |congruence].
    intros _ y (x & [= <-] & Hn & Hi). eexists. split; [done|]. split; [|done].
    intros m Hby Hm. cbn. by rewrite Hm. }
  destruct (role_resolved r) as [y| |reason] eqn:Hres.
  - left. eapply role_fact_initial; [done..|]. exists y. split; [done|].
    apply match_resource_existing in Hres as [_ Hy]. split.
    + intros m Hby Hm. rewrite Hby in Hy. destruct Hy as (m' & Hm' & Hf).
      cbn [imr_guild] in Hf.
      assert (y ∈ filter (λ t, role_name t = m') (gs_roles g)) as Hin
        by (rewrite Hf; by left).
      apply list_elem_of_filter in Hin as [Hin _]. congruence.
    + intros s raw Hby Hraw. rewrite Hby in Hy. destruct Hy as (raw' & Hraw' & Hat).
      apply at_id_Some in Hat as [_ Hid]. congruence.
  - destruct (proj1 (proj2 (role_not_conflicting r Hr)) Hs Hres) as [Ho Hby].
    right. eexists. split; [by eapply req_create_role|].
    apply role_fact_established. split; [done|]. intros x [Hn _]. exists x.
    split; [done|]. split; [|congruence]. intros m _ Hm. by rewrite Hn, Hm.
  - by destruct (proj1 (role_not_conflicting r Hr) reason).
Qed.

Abbreviation after_resolver := (mkResolver (after ctx)).

Lemma role_present_final r :
  r ∈ nd_roles n → id_state (nr_identity r) = Present →
  ∃ x, resolve_role after_resolver (nr_identity r) (nr_name r) = Existing x
    ∧ addr role_id (orig_role g n) (synthetic_roles ctx) (role_key r) = Some (role_id x)
    ∧ at_id role_id (role_id x) (gs_roles (after ctx)) = Some x.
Proof.
  intros Hr Hs. destruct (role_alive_final r Hr Hs) as (id & Ha & x & Hat & Hn & Hi).
  exists x. cbn in Hat. pose proof (at_id_Some _ _ _ _ Hat) as [_ Hid].
  rewrite Hid. split; [|done]. cbn. destruct (id_match_by (nr_identity r)) as [|s] eqn:Hby.
  - destruct (nr_name r) as [m|] eqn:Hm.
    + eapply match_named; [done|apply (ri_roles _ _ _ _ final_inv)| |exact Ha|exact Hat|auto].
      by apply role_named_final.
    + destruct (proj1 (role_not_conflicting r Hr) "ByName requires a name"). cbn.
      unfold match_resource. by rewrite Hby, Hm.
  - destruct (parse_u64 s) as [raw|] eqn:Hraw.
    + rewrite (match_explicit _ _ _ _ s raw) by done.
      specialize (Hi s raw eq_refl Hraw). rewrite <- Hi, Hid, Hat. done.
    + destruct (proj1 (role_not_conflicting r Hr) ("invalid id " +:+ s)). cbn.
      unfold match_resource. by rewrite Hby, Hraw.
Qed.

Lemma role_addr_final r y :
  r ∈ nd_roles n → role_resolved r = Existing y →
  addr role_id (orig_role g n) (synthetic_roles ctx) (role_key r) = Some (role_id y).
Proof.
  intros Hr Hres.
  apply (final_holds (λ _ syn _ _ _,
    addr role_id (orig_role g n) syn (role_key r) = Some (role_id y))).
  - intros op Hop os ctx0 ctx1 Hinv Hspec _ Ha.
    eapply pool_effect_addr; [apply (ss_roles _ _ _ _ _ Hspec)|done].
  - left. unfold holds, addr. cbn. rewrite lookup_empty, orig_role_of by done.
    by rewrite Hres.
Qed.

Lemma role_missing_id_final r s raw :
  r ∈ nd_roles n → id_match_by (nr_identity r) = ByExplicitId s → parse_u64 s = Some raw →
  at_id role_id raw (gs_roles g) = None → at_id role_id raw (gs_roles (after ctx)) = None.
Proof.
  intros Hr Hby Hraw Hat.
  apply (final_holds (λ _ _ pool _ _, at_id role_id raw pool = None)); [|by left].
  intros op Hop os ctx0 ctx1 Hinv Hspec _ Hnone.
  eapply missing_id_step; [apply (ri_roles _ _ _ _ Hinv)|apply (ss_roles _ _ _ _ _ Hspec)
                          |by eapply un_role_ids|done].
Qed.

(** The key of a role that is wanted absent is never created. *)
Lemma role_absent_addr r :
  r ∈ nd_roles n → id_state (nr_identity r) = Absent → role_resolved r = Missing →
  addr role_id (orig_role g n) (synthetic_roles ctx) (role_key r) = None.
Proof.
  intros Hr Hs Hres.
  apply (final_holds (λ _ syn _ _ _, addr role_id (orig_role g n) syn (role_key r) = None)).
  - intros op Hop os ctx0 ctx1 Hinv Hspec _ Hnone. cbn in *.
    eapply pool_effect_addr_None; [apply (ss_roles _ _ _ _ _ Hspec)| |done].
    destruct Hop as [r' Hr' [Hs' _] _| | | | | | | |]; try done.
    intros made [= Hk _]. apply (role_by_key n) in Hk; [congruence|done..].
  - left. unfold holds, addr. cbn. rewrite lookup_empty, orig_role_of by done.
    by rewrite Hres.
Qed.

Lemma role_gone_final r id :
  r ∈ nd_roles n → id_state (nr_identity r) = Absent →
  addr role_id (orig_role g n) (synthetic_roles ctx) (role_key r) = Some id →
  at_id role_id id (gs_roles (after ctx)) = None.
Proof.
  intros Hr Hs Ha. destruct (role_not_conflicting r Hr) as (Hnc & _ & Hown).
  destruct (role_resolved r) as [y| |reason] eqn:Hres; [..|by destruct (Hnc reason)].
  - assert (Hq : holds (role_fact (role_key r) (λ o, o = None)) ctx).
    { apply final_holds.
      - intros op Hop. by apply role_fact_preserved, planned_role_keeps.
      - right. eexists. split; [eapply req_delete_role; [done|by split; [|apply Hown]|done]|].
        by apply role_fact_established. }
    destruct Hq as (id' & Ha' & Hat). cbn in Hat. congruence.
  - by rewrite role_absent_addr in Ha.
Qed.

Lemma role_absent_final r :
  r ∈ nd_roles n → id_state (nr_identity r) = Absent →
  resolve_role after_resolver (nr_identity r) (nr_name r) = Missing.
Proof.
  intros Hr Hs. destruct (role_not_conflicting r Hr) as (Hnc & _ & _). cbn.
  destruct (role_resolved r) as [y| |reason] eqn:Hres; [..|by destruct (Hnc reason)].
  - pose proof Hres as [_ Hy]%match_resource_existing.
    destruct (id_match_by (nr_identity r)) as [|s] eqn:Hby.
    + destruct Hy as (m & Hm & _). rewrite Hm.
      eapply match_named_missing; [done|by apply role_named_final|].
      intros id. by apply role_gone_final.
    + destruct Hy as (raw & Hraw & [_ <-]%at_id_Some).
      rewrite (match_explicit _ _ _ _ s (role_id y)) by done.
      rewrite (role_gone_final r (role_id y)); [done..|]. by apply role_addr_final.
  - pose proof Hres as Hy%match_resource_missing.
    destruct (id_match_by (nr_identity r)) as [|s] eqn:Hby.
    + destruct Hy as (m & Hm & _). rewrite Hm.
      eapply match_named_missing; [done|by apply role_named_final|].
      intros id. by apply role_gone_final.
    + destruct Hy as (raw & Hraw & Hat).
      rewrite (match_explicit _ _ _ _ s raw) by done.
      by rewrite (role_missing_id_final r s raw).
Qed.

Lemma role_satisfied_final r : r ∈ nd_roles n → role_satisfied after_resolver r.
Proof.
  intros Hr. unfold role_satisfied. destruct (id_state (nr_identity r)) eqn:Hs.
  - destruct (role_present_final r Hr Hs) as (x & Hres & Ha & Hat).
    exists x. split; [done|]. intros Ho.
    destruct (role_fields_final r Hr (conj Hs Ho)) as (id & Ha' & Hf). cbn in Hf.
    assert (id = role_id x) as -> by congruence. by apply Hf.
  - by apply role_absent_final.
Qed.

(** *** Channels *)
Lemma channel_not_conflicting c :
  c ∈ nd_channels n →
  (∀ reason, channel_resolved c ≠ Conflict reason)
  ∧ (id_state (nc_identity c) = Present → channel_resolved c = Missing →
     id_ownership (nc_identity c) ≠ Referenced ∧ id_match_by (nc_identity c) = ByName)
  ∧ (id_state (nc_identity c) = Absent → channel_resolved c ≠ Missing →
     id_ownership (nc_identity c) ≠ Referenced).
Proof.
  intros Hc. pose proof (proj2 (conflict_free_parts _ _ conflict_free) c Hc) as Hcf.
  apply conflict_free_channel in Hcf as (H1 & H2 & H3 & _). done.
Qed.

(** Facts that hold of an original resource at the start. *)
Lemma channel_fact_initial c y (φ : option Channel → Prop) :
  c ∈ nd_channels n → channel_resolved c = Existing y → φ (Some y) →
  holds (channel_fact (channel_key c) φ) (apply_new g n (mkResolver g)).
Proof.
  intros Hc Hres Hφ. exists (channel_id y). cbn. split.
  - unfold addr. rewrite lookup_empty, orig_channel_of by done. by rewrite Hres.
  - rewrite (proj2 (at_id_elem channel_id (channel_id y) (gs_channels g) y (wf_channels_nodup _ Hwf)));
      [done|]. split; [|done]. by apply match_resource_existing in Hres as [? _].
Qed.

Lemma channel_named_final c m :
  c ∈ nd_channels n → id_match_by (nc_identity c) = ByName → nc_name c = Some m →
  only_named channel_id (orig_channel g n) channel_name (channel_key c) m (synthetic_channels ctx)
    (gs_channels (after ctx)).
Proof.
  intros Hc Hby Hm. apply (final_holds (channel_named (channel_key c) m)).
  { intros op Hop. by apply channel_named_preserved; intros; apply planned_channel_names. }
  left. intros x Hx Hxm. cbn in *. unfold addr. rewrite lookup_empty, orig_channel_of by done.
  assert (x ∈ filter (λ t, channel_name t = m) (gs_channels g)) as Hf
    by (by apply list_elem_of_filter).
  destruct (channel_resolved c) as [y| |reason] eqn:Hres.
  - apply match_resource_existing in Hres as [_ Hy]. rewrite Hby in Hy.
    destruct Hy as (m' & Hm' & Hfy). assert (m' = m) as -> by congruence.
    cbn [imr_guild] in Hfy. rewrite Hfy in Hf. by apply list_elem_of_singleton in Hf as ->.
  - apply match_resource_missing in Hres. rewrite Hby in Hres.
    destruct Hres as (m' & Hm' & Hfy). assert (m' = m) as -> by congruence.
    cbn [imr_guild] in Hfy. rewrite Hfy in Hf. by apply not_elem_of_nil in Hf.
  - by destruct (proj1 (channel_not_conflicting c Hc) reason).
Qed.

Definition channel_fields (c : NormalizedChannel) (o : option Channel) : Prop :=
  ∀ x, o = Some x → field_matches (nc_name c) (channel_name x)
                    ∧ field_matches (nc_channel_type c) (channel_kind x).

Lemma edit_channel_fields c y :
  field_matches (nc_name c) (channel_name (edit_channel (nc_name c) (nc_channel_type c) y))
  ∧ field_matches (nc_channel_type c)
      (channel_kind (edit_channel (nc_name c) (nc_channel_type c) y)).
Proof. by split; intros v Hv; cbn; rewrite Hv. Qed.

Lemma channel_fields_final c :
  c ∈ nd_channels n → owned_present (nc_identity c) →
  holds (channel_fact (channel_key c) (channel_fields c)) ctx.
Proof.
  intros Hc Hown. apply final_holds.
  { intros op Hop. apply channel_fact_preserved.
    intros targets parents. apply planned_channel_keeps; [done..| | |].
    - intros _ y _ x [= <-]. apply edit_channel_fields.
    - intros t a d y Hf x [= <-]. by apply (Hf y).
    - by intros _ o _ x ?. }
  destruct (channel_resolved c) as [y| |reason] eqn:Hres.
  - destruct (channel_meta_changed c y) as [|] eqn:Hch.
    + left. eapply channel_fact_initial; [done..|]. intros x [= <-].
      unfold channel_meta_changed in Hch. apply field_list_nil in Hch as [H1 H2%field_single_nil].
      split; by apply field_differs_matches.
    + right. eexists.
      split; [eapply req_update_channel; [done..|by apply channel_asks_changed; rewrite Hch]|].
      apply channel_fact_established. split; [done|]. intros f o -> x Hx.
      destruct o; [|done]. injection Hx as <-. apply edit_channel_fields.
  - right. eexists. split; [by eapply req_create_channel|].
    apply channel_fact_established. split; [done|].
    intros x (Hn & Hp & _) x' [= <-]. split; intros v Hv.
    + by rewrite Hn, Hv.
    + by rewrite Hp, Hv.
  - by destruct (proj1 (channel_not_conflicting c Hc) reason).
Qed.

(** A wanted channel is there under the id its key denotes. *)
Definition channel_alive (c : NormalizedChannel) (o : option Channel) : Prop :=
  ∃ x, o = Some x
    ∧ (∀ m, id_match_by (nc_identity c) = ByName → nc_name c = Some m → channel_name x = m)
    ∧ (∀ s raw, id_match_by (nc_identity c) = ByExplicitId s → parse_u64 s = Some raw →
       channel_id x = raw).

Lemma channel_alive_final c :
  c ∈ nd_channels n → id_state (nc_identity c) = Present →
  holds (channel_fact (channel_key c) (channel_alive c)) ctx.
Proof.
  intros Hc Hs. apply final_holds.
  { intros op Hop. apply channel_fact_preserved.
    intros targets parents. apply planned_channel_keeps; [done..| | |congruence].
    - intros _ y (x & [= <-] & Hn & Hi). eexists. split; [done|]. split; [|done].
      intros m Hby Hm. cbn. by rewrite Hm.
    - intros t a d y (x & [= <-] & Hn & Hi). by eexists. }
  destruct (channel_resolved c) as [y| |reason] eqn:Hres.
  - left. eapply channel_fact_initial; [done..|]. exists y. split; [done|].
    apply match_resource_existing in Hres as [_ Hy]. split.
    + intros m Hby Hm. rewrite Hby in Hy. destruct Hy as (m' & Hm' & Hf).
      cbn [imr_guild] in Hf.
      assert (y ∈ filter (λ t, channel_name t = m') (gs_channels g)) as Hin
        by (rewrite Hf; by left).
      apply list_elem_of_filter in Hin as [Hin _]. congruence.
    + intros s raw Hby Hraw. rewrite Hby in Hy. destruct Hy as (raw' & Hraw' & Hat).
      apply at_id_Some in Hat as [_ Hid]. congruence.
  - destruct (proj1 (proj2 (channel_not_conflicting c Hc)) Hs Hres) as [Ho Hby].
    right. eexists. split; [by eapply req_create_channel|].
    apply channel_fact_established. split; [done|]. intros x [Hn _]. exists x.
    split; [done|]. split; [|congruence]. intros m _ Hm. by rewrite Hn, Hm.
  - by destruct (proj1 (channel_not_conflicting c Hc) reason).
Qed.

Lemma channel_present_final c :
  c ∈ nd_channels n → id_state (nc_identity c) = Present →
  ∃ x, resolve_channel after_resolver (nc_identity c) (nc_name c) = Existing x
    ∧ addr channel_id (orig_channel g n) (synthetic_channels ctx) (channel_key c) = Some (channel_id x)
    ∧ at_id channel_id (channel_id x) (gs_channels (after ctx)) = Some x.
Proof.
  intros Hc Hs. destruct (channel_alive_final c Hc Hs) as (id & Ha & x & Hat & Hn & Hi).
  exists x. cbn in Hat. pose proof (at_id_Some _ _ _ _ Hat) as [_ Hid].
  rewrite Hid. split; [|done]. cbn. destruct (id_match_by (nc_identity c)) as [|s] eqn:Hby.
  - destruct (nc_name c) as [m|] eqn:Hm.
    + eapply match_named; [done|apply (ri_channels _ _ _ _ final_inv)| |exact Ha|exact Hat|auto].
      by apply channel_named_final.
    + destruct (proj1 (channel_not_conflicting c Hc) "ByName requires a name"). cbn.
      unfold match_resource. by rewrite Hby, Hm.
  - destruct (parse_u64 s) as [raw|] eqn:Hraw.
    + rewrite (match_explicit _ _ _ _ s raw) by done.
      specialize (Hi s raw eq_refl Hraw). rewrite <- Hi, Hid, Hat. done.
    + destruct (proj1 (channel_not_conflicting c Hc) ("invalid id " +:+ s)). cbn.
      unfold match_resource. by rewrite Hby, Hraw.
Qed.

Lemma channel_addr_final c y :
  c ∈ nd_channels n → channel_resolved c = Existing y →
  addr channel_id (orig_channel g n) (synthetic_channels ctx) (channel_key c) = Some (channel_id y).
Proof.
  intros Hc Hres.
  apply (final_holds (λ _ _ _ syn _,
    addr channel_id (orig_channel g n) syn (channel_key c) = Some (channel_id y))).
  - intros op Hop os ctx0 ctx1 Hinv Hspec _ Ha.
    eapply pool_effect_addr; [apply (ss_channels _ _ _ _ _ Hspec)|done].
  - left. unfold holds, addr. cbn. rewrite lookup_empty, orig_channel_of by done.
    by rewrite Hres.
Qed.

Lemma channel_missing_id_final c s raw :
  c ∈ nd_channels n → id_match_by (nc_identity c) = ByExplicitId s → parse_u64 s = Some raw →
  at_id channel_id raw (gs_channels g) = None → at_id channel_id raw (gs_channels (after ctx)) = None.
Proof.
  intros Hc Hby Hraw Hat.
  apply (final_holds (λ _ _ _ _ pool, at_id channel_id raw pool = None)); [|by left].
  intros op Hop os ctx0 ctx1 Hinv Hspec _ Hnone.
  eapply missing_id_step; [apply (ri_channels _ _ _ _ Hinv)|apply (ss_channels _ _ _ _ _ Hspec)
                          |by eapply un_channel_ids|done].
Qed.

(** The key of a channel that is wanted absent is never created. *)
Lemma channel_absent_addr c :
  c ∈ nd_channels n → id_state (nc_identity c) = Absent → channel_resolved c = Missing →
  addr channel_id (orig_channel g n) (synthetic_channels ctx) (channel_key c) = None.
Proof.
  intros Hc Hs Hres.
  apply (final_holds (λ _ _ _ syn _, addr channel_id (orig_channel g n) syn (channel_key c) = None)).
  - intros op Hop os ctx0 ctx1 Hinv Hspec _ Hnone. cbn in *.
    eapply pool_effect_addr_None; [apply (ss_channels _ _ _ _ _ Hspec)| |done].
    destruct Hop as [| | |c' Hc' [Hs' _] _| | | | |]; try done.
    intros made [= Hk _]. apply channel_by_key in Hk; [congruence|done..].
  - left. unfold holds, addr. cbn. rewrite lookup_empty, orig_channel_of by done.
    by rewrite Hres.
Qed.

Lemma channel_gone_final c id :
  c ∈ nd_channels n → id_state (nc_identity c) = Absent →
  addr channel_id (orig_channel g n) (synthetic_channels ctx) (channel_key c) = Some id →
  at_id channel_id id (gs_channels (after ctx)) = None.
Proof.
  intros Hc Hs Ha. destruct (channel_not_conflicting c Hc) as (Hnc & _ & Hown).
  destruct (channel_resolved c) as [y| |reason] eqn:Hres; [..|by destruct (Hnc reason)].
  - assert (Hq : holds (channel_fact (channel_key c) (λ o, o = None)) ctx).
    { apply final_holds.
      - intros op Hop. by apply channel_fact_preserved; intros targets parents; apply planned_channel_keeps.
      - right. eexists. split; [eapply req_delete_channel; [done|by split; [|apply Hown]|done]|].
        by apply channel_fact_established. }
    destruct Hq as (id' & Ha' & Hat). cbn in Hat. congruence.
  - by rewrite channel_absent_addr in Ha.
Qed.

Lemma channel_absent_final c :
  c ∈ nd_channels n → id_state (nc_identity c) = Absent →
  resolve_channel after_resolver (nc_identity c) (nc_name c) = Missing.
Proof.
  intros Hc Hs. destruct (channel_not_conflicting c Hc) as (Hnc & _ & _). cbn.
  destruct (channel_resolved c) as [y| |reason] eqn:Hres; [..|by destruct (Hnc reason)].
  - pose proof Hres as [_ Hy]%match_resource_existing.
    destruct (id_match_by (nc_identity c)) as [|s] eqn:Hby.
    + destruct Hy as (m & Hm & _). rewrite Hm.
      eapply match_named_missing; [done|by apply channel_named_final|].
      intros id. by apply channel_gone_final.
    + destruct Hy as (raw & Hraw & [_ <-]%at_id_Some).
      rewrite (match_explicit _ _ _ _ s (channel_id y)) by done.
      rewrite (channel_gone_final c (channel_id y)); [done..|]. by apply channel_addr_final.
  - pose proof Hres as Hy%match_resource_missing.
    destruct (id_match_by (nc_identity c)) as [|s] eqn:Hby.
    + destruct Hy as (m & Hm & _). rewrite Hm.
      eapply match_named_missing; [done|by apply channel_named_final|].
      intros id. by apply channel_gone_final.
    + destruct Hy as (raw & Hraw & Hat).
      rewrite (match_explicit _ _ _ _ s raw) by done.
      by rewrite (channel_missing_id_final c s raw).
Qed.


(** *** Overwrites *)
Lemma overwrite_final c o :
  c ∈ nd_channels n → owned_present (nc_identity c) → o ∈ nc_overwrites c →
  holds (overwrite_fact c o) ctx.
Proof.
  intros Hc Hown Ho. apply final_holds.
  { intros op Hop. by apply overwrite_fact_preserved. }
  pose proof (proj2 (conflict_free_parts _ _ conflict_free) c Hc) as Hcf.
  apply conflict_free_channel in Hcf as (Hnc & _ & _ & Hok).
  destruct (channel_resolved c) as [cur| |reason] eqn:Hres; [..|by destruct (Hnc reason)].
  - destruct (Hok Hown cur o eq_refl Ho) as (target & Ht).
    destruct (find_current_overwrite cur target) as [co|] eqn:Hf.
    + destruct (overwrite_changed o co) as [|] eqn:Hch.
      * left. destruct target as [t|]; [|done]. exists t. split; [by apply initial_target|].
        apply (channel_fact_initial c cur); [done..|]. intros ch [= <-].
        apply overwrite_changed_nil in Hch as [Ha Hd]. rewrite Hf. f_equal.
        apply find_some in Hf as [_ Heq%bool_decide_eq_true].
        destruct co; cbn in *. congruence.
      * right. eexists. split; [eapply req_update_overwrite; [done..|by apply stands_for_resolves
          |by apply first_overwrite_find|by apply overwrite_asks_changed; rewrite Hch]|].
        by apply overwrite_fact_established.
    + right. eexists. split; [eapply req_create_overwrite;
        [done..|by apply stands_for_resolves|by apply lacks_overwrite_find]|].
      by apply overwrite_fact_established.
  - right. eexists. split; [by eapply req_fresh_overwrite|].
    by apply overwrite_fact_established.
Qed.

Lemma target_final c o t :
  c ∈ nd_channels n → o ∈ nc_overwrites c →
  target_denotation (resources ctx) (no_target o) = Some t →
  resolve_overwrite_target after_resolver (no_target o) (collect_roles_by_key (nd_roles n))
  = Ok (Some t).
Proof.
  intros Hc Ho. destruct (no_target o) as [|k|id] eqn:Htgt; cbn.
  - intros [= <-]. by rewrite (ri_guild_id _ _ _ _ final_inv), (ri_guild _ _ _ _ final_inv).
  - rewrite (ri_role_den _ _ _ _ final_inv). intros (id & Ha & ->)%fmap_Some.
    destruct (un_overwrite_roles _ _ Hun c o k Hc Ho Htgt) as (r & Hr & <- & Hs & _).
    destruct (role_present_final r Hr Hs) as (x & Hx & Hax & _).
    rewrite collect_roles_complete by done. cbn in Hx. rewrite Hx.
    do 3 f_equal. congruence.
  - by intros (raw & -> & ->)%fmap_Some.
Qed.

(** *** Parents *)
Definition under (id : ChannelId) (o : option Channel) : Prop :=
  ∀ ch, o = Some ch → channel_parent_id ch = Some id.

(** The channel is under the one its parent key denotes. *)
Definition parent_fact (c : NormalizedChannel) (p : ResourceKey) : pool_fact :=
  λ _ _ _ syn pool, ∃ id, addr channel_id (orig_channel g n) syn p = Some id
    ∧ holds_at channel_id (orig_channel g n) (channel_key c) (under id) syn pool.

Lemma parent_fact_preserved c p op :
  c ∈ nd_channels n → planned op → preserved_by g n (parent_fact c p) op.
Proof.
  intros Hc Hop os ctx0 ctx1 Hinv Hspec _ (id & Ha & Hq). exists id.
  split; [eapply pool_effect_addr; [apply (ss_channels _ _ _ _ _ Hspec)|done]|].
  eapply holds_at_keeps; [exact orig_channel_top|exact orig_channel_inj
    |apply (ri_channels _ _ _ _ Hinv)|apply (ss_channels _ _ _ _ _ Hspec)| |done].
  apply planned_channel_keeps; [done..| | |].
  - intros _ y Hy ch [= <-]. by apply (Hy y).
  - intros t a d y Hy ch [= <-]. by apply (Hy y).
  - by intros _ o _ ch ?.
Qed.

Lemma parent_fact_established c p :
  nc_parent c = Some p →
  established_by g n (parent_fact c p)
    (CreateChannel (channel_key c) (nc_name c) (nc_channel_type c) (nc_parent c)).
Proof.
  intros Hp os ctx0 ctx1 Hinv Hspec _.
  pose proof (ss_channels _ _ _ _ _ Hspec) as He. unfold channel_effect in He. cbn in He.
  assert (∃ id, channel_denotation (resources ctx1) p = Some id) as (id & Hid).
  { inversion He as [|? ? x ? ? Hm| |]. destruct Hm as (_ & _ & _ & Hm). destruct (Hm p Hp) as (id & Hid & _). eauto. }
  rewrite (ss_channel_den _ _ _ _ _ Hspec) in Hid.
  exists id. split; [done|].
  eapply holds_at_establishes; [apply (ri_channels _ _ _ _ Hinv)|exact He|].
  split; [done|]. intros x (_ & _ & _ & Hm) ch [= <-]. destruct (Hm p Hp) as (id' & Hid' & ->).
  rewrite (ss_channel_den _ _ _ _ _ Hspec) in Hid'. congruence.
Qed.

(** A wanted parent is there in the end, under the id its key denotes. *)
Lemma parent_final c p current :
  c ∈ nd_channels n → nc_parent c = Some p → holds (parent_fact c p) ctx →
  addr channel_id (orig_channel g n) (synthetic_channels ctx) (channel_key c) = Some (channel_id current) →
  at_id channel_id (channel_id current) (gs_channels (after ctx)) = Some current →
  parent_matches after_resolver n c current.
Proof.
  intros Hc Hp (id & Ha & id' & Ha' & Hunder) Hac Hat key Hkey.
  assert (key = p) as -> by congruence. assert (id' = channel_id current) as -> by congruence.
  specialize (Hunder current Hat).
  destruct (Hparents c p Hc Hp) as (c' & Hc' & <- & Hs').
  destruct (channel_present_final c' Hc' Hs') as (x & Hres & Hax & _).
  exists c', x. split_and!; [done..|]. rewrite Hunder. congruence.
Qed.

Lemma created_parent_final c current :
  c ∈ nd_channels n → owned_present (nc_identity c) → channel_resolved c = Missing →
  addr channel_id (orig_channel g n) (synthetic_channels ctx) (channel_key c) = Some (channel_id current) →
  at_id channel_id (channel_id current) (gs_channels (after ctx)) = Some current →
  parent_matches after_resolver n c current.
Proof.
  intros Hc Hown Hres Ha Hat key Hp. eapply parent_final; [done|exact Hp| |done..].
  apply final_holds; [by intros op Hop; apply parent_fact_preserved|right].
  eexists. split; [by eapply req_create_channel|]. by apply parent_fact_established.
Qed.

Lemma existing_parent_final c y current :
  c ∈ nd_channels n → channel_resolved c = Existing y → parent_matches (mkResolver g) n c y →
  addr channel_id (orig_channel g n) (synthetic_channels ctx) (channel_key c) = Some (channel_id current) →
  at_id channel_id (channel_id current) (gs_channels (after ctx)) = Some current →
  parent_matches after_resolver n c current.
Proof.
  intros Hc Hres Hy Ha Hat key Hp. eapply parent_final; [done|exact Hp| |done..].
  apply final_holds; [by intros op Hop; apply parent_fact_preserved|left].
  destruct (Hy key Hp) as (c' & parent & Hc' & <- & Hres' & Hid).
  exists (channel_id parent). split.
  - unfold addr. cbn. rewrite lookup_empty, orig_channel_of by done. by rewrite Hres'.
  - apply (channel_fact_initial c y); [done..|]. by intros ch [= <-].
Qed.

Lemma channel_compared_final c :
  c ∈ nd_channels n →
  channel_compared after_resolver (collect_roles_by_key (nd_roles n)) c.
Proof.
  intros Hc. unfold channel_compared. destruct (id_state (nc_identity c)) eqn:Hs.
  - destruct (channel_present_final c Hc Hs) as (x & Hres & Ha & Hat).
    exists x. split; [done|]. intros Hown. pose proof (conj Hs Hown) as Hop.
    destruct (channel_fields_final c Hc Hop) as (id & Ha' & Hf). cbn in Hf.
    assert (id = channel_id x) as -> by congruence.
    destruct (Hf x Hat) as [Hn Hk]. split_and!; [done..|].
    apply Forall_forall. intros o Ho.
    destruct (overwrite_final c o Hc Hop Ho) as (t & Ht & id & Ha2 & Hh).
    assert (id = channel_id x) as -> by congruence.
    exists t, (mkOverwrite t (no_allow o) (no_deny o)).
    split_and!; [by eapply target_final|by apply Hh|done..].
  - by apply channel_absent_final.
Qed.

Lemma quiet_final : diff_quiet (diff after_resolver n).
Proof.
  apply diff_quiet_compared.
  split; apply Forall_forall; [apply role_satisfied_final|apply channel_compared_final].
Qed.

(** New channels are under their parents, and so are the old ones that were. *)
Lemma parents_final c current :
  c ∈ nd_channels n → owned_present (nc_identity c) →
  (∀ y, channel_resolved c = Existing y → parent_matches (mkResolver g) n c y) →
  resolve_channel after_resolver (nc_identity c) (nc_name c) = Existing current →
  parent_matches after_resolver n c current.
Proof.
  intros Hc Hown Hold Hres.
  destruct (channel_present_final c Hc (proj1 Hown)) as (x & Hres' & Ha & Hat).
  rewrite Hres in Hres'. injection Hres' as <-.
  destruct (channel_resolved c) as [y| |reason] eqn:Hy.
  - eapply (existing_parent_final c y); try done. by apply Hold.
  - by apply created_parent_final.
  - by destruct (proj1 (channel_not_conflicting c Hc) reason).
Qed.
End final.

(** ** The start of a run *)
Lemma planned_new_roles k :
  k ∈ omap creates_role (graph_operations graph) → orig_role g n k = None.
Proof.
  intros (op & Hop & Hk)%list_elem_of_omap.
  apply (graph_operations_required _ _ Hkeys Htargets _ _ Hcompile) in Hop.
  destruct Hop as [r Hr _ Hres| | | | | | | |]; cbn in Hk; try done.
  injection Hk as <-. by rewrite orig_role_of, Hres.
Qed.

Lemma planned_new_channels k :
  k ∈ omap creates_channel (graph_operations graph) → orig_channel g n k = None.
Proof.
  intros (op & Hop & Hk)%list_elem_of_omap.
  apply (graph_operations_required _ _ Hkeys Htargets _ _ Hcompile) in Hop.
  destruct Hop as [| | |c Hc _ Hres| | | | |]; cbn in Hk; try done.
  injection Hk as <-. by rewrite orig_channel_of, Hres.
Qed.

Lemma initial_inv ops :
  ops ≡ₚ graph_operations graph → 0 ≤ max_id g →
  max_id g + 1 + Z.of_nat (length (graph_nodes graph)) ≤ u64_max →
  run_inv g n ops (apply_new g n (mkResolver g)).
Proof.
  intros Hperm H0 Hroom.
  assert (Hlen : length ops = length (graph_nodes graph)).
  { rewrite Hperm. unfold graph_operations. by rewrite length_fmap. }
  assert (Hnext : u64_wrapping_add (max_id g) 1 = max_id g + 1)
    by (apply u64_wrapping_add_small; lia).
  destruct (graph_creates_nodup _ _ Hkeys _ Hcompile) as [Hnr Hnc].
  split; cbn; rewrite ?Hnext; try done.
  - split; [lia|done|done| |apply Hwf]. intros x Hx%max_id_roles. lia.
  - split; [lia|done|done| |apply Hwf]. intros x Hx%max_id_channels. lia.
  - intros k. unfold role_denotation, addr, orig_role. cbn. rewrite !lookup_empty.
    destruct (List.find _ _) as [r|]; cbn; [|done]. by destruct (match_resource _ _ _ _ _ _).
  - intros k. unfold channel_denotation, addr, orig_channel. cbn. rewrite !lookup_empty.
    destruct (List.find _ _) as [c|]; cbn; [|done]. by destruct (match_resource _ _ _ _ _ _).
  - rewrite Hlen. lia.
  - rewrite Hperm. split; [done|]. intros k Hk. split; [done|].
    apply planned_new_roles. by rewrite <- Hperm.
  - rewrite Hperm. split; [done|]. intros k Hk. split; [done|].
    apply planned_new_channels. by rewrite <- Hperm.
Qed.

(** A successful virtual application leaves nothing to plan, and the channels it creates
    are under their parents. *)
Lemma plan_apply_satisfied result :
  0 ≤ max_id g → max_id g + 1 + Z.of_nat (length (graph_nodes graph)) ≤ u64_max →
  op_ids_fit graph → apply g graph n (mkResolver g) = Ok result →
  diff_quiet (diff (mkResolver (va_after result)) n)
  ∧ (∀ c current, c ∈ nd_channels n → owned_present (nc_identity c) →
       (∀ y, channel_resolved c = Existing y → parent_matches (mkResolver g) n c y) →
       resolve_channel (mkResolver (va_after result)) (nc_identity c) (nc_name c) = Existing current →
       parent_matches (mkResolver (va_after result)) n c current)
  ∧ va_applied result ≡ₚ graph_ids (graph_nodes graph).
Proof.
  intros H0 Hroom Hfit. unfold apply.
  destruct (topological_order graph) as [order|] eqn:Horder; [|done].
  pose proof (compile_operations_nodup _ _ _ Hcompile Hfit) as Hnd.
  destruct (topological_order_Ok _ _ Hnd Horder) as [Hperm _].
  destruct (apply_all _ _ _) as [[u|e] ctx] eqn:Hrun; [|done]. intros [= <-]. cbn.
  pose proof (scheduled_perm _ _ Hnd Hperm) as Hsched.
  assert (Hops : ∀ op, op ∈ scheduled (graph_nodes graph) order ↔ planned op).
  { intros op. rewrite Hsched. by apply graph_operations_required. }
  pose proof (apply_all_steps _ _ _ _ _ Hrun) as Hsteps.
  pose proof (initial_inv _ Hsched H0 Hroom) as Hinv0.
  split; [by eapply quiet_final|]. split; [intros; by eapply parents_final|].
  apply apply_all_applied in Hrun; [cbn in Hrun; by rewrite Hrun|].
  intros id Hid. rewrite Hperm in Hid. done.
Qed.
End satisfied.
