(* ===== verification/PlanTotal.v ===== *)
(** * Planned graphs apply

    A planned graph whose references are declared runs to the end: dependencies
    put every creation before the operations that need its identifier, so no key
    is unresolved when its turn comes. *)

From Stdlib Require Import ZArith Lia String.
From stdpp Require Import base decidable list strings gmap sorting.
From S2P Require Import Prelude RustStd DiscordModel DesiredState DesiredCompiler DiffEngine.
From S2P Require Import OperationGraph GraphOrder GraphCompile Resolution VirtualApply Plan.
From S2P Require Import PlanApply PlanSatisfied.
Open Scope Z_scope.

(** Parents and overwrite targets of the channels to manage are declared. *)
Record references_declared (n : NormalizedDesiredState) : Prop := {
  rd_parents : parents_declared n;
  rd_members : ∀ c o s, c ∈ nd_channels n → o ∈ nc_overwrites c → no_target o = NMember s →
    is_Some (parse_u64 s);
}.

Section resolvable.
Abbreviation R := InMemoryMatchResolver.
Abbreviation Ctx := (ApplyContext R).

(** The keys an operation resolves. *)
Definition resolvable (ctx : Ctx) (op : Operation) : Prop :=
  match op with
  | CreateRole _ _ _ | CreateChannel _ _ _ None => True
  | UpdateRole k _ _ | DeleteRole k => is_Some (role_denotation (resources ctx) k)
  | CreateChannel k _ _ (Some p) => p = k ∨ is_Some (channel_denotation (resources ctx) p)
  | UpdateChannel k _ _ | DeleteChannel k => is_Some (channel_denotation (resources ctx) k)
  | CreateOverwrite ch t _ _ | UpdateOverwrite ch t _ _ =>
      is_Some (channel_denotation (resources ctx) ch)
      ∧ is_Some (target_denotation (resources ctx) t)
  end.

Lemma role_key_ok key (ctx : Ctx) :
  is_Some (role_denotation (resources ctx) key) →
  ∃ id res, on_resources (resolve_role_key key) ctx = (Ok id, put_resources res ctx).
Proof.
  intros [id Hid]. pose proof (resolve_role_key_denotes key (resources ctx)) as Hd.
  unfold on_resources, cmd_map_err, cmd_zoom.
  destruct (resolve_role_key key (resources ctx)) as [[id'|e] res]; cbn; [eauto|].
  destruct Hd as (_ & Hn & _). congruence.
Qed.

Lemma channel_key_ok key (ctx : Ctx) :
  is_Some (channel_denotation (resources ctx) key) →
  ∃ id res, on_resources (resolve_channel_key key) ctx = (Ok id, put_resources res ctx)
            ∧ same_denotation (resources ctx) res.
Proof.
  intros [id Hid]. pose proof (resolve_channel_key_denotes key (resources ctx)) as Hd.
  unfold on_resources, cmd_map_err, cmd_zoom.
  destruct (resolve_channel_key key (resources ctx)) as [[id'|e] res]; cbn.
  - destruct Hd as [Hs _]. eauto.
  - destruct Hd as (_ & Hn & _). congruence.
Qed.

Lemma target_ok target (ctx : Ctx) :
  is_Some (target_denotation (resources ctx) target) →
  ∃ t res, on_resources (resolve_target target) ctx = (Ok t, put_resources res ctx).
Proof.
  intros [t Ht]. pose proof (resolve_target_denotes target (resources ctx)) as Hd.
  unfold on_resources, cmd_map_err, cmd_zoom.
  destruct (resolve_target target (resources ctx)) as [[t'|e] res]; cbn; [eauto|].
  destruct Hd as [_ Hn]. congruence.
Qed.

Lemma overwrite_op_ok ch t a d (ctx : Ctx) :
  is_Some (channel_denotation (resources ctx) ch) →
  is_Some (target_denotation (resources ctx) t) →
  ∃ ctx', apply_overwrite_op ch t a d ctx = (Ok tt, ctx').
Proof.
  intros Hch Ht. unfold apply_overwrite_op, mbind, Cmd_bind, cmd_bind.
  destruct (channel_key_ok ch ctx Hch) as (id & res & -> & Hs).
  destruct (target_ok t (put_resources res ctx)) as (t' & res' & ->).
  { cbn. by rewrite (target_denotation_same _ _ _ Hs). }
  cbn. destruct (existsb _ _); eexists; reflexivity.
Qed.

Lemma apply_operation_ok op (ctx : Ctx) :
  resolvable ctx op → ∃ ctx', apply_operation op ctx = (Ok tt, ctx').
Proof.
  destruct op as [key name perms|key name perms|key|key name kind [p|]|key name kind|key
                 |ch t a d|ch t a d]; cbn [resolvable apply_operation];
    unfold mbind, Cmd_bind, cmd_bind; intros Hr; try (by eexists).
  - destruct (role_key_ok key ctx Hr) as (id & res & ->). by eexists.
  - destruct (role_key_ok key ctx Hr) as (id & res & ->). by eexists.
  - cbn [next_synthetic cmd_modify]. set (ctx1 := insert_synthetic_channel _ _ _).
    destruct (channel_key_ok p ctx1) as (id & res & -> & _); [|by eexists].
    unfold ctx1. cbn. rewrite channel_denotation_bind. case_decide; [by eexists|].
    destruct Hr as [->|?]; done.
  - destruct (channel_key_ok key ctx Hr) as (id & res & -> & _). by eexists.
  - destruct (channel_key_ok key ctx Hr) as (id & res & -> & _). by eexists.
  - destruct Hr. by apply overwrite_op_ok.
  - destruct Hr. by apply overwrite_op_ok.
Qed.
End resolvable.

(** ** Producers come first *)
Lemma last_producer_exists nodes p symbol :
  p ∈ nodes → symbol ∈ node_produces p → ∃ id, last_producer nodes symbol id.
Proof.
  intros Hp Hs. induction nodes as [|node nodes IH]; [by apply not_elem_of_nil in Hp|].
  destruct (decide (Exists (λ q, symbol ∈ node_produces q) nodes)) as [Hex|Hno].
  - assert (∃ id, last_producer nodes symbol id) as (id & b & q & a & -> & Hq).
    { clear IH Hp p Hs. induction nodes as [|q nodes IH] using rev_ind;
        [by apply Exists_nil in Hex|].
      destruct (decide (symbol ∈ node_produces q)) as [Hq|Hq].
      - exists (node_id q), nodes, q, []. by split_and!.
      - apply Exists_app in Hex as [Hex|Hex].
        + destruct (IH Hex) as (id & b & q' & a & -> & Hs & Hid & Hall).
          exists id, b, q', (a ++ [q]). rewrite <- app_assoc. split_and!; [done..|].
          apply Forall_app. split; [done|]. by apply Forall_singleton.
        + by rewrite Exists_cons, Exists_nil in Hex; destruct Hex. }
    by exists id, (node :: b), q, a.
  - apply elem_of_cons in Hp as [<-|Hp];
      [|destruct Hno; apply Exists_exists; by exists p].
    exists (node_id p), [], p, nodes. split_and!; [done..|].
    apply Forall_forall. intros q Hq Hqs. apply Hno, Exists_exists. by exists q.
Qed.

Section total.
Context (g : GuildState) (n : NormalizedDesiredState) (graph : OperationGraph).
Context (Hwf : guild_wf g) (Hkeys : keys_distinct n) (Htargets : targets_distinct n).
Context (Hun : unambiguous g n) (Href : references_declared n).
Context (Hcompile : compile_operations (diff (mkResolver g) n) n = Ok graph).
Context (Hfit : op_ids_fit graph).

Abbreviation R := InMemoryMatchResolver.
Abbreviation Ctx := (ApplyContext R).
Abbreviation planned := (required (mkResolver g) n).
Abbreviation nodes := (graph_nodes graph).

Lemma graph_node_built node : node ∈ nodes → ∃ change, node_built n change node.
Proof.
  pose proof Hcompile as (_ & ns & order & Hn & -> & _)%compile_operations_inv. cbn.
  apply build_nodes_spec in Hn as [_ Hall%derive_dependencies_built].
  intros (i & Hi)%list_elem_of_lookup.
  destruct (Forall2_lookup_r _ _ _ _ _ Hall Hi) as (c & _ & ?). eauto.
Qed.

Lemma graph_node_planned node : node ∈ nodes → planned (node_operation node).
Proof.
  intros Hin. apply (graph_operations_required _ _ Hkeys Htargets _ _ Hcompile).
  by apply list_elem_of_fmap_2.
Qed.

Lemma planned_node op : planned op → ∃ node, node ∈ nodes ∧ node_operation node = op.
Proof.
  intros Hop. apply (graph_operations_required _ _ Hkeys Htargets _ _ Hcompile) in Hop.
  apply list_elem_of_fmap in Hop as (node & -> & Hin). eauto.
Qed.

(** What creations produce and what the other operations consume. *)
Lemma built_symbols change node :
  node_built n change node →
  match node_operation node with
  | CreateRole k _ _ => node_produces node = [SymRole k]
  | CreateChannel k _ _ parent => node_produces node = [SymChannel k]
      ∧ node_consumes node = match parent with Some p => [SymChannel p] | None => [] end
  | CreateOverwrite ch t _ _ | UpdateOverwrite ch t _ _ =>
      node_consumes node = overwrite_consumes ch t
  | _ => True
  end.
Proof.
  unfold node_built, build_operation. intros Hb.
  destruct (dc_op change), (dc_target change); try done; cbn in Hb;
    try (apply bind_Ok_inv in Hb as (x & _ & Hb)); injection Hb as Ho Hp Hc;
    rewrite <- Ho; by rewrite <- ?Hp, <- ?Hc.
Qed.

Lemma producer_creates p symbol :
  p ∈ nodes → symbol ∈ node_produces p →
  match symbol with
  | SymRole k => creates_role (node_operation p) = Some k
  | SymChannel k => creates_channel (node_operation p) = Some k
  end.
Proof.
  intros (change & Hb)%graph_node_built Hs.
  destruct (built_produces _ _ _ _ Hb Hs) as [(k & -> & a & b & ->)|(k & -> & a & b & q & -> & _)];
    done.
Qed.

Lemma dependency_producer node creator symbol :
  node ∈ nodes → symbol ∈ node_consumes node →
  creator ∈ nodes → symbol ∈ node_produces creator →
  ∃ p, p ∈ nodes ∧ symbol ∈ node_produces p
       ∧ (node_id p = node_id node ∨ node_id p ∈ node_depends_on node).
Proof.
  intros Hnode Hcons Hcr Hprod.
  destruct (last_producer_exists _ _ _ Hcr Hprod) as (id & Hlp).
  pose proof Hlp as (b & p & a & Heq & Hp & Hid & _).
  assert (p ∈ nodes) as Hpin by (rewrite Heq; set_solver).
  exists p. split_and!; [done..|].
  destruct (decide (node_id p = node_id node)) as [|Hne]; [by left|right].
  pose proof Hcompile as (_ & ns & order & Hn & Hg & _)%compile_operations_inv.
  rewrite Hg in Hnode, Hlp. cbn in Hnode, Hlp.
  apply (derive_dependencies_spec ns node (node_id p) Hnode).
  split; [done|]. exists symbol. rewrite Hid. done.
Qed.

(** ** The run *)
Context (order : list OpId).
Context (Hperm : order ≡ₚ graph_ids nodes) (Hresp : respects nodes order).

Lemma nodes_nodup : NoDup (graph_ids nodes).
Proof. by eapply compile_operations_nodup. Qed.

(** Creations among the operations already run have their identifiers. *)
Definition made (pre : list OpId) (ctx : Ctx) : Prop :=
  ∀ node, node ∈ nodes → node_id node ∈ pre →
    (∀ k, creates_role (node_operation node) = Some k → is_Some (synthetic_roles ctx !! k))
    ∧ (∀ k, creates_channel (node_operation node) = Some k →
            is_Some (synthetic_channels ctx !! k)).

Lemma dependency_before pre id rest node dep :
  order = pre ++ id :: rest → node ∈ nodes → node_id node = id →
  dep ∈ node_depends_on node → dep ∈ pre.
Proof.
  intros Horder Hin Hid Hdep.
  destruct (Hresp node (length pre) dep Hin) as (j & Hj & Hlj).
  { rewrite Horder, Hid. apply list_lookup_middle. done. }
  { done. }
  rewrite Horder, lookup_app_l in Hlj by done. by eapply list_elem_of_lookup_2.
Qed.

Section turn.
Context (pre rest : list OpId) (id : OpId) (node : OperationNode) (ctx : Ctx).
Context (ops : list Operation).
Context (Horder : order = pre ++ id :: rest).
Context (Hin : node ∈ nodes) (Hid : node_id node = id).
Context (Hinv : run_inv g n ops ctx) (Hmade : made pre ctx).

Lemma channel_needed c :
  c ∈ nd_channels n → id_state (nc_identity c) = Present →
  SymChannel (id_key (nc_identity c)) ∈ node_consumes node →
  creates_channel (node_operation node) = Some (id_key (nc_identity c))
  ∨ is_Some (channel_denotation (resources ctx) (id_key (nc_identity c))).
Proof.
  intros Hc Hs Hcons. rewrite (ri_channel_den _ _ _ _ Hinv). unfold addr.
  rewrite (orig_channel_of g n Hkeys) by done.
  pose proof (channel_not_conflicting g n graph Hcompile c Hc) as (Hnc & Hown & _).
  destruct (resolve_channel _ _ _) as [y| |reason] eqn:Hres; [..|by destruct (Hnc reason)].
  { right. destruct (synthetic_channels ctx !! _); by eexists. }
  destruct (Hown Hs eq_refl) as [Ho _].
  destruct (planned_node _ (req_create_channel _ _ c Hc (conj Hs Ho) Hres)) as (cr & Hcr & Hop).
  destruct (graph_node_built cr Hcr) as (change & Hb%built_symbols). rewrite Hop in Hb.
  destruct (dependency_producer node cr (SymChannel (id_key (nc_identity c))))
    as (p & Hp & Hprod & Hdep); [done..|rewrite (proj1 Hb); by left|].
  pose proof (producer_creates p _ Hp Hprod) as Hpc. cbn in Hpc.
  destruct Hdep as [Heq|Hdep].
  - left. assert (p = node) as -> by (eapply (node_by_id nodes nodes_nodup); done). done.
  - right. destruct (Hmade p Hp) as [_ Hm]; [by apply (dependency_before pre id rest node)|].
    destruct (Hm _ Hpc) as [x Hx]. rewrite Hx. by eexists.
Qed.

Lemma role_needed r :
  r ∈ nd_roles n → id_state (nr_identity r) = Present →
  SymRole (id_key (nr_identity r)) ∈ node_consumes node →
  creates_role (node_operation node) = None →
  is_Some (role_denotation (resources ctx) (id_key (nr_identity r))).
Proof.
  intros Hr Hs Hcons Hnone. rewrite (ri_role_den _ _ _ _ Hinv). unfold addr.
  rewrite (orig_role_of g n Hkeys) by done.
  pose proof (role_not_conflicting g n graph Hcompile r Hr) as (Hnc & Hown & _).
  destruct (resolve_role _ _ _) as [y| |reason] eqn:Hres; [..|by destruct (Hnc reason)].
  { destruct (synthetic_roles ctx !! _); by eexists. }
  destruct (Hown Hs eq_refl) as [Ho _].
  destruct (planned_node _ (req_create_role _ _ r Hr (conj Hs Ho) Hres)) as (cr & Hcr & Hop).
  destruct (graph_node_built cr Hcr) as (change & Hb%built_symbols). rewrite Hop in Hb.
  destruct (dependency_producer node cr (SymRole (id_key (nr_identity r))))
    as (p & Hp & Hprod & Hdep); [done..|rewrite Hb; by left|].
  pose proof (producer_creates p _ Hp Hprod) as Hpc. cbn in Hpc.
  destruct Hdep as [Heq|Hdep].
  - assert (p = node) as -> by (eapply (node_by_id nodes nodes_nodup); done). congruence.
  - destruct (Hmade p Hp) as [Hm _]; [by apply (dependency_before pre id rest node)|].
    destruct (Hm _ Hpc) as [x Hx]. rewrite Hx. by eexists.
Qed.

Lemma existing_role_denoted r y :
  r ∈ nd_roles n → resolve_role (mkResolver g) (nr_identity r) (nr_name r) = Existing y →
  is_Some (role_denotation (resources ctx) (id_key (nr_identity r))).
Proof.
  intros Hr Hres. rewrite (ri_role_den _ _ _ _ Hinv). unfold addr.
  rewrite (orig_role_of g n Hkeys), Hres by done.
  destruct (synthetic_roles ctx !! _); by eexists.
Qed.

Lemma existing_channel_denoted c y :
  c ∈ nd_channels n →
  resolve_channel (mkResolver g) (nc_identity c) (nc_name c) = Existing y →
  is_Some (channel_denotation (resources ctx) (id_key (nc_identity c))).
Proof.
  intros Hc Hres. rewrite (ri_channel_den _ _ _ _ Hinv). unfold addr.
  rewrite (orig_channel_of g n Hkeys), Hres by done.
  destruct (synthetic_channels ctx !! _); by eexists.
Qed.

Lemma overwrite_needed c o :
  c ∈ nd_channels n → id_state (nc_identity c) = Present → o ∈ nc_overwrites c →
  node_consumes node = overwrite_consumes (id_key (nc_identity c)) (no_target o) →
  creates_role (node_operation node) = None → creates_channel (node_operation node) = None →
  is_Some (channel_denotation (resources ctx) (id_key (nc_identity c)))
  ∧ is_Some (target_denotation (resources ctx) (no_target o)).
Proof.
  intros Hc Hs Ho Hcons Hnr Hnc. split.
  - destruct (channel_needed c) as [Hcr|]; [done..|rewrite Hcons; by left|congruence|done].
  - destruct (no_target o) as [|k|s] eqn:Ht; cbn; [by eexists|..].
    + destruct (un_overwrite_roles _ _ Hun c o k Hc Ho Ht) as (r & Hr & <- & Hrs & _).
      apply fmap_is_Some, role_needed; [done..| |done].
      rewrite Hcons. right. by left.
    + apply fmap_is_Some. by eapply rd_members.
Qed.

Lemma turn_resolvable : resolvable ctx (node_operation node).
Proof.
  destruct (graph_node_built node Hin) as (change & Hb%built_symbols).
  pose proof (graph_node_planned node Hin) as Hop.
  remember (node_operation node) as op eqn:Heq.
  destruct Hop as [r Hr Hown Hres|r cur Hr Hown Hres Hch|r cur Hr Hown Hres
    |c Hc Hown Hres|c cur Hc Hown Hres Hch|c cur Hc Hown Hres
    |c o Hc [Hs _] Hres Ho|c o cur t Hc [Hs _] Hres Ho Ht Hf
    |c o cur t co Hc [Hs _] Hres Ho Ht Hf Hch]; cbn [resolvable];
    try (apply overwrite_needed; by rewrite <- ?Heq);
    try (by eapply existing_role_denoted); try (by eapply existing_channel_denoted).
  - done.
  - destruct (nc_parent c) as [p|] eqn:Hp; [|done]. destruct Hb as [_ Hcons].
    destruct (rd_parents _ Href c p Hc Hp) as (c' & Hc' & <- & Hs').
    destruct (channel_needed c' Hc' Hs') as [Hcr|?]; [rewrite Hcons; by left| |by right].
    left. rewrite <- Heq in Hcr. by injection Hcr.
Qed.
End turn.

Lemma synthetic_grows {T} (id_of : T → Z) orig syn pool next op syn' pool' k :
  pool_effect id_of orig syn pool next op syn' pool' →
  is_Some (syn !! k) → is_Some (syn' !! k).
Proof.
  intros He Hk. destruct He; [done|..|done|done].
  rewrite lookup_insert. case_decide; [by eexists|done].
Qed.

Lemma made_step pre id node op ops (ctx ctx' : Ctx) :
  node ∈ nodes → node_id node = id → node_operation node = op →
  made pre ctx → step_spec g n op ctx ctx' → run_inv g n (op :: ops) ctx →
  made (pre ++ [id]) (push_applied id ctx').
Proof.
  intros Hin Hid Hop Hmade Hspec Hinv node' Hin' Hpre.
  pose proof (ss_roles _ _ _ _ _ Hspec) as Her. unfold role_effect in Her.
  pose proof (ss_channels _ _ _ _ _ Hspec) as Hec. unfold channel_effect in Hec.
  apply elem_of_app in Hpre as [Hpre|Hpre%list_elem_of_singleton].
  - destruct (Hmade node' Hin' Hpre) as [Hr Hc].
    split; intros k Hk; cbn; eapply synthetic_grows; eauto.
  - assert (node' = node) as -> by (eapply (node_by_id nodes nodes_nodup); congruence).
    rewrite Hop. split; intros k Hk; destruct op; try done; injection Hk as ->;
      [inversion Her as [|? ? ? ? ? ? ? Hk' Hsyn| |]|inversion Hec as [|? ? ? ? ? ? ? Hk' Hsyn| |]];
      cbn; rewrite <- Hsyn; rewrite lookup_insert_eq; by eexists.
Qed.

Lemma apply_all_total pre rest (ctx : Ctx) :
  order = pre ++ rest → run_inv g n (scheduled nodes rest) ctx → made pre ctx →
  ∃ ctx', apply_all nodes rest ctx = (Ok tt, ctx').
Proof.
  revert pre ctx. induction rest as [|id rest IH]; intros pre ctx Horder Hinv Hmade; cbn.
  { by eexists. }
  assert (id ∈ graph_ids nodes) as (node & Heq & Hin)%list_elem_of_fmap.
  { rewrite <- Hperm, Horder. apply elem_of_app. right. by left. }
  assert (Hf : List.find (λ m, node_id m =? id) nodes = Some node)
    by (by apply (find_key_elem node_id _ _ _ nodes_nodup)).
  cbn [scheduled omap list_omap] in Hinv. rewrite Hf in Hinv |- *. cbn in Hinv.
  destruct (apply_operation_ok (node_operation node) ctx) as (ctx1 & Hop).
  { by eapply turn_resolvable. }
  pose proof (step_effect _ _ _ _ _ _ Hinv Hop) as Hspec.
  destruct (IH (pre ++ [id]) (push_applied id ctx1)) as (ctx2 & Hrun).
  - by rewrite <- app_assoc.
  - apply run_inv_push. by eapply run_inv_advance.
  - by eapply made_step.
  - exists ctx2. unfold mbind, Cmd_bind, cmd_bind. rewrite Hop. exact Hrun.
Qed.
End total.

Section converge.
Context (g : GuildState) (n : NormalizedDesiredState) (graph : OperationGraph).
Context (Hwf : guild_wf g) (Hkeys : keys_distinct n) (Htargets : targets_distinct n).
Context (Hun : unambiguous g n) (Href : references_declared n).
Context (Hcompile : compile_operations (diff (mkResolver g) n) n = Ok graph).
Context (Hfit : op_ids_fit graph).
Context (Hids : 0 ≤ max_id g).
Context (Hroom : max_id g + 1 + Z.of_nat (length (graph_nodes graph)) ≤ u64_max).

Lemma apply_total : ∃ result, apply g graph n (mkResolver g) = Ok result.
Proof.
  unfold apply.
  pose proof Hcompile as (_ & ns & order & Hn & Hg & Horder)%compile_operations_inv.
  rewrite Horder.
  pose proof (compile_operations_nodup _ _ _ Hcompile Hfit) as Hnd.
  destruct (topological_order_Ok _ _ Hnd Horder) as [Hperm Hresp].
  pose proof (scheduled_perm _ _ Hnd Hperm) as Hsched.
  edestruct (apply_all_total g n graph) with (pre := @nil Z) as (ctx & Hrun);
    [done..|by apply (initial_inv g n graph)|by intros node _ ?%not_elem_of_nil|].
  rewrite Hrun. by eexists.
Qed.

(** C1: planning converges. For an unambiguous document with distinct keys and
    declared references, and a well-formed guild with identifiers to spare, the
    planned graph applies to the end, every planned operation is applied, and
    planning again finds neither a conflict nor a change to make. Every channel
    the plan created is under the parent the document names, and if the channels
    that were there before already were under theirs, which the planner does not
    change, the resulting guild satisfies the whole document. *)
Theorem plan_apply_converges :
  ∃ result, apply g graph n (mkResolver g) = Ok result
    ∧ va_applied result ≡ₚ graph_ids (graph_nodes graph)
    ∧ diff_quiet (diff (mkResolver (va_after result)) n)
    ∧ (∀ c current, c ∈ nd_channels n → owned_present (nc_identity c) →
         resolve_channel (mkResolver g) (nc_identity c) (nc_name c) = Missing →
         resolve_channel (mkResolver (va_after result)) (nc_identity c) (nc_name c)
         = Existing current → parent_matches (mkResolver (va_after result)) n c current)
    ∧ (parents_in_place (mkResolver g) n →
       desired_satisfied (mkResolver (va_after result)) n).
Proof.
  destruct apply_total as (result & Ha). exists result.
  destruct (plan_apply_satisfied g n graph Hwf Hkeys Htargets Hun (rd_parents _ Href) Hcompile result)
    as (Hq & Hpar & Hp); [done..|].
  split_and!; [done..| |].
  - intros c current Hc Hown Hmiss. apply Hpar; [done..|]. intros y Hy. congruence.
  - intros Hold. apply satisfied_quiet_parents. split; [done|].
    intros c current Hc Hs Ho. apply Hpar; [done..|]. intros y. by apply Hold.
Qed.
End converge.
