(* ===== verification/Preview.v ===== *)
(** * The preview model

    [crates/preview]: what an operator sees before approving: the operations of
    the graph as labelled changes, the access each subject gains or loses, and
    the decision of the policy engine. *)

From Stdlib Require Import ZArith Lia String.
From stdpp Require Import base decidable list strings gmap sorting.
From S2P Require Import Prelude RustStd DiscordModel DesiredState DesiredCompiler DiffEngine.
From S2P Require Import OperationGraph Policy Simulator Resolution VirtualApply.
Open Scope Z_scope.

Inductive PreviewSeverity := Info | Notice | Warning.

Inductive PreviewChangeKind :=
| RoleCreate | RoleUpdate | RoleDelete
| ChannelCreate | ChannelUpdate | ChannelDelete
| OverwriteCreate | OverwriteUpdate.

Record PreviewChange := mkPreviewChange {
  pc_kind : PreviewChangeKind;
  pc_target : string;
  pc_severity : PreviewSeverity;
}.

Record AccessChange := mkAccessChange {
  ac_subject : string;
  ac_channel : string;
  before_can_view : bool;
  after_can_view : bool;
  before_can_send : bool;
  after_can_send : bool;
}.

Record PreviewModel := mkPreview {
  pm_title : string;
  pm_verdict : Verdict;
  pm_approval_required : bool;
  pm_blocked : bool;
  pm_changes : list PreviewChange;
  pm_access_changes : list AccessChange;
  pm_policy_findings : list Finding;
  pm_warnings : list string;
  pm_deferred : list string;
}.

#[export] Instance AccessChange_eq_dec : EqDecision AccessChange.
Proof. solve_decision. Defined.

(** [target_label] of the preview, as opposed to that of the compiler's errors. *)
Definition preview_target_label (target : NormalizedTarget) : string :=
  match target with
  | Everyone => "@everyone"
  | NRole key => "role:" +:+ key
  | NMember id => "member:" +:+ id
  end.

Definition overwrite_severity (target : NormalizedTarget) : PreviewSeverity :=
  match target with Everyone => Notice | _ => Info end.

Definition label (name : option string) (key : ResourceKey) : string := default key name.

Definition change_of (op : Operation) : PreviewChange :=
  match op with
  | CreateRole key name _ => mkPreviewChange RoleCreate (label name key) Info
  | UpdateRole key name _ => mkPreviewChange RoleUpdate (label name key) Info
  | DeleteRole key => mkPreviewChange RoleDelete key Warning
  | CreateChannel key name _ _ => mkPreviewChange ChannelCreate (label name key) Info
  | UpdateChannel key name _ => mkPreviewChange ChannelUpdate (label name key) Info
  | DeleteChannel key => mkPreviewChange ChannelDelete key Warning
  | CreateOverwrite channel target _ _ =>
      mkPreviewChange OverwriteCreate (channel +:+ " / " +:+ preview_target_label target)
        (overwrite_severity target)
  | UpdateOverwrite channel target _ _ =>
      mkPreviewChange OverwriteUpdate (channel +:+ " / " +:+ preview_target_label target)
        (overwrite_severity target)
  end.

(** [.map(..).collect::<HashMap<_, _>>()]: a later cell replaces an earlier one. *)
Definition matrix_map (m : AccessMatrix) : gmap (string * string) (bool * bool) :=
  foldl (λ acc c, <[(cell_subject c, cell_channel c) := (cell_can_view c, cell_can_send c)]> acc)
    ∅ (cells m).

(** The [BTreeSet] of the keys of both maps. *)
Definition matrix_keys (before after : gmap (string * string) (bool * bool))
  : list ((string * string) * unit) :=
  foldl (λ s k, bt_insert k tt s) []
    ((map_to_list before).*1 ++ (map_to_list after).*1).

Definition access_change_of (before after : gmap (string * string) (bool * bool))
  (key : string * string) : option AccessChange :=
  let b := default (false, false) (before !! key) in
  let a := default (false, false) (after !! key) in
  if decide (b ≠ a) then Some (mkAccessChange key.1 key.2 b.1 a.1 b.2 a.2) else None.

Definition access_changes (before after : AccessMatrix) : list AccessChange :=
  let before_map := matrix_map before in
  let after_map := matrix_map after in
  omap (access_change_of before_map after_map) (matrix_keys before_map after_map).*1.

Definition build_preview (title : string) (diff : DiffResult) (graph : OperationGraph)
  (policy : PolicyDecision) (apply : VirtualApplyResult) (before after : AccessMatrix)
  : PreviewModel :=
  let verdict := decision_verdict policy in
  mkPreview title verdict (bool_decide (verdict = RequireApproval))
    (bool_decide (verdict = Deny))
    ((λ node, change_of (node_operation node)) <$> graph_nodes graph)
    (access_changes before after)
    (decision_findings policy)
    (va_warnings apply)
    ((λ item, di_kind item +:+ ":" +:+ di_key item) <$> deferred diff).

(** ** Access changes *)
Lemma keys_fold_sorted ks (s : list ((string * string) * unit)) :
  bt_sorted s → bt_sorted (foldl (λ s k, bt_insert k tt s) s ks).
Proof.
  revert s. induction ks as [|k ks IH]; cbn; intros s Hs; [done|].
  by apply IH, bt_upsert_sorted.
Qed.

Lemma keys_fold_get ks (s : list ((string * string) * unit)) key :
  bt_sorted s →
  bt_get (foldl (λ s k, bt_insert k tt s) s ks) key = Some tt
  ↔ key ∈ ks ∨ bt_get s key = Some tt.
Proof.
  revert s. induction ks as [|k ks IH]; cbn; intros s Hs.
  { rewrite elem_of_nil. naive_solver. }
  rewrite IH by (by apply bt_upsert_sorted). rewrite elem_of_cons. unfold bt_insert.
  destruct (decide (k = key)) as [->|Hne].
  - rewrite bt_get_upsert_eq by done. naive_solver.
  - rewrite bt_get_upsert_ne by done. naive_solver.
Qed.

Lemma matrix_keys_elem before after key :
  key ∈ (matrix_keys before after).*1 ↔ is_Some (before !! key) ∨ is_Some (after !! key).
Proof.
  assert (Hs : bt_sorted (matrix_keys before after))
    by (apply keys_fold_sorted; constructor).
  rewrite list_elem_of_fmap. transitivity ((key, tt) ∈ matrix_keys before after).
  { split; [|by eexists (_, _)]. by intros ([k []] & -> & ?). }
  rewrite bt_get_elem by done. unfold matrix_keys. rewrite keys_fold_get by constructor.
  rewrite elem_of_app, !list_elem_of_fmap. cbn. split.
  - intros [[([k v] & -> & Hv)|([k v] & -> & Hv)]|?]; [..|done];
      apply elem_of_map_to_list in Hv; cbn; eauto.
  - intros [[v Hv]|[v Hv]]; left; [left|right]; exists (key, v);
      by rewrite elem_of_map_to_list.
Qed.

(** What the last cell for a subject and a channel name says. *)
Definition access_of (m : AccessMatrix) (subject channel : string) : bool * bool :=
  match List.find (λ c, String.eqb (cell_subject c) subject && String.eqb (cell_channel c) channel)
          (reverse (cells m)) with
  | Some c => (cell_can_view c, cell_can_send c)
  | None => (false, false)
  end.

Lemma matrix_map_access m subject channel :
  default (false, false) (matrix_map m !! (subject, channel)) = access_of m subject channel.
Proof.
  unfold matrix_map, access_of. induction (cells m) as [|c l IH] using rev_ind; [done|].
  rewrite foldl_snoc, reverse_snoc, lookup_insert. cbn [List.find].
  destruct (String.eqb_spec (cell_subject c) subject) as [->|], 
    (String.eqb_spec (cell_channel c) channel) as [->|]; cbn [andb];
    rewrite ?decide_True by done; rewrite ?decide_False by congruence; done.
Qed.

(** The access changes of a preview are exactly the subject and channel
    pairs whose view or send access differs between the two matrices, with the
    access before and after, each pair once, in increasing order of the pair. *)
Theorem access_changes_exact before after :
  (∀ change, change ∈ access_changes before after ↔
     access_of before (ac_subject change) (ac_channel change)
       = (before_can_view change, before_can_send change)
     ∧ access_of after (ac_subject change) (ac_channel change)
       = (after_can_view change, after_can_send change)
     ∧ (before_can_view change, before_can_send change)
       ≠ (after_can_view change, after_can_send change))
  ∧ StronglySorted (λ x y, cmp (ac_subject x, ac_channel x) (ac_subject y, ac_channel y) = Lt)
      (access_changes before after).
Proof.
  split.
  - intros [s c bv av bs asend]. unfold access_changes. rewrite list_elem_of_omap. cbn.
    rewrite <- !matrix_map_access. unfold access_change_of. split.
    + intros ([s' c'] & Hk & Hch). case_decide as Hne; [|done]. cbn in *.
      injection Hch as <- <- <- <- <- <-.
      by destruct (default _ (matrix_map before !! _)), (default _ (matrix_map after !! _)).
    + intros (Hb & Ha & Hne). exists (s, c). rewrite Hb, Ha. split.
      * apply matrix_keys_elem.
        destruct (matrix_map before !! (s, c)), (matrix_map after !! (s, c)); eauto.
        cbn in Hb, Ha. congruence.
      * by rewrite decide_True.
  - unfold access_changes.
    assert (Hs : bt_sorted (matrix_keys (matrix_map before) (matrix_map after)))
      by (apply keys_fold_sorted; constructor).
    induction Hs as [|[k []] l Hs IH Hall]; cbn; [constructor|].
    unfold access_change_of at 1. case_decide; [|exact IH].
    constructor; [exact IH|]. apply Forall_forall. intros x Hx.
    apply list_elem_of_omap in Hx as (k' & Hk' & Hx).
    unfold access_change_of in Hx. case_decide; [|done]. injection Hx as <-. cbn.
    apply list_elem_of_fmap in Hk' as (e & -> & He).
    pose proof (proj1 (Forall_forall _ _) Hall e He) as Hlt. cbn in Hlt.
    by destruct k, e as [[] []].
Qed.
