(* ===== verification/Approval.v ===== *)
(** * Approval requests

    [crates/approval-manager]: a request starts from the policy verdict and
    collects approvals or a rejection; its state decides whether the plan may
    run. *)

From Stdlib Require Import ZArith Lia String.
From stdpp Require Import base decidable list strings gmap.
From S2P Require Import Prelude RustStd DiscordModel Policy Preview.
Open Scope Z_scope.

Inductive ApprovalState := Blocked | ReadyToExecute | PendingApproval | Approved | Rejected.

Inductive ApprovalError :=
| ErrBlocked | AlreadyRejected | AlreadyApproved | DuplicateApproval | NotRequired.

Record Rejection := mkRejection { rejected_by : UserId; rejection_reason : string }.

Record ApprovalRequest := mkApproval {
  ar_verdict : Verdict;
  requester : UserId;
  required_approvals : nat;
  approvals : list UserId;
  rejection : option Rejection;
}.

#[export] Instance ApprovalState_eq_dec : EqDecision ApprovalState.
Proof. solve_decision. Defined.
#[export] Instance ApprovalError_eq_dec : EqDecision ApprovalError.
Proof. solve_decision. Defined.

Definition required_for (verdict : Verdict) : nat :=
  match verdict with
  | Allow | Warn | Deny => 0
  | RequireApproval => 1
  end.

Definition approval_new (verdict : Verdict) (requester : UserId) : ApprovalRequest :=
  mkApproval verdict requester (required_for verdict) [] None.

Definition from_preview (preview : PreviewModel) (requester : UserId) : ApprovalRequest :=
  approval_new (pm_verdict preview) requester.

Definition approval_state (r : ApprovalRequest) : ApprovalState :=
  if decide (ar_verdict r = Deny) then Blocked
  else match rejection r with
       | Some _ => Rejected
       | None =>
           if Nat.eqb (required_approvals r) 0 then ReadyToExecute
           else if Nat.leb (required_approvals r) (length (approvals r)) then Approved
           else PendingApproval
       end.

Definition can_execute (r : ApprovalRequest) : bool :=
  match approval_state r with ReadyToExecute | Approved => true | _ => false end.

Definition gate (r : ApprovalRequest) : Result ApprovalError unit :=
  match approval_state r with
  | Blocked => Err ErrBlocked
  | Rejected => Err AlreadyRejected
  | ReadyToExecute => Err NotRequired
  | Approved => Err AlreadyApproved
  | PendingApproval => Ok tt
  end.

Definition approve (user : UserId) : Cmd ApprovalRequest ApprovalError unit :=
  _ ← cmd_lift gate;
  r ← cmd_get;
  if decide (user ∈ approvals r) then cmd_fail DuplicateApproval
  else cmd_modify (λ r, mkApproval (ar_verdict r) (requester r) (required_approvals r)
                          (approvals r ++ [user]) (rejection r)).

Definition reject (user : UserId) (reason : string) : Cmd ApprovalRequest ApprovalError unit :=
  _ ← cmd_lift gate;
  cmd_modify (λ r, mkApproval (ar_verdict r) (requester r) (required_approvals r)
                     (approvals r) (Some (mkRejection user reason))).

(** ** Histories

    What callers do to a request, whether or not the call is accepted. *)
Inductive ApprovalEvent :=
| EApprove (user : UserId)
| EReject (user : UserId) (reason : string).

Definition handle_event (r : ApprovalRequest) (e : ApprovalEvent) : ApprovalRequest :=
  match e with
  | EApprove user => (approve user r).2
  | EReject user reason => (reject user reason r).2
  end.

Definition run_events (events : list ApprovalEvent) (r : ApprovalRequest) : ApprovalRequest :=
  foldl handle_event r events.

(** The distinct approvers before the first rejection, in order of approval,
    and whether there is a rejection at all. *)
Fixpoint approvers (seen : list UserId) (events : list ApprovalEvent) : list UserId :=
  match events with
  | [] => seen
  | EReject _ _ :: _ => seen
  | EApprove user :: rest =>
      approvers (if decide (user ∈ seen) then seen else seen ++ [user]) rest
  end.

Definition has_rejection (events : list ApprovalEvent) : bool :=
  existsb (λ e, match e with EReject _ _ => true | _ => false end) events.

Lemma approvers_length seen events : (length seen ≤ length (approvers seen events))%nat.
Proof.
  induction events as [|[user|user reason] events IH] in seen |- *; cbn; [lia| |lia].
  etransitivity; [|apply IH]. case_decide; rewrite ?length_app; cbn; lia.
Qed.

(** Once decided, a request no longer changes. *)
Lemma gate_pending r : gate r = Ok tt ↔ approval_state r = PendingApproval.
Proof. unfold gate. destruct (approval_state r); naive_solver. Qed.

Lemma approve_result user r :
  (approve user r)
  = match gate r with
    | Err e => (Err e, r)
    | Ok _ => if decide (user ∈ approvals r) then (Err DuplicateApproval, r)
              else (Ok tt, mkApproval (ar_verdict r) (requester r) (required_approvals r)
                             (approvals r ++ [user]) (rejection r))
    end.
Proof.
  unfold approve, mbind, Cmd_bind, cmd_bind, cmd_lift. destruct (gate r) as [[]|]; [|done].
  cbn. by case_decide.
Qed.

Lemma reject_result user reason r :
  (reject user reason r)
  = match gate r with
    | Err e => (Err e, r)
    | Ok _ => (Ok tt, mkApproval (ar_verdict r) (requester r) (required_approvals r)
                        (approvals r) (Some (mkRejection user reason)))
    end.
Proof.
  unfold reject, mbind, Cmd_bind, cmd_bind, cmd_lift. by destruct (gate r) as [[]|].
Qed.

Lemma handle_event_decided r e :
  approval_state r ≠ PendingApproval → handle_event r e = r.
Proof.
  intros Hs. destruct (gate r) as [[]|err] eqn:Hg; [by apply gate_pending in Hg|].
  destruct e; cbn; [rewrite approve_result|rewrite reject_result]; by rewrite Hg.
Qed.

Lemma run_events_decided events r :
  approval_state r ≠ PendingApproval → run_events events r = r.
Proof.
  intros Hs. induction events as [|e events IH]; cbn; [done|].
  rewrite handle_event_decided by done. exact IH.
Qed.

(** The state a history leads to. *)
Definition history_state (verdict : Verdict) (required : nat) (seen : list UserId)
  (events : list ApprovalEvent) : ApprovalState :=
  if decide (verdict = Deny) then Blocked
  else if Nat.eqb required 0 then ReadyToExecute
  else if Nat.leb required (length (approvers seen events)) then Approved
  else if has_rejection events then Rejected
  else PendingApproval.

Lemma approval_state_pending r :
  rejection r = None →
  approval_state r = PendingApproval ↔
  ar_verdict r ≠ Deny ∧ (length (approvals r) < required_approvals r)%nat.
Proof.
  intros Hrej. unfold approval_state. rewrite Hrej.
  case_decide; [naive_solver|].
  destruct (Nat.eqb_spec (required_approvals r) 0); [split; [done|lia]|].
  destruct (Nat.leb_spec (required_approvals r) (length (approvals r)));
    (split; [try done|]); [intros; lia|done].
Qed.

Lemma history_state_decided r events :
  rejection r = None → approval_state r ≠ PendingApproval →
  history_state (ar_verdict r) (required_approvals r) (approvals r) events = approval_state r.
Proof.
  intros Hrej Hs. unfold approval_state, history_state in *. rewrite Hrej in *.
  case_decide; [done|]. destruct (Nat.eqb (required_approvals r) 0); [done|].
  destruct (Nat.leb_spec (required_approvals r) (length (approvals r))) as [Hle|]; [|done].
  pose proof (approvers_length (approvals r) events).
  by rewrite (proj2 (Nat.leb_le _ _)) by lia.
Qed.

Lemma run_events_state events r :
  rejection r = None →
  approval_state (run_events events r)
  = history_state (ar_verdict r) (required_approvals r) (approvals r) events.
Proof.
  revert r. induction events as [|e events IH]; intros r Hrej.
  { cbn. unfold approval_state, history_state. by rewrite Hrej. }
  destruct (decide (approval_state r = PendingApproval)) as [Hp|Hp];
    [|by rewrite run_events_decided, history_state_decided].
  assert (Hg : gate r = Ok tt) by (by apply gate_pending).
  destruct e as [user|user reason].
  - change (run_events (EApprove user :: events) r)
      with (run_events events (approve user r).2).
    rewrite approve_result, Hg. unfold history_state. cbn [approvers].
    case_decide as Hin; cbn [snd]; rewrite IH by done; done.
  - change (run_events (EReject user reason :: events) r)
      with (run_events events (reject user reason r).2).
    rewrite reject_result, Hg. cbn [snd].
    apply approval_state_pending in Hp as [Hv Hlt]; [|done].
    rewrite run_events_decided;
      [|unfold approval_state; cbn; by rewrite decide_False].
    unfold approval_state, history_state. cbn. rewrite !decide_False by done.
    rewrite (proj2 (Nat.eqb_neq _ _)), (proj2 (Nat.leb_gt _ _)) by lia. done.
Qed.

Lemma approval_history_state verdict user required events :
  let r := run_events events (mkApproval verdict user required [] None) in
  approval_state r = history_state verdict required [] events
  ∧ (can_execute r = true ↔
     verdict ≠ Deny
     ∧ (required = 0%nat ∨ (required ≤ length (approvers [] events))%nat)).
Proof.
  cbn. rewrite run_events_state by done. split; [done|].
  unfold can_execute. rewrite run_events_state by done. cbn. unfold history_state.
  case_decide; [naive_solver|].
  destruct (Nat.eqb_spec required 0); [naive_solver|].
  destruct (Nat.leb_spec required (length (approvers [] events))); [naive_solver|].
  destruct (has_rejection events); (split; [done|]); intros [_ [?|?]]; (done || lia).
Qed.

(** Whatever is asked of a request, in any order and number, its state is
    determined by the history: a denied plan stays blocked, one that needs no
    approval is ready, and one that needs [k] approvals is approved exactly when
    [k] distinct users approved before the first rejection, rejected when a
    rejection came first, and pending otherwise. A request may execute only in
    the ready and the approved states. *)
Theorem approval_history verdict user required events :
  let r := run_events events (mkApproval verdict user required [] None) in
  approval_state r = history_state verdict required [] events
  ∧ (can_execute r = true ↔
     verdict ≠ Deny
     ∧ (required = 0%nat ∨ (required ≤ length (approvers [] events))%nat)).
Proof. apply approval_history_state. Qed.

(** A call on a request that is not pending is refused with the error of its
    state and changes nothing; a pending request accepts a rejection from anyone
    and an approval from anyone who has not approved yet. *)
Theorem approval_calls r user reason :
  (approval_state r ≠ PendingApproval →
   approve user r = (Err (match approval_state r with
                          | Blocked => ErrBlocked | Rejected => AlreadyRejected
                          | ReadyToExecute => NotRequired | _ => AlreadyApproved end), r)
   ∧ (reject user reason r).2 = r ∧ (reject user reason r).1 = (approve user r).1)
  ∧ (approval_state r = PendingApproval →
     ((approve user r).1 = Ok tt ↔ user ∉ approvals r)
     ∧ (user ∈ approvals r → approve user r = (Err DuplicateApproval, r))
     ∧ (reject user reason r).1 = Ok tt
     ∧ approval_state (reject user reason r).2 = Rejected).
Proof.
  rewrite approve_result, reject_result. split; intros Hs.
  - destruct (gate r) as [[]|err] eqn:Hg; [by apply gate_pending in Hg|].
    unfold gate in Hg. destruct (approval_state r); try done; by injection Hg as <-.
  - rewrite (proj2 (gate_pending r) Hs). cbn.
    assert (ar_verdict r ≠ Deny) as Hv
      by (unfold approval_state in Hs; by case_decide).
    split_and!; [case_decide; naive_solver|intros; by rewrite decide_True|done|].
    unfold approval_state. cbn. by rewrite decide_False.
Qed.
