(* ===== verification/Executor.v ===== *)
(** * The executor

    [crates/executor-core]: an approved operation graph runs step by step
    against a Discord adapter, stops at the first failure, and undoes the
    successful steps in reverse order. The adapter is the interface
    [DiscordAdapter]: its methods are stateful computations over the adapter's own
    state (the remote guild, its rate limits, a log), so an implementation is an
    instance. [MockDiscordAdapter] is the one of [mock.rs]. *)

From Stdlib Require Import ZArith Lia String.
From stdpp Require Import base decidable list strings gmap sorting.
From S2P Require Import Prelude RustStd DiscordModel DesiredState DesiredCompiler DiffEngine OperationGraph.
From S2P Require Import Policy Resolution Preview Approval.
Open Scope Z_scope.

(** ** The adapter interface *)
Record RoleSpec := mkRoleSpec {
  rs_name : option string;
  rs_permissions : option Permissions;
}.

Record ChannelSpec := mkChannelSpec {
  cs_name : option string;
  cs_channel_type : option ChannelType;
  cs_parent_id : option ChannelId;
}.

Inductive AdapterErrorKind :=
| RateLimited | Timeout | Network | ServerError | Forbidden | MissingPermissions
| RoleHierarchy | NotFound | BadRequest | Unknown.

Record AdapterError := mkAdapterError {
  ae_kind : AdapterErrorKind;
  ae_message : string;
}.

Definition is_retryable (e : AdapterError) : bool :=
  match ae_kind e with
  | RateLimited | Timeout | Network | ServerError => true
  | _ => false
  end.

Class DiscordAdapter (A : Type) := {
  create_role : GuildId → RoleSpec → Cmd A AdapterError RoleId;
  update_role : GuildId → RoleId → RoleSpec → Cmd A AdapterError unit;
  delete_role : GuildId → RoleId → Cmd A AdapterError unit;
  create_channel : GuildId → ChannelSpec → Cmd A AdapterError ChannelId;
  update_channel : GuildId → ChannelId → ChannelSpec → Cmd A AdapterError unit;
  delete_channel : GuildId → ChannelId → Cmd A AdapterError unit;
  upsert_overwrite :
    GuildId → ChannelId → OverwriteTarget → Permissions → Permissions → Cmd A AdapterError unit;
}.

(** ** Requests and results *)
Record ApprovedExecutionRequest := mkExecutionRequest {
  er_operation_graph : OperationGraph;
  er_normalized : NormalizedDesiredState;
  er_approval : ApprovalRequest;
  er_snapshot : GuildState;
  er_guild_id : GuildId;
  er_requested_by : UserId;
  er_approved_by : list UserId;
}.

Inductive ExecutorError := NotApproved | ExecGraphCycle.

Inductive StepOutcome :=
| Success
| FailedRetryable (e : AdapterError)
| FailedFatal (e : AdapterError)
| Skipped.

Inductive CreatedResource :=
| CreatedRole (key : ResourceKey) (id : RoleId)
| CreatedChannel (key : ResourceKey) (id : ChannelId).

Inductive RollbackAction :=
| RbDeleteRole (id : RoleId)
| RbRestoreRole (id : RoleId) (before : Role)
| RbRecreateRole (before : Role)
| RbDeleteChannel (id : ChannelId)
| RbRestoreChannel (id : ChannelId) (before : Channel)
| RbRecreateChannel (before : Channel)
| RbRestoreOverwrite (channel : ChannelId) (target : OverwriteTarget)
    (before : option PermissionOverwrite).

Record StepResult := mkStep {
  step_op_id : OpId;
  step_outcome : StepOutcome;
  step_created : option CreatedResource;
  step_rollback : option RollbackAction;
}.

Inductive JobStatus := JobSucceeded | JobFailed.

Record JobResult := mkJob { job_status : JobStatus; job_steps : list StepResult }.

Inductive RollbackStatus := RbNotRequired | RbSucceeded | RbPartial | RbFailed.

Inductive RollbackOutcome :=
| Undone
| RollbackFailed (e : AdapterError)
| RollbackSkipped (reason : string).

Record RollbackStepResult := mkRollbackStep {
  rb_source_op_id : OpId;
  rb_action : RollbackAction;
  rb_outcome : RollbackOutcome;
}.

Record RollbackReport := mkReport {
  report_status : RollbackStatus;
  report_steps : list RollbackStepResult;
}.

Record JobRun := mkJobRun { run_job : JobResult; run_rollback_report : RollbackReport }.

(** ** Helpers of [execute.rs] *)
Definition fail_outcome (e : AdapterError) : StepOutcome :=
  if is_retryable e then FailedRetryable e else FailedFatal e.

(** The [Display] of [ResolutionError]. *)
Definition display_resolution_error (e : ResolutionError) : string :=
  match e with
  | UnresolvedKey key => "unresolved key: " +:+ key
  | MissingIdentity key => "missing identity for key: " +:+ key
  end.

Definition resolution_step (op_id : OpId) (e : ResolutionError) : StepResult :=
  mkStep op_id
    (FailedFatal (mkAdapterError Unknown ("unresolved: " +:+ display_resolution_error e)))
    None None.

Definition is_success (o : StepOutcome) : bool :=
  match o with Success => true | _ => false end.

Definition rollback_status (steps : list RollbackStepResult) : RollbackStatus :=
  match steps with
  | [] => RbNotRequired
  | _ =>
      if forallb (λ s, match rb_outcome s with Undone => true | _ => false end) steps
      then RbSucceeded
      else if forallb (λ s, match rb_outcome s with RollbackFailed _ => true | _ => false end) steps
      then RbFailed
      else RbPartial
  end.

Section executor.
Context {A : Type} `{DiscordAdapter A}.
Context {R : Type} `{ResourceResolver R}.
Abbreviation Ctx := (ResourceResolutionContext R).

(** A step whose adapter call went through or failed. *)
Definition adapter_step {B} (op_id : OpId) (result : Result AdapterError B)
  (created : B → option CreatedResource) (rollback : B → option RollbackAction) : StepResult :=
  match result with
  | Ok b => mkStep op_id Success (created b) (rollback b)
  | Err e => mkStep op_id (fail_outcome e) None None
  end.

Definition run_op (op_id : OpId) (op : Operation) (snapshot : GuildState) (guild : GuildId)
  (ctx : Ctx) (a : A) : StepResult * Ctx * A :=
  match op with
  | CreateRole key name permissions =>
      let (r, a') := create_role guild (mkRoleSpec name permissions) a in
      (adapter_step op_id r (λ id, Some (CreatedRole key id)) (λ id, Some (RbDeleteRole id)),
       match r with Ok id => bind_role key id ctx | Err _ => ctx end, a')
  | UpdateRole key name permissions =>
      let (rid, ctx') := resolve_role_key key ctx in
      match rid with
      | Err e => (resolution_step op_id e, ctx', a)
      | Ok id =>
          let before := List.find (λ r, role_id r =? id) (gs_roles snapshot) in
          let (r, a') := update_role guild id (mkRoleSpec name permissions) a in
          (adapter_step op_id r (λ _, None) (λ _, RbRestoreRole id <$> before), ctx', a')
      end
  | DeleteRole key =>
      let (rid, ctx') := resolve_role_key key ctx in
      match rid with
      | Err e => (resolution_step op_id e, ctx', a)
      | Ok id =>
          let before := List.find (λ r, role_id r =? id) (gs_roles snapshot) in
          let (r, a') := delete_role guild id a in
          (adapter_step op_id r (λ _, None) (λ _, RbRecreateRole <$> before), ctx', a')
      end
  | CreateChannel key name channel_type parent =>
      let (pid, ctx') := match parent with
                         | Some pk => let (r, c) := resolve_channel_key pk ctx in (Some <$> r, c)
                         | None => (Ok None, ctx)
                         end in
      match pid with
      | Err e => (resolution_step op_id e, ctx', a)
      | Ok parent_id =>
          let (r, a') := create_channel guild (mkChannelSpec name channel_type parent_id) a in
          (adapter_step op_id r (λ id, Some (CreatedChannel key id))
             (λ id, Some (RbDeleteChannel id)),
           match r with Ok id => bind_channel key id ctx' | Err _ => ctx' end, a')
      end
  | UpdateChannel key name channel_type =>
      let (cid, ctx') := resolve_channel_key key ctx in
      match cid with
      | Err e => (resolution_step op_id e, ctx', a)
      | Ok id =>
          let before := List.find (λ c, channel_id c =? id) (gs_channels snapshot) in
          let (r, a') := update_channel guild id (mkChannelSpec name channel_type None) a in
          (adapter_step op_id r (λ _, None) (λ _, RbRestoreChannel id <$> before), ctx', a')
      end
  | DeleteChannel key =>
      let (cid, ctx') := resolve_channel_key key ctx in
      match cid with
      | Err e => (resolution_step op_id e, ctx', a)
      | Ok id =>
          let before := List.find (λ c, channel_id c =? id) (gs_channels snapshot) in
          let (r, a') := delete_channel guild id a in
          (adapter_step op_id r (λ _, None) (λ _, RbRecreateChannel <$> before), ctx', a')
      end
  | CreateOverwrite channel target allow deny | UpdateOverwrite channel target allow deny =>
      let (cid, ctx') := resolve_channel_key channel ctx in
      match cid with
      | Err e => (resolution_step op_id e, ctx', a)
      | Ok channel_id' =>
          let (t, ctx'') := resolve_target target ctx' in
          match t with
          | Err e => (resolution_step op_id e, ctx'', a)
          | Ok ow_target' =>
              let before :=
                List.find (λ c, channel_id c =? channel_id') (gs_channels snapshot) ≫= λ c,
                List.find (λ o, bool_decide (ow_target o = ow_target')) (channel_overwrites c) in
              let (r, a') := upsert_overwrite guild channel_id' ow_target' allow deny a in
              (adapter_step op_id r (λ _, None)
                 (λ _, Some (RbRestoreOverwrite channel_id' ow_target' before)), ctx'', a')
          end
      end
  end.

(** The loop of [execute] over the schedule. *)
Fixpoint run_steps (nodes : list OperationNode) (snapshot : GuildState) (guild : GuildId)
  (order : list OpId) (stopped : bool) (ctx : Ctx) (a : A) : list StepResult * bool * A :=
  match order with
  | [] => ([], stopped, a)
  | id :: rest =>
      match List.find (λ n, node_id n =? id) nodes with
      | None => run_steps nodes snapshot guild rest stopped ctx a
      | Some node =>
          if stopped then
            let '(steps, stopped', a') := run_steps nodes snapshot guild rest stopped ctx a in
            (mkStep id Skipped None None :: steps, stopped', a')
          else
            let '(step, ctx', a1) := run_op id (node_operation node) snapshot guild ctx a in
            let '(steps, stopped', a') :=
              run_steps nodes snapshot guild rest (negb (is_success (step_outcome step))) ctx' a1
            in (step :: steps, stopped', a')
      end
  end.
End executor.

Section jobs.
Context {A : Type} `{DiscordAdapter A}.

Definition execute (request : ApprovedExecutionRequest) (a : A)
  : Result ExecutorError JobResult * A :=
  if negb (can_execute (er_approval request)) then (Err NotApproved, a)
  else match topological_order (er_operation_graph request) with
       | Err _ => (Err ExecGraphCycle, a)
       | Ok order =>
           let resolver := mkResolver (er_snapshot request) in
           let ctx := context_new (er_normalized request) resolver (er_guild_id request) in
           let '(steps, stopped, a') :=
             run_steps (graph_nodes (er_operation_graph request)) (er_snapshot request)
               (er_guild_id request) order false ctx a in
           (Ok (mkJob (if stopped then JobFailed else JobSucceeded) steps), a')
       end.

Definition run_rollback (guild : GuildId) (action : RollbackAction) (a : A)
  : RollbackOutcome * A :=
  let finish {B} (r : Result AdapterError B * A) : RollbackOutcome * A :=
    match r with
    | (Ok _, a') => (Undone, a')
    | (Err e, a') => (RollbackFailed e, a')
    end in
  match action with
  | RbDeleteRole id => finish (delete_role guild id a)
  | RbRestoreRole id before =>
      finish (update_role guild id
                (mkRoleSpec (Some (role_name before)) (Some (role_permissions before))) a)
  | RbRecreateRole before =>
      finish (create_role guild
                (mkRoleSpec (Some (role_name before)) (Some (role_permissions before))) a)
  | RbDeleteChannel id => finish (delete_channel guild id a)
  | RbRestoreChannel id before =>
      finish (update_channel guild id
                (mkChannelSpec (Some (channel_name before)) (Some (channel_kind before))
                   (channel_parent_id before)) a)
  | RbRecreateChannel before =>
      finish (create_channel guild
                (mkChannelSpec (Some (channel_name before)) (Some (channel_kind before))
                   (channel_parent_id before)) a)
  | RbRestoreOverwrite channel target before =>
      match before with
      | Some overwrite =>
          finish (upsert_overwrite guild channel target (ow_allow overwrite)
                    (ow_deny overwrite) a)
      | None => (RollbackSkipped "delete overwrite is not supported in Phase 15", a)
      end
  end.

(** The loop of [rollback], over the steps already reversed. *)
Fixpoint rollback_steps (guild : GuildId) (steps : list StepResult) (a : A)
  : list RollbackStepResult * A :=
  match steps with
  | [] => ([], a)
  | step :: rest =>
      match step_outcome step, step_rollback step with
      | Success, Some action =>
          let (outcome, a1) := run_rollback guild action a in
          let (results, a') := rollback_steps guild rest a1 in
          (mkRollbackStep (step_op_id step) action outcome :: results, a')
      | _, _ => rollback_steps guild rest a
      end
  end.

Definition rollback (job : JobResult) (guild : GuildId) (a : A) : RollbackReport * A :=
  let (steps, a') := rollback_steps guild (reverse (job_steps job)) a in
  (mkReport (rollback_status steps) steps, a').

Definition execute_with_rollback (request : ApprovedExecutionRequest) (a : A)
  : Result ExecutorError JobRun * A :=
  match execute request a with
  | (Err e, a') => (Err e, a')
  | (Ok job, a') =>
      match job_status job with
      | JobSucceeded => (Ok (mkJobRun job (mkReport RbNotRequired [])), a')
      | JobFailed =>
          let (report, a'') := rollback job (er_guild_id request) a' in
          (Ok (mkJobRun job report), a'')
      end
  end.
End jobs.

(** ** The mock adapter

    [crates/executor-core/src/mock.rs]: an adapter that logs every call, fails
    the calls it was told to, and hands out increasing identifiers. The atomic
    counter and the mutex-protected log become the adapter's state. *)

Inductive AdapterCall :=
| CallCreateRole (guild : GuildId) (spec : RoleSpec)
| CallUpdateRole (guild : GuildId) (id : RoleId) (spec : RoleSpec)
| CallDeleteRole (guild : GuildId) (id : RoleId)
| CallCreateChannel (guild : GuildId) (spec : ChannelSpec)
| CallUpdateChannel (guild : GuildId) (id : ChannelId) (spec : ChannelSpec)
| CallDeleteChannel (guild : GuildId) (id : ChannelId)
| CallUpsertOverwrite (guild : GuildId) (channel : ChannelId) (target : OverwriteTarget)
    (allow deny : Permissions).

Record MockDiscordAdapter := mkMock {
  mock_next_id : Z;
  mock_calls : list AdapterCall;
  mock_fail_on : list (nat * AdapterError);
}.

Definition mock_new : MockDiscordAdapter := mkMock 900000 [] [].
Definition mock_with_failures (failures : list (nat * AdapterError)) : MockDiscordAdapter :=
  mkMock 900000 [] failures.
Definition mock_with_failure (call_number : nat) (error : AdapterError) : MockDiscordAdapter :=
  mock_with_failures [(call_number, error)].

Definition mock_record (call : AdapterCall) : Cmd MockDiscordAdapter AdapterError nat :=
  λ m, (Ok (S (length (mock_calls m))),
        mkMock (mock_next_id m) (mock_calls m ++ [call]) (mock_fail_on m)).

Definition mock_check_fail (call_number : nat) : Cmd MockDiscordAdapter AdapterError unit :=
  λ m, (match List.find (λ f, Nat.eqb f.1 call_number) (mock_fail_on m) with
        | Some (_, err) => Err err
        | None => Ok tt
        end, m).

(** [fetch_add] on an atomic [u64] wraps. *)
Definition mock_next : Cmd MockDiscordAdapter AdapterError Z :=
  λ m, (Ok (mock_next_id m),
        mkMock (u64_wrapping_add (mock_next_id m) 1) (mock_calls m) (mock_fail_on m)).

Definition mock_call (call : AdapterCall) : Cmd MockDiscordAdapter AdapterError unit :=
  n ← mock_record call; mock_check_fail n.

#[export] Instance MockDiscordAdapter_adapter : DiscordAdapter MockDiscordAdapter := {
  create_role guild spec := _ ← mock_call (CallCreateRole guild spec); mock_next;
  update_role guild id spec := mock_call (CallUpdateRole guild id spec);
  delete_role guild id := mock_call (CallDeleteRole guild id);
  create_channel guild spec := _ ← mock_call (CallCreateChannel guild spec); mock_next;
  update_channel guild id spec := mock_call (CallUpdateChannel guild id spec);
  delete_channel guild id := mock_call (CallDeleteChannel guild id);
  upsert_overwrite guild channel target allow deny :=
    mock_call (CallUpsertOverwrite guild channel target allow deny);
}.

(** Performing a logged call on any adapter; creations return an identifier. *)
Definition perform {A} `{DiscordAdapter A} (call : AdapterCall)
  : Cmd A AdapterError (option Z) :=
  match call with
  | CallCreateRole guild spec => id ← create_role guild spec; cmd_ret (Some id)
  | CallUpdateRole guild id spec => _ ← update_role guild id spec; cmd_ret None
  | CallDeleteRole guild id => _ ← delete_role guild id; cmd_ret None
  | CallCreateChannel guild spec => id ← create_channel guild spec; cmd_ret (Some id)
  | CallUpdateChannel guild id spec => _ ← update_channel guild id spec; cmd_ret None
  | CallDeleteChannel guild id => _ ← delete_channel guild id; cmd_ret None
  | CallUpsertOverwrite guild channel target allow deny =>
      _ ← upsert_overwrite guild channel target allow deny; cmd_ret None
  end.

(** The mock logs exactly the calls it is asked to perform, failed or not. *)
Lemma mock_call_logs call m :
  mock_calls (mock_call call m).2 = mock_calls m ++ [call].
Proof. done. Qed.

Lemma mock_perform_logs call m :
  mock_calls (perform call m).2 = mock_calls m ++ [call].
Proof.
  destruct call; cbn; unfold mbind, Cmd_bind, cmd_bind;
    match goal with |- context [mock_call ?c m] =>
      pose proof (mock_call_logs c m) as Hl; destruct (mock_call c m) as [[[]|e] m'] end; done.
Qed.
