(* ===== verification/ExecutorSpec.v ===== *)
(** * What execution guarantees

    Nothing reaches the adapter without approval; each step makes at most one
    call, the one its operation denotes; a failure stops the run; the rollback
    undoes the successful steps in reverse. *)

From Stdlib Require Import ZArith Lia String.
From stdpp Require Import base decidable list strings gmap sorting.
From S2P Require Import Prelude RustStd DiscordModel DesiredState DesiredCompiler DiffEngine.
From S2P Require Import OperationGraph GraphOrder Resolution Policy Preview Approval.
From S2P Require Import Executor.
Open Scope Z_scope.

(** The result of the adapter call at hand, on both sides. *)
Ltac adapter_call :=
  cbn [perform]; unfold mbind, Cmd_bind, cmd_bind;
  match goal with
  | |- context [create_role ?g ?s ?a] => destruct (create_role g s a) as [[]?]
  | |- context [update_role ?g ?i ?s ?a] => destruct (update_role g i s a) as [[]?]
  | |- context [delete_role ?g ?i ?a] => destruct (delete_role g i a) as [[]?]
  | |- context [create_channel ?g ?s ?a] => destruct (create_channel g s a) as [[]?]
  | |- context [update_channel ?g ?i ?s ?a] => destruct (update_channel g i s a) as [[]?]
  | |- context [delete_channel ?g ?i ?a] => destruct (delete_channel g i a) as [[]?]
  | |- context [upsert_overwrite ?g ?c ?t ?x ?y ?a] =>
      destruct (upsert_overwrite g c t x y a) as [[]?]
  end; cbn.

Section one_step.
Context {A : Type} `{DiscordAdapter A}.
Context {R : Type} `{ResourceResolver R}.
Abbreviation Ctx := (ResourceResolutionContext R).

(** The call an operation stands for once its keys are resolved. *)
Definition call_for (ctx : Ctx) (guild : GuildId) (op : Operation) : option AdapterCall :=
  match op with
  | CreateRole _ name permissions => Some (CallCreateRole guild (mkRoleSpec name permissions))
  | UpdateRole key name permissions =>
      (λ id, CallUpdateRole guild id (mkRoleSpec name permissions)) <$> role_denotation ctx key
  | DeleteRole key => CallDeleteRole guild <$> role_denotation ctx key
  | CreateChannel _ name channel_type None =>
      Some (CallCreateChannel guild (mkChannelSpec name channel_type None))
  | CreateChannel _ name channel_type (Some p) =>
      (λ id, CallCreateChannel guild (mkChannelSpec name channel_type (Some id)))
      <$> channel_denotation ctx p
  | UpdateChannel key name channel_type =>
      (λ id, CallUpdateChannel guild id (mkChannelSpec name channel_type None))
      <$> channel_denotation ctx key
  | DeleteChannel key => CallDeleteChannel guild <$> channel_denotation ctx key
  | CreateOverwrite channel target allow deny | UpdateOverwrite channel target allow deny =>
      id ← channel_denotation ctx channel;
      t ← target_denotation ctx target;
      Some (CallUpsertOverwrite guild id t allow deny)
  end.

(** The action that undoes a call that returned [id], from the snapshot. *)
Definition undo_for (snapshot : GuildState) (call : AdapterCall) (id : option Z)
  : option RollbackAction :=
  match call with
  | CallCreateRole _ _ => RbDeleteRole <$> id
  | CallUpdateRole _ rid _ =>
      RbRestoreRole rid <$> List.find (λ r, role_id r =? rid) (gs_roles snapshot)
  | CallDeleteRole _ rid =>
      RbRecreateRole <$> List.find (λ r, role_id r =? rid) (gs_roles snapshot)
  | CallCreateChannel _ _ => RbDeleteChannel <$> id
  | CallUpdateChannel _ cid _ =>
      RbRestoreChannel cid <$> List.find (λ c, channel_id c =? cid) (gs_channels snapshot)
  | CallDeleteChannel _ cid =>
      RbRecreateChannel <$> List.find (λ c, channel_id c =? cid) (gs_channels snapshot)
  | CallUpsertOverwrite _ cid t _ _ =>
      Some (RbRestoreOverwrite cid t
        (List.find (λ c, channel_id c =? cid) (gs_channels snapshot) ≫= λ c,
         List.find (λ o, bool_decide (ow_target o = t)) (channel_overwrites c)))
  end.

Definition created_for (op : Operation) (id : option Z) : option CreatedResource :=
  match op with
  | CreateRole key _ _ => CreatedRole key <$> id
  | CreateChannel key _ _ _ => CreatedChannel key <$> id
  | _ => None
  end.

(** The context after a step that returned [id]: a created key is bound to it,
    every other key denotes what it did. *)
Definition context_after (op : Operation) (id : option Z) (ctx ctx' : Ctx) : Prop :=
  match op, id with
  | CreateRole key _ _, Some i =>
      same_denotation (bind_role key i ctx) ctx'
  | CreateChannel key _ _ _, Some i => same_denotation (bind_channel key i ctx) ctx'
  | _, _ => same_denotation ctx ctx'
  end.

Lemma bind_channel_same key i (ctx ctx' : Ctx) :
  same_denotation ctx ctx' → same_denotation (bind_channel key i ctx) (bind_channel key i ctx').
Proof.
  intros (Hr & Hc & Hg). split_and!; [done| |done].
  intros k. rewrite !channel_denotation_bind. by case_decide.
Qed.

(** A step specification shared by the branches of [run_op]. *)
Definition step_ok (op_id : OpId) (op : Operation) (snapshot : GuildState) (guild : GuildId)
  (ctx : Ctx) (a : A) (out : StepResult * Ctx * A) : Prop :=
  let '(step, ctx', a') := out in
  step_op_id step = op_id ∧
  match call_for ctx guild op with
  | None => a' = a ∧ same_denotation ctx ctx'
      ∧ ∃ message, step = mkStep op_id (FailedFatal (mkAdapterError Unknown message)) None None
  | Some call =>
      a' = (perform call a).2
      ∧ match (perform call a).1 with
        | Ok id => step = mkStep op_id Success (created_for op id) (undo_for snapshot call id)
                   ∧ context_after op id ctx ctx'
        | Err e => step = mkStep op_id (fail_outcome e) None None ∧ same_denotation ctx ctx'
        end
  end.

Lemma role_key_case key (ctx : Ctx) :
  (∃ id ctx', resolve_role_key key ctx = (Ok id, ctx') ∧ role_denotation ctx key = Some id
              ∧ same_denotation ctx ctx')
  ∨ (∃ e ctx', resolve_role_key key ctx = (Err e, ctx') ∧ role_denotation ctx key = None
               ∧ same_denotation ctx ctx').
Proof.
  pose proof (resolve_role_key_denotes key ctx) as Hd.
  destruct (resolve_role_key key ctx) as [[id|e] ctx']; destruct Hd as [Hs Hd]; naive_solver.
Qed.

Lemma channel_key_case key (ctx : Ctx) :
  (∃ id ctx', resolve_channel_key key ctx = (Ok id, ctx') ∧ channel_denotation ctx key = Some id
              ∧ same_denotation ctx ctx')
  ∨ (∃ e ctx', resolve_channel_key key ctx = (Err e, ctx') ∧ channel_denotation ctx key = None
               ∧ same_denotation ctx ctx').
Proof.
  pose proof (resolve_channel_key_denotes key ctx) as Hd.
  destruct (resolve_channel_key key ctx) as [[id|e] ctx']; destruct Hd as [Hs Hd]; naive_solver.
Qed.

Lemma target_case target (ctx ctx0 : Ctx) :
  same_denotation ctx0 ctx →
  (∃ t ctx', resolve_target target ctx = (Ok t, ctx') ∧ target_denotation ctx0 target = Some t
              ∧ same_denotation ctx0 ctx')
  ∨ (∃ e ctx', resolve_target target ctx = (Err e, ctx') ∧ target_denotation ctx0 target = None
               ∧ same_denotation ctx0 ctx').
Proof.
  intros Hs0. pose proof (resolve_target_denotes target ctx) as Hd.
  rewrite (target_denotation_same _ _ target Hs0) in Hd.
  destruct (resolve_target target ctx) as [[id|e] ctx']; destruct Hd as [Hs Hd].
  - left. eexists _, _. split_and!; [done..|by transitivity ctx].
  - right. eexists _, _. split_and!; [done..|by transitivity ctx].
Qed.

(** Computes the branch of [run_op] and the call for resolved keys. *)
Lemma same_denotation_refl (ctx : Ctx) : same_denotation ctx ctx.
Proof. reflexivity. Qed.

Local Ltac branch Hr Hd :=
  rewrite ?Hr; cbn [fmap option_fmap option_map Result_fmap]; unfold step_ok;
  cbn [call_for]; rewrite ?Hd;
  cbn [fmap option_fmap option_map mbind option_bind].
Local Ltac called := adapter_call; eauto using bind_channel_same, same_denotation_refl.

Lemma run_op_step op_id op snapshot guild (ctx : Ctx) a :
  step_ok op_id op snapshot guild ctx a (run_op op_id op snapshot guild ctx a).
Proof.
  destruct op as [key name perms|key name perms|key|key name kind parent|key name kind|key
                 |ch t allow deny|ch t allow deny]; cbn [run_op].
  - unfold step_ok. cbn [call_for]. called.
  - destruct (role_key_case key ctx) as [(id & ctx' & Hr & Hd & Hs)|(e & ctx' & Hr & Hd & Hs)];
      branch Hr Hd; [called|by eauto].
  - destruct (role_key_case key ctx) as [(id & ctx' & Hr & Hd & Hs)|(e & ctx' & Hr & Hd & Hs)];
      branch Hr Hd; [called|by eauto].
  - destruct parent as [p|]; [|unfold step_ok; cbn [call_for]; called].
    destruct (channel_key_case p ctx) as [(id & ctx' & Hr & Hd & Hs)|(e & ctx' & Hr & Hd & Hs)];
      branch Hr Hd; [called|by eauto].
  - destruct (channel_key_case key ctx) as [(id & ctx' & Hr & Hd & Hs)|(e & ctx' & Hr & Hd & Hs)];
      branch Hr Hd; [called|by eauto].
  - destruct (channel_key_case key ctx) as [(id & ctx' & Hr & Hd & Hs)|(e & ctx' & Hr & Hd & Hs)];
      branch Hr Hd; [called|by eauto].
  - destruct (channel_key_case ch ctx) as [(id & ctx' & Hr & Hd & Hs)|(e & ctx' & Hr & Hd & Hs)];
      branch Hr Hd; [|by eauto].
    destruct (target_case t ctx' ctx Hs) as [(t' & ctx2 & Hr' & Hd' & Hs')|(e & ctx2 & Hr' & Hd' & Hs')];
      branch Hr' Hd'; [called|by eauto].
  - destruct (channel_key_case ch ctx) as [(id & ctx' & Hr & Hd & Hs)|(e & ctx' & Hr & Hd & Hs)];
      branch Hr Hd; [|by eauto].
    destruct (target_case t ctx' ctx Hs) as [(t' & ctx2 & Hr' & Hd' & Hs')|(e & ctx2 & Hr' & Hd' & Hs')];
      branch Hr' Hd'; [called|by eauto].
Qed.
End one_step.

(** A step of the executor makes no call when a key of its operation does
    not resolve, and is then a fatal failure; otherwise it makes exactly the one
    call its operation denotes, succeeds or fails as the call does, reports the
    created resource and the action that undoes the call from the snapshot, and
    binds the created key while every other key keeps its denotation. *)
Theorem run_op_single_call {A} `{DiscordAdapter A} {R} `{ResourceResolver R}
  op_id op snapshot guild (ctx : ResourceResolutionContext R) (a : A) :
  step_ok op_id op snapshot guild ctx a (run_op op_id op snapshot guild ctx a).
Proof. apply run_op_step. Qed.

(** ** Whole runs *)
Definition step_skipped (s : StepResult) : Prop :=
  step_outcome s = Skipped ∧ step_created s = None ∧ step_rollback s = None.
Definition step_failed (s : StepResult) : Prop :=
  (∃ e, step_outcome s = fail_outcome e) ∧ step_created s = None ∧ step_rollback s = None.

(** All steps succeeded, or one failed and the rest was skipped. *)
Inductive run_shape : list StepResult → bool → Prop :=
| shape_done steps :
    Forall (λ s, step_outcome s = Success) steps → run_shape steps false
| shape_failed pre step post :
    Forall (λ s, step_outcome s = Success) pre → step_failed step → Forall step_skipped post →
    run_shape (pre ++ step :: post) true.

Section runs.
Context {A : Type} `{DiscordAdapter A}.
Context {R : Type} `{ResourceResolver R}.
Abbreviation Ctx := (ResourceResolutionContext R).

Lemma run_op_outcome op_id op snapshot guild (ctx : Ctx) (a : A) :
  let '(step, _, _) := run_op op_id op snapshot guild ctx a in
  step_op_id step = op_id ∧ (step_outcome step = Success ∨ step_failed step).
Proof.
  pose proof (run_op_step op_id op snapshot guild ctx a) as Hs.
  destruct (run_op op_id op snapshot guild ctx a) as [[step ctx'] a'].
  destruct Hs as [Hid Hs]. split; [done|].
  destruct (call_for ctx guild op) as [call|].
  - destruct Hs as [_ Hs]. destruct (perform call a).1.
    + destruct Hs as [-> _]. by left.
    + destruct Hs as [-> _]. right. unfold step_failed. eauto.
  - destruct Hs as (_ & _ & message & ->). right. split; [|done].
    by exists (mkAdapterError Unknown message).
Qed.

Lemma find_node nodes id :
  id ∈ graph_ids nodes → ∃ node, List.find (λ m, node_id m =? id) nodes = Some node.
Proof.
  intros (node & -> & Hin)%list_elem_of_fmap.
  destruct (List.find _ nodes) as [m|] eqn:Hf; [eauto|].
  apply list_elem_of_In, (find_none _ _ Hf) in Hin. by rewrite Z.eqb_refl in Hin.
Qed.

Lemma run_steps_stopped nodes snapshot guild order (ctx : Ctx) (a : A) :
  (∀ id, id ∈ order → id ∈ graph_ids nodes) →
  ∃ steps, run_steps nodes snapshot guild order true ctx a = (steps, true, a)
    ∧ step_op_id <$> steps = order ∧ Forall step_skipped steps.
Proof.
  induction order as [|id order IH]; intros Hin; cbn; [by exists []|].
  destruct (find_node nodes id) as (node & ->); [apply Hin; by left|].
  destruct IH as (steps & -> & Hids & Hall); [intros; apply Hin; by right|].
  eexists. split; [done|]. cbn. rewrite Hids. split; [done|]. by constructor.
Qed.

Lemma run_steps_shape nodes snapshot guild order (ctx : Ctx) (a : A) :
  (∀ id, id ∈ order → id ∈ graph_ids nodes) →
  let '(steps, stopped, _) := run_steps nodes snapshot guild order false ctx a in
  step_op_id <$> steps = order ∧ run_shape steps stopped.
Proof.
  revert ctx a. induction order as [|id order IH]; intros ctx a Hin; cbn.
  { split; [done|]. by constructor. }
  destruct (find_node nodes id) as (node & ->); [apply Hin; by left|].
  pose proof (run_op_outcome id (node_operation node) snapshot guild ctx a) as Hop.
  destruct (run_op id (node_operation node) snapshot guild ctx a) as [[step ctx'] a1].
  destruct Hop as [Hid [Hs|Hf]].
  - rewrite Hs. cbn. specialize (IH ctx' a1).
    destruct (run_steps nodes snapshot guild order false ctx' a1) as [[steps stopped] a'].
    destruct IH as [Hids Hshape]; [intros; apply Hin; by right|].
    cbn. rewrite Hid, Hids. split; [done|].
    inversion Hshape; subst; [constructor; by constructor|].
    rewrite app_comm_cons. constructor; [|done..]. by constructor.
  - assert (is_success (step_outcome step) = false) as ->
      by (destruct Hf as [(e & ->) _]; unfold fail_outcome; by destruct (is_retryable e)).
    cbn. destruct (run_steps_stopped nodes snapshot guild order ctx' a1)
      as (steps & -> & Hids & Hall); [intros; apply Hin; by right|].
    cbn. rewrite Hid, Hids. split; [done|]. by apply (shape_failed []).
Qed.
End runs.

Section guarantees.
Context {A : Type} `{DiscordAdapter A}.

(** C4: without approval, or with a graph that has no schedule, execution
    returns the error and the adapter is untouched; otherwise the steps follow a
    topological order of the whole graph, and either all succeeded and the job
    did, or exactly one step failed, everything before it succeeded, everything
    after it was skipped and the job failed. *)
Theorem execute_gated_and_stops (request : ApprovedExecutionRequest) (a : A) :
  NoDup (graph_ids (graph_nodes (er_operation_graph request))) →
  match execute request a with
  | (Err NotApproved, a') => a' = a ∧ can_execute (er_approval request) = false
  | (Err ExecGraphCycle, a') => a' = a
      ∧ ∀ order, ¬ is_topological (er_operation_graph request) order
  | (Ok job, _) => can_execute (er_approval request) = true
      ∧ is_topological (er_operation_graph request) (step_op_id <$> job_steps job)
      ∧ run_shape (job_steps job)
          (match job_status job with JobSucceeded => false | JobFailed => true end)
  end.
Proof.
  intros Hnd. unfold execute. destruct (can_execute (er_approval request)); cbn; [|done].
  destruct (topological_order (er_operation_graph request)) as [order|e] eqn:Ho.
  - pose proof (topological_order_Ok _ _ Hnd Ho) as Htop.
    pose proof (run_steps_shape (graph_nodes (er_operation_graph request))
      (er_snapshot request) (er_guild_id request) order
      (context_new (er_normalized request) (mkResolver (er_snapshot request))
         (er_guild_id request)) a) as Hrun.
    destruct (run_steps _ _ _ _ _ _ _) as [[steps stopped] a'].
    destruct Hrun as [Hids Hshape].
    { intros id Hid. by rewrite (proj1 Htop) in Hid. }
    cbn. rewrite Hids. by destruct stopped.
  - split; [done|]. by apply topological_order_Err in Ho as [_ ?].
Qed.

(** ** Rollback *)

(** The call that takes a successful call back, from what the snapshot knew: a creation is
    deleted, a change or a deletion gives the resource its former fields. There is none for a
    resource the snapshot does not have, nor for an overwrite that was not there before, which
    no method of the adapter removes. *)
Definition inverse_call (snapshot : GuildState) (made : AdapterCall * option Z)
  : option AdapterCall :=
  let former_role id := List.find (λ r, role_id r =? id) (gs_roles snapshot) in
  let former_channel id := List.find (λ c, channel_id c =? id) (gs_channels snapshot) in
  let role_fields r := mkRoleSpec (Some (role_name r)) (Some (role_permissions r)) in
  let channel_fields c :=
    mkChannelSpec (Some (channel_name c)) (Some (channel_kind c)) (channel_parent_id c) in
  match made.1 with
  | CallCreateRole guild _ => CallDeleteRole guild <$> made.2
  | CallUpdateRole guild id _ => CallUpdateRole guild id <$> (role_fields <$> former_role id)
  | CallDeleteRole guild id => CallCreateRole guild <$> (role_fields <$> former_role id)
  | CallCreateChannel guild _ => CallDeleteChannel guild <$> made.2
  | CallUpdateChannel guild id _ => CallUpdateChannel guild id <$> (channel_fields <$> former_channel id)
  | CallDeleteChannel guild id => CallCreateChannel guild <$> (channel_fields <$> former_channel id)
  | CallUpsertOverwrite guild id target _ _ =>
      c ← former_channel id;
      o ← List.find (λ o, bool_decide (ow_target o = target)) (channel_overwrites c);
      Some (CallUpsertOverwrite guild id target (ow_allow o) (ow_deny o))
  end.

(** The adapter was asked for these calls, in this order, and answered so. *)
Inductive performed : list (AdapterCall * Result AdapterError (option Z)) → A → A → Prop :=
| performed_nil a : performed [] a a
| performed_cons call answer calls a a1 a2 :
    perform call a = (answer, a1) → performed calls a1 a2 →
    performed ((call, answer) :: calls) a a2.

Definition went_through (made : AdapterCall * option Z)
  : AdapterCall * Result AdapterError (option Z) := (made.1, Ok made.2).

Definition answered {B} (answer : Result AdapterError B) : bool :=
  match answer with Ok _ => true | Err _ => false end.

(** Whether the call of a reported rollback step went through, if there was one. *)
Definition call_result (o : RollbackOutcome) : option bool :=
  match o with Undone => Some true | RollbackFailed _ => Some false | RollbackSkipped _ => None end.

Definition undoable (s : StepResult) : option RollbackAction :=
  match step_outcome s with Success => step_rollback s | _ => None end.

(** The call an action asks for. *)
Definition action_call (guild : GuildId) (action : RollbackAction) : option AdapterCall :=
  match action with
  | RbDeleteRole id => Some (CallDeleteRole guild id)
  | RbRestoreRole id r =>
      Some (CallUpdateRole guild id (mkRoleSpec (Some (role_name r)) (Some (role_permissions r))))
  | RbRecreateRole r =>
      Some (CallCreateRole guild (mkRoleSpec (Some (role_name r)) (Some (role_permissions r))))
  | RbDeleteChannel id => Some (CallDeleteChannel guild id)
  | RbRestoreChannel id c =>
      Some (CallUpdateChannel guild id
              (mkChannelSpec (Some (channel_name c)) (Some (channel_kind c)) (channel_parent_id c)))
  | RbRecreateChannel c =>
      Some (CallCreateChannel guild
              (mkChannelSpec (Some (channel_name c)) (Some (channel_kind c)) (channel_parent_id c)))
  | RbRestoreOverwrite id target before =>
      (λ o, CallUpsertOverwrite guild id target (ow_allow o) (ow_deny o)) <$> before
  end.

Lemma run_rollback_call guild action (a : A) :
  match action_call guild action with
  | None => ∃ reason, run_rollback guild action a = (RollbackSkipped reason, a)
  | Some call => ∃ o, run_rollback guild action a = (o, (perform call a).2)
      ∧ call_result o = Some (answered (perform call a).1)
  end.
Proof.
  destruct action as [| | | | | |? ? [o|]]; cbn [action_call run_rollback fmap option_fmap option_map];
    [..|by eexists]; adapter_call; by eexists.
Qed.

Lemma rollback_steps_calls guild steps (a : A) :
  let '(results, a') := rollback_steps guild steps a in
  ∃ calls, performed calls a a' ∧ calls.*1 = omap (action_call guild) (omap undoable steps)
    ∧ omap call_result (rb_outcome <$> results) = (λ c, answered c.2) <$> calls.
Proof.
  revert a. induction steps as [|s steps IH]; intros a; cbn; [exists []; by repeat constructor|].
  unfold undoable at 1. destruct (step_outcome s), (step_rollback s) as [action|];
    try (by apply IH).
  pose proof (run_rollback_call guild action a) as Hc. cbn [omap list_omap].
  destruct (action_call guild action) as [call|] eqn:Hact.
  - destruct Hc as (o & -> & Ho). destruct (perform call a) as [answer a1] eqn:Hp. cbn in *.
    specialize (IH a1). destruct (rollback_steps guild steps a1) as [results a'].
    destruct IH as (calls & Hcalls & Hfst & Hres). exists ((call, answer) :: calls). cbn.
    rewrite Ho, Hfst, Hres. split_and!; [by econstructor|done..].
  - destruct Hc as (reason & ->). specialize (IH a).
    destruct (rollback_steps guild steps a) as [results a']. exact IH.
Qed.

Lemma omap_reverse {B C} (f : B → option C) l : omap f (reverse l) = reverse (omap f l).
Proof.
  induction l as [|x l IH]; [done|]. rewrite reverse_cons, omap_app, IH. cbn [omap list_omap].
  destruct (f x); [by rewrite reverse_cons|by rewrite app_nil_r].
Qed.

Definition outcomes_status (outcomes : list RollbackOutcome) (status : RollbackStatus) : Prop :=
  let undone o := o = Undone in
  let failed o := ∃ e, o = RollbackFailed e in
  match status with
  | RbNotRequired => outcomes = []
  | RbSucceeded => outcomes ≠ [] ∧ Forall undone outcomes
  | RbFailed => outcomes ≠ [] ∧ Forall failed outcomes
  | RbPartial => outcomes ≠ [] ∧ ¬ Forall undone outcomes ∧ ¬ Forall failed outcomes
  end.

Lemma forallb_Forall {B} (f : B → bool) (P : B → Prop) l :
  (∀ x, f x = true ↔ P x) → forallb f l = true ↔ Forall P l.
Proof.
  intros Hf. rewrite forallb_forall, Forall_forall. setoid_rewrite list_elem_of_In.
  setoid_rewrite Hf. done.
Qed.

Lemma all_undone steps :
  forallb (λ s, match rb_outcome s with Undone => true | _ => false end) steps = true
  ↔ Forall (λ o, o = Undone) (rb_outcome <$> steps).
Proof.
  rewrite Forall_fmap. apply forallb_Forall. intros s. cbn.
  destruct (rb_outcome s); naive_solver.
Qed.

Lemma all_failed steps :
  forallb (λ s, match rb_outcome s with RollbackFailed _ => true | _ => false end) steps = true
  ↔ Forall (λ o, ∃ e, o = RollbackFailed e) (rb_outcome <$> steps).
Proof.
  rewrite Forall_fmap. apply forallb_Forall. intros s. cbn.
  destruct (rb_outcome s); naive_solver.
Qed.

Lemma rollback_status_exact steps :
  outcomes_status (rb_outcome <$> steps) (rollback_status steps).
Proof.
  pose proof (all_undone steps) as Hu. pose proof (all_failed steps) as Hf.
  unfold rollback_status. destruct steps as [|s steps']; [done|].
  set (steps := s :: steps') in *.
  assert (Hne : rb_outcome <$> steps ≠ []) by done. clearbody steps.
  destruct (forallb (λ s, match rb_outcome s with Undone => true | _ => false end) steps);
    [|destruct (forallb _ steps)]; cbn; naive_solver.
Qed.

(** The calls of a run: those of its successful steps, and one that failed if a step failed
    in its call. *)
Definition call_guild (call : AdapterCall) : GuildId :=
  match call with
  | CallCreateRole g _ | CallUpdateRole g _ _ | CallDeleteRole g _ | CallCreateChannel g _
  | CallUpdateChannel g _ _ | CallDeleteChannel g _ | CallUpsertOverwrite g _ _ _ _ => g
  end.

Lemma undo_for_inverse snapshot guild call id :
  call_guild call = guild →
  undo_for snapshot call id ≫= action_call guild = inverse_call snapshot (call, id).
Proof.
  intros <-. unfold inverse_call. destruct call as [| | | | | |g c t al de]; cbn;
    try (by destruct id); by destruct (List.find _ _).
Qed.

Lemma call_for_guild {R} `{ResourceResolver R} (ctx : ResourceResolutionContext R) guild op call :
  call_for ctx guild op = Some call → call_guild call = guild.
Proof.
  destruct op as [| | |? ? ? [p|]| | | |]; cbn; intros Hc; simplify_option_eq;
    repeat match goal with Hf : _ <$> _ = Some _ |- _ => apply fmap_Some in Hf as (? & ? & ->) end;
    done.
Qed.

Lemma run_steps_skipped {R} `{ResourceResolver R} nodes snapshot guild order
    (ctx : ResourceResolutionContext R) (a : A) :
  let '(steps, stopped, a') := run_steps nodes snapshot guild order true ctx a in
  omap undoable steps = [] ∧ stopped = true ∧ a' = a.
Proof.
  induction order as [|id order IH]; cbn; [done|]. destruct (List.find _ nodes); [|done].
  destruct (run_steps nodes snapshot guild order true ctx a) as [[steps stopped] a'].
  destruct IH as (Hu & -> & ->). done.
Qed.

Lemma run_steps_calls {R} `{ResourceResolver R} nodes snapshot guild order
    (ctx : ResourceResolutionContext R) (a : A) :
  let '(steps, _, a') := run_steps nodes snapshot guild order false ctx a in
  ∃ made am, performed (went_through <$> made) a am
    ∧ omap (action_call guild) (omap undoable steps) = omap (inverse_call snapshot) made
    ∧ (am = a' ∨ ∃ call e, perform call am = (Err e, a')).
Proof.
  revert ctx a. induction order as [|id order IH]; intros ctx a; cbn.
  { exists [], a. split_and!; [constructor|done|by left]. }
  destruct (List.find _ nodes) as [node|]; [|apply IH].
  pose proof (run_op_step id (node_operation node) snapshot guild ctx a) as Hs.
  destruct (run_op _ _ _ _ _ _) as [[step ctx'] a1]. destruct Hs as [_ Hs].
  pose proof (run_steps_skipped nodes snapshot guild order ctx' a1) as Hk.
  destruct (call_for ctx guild (node_operation node)) as [call|] eqn:Hcall.
  - destruct (perform call a) as [[i|e] a2] eqn:Hp; cbn in Hs; destruct Hs as (-> & -> & Hctx); cbn.
    + specialize (IH ctx' a2). destruct (run_steps _ _ _ _ _ _ _) as [[steps stopped] a'].
      destruct IH as (made & am & Hmade & Hinv & Hend). exists ((call, i) :: made), am.
      split_and!; [by econstructor| |done]. cbn. unfold undoable at 1. cbn.
      rewrite <- (undo_for_inverse snapshot guild call i) by (by eapply call_for_guild).
      destruct (undo_for snapshot call i) as [action|]; cbn; [|done].
      destruct (action_call guild action); by rewrite <- Hinv.
    + assert (is_success (fail_outcome e) = false) as ->
        by (unfold fail_outcome; by destruct (is_retryable e)).
      cbn [negb]. destruct (run_steps _ _ _ _ _ _ _) as [[steps stopped] a'].
      destruct Hk as (Hu & _ & ->). exists [], a. split_and!; [constructor| |right; by eauto].
      cbn. unfold undoable at 1. cbn. unfold fail_outcome. destruct (is_retryable e); by rewrite Hu.
  - destruct Hs as (-> & _ & message & ->). cbn.
    destruct (run_steps _ _ _ _ _ _ _) as [[steps stopped] a'].
    destruct Hk as (Hu & _ & ->). exists [], a. split_and!; [constructor| |by left].
    cbn. by rewrite Hu.
Qed.

(** C29: a job that succeeded is not rolled back and the adapter stays as the job left it.
    After a failure the adapter was asked for the calls of the successful steps, at most one
    that failed, and then, in reverse order and whatever the answers, for exactly the calls
    that take the successful ones back to the fields of the snapshot; the report says of each
    whether it went through, and its status whether all were undone, all failed, or neither. *)
Theorem rollback_undoes_successes (request : ApprovedExecutionRequest) (a : A) :
  match execute_with_rollback request a with
  | (Err e, a') => execute request a = (Err e, a')
  | (Ok run, a') =>
      let job := run_job run in
      let report := run_rollback_report run in
      ∃ a1, execute request a = (Ok job, a1)
        ∧ (job_status job = JobSucceeded → report = mkReport RbNotRequired [] ∧ a' = a1)
        ∧ (job_status job = JobFailed → ∃ made am undone,
             performed (went_through <$> made) a am
             ∧ (am = a1 ∨ ∃ call e, perform call am = (Err e, a1))
             ∧ performed undone a1 a'
             ∧ undone.*1 = omap (inverse_call (er_snapshot request)) (reverse made)
             ∧ omap call_result (rb_outcome <$> report_steps report) = (λ c, answered c.2) <$> undone)
        ∧ outcomes_status (rb_outcome <$> report_steps report) (report_status report)
  end.
Proof.
  unfold execute_with_rollback. destruct (execute request a) as [[job|e] a1] eqn:Hex; [|done].
  destruct (job_status job) eqn:Hst.
  { cbn. exists a1. rewrite Hst. by split_and!. }
  destruct (rollback job (er_guild_id request) a1) as [report a'] eqn:Hrb. cbn.
  exists a1. unfold rollback in Hrb.
  pose proof (rollback_steps_calls (er_guild_id request) (reverse (job_steps job)) a1) as Hr.
  destruct (rollback_steps _ _ a1) as [results a''] eqn:Hs. injection Hrb as <- <-. cbn.
  rewrite Hst. split_and!; [done..| |apply rollback_status_exact].
  intros _. destruct Hr as (calls & Hcalls & Hfst & Hres). unfold execute in Hex.
  destruct (can_execute _); [|done]. cbn in Hex. destruct (topological_order _) as [order|]; [|done].
  pose proof (run_steps_calls (graph_nodes (er_operation_graph request)) (er_snapshot request)
    (er_guild_id request) order (context_new (er_normalized request)
      (mkResolver (er_snapshot request)) (er_guild_id request)) a) as Hm.
  destruct (run_steps _ _ _ _ _ _ _) as [[steps stopped] a2]. injection Hex as <- <-.
  cbn [job_steps] in Hfst.
  destruct Hm as (made & am & Hmade & Hinv & Hend). exists made, am, calls.
  split_and!; [done..| |done]. by rewrite Hfst, !omap_reverse, Hinv.
Qed.
End guarantees.
