(* ===== verification/Pipeline.v ===== *)
(** * The pipeline end to end

    How the tools compose the components ([tools/ai-eval], [tools/executor-smoke]):
    validate, compile, diff, build the graph, decide, collect approvals, execute.
    The guarantees across component boundaries, and the one place where the
    preview and the execution disagree. *)

From Stdlib Require Import ZArith Lia String.
From stdpp Require Import base decidable list strings gmap sorting.
From S2P Require Import Prelude RustStd DiscordModel DesiredState DesiredCompiler DiffEngine.
From S2P Require Import OperationGraph GraphOrder GraphCompile Resolution VirtualApply.
From S2P Require Import Policy Preview Approval Executor ExecutorSpec.
From S2P Require Import Plan PlanApply PlanSatisfied PlanTotal.
Open Scope Z_scope.

(** ** Stages of an evaluation *)
Inductive EvalStage := Parsed | Validated | Compiled | Diffed | Graphed.

Definition stage_rank (s : EvalStage) : Z :=
  match s with Parsed => 1 | Validated => 2 | Compiled => 3 | Diffed => 4 | Graphed => 5 end.

(** [run_fixture] after parsing: the stage a document reaches. *)
Definition evaluate_document (guild : GuildState) (desired : DesiredState) : EvalStage :=
  match validate desired with
  | Err _ => Parsed
  | Ok _ =>
      match compile desired with
      | Err _ => Validated
      | Ok normalized =>
          let d := diff (mkResolver guild) normalized in
          match conflicts d with
          | _ :: _ => Compiled
          | [] => match compile_operations d normalized with
                  | Ok _ => Graphed
                  | Err _ => Diffed
                  end
          end
      end
  end.

(** ** No risky plan runs without the approval it needs *)
Section safety.
Context {A : Type} `{DiscordAdapter A}.
Context (graph : OperationGraph) (normalized : NormalizedDesiredState) (snapshot : GuildState).
Context (guild : GuildId) (user requested_by : UserId) (approved_by : list UserId).
Context (events : list ApprovalEvent).

Definition decided_request : ApprovalRequest :=
  run_events events (approval_new (decision_verdict (evaluate with_default_rules graph)) user).

Definition decided_execution : ApprovedExecutionRequest :=
  mkExecutionRequest graph normalized decided_request snapshot guild requested_by approved_by.

Lemma decided_can_execute :
  can_execute decided_request = true →
  (¬ ∃ node, node ∈ graph_nodes graph ∧ grants_privileged (node_operation node))
  ∧ ((∃ node, node ∈ graph_nodes graph ∧ needs_approval (node_operation node)) →
     ∃ approver rest, events = EApprove approver :: rest).
Proof.
  unfold decided_request, approval_new.
  remember (decision_verdict (evaluate with_default_rules graph)) as v eqn:Hv.
  symmetry in Hv. apply default_verdict_exact in Hv.
  intros Hcan. apply (approval_history_state v user (required_for v) events) in Hcan as [Hd Hreq].
  destruct v; try done; destruct Hv as [Hp Hn]; (split; [done|]); intros Hneed; [done|].
  destruct Hreq as [?|Hlen]; [done|]. cbn in Hlen.
  destruct events as [|[approver|rejecter reason] rest]; cbn in Hlen; [lia|eauto|lia].
Qed.

(** C28: whatever approvals or rejections are recorded for a plan that grants a
    privileged permission, executing it makes no call; a plan that deletes a
    resource or changes access of everyone only executes after an approval
    recorded before any rejection. *)
Theorem risky_plans_gated (a : A) :
  ((∃ node, node ∈ graph_nodes graph ∧ grants_privileged (node_operation node)) →
   execute decided_execution a = (Err NotApproved, a))
  ∧ (∀ job a', execute decided_execution a = (Ok job, a') →
     (∃ node, node ∈ graph_nodes graph ∧ needs_approval (node_operation node)) →
     ∃ approver rest, events = EApprove approver :: rest).
Proof.
  unfold execute. cbn. pose proof decided_can_execute as Hsafe.
  destruct (can_execute decided_request); cbn.
  - destruct (Hsafe eq_refl) as [Hp Hn]. split; [by intros ?%Hp|auto].
  - split; [done|]. intros job a' [= ].
Qed.
End safety.

(** ** The smoke tool

    [executor-smoke] runs one scenario against a guild whose state it has read,
    with two approvers at hand, and removes what it created. *)
Inductive SmokeResult :=
| CompileFailed (errors : list CompileError)
| GraphFailed (e : OperationGraphError)
| NotExecuting (state : ApprovalState)
| ExecutionRefused (e : ExecutorError)
| Ran (job : JobResult).

(** The approvers are asked until the request can execute. *)
Definition smoke_approvals (approval : ApprovalRequest) : ApprovalRequest :=
  foldl (λ r approver, if can_execute r then r else (approve approver r).2) approval [10; 11].

Section smoke.
Context {A : Type} `{DiscordAdapter A}.

Definition cleanup_step (guild : GuildId) (a : A) (step : StepResult) : A :=
  match step_outcome step, step_rollback step with
  | Success, Some (RbDeleteRole id) => (delete_role guild id a).2
  | Success, Some (RbDeleteChannel id) => (delete_channel guild id a).2
  | _, _ => a
  end.

Definition cleanup (guild : GuildId) (job : JobResult) (a : A) : A :=
  foldl (cleanup_step guild) a (reverse (job_steps job)).

Definition smoke_run (guild : GuildId) (before : GuildState) (desired : DesiredState) (a : A) :
    SmokeResult * A :=
  match compile desired with
  | Err errors => (CompileFailed errors, a)
  | Ok normalized =>
      match compile_operations (diff (mkResolver before) normalized) normalized with
      | Err e => (GraphFailed e, a)
      | Ok graph =>
          let decision := evaluate with_default_rules graph in
          let approval := smoke_approvals (approval_new (decision_verdict decision) 1) in
          if negb (can_execute approval) then (NotExecuting (approval_state approval), a)
          else
            match execute (mkExecutionRequest graph normalized approval before guild 1 [10; 11]) a
            with
            | (Err e, a') => (ExecutionRefused e, a')
            | (Ok job, a') => (Ran job, cleanup guild job a')
            end
      end
  end.

(** The smoke tool does not touch a guild for a plan that grants a
    privileged permission: it reports the blocked request and makes no call,
    whatever the approvers say. *)
Theorem smoke_refuses_privileged guild before desired normalized graph (a : A) :
  compile desired = Ok normalized →
  compile_operations (diff (mkResolver before) normalized) normalized = Ok graph →
  (∃ node, node ∈ graph_nodes graph ∧ grants_privileged (node_operation node)) →
  smoke_run guild before desired a = (NotExecuting Blocked, a).
Proof.
  intros Hc Hg Hpriv. unfold smoke_run. rewrite Hc, Hg.
  assert (decision_verdict (evaluate with_default_rules graph) = Deny) as ->; [|done].
  by apply default_verdict_exact.
Qed.
End smoke.

(** ** Where the preview and the execution part

    A new channel that names itself as its parent. The plan compiles because a node
    never depends on itself, the virtual application binds the new channel before
    it resolves the parent and succeeds, but the executor resolves the parent
    first and fails. *)
Section self_parent.
Context {A : Type} `{DiscordAdapter A}.
Context {R : Type} `{ResourceResolver R}.
Context (nodes : list OperationNode) (snapshot : GuildState) (guild : GuildId) (key : ResourceKey).
Abbreviation Ctx := (ResourceResolutionContext R).

(** Whatever creates the key wants the key as parent. *)
Definition only_self_parents : Prop :=
  ∀ node name kind parent, node ∈ nodes →
    node_operation node = CreateChannel key name kind parent → parent = Some key.

Lemma key_stays_unbound op id (ctx ctx' : Ctx) :
  creates_channel op ≠ Some key → channel_denotation ctx key = None → context_after op id ctx ctx' →
  channel_denotation ctx' key = None.
Proof.
  intros Hne Hn. destruct op as [| | |k ? ? ?| | | |], id as [i|]; cbn; intros (_ & Hc & _); rewrite Hc;
    rewrite ?channel_denotation_bind; try done.
  case_decide as Hk; [|done]. subst k. by destruct Hne.
Qed.

(** No run gets past such a node. *)
Lemma self_parent_stops order (ctx : Ctx) (a : A) :
  only_self_parents → channel_denotation ctx key = None →
  (∃ id node, id ∈ order ∧ List.find (λ n, node_id n =? id) nodes = Some node
              ∧ creates_channel (node_operation node) = Some key) →
  let '(_, stopped, _) := run_steps nodes snapshot guild order false ctx a in stopped = true.
Proof.
  intros Hself. revert ctx a. induction order as [|id order IH]; intros ctx a Hn (i & node & Hin & Hf & Hcr).
  { by apply not_elem_of_nil in Hin. }
  cbn. destruct (List.find (λ n, node_id n =? id) nodes) as [node'|] eqn:Hf'; last first.
  { apply elem_of_cons in Hin as [->|Hin]; [congruence|]. apply IH; eauto. }
  pose proof (run_op_step id (node_operation node') snapshot guild ctx a) as Hs.
  destruct (run_op _ _ _ _ _ _) as [[step ctx'] a1]. destruct Hs as [_ Hs].
  pose proof (run_steps_skipped nodes snapshot guild order ctx' a1) as Hk.
  destruct (is_success (step_outcome step)) eqn:Hok; cbn [negb]; last first.
  { destruct (run_steps _ _ _ _ _ _ _) as [[steps stopped] a']. by destruct Hk as (_ & -> & _). }
  destruct (call_for ctx guild (node_operation node')) as [call|] eqn:Hcall; last first.
  { by destruct Hs as (_ & _ & message & ->). }
  assert (Hne : creates_channel (node_operation node') ≠ Some key).
  { intros Hc. destruct (node_operation node') as [| | |k name kind parent| | | |] eqn:Hop; try done.
    injection Hc as ->. apply find_some in Hf' as [Hin'%list_elem_of_In _].
    rewrite (Hself _ _ _ _ Hin' Hop) in Hcall. cbn in Hcall. by rewrite Hn in Hcall. }
  destruct (perform call a) as [[j|e] a2]; cbn in Hs; destruct Hs as (-> & -> & Hctx).
  - specialize (IH ctx' a2). destruct (run_steps _ _ _ _ _ _ _) as [[steps stopped] a'].
    apply IH; [by eapply key_stays_unbound|]. apply elem_of_cons in Hin as [->|Hin]; [|by eauto].
    assert (node' = node) as -> by congruence. done.
  - cbn in Hok. unfold fail_outcome in Hok. by destruct (is_retryable e).
Qed.
End self_parent.

(** C36: the preview and the execution disagree about a new channel that names itself as
    parent. For every unambiguous document with declared references that has one, the planned
    graph virtually applies to the end, which is what the preview shows; but executing it fails
    with every adapter, whatever the adapter answers. *)
Theorem self_parents_preview_but_fail (g : GuildState) (n : NormalizedDesiredState)
    (graph : OperationGraph) (c : NormalizedChannel) :
  guild_wf g → keys_distinct n → targets_distinct n → unambiguous g n → references_declared n →
  compile_operations (diff (mkResolver g) n) n = Ok graph → op_ids_fit graph → 0 ≤ max_id g →
  max_id g + 1 + Z.of_nat (length (graph_nodes graph)) ≤ u64_max →
  c ∈ nd_channels n → owned_present (nc_identity c) →
  resolve_channel (mkResolver g) (nc_identity c) (nc_name c) = Missing →
  nc_parent c = Some (id_key (nc_identity c)) →
  (∃ result, apply g graph n (mkResolver g) = Ok result)
  ∧ ∀ A (HA : DiscordAdapter A) (a a' : A) approval guild by_ approvers job,
      execute (mkExecutionRequest graph n approval g guild by_ approvers) a = (Ok job, a') →
      job_status job = JobFailed.
Proof.
  intros Hwf Hkeys Htargets Hun Href Hcompile Hfit H0 Hroom Hc Hown Hmiss Hself.
  split; [by eapply apply_total|].
  intros A HA a a' approval guild by_ approvers job. unfold execute. cbn.
  destruct (can_execute approval); [|done]. cbn.
  destruct (topological_order graph) as [order|] eqn:Ho; [|done].
  pose proof (compile_operations_nodup _ _ _ Hcompile Hfit) as Hnd.
  destruct (topological_order_Ok _ _ Hnd Ho) as [Hperm _].
  set (key := id_key (nc_identity c)) in *.
  pose proof (self_parent_stops (graph_nodes graph) g guild key order
    (context_new n (mkResolver g) guild) a) as Hstop.
  destruct (run_steps _ _ _ _ _ _ _) as [[steps stopped] a2].
  rewrite Hstop; [by intros [= <- _]|..].
  - intros node name kind parent Hin Hop.
    assert (required (mkResolver g) n (node_operation node)) as Hreq.
    { apply (graph_operations_required _ _ Hkeys Htargets _ _ Hcompile). by apply list_elem_of_fmap_2. }
    rewrite Hop in Hreq. inversion Hreq as [| | |c' Hc' Hown' Hmiss' Hk| | | | |].
    by rewrite (channel_by_key n Hkeys c' c).
  - unfold channel_denotation. cbn. rewrite lookup_empty.
    rewrite (find_eqb_Some (λ c, id_key (nc_identity c)) _ c) by (done || apply Hkeys). cbn. 
    cbn in Hmiss. by rewrite Hmiss.
  - pose proof (req_create_channel (mkResolver g) n c Hc Hown Hmiss) as Hreq.
    apply (graph_operations_required _ _ Hkeys Htargets _ _ Hcompile) in Hreq.
    apply list_elem_of_fmap in Hreq as (node & Hop & Hin).
    exists (node_id node), node. split_and!.
    + rewrite Hperm. by apply list_elem_of_fmap_2.
    + by apply (find_key_elem node_id).
    + by rewrite <- Hop.
Qed.

(** A valid document with such a channel, for a guild without channels. *)
Definition self_parent_identity : Identity := mkIdentity "loop" ByName Managed Present.
Definition self_parent_document : DesiredState :=
  mkDesiredState Patch None []
    [mkChannelIntent self_parent_identity (Some "loop") (Some Text) (Some "loop") None None] [].
Definition empty_guild : GuildState := mkGuildState (mkGuild 1 "guild" 2) [] [] [].

Definition self_parent_channel : NormalizedChannel :=
  mkNChannel self_parent_identity (Some "loop") (Some Text) (Some "loop") [].
Definition self_parent_normalized : NormalizedDesiredState :=
  mkNormalized Patch None [] [self_parent_channel] [].
Definition self_parent_graph : OperationGraph :=
  mkGraph [mkNode 0 (CreateChannel "loop" (Some "loop") (Some Text) (Some "loop"))
             [SymChannel "loop"] [SymChannel "loop"] []].

Example self_parent_document_accepted :
  validate self_parent_document = Ok tt ∧ compile self_parent_document = Ok self_parent_normalized.
Proof. by vm_compute. Qed.

Lemma self_parents_preview_but_fail_witness :
  (∃ result, apply empty_guild self_parent_graph self_parent_normalized (mkResolver empty_guild)
             = Ok result)
  ∧ ∀ A (HA : DiscordAdapter A) (a a' : A) approval guild by_ approvers job,
      execute (mkExecutionRequest self_parent_graph self_parent_normalized approval empty_guild
                 guild by_ approvers) a = (Ok job, a') →
      job_status job = JobFailed.
Proof.
  apply (self_parents_preview_but_fail empty_guild self_parent_normalized self_parent_graph
           self_parent_channel).
  - split; constructor.
  - split; apply (bool_decide_unpack _); by vm_compute.
  - apply (bool_decide_unpack _). by vm_compute.
  - constructor; cbn; intros;
      repeat match goal with
             | Hin : _ ∈ [] |- _ => by apply not_elem_of_nil in Hin
             | Hin : _ ∈ [_] |- _ => apply list_elem_of_singleton in Hin as ->; cbn in *
             end; done.
  - constructor; [|by intros c o s ->%list_elem_of_singleton Ho%not_elem_of_nil]. intros c p ->%list_elem_of_singleton [= <-].
    exists self_parent_channel. by split; [left|].
  - by vm_compute.
  - by vm_compute.
  - by vm_compute.
  - by vm_compute.
  - by left.
  - done.
  - by vm_compute.
  - done.
Defined.
