(* ===== verification/ConvergenceTypes.v ===== *)
(** * Runtime convergence: identifiers, attestations and states

    [crates/automation-runtime-convergence]: the data a runtime deployment is
    made of. Opaque identifiers, keys, hashes and digests are their validated
    strings; revisions, generations and fencing tokens are the [u64] they wrap;
    instants of [DateTime<Utc>] are integers, only compared. *)

From Stdlib Require Import ZArith Lia String Ascii.
From stdpp Require Import base decidable list strings.
From S2P Require Import Prelude RustStd DiscordModel.
Open Scope Z_scope.

Abbreviation DeploymentId := string (only parsing).
Abbreviation TenantId := string (only parsing).
Abbreviation InstallationId := string (only parsing).
Abbreviation ControllerId := string (only parsing).
Abbreviation ProcessInstanceId := string (only parsing).
Abbreviation ActivationRequestId := string (only parsing).
Abbreviation PanelCertificateId := string (only parsing).
Abbreviation RuntimeFailureId := string (only parsing).
Abbreviation PromotionId := string (only parsing).
Abbreviation PanelReportDigestV1 := string (only parsing).
Abbreviation DeploymentRevision := Z (only parsing).
Abbreviation RuntimeGeneration := Z (only parsing).
Abbreviation BindingRevision := Z (only parsing).
Abbreviation FencingToken := Z (only parsing).
Abbreviation Instant := Z (only parsing).

(** ** Parsing identifiers *)
Inductive OpaqueRuntimeIdError := IdEmpty | IdTooLong | IdInvalidCharacter.

Definition opaque_id_char (c : ascii) : bool :=
  is_ascii_alphanumeric c
  || existsb (Ascii.eqb c) ["_"; "-"; ":"; "."]%char.

(** [parse] of the identifiers [define_opaque_id] declares. *)
Definition opaque_id_parse (value : string) : Result OpaqueRuntimeIdError string :=
  if str_is_empty value then Err IdEmpty
  else if 128 <? str_len value then Err IdTooLong
  else if negb (str_all opaque_id_char value) then Err IdInvalidCharacter
  else Ok value.

Inductive HexIdError := HexLength | HexLowerHex.

(** [parse] of [PromotionId] and of [PanelReportDigestV1]. *)
Definition hex64_parse (value : string) : Result HexIdError string :=
  if negb (str_len value =? 64) then Err HexLength
  else if negb (str_all is_lower_hex value) then Err HexLowerHex
  else Ok value.

(** ** Revisions *)
Inductive RuntimeRevisionError := RevisionZero | RevisionOverflowed.

Definition revision_first : Z := 1.
Definition revision_new (value : Z) : Result RuntimeRevisionError Z :=
  if value =? 0 then Err RevisionZero else Ok value.
Definition revision_next (revision : Z) : Result RuntimeRevisionError Z :=
  match u64_checked_add revision 1 with
  | Some next => if next =? 0 then Err RevisionOverflowed else Ok next
  | None => Err RevisionOverflowed
  end.

(** ** Identities *)
Record RuntimeDeploymentIdentityV1 := mkDeploymentIdentity {
  deployment_id : DeploymentId;
  tenant_id : TenantId;
  installation_id : InstallationId;
  promotion_id : PromotionId;
  identity_activation_request_id : ActivationRequestId;
}.

Definition same_product_scope (a b : RuntimeDeploymentIdentityV1) : bool :=
  bool_decide (tenant_id a = tenant_id b) && bool_decide (installation_id a = installation_id b).

Record RuntimeDeploymentTargetV1 := mkTarget {
  target_guild_id : GuildId;
  ruleset_key : string;
  target_version : Z;
  content_hash : string;
  binding_revision : BindingRevision;
  binding_fingerprint : string;
}.

Definition same_slot (a b : RuntimeDeploymentTargetV1) : bool :=
  (target_guild_id a =? target_guild_id b) && bool_decide (ruleset_key a = ruleset_key b).

Record RuntimeProcessIdentityV1 := mkProcessIdentity {
  process_target : RuntimeDeploymentTargetV1;
  process_generation : RuntimeGeneration;
  process_instance_id : ProcessInstanceId;
}.

(** ** Attestations *)
Record PreflightAttestationV1 := mkPreflight {
  pf_target : RuntimeDeploymentTargetV1;
  pf_generation : RuntimeGeneration;
  pf_observed_runtime : option RuntimeProcessIdentityV1;
  pf_checked_at : Instant;
}.

Record DrainAttestationV1 := mkDrain {
  dr_previous_runtime : option RuntimeProcessIdentityV1;
  dr_target_generation : RuntimeGeneration;
  dr_drained_at : Instant;
}.

Inductive ActivationOutcomeKindV1 := Activated | AlreadyActive | CrashRecovered.

Record ActivationAttestationV1 := mkActivation {
  at_request_id : ActivationRequestId;
  at_target : RuntimeDeploymentTargetV1;
  at_generation : RuntimeGeneration;
  at_kind : ActivationOutcomeKindV1;
  at_activated_at : Instant;
}.

Record PanelCertificateV1 := mkPanel {
  pn_certificate_id : PanelCertificateId;
  pn_report_digest : PanelReportDigestV1;
  pn_target : RuntimeDeploymentTargetV1;
  pn_generation : RuntimeGeneration;
  pn_process_instance_id : ProcessInstanceId;
  pn_declared_count : Z;
  pn_installed_count : Z;
  pn_unchanged_count : Z;
  pn_skipped_transient_count : Z;
  pn_skipped_unresolved_channel_count : Z;
  pn_failed_count : Z;
  pn_ambiguous_outcome_count : Z;
  pn_stale_message_cleanup_pending_count : Z;
  pn_orphan_message_cleanup_pending_count : Z;
  pn_reposted_old_message_cleanup_pending_count : Z;
  pn_reconciled_at : Instant;
}.

Inductive GatewayReadyKindV1 := DiscordReady | DiscordResumed.

Record GatewayReadyAttestationV1 := mkGateway {
  gw_target : RuntimeDeploymentTargetV1;
  gw_generation : RuntimeGeneration;
  gw_process_instance_id : ProcessInstanceId;
  gw_kind : GatewayReadyKindV1;
  gw_ready_at : Instant;
}.

Record LiveAttestationV1 := mkLive {
  lv_target : RuntimeDeploymentTargetV1;
  lv_generation : RuntimeGeneration;
  lv_process_instance_id : ProcessInstanceId;
  lv_activation : ActivationAttestationV1;
  lv_panel_certificate : PanelCertificateV1;
  lv_gateway_ready : GatewayReadyAttestationV1;
  lv_certified_at : Instant;
}.

Inductive LiveLossKindV1 := ServingLeaseExpired | ServingDisconnected.

Record LiveRecoveryAttestationV1 := mkRecovery {
  rc_prior_live : LiveAttestationV1;
  rc_kind : LiveLossKindV1;
  rc_evidence_at : Instant;
  rc_recovered_at : Instant;
}.

(** ** Failures, phases and leases *)
Inductive RuntimeFailureKindV1 :=
| EnvironmentUnavailable | ActivationNotObservable | PanelReconciliation
| GatewayStart | GatewayReadyTimeout | InvariantViolation.

Record RuntimeFailureV1 := mkFailure {
  failure_id : RuntimeFailureId;
  failure_kind : RuntimeFailureKindV1;
  failure_code : string;
  failure_message : string;
  failure_recorded_at : Instant;
}.

Inductive RuntimeFailureDispositionV1 :=
| DispRetryable (failure : RuntimeFailureV1) (attempt : Z) (retry_not_before : Instant)
| DispBlocked (failure : RuntimeFailureV1).

Inductive RuntimePendingConditionV1 :=
| CondReady
| CondRetryable (failure : RuntimeFailureV1) (attempt : Z) (retry_not_before : Instant)
| CondBlocked (failure : RuntimeFailureV1).

Definition disposition (c : RuntimePendingConditionV1) : option RuntimeFailureDispositionV1 :=
  match c with
  | CondReady => None
  | CondRetryable failure attempt retry_not_before =>
      Some (DispRetryable failure attempt retry_not_before)
  | CondBlocked failure => Some (DispBlocked failure)
  end.

Inductive RuntimeDeploymentPhaseKindV1 :=
| KRequested | KPreflightReady | KDrainRequested | KDrained | KActivationApplying
| KRuntimePending | KReconcilingPanels | KAwaitingGatewayReady | KLive | KSuperseded
| KCancelled.

Record SupersedingDeploymentV1 := mkSuperseding {
  sp_identity : RuntimeDeploymentIdentityV1;
  sp_target : RuntimeDeploymentTargetV1;
  sp_generation : RuntimeGeneration;
}.

Inductive RuntimeDeploymentPhaseV1 :=
| PRequested | PPreflightReady | PDrainRequested | PDrained | PActivationApplying
| PRuntimePending (condition : RuntimePendingConditionV1)
| PReconcilingPanels | PAwaitingGatewayReady | PLive
| PSuperseded (by_ : SupersedingDeploymentV1) (reason : string) (superseded_at : Instant)
| PCancelled (reason : string) (cancelled_at : Instant).

Definition phase_kind (p : RuntimeDeploymentPhaseV1) : RuntimeDeploymentPhaseKindV1 :=
  match p with
  | PRequested => KRequested
  | PPreflightReady => KPreflightReady
  | PDrainRequested => KDrainRequested
  | PDrained => KDrained
  | PActivationApplying => KActivationApplying
  | PRuntimePending _ => KRuntimePending
  | PReconcilingPanels => KReconcilingPanels
  | PAwaitingGatewayReady => KAwaitingGatewayReady
  | PLive => KLive
  | PSuperseded _ _ _ => KSuperseded
  | PCancelled _ _ => KCancelled
  end.

Definition is_terminal (p : RuntimeDeploymentPhaseV1) : bool :=
  match p with PLive | PSuperseded _ _ _ | PCancelled _ _ => true | _ => false end.

Record ControllerLeaseV1 := mkLease {
  lease_controller_id : ControllerId;
  lease_fencing_token : FencingToken;
  lease_acquired_at : Instant;
  lease_expires_at : Instant;
}.

(** ** Requests *)
Record LeaseRequestV1 := mkLeaseRequest {
  lr_expected_revision : DeploymentRevision;
  lr_controller_id : ControllerId;
  lr_fencing_token : FencingToken;
  lr_now : Instant;
  lr_expires_at : Instant;
}.

Record RecoverBlockedRequestV1 := mkRecoverBlocked {
  rb_expected_revision : DeploymentRevision;
  rb_expected_failure_id : RuntimeFailureId;
  rb_controller_id : ControllerId;
  rb_fencing_token : FencingToken;
  rb_now : Instant;
  rb_expires_at : Instant;
}.

Record CommandGuardV1 := mkGuard {
  cg_expected_revision : DeploymentRevision;
  cg_controller_id : ControllerId;
  cg_fencing_token : FencingToken;
  cg_generation : RuntimeGeneration;
  cg_now : Instant;
}.

Record RecoverLiveRequestV1 := mkRecoverLive {
  rl_expected_revision : DeploymentRevision;
  rl_expected_generation : RuntimeGeneration;
  rl_expected_process_instance_id : ProcessInstanceId;
  rl_kind : LiveLossKindV1;
  rl_evidence_at : Instant;
  rl_recovered_at : Instant;
}.

(** ** Errors and outcomes *)
Inductive PanelIneligibilityV1 :=
| CountOverflow | TransientSkipped | UnresolvedChannelSkipped | PanelFailed | AmbiguousOutcome
| StaleCleanupPending | OrphanCleanupPending | RepostedOldMessageCleanupPending | Incomplete.

Inductive RuntimeDeploymentError :=
| RuntimeGenerationNotMonotonic
| PreviousRuntimeSlotMismatch
| SupersedingDeploymentIdentityConflict
| SupersedingDeploymentScopeMismatch
| RevisionConflict (expected actual : DeploymentRevision)
| RuntimeGenerationConflict (expected actual : RuntimeGeneration)
| InvalidLeaseWindow
| LeaseHeld (controller_id : ControllerId) (expires_at : Instant)
| LeaseRequired
| LeaseExpired (expires_at : Instant)
| ControllerMismatch
| FencingTokenConflict (expected actual : FencingToken)
| FencingTokenNotMonotonic
| InvalidTransition (current : RuntimeDeploymentPhaseKindV1) (operation : string)
| TargetMismatch
| PreviousRuntimeMismatch
| ActivationRequestMismatch
| ProcessInstanceMismatch
| PanelIneligible (why : PanelIneligibilityV1)
| AttestationTimeRegression
| InvalidFailure
| InvalidReason
| ProductDrainSupersessionSourceMismatch
| ProductDrainCancellationSourceMismatch
| RevisionOverflow
| InvalidSnapshot.

Inductive TransitionOutcomeV1 :=
| Applied (revision : DeploymentRevision)
| Replayed (revision : DeploymentRevision).

(** ** Deployments

    The snapshot is the plain data a deployment is persisted as; the fields of
    the deployment itself are private to the machine. *)
Record RuntimeDeploymentSnapshotV1 := mkSnapshot {
  s_identity : RuntimeDeploymentIdentityV1;
  s_target : RuntimeDeploymentTargetV1;
  s_runtime_generation : RuntimeGeneration;
  s_previous_runtime : option RuntimeProcessIdentityV1;
  s_requested_at : Instant;
  s_revision : DeploymentRevision;
  s_phase : RuntimeDeploymentPhaseV1;
  s_controller_lease : option ControllerLeaseV1;
  s_last_fencing_token : option FencingToken;
  s_preflight : option PreflightAttestationV1;
  s_drain : option DrainAttestationV1;
  s_activation : option ActivationAttestationV1;
  s_panel_certificate : option PanelCertificateV1;
  s_gateway_ready : option GatewayReadyAttestationV1;
  s_live : option LiveAttestationV1;
  s_last_live_recovery : option LiveRecoveryAttestationV1;
  s_last_runtime_failure : option RuntimeFailureDispositionV1;
}.

Record RuntimeDeployment := mkDeployment {
  identity : RuntimeDeploymentIdentityV1;
  target : RuntimeDeploymentTargetV1;
  runtime_generation : RuntimeGeneration;
  previous_runtime : option RuntimeProcessIdentityV1;
  requested_at : Instant;
  revision : DeploymentRevision;
  phase : RuntimeDeploymentPhaseV1;
  controller_lease : option ControllerLeaseV1;
  last_fencing_token : option FencingToken;
  preflight : option PreflightAttestationV1;
  drain : option DrainAttestationV1;
  activation : option ActivationAttestationV1;
  panel_certificate : option PanelCertificateV1;
  gateway_ready : option GatewayReadyAttestationV1;
  live : option LiveAttestationV1;
  last_live_recovery : option LiveRecoveryAttestationV1;
  last_runtime_failure : option RuntimeFailureDispositionV1;
}.

(** Assignments to one field of a deployment. *)
Definition with_revision (x : DeploymentRevision) (d : RuntimeDeployment) : RuntimeDeployment :=
  mkDeployment (identity d) (target d) (runtime_generation d) (previous_runtime d)
    (requested_at d) x (phase d) (controller_lease d) (last_fencing_token d) (preflight d)
    (drain d) (activation d) (panel_certificate d) (gateway_ready d) (live d)
    (last_live_recovery d) (last_runtime_failure d).
Definition with_phase (x : RuntimeDeploymentPhaseV1) (d : RuntimeDeployment) : RuntimeDeployment :=
  mkDeployment (identity d) (target d) (runtime_generation d) (previous_runtime d)
    (requested_at d) (revision d) x (controller_lease d) (last_fencing_token d) (preflight d)
    (drain d) (activation d) (panel_certificate d) (gateway_ready d) (live d)
    (last_live_recovery d) (last_runtime_failure d).
Definition with_controller_lease (x : option ControllerLeaseV1) (d : RuntimeDeployment) : RuntimeDeployment :=
  mkDeployment (identity d) (target d) (runtime_generation d) (previous_runtime d)
    (requested_at d) (revision d) (phase d) x (last_fencing_token d) (preflight d) (drain d)
    (activation d) (panel_certificate d) (gateway_ready d) (live d) (last_live_recovery d)
    (last_runtime_failure d).
Definition with_last_fencing_token (x : option FencingToken) (d : RuntimeDeployment) : RuntimeDeployment :=
  mkDeployment (identity d) (target d) (runtime_generation d) (previous_runtime d)
    (requested_at d) (revision d) (phase d) (controller_lease d) x (preflight d) (drain d)
    (activation d) (panel_certificate d) (gateway_ready d) (live d) (last_live_recovery d)
    (last_runtime_failure d).
Definition with_preflight (x : option PreflightAttestationV1) (d : RuntimeDeployment) : RuntimeDeployment :=
  mkDeployment (identity d) (target d) (runtime_generation d) (previous_runtime d)
    (requested_at d) (revision d) (phase d) (controller_lease d) (last_fencing_token d) x
    (drain d) (activation d) (panel_certificate d) (gateway_ready d) (live d)
    (last_live_recovery d) (last_runtime_failure d).
Definition with_drain (x : option DrainAttestationV1) (d : RuntimeDeployment) : RuntimeDeployment :=
  mkDeployment (identity d) (target d) (runtime_generation d) (previous_runtime d)
    (requested_at d) (revision d) (phase d) (controller_lease d) (last_fencing_token d)
    (preflight d) x (activation d) (panel_certificate d) (gateway_ready d) (live d)
    (last_live_recovery d) (last_runtime_failure d).
Definition with_activation (x : option ActivationAttestationV1) (d : RuntimeDeployment) : RuntimeDeployment :=
  mkDeployment (identity d) (target d) (runtime_generation d) (previous_runtime d)
    (requested_at d) (revision d) (phase d) (controller_lease d) (last_fencing_token d)
    (preflight d) (drain d) x (panel_certificate d) (gateway_ready d) (live d)
    (last_live_recovery d) (last_runtime_failure d).
Definition with_panel_certificate (x : option PanelCertificateV1) (d : RuntimeDeployment) : RuntimeDeployment :=
  mkDeployment (identity d) (target d) (runtime_generation d) (previous_runtime d)
    (requested_at d) (revision d) (phase d) (controller_lease d) (last_fencing_token d)
    (preflight d) (drain d) (activation d) x (gateway_ready d) (live d) (last_live_recovery d)
    (last_runtime_failure d).
Definition with_gateway_ready (x : option GatewayReadyAttestationV1) (d : RuntimeDeployment) : RuntimeDeployment :=
  mkDeployment (identity d) (target d) (runtime_generation d) (previous_runtime d)
    (requested_at d) (revision d) (phase d) (controller_lease d) (last_fencing_token d)
    (preflight d) (drain d) (activation d) (panel_certificate d) x (live d)
    (last_live_recovery d) (last_runtime_failure d).
Definition with_live (x : option LiveAttestationV1) (d : RuntimeDeployment) : RuntimeDeployment :=
  mkDeployment (identity d) (target d) (runtime_generation d) (previous_runtime d)
    (requested_at d) (revision d) (phase d) (controller_lease d) (last_fencing_token d)
    (preflight d) (drain d) (activation d) (panel_certificate d) (gateway_ready d) x
    (last_live_recovery d) (last_runtime_failure d).
Definition with_last_live_recovery (x : option LiveRecoveryAttestationV1) (d : RuntimeDeployment) : RuntimeDeployment :=
  mkDeployment (identity d) (target d) (runtime_generation d) (previous_runtime d)
    (requested_at d) (revision d) (phase d) (controller_lease d) (last_fencing_token d)
    (preflight d) (drain d) (activation d) (panel_certificate d) (gateway_ready d) (live d) x
    (last_runtime_failure d).
Definition with_last_runtime_failure (x : option RuntimeFailureDispositionV1) (d : RuntimeDeployment) : RuntimeDeployment :=
  mkDeployment (identity d) (target d) (runtime_generation d) (previous_runtime d)
    (requested_at d) (revision d) (phase d) (controller_lease d) (last_fencing_token d)
    (preflight d) (drain d) (activation d) (panel_certificate d) (gateway_ready d) (live d)
    (last_live_recovery d) x.

(** Assignments to one field of a snapshot, as [product_drain.rs] makes them. *)
Definition snapshot_with_revision (x : DeploymentRevision)
    (s : RuntimeDeploymentSnapshotV1) : RuntimeDeploymentSnapshotV1 :=
  mkSnapshot (s_identity s) (s_target s) (s_runtime_generation s) (s_previous_runtime s)
    (s_requested_at s) x (s_phase s) (s_controller_lease s) (s_last_fencing_token s)
    (s_preflight s) (s_drain s) (s_activation s) (s_panel_certificate s) (s_gateway_ready s)
    (s_live s) (s_last_live_recovery s) (s_last_runtime_failure s).
Definition snapshot_with_phase (x : RuntimeDeploymentPhaseV1)
    (s : RuntimeDeploymentSnapshotV1) : RuntimeDeploymentSnapshotV1 :=
  mkSnapshot (s_identity s) (s_target s) (s_runtime_generation s) (s_previous_runtime s)
    (s_requested_at s) (s_revision s) x (s_controller_lease s) (s_last_fencing_token s)
    (s_preflight s) (s_drain s) (s_activation s) (s_panel_certificate s) (s_gateway_ready s)
    (s_live s) (s_last_live_recovery s) (s_last_runtime_failure s).
Definition snapshot_with_controller_lease (x : option ControllerLeaseV1)
    (s : RuntimeDeploymentSnapshotV1) : RuntimeDeploymentSnapshotV1 :=
  mkSnapshot (s_identity s) (s_target s) (s_runtime_generation s) (s_previous_runtime s)
    (s_requested_at s) (s_revision s) (s_phase s) x (s_last_fencing_token s) (s_preflight s)
    (s_drain s) (s_activation s) (s_panel_certificate s) (s_gateway_ready s) (s_live s)
    (s_last_live_recovery s) (s_last_runtime_failure s).
Definition snapshot_with_panel_certificate (x : option PanelCertificateV1)
    (s : RuntimeDeploymentSnapshotV1) : RuntimeDeploymentSnapshotV1 :=
  mkSnapshot (s_identity s) (s_target s) (s_runtime_generation s) (s_previous_runtime s)
    (s_requested_at s) (s_revision s) (s_phase s) (s_controller_lease s)
    (s_last_fencing_token s) (s_preflight s) (s_drain s) (s_activation s) x (s_gateway_ready s)
    (s_live s) (s_last_live_recovery s) (s_last_runtime_failure s).
Definition snapshot_with_gateway_ready (x : option GatewayReadyAttestationV1)
    (s : RuntimeDeploymentSnapshotV1) : RuntimeDeploymentSnapshotV1 :=
  mkSnapshot (s_identity s) (s_target s) (s_runtime_generation s) (s_previous_runtime s)
    (s_requested_at s) (s_revision s) (s_phase s) (s_controller_lease s)
    (s_last_fencing_token s) (s_preflight s) (s_drain s) (s_activation s)
    (s_panel_certificate s) x (s_live s) (s_last_live_recovery s) (s_last_runtime_failure s).
Definition snapshot_with_live (x : option LiveAttestationV1)
    (s : RuntimeDeploymentSnapshotV1) : RuntimeDeploymentSnapshotV1 :=
  mkSnapshot (s_identity s) (s_target s) (s_runtime_generation s) (s_previous_runtime s)
    (s_requested_at s) (s_revision s) (s_phase s) (s_controller_lease s)
    (s_last_fencing_token s) (s_preflight s) (s_drain s) (s_activation s)
    (s_panel_certificate s) (s_gateway_ready s) x (s_last_live_recovery s)
    (s_last_runtime_failure s).
Definition snapshot_with_last_live_recovery (x : option LiveRecoveryAttestationV1)
    (s : RuntimeDeploymentSnapshotV1) : RuntimeDeploymentSnapshotV1 :=
  mkSnapshot (s_identity s) (s_target s) (s_runtime_generation s) (s_previous_runtime s)
    (s_requested_at s) (s_revision s) (s_phase s) (s_controller_lease s)
    (s_last_fencing_token s) (s_preflight s) (s_drain s) (s_activation s)
    (s_panel_certificate s) (s_gateway_ready s) (s_live s) x (s_last_runtime_failure s).

(** ** Decidable equality *)
#[export] Instance RuntimeDeploymentIdentityV1_eq_dec : EqDecision RuntimeDeploymentIdentityV1.
Proof. solve_decision. Defined.
#[export] Instance RuntimeDeploymentTargetV1_eq_dec : EqDecision RuntimeDeploymentTargetV1.
Proof. solve_decision. Defined.
#[export] Instance RuntimeProcessIdentityV1_eq_dec : EqDecision RuntimeProcessIdentityV1.
Proof. solve_decision. Defined.
#[export] Instance PreflightAttestationV1_eq_dec : EqDecision PreflightAttestationV1.
Proof. solve_decision. Defined.
#[export] Instance DrainAttestationV1_eq_dec : EqDecision DrainAttestationV1.
Proof. solve_decision. Defined.
#[export] Instance ActivationOutcomeKindV1_eq_dec : EqDecision ActivationOutcomeKindV1.
Proof. solve_decision. Defined.
#[export] Instance ActivationAttestationV1_eq_dec : EqDecision ActivationAttestationV1.
Proof. solve_decision. Defined.
#[export] Instance PanelCertificateV1_eq_dec : EqDecision PanelCertificateV1.
Proof. solve_decision. Defined.
#[export] Instance GatewayReadyKindV1_eq_dec : EqDecision GatewayReadyKindV1.
Proof. solve_decision. Defined.
#[export] Instance GatewayReadyAttestationV1_eq_dec : EqDecision GatewayReadyAttestationV1.
Proof. solve_decision. Defined.
#[export] Instance LiveAttestationV1_eq_dec : EqDecision LiveAttestationV1.
Proof. solve_decision. Defined.
#[export] Instance LiveLossKindV1_eq_dec : EqDecision LiveLossKindV1.
Proof. solve_decision. Defined.
#[export] Instance LiveRecoveryAttestationV1_eq_dec : EqDecision LiveRecoveryAttestationV1.
Proof. solve_decision. Defined.
#[export] Instance RuntimeFailureKindV1_eq_dec : EqDecision RuntimeFailureKindV1.
Proof. solve_decision. Defined.
#[export] Instance RuntimeFailureV1_eq_dec : EqDecision RuntimeFailureV1.
Proof. solve_decision. Defined.
#[export] Instance RuntimeFailureDispositionV1_eq_dec : EqDecision RuntimeFailureDispositionV1.
Proof. solve_decision. Defined.
#[export] Instance RuntimePendingConditionV1_eq_dec : EqDecision RuntimePendingConditionV1.
Proof. solve_decision. Defined.
#[export] Instance RuntimeDeploymentPhaseKindV1_eq_dec : EqDecision RuntimeDeploymentPhaseKindV1.
Proof. solve_decision. Defined.
#[export] Instance SupersedingDeploymentV1_eq_dec : EqDecision SupersedingDeploymentV1.
Proof. solve_decision. Defined.
#[export] Instance RuntimeDeploymentPhaseV1_eq_dec : EqDecision RuntimeDeploymentPhaseV1.
Proof. solve_decision. Defined.
#[export] Instance ControllerLeaseV1_eq_dec : EqDecision ControllerLeaseV1.
Proof. solve_decision. Defined.
#[export] Instance RuntimeDeploymentSnapshotV1_eq_dec : EqDecision RuntimeDeploymentSnapshotV1.
Proof. solve_decision. Defined.
#[export] Instance RuntimeDeployment_eq_dec : EqDecision RuntimeDeployment.
Proof. solve_decision. Defined.
#[export] Instance PanelIneligibilityV1_eq_dec : EqDecision PanelIneligibilityV1.
Proof. solve_decision. Defined.
#[export] Instance RuntimeDeploymentError_eq_dec : EqDecision RuntimeDeploymentError.
Proof. solve_decision. Defined.
#[export] Instance TransitionOutcomeV1_eq_dec : EqDecision TransitionOutcomeV1.
Proof. solve_decision. Defined.
