(* ===== verification/Convergence.v ===== *)
(** * Runtime convergence: validation and the deployment state machine

    [crates/automation-runtime-convergence/src/machine.rs] and its modules
    [validation.rs] and [product_drain.rs]. A method on [&mut self] is a
    computation of [Cmd RuntimeDeployment RuntimeDeploymentError], which keeps
    the mutations made before an error is returned. *)

From Stdlib Require Import ZArith Lia String Ascii.
From stdpp Require Import base decidable list strings.
From S2P Require Import Prelude RustStd DiscordModel ConvergenceTypes.
Open Scope Z_scope.

Abbreviation Checked := (Result RuntimeDeploymentError unit) (only parsing).
Abbreviation Transition :=
  (Cmd RuntimeDeployment RuntimeDeploymentError TransitionOutcomeV1) (only parsing).

(** ** Phases, guards and floors *)
Definition invalid_transition (d : RuntimeDeployment) (operation : string) :
    RuntimeDeploymentError :=
  InvalidTransition (phase_kind (phase d)) operation.

Definition replayed (d : RuntimeDeployment) : TransitionOutcomeV1 := Replayed (revision d).

Definition phase_rank (kind : RuntimeDeploymentPhaseKindV1) : option Z :=
  match kind with
  | KRequested => Some 0
  | KPreflightReady => Some 1
  | KDrainRequested => Some 2
  | KDrained => Some 3
  | KActivationApplying => Some 4
  | KRuntimePending => Some 5
  | KReconcilingPanels => Some 6
  | KAwaitingGatewayReady => Some 7
  | KLive => Some 8
  | KSuperseded | KCancelled => None
  end.

Definition has_reached (d : RuntimeDeployment) (expected : RuntimeDeploymentPhaseKindV1) : bool :=
  match phase_rank (phase_kind (phase d)), phase_rank expected with
  | Some current, Some expected => expected <=? current
  | _, _ => false
  end.

Definition require_revision (d : RuntimeDeployment) (expected : DeploymentRevision) : Checked :=
  if negb (expected =? revision d) then Err (RevisionConflict expected (revision d))
  else Ok tt.

Definition require_guard (d : RuntimeDeployment) (guard : CommandGuardV1) : Checked :=
  _ ← require_revision d (cg_expected_revision guard);
  if negb (cg_generation guard =? runtime_generation d)
  then Err (RuntimeGenerationConflict (runtime_generation d) (cg_generation guard)) else
  lease ← ok_or (controller_lease d) LeaseRequired;
  if lease_expires_at lease <=? cg_now guard
  then Err (LeaseExpired (lease_expires_at lease)) else
  if negb (bool_decide (lease_controller_id lease = cg_controller_id guard))
  then Err ControllerMismatch else
  if negb (lease_fencing_token lease =? cg_fencing_token guard)
  then Err (FencingTokenConflict (lease_fencing_token lease) (cg_fencing_token guard))
  else Ok tt.

Definition require_phase (d : RuntimeDeployment) (expected : RuntimeDeploymentPhaseKindV1)
    (operation : string) : Checked :=
  if negb (bool_decide (phase_kind (phase d) = expected))
  then Err (invalid_transition d operation) else Ok tt.

Definition require_runtime_failure_phase (d : RuntimeDeployment) (operation : string) : Checked :=
  match phase d with
  | PRuntimePending CondReady | PReconcilingPanels | PAwaitingGatewayReady => Ok tt
  | _ => Err (invalid_transition d operation)
  end.

Definition runtime_evidence_floor (d : RuntimeDeployment) : option Instant :=
  match activation d with
  | None => None
  | Some activation =>
      Some (match last_live_recovery d with
            | None => at_activated_at activation
            | Some recovery => Z.max (at_activated_at activation) (rc_recovered_at recovery)
            end)
  end.

(** ** Validation of evidence *)
Definition validate_generation (d : RuntimeDeployment) (generation : RuntimeGeneration) :
    Checked :=
  if negb (generation =? runtime_generation d)
  then Err (RuntimeGenerationConflict (runtime_generation d) generation) else Ok tt.

Definition validate_target_and_generation (d : RuntimeDeployment)
    (t : RuntimeDeploymentTargetV1) (generation : RuntimeGeneration) : Checked :=
  if negb (bool_decide (t = target d)) then Err TargetMismatch
  else validate_generation d generation.

Definition validate_preflight (d : RuntimeDeployment) (attestation : PreflightAttestationV1) :
    Checked :=
  _ ← validate_target_and_generation d (pf_target attestation) (pf_generation attestation);
  if negb (bool_decide (pf_observed_runtime attestation = previous_runtime d))
  then Err PreviousRuntimeMismatch else
  if pf_checked_at attestation <? requested_at d then Err AttestationTimeRegression
  else Ok tt.

Definition validate_drain (d : RuntimeDeployment) (attestation : DrainAttestationV1) : Checked :=
  _ ← validate_generation d (dr_target_generation attestation);
  if negb (bool_decide (dr_previous_runtime attestation = previous_runtime d))
  then Err PreviousRuntimeMismatch else
  preflight ← ok_or (preflight d) InvalidSnapshot;
  if dr_drained_at attestation <? pf_checked_at preflight then Err AttestationTimeRegression
  else Ok tt.

Definition validate_activation (d : RuntimeDeployment) (attestation : ActivationAttestationV1) :
    Checked :=
  _ ← validate_target_and_generation d (at_target attestation) (at_generation attestation);
  if negb (bool_decide (at_request_id attestation = identity_activation_request_id (identity d)))
  then Err ActivationRequestMismatch else
  drain ← ok_or (drain d) InvalidSnapshot;
  if at_activated_at attestation <? dr_drained_at drain then Err AttestationTimeRegression
  else Ok tt.

Definition validate_panel_eligibility (certificate : PanelCertificateV1) : Checked :=
  if negb (pn_skipped_transient_count certificate =? 0)
  then Err (PanelIneligible TransientSkipped) else
  if negb (pn_skipped_unresolved_channel_count certificate =? 0)
  then Err (PanelIneligible UnresolvedChannelSkipped) else
  if negb (pn_failed_count certificate =? 0)
  then Err (PanelIneligible PanelFailed) else
  if negb (pn_ambiguous_outcome_count certificate =? 0)
  then Err (PanelIneligible AmbiguousOutcome) else
  if negb (pn_stale_message_cleanup_pending_count certificate =? 0)
  then Err (PanelIneligible StaleCleanupPending) else
  if negb (pn_orphan_message_cleanup_pending_count certificate =? 0)
  then Err (PanelIneligible OrphanCleanupPending) else
  if negb (pn_reposted_old_message_cleanup_pending_count certificate =? 0)
  then Err (PanelIneligible RepostedOldMessageCleanupPending) else
  accounted ← ok_or (u32_checked_add (pn_installed_count certificate)
                                     (pn_unchanged_count certificate))
                    (PanelIneligible CountOverflow);
  if negb (accounted =? pn_declared_count certificate) then Err (PanelIneligible Incomplete)
  else Ok tt.

Definition validate_panel_recovery (d : RuntimeDeployment) (certificate : PanelCertificateV1) :
    Checked :=
  match last_live_recovery d with
  | None => Ok tt
  | Some recovery =>
      if pn_reconciled_at certificate <? rc_recovered_at recovery
      then Err AttestationTimeRegression else
      if bool_decide (pn_process_instance_id certificate
                      = lv_process_instance_id (rc_prior_live recovery))
      then Err ProcessInstanceMismatch else Ok tt
  end.

Definition validate_panel_certificate (d : RuntimeDeployment) (certificate : PanelCertificateV1) :
    Checked :=
  _ ← validate_target_and_generation d (pn_target certificate) (pn_generation certificate);
  activation ← ok_or (activation d) InvalidSnapshot;
  if pn_reconciled_at certificate <? at_activated_at activation
  then Err AttestationTimeRegression else
  _ ← validate_panel_recovery d certificate;
  validate_panel_eligibility certificate.

Definition validate_gateway_ready (d : RuntimeDeployment)
    (attestation : GatewayReadyAttestationV1) : Checked :=
  _ ← validate_target_and_generation d (gw_target attestation) (gw_generation attestation);
  panel ← ok_or (panel_certificate d) InvalidSnapshot;
  if negb (bool_decide (gw_process_instance_id attestation = pn_process_instance_id panel))
  then Err ProcessInstanceMismatch else Ok tt.

Definition failure_code_char (c : ascii) : bool :=
  is_ascii_lowercase c || is_ascii_digit c || Ascii.eqb c "_".

Definition validate_failure (failure : RuntimeFailureV1) : Checked :=
  let code_valid := negb (str_is_empty (failure_code failure))
                    && (str_len (failure_code failure) <=? 64)
                    && str_all failure_code_char (failure_code failure) in
  let message_valid := negb (is_blank (failure_message failure))
                       && (str_len (failure_message failure) <=? 1024) in
  if code_valid && message_valid then Ok tt else Err InvalidFailure.

Definition validate_reason (reason : string) : Checked :=
  if is_blank reason || (1024 <? str_len reason) then Err InvalidReason else Ok tt.

Definition validate_supersession (d : RuntimeDeployment) (by_ : SupersedingDeploymentV1)
    (reason : string) (superseded_at : Instant) : Checked :=
  _ ← validate_reason reason;
  if sp_generation by_ <=? runtime_generation d then Err RuntimeGenerationNotMonotonic else
  if bool_decide (deployment_id (sp_identity by_) = deployment_id (identity d))
  then Err SupersedingDeploymentIdentityConflict else
  if negb (same_product_scope (sp_identity by_) (identity d))
  then Err SupersedingDeploymentScopeMismatch else
  if negb (same_slot (sp_target by_) (target d)) then Err PreviousRuntimeSlotMismatch else
  if superseded_at <? requested_at d then Err AttestationTimeRegression
  else Ok tt.

(** ** Validation of snapshots *)

(** The six pieces of evidence that may be present. *)
Definition evidence (d : RuntimeDeployment) : list bool :=
  [is_some (preflight d); is_some (drain d); is_some (activation d);
   is_some (panel_certificate d); is_some (gateway_ready d); is_some (live d)].

Definition evidence_upto (n : nat) : list bool := replicate n true ++ replicate (6 - n) false.

Definition evidence_is (d : RuntimeDeployment) (n : nat) : bool :=
  bool_decide (evidence d = evidence_upto n).

Definition evidence_is_prefix (d : RuntimeDeployment) : bool :=
  existsb (evidence_is d) [0; 1; 2; 3; 4]%nat.

Definition condition_valid (d : RuntimeDeployment) (condition : RuntimePendingConditionV1) :
    bool :=
  match condition with
  | CondReady => true
  | CondRetryable failure _ retry_not_before =>
      is_ok (validate_failure failure)
      && (failure_recorded_at failure <=? retry_not_before)
      && bool_decide (disposition condition = last_runtime_failure d)
  | CondBlocked failure =>
      is_ok (validate_failure failure)
      && bool_decide (disposition condition = last_runtime_failure d)
  end.

Definition phase_evidence_valid (d : RuntimeDeployment) : bool :=
  match phase d with
  | PRequested => evidence_is d 0
  | PPreflightReady | PDrainRequested => evidence_is d 1
  | PDrained | PActivationApplying => evidence_is d 2
  | PRuntimePending condition => evidence_is d 3 && condition_valid d condition
  | PReconcilingPanels => evidence_is d 3
  | PAwaitingGatewayReady => evidence_is d 4
  | PLive => evidence_is d 6
  | PSuperseded by_ reason superseded_at =>
      is_ok (validate_reason reason)
      && (runtime_generation d <? sp_generation by_)
      && negb (bool_decide (deployment_id (sp_identity by_) = deployment_id (identity d)))
      && same_product_scope (sp_identity by_) (identity d)
      && same_slot (sp_target by_) (target d)
      && (requested_at d <=? superseded_at)
      && evidence_is_prefix d
  | PCancelled reason cancelled_at =>
      is_ok (validate_reason reason)
      && (requested_at d <=? cancelled_at)
      && evidence_is_prefix d
  end.

Definition validate_phase_evidence (d : RuntimeDeployment) : Checked :=
  if phase_evidence_valid d then Ok tt else Err InvalidSnapshot.

Definition snapshot_previous_valid (d : RuntimeDeployment) : bool :=
  is_none_or (λ previous,
    same_slot (target d) (process_target previous)
    && (process_generation previous <? runtime_generation d)) (previous_runtime d).

Definition snapshot_lease_valid (d : RuntimeDeployment) : bool :=
  match controller_lease d, last_fencing_token d with
  | Some lease, Some last =>
      (lease_fencing_token lease =? last)
      && (lease_acquired_at lease <? lease_expires_at lease)
  | None, _ => true
  | _, _ => false
  end.

Definition disposition_failure (disposition : RuntimeFailureDispositionV1) :
    RuntimeFailureV1 * option Instant :=
  match disposition with
  | DispRetryable failure _ retry_not_before => (failure, Some retry_not_before)
  | DispBlocked failure => (failure, None)
  end.

Definition failure_is_current (d : RuntimeDeployment)
    (disposition_ : RuntimeFailureDispositionV1) : bool :=
  match phase d with
  | PRuntimePending condition => bool_decide (disposition condition = Some disposition_)
  | _ => false
  end.

Definition snapshot_failure_valid (d : RuntimeDeployment)
    (disposition_ : RuntimeFailureDispositionV1) : bool :=
  let '(failure, retry_not_before) := disposition_failure disposition_ in
  let evidence_floor :=
    if failure_is_current d disposition_ then runtime_evidence_floor d
    else at_activated_at <$> activation d in
  negb (negb (is_ok (validate_failure failure))
        || (failure_recorded_at failure <? requested_at d)
        || is_none_or (λ floor, failure_recorded_at failure <? floor) evidence_floor
        || is_some_and (λ retry_at, retry_at <? failure_recorded_at failure) retry_not_before).

Definition snapshot_live_valid (d : RuntimeDeployment) (live : LiveAttestationV1) : bool :=
  negb (negb (is_some (gateway_ready d))
        || negb (bool_decide (lv_target live = target d))
        || negb (lv_generation live =? runtime_generation d)
        || negb (bool_decide (activation d = Some (lv_activation live)))
        || negb (bool_decide (panel_certificate d = Some (lv_panel_certificate live)))
        || negb (bool_decide (gateway_ready d = Some (lv_gateway_ready live)))
        || negb (bool_decide (lv_process_instance_id live
                              = gw_process_instance_id (lv_gateway_ready live)))
        || (lv_certified_at live <? gw_ready_at (lv_gateway_ready live))).

Definition recovery_phase_valid (d : RuntimeDeployment) : bool :=
  match phase d with
  | PRuntimePending _ | PReconcilingPanels | PAwaitingGatewayReady | PLive
  | PSuperseded _ _ _ => true
  | _ => false
  end.

Definition snapshot_recovery_valid (d : RuntimeDeployment)
    (recovery : LiveRecoveryAttestationV1) : bool :=
  let prior := rc_prior_live recovery in
  let panel := lv_panel_certificate prior in
  let gateway := lv_gateway_ready prior in
  negb (negb (recovery_phase_valid d)
        || negb (bool_decide (lv_target prior = target d))
        || negb (lv_generation prior =? runtime_generation d)
        || negb (bool_decide (activation d = Some (lv_activation prior)))
        || negb (bool_decide (pn_target panel = target d))
        || negb (pn_generation panel =? runtime_generation d)
        || negb (bool_decide (gw_target gateway = target d))
        || negb (gw_generation gateway =? runtime_generation d)
        || negb (bool_decide (lv_process_instance_id prior = pn_process_instance_id panel))
        || negb (bool_decide (lv_process_instance_id prior = gw_process_instance_id gateway))
        || (pn_reconciled_at panel <? at_activated_at (lv_activation prior))
        || (gw_ready_at gateway <? pn_reconciled_at panel)
        || (lv_certified_at prior <? gw_ready_at gateway)
        || negb (is_ok (validate_panel_eligibility panel))
        || (rc_evidence_at recovery <? lv_certified_at prior)
        || (rc_recovered_at recovery <? rc_evidence_at recovery)
        || is_some_and (λ live, lv_certified_at live <? rc_recovered_at recovery) (live d)).

(** [if let Some(x) = o { check x }], and [map_err(|_| InvalidSnapshot)]. *)
Definition when_some {A} (o : option A) (check : A → Checked) : Checked :=
  match o with Some a => check a | None => Ok tt end.
Definition snapshot_check (r : Checked) : Checked := map_err (λ _, InvalidSnapshot) r.

Definition validate_snapshot (d : RuntimeDeployment) : Checked :=
  _ ← ensure (snapshot_previous_valid d) InvalidSnapshot;
  _ ← ensure (snapshot_lease_valid d) InvalidSnapshot;
  _ ← ensure (negb (is_terminal (phase d) && is_some (controller_lease d))) InvalidSnapshot;
  _ ← ensure (is_none_or (λ lease, requested_at d <=? lease_acquired_at lease)
                         (controller_lease d)) InvalidSnapshot;
  _ ← ensure (is_none_or (snapshot_failure_valid d) (last_runtime_failure d)) InvalidSnapshot;
  _ ← when_some (preflight d) (λ preflight, snapshot_check (validate_preflight d preflight));
  _ ← when_some (drain d) (λ drain_,
        _ ← ensure (is_some (preflight d)) InvalidSnapshot;
        snapshot_check (validate_drain d drain_));
  _ ← when_some (activation d) (λ activation_,
        _ ← ensure (is_some (drain d)) InvalidSnapshot;
        snapshot_check (validate_activation d activation_));
  _ ← when_some (panel_certificate d) (λ panel,
        _ ← ensure (is_some (activation d)) InvalidSnapshot;
        snapshot_check (validate_panel_certificate d panel));
  _ ← when_some (gateway_ready d) (λ gateway,
        _ ← ensure (is_some (panel_certificate d)) InvalidSnapshot;
        snapshot_check (validate_gateway_ready d gateway));
  _ ← ensure (is_none_or (snapshot_live_valid d) (live d)) InvalidSnapshot;
  _ ← ensure (is_none_or (snapshot_recovery_valid d) (last_live_recovery d)) InvalidSnapshot;
  validate_phase_evidence d.

(** ** Construction *)
Definition request (identity : RuntimeDeploymentIdentityV1) (target : RuntimeDeploymentTargetV1)
    (runtime_generation : RuntimeGeneration)
    (previous_runtime : option RuntimeProcessIdentityV1) (requested_at : Instant) :
    Result RuntimeDeploymentError RuntimeDeployment :=
  _ ← when_some previous_runtime (λ previous,
        if negb (same_slot target (process_target previous))
        then Err PreviousRuntimeSlotMismatch
        else if runtime_generation <=? process_generation previous
        then Err RuntimeGenerationNotMonotonic else Ok tt);
  Ok (mkDeployment identity target runtime_generation previous_runtime requested_at
        revision_first PRequested None None None None None None None None None None).

Definition restore (s : RuntimeDeploymentSnapshotV1) :
    Result RuntimeDeploymentError RuntimeDeployment :=
  let deployment :=
    mkDeployment (s_identity s) (s_target s) (s_runtime_generation s) (s_previous_runtime s)
      (s_requested_at s) (s_revision s) (s_phase s) (s_controller_lease s)
      (s_last_fencing_token s) (s_preflight s) (s_drain s) (s_activation s)
      (s_panel_certificate s) (s_gateway_ready s) (s_live s) (s_last_live_recovery s)
      (s_last_runtime_failure s) in
  _ ← validate_snapshot deployment;
  Ok deployment.

Definition snapshot (d : RuntimeDeployment) : RuntimeDeploymentSnapshotV1 :=
  mkSnapshot (identity d) (target d) (runtime_generation d) (previous_runtime d)
    (requested_at d) (revision d) (phase d) (controller_lease d) (last_fencing_token d)
    (preflight d) (drain d) (activation d) (panel_certificate d) (gateway_ready d) (live d)
    (last_live_recovery d) (last_runtime_failure d).

(** ** Transitions *)
Definition bump_revision : Transition := λ d,
  match revision_next (revision d) with
  | Err _ => (Err RevisionOverflow, d)
  | Ok next => (Ok (Applied next), with_revision next d)
  end.

(** [if b { return Ok(self.replayed()) }], then [k]. *)
Definition unless_replayed (b : RuntimeDeployment → bool) (k : Transition) : Transition := λ d,
  if b d then (Ok (replayed d), d) else k d.

Definition validate_lease_request (d : RuntimeDeployment) (request : LeaseRequestV1) : Checked :=
  _ ← require_revision d (lr_expected_revision request);
  if is_terminal (phase d) then Err (invalid_transition d "acquire_lease") else
  if lr_expires_at request <=? lr_now request then Err InvalidLeaseWindow else
  if lr_now request <? requested_at d then Err InvalidLeaseWindow else
  _ ← when_some (controller_lease d) (λ lease,
        if lr_now request <? lease_expires_at lease then
          if negb (bool_decide (lease_controller_id lease = lr_controller_id request))
          then Err (LeaseHeld (lease_controller_id lease) (lease_expires_at lease)) else
          if (lr_now request <? lease_acquired_at lease)
             || (lr_expires_at request <=? lease_expires_at lease)
          then Err InvalidLeaseWindow else Ok tt
        else Ok tt);
  if is_some_and (λ token, lr_fencing_token request <=? token) (last_fencing_token d)
  then Err FencingTokenNotMonotonic else Ok tt.

Definition install_lease (request : LeaseRequestV1) (d : RuntimeDeployment) : RuntimeDeployment :=
  with_last_fencing_token (Some (lr_fencing_token request))
    (with_controller_lease
       (Some (mkLease (lr_controller_id request) (lr_fencing_token request)
                      (lr_now request) (lr_expires_at request))) d).

Definition clear_unaccepted_runtime_evidence (d : RuntimeDeployment) : RuntimeDeployment :=
  with_live None (with_gateway_ready None (with_panel_certificate None d)).

(** The lease held is the one asked for. *)
Definition lease_matches (controller : ControllerId) (token : FencingToken)
    (now expires_at : Instant) (lease : ControllerLeaseV1) : bool :=
  bool_decide (lease_controller_id lease = controller)
  && (lease_fencing_token lease =? token)
  && (lease_acquired_at lease =? now)
  && (lease_expires_at lease =? expires_at).

Definition lease_phase_check (d : RuntimeDeployment) (now : Instant) : Checked :=
  match phase d with
  | PRuntimePending (CondBlocked _) => Err (invalid_transition d "acquire_lease")
  | PRuntimePending (CondRetryable _ _ retry_not_before) =>
      if now <? retry_not_before then Err (invalid_transition d "acquire_lease") else Ok tt
  | _ => Ok tt
  end.

Definition acquire_lease (request : LeaseRequestV1) : Transition :=
  unless_replayed (λ d,
    is_some_and (lease_matches (lr_controller_id request) (lr_fencing_token request)
                   (lr_now request) (lr_expires_at request)) (controller_lease d)) (
  _ ← cmd_lift (λ d, lease_phase_check d (lr_now request));
  _ ← cmd_lift (λ d, validate_lease_request d request);
  _ ← cmd_modify (install_lease request);
  bump_revision).

Definition exact_failure (d : RuntimeDeployment) (expected : RuntimeFailureId) : bool :=
  is_some_and (λ disposition,
    match disposition with
    | DispBlocked failure => bool_decide (failure_id failure = expected)
    | DispRetryable _ _ _ => false
    end) (last_runtime_failure d).

Definition is_ready_phase (d : RuntimeDeployment) : bool :=
  match phase d with PRuntimePending CondReady => true | _ => false end.

Definition is_blocked_by (d : RuntimeDeployment) (expected : RuntimeFailureId) : bool :=
  match phase d with
  | PRuntimePending (CondBlocked failure) => bool_decide (failure_id failure = expected)
  | _ => false
  end.

Definition recover_blocked (request : RecoverBlockedRequestV1) : Transition :=
  unless_replayed (λ d,
    exact_failure d (rb_expected_failure_id request)
    && is_ready_phase d
    && is_some_and (lease_matches (rb_controller_id request) (rb_fencing_token request)
                      (rb_now request) (rb_expires_at request)) (controller_lease d)) (
  _ ← cmd_lift (λ d, require_revision d (rb_expected_revision request));
  _ ← cmd_lift (λ d, ensure (is_blocked_by d (rb_expected_failure_id request))
                            (invalid_transition d "recover_blocked"));
  _ ← cmd_lift (λ d, if is_some (controller_lease d)
                        || negb (exact_failure d (rb_expected_failure_id request))
                     then Err InvalidSnapshot else Ok tt);
  let lease := mkLeaseRequest (rb_expected_revision request) (rb_controller_id request)
                 (rb_fencing_token request) (rb_now request) (rb_expires_at request) in
  _ ← cmd_lift (λ d, validate_lease_request d lease);
  _ ← cmd_modify (install_lease lease);
  _ ← cmd_modify (with_phase (PRuntimePending CondReady));
  bump_revision).

Definition accept_preflight (guard : CommandGuardV1) (attestation : PreflightAttestationV1) :
    Transition :=
  unless_replayed (λ d,
    bool_decide (preflight d = Some attestation) && has_reached d KPreflightReady) (
  _ ← cmd_lift (λ d, require_guard d guard);
  _ ← cmd_lift (λ d, require_phase d KRequested "accept_preflight");
  _ ← cmd_lift (λ d, validate_preflight d attestation);
  _ ← cmd_modify (with_preflight (Some attestation));
  _ ← cmd_modify (with_phase PPreflightReady);
  bump_revision).

Definition request_drain (guard : CommandGuardV1) : Transition :=
  unless_replayed (λ d, has_reached d KDrainRequested) (
  _ ← cmd_lift (λ d, require_guard d guard);
  _ ← cmd_lift (λ d, require_phase d KPreflightReady "request_drain");
  _ ← cmd_modify (with_phase PDrainRequested);
  bump_revision).

Definition accept_drain (guard : CommandGuardV1) (attestation : DrainAttestationV1) : Transition :=
  unless_replayed (λ d,
    bool_decide (drain d = Some attestation) && has_reached d KDrained) (
  _ ← cmd_lift (λ d, require_guard d guard);
  _ ← cmd_lift (λ d, require_phase d KDrainRequested "accept_drain");
  _ ← cmd_lift (λ d, validate_drain d attestation);
  _ ← cmd_modify (with_drain (Some attestation));
  _ ← cmd_modify (with_phase PDrained);
  bump_revision).

Definition begin_activation (guard : CommandGuardV1) : Transition :=
  unless_replayed (λ d, has_reached d KActivationApplying) (
  _ ← cmd_lift (λ d, require_guard d guard);
  _ ← cmd_lift (λ d, require_phase d KDrained "begin_activation");
  _ ← cmd_modify (with_phase PActivationApplying);
  bump_revision).

Definition accept_activation (guard : CommandGuardV1) (attestation : ActivationAttestationV1) :
    Transition :=
  unless_replayed (λ d,
    bool_decide (activation d = Some attestation) && has_reached d KRuntimePending) (
  _ ← cmd_lift (λ d, require_guard d guard);
  _ ← cmd_lift (λ d, require_phase d KActivationApplying "accept_activation");
  _ ← cmd_lift (λ d, validate_activation d attestation);
  _ ← cmd_modify (with_activation (Some attestation));
  _ ← cmd_modify (with_phase (PRuntimePending CondReady));
  bump_revision).

(** The phase is [RuntimePending] with exactly this condition. *)
Definition pending_condition_is (condition : RuntimePendingConditionV1) (d : RuntimeDeployment) :
    bool :=
  match phase d with
  | PRuntimePending current => bool_decide (current = condition)
  | _ => false
  end.

Definition below_floor (d : RuntimeDeployment) (at_ : Instant) : bool :=
  is_none_or (λ floor, at_ <? floor) (runtime_evidence_floor d).

Definition record_retryable_failure (guard : CommandGuardV1) (failure : RuntimeFailureV1)
    (attempt : Z) (retry_not_before : Instant) : Transition :=
  let condition := CondRetryable failure attempt retry_not_before in
  unless_replayed (pending_condition_is condition) (
  _ ← cmd_lift (λ d, require_guard d guard);
  _ ← cmd_lift (λ d, require_runtime_failure_phase d "record_retryable_failure");
  _ ← cmd_lift (λ _, validate_failure failure);
  _ ← cmd_lift (λ d, if (retry_not_before <? failure_recorded_at failure)
                        || below_floor d (failure_recorded_at failure)
                     then Err InvalidFailure else Ok tt);
  _ ← cmd_modify (with_last_runtime_failure
                    (Some (DispRetryable failure attempt retry_not_before)));
  _ ← cmd_modify clear_unaccepted_runtime_evidence;
  _ ← cmd_modify (with_controller_lease None);
  _ ← cmd_modify (with_phase (PRuntimePending condition));
  bump_revision).

Definition record_blocked_failure (guard : CommandGuardV1) (failure : RuntimeFailureV1) :
    Transition :=
  let condition := CondBlocked failure in
  unless_replayed (pending_condition_is condition) (
  _ ← cmd_lift (λ d, require_guard d guard);
  _ ← cmd_lift (λ d, require_runtime_failure_phase d "record_blocked_failure");
  _ ← cmd_lift (λ _, validate_failure failure);
  _ ← cmd_lift (λ d, if below_floor d (failure_recorded_at failure)
                     then Err InvalidFailure else Ok tt);
  _ ← cmd_modify (with_last_runtime_failure (Some (DispBlocked failure)));
  _ ← cmd_modify clear_unaccepted_runtime_evidence;
  _ ← cmd_modify (with_controller_lease None);
  _ ← cmd_modify (with_phase (PRuntimePending condition));
  bump_revision).

Definition resume_runtime_pending (guard : CommandGuardV1) : Transition :=
  unless_replayed is_ready_phase (
  _ ← cmd_lift (λ d, require_guard d guard);
  _ ← cmd_lift (λ d, match phase d with
                     | PRuntimePending _ => Ok tt
                     | _ => Err (invalid_transition d "resume_runtime_pending")
                     end);
  _ ← cmd_modify (with_phase (PRuntimePending CondReady));
  bump_revision).

Definition begin_panel_reconciliation (guard : CommandGuardV1) : Transition :=
  unless_replayed (λ d, has_reached d KReconcilingPanels) (
  _ ← cmd_lift (λ d, require_guard d guard);
  _ ← cmd_lift (λ d, ensure (is_ready_phase d)
                            (invalid_transition d "begin_panel_reconciliation"));
  _ ← cmd_modify (with_phase PReconcilingPanels);
  bump_revision).

Definition accept_panel_certificate (guard : CommandGuardV1) (certificate : PanelCertificateV1) :
    Transition :=
  unless_replayed (λ d,
    bool_decide (panel_certificate d = Some certificate)
    && has_reached d KAwaitingGatewayReady) (
  _ ← cmd_lift (λ d, require_guard d guard);
  _ ← cmd_lift (λ d, require_phase d KReconcilingPanels "accept_panel_certificate");
  _ ← cmd_lift (λ d, validate_panel_certificate d certificate);
  _ ← cmd_modify (with_panel_certificate (Some certificate));
  _ ← cmd_modify (with_phase PAwaitingGatewayReady);
  bump_revision).

Definition certify_live (guard : CommandGuardV1) (gateway : GatewayReadyAttestationV1)
    (certified_at : Instant) : Transition :=
  unless_replayed (λ d,
    is_some_and (λ live, bool_decide (lv_gateway_ready live = gateway)
                         && (lv_certified_at live =? certified_at)) (live d)) (
  _ ← cmd_lift (λ d, require_guard d guard);
  _ ← cmd_lift (λ d, require_phase d KAwaitingGatewayReady "certify_live");
  _ ← cmd_lift (λ d, validate_gateway_ready d gateway);
  activation ← cmd_lift (λ d, ok_or (activation d) InvalidSnapshot);
  panel ← cmd_lift (λ d, ok_or (panel_certificate d) InvalidSnapshot);
  _ ← cmd_lift (λ _, if (gw_ready_at gateway <? pn_reconciled_at panel)
                        || (certified_at <? gw_ready_at gateway)
                     then Err AttestationTimeRegression else Ok tt);
  self ← cmd_get;
  let live := mkLive (target self) (runtime_generation self) (gw_process_instance_id gateway)
                activation panel gateway certified_at in
  _ ← cmd_modify (with_gateway_ready (Some gateway));
  _ ← cmd_modify (with_live (Some live));
  _ ← cmd_modify (with_controller_lease None);
  _ ← cmd_modify (with_phase PLive);
  bump_revision).

Definition recovery_matches (request : RecoverLiveRequestV1)
    (recovery : LiveRecoveryAttestationV1) : bool :=
  (lv_generation (rc_prior_live recovery) =? rl_expected_generation request)
  && bool_decide (lv_process_instance_id (rc_prior_live recovery)
                  = rl_expected_process_instance_id request)
  && bool_decide (rc_kind recovery = rl_kind request)
  && (rc_evidence_at recovery =? rl_evidence_at request)
  && (rc_recovered_at recovery =? rl_recovered_at request).

Definition recover_live (request : RecoverLiveRequestV1) : Transition :=
  unless_replayed (λ d,
    is_some_and (recovery_matches request) (last_live_recovery d)
    && negb (bool_decide (phase d = PLive))) (
  _ ← cmd_lift (λ d, require_revision d (rl_expected_revision request));
  _ ← cmd_lift (λ d, require_phase d KLive "recover_live");
  _ ← cmd_lift (λ d, if negb (rl_expected_generation request =? runtime_generation d)
                     then Err (RuntimeGenerationConflict (runtime_generation d)
                                 (rl_expected_generation request)) else Ok tt);
  prior ← cmd_lift (λ d, ok_or (live d) InvalidSnapshot);
  _ ← cmd_lift (λ _, if negb (bool_decide (lv_process_instance_id prior
                                           = rl_expected_process_instance_id request))
                     then Err ProcessInstanceMismatch else Ok tt);
  _ ← cmd_lift (λ _, if (rl_evidence_at request <? lv_certified_at prior)
                        || (rl_recovered_at request <? rl_evidence_at request)
                     then Err AttestationTimeRegression else Ok tt);
  _ ← cmd_modify (with_last_live_recovery
        (Some (mkRecovery prior (rl_kind request) (rl_evidence_at request)
                 (rl_recovered_at request))));
  _ ← cmd_modify clear_unaccepted_runtime_evidence;
  _ ← cmd_modify (with_phase (PRuntimePending CondReady));
  bump_revision).

Definition supersede (guard : CommandGuardV1) (by_ : SupersedingDeploymentV1) (reason : string)
    (superseded_at : Instant) : Transition :=
  unless_replayed (λ d, bool_decide (phase d = PSuperseded by_ reason superseded_at)) (
  _ ← cmd_lift (λ d, require_guard d guard);
  _ ← cmd_lift (λ d, if is_terminal (phase d) then Err (invalid_transition d "supersede")
                     else Ok tt);
  _ ← cmd_lift (λ d, validate_supersession d by_ reason superseded_at);
  _ ← cmd_modify (with_phase (PSuperseded by_ reason superseded_at));
  _ ← cmd_modify (with_controller_lease None);
  bump_revision).

Definition is_cancellable (d : RuntimeDeployment) : bool :=
  match phase_kind (phase d) with
  | KRequested | KPreflightReady | KDrainRequested => true
  | _ => false
  end.

Definition cancel (guard : CommandGuardV1) (reason : string) (cancelled_at : Instant) :
    Transition :=
  unless_replayed (λ d, bool_decide (phase d = PCancelled reason cancelled_at)) (
  _ ← cmd_lift (λ d, require_guard d guard);
  _ ← cmd_lift (λ d, ensure (is_cancellable d) (invalid_transition d "cancel"));
  _ ← cmd_lift (λ _, validate_reason reason);
  _ ← cmd_lift (λ d, if cancelled_at <? requested_at d then Err AttestationTimeRegression
                     else Ok tt);
  _ ← cmd_modify (with_phase (PCancelled reason cancelled_at));
  _ ← cmd_modify (with_controller_lease None);
  bump_revision).

(** ** Product drains *)
Record ProductDrainSourceSupersessionPermitV1 := mkSupersessionPermit {
  ssp_source : RuntimeDeploymentSnapshotV1;
  ssp_acknowledged_at : Instant;
}.

Record ProductDrainSourceCancellationPermitV1 := mkCancellationPermit {
  scp_source : RuntimeDeploymentSnapshotV1;
  scp_acknowledged_at : Instant;
}.

Definition validated_product_drain_source_acknowledgement (source : RuntimeDeployment)
    (expected_revision : DeploymentRevision) (acknowledged_at : Instant) (operation : string) :
    Result RuntimeDeploymentError RuntimeDeploymentSnapshotV1 :=
  _ ← require_revision source expected_revision;
  let snapshot := snapshot source in
  evidence_floor ←
    match s_phase snapshot with
    | PAwaitingGatewayReady =>
        ok_or (pn_reconciled_at <$> s_panel_certificate snapshot) InvalidSnapshot
    | PLive => ok_or (lv_certified_at <$> s_live snapshot) InvalidSnapshot
    | _ => Err (invalid_transition source operation)
    end;
  if acknowledged_at <? evidence_floor then Err AttestationTimeRegression else Ok snapshot.

Definition supersession_permit (source : RuntimeDeployment)
    (expected_revision : DeploymentRevision) (acknowledged_at : Instant) :
    Result RuntimeDeploymentError ProductDrainSourceSupersessionPermitV1 :=
  snapshot ← validated_product_drain_source_acknowledgement source expected_revision
               acknowledged_at "prove_product_drain_route_absence_acknowledgement";
  Ok (mkSupersessionPermit snapshot acknowledged_at).

Definition cancellation_permit (source : RuntimeDeployment)
    (expected_revision : DeploymentRevision) (acknowledged_at : Instant) :
    Result RuntimeDeploymentError ProductDrainSourceCancellationPermitV1 :=
  snapshot ← validated_product_drain_source_acknowledgement source expected_revision
               acknowledged_at "prove_product_drain_route_absence_cancellation";
  Ok (mkCancellationPermit snapshot acknowledged_at).

Definition next_snapshot_revision (s : RuntimeDeploymentSnapshotV1) :
    Result RuntimeDeploymentError RuntimeDeploymentSnapshotV1 :=
  next ← map_err (λ _, RevisionOverflow) (revision_next (s_revision s));
  Ok (snapshot_with_revision next s).

(** A live source loses its evidence to a recovery record. *)
Definition retire_live (acknowledged_at superseded_at : Instant)
    (s : RuntimeDeploymentSnapshotV1) :
    Result RuntimeDeploymentError RuntimeDeploymentSnapshotV1 :=
  match s_phase s with
  | PLive =>
      prior_live ← ok_or (s_live s) InvalidSnapshot;
      Ok (snapshot_with_gateway_ready None
           (snapshot_with_panel_certificate None
             (snapshot_with_last_live_recovery
                (Some (mkRecovery prior_live ServingDisconnected acknowledged_at superseded_at))
                (snapshot_with_live None s))))
  | _ => Ok s
  end.

Definition supersession_result (permit : ProductDrainSourceSupersessionPermitV1)
    (by_ : SupersedingDeploymentV1) (reason : string) (superseded_at : Instant) :
    Result RuntimeDeploymentError RuntimeDeployment :=
  source ← restore (ssp_source permit);
  _ ← validate_supersession source by_ reason superseded_at;
  if superseded_at <? ssp_acknowledged_at permit then Err AttestationTimeRegression else
  result ← next_snapshot_revision (ssp_source permit);
  result ← retire_live (ssp_acknowledged_at permit) superseded_at result;
  restore (snapshot_with_phase (PSuperseded by_ reason superseded_at)
             (snapshot_with_controller_lease None result)).

Definition cancellation_result (permit : ProductDrainSourceCancellationPermitV1)
    (cancelled_at : Instant) : Result RuntimeDeploymentError RuntimeDeployment :=
  _ ← restore (scp_source permit);
  if cancelled_at <? scp_acknowledged_at permit then Err AttestationTimeRegression else
  result ← next_snapshot_revision (scp_source permit);
  restore result.

Definition supersede_product_drain_source (permit : ProductDrainSourceSupersessionPermitV1)
    (by_ : SupersedingDeploymentV1) (reason : string) (superseded_at : Instant) : Transition :=
  λ d,
  match supersession_result permit by_ reason superseded_at with
  | Err e => (Err e, d)
  | Ok result =>
      if bool_decide (d = result) then (Ok (replayed d), d)
      else if negb (bool_decide (snapshot d = ssp_source permit))
      then (Err ProductDrainSupersessionSourceMismatch, d)
      else (Ok (Applied (revision result)), result)
  end.

Definition cancel_product_drain_source (permit : ProductDrainSourceCancellationPermitV1)
    (cancelled_at : Instant) : Transition :=
  λ d,
  if negb (bool_decide (snapshot d = scp_source permit))
  then (Err ProductDrainCancellationSourceMismatch, d)
  else match cancellation_result permit cancelled_at with
       | Err e => (Err e, d)
       | Ok result => (Ok (Applied (revision result)), result)
       end.

(** ** The commands of the machine *)
Inductive Command :=
| CAcquireLease (request : LeaseRequestV1)
| CRecoverBlocked (request : RecoverBlockedRequestV1)
| CAcceptPreflight (guard : CommandGuardV1) (attestation : PreflightAttestationV1)
| CRequestDrain (guard : CommandGuardV1)
| CAcceptDrain (guard : CommandGuardV1) (attestation : DrainAttestationV1)
| CBeginActivation (guard : CommandGuardV1)
| CAcceptActivation (guard : CommandGuardV1) (attestation : ActivationAttestationV1)
| CRecordRetryable (guard : CommandGuardV1) (failure : RuntimeFailureV1) (attempt : Z)
    (retry_not_before : Instant)
| CRecordBlocked (guard : CommandGuardV1) (failure : RuntimeFailureV1)
| CResumePending (guard : CommandGuardV1)
| CBeginPanels (guard : CommandGuardV1)
| CAcceptPanel (guard : CommandGuardV1) (certificate : PanelCertificateV1)
| CCertifyLive (guard : CommandGuardV1) (gateway : GatewayReadyAttestationV1)
    (certified_at : Instant)
| CRecoverLive (request : RecoverLiveRequestV1)
| CSupersede (guard : CommandGuardV1) (by_ : SupersedingDeploymentV1) (reason : string)
    (superseded_at : Instant)
| CCancel (guard : CommandGuardV1) (reason : string) (cancelled_at : Instant)
| CSupersedeDrained (permit : ProductDrainSourceSupersessionPermitV1)
    (by_ : SupersedingDeploymentV1) (reason : string) (superseded_at : Instant)
| CCancelDrained (permit : ProductDrainSourceCancellationPermitV1) (cancelled_at : Instant).

Definition run_command (c : Command) : Transition :=
  match c with
  | CAcquireLease r => acquire_lease r
  | CRecoverBlocked r => recover_blocked r
  | CAcceptPreflight g a => accept_preflight g a
  | CRequestDrain g => request_drain g
  | CAcceptDrain g a => accept_drain g a
  | CBeginActivation g => begin_activation g
  | CAcceptActivation g a => accept_activation g a
  | CRecordRetryable g f n t => record_retryable_failure g f n t
  | CRecordBlocked g f => record_blocked_failure g f
  | CResumePending g => resume_runtime_pending g
  | CBeginPanels g => begin_panel_reconciliation g
  | CAcceptPanel g c => accept_panel_certificate g c
  | CCertifyLive g gw t => certify_live g gw t
  | CRecoverLive r => recover_live r
  | CSupersede g b r t => supersede g b r t
  | CCancel g r t => cancel g r t
  | CSupersedeDrained p b r t => supersede_product_drain_source p b r t
  | CCancelDrained p t => cancel_product_drain_source p t
  end.
