(* ===== verification/ConvergenceStep.v ===== *)
(** * Runtime convergence: what a command does

    The deployment machine of [Convergence] with its plumbing removed: for each command,
    the checks of the code it passes and the deployment it leaves before its revision is
    advanced. [run_command_inv] shows that the executable machine does nothing else. The
    invariants are proved on this relation; the rules of the protocol, which do not use
    the checks of the code, are in [ConvergenceSafety]. *)

From Stdlib Require Import ZArith Lia String.
From stdpp Require Import base decidable list strings.
From S2P Require Import Prelude RustStd DiscordModel ConvergenceTypes Convergence.
Open Scope Z_scope.

(** ** Guards *)

(** The caller holds the lease now, with the current token, revision and generation. *)
Definition guarded (d : RuntimeDeployment) (g : CommandGuardV1) : Prop :=
  cg_expected_revision g = revision d ∧ cg_generation g = runtime_generation d ∧
  ∃ l, controller_lease d = Some l ∧ cg_now g < lease_expires_at l ∧
       lease_controller_id l = cg_controller_id g ∧ lease_fencing_token l = cg_fencing_token g.

(** A lease may be installed: nobody else holds one, and its token is new. *)
Definition grantable (d : RuntimeDeployment) (r : LeaseRequestV1) : Prop :=
  lr_expected_revision r = revision d ∧ is_terminal (phase d) = false ∧
  lr_now r < lr_expires_at r ∧ requested_at d ≤ lr_now r ∧
  (∀ l, controller_lease d = Some l → lr_now r < lease_expires_at l →
        lease_controller_id l = lr_controller_id r ∧ lease_acquired_at l ≤ lr_now r ∧
        lease_expires_at l < lr_expires_at r) ∧
  (∀ t, last_fencing_token d = Some t → t < lr_fencing_token r).

Lemma require_revision_Ok d r u : require_revision d r = Ok u → r = revision d.
Proof. unfold require_revision. intros. result_cases. by bool_facts. Qed.

Lemma require_guard_Ok d g u : require_guard d g = Ok u → guarded d g.
Proof.
  unfold require_guard. intros. result_cases. bool_facts.
  repeat split; [by eapply require_revision_Ok|done|eauto 10].
Qed.

Lemma require_phase_Ok d k op u : require_phase d k op = Ok u → phase_kind (phase d) = k.
Proof. unfold require_phase. intros. result_cases. by bool_facts. Qed.

Lemma validate_lease_request_Ok d r u : validate_lease_request d r = Ok u → grantable d r.
Proof.
  unfold validate_lease_request. intros H. result_cases. bool_facts.
  split_and!; try done; [by eapply require_revision_Ok|..].
  - intros. destruct (controller_lease d) as [l'|]; simplify_eq. cbn in *.
    result_cases; bool_facts; [auto with lia|lia].
  - intros t Ht. rewrite Ht in *. cbn in *. bool_facts. lia.
Qed.

(** ** The step relation *)
Definition supersession_of (d : RuntimeDeployment) (by_ : SupersedingDeploymentV1)
    (reason : string) (acknowledged_at superseded_at : Instant) : RuntimeDeployment :=
  with_phase (PSuperseded by_ reason superseded_at)
    (with_controller_lease None
       (match phase d, live d with
        | PLive, Some prior =>
            with_last_live_recovery
              (Some (mkRecovery prior ServingDisconnected acknowledged_at superseded_at))
              (clear_unaccepted_runtime_evidence d)
        | _, _ => d
        end)).

Definition recover_lease (r : RecoverBlockedRequestV1) : LeaseRequestV1 :=
  mkLeaseRequest (rb_expected_revision r) (rb_controller_id r) (rb_fencing_token r)
    (rb_now r) (rb_expires_at r).

Inductive effect : Command → RuntimeDeployment → RuntimeDeployment → Prop :=
| EAcquireLease r d :
    lease_phase_check d (lr_now r) = Ok tt → grantable d r →
    effect (CAcquireLease r) d (install_lease r d)
| ERecoverBlocked r d :
    is_blocked_by d (rb_expected_failure_id r) = true → controller_lease d = None →
    exact_failure d (rb_expected_failure_id r) = true → grantable d (recover_lease r) →
    effect (CRecoverBlocked r) d
      (with_phase (PRuntimePending CondReady) (install_lease (recover_lease r) d))
| EAcceptPreflight g a d :
    guarded d g → phase d = PRequested → validate_preflight d a = Ok tt →
    effect (CAcceptPreflight g a) d (with_phase PPreflightReady (with_preflight (Some a) d))
| ERequestDrain g d :
    guarded d g → phase d = PPreflightReady →
    effect (CRequestDrain g) d (with_phase PDrainRequested d)
| EAcceptDrain g a d :
    guarded d g → phase d = PDrainRequested → validate_drain d a = Ok tt →
    effect (CAcceptDrain g a) d (with_phase PDrained (with_drain (Some a) d))
| EBeginActivation g d :
    guarded d g → phase d = PDrained →
    effect (CBeginActivation g) d (with_phase PActivationApplying d)
| EAcceptActivation g a d :
    guarded d g → phase d = PActivationApplying → validate_activation d a = Ok tt →
    effect (CAcceptActivation g a) d
      (with_phase (PRuntimePending CondReady) (with_activation (Some a) d))
| ERecordRetryable g f n t floor d :
    guarded d g → (∃ op, require_runtime_failure_phase d op = Ok tt) →
    validate_failure f = Ok tt → failure_recorded_at f ≤ t →
    runtime_evidence_floor d = Some floor → floor ≤ failure_recorded_at f →
    effect (CRecordRetryable g f n t) d
      (with_phase (PRuntimePending (CondRetryable f n t)) (with_controller_lease None
         (clear_unaccepted_runtime_evidence
            (with_last_runtime_failure (Some (DispRetryable f n t)) d))))
| ERecordBlocked g f floor d :
    guarded d g → (∃ op, require_runtime_failure_phase d op = Ok tt) →
    validate_failure f = Ok tt →
    runtime_evidence_floor d = Some floor → floor ≤ failure_recorded_at f →
    effect (CRecordBlocked g f) d
      (with_phase (PRuntimePending (CondBlocked f)) (with_controller_lease None
         (clear_unaccepted_runtime_evidence
            (with_last_runtime_failure (Some (DispBlocked f)) d))))
| EResumePending g c d :
    guarded d g → phase d = PRuntimePending c →
    effect (CResumePending g) d (with_phase (PRuntimePending CondReady) d)
| EBeginPanels g d :
    guarded d g → phase d = PRuntimePending CondReady →
    effect (CBeginPanels g) d (with_phase PReconcilingPanels d)
| EAcceptPanel g c d :
    guarded d g → phase d = PReconcilingPanels → validate_panel_certificate d c = Ok tt →
    effect (CAcceptPanel g c) d
      (with_phase PAwaitingGatewayReady (with_panel_certificate (Some c) d))
| ECertifyLive g gw t a p d :
    guarded d g → phase d = PAwaitingGatewayReady → validate_gateway_ready d gw = Ok tt →
    activation d = Some a → panel_certificate d = Some p →
    pn_reconciled_at p ≤ gw_ready_at gw → gw_ready_at gw ≤ t →
    effect (CCertifyLive g gw t) d
      (with_phase PLive (with_controller_lease None
         (with_live (Some (mkLive (target d) (runtime_generation d) (gw_process_instance_id gw)
                             a p gw t)) (with_gateway_ready (Some gw) d))))
| ERecoverLive r prior d :
    rl_expected_revision r = revision d → phase d = PLive →
    rl_expected_generation r = runtime_generation d → live d = Some prior →
    lv_process_instance_id prior = rl_expected_process_instance_id r →
    lv_certified_at prior ≤ rl_evidence_at r → rl_evidence_at r ≤ rl_recovered_at r →
    effect (CRecoverLive r) d
      (with_phase (PRuntimePending CondReady) (clear_unaccepted_runtime_evidence
         (with_last_live_recovery
            (Some (mkRecovery prior (rl_kind r) (rl_evidence_at r) (rl_recovered_at r))) d)))
| ESupersede g b r t d :
    guarded d g → is_terminal (phase d) = false → validate_supersession d b r t = Ok tt →
    effect (CSupersede g b r t) d (with_controller_lease None (with_phase (PSuperseded b r t) d))
| ECancel g r t d :
    guarded d g → is_cancellable d = true → validate_reason r = Ok tt → requested_at d ≤ t →
    effect (CCancel g r t) d (with_controller_lease None (with_phase (PCancelled r t) d))
| ESupersedeDrained p b r t d :
    ssp_source p = snapshot d → ssp_acknowledged_at p ≤ t →
    validate_snapshot d = Ok tt → validate_supersession d b r t = Ok tt →
    validate_snapshot (supersession_of d b r (ssp_acknowledged_at p) t) = Ok tt →
    effect (CSupersedeDrained p b r t) d (supersession_of d b r (ssp_acknowledged_at p) t)
| ECancelDrained p t d :
    scp_source p = snapshot d → scp_acknowledged_at p ≤ t → validate_snapshot d = Ok tt →
    effect (CCancelDrained p t) d d.

(** A command that answers without changing anything. *)
Definition inert (d : RuntimeDeployment) (r : Result RuntimeDeploymentError TransitionOutcomeV1)
    (d' : RuntimeDeployment) : Prop :=
  d' = d ∧ ((∃ e, r = Err e) ∨ r = Ok (Replayed (revision d))).

(** ** Running the machine *)
Lemma unless_replayed_step b k d r d' :
  unless_replayed b k d = (r, d') → inert d r d' ∨ k d = (r, d').
Proof. unfold unless_replayed, inert. destruct (b d); naive_solver. Qed.

(** Peel off the checks of a transition; each failing one is inert. *)
Ltac peel_lift :=
  match goal with
  | H : mbind _ (cmd_lift _) _ = (_, _) |- _ =>
      apply cmd_lift_step in H as [(? & _ & -> & ->)|([] & ? & H)]; [left; unfold inert; eauto|]
  | H : mbind _ (cmd_lift _) _ = (_, _) |- _ =>
      apply cmd_lift_step in H as [(? & _ & -> & ->)|(? & ? & H)]; [left; unfold inert; eauto|]
  end.

Ltac peel :=
  match goal with
  | H : unless_replayed _ _ _ = (_, _) |- _ =>
      apply unless_replayed_step in H as [H|H]; [by left|]
  end;
  repeat peel_lift;
  repeat match goal with
         | H : mbind _ (cmd_modify _) _ = _ |- _ => rewrite cmd_modify_step in H
         | H : mbind _ cmd_get _ = _ |- _ => rewrite cmd_get_step in H; cbv zeta in H
         end.

Ltac guard_facts :=
  repeat match goal with
         | H : require_guard _ _ = Ok _ |- _ => apply require_guard_Ok in H
         | H : require_revision _ _ = Ok _ |- _ => apply require_revision_Ok in H
         | H : require_phase _ _ _ = Ok _ |- _ => apply require_phase_Ok in H
         | H : validate_lease_request _ _ = Ok _ |- _ => apply validate_lease_request_Ok in H
         end; result_cases; bool_facts.

Lemma phase_kind_inv p k :
  phase_kind p = k →
  match k with
  | KRequested => p = PRequested
  | KPreflightReady => p = PPreflightReady
  | KDrainRequested => p = PDrainRequested
  | KDrained => p = PDrained
  | KActivationApplying => p = PActivationApplying
  | KReconcilingPanels => p = PReconcilingPanels
  | KAwaitingGatewayReady => p = PAwaitingGatewayReady
  | KLive => p = PLive
  | _ => True
  end.
Proof. intros <-. by destruct p. Qed.

Definition moves (c : Command) (d : RuntimeDeployment)
    (r : Result RuntimeDeploymentError TransitionOutcomeV1) (d' : RuntimeDeployment) : Prop :=
  inert d r d' ∨ ∃ m, effect c d m ∧ bump_revision m = (r, d').

Ltac finish_move :=
  right; eexists; split; [|eassumption];
  repeat match goal with
         | H : phase_kind _ = _ |- _ => apply phase_kind_inv in H
         end.

Lemma acquire_lease_moves r d o d' :
  acquire_lease r d = (o, d') → moves (CAcquireLease r) d o d'.
Proof. unfold acquire_lease. intros. peel. guard_facts. finish_move. by constructor. Qed.

Lemma recover_blocked_moves r d o d' :
  recover_blocked r d = (o, d') → moves (CRecoverBlocked r) d o d'.
Proof.
  unfold recover_blocked. intros. peel. guard_facts. finish_move.
  constructor; try done. by destruct (controller_lease d).
Qed.

Lemma accept_preflight_moves g a d o d' :
  accept_preflight g a d = (o, d') → moves (CAcceptPreflight g a) d o d'.
Proof. unfold accept_preflight. intros. peel. guard_facts. finish_move. by constructor. Qed.

Lemma request_drain_moves g d o d' :
  request_drain g d = (o, d') → moves (CRequestDrain g) d o d'.
Proof. unfold request_drain. intros. peel. guard_facts. finish_move. by constructor. Qed.

Lemma accept_drain_moves g a d o d' :
  accept_drain g a d = (o, d') → moves (CAcceptDrain g a) d o d'.
Proof. unfold accept_drain. intros. peel. guard_facts. finish_move. by constructor. Qed.

Lemma begin_activation_moves g d o d' :
  begin_activation g d = (o, d') → moves (CBeginActivation g) d o d'.
Proof. unfold begin_activation. intros. peel. guard_facts. finish_move. by constructor. Qed.

Lemma accept_activation_moves g a d o d' :
  accept_activation g a d = (o, d') → moves (CAcceptActivation g a) d o d'.
Proof. unfold accept_activation. intros. peel. guard_facts. finish_move. by constructor. Qed.

Lemma below_floor_false d t :
  below_floor d t = false → ∃ floor, runtime_evidence_floor d = Some floor ∧ floor ≤ t.
Proof.
  unfold below_floor. destruct (runtime_evidence_floor d) as [floor|]; cbn; [|done].
  intros H%Z.ltb_ge. eauto.
Qed.

Lemma record_retryable_failure_moves g f n t d o d' :
  record_retryable_failure g f n t d = (o, d') → moves (CRecordRetryable g f n t) d o d'.
Proof.
  unfold record_retryable_failure. cbv zeta. intros. peel. guard_facts.
  match goal with H : below_floor _ _ = false |- _ =>
    apply below_floor_false in H as (floor & ? & ?) end.
  finish_move. econstructor; eauto.
Qed.

Lemma record_blocked_failure_moves g f d o d' :
  record_blocked_failure g f d = (o, d') → moves (CRecordBlocked g f) d o d'.
Proof.
  unfold record_blocked_failure. cbv zeta. intros. peel. guard_facts.
  match goal with H : below_floor _ _ = false |- _ =>
    apply below_floor_false in H as (floor & ? & ?) end.
  finish_move. econstructor; eauto.
Qed.

Lemma resume_runtime_pending_moves g d o d' :
  resume_runtime_pending g d = (o, d') → moves (CResumePending g) d o d'.
Proof.
  unfold resume_runtime_pending. intros. peel. guard_facts.
  destruct (phase d) eqn:Hp; try discriminate. finish_move. by econstructor.
Qed.

Lemma is_ready_phase_inv d : is_ready_phase d = true → phase d = PRuntimePending CondReady.
Proof. unfold is_ready_phase. destruct (phase d) as [| | | | |[]| | | | |]; done. Qed.

Lemma begin_panel_reconciliation_moves g d o d' :
  begin_panel_reconciliation g d = (o, d') → moves (CBeginPanels g) d o d'.
Proof.
  unfold begin_panel_reconciliation. intros. peel. guard_facts. finish_move.
  constructor; [done|by apply is_ready_phase_inv].
Qed.

Lemma accept_panel_certificate_moves g c d o d' :
  accept_panel_certificate g c d = (o, d') → moves (CAcceptPanel g c) d o d'.
Proof. unfold accept_panel_certificate. intros. peel. guard_facts. finish_move. by constructor. Qed.

Lemma certify_live_moves g gw t d o d' :
  certify_live g gw t d = (o, d') → moves (CCertifyLive g gw t) d o d'.
Proof. unfold certify_live. intros. peel. guard_facts. finish_move. by constructor. Qed.

Lemma recover_live_moves r d o d' :
  recover_live r d = (o, d') → moves (CRecoverLive r) d o d'.
Proof. unfold recover_live. intros. peel. guard_facts. finish_move. by constructor. Qed.

Lemma supersede_moves g b r t d o d' :
  supersede g b r t d = (o, d') → moves (CSupersede g b r t) d o d'.
Proof. unfold supersede. intros. peel. guard_facts. finish_move. by constructor. Qed.

Lemma cancel_moves g r t d o d' :
  cancel g r t d = (o, d') → moves (CCancel g r t) d o d'.
Proof. unfold cancel. intros. peel. guard_facts. finish_move. by constructor. Qed.

(** Restoring a snapshot is validating it. *)
Lemma restore_snapshot d :
  restore (snapshot d) = match validate_snapshot d with Ok _ => Ok d | Err e => Err e end.
Proof. destruct d. unfold restore, snapshot. cbn. by destruct (validate_snapshot _). Qed.

Lemma validate_snapshot_revision n d :
  validate_snapshot (with_revision n d) = validate_snapshot d.
Proof. by destruct d. Qed.

Lemma snapshot_inj d d' : snapshot d = snapshot d' → d = d'.
Proof. destruct d, d'. unfold snapshot. cbn. intros [=]. by subst. Qed.

Lemma restore_Ok_snapshot s d : restore s = Ok d → s = snapshot d ∧ validate_snapshot d = Ok tt.
Proof.
  unfold restore. intros H. apply bind_Ok_inv in H as ([] & Hv & [= <-]).
  by destruct s.
Qed.

Lemma bump_revision_next m n :
  revision_next (revision m) = Ok n → bump_revision m = (Ok (Applied n), with_revision n m).
Proof. unfold bump_revision. by intros ->. Qed.

Lemma retire_live_snapshot ack t n b r d s :
  retire_live ack t (snapshot_with_revision n (snapshot d)) = Ok s →
  snapshot_with_phase (PSuperseded b r t) (snapshot_with_controller_lease None s)
  = snapshot (with_revision n (supersession_of d b r ack t)).
Proof.
  destruct d as [? ? ? ? ? ? ph ? ? ? ? ? ? ? lv ? ?]. unfold retire_live.
  destruct ph, lv; cbn; intros [= <-]; done.
Qed.

Lemma supersession_of_revision d b r ack t : revision (supersession_of d b r ack t) = revision d.
Proof.
  unfold supersession_of. destruct d as [? ? ? ? ? ? ph ? ? ? ? ? ? ? lv ? ?].
  by destruct ph, lv.
Qed.

Lemma supersession_result_Ok p b r t d d' :
  ssp_source p = snapshot d → supersession_result p b r t = Ok d' →
  effect (CSupersedeDrained p b r t) d (supersession_of d b r (ssp_acknowledged_at p) t) ∧
  bump_revision (supersession_of d b r (ssp_acknowledged_at p) t)
    = (Ok (Applied (revision d')), d').
Proof.
  unfold supersession_result, next_snapshot_revision. intros Hs H. rewrite Hs in H.
  rewrite restore_snapshot in H. destruct (validate_snapshot d) as [[]|] eqn:Hd; [|done].
  cbn [mbind Result_bind] in H. apply bind_Ok_inv in H as ([] & Hsup & H).
  destruct (t <? ssp_acknowledged_at p) eqn:E; [done|]. bool_facts.
  change (s_revision (snapshot d)) with (revision d) in H.
  destruct (revision_next (revision d)) as [n|] eqn:Hn; [|done].
  cbn [mbind Result_bind map_err] in H. apply bind_Ok_inv in H as (s & Hret & H).
  rewrite (retire_live_snapshot _ _ _ b r _ _ Hret) in H.
  rewrite restore_snapshot, validate_snapshot_revision in H.
  destruct (validate_snapshot (supersession_of _ _ _ _ _)) as [[]|] eqn:Hv; [|done].
  injection H as <-. split; [by constructor|].
  rewrite (bump_revision_next _ n) by (by rewrite supersession_of_revision).
  by destruct (supersession_of _ _ _ _ _).
Qed.

Lemma supersede_product_drain_source_moves p b r t d o d' :
  supersede_product_drain_source p b r t d = (o, d') → moves (CSupersedeDrained p b r t) d o d'.
Proof.
  unfold supersede_product_drain_source, moves, inert.
  destruct (supersession_result p b r t) as [res|] eqn:Hres; [|naive_solver].
  case_bool_decide; [naive_solver|]. case_bool_decide as Hs; cbn; [|naive_solver].
  intros [= <- <-]. right. eexists. by apply supersession_result_Ok.
Qed.

Lemma cancel_product_drain_source_moves p t d o d' :
  cancel_product_drain_source p t d = (o, d') → moves (CCancelDrained p t) d o d'.
Proof.
  unfold cancel_product_drain_source, moves, inert.
  case_bool_decide as Hs; cbn; [|naive_solver].
  destruct (cancellation_result p t) as [res|] eqn:Hres; [|naive_solver].
  intros [= <- <-]. right. exists d. unfold cancellation_result, next_snapshot_revision in Hres.
  rewrite <-Hs, restore_snapshot in Hres.
  destruct (validate_snapshot d) as [[]|] eqn:Hv; [|done]. cbn [mbind Result_bind] in Hres.
  destruct (t <? scp_acknowledged_at p) eqn:E; [done|]. bool_facts.
  split; [by constructor|].
  change (s_revision (snapshot d)) with (revision d) in Hres.
  destruct (revision_next (revision d)) as [n|] eqn:Hn; [|done].
  rewrite (bump_revision_next _ _ Hn).
  cbn [mbind Result_bind map_err] in Hres.
  apply restore_Ok_snapshot in Hres as [Hd' _].
  assert (with_revision n d = res) as <- by (apply snapshot_inj; rewrite <-Hd'; by destruct d).
  by destruct d.
Qed.

(** The machine refines the step relation: every command is inert or takes its rule. *)
Lemma run_command_inv c d o d' : run_command c d = (o, d') → moves c d o d'.
Proof.
  destruct c; cbn [run_command];
    eauto using acquire_lease_moves, recover_blocked_moves, accept_preflight_moves,
      request_drain_moves, accept_drain_moves, begin_activation_moves, accept_activation_moves,
      record_retryable_failure_moves, record_blocked_failure_moves,
      resume_runtime_pending_moves, begin_panel_reconciliation_moves,
      accept_panel_certificate_moves, certify_live_moves, recover_live_moves, supersede_moves,
      cancel_moves, supersede_product_drain_source_moves, cancel_product_drain_source_moves.
Qed.

Lemma bump_revision_inv m o d' :
  bump_revision m = (o, d') → 1 ≤ revision m ≤ u64_max →
  (o = Ok (Applied (revision m + 1)) ∧ d' = with_revision (revision m + 1) m ∧
   revision m + 1 ≤ u64_max)
  ∨ (o = Err RevisionOverflow ∧ d' = m ∧ revision m = u64_max).
Proof.
  unfold bump_revision, revision_next, u64_checked_add. intros H Hr.
  destruct (revision m + 1 <=? u64_max) eqn:E; bool_facts; cbn in H.
  - destruct (revision m + 1 =? 0) eqn:E0; bool_facts; [lia|]. simplify_eq. by left.
  - simplify_eq. right. split_and!; try done. lia.
Qed.

(** ** Completeness: where a rule applies, the machine takes it *)
Lemma guarded_require d g : guarded d g → require_guard d g = Ok tt.
Proof.
  intros (Hr & Hg & l & Hl & Ht & Hc & Hk). unfold require_guard, require_revision.
  rewrite Hr, Z.eqb_refl. cbn. rewrite Hg, Z.eqb_refl. cbn. rewrite Hl. cbn.
  rewrite (proj2 (Z.leb_gt _ _) Ht), bool_decide_true, Hk, Z.eqb_refl by done. done.
Qed.

Lemma grantable_validate d r : grantable d r → validate_lease_request d r = Ok tt.
Proof.
  intros (Hr & Ht & Hw & Hq & Hl & Hk). unfold validate_lease_request, require_revision.
  rewrite Hr, Z.eqb_refl, Ht. cbn.
  rewrite (proj2 (Z.leb_gt _ _) Hw), (proj2 (Z.ltb_ge _ _) Hq).
  assert (is_some_and (λ token, lr_fencing_token r <=? token) (last_fencing_token d) = false) as ->.
  { destruct (last_fencing_token d) as [t|]; [|done]. by apply Z.leb_gt, Hk. }
  destruct (controller_lease d) as [l|]; [|done]. cbn.
  destruct (lr_now r <? lease_expires_at l) eqn:E; [|done]. bool_facts.
  destruct (Hl l eq_refl E) as (Hc & Ha & He).
  by rewrite bool_decide_true, (proj2 (Z.ltb_ge _ _) Ha), (proj2 (Z.leb_gt _ _) He).
Qed.

Lemma require_phase_known d p op : phase d = p → require_phase d (phase_kind p) op = Ok tt.
Proof. intros <-. unfold require_phase. by rewrite bool_decide_true. Qed.

Lemma ltb_ge_false a b : b ≤ a → (a <? b) = false.
Proof. by intros ?%Z.ltb_ge. Qed.

Lemma above_floor d t floor :
  runtime_evidence_floor d = Some floor → floor ≤ t → below_floor d t = false.
Proof. unfold below_floor. intros ->. apply ltb_ge_false. Qed.

Lemma require_runtime_failure_phase_any d op op' :
  require_runtime_failure_phase d op = Ok tt → require_runtime_failure_phase d op' = Ok tt.
Proof. unfold require_runtime_failure_phase. by destruct (phase d) as [| | | | |[]| | | | |]. Qed.

(** Discharge one check of a transition from the premises of its rule. *)
Ltac check_passes :=
  cbv beta;
  first
    [ eassumption
    | by apply guarded_require
    | by apply grantable_validate
    | match goal with H : phase _ = ?p |- require_phase _ _ _ = _ =>
        exact (require_phase_known _ p _ H) end
    | match goal with H : ∃ op, require_runtime_failure_phase _ op = _ |- _ =>
        destruct H as [? H]; exact (require_runtime_failure_phase_any _ _ _ H) end
    | unfold require_revision, is_ready_phase, ok_or, ensure;
      repeat match goal with
             | H : _ = revision _ |- _ => rewrite H
             | H : _ = runtime_generation _ |- _ => rewrite H
             | H : phase _ = _ |- _ => rewrite H
             | H : _ = true |- _ => rewrite H
             | H : _ = false |- _ => rewrite H
             | H : _ = Some _ |- _ => rewrite H
             | H : _ = None |- _ => rewrite H
             end;
      repeat first [ rewrite Z.eqb_refl | rewrite ltb_ge_false by assumption
                   | erewrite above_floor by eassumption
                   | rewrite bool_decide_true by assumption ];
      reflexivity ].

Ltac run_checks :=
  repeat first [ erewrite cmd_lift_run by check_passes | rewrite cmd_modify_step | rewrite cmd_get_step ].

(** The test by which each command recognises that it was already applied. *)
Definition replays (c : Command) (d : RuntimeDeployment) : bool :=
  match c with
  | CAcquireLease r =>
      is_some_and (lease_matches (lr_controller_id r) (lr_fencing_token r) (lr_now r)
                     (lr_expires_at r)) (controller_lease d)
  | CRecoverBlocked r =>
      exact_failure d (rb_expected_failure_id r) && is_ready_phase d
      && is_some_and (lease_matches (rb_controller_id r) (rb_fencing_token r) (rb_now r)
                        (rb_expires_at r)) (controller_lease d)
  | CAcceptPreflight _ a => bool_decide (preflight d = Some a) && has_reached d KPreflightReady
  | CRequestDrain _ => has_reached d KDrainRequested
  | CAcceptDrain _ a => bool_decide (drain d = Some a) && has_reached d KDrained
  | CBeginActivation _ => has_reached d KActivationApplying
  | CAcceptActivation _ a => bool_decide (activation d = Some a) && has_reached d KRuntimePending
  | CRecordRetryable _ f n t => pending_condition_is (CondRetryable f n t) d
  | CRecordBlocked _ f => pending_condition_is (CondBlocked f) d
  | CResumePending _ => is_ready_phase d
  | CBeginPanels _ => has_reached d KReconcilingPanels
  | CAcceptPanel _ c =>
      bool_decide (panel_certificate d = Some c) && has_reached d KAwaitingGatewayReady
  | CCertifyLive _ gw t =>
      is_some_and (λ l, bool_decide (lv_gateway_ready l = gw) && (lv_certified_at l =? t)) (live d)
  | CRecoverLive r =>
      is_some_and (recovery_matches r) (last_live_recovery d) && negb (bool_decide (phase d = PLive))
  | CSupersede _ b r t => bool_decide (phase d = PSuperseded b r t)
  | CCancel _ r t => bool_decide (phase d = PCancelled r t)
  | CSupersedeDrained p b r t => bool_decide (supersession_result p b r t = Ok d)
  | CCancelDrained _ _ => false
  end.

Lemma unless_replayed_true b k d : b d = true → unless_replayed b k d = (Ok (replayed d), d).
Proof. unfold unless_replayed. by intros ->. Qed.

Lemma unless_replayed_fresh (b : RuntimeDeployment → bool) k d x :
  k d = x → b d = false → unless_replayed b k d = x.
Proof. unfold unless_replayed. by intros <- ->. Qed.

Lemma effect_runs_plain c d m :
  effect c d m → replays c d = false →
  match c with
  | CSupersedeDrained _ _ _ _ | CCancelDrained _ _ => True
  | _ => run_command c d = bump_revision m
  end.
Proof.
  destruct 1; cbn [run_command replays]; intros Hfresh; try done;
    (apply unless_replayed_fresh; [|exact Hfresh]); run_checks; try done.
  assert (rb_expected_revision r = revision d) by apply H2.
  run_checks. cbv zeta. by run_checks.
Qed.

Lemma replays_runs c d : replays c d = true → run_command c d = (Ok (replayed d), d).
Proof.
  destruct c; cbn [run_command replays]; intros Hrep;
    try (by apply unless_replayed_true); try done.
  unfold supersede_product_drain_source. bool_facts. rewrite Hrep. by rewrite bool_decide_true.
Qed.
