(* ===== verification/ConvergenceInv.v ===== *)
(** * Runtime convergence: the snapshot invariant

    What [validate_snapshot] accepts, as a record of facts, and that every
    command of the machine keeps a deployment acceptable, so that whatever is
    persisted can be restored. *)

From Stdlib Require Import ZArith Lia String.
From stdpp Require Import base decidable list strings.
From S2P Require Import Prelude RustStd DiscordModel ConvergenceTypes Convergence.
From S2P Require Import ConvergenceStep.
Open Scope Z_scope.

(** ** What a valid snapshot is *)
Definition lease_ok (d : RuntimeDeployment) : Prop :=
  ∀ l, controller_lease d = Some l →
    last_fencing_token d = Some (lease_fencing_token l) ∧
    lease_acquired_at l < lease_expires_at l ∧ requested_at d ≤ lease_acquired_at l ∧
    is_terminal (phase d) = false.

Record snapshot_ok (d : RuntimeDeployment) : Prop := {
  so_previous : snapshot_previous_valid d = true;
  so_lease : lease_ok d;
  so_failure : ∀ x, last_runtime_failure d = Some x → snapshot_failure_valid d x = true;
  so_preflight : ∀ a, preflight d = Some a → validate_preflight d a = Ok tt;
  so_drain : ∀ a, drain d = Some a → validate_drain d a = Ok tt;
  so_activation : ∀ a, activation d = Some a → validate_activation d a = Ok tt;
  so_panel : ∀ c, panel_certificate d = Some c → validate_panel_certificate d c = Ok tt;
  so_gateway : ∀ a, gateway_ready d = Some a → validate_gateway_ready d a = Ok tt;
  so_live : ∀ l, live d = Some l → snapshot_live_valid d l = true;
  so_recovery : ∀ r, last_live_recovery d = Some r → snapshot_recovery_valid d r = true;
  so_phase : phase_evidence_valid d = true;
}.

Lemma when_some_Ok {A} (o : option A) check u :
  when_some o check = Ok u ↔ ∀ a, o = Some a → check a = Ok tt.
Proof.
  destruct u, o as [a|]; cbn; split; [intros H ? [= <-]; done|by intros H; apply H|done..].
Qed.

Lemma snapshot_check_Ok r u : snapshot_check r = Ok u ↔ r = Ok tt.
Proof. destruct r as [[]|], u; cbn; naive_solver. Qed.

Lemma bind_unit_Ok {E} (m k : Result E unit) u :
  (_ ← m; k) = Ok u ↔ m = Ok tt ∧ k = Ok tt.
Proof. destruct m as [[]|], u; cbn; naive_solver. Qed.

Ltac have_some := match goal with H : _ = Some _ |- _ => by rewrite H end.

Lemma validate_drain_preflight d a : validate_drain d a = Ok tt → is_some (preflight d) = true.
Proof. unfold validate_drain. intros. result_cases. have_some. Qed.

Lemma validate_activation_drain d a : validate_activation d a = Ok tt → is_some (drain d) = true.
Proof. unfold validate_activation. intros. result_cases. have_some. Qed.

Lemma validate_panel_activation d c :
  validate_panel_certificate d c = Ok tt → is_some (activation d) = true.
Proof. unfold validate_panel_certificate. intros. result_cases; have_some. Qed.

Lemma validate_gateway_panel d a :
  validate_gateway_ready d a = Ok tt → is_some (panel_certificate d) = true.
Proof. unfold validate_gateway_ready. intros. result_cases. have_some. Qed.

Lemma snapshot_lease_ok d :
  lease_ok d ↔
  snapshot_lease_valid d = true ∧
  negb (is_terminal (phase d) && is_some (controller_lease d)) = true ∧
  is_none_or (λ l, requested_at d <=? lease_acquired_at l) (controller_lease d) = true.
Proof.
  unfold lease_ok, snapshot_lease_valid. rewrite is_none_or_true.
  destruct (controller_lease d) as [l|]; cbn; rewrite ?andb_false_r, ?andb_true_r;
    [|split; [done|naive_solver]].
  rewrite negb_true_iff. split.
  - intros H. destruct (H l eq_refl) as (-> & ? & ? & ->). split_and!; [|done|].
    + by rewrite Z.eqb_refl, (proj2 (Z.ltb_lt _ _)).
    + intros ? [= <-]. by apply Z.leb_le.
  - intros (Ht & Hp & Ha) ? [= <-]. specialize (Ha l eq_refl).
    destruct (last_fencing_token d); [|done]. bool_facts. by subst.
Qed.

(** [validate_snapshot] decides [snapshot_ok]. *)
Lemma validate_snapshot_Ok d : validate_snapshot d = Ok tt ↔ snapshot_ok d.
Proof.
  unfold validate_snapshot, validate_phase_evidence.
  rewrite !bind_unit_Ok, !ensure_Ok, !when_some_Ok, !is_none_or_true.
  split.
  - intros (Hp & Hl & Ht & Ha & Hf & Hpf & Hdr & Hac & Hpn & Hgw & Hlv & Hrc & Hev).
    constructor; try done.
    + apply snapshot_lease_ok. by rewrite is_none_or_true.
    + intros a Ea. by apply (snapshot_check_Ok _ tt), Hpf.
    + intros a Ea. specialize (Hdr a Ea). rewrite bind_unit_Ok in Hdr.
      by apply (snapshot_check_Ok _ tt), Hdr.
    + intros a Ea. specialize (Hac a Ea). rewrite bind_unit_Ok in Hac.
      by apply (snapshot_check_Ok _ tt), Hac.
    + intros a Ea. specialize (Hpn a Ea). rewrite bind_unit_Ok in Hpn.
      by apply (snapshot_check_Ok _ tt), Hpn.
    + intros a Ea. specialize (Hgw a Ea). rewrite bind_unit_Ok in Hgw.
      by apply (snapshot_check_Ok _ tt), Hgw.
    + by destruct (phase_evidence_valid d).
  - intros [Hp Hl Hf Hpf Hdr Hac Hpn Hgw Hlv Hrc Hev].
    apply snapshot_lease_ok in Hl as (Hl & Ht & Ha). rewrite is_none_or_true in Ha.
    split_and!; try done; try (by rewrite Hev);
      intros a Ea; rewrite ?bind_unit_Ok, ?ensure_Ok, snapshot_check_Ok;
      eauto using validate_drain_preflight, validate_activation_drain,
        validate_panel_activation, validate_gateway_panel.
Qed.

(** ** The invariant of the machine

    Beside a valid snapshot: the evidence of a live deployment is in order, a
    blocked deployment has no lease, and the revision is a non-zero [u64]. *)
Record deployment_ok (d : RuntimeDeployment) : Prop := {
  ok_snapshot : snapshot_ok d;
  ok_live_order : ∀ l, live d = Some l →
    pn_reconciled_at (lv_panel_certificate l) ≤ gw_ready_at (lv_gateway_ready l);
  ok_blocked : ∀ f, phase d = PRuntimePending (CondBlocked f) → controller_lease d = None;
  ok_revision : 1 ≤ revision d ≤ u64_max;
}.

(** ** Validity as facts *)
Definition failure_facts (d : RuntimeDeployment) (x : RuntimeFailureDispositionV1) : Prop :=
  let '(f, retry) := disposition_failure x in
  validate_failure f = Ok tt ∧ requested_at d ≤ failure_recorded_at f ∧
  (∃ a, activation d = Some a ∧ at_activated_at a ≤ failure_recorded_at f) ∧
  (failure_is_current d x = true →
   ∃ floor, runtime_evidence_floor d = Some floor ∧ floor ≤ failure_recorded_at f) ∧
  (∀ t, retry = Some t → failure_recorded_at f ≤ t).

Lemma floor_activation d floor :
  runtime_evidence_floor d = Some floor → ∃ a, activation d = Some a ∧ at_activated_at a ≤ floor.
Proof.
  unfold runtime_evidence_floor. destruct (activation d) as [a|]; [|done].
  intros [= <-]. exists a. split; [done|]. destruct (last_live_recovery d); lia.
Qed.

Lemma snapshot_failure_valid_iff d x : snapshot_failure_valid d x = true ↔ failure_facts d x.
Proof.
  unfold snapshot_failure_valid, failure_facts.
  destruct (disposition_failure x) as [f retry].
  rewrite negb_true_iff, !orb_false_iff, negb_false_iff, is_ok_true, Z.ltb_ge.
  assert (Hretry : is_some_and (λ t, t <? failure_recorded_at f) retry = false
                   ↔ ∀ t, retry = Some t → failure_recorded_at f ≤ t).
  { destruct retry as [t|]; cbn; [rewrite Z.ltb_ge|]; naive_solver. }
  rewrite Hretry. clear Hretry. split.
  - intros [[[[[] Hf] Hr] Hfloor] Ht]. split_and!; try done.
    + destruct (failure_is_current d x).
      * apply below_floor_false in Hfloor as (floor & Hfl & ?).
        apply floor_activation in Hfl as (a & ? & ?). exists a. split; [done|lia].
      * destruct (activation d) as [a|]; [|done]. cbn in Hfloor. bool_facts. eauto.
    + intros Hc. rewrite Hc in Hfloor. by apply below_floor_false.
  - intros (Hf & Hr & (a & Ha & Hle) & Hc & Ht). split_and!; try done; [by exists tt|].
    destruct (failure_is_current d x).
    + destruct (Hc eq_refl) as (floor & -> & ?). cbn. by apply Z.ltb_ge.
    + rewrite Ha. cbn. by apply Z.ltb_ge.
Qed.

(** The evidence of a previous live run, and the interval of its recovery. *)
Record prior_ok (t : RuntimeDeploymentTargetV1) (g : RuntimeGeneration)
    (a : option ActivationAttestationV1) (r : LiveRecoveryAttestationV1) : Prop := {
  po_target : lv_target (rc_prior_live r) = t;
  po_generation : lv_generation (rc_prior_live r) = g;
  po_activation : a = Some (lv_activation (rc_prior_live r));
  po_panel_target : pn_target (lv_panel_certificate (rc_prior_live r)) = t;
  po_panel_generation : pn_generation (lv_panel_certificate (rc_prior_live r)) = g;
  po_gateway_target : gw_target (lv_gateway_ready (rc_prior_live r)) = t;
  po_gateway_generation : gw_generation (lv_gateway_ready (rc_prior_live r)) = g;
  po_panel_process : lv_process_instance_id (rc_prior_live r)
    = pn_process_instance_id (lv_panel_certificate (rc_prior_live r));
  po_gateway_process : lv_process_instance_id (rc_prior_live r)
    = gw_process_instance_id (lv_gateway_ready (rc_prior_live r));
  po_reconciled : at_activated_at (lv_activation (rc_prior_live r))
    ≤ pn_reconciled_at (lv_panel_certificate (rc_prior_live r));
  po_ready : pn_reconciled_at (lv_panel_certificate (rc_prior_live r))
    ≤ gw_ready_at (lv_gateway_ready (rc_prior_live r));
  po_certified : gw_ready_at (lv_gateway_ready (rc_prior_live r))
    ≤ lv_certified_at (rc_prior_live r);
  po_eligible : validate_panel_eligibility (lv_panel_certificate (rc_prior_live r)) = Ok tt;
  po_evidence : lv_certified_at (rc_prior_live r) ≤ rc_evidence_at r;
  po_recovered : rc_evidence_at r ≤ rc_recovered_at r;
}.

Lemma snapshot_recovery_valid_iff d r :
  snapshot_recovery_valid d r = true ↔
  recovery_phase_valid d = true ∧
  prior_ok (target d) (runtime_generation d) (activation d) r ∧
  (∀ l, live d = Some l → rc_recovered_at r ≤ lv_certified_at l).
Proof.
  unfold snapshot_recovery_valid. cbv zeta.
  assert (Hlive : is_some_and (λ l, lv_certified_at l <? rc_recovered_at r) (live d) = false
                  ↔ ∀ l, live d = Some l → rc_recovered_at r ≤ lv_certified_at l).
  { destruct (live d); cbn; [rewrite Z.ltb_ge|]; naive_solver. }
  rewrite negb_true_iff, !orb_false_iff, Hlive, !negb_false_iff, !bool_decide_eq_true,
    !Z.eqb_eq, !Z.ltb_ge, is_ok_true. clear Hlive.
  split.
  - intros H. destruct_and! H.
    match goal with H : ∃ _, _ = Ok _ |- _ => destruct H as [[] ?] end.
    split_and!; [done|by constructor|done].
  - intros (? & [] & ?). split_and!; try done. by exists tt.
Qed.

Record live_facts (d : RuntimeDeployment) (l : LiveAttestationV1) : Prop := {
  lf_target : lv_target l = target d;
  lf_generation : lv_generation l = runtime_generation d;
  lf_activation : activation d = Some (lv_activation l);
  lf_panel : panel_certificate d = Some (lv_panel_certificate l);
  lf_gateway : gateway_ready d = Some (lv_gateway_ready l);
  lf_process : lv_process_instance_id l = gw_process_instance_id (lv_gateway_ready l);
  lf_certified : gw_ready_at (lv_gateway_ready l) ≤ lv_certified_at l;
}.

Lemma snapshot_live_valid_iff d l : snapshot_live_valid d l = true ↔ live_facts d l.
Proof.
  unfold snapshot_live_valid.
  rewrite negb_true_iff, !orb_false_iff, !negb_false_iff, !bool_decide_eq_true, Z.eqb_eq, Z.ltb_ge.
  split; [intros; by constructor; naive_solver|intros []; split_and!; try done].
  have_some.
Qed.

(** The facts each attestation is checked for. *)
Lemma validate_target_and_generation_Ok d t g u :
  validate_target_and_generation d t g = Ok u → t = target d ∧ g = runtime_generation d.
Proof.
  unfold validate_target_and_generation, validate_generation. intros. result_cases.
  by bool_facts.
Qed.

Lemma validate_preflight_facts d a :
  validate_preflight d a = Ok tt → requested_at d ≤ pf_checked_at a.
Proof. unfold validate_preflight. intros. result_cases. by bool_facts. Qed.

Lemma validate_drain_facts d a :
  validate_drain d a = Ok tt → ∃ p, preflight d = Some p ∧ pf_checked_at p ≤ dr_drained_at a.
Proof. unfold validate_drain. intros. result_cases. bool_facts. eauto. Qed.

Lemma validate_activation_facts d a :
  validate_activation d a = Ok tt → ∃ p, drain d = Some p ∧ dr_drained_at p ≤ at_activated_at a.
Proof. unfold validate_activation. intros. result_cases. bool_facts. eauto. Qed.

Lemma validate_panel_facts d c :
  validate_panel_certificate d c = Ok tt →
  pn_target c = target d ∧ pn_generation c = runtime_generation d ∧
  (∃ a, activation d = Some a ∧ at_activated_at a ≤ pn_reconciled_at c) ∧
  (∀ r, last_live_recovery d = Some r →
     rc_recovered_at r ≤ pn_reconciled_at c ∧
     pn_process_instance_id c ≠ lv_process_instance_id (rc_prior_live r)) ∧
  validate_panel_eligibility c = Ok tt.
Proof.
  unfold validate_panel_certificate, validate_panel_recovery. intros H. result_cases. bool_facts.
  match goal with H : validate_target_and_generation _ _ _ = _ |- _ =>
    apply validate_target_and_generation_Ok in H as [??] end.
  split_and!; eauto. intros r Hr. rewrite Hr in *. result_cases. by bool_facts.
Qed.

Lemma validate_gateway_facts d a :
  validate_gateway_ready d a = Ok tt →
  gw_target a = target d ∧ gw_generation a = runtime_generation d ∧
  ∃ p, panel_certificate d = Some p ∧ gw_process_instance_id a = pn_process_instance_id p.
Proof.
  unfold validate_gateway_ready. intros H. result_cases. bool_facts.
  match goal with H : validate_target_and_generation _ _ _ = _ |- _ =>
    apply validate_target_and_generation_Ok in H as [??] end. eauto.
Qed.

(** ** Preservation, component by component *)

(** The evidence present, as one fact per attestation. *)
Lemma evidence_is_iff d n : evidence_is d n = true ↔ evidence d = evidence_upto n.
Proof. unfold evidence_is. by rewrite bool_decide_eq_true. Qed.

Ltac evidence_facts :=
  repeat match goal with
         | H : evidence_is _ _ = true |- _ =>
             apply evidence_is_iff in H; unfold evidence in H; cbn in H;
             injection H as ? ? ? ? ? ?
         | H : is_some _ = false |- _ => apply is_some_false in H
         | H : is_some _ = true |- _ => apply is_some_true in H as [? H]
         end.

(** Reduce the goal and the facts about a phase that is known. *)
Ltac phase_facts Hok :=
  pose proof (so_phase _ Hok) as Hev; unfold phase_evidence_valid in Hev;
  match goal with
  | H : phase _ = _ |- _ => rewrite H in Hev
  | _ => idtac
  end; bool_facts; evidence_facts.

Lemma require_runtime_failure_phase_inv d op :
  require_runtime_failure_phase d op = Ok tt →
  phase d = PRuntimePending CondReady ∨ phase d = PReconcilingPanels
  ∨ phase d = PAwaitingGatewayReady.
Proof.
  unfold require_runtime_failure_phase. destruct (phase d) as [| | | | |[]| | | | |]; naive_solver.
Qed.

Lemma effect_lease c d m : deployment_ok d → effect c d m → lease_ok m.
Proof.
  intros Hok Heff. pose proof (so_lease _ (ok_snapshot _ Hok)) as Hl.
  unfold lease_ok in *. destruct Heff; cbn; try done;
    try (match goal with
         | H : grantable _ _ |- _ => destruct H as (? & Ht & ? & ? & ? & ?); cbn in *
         end; intros ? [= <-]; by split_and!);
    try (intros l El; destruct (Hl l El) as (? & ? & ? & _); by split_and!).
Qed.

(** What never changes. *)
Definition same_static (d m : RuntimeDeployment) : Prop :=
  identity m = identity d ∧ target m = target d ∧ runtime_generation m = runtime_generation d ∧
  previous_runtime m = previous_runtime d ∧ requested_at m = requested_at d.

Lemma effect_static c d m : effect c d m → same_static d m ∧ revision m = revision d.
Proof.
  unfold same_static. destruct 1; try done.
  unfold supersession_of. destruct (phase d), (live d); done.
Qed.

Lemma activation_after_request d a :
  snapshot_ok d → activation d = Some a → requested_at d ≤ at_activated_at a.
Proof.
  intros Hok Ha. destruct (validate_activation_facts _ _ (so_activation _ Hok _ Ha)) as (dr & Hdr & ?).
  destruct (validate_drain_facts _ _ (so_drain _ Hok _ Hdr)) as (pf & Hpf & ?).
  pose proof (validate_preflight_facts _ _ (so_preflight _ Hok _ Hpf)). lia.
Qed.

(** No failure is recorded before the activation, no recovery before a live run. *)
Lemma no_failure_yet d : snapshot_ok d → activation d = None → last_runtime_failure d = None.
Proof.
  intros Hok Ha. destruct (last_runtime_failure d) as [x|] eqn:Hx; [|done].
  pose proof (so_failure _ Hok _ Hx) as Hf. apply snapshot_failure_valid_iff in Hf.
  unfold failure_facts in Hf. destruct (disposition_failure x). naive_solver.
Qed.

Lemma no_recovery_yet d :
  snapshot_ok d → recovery_phase_valid d = false → last_live_recovery d = None.
Proof.
  intros Hok Hp. destruct (last_live_recovery d) as [r|] eqn:Hr; [|done].
  pose proof (so_recovery _ Hok _ Hr) as Hv. apply snapshot_recovery_valid_iff in Hv as [? _].
  congruence.
Qed.

(** A failure kept from before stays valid unless it becomes the current one. *)
Lemma failure_facts_keep d m x :
  failure_facts d x → activation m = activation d → requested_at m = requested_at d →
  (failure_is_current m x = true →
   failure_is_current d x = true ∧ runtime_evidence_floor m = runtime_evidence_floor d) →
  failure_facts m x.
Proof.
  unfold failure_facts. destruct (disposition_failure x) as [f t].
  intros (? & ? & ? & Hc & ?) -> -> Hcur. split_and!; try done.
  intros Hm. destruct (Hcur Hm) as [Hd ->]. by apply Hc.
Qed.

Lemma recorded_failure_facts d m x f t floor :
  snapshot_ok d → disposition_failure x = (f, t) →
  validate_failure f = Ok tt → runtime_evidence_floor d = Some floor →
  floor ≤ failure_recorded_at f → (∀ s, t = Some s → failure_recorded_at f ≤ s) →
  activation m = activation d → requested_at m = requested_at d →
  last_live_recovery m = last_live_recovery d → failure_facts m x.
Proof.
  intros Hok Hx Hf Hfl Hle Ht Ha Hr Hrc. unfold failure_facts. rewrite Hx, Hr, Ha.
  destruct (floor_activation _ _ Hfl) as (a & Ea & ?).
  pose proof (activation_after_request _ _ Hok Ea).
  assert (runtime_evidence_floor m = runtime_evidence_floor d) as ->
    by (unfold runtime_evidence_floor; by rewrite Ha, Hrc).
  split_and!; try done; [lia| |]; eauto with lia.
Qed.

Lemma effect_failure c d m x :
  deployment_ok d → effect c d m → validate_snapshot m = Ok tt ∨
  (last_runtime_failure m = Some x → failure_facts m x).
Proof.
  intros Hok Heff. pose proof (ok_snapshot _ Hok) as Hs.
  assert (Hd : last_runtime_failure d = Some x → failure_facts d x).
  { intros Hx. by apply snapshot_failure_valid_iff, (so_failure _ Hs). }
  destruct Heff; try (by left); right; cbn.
  all: try (intros Hx; apply (failure_facts_keep d); [by apply Hd|done|done|]; cbn; done).
  - intros Hx. phase_facts Hs. by rewrite (no_failure_yet _ Hs) in Hx.
  - intros [= <-]. eapply (recorded_failure_facts d); try done. naive_solver.
  - intros [= <-]. by eapply (recorded_failure_facts d).
Qed.

(** Evidence that is not there cannot be invalidated. *)
Ltac absent Hs := intros ? E; phase_facts Hs; congruence.

Lemma effect_evidence c d m :
  deployment_ok d → effect c d m → validate_snapshot m = Ok tt ∨
  (∀ a, preflight m = Some a → validate_preflight m a = Ok tt) ∧
  (∀ a, drain m = Some a → validate_drain m a = Ok tt) ∧
  (∀ a, activation m = Some a → validate_activation m a = Ok tt) ∧
  (∀ a, panel_certificate m = Some a → validate_panel_certificate m a = Ok tt) ∧
  (∀ a, gateway_ready m = Some a → validate_gateway_ready m a = Ok tt).
Proof.
  intros Hok Heff. pose proof (ok_snapshot _ Hok) as Hs.
  pose proof Hs as [_ _ _ Hpf Hdr Hac Hpn Hgw _ _ _].
  destruct Heff; try (by left); right; split_and!; cbn; try done; try (by absent Hs).
  all: intros ? [= <-]; done.
Qed.

Lemma effect_live c d m l :
  deployment_ok d → effect c d m → validate_snapshot m = Ok tt ∨
  (live m = Some l → live_facts m l).
Proof.
  intros Hok Heff. pose proof (ok_snapshot _ Hok) as Hs.
  assert (Hd : live d = Some l → live_facts d l).
  { intros Hx. by apply snapshot_live_valid_iff, (so_live _ Hs). }
  destruct Heff; try (by left); right; cbn; try done.
  all: try (intros E; destruct (Hd E); by constructor).
  all: try (intros E; phase_facts Hs; congruence).
  intros [= <-]. constructor; cbn; done.
Qed.

Lemma effect_recovery c d m r :
  deployment_ok d → effect c d m → validate_snapshot m = Ok tt ∨
  (last_live_recovery m = Some r →
   recovery_phase_valid m = true ∧
   prior_ok (target m) (runtime_generation m) (activation m) r ∧
   (∀ l, live m = Some l → rc_recovered_at r ≤ lv_certified_at l)).
Proof.
  intros Hok Heff. pose proof (ok_snapshot _ Hok) as Hs.
  assert (Hd : last_live_recovery d = Some r → _) by
    (intros Hx; exact (proj1 (snapshot_recovery_valid_iff d r) (so_recovery _ Hs _ Hx))).
  pose proof (no_recovery_yet _ Hs) as Hno. unfold recovery_phase_valid in Hno.
  destruct Heff; try (by left); right; cbn.
  all: try (intros E; destruct (Hd E) as (? & ? & ?); by split_and!).
  all: try (match goal with H : phase _ = _ |- _ => rewrite H in Hno end;
            intros E; by rewrite Hno in E).
  - (* certify_live *)
    intros E. destruct (Hd E) as (? & ? & _). split_and!; try done. intros ? [= <-]. cbn.
    destruct (validate_panel_facts _ _ (so_panel _ Hs _ ltac:(eassumption)))
      as (_ & _ & _ & Hrec & _).
    destruct (Hrec _ E). lia.
  - (* recover_live *)
    intros [= <-]. split_and!; try done.
    match goal with H : live _ = Some _ |- _ =>
      pose proof (ok_live_order _ Hok _ H);
      destruct (proj1 (snapshot_live_valid_iff _ _) (so_live _ Hs _ H)) end.
    destruct (validate_panel_facts _ _ (so_panel _ Hs _ ltac:(eassumption)))
      as (? & ? & (a & ? & ?) & _ & ?).
    destruct (validate_gateway_facts _ _ (so_gateway _ Hs _ ltac:(eassumption)))
      as (? & ? & p & ? & ?).
    constructor; cbn; simplify_eq; congruence || done.
  - (* cancel *)
    intros E. unfold is_cancellable in *. destruct (phase _); try done; by rewrite Hno in E.
Qed.

Lemma validate_supersession_facts d b r t :
  validate_supersession d b r t = Ok tt →
  is_ok (validate_reason r) && (runtime_generation d <? sp_generation b)
  && negb (bool_decide (deployment_id (sp_identity b) = deployment_id (identity d)))
  && same_product_scope (sp_identity b) (identity d)
  && same_slot (sp_target b) (target d) && (requested_at d <=? t) = true.
Proof.
  unfold validate_supersession. intros H. result_cases. bool_facts.
  rewrite !andb_true_iff, negb_true_iff, Z.ltb_lt, Z.leb_le.
  split_and!; try done; try lia.
  match goal with H : validate_reason _ = _ |- _ => by rewrite H end.
Qed.

(** Before it is live, a deployment has some prefix of the first four attestations. *)
Lemma evidence_prefix d :
  snapshot_ok d → is_terminal (phase d) = false → evidence_is_prefix d = true.
Proof.
  intros Hs Ht. pose proof (so_phase _ Hs) as Hev. unfold phase_evidence_valid in Hev.
  unfold evidence_is_prefix. cbn [existsb].
  destruct (phase d); try done; bool_facts; rewrite ?Hev, ?orb_true_r; try done.
  by match goal with H : evidence_is _ _ = true |- _ => rewrite H, ?orb_true_r end.
Qed.

Ltac solve_evidence :=
  apply evidence_is_iff; unfold evidence; cbn;
  repeat match goal with H : _ = Some _ |- _ => rewrite H | H : _ = None |- _ => rewrite H end;
  reflexivity.

Lemma effect_phase c d m :
  deployment_ok d → effect c d m → validate_snapshot m = Ok tt ∨ phase_evidence_valid m = true.
Proof.
  intros Hok Heff. pose proof (ok_snapshot _ Hok) as Hs.
  pose proof (so_phase _ Hs) as Hph.
  destruct Heff; try (by left); right; unfold phase_evidence_valid; cbn; try done.
  all: repeat match goal with
       | H : is_blocked_by _ _ = true |- _ =>
           unfold is_blocked_by in H; destruct (phase d) as [| | | | |[]| | | | |] eqn:?; try done
       | H : ∃ op, require_runtime_failure_phase _ op = Ok tt |- _ =>
           destruct H as [? H]; apply require_runtime_failure_phase_inv in H as [H|[H|H]]
       end.
  all: try (phase_facts Hs; rewrite ?andb_true_iff; split_and?; try done; solve_evidence).
  1-6: match goal with H : validate_failure _ = Ok tt |- _ => rewrite H end;
       rewrite !andb_true_iff, bool_decide_eq_true, ?Z.leb_le; split_and!; try done;
       phase_facts Hs; solve_evidence.
  - apply andb_true_iff; split; [by apply validate_supersession_facts|].
    by apply (evidence_prefix d Hs).
  - match goal with H : validate_reason _ = Ok tt |- _ => rewrite H end.
    rewrite !andb_true_iff, Z.leb_le. split_and!; try done.
    apply (evidence_prefix d Hs). unfold is_cancellable in *. by destruct (phase d).
Qed.

Lemma effect_snapshot_ok c d m : deployment_ok d → effect c d m → snapshot_ok m.
Proof.
  intros Hok Heff. destruct (effect_static _ _ _ Heff) as [(_ & Ht & Hg & Hp & _) _].
  destruct (decide (validate_snapshot m = Ok tt)) as [Hv|Hv]; [by apply validate_snapshot_Ok|].
  destruct (effect_evidence _ _ _ Hok Heff) as [?|(? & ? & ? & ? & ?)]; [done|].
  destruct (effect_phase _ _ _ Hok Heff) as [?|?]; [done|].
  constructor; try done.
  - unfold snapshot_previous_valid. rewrite Ht, Hg, Hp.
    apply (so_previous _ (ok_snapshot _ Hok)).
  - by eapply effect_lease.
  - intros x. destruct (effect_failure _ _ _ x Hok Heff); [done|].
    intros. by apply snapshot_failure_valid_iff; auto.
  - intros x. destruct (effect_live _ _ _ x Hok Heff); [done|].
    intros. by apply snapshot_live_valid_iff; auto.
  - intros x. destruct (effect_recovery _ _ _ x Hok Heff); [done|].
    intros. by apply snapshot_recovery_valid_iff; auto.
Qed.

Lemma effect_live_order c d m l :
  deployment_ok d → effect c d m → live m = Some l →
  pn_reconciled_at (lv_panel_certificate l) ≤ gw_ready_at (lv_gateway_ready l).
Proof.
  intros Hok Heff. pose proof (ok_live_order _ Hok l) as Hl.
  destruct Heff; cbn; try done; [by intros [= <-]|].
  unfold supersession_of. destruct (phase d), (live d) eqn:?; cbn; try done; by rewrite Heqo.
Qed.

Lemma effect_blocked c d m f :
  deployment_ok d → effect c d m → phase m = PRuntimePending (CondBlocked f) →
  controller_lease m = None.
Proof.
  intros Hok Heff. pose proof (ok_blocked _ Hok f) as Hb.
  destruct Heff; cbn; try done. intros Hp.
  unfold lease_phase_check in *. by rewrite Hp in *.
Qed.

Lemma effect_ok c d m : deployment_ok d → effect c d m → deployment_ok m.
Proof.
  intros Hok Heff. constructor.
  - by eapply effect_snapshot_ok.
  - intros l. by eapply effect_live_order.
  - intros f. by eapply effect_blocked.
  - destruct (effect_static _ _ _ Heff) as [_ ->]. apply Hok.
Qed.

Lemma with_revision_ok n d : deployment_ok d → 1 ≤ n ≤ u64_max → deployment_ok (with_revision n d).
Proof.
  intros [Hs Hl Hb Hr] Hn. constructor; try done.
  apply validate_snapshot_Ok. rewrite validate_snapshot_revision. by apply validate_snapshot_Ok.
Qed.

(** Every command keeps the invariant, whatever it answers. *)
Lemma run_command_ok c d o d' :
  deployment_ok d → run_command c d = (o, d') → deployment_ok d'.
Proof.
  intros Hok Hrun. destruct (run_command_inv _ _ _ _ Hrun) as [[-> _]|(m & Heff & Hb)]; [done|].
  pose proof (effect_ok _ _ _ Hok Heff) as Hm. pose proof (ok_revision _ Hm).
  destruct (bump_revision_inv _ _ _ Hb ltac:(done)) as [(_ & -> & ?)|(_ & -> & _)]; [|done].
  apply with_revision_ok; [done|lia].
Qed.

Lemma request_ok i t g p q d : request i t g p q = Ok d → deployment_ok d.
Proof.
  unfold request. intros H. apply bind_Ok_inv in H as ([] & Hp & [= <-]).
  constructor; try done. constructor; try done.
  unfold snapshot_previous_valid. cbn. destruct p as [p|]; [|done]. cbn in *. result_cases.
  bool_facts. by apply andb_true_iff; rewrite Z.ltb_lt.
Qed.

(** ** The machine and the rules agree *)
Lemma live_phase_evidence d : snapshot_ok d → phase d = PLive → ∃ l, live d = Some l.
Proof. intros Hs Hp. phase_facts Hs. eauto. Qed.

Lemma revision_next_small n : 1 ≤ n < u64_max → revision_next n = Ok (n + 1).
Proof.
  intros Hn. unfold revision_next, u64_checked_add.
  rewrite (proj2 (Z.leb_le _ _)) by lia. cbn. by rewrite (proj2 (Z.eqb_neq _ _)) by lia.
Qed.

Lemma retire_live_runs ack t n d :
  snapshot_ok d → ∃ s, retire_live ack t (snapshot_with_revision n (snapshot d)) = Ok s.
Proof.
  intros Hs. unfold retire_live. cbn. destruct (phase d) eqn:Hp; eauto.
  destruct (live_phase_evidence _ Hs Hp) as [l ->]. cbn. eauto.
Qed.

Lemma supersession_result_runs p b r t d :
  deployment_ok d → revision d < u64_max → ssp_source p = snapshot d →
  ssp_acknowledged_at p ≤ t → validate_supersession d b r t = Ok tt →
  validate_snapshot (supersession_of d b r (ssp_acknowledged_at p) t) = Ok tt →
  supersession_result p b r t
  = Ok (with_revision (revision d + 1) (supersession_of d b r (ssp_acknowledged_at p) t)).
Proof.
  intros Hok Hr Hs Ht Hsup Hv. pose proof (ok_revision _ Hok). unfold supersession_result, next_snapshot_revision.
  rewrite Hs, restore_snapshot, (proj2 (validate_snapshot_Ok d) (ok_snapshot _ Hok)).
  cbn [mbind Result_bind]. rewrite Hsup. cbn [mbind Result_bind]. rewrite ltb_ge_false by done.
  change (s_revision (snapshot d)) with (revision d).
  rewrite revision_next_small by lia. cbn [mbind Result_bind map_err].
  destruct (retire_live_runs (ssp_acknowledged_at p) t (revision d + 1) d (ok_snapshot _ Hok))
    as [s Hret].
  rewrite Hret. cbn [mbind Result_bind].
  by rewrite (retire_live_snapshot _ _ _ b r _ _ Hret), restore_snapshot,
    validate_snapshot_revision, Hv.
Qed.

Lemma cancellation_result_runs p t d :
  deployment_ok d → revision d < u64_max → scp_source p = snapshot d →
  scp_acknowledged_at p ≤ t →
  cancellation_result p t = Ok (with_revision (revision d + 1) d).
Proof.
  intros Hok Hr Hs Ht. pose proof (ok_revision _ Hok).
  pose proof (proj2 (validate_snapshot_Ok d) (ok_snapshot _ Hok)) as Hv.
  unfold cancellation_result, next_snapshot_revision. rewrite Hs, restore_snapshot, Hv.
  cbn [mbind Result_bind]. rewrite ltb_ge_false by done.
  change (s_revision (snapshot d)) with (revision d).
  rewrite revision_next_small by lia. cbn [mbind Result_bind map_err].
  change (snapshot_with_revision (revision d + 1) (snapshot d))
    with (snapshot (with_revision (revision d + 1) d)).
  by rewrite restore_snapshot, validate_snapshot_revision, Hv.
Qed.

(** Where a rule applies the machine takes it, unless it recognises a replay. *)
Lemma effect_runs c d m :
  deployment_ok d → revision d < u64_max → effect c d m → replays c d = false →
  run_command c d = (Ok (Applied (revision d + 1)), with_revision (revision d + 1) m).
Proof.
  intros Hok Hr Heff Hfresh. pose proof (ok_revision _ Hok).
  assert (Hb : bump_revision m
               = (Ok (Applied (revision d + 1)), with_revision (revision d + 1) m)).
  { destruct (effect_static _ _ _ Heff) as [_ Hm]. rewrite <-Hm.
    apply bump_revision_next, revision_next_small. lia. }
  pose proof (effect_runs_plain _ _ _ Heff Hfresh) as Hplain. rewrite <-Hb.
  destruct Heff; try done; cbn [run_command].
  - unfold supersede_product_drain_source. cbn in Hfresh. bool_facts.
    erewrite supersession_result_runs in * by done.
    rewrite bool_decide_false by congruence. rewrite bool_decide_true by done. by rewrite Hb.
  - unfold cancel_product_drain_source. rewrite bool_decide_true by done. cbn.
    erewrite cancellation_result_runs by done. by rewrite Hb.
Qed.

#[export] Hint Resolve request_ok effect_ok run_command_ok with_revision_ok ok_snapshot ok_revision : starring.
