(* ===== verification/ConvergenceSafety.v ===== *)
(** * Runtime convergence: what the machine guarantees

    Sequences of commands from a requested deployment: what is persisted can be
    restored, outcomes tell what happened, only the holder of the current lease
    changes a deployment, fencing tokens order controllers, a live deployment has
    a complete and ordered chain of evidence, closed deployments stay closed, and
    applied commands can be replayed. *)

From Stdlib Require Import ZArith Lia String Ascii.
From stdpp Require Import base decidable list strings.
From S2P Require Import Prelude RustStd DiscordModel ConvergenceTypes Convergence ConvergenceStep.
From S2P Require Import ConvergenceInv.
Open Scope Z_scope.

(** ** Runs *)
Abbreviation Outcome := (Result RuntimeDeploymentError TransitionOutcomeV1) (only parsing).

Fixpoint run_commands (cs : list Command) (d : RuntimeDeployment) :
    list Outcome * RuntimeDeployment :=
  match cs with
  | [] => ([], d)
  | c :: cs =>
      let '(o, d') := run_command c d in
      let '(os, d'') := run_commands cs d' in
      (o :: os, d'')
  end.

(** Permits are only issued for the source they were checked against. *)
Definition command_wf (c : Command) : Prop :=
  match c with
  | CSupersedeDrained p _ _ _ => ∃ source n t, supersession_permit source n t = Ok p
  | CCancelDrained p _ => ∃ source n t, cancellation_permit source n t = Ok p
  | _ => True
  end.

(** The guard a command is issued under. *)
Definition command_guard (c : Command) : option CommandGuardV1 :=
  match c with
  | CAcceptPreflight g _ | CRequestDrain g | CAcceptDrain g _ | CBeginActivation g
  | CAcceptActivation g _ | CRecordRetryable g _ _ _ | CRecordBlocked g _ | CResumePending g
  | CBeginPanels g | CAcceptPanel g _ | CCertifyLive g _ _ | CSupersede g _ _ _
  | CCancel g _ _ => Some g
  | _ => None
  end.

Lemma run_commands_cons c cs d os d' :
  run_commands (c :: cs) d = (os, d') →
  ∃ o d1 os', run_command c d = (o, d1) ∧ run_commands cs d1 = (os', d') ∧ os = o :: os'.
Proof.
  cbn. destruct (run_command c d) as [o d1] eqn:?, (run_commands cs d1) as [os' d2] eqn:?.
  intros [= <- <-]. eauto 10.
Qed.

Lemma run_commands_invariant (P : RuntimeDeployment → Prop) cs d os d' :
  (∀ c d o d', c ∈ cs → P d → run_command c d = (o, d') → P d') →
  P d → run_commands cs d = (os, d') → P d'.
Proof.
  intros HP. revert d os HP. induction cs as [|c cs IH]; intros d os HP Hd H.
  - by injection H as <- <-.
  - apply run_commands_cons in H as (o & d1 & os' & Hc & Hcs & ->).
    eapply IH; [|eapply (HP c d); [left|done|done]|done]. intros. eapply HP; [by right|done|done].
Qed.

Lemma run_commands_ok cs d os d' :
  deployment_ok d → run_commands cs d = (os, d') → deployment_ok d'.
Proof.
  intros Hd. eapply run_commands_invariant; [|done]. eauto with starring.
Qed.

(** What the answer of a command says. *)
Definition outcome_honest (d : RuntimeDeployment) (o : Outcome) (d' : RuntimeDeployment) : Prop :=
  match o with
  | Ok (Applied r) => r = revision d' ∧ revision d' = revision d + 1
  | Ok (Replayed r) => r = revision d ∧ d' = d
  | Err e => d' = d ∨ (e = RevisionOverflow ∧ revision d = u64_max)
  end.

Lemma run_command_honest c d o d' :
  deployment_ok d → run_command c d = (o, d') → outcome_honest d o d'.
Proof.
  intros Hok Hrun.
  destruct (run_command_inv _ _ _ _ Hrun) as [[-> [[e ->]| ->]]|(m & Heff & Hb)];
    [by left|done|].
  destruct (effect_static _ _ _ Heff) as [_ Hr]. pose proof (ok_revision _ Hok) as Hrev.
  rewrite <-Hr in Hrev.
  destruct (bump_revision_inv _ _ _ Hb Hrev) as [(-> & -> & ?)|(-> & -> & ?)]; cbn; [lia|].
  right. split; [done|lia].
Qed.

(** ** Leases and fencing *)
Lemma applied_effect c d r d' :
  run_command c d = (Ok (Applied r), d') →
  ∃ m, effect c d m ∧ bump_revision m = (Ok (Applied r), d').
Proof.
  intros Hrun. destruct (run_command_inv _ _ _ _ Hrun) as [[_ [[e He]|He]]|?]; done.
Qed.

Lemma effect_guarded c d m g : effect c d m → command_guard c = Some g → guarded d g.
Proof. by destruct 1; intros [= <-]. Qed.

Lemma bump_revision_fields m o d' :
  bump_revision m = (o, d') →
  phase d' = phase m ∧ controller_lease d' = controller_lease m ∧
  last_fencing_token d' = last_fencing_token m ∧ live d' = live m.
Proof. unfold bump_revision. destruct (revision_next _); by intros [= <- <-]. Qed.

(** How the lease and the last token of a deployment evolve. *)
Definition lease_evolves (d d' : RuntimeDeployment) : Prop :=
  (∀ t, last_fencing_token d = Some t → ∃ t', last_fencing_token d' = Some t' ∧ t ≤ t') ∧
  (∀ l, controller_lease d' = Some l →
        controller_lease d = Some l ∨
        (∀ t, last_fencing_token d = Some t → t < lease_fencing_token l)).

Lemma lease_evolves_refl d : lease_evolves d d.
Proof. split; [|by left]. intros t. exists t. split; [done|lia]. Qed.

Lemma lease_evolves_trans d1 d2 d3 :
  lease_evolves d1 d2 → lease_evolves d2 d3 → lease_evolves d1 d3.
Proof.
  intros [T12 L12] [T23 L23]. split.
  - intros t Ht. destruct (T12 t Ht) as (t2 & Ht2 & ?). destruct (T23 t2 Ht2) as (t3 & ? & ?).
    exists t3. split; [done|lia].
  - intros l Hl. destruct (L23 l Hl) as [Hl2|Hlt]; [by apply L12|].
    right. intros t Ht. destruct (T12 t Ht) as (t2 & Ht2 & ?). specialize (Hlt t2 Ht2). lia.
Qed.

Lemma grantable_evolves d r p :
  grantable d r → lease_evolves d (with_phase p (install_lease r d)).
Proof.
  intros (_ & _ & _ & _ & _ & Ht). split; cbn.
  - intros t E. exists (lr_fencing_token r). split; [done|]. specialize (Ht t E). lia.
  - intros l [= <-]. by right.
Qed.

Lemma unleased_evolves d m :
  last_fencing_token m = last_fencing_token d →
  controller_lease m = controller_lease d ∨ controller_lease m = None → lease_evolves d m.
Proof.
  intros Ht Hl. split; [intros t; rewrite Ht; exists t; split; [done|lia]|].
  intros l El. destruct Hl as [<-|Hl]; [by left|congruence].
Qed.

Lemma effect_evolves c d m : effect c d m → lease_evolves d m.
Proof.
  destruct 1; try (by apply unleased_evolves; cbn; auto); try (by apply grantable_evolves).
  unfold supersession_of. apply unleased_evolves; [|by right].
  by destruct (phase d), (live d).
Qed.

Lemma run_command_evolves c d o d' : run_command c d = (o, d') → lease_evolves d d'.
Proof.
  intros Hrun. destruct (run_command_inv _ _ _ _ Hrun) as [[-> _]|(m & Heff & Hb)].
  - apply lease_evolves_refl.
  - destruct (bump_revision_fields _ _ _ Hb) as (_ & Hl & Ht & _).
    pose proof (effect_evolves _ _ _ Heff) as [T L]. split; by rewrite ?Hl, ?Ht.
Qed.

Lemma run_commands_evolves cs d os d' : run_commands cs d = (os, d') → lease_evolves d d'.
Proof.
  intros H. apply (run_commands_invariant (lease_evolves d) cs d os d'); [|apply lease_evolves_refl|done].
  intros c d1 o d2 _ H1 H2. eapply lease_evolves_trans; [done|by eapply run_command_evolves].
Qed.

(** ** Closed and blocked deployments *)
Definition is_closed (p : RuntimeDeploymentPhaseV1) : bool :=
  match p with PSuperseded _ _ _ | PCancelled _ _ => true | _ => false end.

Lemma acknowledgement_phase source n t op s :
  validated_product_drain_source_acknowledgement source n t op = Ok s →
  s_phase s = PAwaitingGatewayReady ∨ s_phase s = PLive.
Proof.
  unfold validated_product_drain_source_acknowledgement. intros H. result_cases. simplify_eq.
  destruct (s_phase (snapshot source)); try done; auto.
Qed.

(** The phases from which the commands that need no lease can move a deployment. *)
Lemma effect_wf_phase c d m :
  command_wf c → effect c d m →
  match c with
  | CRecoverLive _ => phase d = PLive
  | CSupersedeDrained _ _ _ _ | CCancelDrained _ _ =>
      phase d = PAwaitingGatewayReady ∨ phase d = PLive
  | _ => is_terminal (phase d) = false
  end.
Proof.
  intros Hwf. destruct 1; cbn in Hwf; try done;
    try (by match goal with H : phase _ = _ |- _ => rewrite H end);
    try (by match goal with H : grantable _ _ |- _ => destruct H as (_ & ? & _) end).
  - destruct H0 as [op Hop]. by destruct (require_runtime_failure_phase_inv _ _ Hop) as [->|[->| ->]].
  - destruct H0 as [op Hop]. by destruct (require_runtime_failure_phase_inv _ _ Hop) as [->|[->| ->]].
  - unfold is_cancellable in *. by destruct (phase d).
  - destruct Hwf as (source & n & t' & Hp). unfold supersession_permit in Hp.
    apply bind_Ok_inv in Hp as (s & Hs & [= <-]). cbn in *. subst.
    by apply acknowledgement_phase in Hs.
  - destruct Hwf as (source & n & t' & Hp). unfold cancellation_permit in Hp.
    apply bind_Ok_inv in Hp as (s & Hs & [= <-]). cbn in *. subst.
    by apply acknowledgement_phase in Hs.
Qed.

Lemma closed_inert c d o d' :
  command_wf c → is_closed (phase d) = true → run_command c d = (o, d') → inert d o d'.
Proof.
  intros Hwf Hcl Hrun. destruct (run_command_inv _ _ _ _ Hrun) as [?|(m & Heff & _)]; [done|].
  apply (effect_wf_phase _ _ _ Hwf) in Heff. exfalso.
  destruct c; destruct (phase d); cbn in *; naive_solver.
Qed.

(** A blocked deployment moves only by the recovery of its failure. *)
Lemma blocked_effect c d m f :
  deployment_ok d → command_wf c → phase d = PRuntimePending (CondBlocked f) → effect c d m →
  ∃ r, c = CRecoverBlocked r ∧ rb_expected_failure_id r = failure_id f ∧
       phase m = PRuntimePending CondReady ∧
       controller_lease m = Some (mkLease (rb_controller_id r) (rb_fencing_token r)
                                          (rb_now r) (rb_expires_at r)).
Proof.
  intros Hok Hwf Hp Heff. pose proof (ok_blocked _ Hok f Hp) as Hl.
  pose proof (effect_wf_phase _ _ _ Hwf Heff) as Hph.
  destruct (command_guard c) as [g|] eqn:Hg.
  { destruct (effect_guarded _ _ _ _ Heff Hg) as (_ & _ & l & ? & _). congruence. }
  destruct Heff; try done; try (destruct Hph; congruence); try congruence.
  - unfold lease_phase_check in *. by rewrite Hp in *.
  - unfold is_blocked_by in *. rewrite Hp in *. bool_facts. eauto.
Qed.

(** ** The chain of evidence of a live deployment *)
Lemma panel_eligible_facts c :
  validate_panel_eligibility c = Ok tt →
  pn_skipped_transient_count c = 0 ∧ pn_skipped_unresolved_channel_count c = 0 ∧
  pn_failed_count c = 0 ∧ pn_ambiguous_outcome_count c = 0 ∧
  pn_stale_message_cleanup_pending_count c = 0 ∧ pn_orphan_message_cleanup_pending_count c = 0 ∧
  pn_reposted_old_message_cleanup_pending_count c = 0 ∧
  pn_installed_count c + pn_unchanged_count c = pn_declared_count c ∧
  pn_declared_count c ≤ u32_max.
Proof.
  unfold validate_panel_eligibility, u32_checked_add. intros H. result_cases. simplify_eq.
  bool_facts. split_and!; done || lia.
Qed.

Lemma live_chain d l :
  deployment_ok d → live d = Some l →
  ∃ pf dr,
    preflight d = Some pf ∧ drain d = Some dr ∧ live_facts d l ∧
    requested_at d ≤ pf_checked_at pf ≤ dr_drained_at dr ∧
    dr_drained_at dr ≤ at_activated_at (lv_activation l) ∧
    at_activated_at (lv_activation l) ≤ pn_reconciled_at (lv_panel_certificate l) ∧
    pn_reconciled_at (lv_panel_certificate l) ≤ gw_ready_at (lv_gateway_ready l) ∧
    gw_ready_at (lv_gateway_ready l) ≤ lv_certified_at l ∧
    pn_process_instance_id (lv_panel_certificate l) = lv_process_instance_id l ∧
    validate_panel_eligibility (lv_panel_certificate l) = Ok tt.
Proof.
  intros Hok Hl. pose proof (ok_snapshot _ Hok) as Hs.
  pose proof (proj1 (snapshot_live_valid_iff _ _) (so_live _ Hs _ Hl)) as Hf.
  pose proof Hf as [_ _ Ha Hp Hg Hproc ?].
  destruct (validate_activation_facts _ _ (so_activation _ Hs _ Ha)) as (dr & Hdr & ?).
  destruct (validate_drain_facts _ _ (so_drain _ Hs _ Hdr)) as (pf & Hpf & ?).
  pose proof (validate_preflight_facts _ _ (so_preflight _ Hs _ Hpf)).
  destruct (validate_panel_facts _ _ (so_panel _ Hs _ Hp)) as (_ & _ & (a & ? & ?) & _ & ?).
  destruct (validate_gateway_facts _ _ (so_gateway _ Hs _ Hg)) as (_ & _ & p & ? & ?).
  pose proof (ok_live_order _ Hok _ Hl). simplify_eq.
  exists pf, dr. split_and!; try done; congruence.
Qed.

(** ** Replays *)
Lemma lease_matches_self c t n e : lease_matches c t n e (mkLease c t n e) = true.
Proof. unfold lease_matches. cbn. by rewrite bool_decide_true, !Z.eqb_refl. Qed.

Lemma effect_replayed c d m n :
  deployment_ok d → effect c d m →
  match c with
  | CSupersedeDrained _ _ _ _ | CCancelDrained _ _ => True
  | _ => run_command c (with_revision n m) = (Ok (Replayed n), with_revision n m)
  end.
Proof.
  intros Hok Heff. destruct Heff; cbn [run_command]; try done; apply unless_replayed_true; cbn;
    rewrite ?bool_decide_true by done; rewrite ?Z.eqb_refl; try done.
  - apply lease_matches_self.
  - rewrite !andb_true_iff. split_and!; [done|done|apply lease_matches_self].
  - unfold recovery_matches. cbn. rewrite !Z.eqb_refl.
    rewrite (bool_decide_true (rl_kind r = _)), (bool_decide_true (lv_process_instance_id _ = _)) by done.
    rewrite (lf_generation d prior), H1, Z.eqb_refl; [done|].
    by apply snapshot_live_valid_iff, (so_live _ (ok_snapshot _ Hok)).
Qed.

Lemma supersede_drained_replayed p b r t d n d' :
  supersede_product_drain_source p b r t d = (Ok (Applied n), d') →
  supersede_product_drain_source p b r t d' = (Ok (Replayed n), d').
Proof.
  unfold supersede_product_drain_source. destruct (supersession_result p b r t) as [res|]; [|done].
  case_bool_decide; [done|]. destruct (negb _); [done|]. intros [= <- <-].
  by rewrite bool_decide_true.
Qed.

(** ** The transitions between phases *)
Definition edge (from to : RuntimeDeploymentPhaseKindV1) : bool :=
  match from, to with
  | KRequested, (KRequested | KPreflightReady | KSuperseded | KCancelled)
  | KPreflightReady, (KPreflightReady | KDrainRequested | KSuperseded | KCancelled)
  | KDrainRequested, (KDrainRequested | KDrained | KSuperseded | KCancelled)
  | KDrained, (KDrained | KActivationApplying | KSuperseded)
  | KActivationApplying, (KActivationApplying | KRuntimePending | KSuperseded)
  | KRuntimePending, (KRuntimePending | KReconcilingPanels | KSuperseded)
  | KReconcilingPanels,
      (KReconcilingPanels | KRuntimePending | KAwaitingGatewayReady | KSuperseded)
  | KAwaitingGatewayReady, (KAwaitingGatewayReady | KRuntimePending | KLive | KSuperseded)
  | KLive, (KLive | KRuntimePending | KSuperseded) => true
  | _, _ => false
  end.

Lemma effect_edge c d m :
  command_wf c → effect c d m → edge (phase_kind (phase d)) (phase_kind (phase m)) = true.
Proof.
  intros Hwf Heff. pose proof (effect_wf_phase _ _ _ Hwf Heff) as Hph.
  destruct Heff; cbn in *; try (by match goal with H : phase _ = _ |- _ => rewrite H end);
    try (by destruct (phase d)).
  - unfold is_blocked_by in *. by destruct (phase d).
  - destruct H0 as [op Hop]. by destruct (require_runtime_failure_phase_inv _ _ Hop) as [->|[->| ->]].
  - destruct H0 as [op Hop]. by destruct (require_runtime_failure_phase_inv _ _ Hop) as [->|[->| ->]].
  - unfold is_cancellable in *. by destruct (phase d).
  - by destruct Hph as [-> | ->].
  - by destruct Hph as [-> | ->].
Qed.

(** ** The protocol, rule by rule

    What a command needs and what it changes, said of the fields of the deployment and
    of the evidence alone. [machine_refines_rules] compares the machine with it. *)
Inductive Field :=
| FPhase | FLease | FToken | FPreflight | FDrain | FActivation | FPanel | FGateway | FLive
| FRecovery | FFailure.

#[export] Instance Field_eq_dec : EqDecision Field.
Proof. solve_decision. Defined.

(** The revision is the next one, and no field changed but those listed. *)
Definition changes_only (fs : list Field) (d d' : RuntimeDeployment) : Prop :=
  let kept {T} (f : Field) (field : RuntimeDeployment → T) := f ∈ fs ∨ field d' = field d in
  revision d' = revision d + 1 ∧ identity d' = identity d ∧ target d' = target d ∧
  runtime_generation d' = runtime_generation d ∧ previous_runtime d' = previous_runtime d ∧
  requested_at d' = requested_at d ∧
  kept FPhase phase ∧ kept FLease controller_lease ∧ kept FToken last_fencing_token ∧
  kept FPreflight preflight ∧ kept FDrain drain ∧ kept FActivation activation ∧
  kept FPanel panel_certificate ∧ kept FGateway gateway_ready ∧ kept FLive live ∧
  kept FRecovery last_live_recovery ∧ kept FFailure last_runtime_failure.

(** Phases in which a deployment is still being worked on. *)
Definition under_way (p : RuntimeDeploymentPhaseV1) : Prop :=
  match p with PLive | PSuperseded _ _ _ | PCancelled _ _ => False | _ => True end.

Definition holds_lease (d : RuntimeDeployment) (g : CommandGuardV1) : Prop :=
  cg_expected_revision g = revision d ∧ cg_generation g = runtime_generation d ∧
  ∃ l, controller_lease d = Some l ∧ cg_now g < lease_expires_at l ∧
       lease_controller_id l = cg_controller_id g ∧ lease_fencing_token l = cg_fencing_token g.

(** The lease is free, or a longer one for the controller that has it, and its token new. *)
Definition may_lease (d : RuntimeDeployment) (r : LeaseRequestV1) : Prop :=
  lr_expected_revision r = revision d ∧ under_way (phase d) ∧
  requested_at d ≤ lr_now r < lr_expires_at r ∧
  (∀ l, controller_lease d = Some l → lr_now r < lease_expires_at l →
        lease_controller_id l = lr_controller_id r ∧ lease_acquired_at l ≤ lr_now r ∧
        lease_expires_at l < lr_expires_at r) ∧
  (∀ t, last_fencing_token d = Some t → t < lr_fencing_token r).

Definition leased (r : LeaseRequestV1) (d' : RuntimeDeployment) : Prop :=
  controller_lease d' = Some (mkLease (lr_controller_id r) (lr_fencing_token r)
                                (lr_now r) (lr_expires_at r)) ∧
  last_fencing_token d' = Some (lr_fencing_token r).

Definition preflight_fits (d : RuntimeDeployment) (a : PreflightAttestationV1) : Prop :=
  pf_target a = target d ∧ pf_generation a = runtime_generation d ∧
  pf_observed_runtime a = previous_runtime d ∧ requested_at d ≤ pf_checked_at a.

Definition drain_fits (d : RuntimeDeployment) (a : DrainAttestationV1) : Prop :=
  dr_target_generation a = runtime_generation d ∧ dr_previous_runtime a = previous_runtime d ∧
  ∃ p, preflight d = Some p ∧ pf_checked_at p ≤ dr_drained_at a.

Definition activation_fits (d : RuntimeDeployment) (a : ActivationAttestationV1) : Prop :=
  at_target a = target d ∧ at_generation a = runtime_generation d ∧
  at_request_id a = identity_activation_request_id (identity d) ∧
  ∃ p, drain d = Some p ∧ dr_drained_at p ≤ at_activated_at a.

(** Every declared panel is installed or unchanged, and nothing is left over. *)
Definition panels_complete (c : PanelCertificateV1) : Prop :=
  pn_skipped_transient_count c = 0 ∧ pn_skipped_unresolved_channel_count c = 0 ∧
  pn_failed_count c = 0 ∧ pn_ambiguous_outcome_count c = 0 ∧
  pn_stale_message_cleanup_pending_count c = 0 ∧ pn_orphan_message_cleanup_pending_count c = 0 ∧
  pn_reposted_old_message_cleanup_pending_count c = 0 ∧
  pn_installed_count c + pn_unchanged_count c = pn_declared_count c ∧
  pn_declared_count c ≤ u32_max.

(** Evidence of running is newer than the activation and than the last recovery. *)
Definition after_start (d : RuntimeDeployment) (t : Instant) : Prop :=
  (∃ a, activation d = Some a ∧ at_activated_at a ≤ t) ∧
  (∀ r, last_live_recovery d = Some r → rc_recovered_at r ≤ t).

Definition panels_fit (d : RuntimeDeployment) (c : PanelCertificateV1) : Prop :=
  pn_target c = target d ∧ pn_generation c = runtime_generation d ∧
  after_start d (pn_reconciled_at c) ∧
  (∀ r, last_live_recovery d = Some r →
     pn_process_instance_id c ≠ lv_process_instance_id (rc_prior_live r)) ∧
  panels_complete c.

Definition failure_fits (f : RuntimeFailureV1) : Prop :=
  failure_code f ≠ EmptyString ∧ str_len (failure_code f) ≤ 64 ∧
  str_all (λ c, is_ascii_lowercase c || is_ascii_digit c || Ascii.eqb c "_"%char) (failure_code f) = true ∧
  is_blank (failure_message f) = false ∧ str_len (failure_message f) ≤ 1024.

Definition reason_fits (r : string) : Prop := is_blank r = false ∧ str_len r ≤ 1024.

(** The successor is another, newer deployment of the same product to the same slot. *)
Definition successor_fits (d : RuntimeDeployment) (b : SupersedingDeploymentV1) (r : string)
    (t : Instant) : Prop :=
  reason_fits r ∧ runtime_generation d < sp_generation b ∧
  deployment_id (sp_identity b) ≠ deployment_id (identity d) ∧
  tenant_id (sp_identity b) = tenant_id (identity d) ∧
  installation_id (sp_identity b) = installation_id (identity d) ∧
  target_guild_id (sp_target b) = target_guild_id (target d) ∧
  ruleset_key (sp_target b) = ruleset_key (target d) ∧ requested_at d ≤ t.

Definition runs (d : RuntimeDeployment) : Prop :=
  phase d = PRuntimePending CondReady ∨ phase d = PReconcilingPanels ∨ phase d = PAwaitingGatewayReady.

Definition evidence_dropped (d' : RuntimeDeployment) : Prop :=
  panel_certificate d' = None ∧ gateway_ready d' = None ∧ live d' = None.

Inductive rule : Command → RuntimeDeployment → RuntimeDeployment → Prop :=
| RAcquireLease r d d' :
    match phase d with
    | PRuntimePending (CondBlocked _) => False
    | PRuntimePending (CondRetryable _ _ t) => t ≤ lr_now r
    | _ => True
    end →
    may_lease d r → leased r d' → changes_only [FLease; FToken] d d' →
    rule (CAcquireLease r) d d'
| RRecoverBlocked r f d d' :
    phase d = PRuntimePending (CondBlocked f) → last_runtime_failure d = Some (DispBlocked f) →
    failure_id f = rb_expected_failure_id r → controller_lease d = None →
    may_lease d (recover_lease r) → leased (recover_lease r) d' →
    phase d' = PRuntimePending CondReady → changes_only [FLease; FToken; FPhase] d d' →
    rule (CRecoverBlocked r) d d'
| RAcceptPreflight g a d d' :
    holds_lease d g → phase d = PRequested → preflight_fits d a →
    phase d' = PPreflightReady → preflight d' = Some a → changes_only [FPhase; FPreflight] d d' →
    rule (CAcceptPreflight g a) d d'
| RRequestDrain g d d' :
    holds_lease d g → phase d = PPreflightReady →
    phase d' = PDrainRequested → changes_only [FPhase] d d' →
    rule (CRequestDrain g) d d'
| RAcceptDrain g a d d' :
    holds_lease d g → phase d = PDrainRequested → drain_fits d a →
    phase d' = PDrained → drain d' = Some a → changes_only [FPhase; FDrain] d d' →
    rule (CAcceptDrain g a) d d'
| RBeginActivation g d d' :
    holds_lease d g → phase d = PDrained →
    phase d' = PActivationApplying → changes_only [FPhase] d d' →
    rule (CBeginActivation g) d d'
| RAcceptActivation g a d d' :
    holds_lease d g → phase d = PActivationApplying → activation_fits d a →
    phase d' = PRuntimePending CondReady → activation d' = Some a →
    changes_only [FPhase; FActivation] d d' →
    rule (CAcceptActivation g a) d d'
| RRecordRetryable g f n t d d' :
    holds_lease d g → runs d → failure_fits f → failure_recorded_at f ≤ t →
    after_start d (failure_recorded_at f) →
    phase d' = PRuntimePending (CondRetryable f n t) →
    last_runtime_failure d' = Some (DispRetryable f n t) → controller_lease d' = None →
    evidence_dropped d' → changes_only [FPhase; FFailure; FLease; FPanel; FGateway; FLive] d d' →
    rule (CRecordRetryable g f n t) d d'
| RRecordBlocked g f d d' :
    holds_lease d g → runs d → failure_fits f → after_start d (failure_recorded_at f) →
    phase d' = PRuntimePending (CondBlocked f) →
    last_runtime_failure d' = Some (DispBlocked f) → controller_lease d' = None →
    evidence_dropped d' → changes_only [FPhase; FFailure; FLease; FPanel; FGateway; FLive] d d' →
    rule (CRecordBlocked g f) d d'
| RResumePending g c d d' :
    holds_lease d g → phase d = PRuntimePending c → c ≠ CondReady →
    phase d' = PRuntimePending CondReady → changes_only [FPhase] d d' →
    rule (CResumePending g) d d'
| RBeginPanels g d d' :
    holds_lease d g → phase d = PRuntimePending CondReady →
    phase d' = PReconcilingPanels → changes_only [FPhase] d d' →
    rule (CBeginPanels g) d d'
| RAcceptPanel g c d d' :
    holds_lease d g → phase d = PReconcilingPanels → panels_fit d c →
    phase d' = PAwaitingGatewayReady → panel_certificate d' = Some c →
    changes_only [FPhase; FPanel] d d' →
    rule (CAcceptPanel g c) d d'
| RCertifyLive g gw t a p d d' :
    holds_lease d g → phase d = PAwaitingGatewayReady →
    activation d = Some a → panel_certificate d = Some p →
    gw_target gw = target d → gw_generation gw = runtime_generation d →
    gw_process_instance_id gw = pn_process_instance_id p →
    pn_reconciled_at p ≤ gw_ready_at gw ≤ t →
    phase d' = PLive → gateway_ready d' = Some gw → controller_lease d' = None →
    live d' = Some (mkLive (target d) (runtime_generation d) (gw_process_instance_id gw) a p gw t) →
    changes_only [FPhase; FGateway; FLive; FLease] d d' →
    rule (CCertifyLive g gw t) d d'
| RRecoverLive r prior d d' :
    rl_expected_revision r = revision d → phase d = PLive →
    rl_expected_generation r = runtime_generation d → live d = Some prior →
    lv_process_instance_id prior = rl_expected_process_instance_id r →
    lv_certified_at prior ≤ rl_evidence_at r ≤ rl_recovered_at r →
    phase d' = PRuntimePending CondReady →
    last_live_recovery d'
    = Some (mkRecovery prior (rl_kind r) (rl_evidence_at r) (rl_recovered_at r)) →
    evidence_dropped d' → changes_only [FPhase; FRecovery; FPanel; FGateway; FLive] d d' →
    rule (CRecoverLive r) d d'
| RSupersede g b r t d d' :
    holds_lease d g → under_way (phase d) → successor_fits d b r t →
    phase d' = PSuperseded b r t → controller_lease d' = None → changes_only [FPhase; FLease] d d' →
    rule (CSupersede g b r t) d d'
| RCancel g r t d d' :
    holds_lease d g → phase d = PRequested ∨ phase d = PPreflightReady ∨ phase d = PDrainRequested →
    reason_fits r → requested_at d ≤ t →
    phase d' = PCancelled r t → controller_lease d' = None → changes_only [FPhase; FLease] d d' →
    rule (CCancel g r t) d d'
| RSupersedeDrained p b r t d d' :
    ssp_source p = snapshot d → successor_fits d b r t → ssp_acknowledged_at p ≤ t →
    phase d ≠ PLive →
    phase d' = PSuperseded b r t → controller_lease d' = None → changes_only [FPhase; FLease] d d' →
    rule (CSupersedeDrained p b r t) d d'
| RSupersedeLive p b r t prior d d' :
    ssp_source p = snapshot d → successor_fits d b r t →
    phase d = PLive → live d = Some prior →
    lv_certified_at prior ≤ ssp_acknowledged_at p ≤ t →
    phase d' = PSuperseded b r t → controller_lease d' = None →
    last_live_recovery d'
    = Some (mkRecovery prior ServingDisconnected (ssp_acknowledged_at p) t) →
    evidence_dropped d' → changes_only [FPhase; FLease; FRecovery; FPanel; FGateway; FLive] d d' →
    rule (CSupersedeDrained p b r t) d d'
| RCancelDrained p t d d' :
    scp_source p = snapshot d → scp_acknowledged_at p ≤ t → changes_only [] d d' →
    rule (CCancelDrained p t) d d'.

(** *** The checks of the machine decide what the rules ask for *)
Lemma under_way_spec p : is_terminal p = false ↔ under_way p.
Proof. destruct p; cbn; naive_solver. Qed.

Lemma may_lease_grantable d r : may_lease d r ↔ grantable d r.
Proof. unfold may_lease, grantable. rewrite under_way_spec. naive_solver lia. Qed.

Lemma checked_unless {E} (b : bool) (e : E) k : (if b then Err e else k) = Ok tt ↔ b = false ∧ k = Ok tt.
Proof. destruct b; naive_solver. Qed.

Lemma ok_or_bind_Ok {E A B} (o : option A) (e : E) (k : A → Result E B) b :
  (x ← ok_or o e; k x) = Ok b ↔ ∃ x, o = Some x ∧ k x = Ok b.
Proof. destruct o; cbn; naive_solver. Qed.

Create Rewrite HintDb checks.
#[local] Hint Rewrite @bind_unit_Ok @checked_unless @ok_or_bind_Ok negb_false_iff bool_decide_eq_true
  bool_decide_eq_false Z.eqb_eq Z.ltb_ge Z.leb_gt : checks.

Lemma target_and_generation_fits d t g :
  validate_target_and_generation d t g = Ok tt ↔ t = target d ∧ g = runtime_generation d.
Proof. unfold validate_target_and_generation, validate_generation. autorewrite with checks. naive_solver. Qed.

Lemma preflight_fits_spec d a : validate_preflight d a = Ok tt ↔ preflight_fits d a.
Proof.
  unfold validate_preflight, preflight_fits. autorewrite with checks.
  rewrite target_and_generation_fits. naive_solver.
Qed.

Lemma drain_fits_spec d a : validate_drain d a = Ok tt ↔ drain_fits d a.
Proof.
  unfold validate_drain, validate_generation, drain_fits. autorewrite with checks.
  setoid_rewrite checked_unless. setoid_rewrite Z.ltb_ge. naive_solver.
Qed.

Lemma activation_fits_spec d a : validate_activation d a = Ok tt ↔ activation_fits d a.
Proof.
  unfold validate_activation, activation_fits. autorewrite with checks.
  rewrite target_and_generation_fits. setoid_rewrite checked_unless. setoid_rewrite Z.ltb_ge. naive_solver.
Qed.

Lemma panels_complete_spec c : validate_panel_eligibility c = Ok tt ↔ panels_complete c.
Proof.
  split; [apply panel_eligible_facts|]. intros (? & ? & ? & ? & ? & ? & ? & Hsum & Hmax).
  unfold validate_panel_eligibility, u32_checked_add. autorewrite with checks.
  split_and!; [done..|]. exists (pn_declared_count c).
  by rewrite Hsum, (proj2 (Z.leb_le _ _) Hmax), Z.eqb_refl.
Qed.

Lemma after_start_spec d t :
  after_start d t ↔ ∃ floor, runtime_evidence_floor d = Some floor ∧ floor ≤ t.
Proof.
  unfold after_start, runtime_evidence_floor. destruct (activation d) as [a|]; [|naive_solver].
  split.
  - intros [(a' & [= <-] & Ha) Hr]. eexists. split; [done|].
    destruct (last_live_recovery d) as [r|]; [|done]. specialize (Hr r eq_refl). lia.
  - intros (floor & [= <-] & Hle). split.
    + exists a. split; [done|]. destruct (last_live_recovery d); lia.
    + intros r Hr. rewrite Hr in Hle. lia.
Qed.

Lemma panel_recovery_spec d c :
  validate_panel_recovery d c = Ok tt ↔
  ∀ r, last_live_recovery d = Some r →
    rc_recovered_at r ≤ pn_reconciled_at c ∧
    pn_process_instance_id c ≠ lv_process_instance_id (rc_prior_live r).
Proof.
  unfold validate_panel_recovery. destruct (last_live_recovery d) as [r|]; [|naive_solver].
  autorewrite with checks. naive_solver.
Qed.

Lemma panels_fit_spec d c : validate_panel_certificate d c = Ok tt ↔ panels_fit d c.
Proof.
  unfold validate_panel_certificate, panels_fit, after_start. autorewrite with checks.
  rewrite target_and_generation_fits. setoid_rewrite checked_unless.
  setoid_rewrite bind_unit_Ok. setoid_rewrite panel_recovery_spec.
  setoid_rewrite panels_complete_spec. setoid_rewrite Z.ltb_ge. naive_solver.
Qed.

Lemma gateway_fits_spec d a :
  validate_gateway_ready d a = Ok tt ↔
  gw_target a = target d ∧ gw_generation a = runtime_generation d ∧
  ∃ p, panel_certificate d = Some p ∧ gw_process_instance_id a = pn_process_instance_id p.
Proof.
  unfold validate_gateway_ready. autorewrite with checks. rewrite target_and_generation_fits.
  setoid_rewrite checked_unless. setoid_rewrite negb_false_iff. setoid_rewrite bool_decide_eq_true.
  naive_solver.
Qed.

Lemma failure_fits_spec f : validate_failure f = Ok tt ↔ failure_fits f.
Proof.
  unfold validate_failure, failure_fits, failure_code_char, str_is_empty.
  destruct (_ && _) eqn:Hb; split; try done.
  - intros _. bool_facts. split_and!; try done. by apply String.eqb_neq.
  - intros (Hc & Hl & Ha & Hm & Hml). rewrite <- not_true_iff_false in Hb. destruct Hb.
    rewrite !andb_true_iff, !negb_true_iff, !Z.leb_le. split_and!; try done. by apply String.eqb_neq.
Qed.

Lemma reason_fits_spec r : validate_reason r = Ok tt ↔ reason_fits r.
Proof.
  unfold validate_reason, reason_fits. rewrite checked_unless, orb_false_iff, Z.ltb_ge. naive_solver.
Qed.

Lemma successor_fits_spec d b r t : validate_supersession d b r t = Ok tt ↔ successor_fits d b r t.
Proof.
  unfold validate_supersession, successor_fits, same_product_scope, same_slot.
  rewrite bind_unit_Ok, reason_fits_spec. autorewrite with checks.
  rewrite !andb_true_iff, !bool_decide_eq_true, Z.eqb_eq. naive_solver.
Qed.

Lemma runs_spec d : (∃ op, require_runtime_failure_phase d op = Ok tt) ↔ runs d.
Proof.
  unfold runs. split.
  - intros [op Hop]. by eapply require_runtime_failure_phase_inv.
  - intros H. exists EmptyString. unfold require_runtime_failure_phase. by destruct H as [->|[->| ->]].
Qed.

Lemma deployment_ext d d' :
  identity d = identity d' → target d = target d' → runtime_generation d = runtime_generation d' →
  previous_runtime d = previous_runtime d' → requested_at d = requested_at d' →
  revision d = revision d' → phase d = phase d' → controller_lease d = controller_lease d' →
  last_fencing_token d = last_fencing_token d' → preflight d = preflight d' → drain d = drain d' →
  activation d = activation d' → panel_certificate d = panel_certificate d' →
  gateway_ready d = gateway_ready d' → live d = live d' →
  last_live_recovery d = last_live_recovery d' → last_runtime_failure d = last_runtime_failure d' →
  d = d'.
Proof. destruct d, d'. cbn. intros. by subst. Qed.

(** *** The rules and the step relation *)
Lemma kept_not (f : Field) (fs : list Field) (P : Prop) :
  bool_decide (f ∈ fs) = false → f ∈ fs ∨ P → P.
Proof. intros Hf%bool_decide_eq_false [?|?]; done. Qed.

Ltac unchanged :=
  unfold changes_only; cbn; split_and!;
  first [ done | by right | left; by apply (bool_decide_unpack _) ].

Ltac changed_fields :=
  repeat match goal with
         | H : changes_only _ _ _ |- _ => unfold changes_only in H; destruct_and! H
         | H : ?f ∈ ?fs ∨ ?P |- _ => first [ apply (kept_not f fs P eq_refl) in H | clear H ]
         | H : leased _ _ |- _ => destruct H
         | H : evidence_dropped _ |- _ => destruct H as (? & ? & ?)
         end.

Lemma blocked_failure d f :
  snapshot_ok d → phase d = PRuntimePending (CondBlocked f) → last_runtime_failure d = Some (DispBlocked f).
Proof.
  intros Hs Hp. pose proof (so_phase _ Hs) as Hev. unfold phase_evidence_valid in Hev. rewrite Hp in Hev.
  cbn in Hev. bool_facts. by symmetry.
Qed.

Lemma supersession_live d b r ack t prior :
  phase d = PLive → live d = Some prior → validate_snapshot (supersession_of d b r ack t) = Ok tt →
  lv_certified_at prior ≤ ack.
Proof.
  intros Hp Hl Hv%validate_snapshot_Ok. unfold supersession_of in Hv. rewrite Hp, Hl in Hv.
  pose proof (so_recovery _ Hv _ eq_refl) as Hr. apply snapshot_recovery_valid_iff in Hr as (_ & Hr & _).
  apply (po_evidence _ _ _ _ Hr).
Qed.

Lemma supersession_of_live d b r ack t prior :
  phase d = PLive → live d = Some prior →
  supersession_of d b r ack t
  = with_phase (PSuperseded b r t) (with_controller_lease None
      (with_last_live_recovery (Some (mkRecovery prior ServingDisconnected ack t))
         (clear_unaccepted_runtime_evidence d))).
Proof. intros Hp Hl. unfold supersession_of. by rewrite Hp, Hl. Qed.

Lemma supersession_of_other d b r ack t :
  phase d ≠ PLive →
  supersession_of d b r ack t = with_phase (PSuperseded b r t) (with_controller_lease None d).
Proof. intros Hp. unfold supersession_of. by destruct (phase d). Qed.

Lemma effect_rule c d m :
  deployment_ok d → replays c d = false → effect c d m → rule c d (with_revision (revision d + 1) m).
Proof.
  intros Hok Hfresh Heff. pose proof (ok_snapshot _ Hok) as Hs. destruct Heff.
  - econstructor; [|by apply may_lease_grantable|done|unchanged].
    unfold lease_phase_check in *. destruct (phase d) as [| | | | |[]| | | | |]; try done.
    result_cases. by bool_facts.
  - unfold is_blocked_by in *. destruct (phase d) as [| | | | |[|? ? ?|f]| | | | |] eqn:Hp; try done.
    bool_facts. econstructor; [done|by apply blocked_failure|done|done|by apply may_lease_grantable
      |done|done|unchanged].
  - econstructor; [done|done|by apply preflight_fits_spec|done|done|unchanged].
  - econstructor; [done|done|done|unchanged].
  - econstructor; [done|done|by apply drain_fits_spec|done|done|unchanged].
  - econstructor; [done|done|done|unchanged].
  - econstructor; [done|done|by apply activation_fits_spec|done|done|unchanged].
  - econstructor; [done|by apply runs_spec|by apply failure_fits_spec|done|apply after_start_spec; by eauto
      |done|done|done|done|unchanged].
  - econstructor; [done|by apply runs_spec|by apply failure_fits_spec|apply after_start_spec; by eauto
      |done|done|done|done|unchanged].
  - econstructor; [done|done| |done|unchanged]. intros ->. cbn in Hfresh.
    unfold is_ready_phase in Hfresh.
    match goal with H : phase d = _ |- _ => by rewrite H in Hfresh end.
  - econstructor; [done|done|done|unchanged].
  - econstructor; [done|done|by apply panels_fit_spec|done|done|unchanged].
  - match goal with H : validate_gateway_ready _ _ = _ |- _ =>
      apply gateway_fits_spec in H as (? & ? & p' & ? & ?) end. simplify_eq.
    econstructor; [done..|unchanged].
  - econstructor; [done..|unchanged].
  - econstructor; [done|by apply under_way_spec|by apply successor_fits_spec|done|done|unchanged].
  - econstructor; [done| |by apply reason_fits_spec|done|done|done|unchanged].
    unfold is_cancellable in *. destruct (phase d); try done; auto.
  - destruct (decide (phase d = PLive)) as [Hp|Hp].
    + destruct (live_phase_evidence _ Hs Hp) as [prior Hl].
      assert (lv_certified_at prior ≤ ssp_acknowledged_at p) by (by eapply supersession_live).
      rewrite (supersession_of_live _ _ _ _ _ prior) by done.
      eapply RSupersedeLive; [done|by apply successor_fits_spec|done..|unchanged].
    + rewrite supersession_of_other by done.
      eapply RSupersedeDrained; [done|by apply successor_fits_spec|done..|unchanged].
  - constructor; [done..|unchanged].
Qed.

(** A deployment that is closed by a successor is still a valid snapshot. *)
Lemma superseded_snapshot_ok d b r t :
  snapshot_ok d → successor_fits d b r t → phase d ≠ PLive →
  snapshot_ok (with_phase (PSuperseded b r t) (with_controller_lease None d)).
Proof.
  intros Hs Hb Hp. pose proof Hs as [Hprev _ Hf Hpf Hdr Hac Hpn Hgw Hlv Hrc Hev].
  constructor; try done.
  - intros x Hx. apply snapshot_failure_valid_iff, (failure_facts_keep d); try done.
    by apply snapshot_failure_valid_iff, Hf.
  - intros x Hx. apply snapshot_recovery_valid_iff. cbn.
    by apply Hrc, snapshot_recovery_valid_iff in Hx as (_ & ? & ?).
  - unfold phase_evidence_valid. cbn. apply andb_true_iff.
    split; [by apply validate_supersession_facts, successor_fits_spec|].
    change (evidence_is_prefix d = true). destruct (is_terminal (phase d)) eqn:Ht; [|by apply evidence_prefix].
    unfold phase_evidence_valid in Hev. destruct (phase d); try done; by bool_facts.
Qed.

Lemma supersession_snapshot_ok d b r ack t :
  deployment_ok d → successor_fits d b r t →
  (∀ prior, phase d = PLive → live d = Some prior → lv_certified_at prior ≤ ack ≤ t) →
  validate_snapshot (supersession_of d b r ack t) = Ok tt.
Proof.
  intros Hok Hb Hlive. apply validate_snapshot_Ok.
  destruct (decide (phase d = PLive)) as [Hp|Hp].
  - destruct (live_phase_evidence _ (ok_snapshot _ Hok) Hp) as [prior Hl].
    destruct (Hlive prior Hp Hl). rewrite (supersession_of_live _ _ _ _ _ prior) by done.
    pose (request := mkRecoverLive (revision d) (runtime_generation d) (lv_process_instance_id prior)
                       ServingDisconnected ack t).
    assert (Heff := ERecoverLive request prior d eq_refl Hp eq_refl Hl eq_refl ltac:(cbn; lia) ltac:(cbn; lia)).
    pose proof (superseded_snapshot_ok _ b r t (ok_snapshot _ (effect_ok _ _ _ Hok Heff))) as Hs.
    by apply Hs.
  - rewrite supersession_of_other by done. apply superseded_snapshot_ok; [apply Hok|done..].
Qed.

Lemma supersession_not_replayed p b r t d :
  deployment_ok d → ssp_source p = snapshot d → supersession_result p b r t ≠ Ok d.
Proof.
  intros Hok Hs Hres. destruct (supersession_result_Ok _ _ _ _ _ _ Hs Hres) as [_ Hb].
  apply bump_revision_inv in Hb; rewrite ?supersession_of_revision; [|apply Hok].
  rewrite supersession_of_revision in Hb. destruct Hb as [([= Hr] & _)|[? _]]; [lia|done].
Qed.

(** No rule applies to a command that was already applied. *)
Lemma rule_fresh c d d' : deployment_ok d → rule c d d' → replays c d = false.
Proof.
  intros Hok Hr. pose proof (ok_snapshot _ Hok) as Hs. destruct Hr; cbn;
    repeat match goal with
           | H : phase d = _ |- _ => unfold is_ready_phase, has_reached, pending_condition_is; rewrite H; cbn
           end; rewrite ?andb_false_r; try done;
    try (apply bool_decide_eq_false; by apply supersession_not_replayed).
  - destruct (controller_lease d) as [l|] eqn:Hl; [|done]. cbn.
    destruct (so_lease _ Hs l Hl) as [Ht _]. destruct H0 as (_ & _ & _ & _ & Hlt).
    specialize (Hlt _ Ht). unfold lease_matches. rewrite (proj2 (Z.eqb_neq _ _)) by lia.
    by rewrite andb_false_r.
  - unfold pending_condition_is. by destruct H0 as [->|[->| ->]].
  - unfold pending_condition_is. by destruct H0 as [->|[->| ->]].
  - by destruct c.
  - phase_facts Hs. match goal with H : live d = None |- _ => by rewrite H end.
  - apply bool_decide_eq_false. intros Hp. by rewrite Hp in H0.
  - apply bool_decide_eq_false. intros Hp. rewrite Hp in H0. naive_solver.
Qed.

Ltac same_fields := apply deployment_ext; first [done|cbn; congruence].

Lemma rule_effect c d d' :
  deployment_ok d → rule c d d' → ∃ m, effect c d m ∧ d' = with_revision (revision d + 1) m.
Proof.
  intros Hok Hr. pose proof (ok_snapshot _ Hok) as Hs.
  assert (Hv := proj2 (validate_snapshot_Ok d) Hs). destruct Hr; changed_fields.
  - eexists. split; [apply EAcquireLease; [|by apply may_lease_grantable]|same_fields].
    unfold lease_phase_check. destruct (phase d) as [| | | | |[]| | | | |]; try done.
    by rewrite (proj2 (Z.ltb_ge _ _)).
  - eexists. split; [apply ERecoverBlocked; [..|by apply may_lease_grantable]|same_fields]; [|done|].
    + unfold is_blocked_by. rewrite H. by apply bool_decide_eq_true.
    + unfold exact_failure. rewrite H0. by apply bool_decide_eq_true.
  - eexists. split; [apply EAcceptPreflight; [..|by apply preflight_fits_spec]|same_fields]; done.
  - eexists. split; [by apply ERequestDrain|same_fields].
  - eexists. split; [apply EAcceptDrain; [..|by apply drain_fits_spec]|same_fields]; done.
  - eexists. split; [by apply EBeginActivation|same_fields].
  - eexists. split; [apply EAcceptActivation; [..|by apply activation_fits_spec]|same_fields]; done.
  - match goal with H : after_start _ _ |- _ => apply after_start_spec in H as (floor & ? & ?) end.
    eexists. split; [eapply ERecordRetryable; [done|by apply runs_spec|by apply failure_fits_spec|done..]
                    |same_fields].
  - match goal with H : after_start _ _ |- _ => apply after_start_spec in H as (floor & ? & ?) end.
    eexists. split; [eapply ERecordBlocked; [done|by apply runs_spec|by apply failure_fits_spec|done..]
                    |same_fields].
  - eexists. split; [by eapply EResumePending|same_fields].
  - eexists. split; [by apply EBeginPanels|same_fields].
  - eexists. split; [apply EAcceptPanel; [..|by apply panels_fit_spec]|same_fields]; done.
  - eexists. split; [eapply ECertifyLive; [done|done|apply gateway_fits_spec; by eauto|done|done|lia..]
                    |same_fields].
  - eexists. split; [eapply ERecoverLive; first [done|lia]|same_fields].
  - eexists. split; [apply ESupersede; [done|by apply under_way_spec|by apply successor_fits_spec]
                    |same_fields].
  - eexists. split; [apply ECancel; [done| |by apply reason_fits_spec|done]|same_fields].
    unfold is_cancellable. by destruct H0 as [->|[->| ->]].
  - eexists. split; [apply ESupersedeDrained; [done..|by apply successor_fits_spec|]
                    |rewrite supersession_of_other by done; same_fields].
    by apply supersession_snapshot_ok.
  - eexists. split; [apply ESupersedeDrained; [done|lia|done|by apply successor_fits_spec|]
                    |rewrite (supersession_of_live _ _ _ _ _ prior) by done; same_fields].
    apply supersession_snapshot_ok; [done..|]. intros. by simplify_eq.
  - eexists. split; [by apply ECancelDrained|same_fields].
Qed.

(** ** Guarantees *)

(** C3: Whatever commands a requested deployment receives, and whatever they
    answer, the snapshot it would be persisted as is accepted by [restore] and
    restores the same deployment. *)
Theorem reachable_deployments_restore i t g p q cs d0 os d :
  request i t g p q = Ok d0 → run_commands cs d0 = (os, d) → restore (snapshot d) = Ok d.
Proof.
  intros Hreq Hrun. apply request_ok in Hreq.
  pose proof (run_commands_ok _ _ _ _ Hreq Hrun) as Hok.
  by rewrite restore_snapshot, (proj2 (validate_snapshot_Ok d) (ok_snapshot _ Hok)).
Qed.

(** C5: The machine implements the rules of the protocol exactly: after any
    commands to a requested deployment, a command is applied with the outcome
    [d'] exactly when the revision counter has a next value and the command's rule
    relates the deployment to [d'], and the outcome reports the revision of [d']. *)
Theorem machine_refines_rules i t g p q cs d0 os d c r d' :
  request i t g p q = Ok d0 → run_commands cs d0 = (os, d) →
  run_command c d = (Ok (Applied r), d') ↔
  revision d < u64_max ∧ r = revision d' ∧ rule c d d'.
Proof.
  intros Hreq Hcs. pose proof (run_commands_ok _ _ _ _ (request_ok _ _ _ _ _ _ Hreq) Hcs) as Hok. split.
  - intros Hrun. destruct (applied_effect _ _ _ _ Hrun) as (m & Heff & Hb).
    destruct (effect_static _ _ _ Heff) as [_ Hm]. pose proof (ok_revision _ Hok) as Hrev.
    rewrite <-Hm in Hrev. destruct (bump_revision_inv _ _ _ Hb Hrev) as [([= ->] & -> & ?)|[? _]]; [|done].
    rewrite Hm in *. split_and!; [lia|done|]. apply effect_rule; [done| |done].
    destruct (replays c d) eqn:Hrep; [|done]. by rewrite (replays_runs _ _ Hrep) in Hrun.
  - intros (Hlt & -> & Hrule). pose proof (rule_fresh _ _ _ Hok Hrule).
    destruct (rule_effect _ _ _ Hok Hrule) as (m & Heff & ->). by apply effect_runs.
Qed.

(** Outcomes are honest: after any commands to a requested deployment, a
    command that answers [Applied] advanced the revision by one and reports it, one
    that answers [Replayed] changed nothing, and one that fails changed nothing
    unless the revision counter is exhausted. *)
Theorem outcomes_are_honest i t g p q cs d0 os d c o d' :
  request i t g p q = Ok d0 → run_commands cs d0 = (os, d) → run_command c d = (o, d') →
  match o with
  | Ok (Applied r) => r = revision d' ∧ revision d' = revision d + 1
  | Ok (Replayed r) => r = revision d ∧ d' = d
  | Err e => d' = d ∨ (e = RevisionOverflow ∧ revision d = u64_max)
  end.
Proof.
  intros Hreq%request_ok Hrun Hc. apply (run_command_honest c d o d'); [|done].
  by eapply run_commands_ok.
Qed.

(** C9: Fencing: if a command guarded by [g1] is applied and later, after any
    commands, one guarded by [g2] is applied, then [g2] has a newer token, or the
    same token and the same controller: a controller that lost its lease to another
    can no longer change the deployment. *)
Theorem fencing_orders_controllers d c1 r1 d1 g1 cs os d2 c2 r2 d3 g2 :
  deployment_ok d →
  command_guard c1 = Some g1 → run_command c1 d = (Ok (Applied r1), d1) →
  run_commands cs d1 = (os, d2) →
  command_guard c2 = Some g2 → run_command c2 d2 = (Ok (Applied r2), d3) →
  cg_fencing_token g1 < cg_fencing_token g2 ∨
  (cg_fencing_token g1 = cg_fencing_token g2 ∧ cg_controller_id g1 = cg_controller_id g2).
Proof.
  intros Hok Hg1 Hr1 Hcs Hg2 Hr2.
  destruct (applied_effect _ _ _ _ Hr1) as (m1 & He1 & _).
  destruct (applied_effect _ _ _ _ Hr2) as (m2 & He2 & _).
  destruct (effect_guarded _ _ _ _ He1 Hg1) as (_ & _ & l1 & Hl1 & _ & <- & <-).
  destruct (effect_guarded _ _ _ _ He2 Hg2) as (_ & _ & l2 & Hl2 & _ & <- & <-).
  assert (lease_evolves d d2) as [_ Hev].
  { eapply lease_evolves_trans; [by eapply run_command_evolves|by eapply run_commands_evolves]. }
  destruct (Hev l2 Hl2) as [Hl|Hlt].
  - right. by simplify_eq.
  - left. apply Hlt. by destruct (so_lease _ (ok_snapshot _ Hok) l1 Hl1).
Qed.

(** Only the lease holder acts: a guarded command that is applied was issued
    by the controller of an unexpired lease with its token, against the current
    revision and the deployment's generation; and a lease granted while another is
    unexpired goes to the same controller, with a later expiry and a newer token. *)
Theorem only_the_lease_holder_acts c d r d' :
  run_command c d = (Ok (Applied r), d') →
  match command_guard c with
  | Some g =>
      cg_expected_revision g = revision d ∧ cg_generation g = runtime_generation d ∧
      ∃ l, controller_lease d = Some l ∧ cg_now g < lease_expires_at l ∧
           lease_controller_id l = cg_controller_id g ∧ lease_fencing_token l = cg_fencing_token g
  | None =>
      ∀ l l', controller_lease d = Some l → controller_lease d' = Some l' → l' ≠ l →
      lease_acquired_at l' < lease_expires_at l →
      lease_controller_id l' = lease_controller_id l ∧ lease_expires_at l < lease_expires_at l' ∧
      ∀ k, last_fencing_token d = Some k → k < lease_fencing_token l'
  end.
Proof.
  intros Hrun. destruct (applied_effect _ _ _ _ Hrun) as (m & Heff & Hb).
  destruct (command_guard c) as [g|] eqn:Hg; [by apply (effect_guarded _ _ _ _ Heff)|].
  destruct (bump_revision_fields _ _ _ Hb) as (_ & -> & _).
  intros l l' Hl Hl' Hne Hlt. destruct Heff; try done; cbn in *; try congruence.
  destruct H0 as (_ & _ & _ & _ & Hheld & Htok). injection Hl' as <-. cbn in *.
  by destruct (Hheld l Hl Hlt) as (? & _ & ?).
Qed.

(** A live deployment is fully evidenced: after any commands to a requested
    deployment, when its phase is [Live] every attestation is present, each is not
    earlier than the one before, the panels and the gateway are those of one process
    at the deployment's target and generation, and every declared panel is installed
    or unchanged with nothing skipped, failed, ambiguous or pending. *)
Theorem live_deployments_are_evidenced i t g p q cs d0 os d :
  request i t g p q = Ok d0 → run_commands cs d0 = (os, d) → phase d = PLive →
  ∃ pf dr l, preflight d = Some pf ∧ drain d = Some dr ∧ live d = Some l ∧ live_facts d l ∧
    requested_at d ≤ pf_checked_at pf ≤ dr_drained_at dr ∧
    dr_drained_at dr ≤ at_activated_at (lv_activation l) ∧
    at_activated_at (lv_activation l) ≤ pn_reconciled_at (lv_panel_certificate l) ∧
    pn_reconciled_at (lv_panel_certificate l) ≤ gw_ready_at (lv_gateway_ready l) ∧
    gw_ready_at (lv_gateway_ready l) ≤ lv_certified_at l ∧
    pn_process_instance_id (lv_panel_certificate l) = lv_process_instance_id l ∧
    pn_installed_count (lv_panel_certificate l) + pn_unchanged_count (lv_panel_certificate l)
    = pn_declared_count (lv_panel_certificate l) ∧
    pn_failed_count (lv_panel_certificate l) = 0 ∧ controller_lease d = None.
Proof.
  intros Hreq%request_ok Hrun Hp. pose proof (run_commands_ok _ _ _ _ Hreq Hrun) as Hok.
  destruct (live_phase_evidence _ (ok_snapshot _ Hok) Hp) as [l Hl].
  destruct (live_chain _ _ Hok Hl) as (pf & dr & ? & ? & ? & ? & ? & ? & ? & ? & ? & Hel).
  destruct (panel_eligible_facts _ Hel) as (_ & _ & ? & _ & _ & _ & _ & ? & _).
  exists pf, dr, l. split_and!; try done; try lia.
  destruct (controller_lease d) as [lease|] eqn:Hlease; [|done].
  destruct (so_lease _ (ok_snapshot _ Hok) _ Hlease) as (_ & _ & _ & Hterm). by rewrite Hp in Hterm.
Qed.

(** Superseded and cancelled deployments are closed: no sequence of commands,
    with permits issued for any sources, changes them in any way. *)
Theorem closed_deployments_are_final cs d os d' :
  is_closed (phase d) = true → Forall command_wf cs → run_commands cs d = (os, d') → d' = d.
Proof.
  intros Hcl Hwf Hrun.
  cut (is_closed (phase d') = true ∧ d' = d); [naive_solver|].
  eapply (run_commands_invariant (λ x, is_closed (phase x) = true ∧ x = d)); [|done|done].
  intros c x o x' Hc [Hx ->] Hstep. rewrite Forall_forall in Hwf.
  by destruct (closed_inert _ _ _ _ (Hwf _ Hc) Hx Hstep) as [-> _].
Qed.

(** A blocked deployment waits for an operator: in a reachable deployment
    blocked by a failure, the only command that is ever applied is the recovery
    naming that failure, and it leaves the deployment ready under the new lease. *)
Theorem blocked_deployments_wait_for_recovery i t g p q cs d0 os d f c r d' :
  request i t g p q = Ok d0 → run_commands cs d0 = (os, d) →
  phase d = PRuntimePending (CondBlocked f) → command_wf c →
  run_command c d = (Ok (Applied r), d') →
  ∃ rq, c = CRecoverBlocked rq ∧ rb_expected_failure_id rq = failure_id f ∧
        phase d' = PRuntimePending CondReady ∧
        controller_lease d' = Some (mkLease (rb_controller_id rq) (rb_fencing_token rq)
                                            (rb_now rq) (rb_expires_at rq)).
Proof.
  intros Hreq%request_ok Hrun Hp Hwf Hc. pose proof (run_commands_ok _ _ _ _ Hreq Hrun) as Hok.
  destruct (applied_effect _ _ _ _ Hc) as (m & Heff & Hb).
  destruct (bump_revision_fields _ _ _ Hb) as (-> & -> & _).
  by eapply blocked_effect.
Qed.

(** Retries are safe: repeating any applied command other than a drain
    cancellation is recognised as a replay, reports the same revision and changes
    nothing. *)
Theorem applied_commands_replay c d r d' :
  deployment_ok d → run_command c d = (Ok (Applied r), d') →
  match c with CCancelDrained _ _ => True | _ => run_command c d' = (Ok (Replayed r), d') end.
Proof.
  intros Hok Hrun. destruct (applied_effect _ _ _ _ Hrun) as (m & Heff & Hb).
  assert (d' = with_revision r m) as ->.
  { unfold bump_revision in Hb. destruct (revision_next _); by simplify_eq. }
  pose proof (effect_replayed _ _ _ r Hok Heff) as Hrep.
  destruct c; try done. by eapply supersede_drained_replayed.
Qed.

(** Phases follow the lifecycle: along any run with issued permits, each
    command moves the phase along an edge of the lifecycle graph or leaves it. *)
Theorem phases_follow_lifecycle c d o d' :
  command_wf c → run_command c d = (o, d') →
  phase d' = phase d ∨ edge (phase_kind (phase d)) (phase_kind (phase d')) = true.
Proof.
  intros Hwf Hrun. destruct (run_command_inv _ _ _ _ Hrun) as [[-> _]|(m & Heff & Hb)]; [by left|].
  right. destruct (bump_revision_fields _ _ _ Hb) as (-> & _). by eapply effect_edge.
Qed.

(** ** Runtime convergence: deployments can go live

    The protocol of nine commands that takes any requested deployment to [Live],
    and two ways in which the machine falls short: an exhausted revision counter
    and snapshots of live deployments whose gateway was ready too early. *)

(** ** The protocol *)
Section Protocol.
Context (controller : ControllerId) (token : FencingToken) (process : ProcessInstanceId).
Context (certificate : PanelCertificateId) (digest : PanelReportDigestV1).

(** The guard of the controller at a revision, at the instant of the request. *)
Definition protocol_guard (d : RuntimeDeployment) (n : DeploymentRevision) : CommandGuardV1 :=
mkGuard n controller token (runtime_generation d) (requested_at d).

Definition protocol_panel (d : RuntimeDeployment) : PanelCertificateV1 :=
mkPanel certificate digest (target d) (runtime_generation d) process
  0 0 0 0 0 0 0 0 0 0 (requested_at d).

Definition protocol (d : RuntimeDeployment) : list Command :=
let guard := protocol_guard d in
let now := requested_at d in
[ CAcquireLease (mkLeaseRequest 1 controller token now (now + 1));
  CAcceptPreflight (guard 2)
    (mkPreflight (target d) (runtime_generation d) (previous_runtime d) now);
  CRequestDrain (guard 3);
  CAcceptDrain (guard 4) (mkDrain (previous_runtime d) (runtime_generation d) now);
  CBeginActivation (guard 5);
  CAcceptActivation (guard 6)
    (mkActivation (identity_activation_request_id (identity d)) (target d)
       (runtime_generation d) Activated now);
  CBeginPanels (guard 7);
  CAcceptPanel (guard 8) (protocol_panel d);
  CCertifyLive (guard 9) (mkGateway (target d) (runtime_generation d) process DiscordReady now)
    now ].
End Protocol.

(** Every command is applied, and the deployment ends up live. *)
Fixpoint applied_from (n : DeploymentRevision) (cs : list Command) : list Outcome :=
  match cs with
  | [] => []
  | _ :: cs => Ok (Applied (n + 1)) :: applied_from (n + 1) cs
  end.

Definition goes_live (cs : list Command) (d : RuntimeDeployment) : Prop :=
  ∃ d', run_commands cs d = (applied_from (revision d) cs, d') ∧ phase d' = PLive.

Lemma goes_live_step c cs d m :
  deployment_ok d → revision d < u64_max → effect c d m → replays c d = false →
  (deployment_ok (with_revision (revision d + 1) m) →
   goes_live cs (with_revision (revision d + 1) m)) →
  goes_live (c :: cs) d.
Proof.
  intros Hok Hlt Heff Hfresh Hnext. pose proof (effect_runs _ _ _ Hok Hlt Heff Hfresh) as Hrun.
  destruct (Hnext (run_command_ok _ _ _ _ Hok Hrun)) as (d' & Hd' & Hp).
  exists d'. split; [|done]. cbn [run_commands applied_from]. by rewrite Hrun, Hd'.
Qed.

(** One command of the protocol: its rule applies, by its guard and checks. *)
Ltac protocol_checks :=
  unfold validate_preflight, validate_drain, validate_activation, validate_panel_certificate,
    validate_gateway_ready, validate_target_and_generation, validate_generation;
  cbn -[bool_decide];
  repeat first [ rewrite bool_decide_true by done | rewrite Z.eqb_refl | rewrite Z.ltb_irrefl
               | progress cbn -[bool_decide] ].

Ltac protocol_rule :=
  econstructor; try done; try (by split_and!; [..|eexists; split_and!; [done|cbn; lia|..]]);
  protocol_checks; try done; try lia.

Ltac protocol_step :=
  eapply goes_live_step;
  [done|done|by protocol_rule|done|
   match goal with H : deployment_ok _ |- _ => clear H end; intros ?].

(** C30: Every requested deployment can converge: for any controller, fencing
    token and process, the nine commands of the protocol are all applied and leave
    the deployment live. *)
Theorem requested_deployments_can_go_live i t g p q controller token process cert digest d :
  request i t g p q = Ok d →
  ∃ d', run_commands (protocol controller token process cert digest d) d
        = (applied_from 1 (protocol controller token process cert digest d), d') ∧
        phase d' = PLive.
Proof.
  intros Hreq. pose proof (request_ok _ _ _ _ _ _ Hreq) as Hok.
  unfold request in Hreq. apply bind_Ok_inv in Hreq as ([] & _ & [= <-]).
  change (goes_live (protocol controller token process cert digest
    (mkDeployment i t g p q 1 PRequested None None None None None None None None None None))
    (mkDeployment i t g p q 1 PRequested None None None None None None None None None None)).
  eapply goes_live_step; [done|done| |done|clear Hok; intros Hok].
  { constructor; [done|]. split_and!; cbn; try done; lia. }
  do 7 protocol_step. eapply goes_live_step; [done|done|by protocol_rule|done|].
  intros _. by eexists.
Qed.

(** ** A deployment to try things on *)
Definition sample_identity : RuntimeDeploymentIdentityV1 :=
  mkDeploymentIdentity "deployment-1" "tenant" "installation" "promotion" "activation-1".
Definition sample_target : RuntimeDeploymentTargetV1 :=
  mkTarget 7 "welcome" 3 "content" 1 "binding".
Definition sample_fields (n : DeploymentRevision) : RuntimeDeployment :=
  mkDeployment sample_identity sample_target 2 None 100 n PRequested
    None None None None None None None None None None.
Definition sample : RuntimeDeployment := sample_fields 1.
Definition sample_protocol : list Command :=
  protocol "controller" 1 "process" "certificate" "digest" sample.
Definition sample_live : RuntimeDeployment := snd (run_commands sample_protocol sample).

(** With the revision counter exhausted, a lease request that passes every
    check answers [RevisionOverflow] but leaves the lease and the fencing token
    installed: the error path of [bump_revision] is not transactional. *)
Theorem exhausted_revision_installs_lease :
  ∃ d r d',
    restore (snapshot d) = Ok d ∧ controller_lease d = None ∧
    acquire_lease r d = (Err RevisionOverflow, d') ∧
    controller_lease d' = Some (mkLease (lr_controller_id r) (lr_fencing_token r)
                                        (lr_now r) (lr_expires_at r)) ∧
    last_fencing_token d' = Some (lr_fencing_token r).
Proof.
  pose (r := mkLeaseRequest u64_max "controller" 1 100 200).
  exists (sample_fields u64_max), r, (snd (acquire_lease r (sample_fields u64_max))).
  split_and!; vm_compute; reflexivity.
Qed.

(** A live snapshot whose gateway was ready before its panels were reconciled. *)
Definition early_gateway (d : RuntimeDeployment) : RuntimeDeployment :=
  match gateway_ready d, live d with
  | Some gw, Some l =>
      let gw := mkGateway (gw_target gw) (gw_generation gw) (gw_process_instance_id gw)
                  (gw_kind gw) (gw_ready_at gw - 1) in
      with_gateway_ready (Some gw)
        (with_live (Some (mkLive (lv_target l) (lv_generation l) (lv_process_instance_id l)
                            (lv_activation l) (lv_panel_certificate l) gw (lv_certified_at l))) d)
  | _, _ => d
  end.

Lemma validate_snapshot_err d : validate_snapshot d = Ok tt ∨ validate_snapshot d = Err InvalidSnapshot.
Proof.
  assert (Hens : ∀ b, ensure b InvalidSnapshot = Ok tt ∨ ensure b InvalidSnapshot = Err InvalidSnapshot)
    by (intros []; auto).
  assert (Hchk : ∀ r, snapshot_check r = Ok tt ∨ snapshot_check r = Err InvalidSnapshot)
    by (intros [[]|]; auto).
  assert (Hseq : ∀ m k : Checked, (m = Ok tt ∨ m = Err InvalidSnapshot) → (k = Ok tt ∨ k = Err InvalidSnapshot) →
            (_ ← m; k) = Ok tt ∨ (_ ← m; k) = Err InvalidSnapshot).
  { intros m k [-> | ->] ?; auto. }
  assert (Hwhen : ∀ A (o : option A) check, (∀ x, check x = Ok tt ∨ check x = Err InvalidSnapshot) →
            when_some o check = Ok tt ∨ when_some o check = Err InvalidSnapshot).
  { intros A [x|] check Hx; cbn; auto. }
  unfold validate_snapshot. repeat (apply Hseq || (apply Hwhen; intros) || apply Hens || apply Hchk).
Qed.

(** C40: Of a restored live deployment, a recovery that is applied leaves a deployment
    whose own snapshot can be restored exactly when the gateway was ready no earlier than the
    panels were reconciled; otherwise [restore] refuses it. [certify_live] and the check of
    the recovery record ask for that order, the check of a live snapshot does not. *)
Theorem recovered_live_restores_iff_ordered s d l r n d' :
  restore s = Ok d → 1 ≤ s_revision s ≤ u64_max → phase d = PLive → live d = Some l →
  recover_live r d = (Ok (Applied n), d') →
  restore (snapshot d')
  = if pn_reconciled_at (lv_panel_certificate l) <=? gw_ready_at (lv_gateway_ready l)
    then Ok d' else Err InvalidSnapshot.
Proof.
  intros [-> Hv%validate_snapshot_Ok]%restore_Ok_snapshot Hrev Hp Hl Hrun.
  destruct (applied_effect (CRecoverLive r) _ _ _ Hrun) as (m & Heff & Hb).
  assert (Hm : m = with_phase (PRuntimePending CondReady) (clear_unaccepted_runtime_evidence
             (with_last_live_recovery (Some (mkRecovery l (rl_kind r) (rl_evidence_at r) (rl_recovered_at r))) d))).
  { inversion Heff; subst. by simplify_eq. }
  assert (Hd' : d' = with_revision (revision d') m).
  { unfold bump_revision in Hb. by destruct (revision_next (revision m)); simplify_eq. }
  rewrite restore_snapshot. assert (Hvd : validate_snapshot d' = validate_snapshot m)
    by (rewrite Hd'; apply validate_snapshot_revision). rewrite Hvd.
  destruct (Z.leb_spec (pn_reconciled_at (lv_panel_certificate l)) (gw_ready_at (lv_gateway_ready l))).
  - assert (Hok : deployment_ok d).
    { constructor; [done| |by rewrite Hp|done]. intros. by simplify_eq. }
    by rewrite (proj2 (validate_snapshot_Ok m) (effect_snapshot_ok _ _ _ Hok Heff)).
  - destruct (validate_snapshot_err m) as [Hvm|Hvm]; rewrite Hvm; [|done].
    apply validate_snapshot_Ok in Hvm.
    assert (Hr := so_recovery _ Hvm (mkRecovery l (rl_kind r) (rl_evidence_at r) (rl_recovered_at r))).
    rewrite Hm in Hr. specialize (Hr eq_refl). apply snapshot_recovery_valid_iff in Hr as (_ & Hr & _).
    pose proof (po_ready _ _ _ _ Hr). cbn in *. lia.
Qed.

(** A live snapshot with the gateway ready before the panels is restored, and once
    recovered it is not. *)
Lemma recovered_live_restores_iff_ordered_witness :
  let d := early_gateway sample_live in
  let r := mkRecoverLive 10 2 "process" ServingDisconnected 100 100 in
  restore (snapshot d) = Ok d ∧ restore (snapshot (snd (recover_live r d))) = Err InvalidSnapshot.
Proof.
  intros d r. split; [by vm_compute|].
  assert (∃ l, live d = Some l ∧ (pn_reconciled_at (lv_panel_certificate l)
                                  <=? gw_ready_at (lv_gateway_ready l)) = false) as (l & Hl & Hlt)
    by (eexists; split; vm_compute; reflexivity).
  rewrite (recovered_live_restores_iff_ordered (snapshot d) d l r 11 (snd (recover_live r d)));
    [by rewrite Hlt|by vm_compute..|done|by vm_compute].
Defined.
