(* ===== verification/Examples.v ===== *)
(** * The smoke scenarios, and the theorems at work on them

    The documents of [tools/executor-smoke] run through the whole pipeline, and
    concrete instances of the theorems that have hypotheses. *)

From Stdlib Require Import ZArith Lia String.
From stdpp Require Import base decidable list strings gmap numbers sorting list_numbers.
From S2P Require Import Prelude RustStd DiscordModel DesiredState DesiredCompiler DiffEngine.
From S2P Require Import OperationGraph GraphOrder GraphCompile Policy Simulator Resolution.
From S2P Require Import VirtualApply Plan PlanApply PlanSatisfied PlanTotal.
From S2P Require Import Preview Approval Executor ExecutorSpec Pipeline.
Open Scope Z_scope.

(** ** The scenarios *)
Definition default_identity (key : ResourceKey) : Identity :=
  mkIdentity key ByName Managed Present.

Definition simple : DesiredState :=
  mkDesiredState Patch None
    [mkRoleIntent (default_identity "smoke-verified") (Some "starring-smoke-verified")
       (Some perms_empty)]
    [mkChannelIntent (default_identity "smoke-channel") (Some "starring-smoke-channel")
       (Some Text) None
       (Some (mkAccess None [("smoke-verified", mkGrant [View] [])])) None]
    [].

Definition view_send : AccessIntent :=
  mkAccess (Some (mkGrant [] [View])) [("smoke-verified", mkGrant [View; Send] [])].
Definition view_only : AccessIntent :=
  mkAccess (Some (mkGrant [] [View])) [("smoke-verified", mkGrant [View] [])].
Definition community_channel (key name : string) (access : option AccessIntent) : ChannelIntent :=
  mkChannelIntent (default_identity key) (Some name) (Some Text) None access None.

Definition game_community : DesiredState :=
  mkDesiredState Patch None
    [mkRoleIntent (default_identity "smoke-verified") (Some "starring-smoke-인증됨")
       (Some perms_empty)]
    [community_channel "smoke-rules" "starring-smoke-규칙" None;
     community_channel "smoke-verify" "starring-smoke-인증" None;
     community_channel "smoke-general" "starring-smoke-일반" (Some view_send);
     community_channel "smoke-questions" "starring-smoke-질문" (Some view_send);
     community_channel "smoke-party" "starring-smoke-파티모집" (Some view_send);
     community_channel "smoke-notice" "starring-smoke-공지" (Some view_only)]
    [].

Definition no_admin : DesiredState :=
  mkDesiredState Patch None
    [mkRoleIntent (default_identity "smoke-admin") (Some "starring-smoke-admin")
       (Some ADMINISTRATOR)] [] [].

Definition adopted : DesiredState :=
  mkDesiredState Patch None
    [mkRoleIntent (default_identity "smoke-adopted") (Some "starring-smoke-adopted")
       (Some perms_empty)]
    [mkChannelIntent (default_identity "smoke-adopted-channel")
       (Some "starring-smoke-adopted-channel") (Some Text) None
       (Some (mkAccess (Some (mkGrant [] [View]))
                [("smoke-adopted", mkGrant [View; Send] [])])) None]
    [].

Definition scenario (name : string) : DesiredState :=
  if String.eqb name "game-community" then game_community
  else if String.eqb name "no-admin" then no_admin
  else if String.eqb name "adopted" then adopted
  else simple.

(** ** Through the pipeline *)

(** A guild with its role of everyone, one more role and one channel. *)
Definition smoke_guild : GuildState :=
  mkGuildState (mkGuild 1 "guild" 2)
    [mkRole 1 "@everyone" (Z.lor VIEW_CHANNEL SEND_MESSAGES) 0 false;
     mkRole 5 "moderator" KICK_MEMBERS 1 false]
    [mkChannel 6 "lobby" Text None 0 []]
    [mkMember 2 [5]].

Definition normalized_of (d : DesiredState) : NormalizedDesiredState :=
  match compile d with
  | Ok n => n
  | Err _ => mkNormalized (ds_mode d) (ds_scope d) [] [] []
  end.

Definition plan_of (n : NormalizedDesiredState) : OperationGraph :=
  match compile_operations (diff (mkResolver smoke_guild) n) n with
  | Ok graph => graph
  | Err _ => mkGraph []
  end.

Definition community_normalized : NormalizedDesiredState := Eval vm_compute in normalized_of game_community.
Definition community_plan : OperationGraph := Eval vm_compute in plan_of community_normalized.

Definition verdict_of (name : string) : Verdict :=
  decision_verdict (evaluate with_default_rules (plan_of (normalized_of (scenario name)))).

(** The verdicts the smoke tool is run for: everyone loses access in the community
    and adopted scenarios, an administrator role is refused. *)
Example scenario_verdicts :
  verdict_of "simple" = Allow ∧ verdict_of "game-community" = RequireApproval
  ∧ verdict_of "adopted" = RequireApproval ∧ verdict_of "no-admin" = Deny.
Proof. by vm_compute. Qed.

(** ** Instances of the theorems *)
Lemma compile_normalizes_witness :
  compile game_community = Ok community_normalized ∧
  nd_mode community_normalized = ds_mode game_community ∧
  nd_scope community_normalized = ds_scope game_community ∧
  nd_roles community_normalized = normalize_role <$> ds_roles game_community ∧
  nd_verification_panels community_normalized
  = omap normalize_feature (ds_features game_community) ∧
  Forall2 channel_compiled (ds_channels game_community) (nd_channels community_normalized).
Proof.
  split; [by vm_compute|]. apply (compile_normalizes game_community community_normalized).
  by vm_compute.
Defined.

Lemma topological_order_sound_complete_witness :
  match topological_order community_plan with
  | Ok order => is_topological community_plan order
  | Err e => e = DependencyCycle ∧ ∀ order, ¬ is_topological community_plan order
  end.
Proof.
  apply (topological_order_sound_complete community_plan).
  apply (bool_decide_unpack _). by vm_compute.
Defined.

Lemma compile_operations_faithful_witness :
  let d := diff (mkResolver smoke_guild) community_normalized in
  conflicts d = []
  ∧ graph_ids (graph_nodes community_plan)
    = seqZ 0 (Z.of_nat (length (graph_nodes community_plan)))
  ∧ Forall2 (node_built community_normalized) (effective (changes d)) (graph_nodes community_plan)
  ∧ (∀ node dep, node ∈ graph_nodes community_plan →
       dep ∈ node_depends_on node ↔
       dep ≠ node_id node
       ∧ ∃ symbol, symbol ∈ node_consumes node
                   ∧ last_producer (graph_nodes community_plan) symbol dep)
  ∧ ∃ order, topological_order community_plan = Ok order.
Proof.
  apply (compile_operations_faithful (diff (mkResolver smoke_guild) community_normalized)
           community_normalized community_plan); by vm_compute.
Defined.

Lemma effective_permissions_exact_witness :
  Z.testbit (effective_permissions smoke_guild [5] (mkChannel 6 "lobby" Text None 0 [])) 11 = true ↔
  ((∃ rid, rid ∈ guild_id (gs_guild smoke_guild) :: [5] ∧ role_grants smoke_guild rid 3)
   ∧ Z.testbit perms_all 11 = true)
  ∨ ((¬ ∃ rid, rid ∈ guild_id (gs_guild smoke_guild) :: [5] ∧ role_grants smoke_guild rid 3)
     ∧ permitted smoke_guild [5] (mkChannel 6 "lobby" Text None 0 []) 11).
Proof. apply effective_permissions_exact. lia. Defined.

Lemma effective_permissions_set_witness :
  Z.testbit (effective_permissions smoke_guild [5; 9; 5] (mkChannel 6 "lobby" Text None 0 [])) 1
  = Z.testbit (effective_permissions smoke_guild [9; 5] (mkChannel 6 "lobby" Text None 0 [])) 1.
Proof. apply effective_permissions_set; [lia|]. intros rid. rewrite !elem_of_cons. tauto. Defined.

Lemma community_keys_distinct : keys_distinct community_normalized.
Proof. split; apply (bool_decide_unpack _); by vm_compute. Qed.

Lemma community_targets_distinct : targets_distinct community_normalized.
Proof. apply (bool_decide_unpack _). by vm_compute. Qed.

Lemma planned_operations_exact_witness :
  (∀ op, op ∈ graph_operations community_plan ↔
         required (mkResolver smoke_guild) community_normalized op)
  ∧ NoDup (omap creates_role (graph_operations community_plan))
  ∧ NoDup (omap creates_channel (graph_operations community_plan)).
Proof.
  apply (planned_operations_exact (mkResolver smoke_guild) community_normalized
           community_keys_distinct community_targets_distinct community_plan).
  by vm_compute.
Defined.

Lemma topological_order_reference_witness :
  topological_order community_plan = reference_order community_plan.
Proof.
  apply (topological_order_reference community_plan). apply (bool_decide_unpack _). by vm_compute.
Defined.

(** Two categories that are each other's parent: no plan exists. *)
Definition cyclic_normalized : NormalizedDesiredState :=
  normalized_of (mkDesiredState Patch None []
    [mkChannelIntent (default_identity "a") (Some "a") (Some Category) (Some "b") None None;
     mkChannelIntent (default_identity "b") (Some "b") (Some Category) (Some "a") None None] []).

Lemma compile_operations_diff_total_witness :
  (conflicts (diff (mkResolver smoke_guild) cyclic_normalized) ≠ []
   ∧ DependencyCycle
     = DiffHasConflicts
         (Z.of_nat (length (conflicts (diff (mkResolver smoke_guild) cyclic_normalized)))))
  ∨ conflicts (diff (mkResolver smoke_guild) cyclic_normalized) = []
    ∧ DependencyCycle = DependencyCycle ∧ ¬ parents_acyclic cyclic_normalized.
Proof.
  apply (compile_operations_diff_total (mkResolver smoke_guild) cyclic_normalized).
  - split; apply (bool_decide_unpack _); by vm_compute.
  - by vm_compute.
  - by vm_compute.
Defined.

(** The elements of the concrete lists of a normalized document, one by one. *)
Ltac each_element :=
  repeat match goal with
         | H : _ ∈ nd_roles _ |- _ => progress cbn in H
         | H : _ ∈ nd_channels _ |- _ => progress cbn in H
         | H : _ ∈ nc_overwrites _ |- _ => progress cbn in H
         | H : _ ∈ _ :: _ |- _ => apply elem_of_cons in H as [->|H]
         | H : _ ∈ [] |- _ => by apply not_elem_of_nil in H
         end.

(** A new category with a new channel in it, which the verified may see, and the lobby as
    it is. *)
Definition nested : DesiredState :=
  mkDesiredState Patch None
    [mkRoleIntent (default_identity "verified") (Some "verified") (Some perms_empty)]
    [mkChannelIntent (default_identity "lobby") (Some "lobby") (Some Text) None None None;
     mkChannelIntent (default_identity "rooms") (Some "rooms") (Some Category) None None None;
     mkChannelIntent (default_identity "room") (Some "room") (Some Text) (Some "rooms")
       (Some (mkAccess (Some (mkGrant [] [View])) [("verified", mkGrant [View] [])])) None]
    [].
Definition nested_normalized : NormalizedDesiredState := Eval vm_compute in normalized_of nested.
Definition nested_plan : OperationGraph := Eval vm_compute in plan_of nested_normalized.

Lemma nested_unambiguous : unambiguous smoke_guild nested_normalized.
Proof.
  constructor; intros; each_element; try done.
  all: cbn in *; simplify_eq; eexists; split_and!; [by left|done..].
Qed.

Lemma nested_references : references_declared nested_normalized.
Proof.
  constructor; [|intros; each_element; done].
  intros c p Hc Hp. each_element; cbn in Hp; try done. injection Hp as <-.
  eexists. split_and!; [right; by left|done..].
Qed.

Lemma plan_apply_converges_witness :
  length (graph_nodes nested_plan) = 5%nat ∧
  ∃ result, apply smoke_guild nested_plan nested_normalized (mkResolver smoke_guild) = Ok result
    ∧ va_applied result ≡ₚ graph_ids (graph_nodes nested_plan)
    ∧ desired_satisfied (mkResolver (va_after result)) nested_normalized.
Proof.
  split; [by vm_compute|].
  destruct (plan_apply_converges smoke_guild nested_normalized nested_plan)
    as (result & Ha & Hp & _ & _ & Hs).
  - split; apply (bool_decide_unpack _); by vm_compute.
  - split; apply (bool_decide_unpack _); by vm_compute.
  - apply (bool_decide_unpack _). by vm_compute.
  - apply nested_unambiguous.
  - apply nested_references.
  - by vm_compute.
  - by vm_compute.
  - by vm_compute.
  - by vm_compute.
  - exists result. split_and!; [done..|]. apply Hs.
    intros c current Hc _ _ Hres key Hkey. each_element; [done..|].
    vm_compute in Hres. discriminate Hres.
Defined.

(** The community plan, approved once, on an adapter whose fifth call is rate limited. *)
Definition community_request : ApprovedExecutionRequest :=
  mkExecutionRequest community_plan community_normalized
    (run_events [EApprove 7] (approval_new (verdict_of "game-community") 2)) smoke_guild 1 2 [7].
Definition limited_adapter : MockDiscordAdapter :=
  mock_with_failure 5 (mkAdapterError RateLimited "slow down").

Lemma execute_gated_and_stops_witness :
  let '(r, a') := execute community_request limited_adapter in
  match r with
  | Ok job =>
      can_execute (er_approval community_request) = true
      ∧ is_topological (er_operation_graph community_request) (step_op_id <$> job_steps job)
      ∧ run_shape (job_steps job)
          match job_status job with JobSucceeded => false | JobFailed => true end
  | Err NotApproved => a' = limited_adapter ∧ can_execute (er_approval community_request) = false
  | Err ExecGraphCycle =>
      a' = limited_adapter
      ∧ ∀ order, ¬ is_topological (er_operation_graph community_request) order
  end.
Proof.
  apply (execute_gated_and_stops community_request limited_adapter).
  apply (bool_decide_unpack _). by vm_compute.
Defined.

(** On that adapter the execution stops at the fifth step, and the rollback undoes
    the four before it. *)
Example community_execution_stops :
  (job_status <$> fst (execute community_request limited_adapter)) = Ok JobFailed
  ∧ length (mock_calls (snd (execute community_request limited_adapter))) = 5%nat.
Proof. by vm_compute. Qed.

Lemma smoke_refuses_privileged_witness :
  smoke_run 1 smoke_guild no_admin mock_new = (NotExecuting Blocked, mock_new).
Proof.
  apply (smoke_refuses_privileged 1 smoke_guild no_admin (normalized_of no_admin)
           (plan_of (normalized_of no_admin)) mock_new).
  - by vm_compute.
  - by vm_compute.
  - apply (proj1 (default_verdict_exact _ Deny)). by vm_compute.
Defined.

(** The simple scenario creates a role, a channel and an overwrite, and deletes the
    role and the channel again. *)
Example simple_smoke_cleans_up :
  (λ c, match c with
        | CallCreateRole _ _ => 1 | CallCreateChannel _ _ => 2 | CallUpsertOverwrite _ _ _ _ _ => 3
        | CallDeleteChannel _ _ => 4 | CallDeleteRole _ _ => 5 | _ => 0 end)
  <$> mock_calls (snd (smoke_run 1 smoke_guild simple mock_new)) = [1; 2; 3; 4; 5].
Proof. by vm_compute. Qed.

Lemma ids_round_trip_witness : id_deserialize (id_serialize 900001) = Some 900001.
Proof. apply (ids_round_trip 900001). by vm_compute. Defined.
