(* ===== verification/ConvergenceExamples.v ===== *)
(** * Runtime convergence: the guarantees at work

    Concrete instances of the theorems on the deployment machine, on one sample
    deployment: taken live, handed over between two controllers, cancelled, and
    blocked and recovered. *)

From Stdlib Require Import ZArith Lia String.
From stdpp Require Import base decidable list strings.
From S2P Require Import Prelude RustStd DiscordModel ConvergenceTypes Convergence.
From S2P Require Import ConvergenceStep ConvergenceInv ConvergenceSafety.
Open Scope Z_scope.

(** ** Scripts *)
Definition run (cs : list Command) : RuntimeDeployment := snd (run_commands cs sample).
Definition answers (cs : list Command) : list Outcome := fst (run_commands cs sample).

Definition lease_by (controller : ControllerId) (n : DeploymentRevision) (token : FencingToken)
    (now expires : Instant) : Command :=
  CAcquireLease (mkLeaseRequest n controller token now expires).
Definition sample_guard (controller : ControllerId) (n : DeploymentRevision)
    (token : FencingToken) (now : Instant) : CommandGuardV1 := mkGuard n controller token 2 now.
Definition sample_preflight : PreflightAttestationV1 := mkPreflight sample_target 2 None 100.

(** The first controller checks the environment; its lease runs out and the second
    takes over. *)
Definition alice_lease : Command := lease_by "alice" 1 1 100 110.
Definition alice_preflight : Command :=
  CAcceptPreflight (sample_guard "alice" 2 1 105) sample_preflight.
Definition bob_lease : Command := lease_by "bob" 3 2 120 130.
Definition bob_drain : Command := CRequestDrain (sample_guard "bob" 4 2 125).
Definition alice_late : Command := CRequestDrain (sample_guard "alice" 4 1 106).

Definition cancelled : RuntimeDeployment :=
  run [alice_lease; CCancel (sample_guard "alice" 2 1 105) "not needed" 105].

(** Up to a ready runtime, then blocked by a failure. *)
Definition sample_failure : RuntimeFailureV1 :=
  mkFailure "failure-1" GatewayStart "gateway_start" "gateway did not start" 100.
Definition blocking_commands : list Command :=
  take 6 sample_protocol
  ++ [CRecordBlocked (protocol_guard "controller" 1 sample 7) sample_failure].
Definition blocked : RuntimeDeployment := run blocking_commands.
Definition recovery : RecoverBlockedRequestV1 :=
  mkRecoverBlocked 8 "failure-1" "operator" 2 150 160.

Lemma sample_requested : request sample_identity sample_target 2 None 100 = Ok sample.
Proof. done. Qed.

Lemma sample_ok : deployment_ok sample.
Proof. exact (request_ok _ _ _ _ _ _ sample_requested). Qed.

Lemma run_eq cs : run_commands cs sample = (answers cs, run cs).
Proof. unfold answers, run. by destruct (run_commands cs sample). Qed.

(** ** Instances *)
Lemma reachable_deployments_restore_witness :
  restore (snapshot (run sample_protocol)) = Ok (run sample_protocol).
Proof.
  apply (reachable_deployments_restore sample_identity sample_target 2 None 100 sample_protocol
           sample (answers sample_protocol)); [apply sample_requested|apply run_eq].
Defined.

Lemma machine_refines_rules_witness :
  rule alice_lease sample (run [alice_lease]) ∧
  (run_command alice_lease sample = (Ok (Applied 2), run [alice_lease]) ↔
   revision sample < u64_max ∧ 2 = revision (run [alice_lease]) ∧
   rule alice_lease sample (run [alice_lease])).
Proof.
  pose proof (machine_refines_rules sample_identity sample_target 2 None 100 [] sample [] sample
                alice_lease 2 (run [alice_lease]) ltac:(by vm_compute) eq_refl) as H.
  split; [by apply H; vm_compute|exact H].
Defined.

Lemma outcomes_are_honest_witness :
  2 = revision (run [alice_lease]) ∧ revision (run [alice_lease]) = revision sample + 1.
Proof.
  apply (outcomes_are_honest sample_identity sample_target 2 None 100 [] sample [] sample
           alice_lease (Ok (Applied 2)) (run [alice_lease])); by vm_compute.
Defined.

Lemma fencing_orders_controllers_witness :
  fst (run_command alice_late (run [alice_lease; alice_preflight; bob_lease]))
  = Err ControllerMismatch
  ∧ (1 < 2 ∨ (1 = 2 ∧ "alice"%string = "bob"%string)).
Proof.
  split; [by vm_compute|].
  apply (fencing_orders_controllers (run [alice_lease]) alice_preflight 3
           (run [alice_lease; alice_preflight]) (sample_guard "alice" 2 1 105) [bob_lease]
           [Ok (Applied 4)] (run [alice_lease; alice_preflight; bob_lease]) bob_drain 5
           (run [alice_lease; alice_preflight; bob_lease; bob_drain])
           (sample_guard "bob" 4 2 125)); try by vm_compute.
  apply (run_commands_ok [alice_lease] sample (answers [alice_lease]) _ sample_ok), run_eq.
Defined.

Lemma only_the_lease_holder_acts_witness :
  2 = revision (run [alice_lease]) ∧ 2 = runtime_generation (run [alice_lease]) ∧
  ∃ l, controller_lease (run [alice_lease]) = Some l ∧ 105 < lease_expires_at l ∧
       lease_controller_id l = "alice" ∧ lease_fencing_token l = 1.
Proof.
  apply (only_the_lease_holder_acts alice_preflight (run [alice_lease]) 3
           (run [alice_lease; alice_preflight])). by vm_compute.
Defined.

Lemma live_deployments_are_evidenced_witness :
  let d := run sample_protocol in
  ∃ pf dr l, preflight d = Some pf ∧ drain d = Some dr ∧ live d = Some l ∧ live_facts d l ∧
    requested_at d ≤ pf_checked_at pf ≤ dr_drained_at dr ∧
    dr_drained_at dr ≤ at_activated_at (lv_activation l) ∧
    at_activated_at (lv_activation l) ≤ pn_reconciled_at (lv_panel_certificate l) ∧
    pn_reconciled_at (lv_panel_certificate l) ≤ gw_ready_at (lv_gateway_ready l) ∧
    gw_ready_at (lv_gateway_ready l) ≤ lv_certified_at l ∧
    pn_process_instance_id (lv_panel_certificate l) = lv_process_instance_id l ∧
    pn_installed_count (lv_panel_certificate l) + pn_unchanged_count (lv_panel_certificate l)
    = pn_declared_count (lv_panel_certificate l) ∧
    pn_failed_count (lv_panel_certificate l) = 0 ∧ controller_lease d = None.
Proof.
  apply (live_deployments_are_evidenced sample_identity sample_target 2 None 100 sample_protocol
           sample (answers sample_protocol) (run sample_protocol));
    [apply sample_requested|apply run_eq|by vm_compute].
Defined.

Lemma closed_deployments_are_final_witness :
  snd (run_commands [bob_lease; alice_preflight; bob_drain] cancelled) = cancelled.
Proof.
  apply (closed_deployments_are_final [bob_lease; alice_preflight; bob_drain] cancelled
           (fst (run_commands [bob_lease; alice_preflight; bob_drain] cancelled))).
  - by vm_compute.
  - by repeat constructor.
  - by destruct (run_commands [bob_lease; alice_preflight; bob_drain] cancelled).
Defined.

Lemma blocked_deployments_wait_for_recovery_witness :
  ∃ rq, CRecoverBlocked recovery = CRecoverBlocked rq ∧
        rb_expected_failure_id rq = failure_id sample_failure ∧
        phase (snd (recover_blocked recovery blocked)) = PRuntimePending CondReady ∧
        controller_lease (snd (recover_blocked recovery blocked))
        = Some (mkLease (rb_controller_id rq) (rb_fencing_token rq) (rb_now rq)
                        (rb_expires_at rq)).
Proof.
  apply (blocked_deployments_wait_for_recovery sample_identity sample_target 2 None 100
           blocking_commands sample (answers blocking_commands) blocked sample_failure
           (CRecoverBlocked recovery) 9).
  - apply sample_requested.
  - apply run_eq.
  - by vm_compute.
  - done.
  - by vm_compute.
Defined.

Lemma applied_commands_replay_witness :
  run_command alice_lease (run [alice_lease]) = (Ok (Replayed 2), run [alice_lease]).
Proof.
  apply (applied_commands_replay alice_lease sample 2 (run [alice_lease]));
    [apply sample_ok|by vm_compute].
Defined.

Lemma phases_follow_lifecycle_witness :
  let d := run [alice_lease] in let d' := run [alice_lease; alice_preflight] in
  phase d' = phase d ∨ edge (phase_kind (phase d)) (phase_kind (phase d')) = true.
Proof.
  apply (phases_follow_lifecycle alice_preflight (run [alice_lease]) (Ok (Applied 3)));
    [done|by vm_compute].
Defined.

Lemma requested_deployments_can_go_live_witness :
  ∃ d', run_commands (protocol "controller" 1 "process" "certificate" "digest" sample) sample
        = (applied_from 1 (protocol "controller" 1 "process" "certificate" "digest" sample), d')
        ∧ phase d' = PLive.
Proof.
  apply (requested_deployments_can_go_live sample_identity sample_target 2 None 100).
  apply sample_requested.
Defined.
