(* ===== verification/Instance.v ===== *)
(** * Automation instances

    Crate [automation-instance]: what an automation created in a guild, the ids
    it is known by and how they are generated, and the in-memory store with the
    teardown protocol and the paged scan of instances awaiting deletion. The
    asynchronous methods of the store hold its mutex from the first access to
    the last, so each is one function on the stored maps. *)

From Stdlib Require Import ZArith Lia Ascii String.
From stdpp Require Import base decidable list strings gmap numbers sorting.
From S2P Require Import Prelude RustStd RustText DiscordModel.
Open Scope Z_scope.

(** ** Ids and versions *)
Abbreviation InstanceId := string (only parsing).
Abbreviation InstanceRuleSetVersion := Z (only parsing).
Abbreviation InstanceKind := string (only parsing).

Definition MAX_LEN : Z := 32.

Inductive InstanceIdError := IdEmpty | IdTooLong | IdInvalidChar.

Definition id_char (c : ascii) : bool :=
  is_ascii_alphanumeric c || Ascii.eqb c "_" || Ascii.eqb c "-".

(** [InstanceId::parse]; a multi-byte character has a byte that is not an
    [id_char], so looking at bytes is looking at characters. *)
Definition instance_id_parse (value : string) : Result InstanceIdError InstanceId :=
  _ ← ensure (negb (str_is_empty value)) IdEmpty;
  _ ← ensure (str_len value <=? MAX_LEN) IdTooLong;
  _ ← ensure (str_all id_char value) IdInvalidChar;
  Ok value.

Definition instance_id_valid (value : string) : bool :=
  negb (str_is_empty value) && (str_len value <=? MAX_LEN) && str_all id_char value.

Inductive InstanceRuleSetVersionError := VersionZero.

Definition ruleset_version_new (value : Z) : Result InstanceRuleSetVersionError Z :=
  if value =? 0 then Err VersionZero else Ok value.

(** ** Instances *)
Record InstanceMessageRef := mkMessageRef {
  mr_channel : ChannelId;
  mr_id : MessageId
}.

Record InstanceResources := mkResources {
  ir_roles : list (string * RoleId);
  ir_channels : list (string * ChannelId);
  ir_messages : list (string * InstanceMessageRef)
}.

Inductive InstanceStatus := Active | Deleting | Disabled | Deleted.

Record AutomationInstance := mkInstance {
  ai_id : InstanceId;
  ai_guild_id : GuildId;
  ai_ruleset_key : string;
  ai_ruleset_version : InstanceRuleSetVersion;
  ai_kind : InstanceKind;
  ai_created_by : UserId;
  ai_resources : InstanceResources;
  ai_status : InstanceStatus
}.

#[export] Instance InstanceMessageRef_eq_dec : EqDecision InstanceMessageRef.
Proof. solve_decision. Defined.
#[export] Instance InstanceResources_eq_dec : EqDecision InstanceResources.
Proof. solve_decision. Defined.
#[export] Instance InstanceStatus_eq_dec : EqDecision InstanceStatus.
Proof. solve_decision. Defined.
#[export] Instance AutomationInstance_eq_dec : EqDecision AutomationInstance.
Proof. solve_decision. Defined.

Definition set_status (s : InstanceStatus) (i : AutomationInstance) : AutomationInstance :=
  mkInstance (ai_id i) (ai_guild_id i) (ai_ruleset_key i) (ai_ruleset_version i) (ai_kind i)
    (ai_created_by i) (ai_resources i) s.

(** ** Generators *)
Inductive InstanceIdGenerationError :=
| GenInvalid (e : InstanceIdError)
| GenEntropy.

(** The trait [InstanceIdGenerator], over the generator's own state. *)
Class InstanceIdGenerator (G : Type) :=
  generate : Cmd G InstanceIdGenerationError InstanceId.

Record SequenceInstanceIdGenerator := mkSequence {
  sg_prefix : string;
  sg_next : Z
}.

(** [{:03}]: a number padded with zeros to three digits. *)
Fixpoint zeros (n : nat) (s : string) : string :=
  match n with O => s | S k => String "0" (zeros k s) end.
Definition pad3 (s : string) : string := zeros (3 - String.length s) s.

Definition sequence_generate : Cmd SequenceInstanceIdGenerator InstanceIdGenerationError InstanceId :=
  λ g, (map_err GenInvalid
          (instance_id_parse (sg_prefix g +:+ "_" +:+ pad3 (print_u64 (sg_next g)))%string),
        mkSequence (sg_prefix g) (u64_wrapping_add (sg_next g) 1)).

#[export] Instance SequenceGenerator : InstanceIdGenerator SequenceInstanceIdGenerator :=
  sequence_generate.

Definition SECURE_INSTANCE_ID_ALPHABET : string := "0123456789abcdefghjkmnpqrstvwxyz".

(** A [u16] shift drops the bits beyond the width. *)
Definition u16_shl (n k : Z) : Z := Z.shiftl n k mod 65536.

Definition alphabet_char (index : Z) : ascii :=
  match String.get (Z.to_nat index) SECURE_INSTANCE_ID_ALPHABET with
  | Some c => c
  | None => "0"
  end.

(** The inner [while] takes five bits at a time; the number of buffered bits is
    its fuel. *)
Fixpoint take_quintets (fuel : nat) (encoded : list Z) (buffer bits : Z) : list Z * Z * Z :=
  match fuel with
  | O => (encoded, buffer, bits)
  | S fuel' =>
      if 5 <=? bits then
        let bits' := bits - 5 in
        let index := Z.land (Z.shiftr buffer bits') 31 in
        take_quintets fuel' (encoded ++ [index])
          (Z.land buffer ((u16_shl 1 bits' - 1) mod 65536)) bits'
      else (encoded, buffer, bits)
  end.

(** One turn of the [for] loop. *)
Definition encode_byte (st : list Z * Z * Z) (byte : Z) : list Z * Z * Z :=
  let '(encoded, buffer, bits) := st in
  let buffer' := Z.lor (u16_shl buffer 8) byte in
  let bits' := bits + 8 in
  take_quintets (Z.to_nat bits') encoded buffer' bits'.

Definition encode_quintets (entropy : list Z) : list Z :=
  (foldl encode_byte ([], 0, 0) entropy).1.1.

Definition encode_secure_instance_id (entropy : list Z) : string :=
  string_of_list_ascii (map alphabet_char (encode_quintets entropy)).

(** [getrandom::fill] is the parameter [fill]: [None] when the system has no
    entropy, otherwise the bytes it wrote. *)
Definition secure_generate {W} (fill : W → option (list Z) * W)
  : Cmd W InstanceIdGenerationError InstanceId :=
  λ w, let (entropy, w') := fill w in
       match entropy with
       | None => (Err GenEntropy, w')
       | Some bytes =>
           (map_err GenInvalid (instance_id_parse ("i_" +:+ encode_secure_instance_id bytes)%string), w')
       end.

(** ** The store *)
Inductive InstanceStoreError :=
| DuplicateInstance
| NotFound
| TimedOut
| Backend (message : string).

Abbreviation InstanceTable := (list (InstanceId * AutomationInstance)) (only parsing).

(** [InMemoryInstanceStore]: per guild, the instances by id, both in key order. *)
Definition InMemoryInstanceStore : Type := list (GuildId * InstanceTable).

(** [guilds.get(&guild_id).and_then(|entries| entries.get(instance_id))]. *)
Definition store_find (st : InMemoryInstanceStore) (g : GuildId) (i : InstanceId)
  : option AutomationInstance :=
  entries ← bt_get st g; bt_get entries i.

(** Assignment through the reference [get_mut] returned. *)
Definition store_set (g : GuildId) (i : InstanceId) (v : AutomationInstance)
    (st : InMemoryInstanceStore) : InMemoryInstanceStore :=
  bt_upsert (λ entries, bt_insert i v (default [] entries)) g st.

Definition StoreCmd (A : Type) : Type := Cmd InMemoryInstanceStore InstanceStoreError A.

(** [guilds.entry(g).or_default()] leaves an empty table behind when the id is
    taken, which it can only be in a table that exists. *)
Definition register (instance : AutomationInstance) : StoreCmd unit :=
  λ st,
  let st' := bt_upsert (default []) (ai_guild_id instance) st in
  if is_some (store_find st' (ai_guild_id instance) (ai_id instance))
  then (Err DuplicateInstance, st')
  else (Ok tt, store_set (ai_guild_id instance) (ai_id instance) instance st').

Definition get (g : GuildId) (i : InstanceId) : StoreCmd (option AutomationInstance) :=
  λ st, (Ok (store_find st g i), st).

Definition list_by_guild (g : GuildId) : StoreCmd (list AutomationInstance) :=
  λ st, (Ok (default [] (bt_get st g)).*2, st).

Definition update_status (g : GuildId) (i : InstanceId) (status : InstanceStatus) : StoreCmd unit :=
  λ st, match store_find st g i with
        | None => (Err NotFound, st)
        | Some instance => (Ok tt, store_set g i (set_status status instance) st)
        end.

(** [transition_to_deleting] and [mark_deleted] filter on the current status. *)
Definition transition_from (from to : InstanceStatus) (g : GuildId) (i : InstanceId) : StoreCmd unit :=
  λ st, match store_find st g i with
        | Some instance =>
            if bool_decide (ai_status instance = from)
            then (Ok tt, store_set g i (set_status to instance) st)
            else (Err NotFound, st)
        | None => (Err NotFound, st)
        end.

Definition transition_to_deleting : GuildId → InstanceId → StoreCmd unit :=
  transition_from Active Deleting.
Definition mark_deleted : GuildId → InstanceId → StoreCmd unit :=
  transition_from Deleting Deleted.

Definition is_deleting (instance : AutomationInstance) : bool :=
  bool_decide (ai_status instance = Deleting).

Definition list_deleting (g : GuildId) : StoreCmd (list AutomationInstance) :=
  λ st, (Ok (filter (λ i, is_deleting i) (default [] (bt_get st g)).*2), st).

(** *** The teardown protocol *)
Inductive InstanceTeardownClaimOutcomeV1 := Claimed | AlreadyDeleting | ClaimAlreadyDeleted.
Inductive InstanceTeardownMarkOutcomeV1 := MarkedDeleted | MarkAlreadyDeleted.

Definition claim_deleting_v1 (g : GuildId) (i : InstanceId)
  : StoreCmd InstanceTeardownClaimOutcomeV1 :=
  λ st, match store_find st g i with
        | None => (Err NotFound, st)
        | Some instance =>
            match ai_status instance with
            | Active | Disabled => (Ok Claimed, store_set g i (set_status Deleting instance) st)
            | Deleting => (Ok AlreadyDeleting, st)
            | Deleted => (Ok ClaimAlreadyDeleted, st)
            end
        end.

Definition mark_deleted_v1 (g : GuildId) (i : InstanceId)
  : StoreCmd InstanceTeardownMarkOutcomeV1 :=
  λ st, match store_find st g i with
        | None => (Err NotFound, st)
        | Some instance =>
            match ai_status instance with
            | Deleting => (Ok MarkedDeleted, store_set g i (set_status Deleted instance) st)
            | Deleted => (Ok MarkAlreadyDeleted, st)
            | Active | Disabled => (Err NotFound, st)
            end
        end.

Definition MAX_INSTANCE_TEARDOWN_RETRY_BATCH_V1 : nat := 256.
Definition MAX_INSTANCE_TEARDOWN_RETRY_SCAN_BATCH_V2 : nat := 256.

Definition list_retryable_v1 (g : GuildId) (limit : nat) : StoreCmd (list AutomationInstance) :=
  λ st,
  if bool_decide (MAX_INSTANCE_TEARDOWN_RETRY_BATCH_V1 < limit)%nat
  then (Err (Backend "instance_teardown_retry_batch_invalid"), st)
  else (Ok (take limit (filter (λ i, is_deleting i) (default [] (bt_get st g)).*2)), st).

(** *** The paged scan *)
Record InstanceTeardownRetryKeyV2 := mkRetryKey {
  rk_guild_id : GuildId;
  rk_instance_id : InstanceId
}.

#[export] Instance InstanceTeardownRetryKeyV2_eq_dec : EqDecision InstanceTeardownRetryKeyV2.
Proof. solve_decision. Defined.

Definition retry_key_new (g : GuildId) (i : InstanceId) : option InstanceTeardownRetryKeyV2 :=
  if g =? 0 then None else Some (mkRetryKey g i).

(** Guild ids compare by their decimal text, as the database collates them. *)
Definition cmp_c_v2 (a b : InstanceTeardownRetryKeyV2) : comparison :=
  cmp (print_u64 (rk_guild_id a), rk_instance_id a) (print_u64 (rk_guild_id b), rk_instance_id b).

Record InstanceTeardownRetryScanCursorV2 := mkCursor {
  cu_after : option InstanceTeardownRetryKeyV2;
  cu_through : option InstanceTeardownRetryKeyV2
}.

Definition cursor_initial : InstanceTeardownRetryScanCursorV2 := mkCursor None None.

Definition cursor_continue_after (after through : InstanceTeardownRetryKeyV2)
  : option InstanceTeardownRetryScanCursorV2 :=
  match cmp_c_v2 after through with
  | Lt => Some (mkCursor (Some after) (Some through))
  | _ => None
  end.

Record InstanceTeardownRetryScanPageV2 := mkPage {
  pg_keys : list InstanceTeardownRetryKeyV2;
  pg_through : option InstanceTeardownRetryKeyV2
}.

(** [keys.windows(2).any(|pair| pair[0].cmp_c_v2(&pair[1]) != Less)]. *)
Fixpoint out_of_order (keys : list InstanceTeardownRetryKeyV2) : bool :=
  match keys with
  | a :: ((b :: _) as rest) =>
      match cmp_c_v2 a b with Lt => out_of_order rest | _ => true end
  | _ => false
  end.

Definition key_gt (a b : InstanceTeardownRetryKeyV2) : bool :=
  match cmp_c_v2 a b with Gt => true | _ => false end.

Definition page_new (keys : list InstanceTeardownRetryKeyV2)
    (through : option InstanceTeardownRetryKeyV2) (limit : nat)
  : option InstanceTeardownRetryScanPageV2 :=
  if bool_decide (MAX_INSTANCE_TEARDOWN_RETRY_SCAN_BATCH_V2 < limit)%nat
     || bool_decide (limit < length keys)%nat
     || out_of_order keys
     || existsb (λ key, is_none_or (key_gt key) through) keys
     || (negb (bool_decide (keys = [])) && bool_decide (through = None))
  then None
  else Some (mkPage keys through).

Definition next_cursor_v2 (p : InstanceTeardownRetryScanPageV2)
  : option InstanceTeardownRetryScanCursorV2 :=
  key ← last (pg_keys p);
  through ← pg_through p;
  cursor_continue_after key through.

(** Every key awaiting deletion, guild by guild; [None] is the panic of
    [unwrap] on a guild without an id. *)
Definition deleting_keys (st : InMemoryInstanceStore) : option (list InstanceTeardownRetryKeyV2) :=
  mapM (λ '(g, i), retry_key_new g i)
    (st ≫= λ '(g, entries), (λ instance, (g, ai_id instance)) <$>
                              filter (λ i, is_deleting i) entries.*2).

Definition key_le (a b : InstanceTeardownRetryKeyV2) : Prop := cmp_c_v2 a b ≠ Gt.
#[export] Instance key_le_dec a b : Decision (key_le a b).
Proof. unfold key_le. solve_decision. Defined.

(** Which keys a cursor has yet to see, up to [through]. *)
Definition in_window (cursor : InstanceTeardownRetryScanCursorV2)
    (through : option InstanceTeardownRetryKeyV2) (key : InstanceTeardownRetryKeyV2) : bool :=
  is_none_or (key_gt key) (cu_after cursor)
  && is_some_and (λ t, negb (key_gt key t)) through.

Definition scan_retryable_v2 (cursor : InstanceTeardownRetryScanCursorV2) (limit : nat)
    (st : InMemoryInstanceStore)
  : option (Result InstanceStoreError InstanceTeardownRetryScanPageV2) :=
  if bool_decide (MAX_INSTANCE_TEARDOWN_RETRY_SCAN_BATCH_V2 < limit)%nat
  then Some (Err (Backend "instance_teardown_retry_scan_batch_invalid"))
  else
    found ← deleting_keys st;
    let deleting := merge_sort key_le found in
    let through := match cu_through cursor with Some t => Some t | None => last deleting end in
    let keys := take limit (filter (λ k, in_window cursor through k) deleting) in
    Some (ok_or (page_new keys through limit) (Backend "instance_teardown_retry_scan_corrupt")).

(** ** Generated instance ids

    The secure generator writes fifteen random bytes as twenty-four base-32
    digits through a [u16] buffer. The buffer loop is compared with the
    positional value of its input: no bit is lost, so two ids are equal only
    when the entropy was, and every id passes [InstanceId::parse]. *)

(** The value of a list of digits, most significant first. *)
Definition digits_value (base : Z) (ds : list Z) : Z := foldl (λ a d, a * base + d) 0 ds.

Abbreviation in_base b := (λ d : Z, 0 ≤ d < b).

Lemma digits_value_snoc b ds d : digits_value b (ds ++ [d]) = digits_value b ds * b + d.
Proof. unfold digits_value. by rewrite foldl_snoc. Qed.

Lemma digits_value_nonneg b ds : 0 < b → Forall (in_base b) ds → 0 ≤ digits_value b ds.
Proof.
  intros Hb. induction ds as [|d ds IH] using rev_ind; [done|].
  rewrite Forall_app, Forall_singleton, digits_value_snoc. intros [H1 H2].
  specialize (IH H1). nia.
Qed.

(** Digits of the same number are the same. *)
Lemma digits_value_inj b ds es :
  0 < b → Forall (in_base b) ds → Forall (in_base b) es → length ds = length es →
  digits_value b ds = digits_value b es → ds = es.
Proof.
  intros Hb. revert es. induction ds as [|d ds IH] using rev_ind; intros es Hd He Hl Hv.
  { by destruct es. }
  destruct es as [|e es _] using rev_ind; [rewrite length_app in Hl; cbn in Hl; lia|].
  rewrite !digits_value_snoc in Hv. rewrite !length_app in Hl. cbn in Hl.
  rewrite Forall_app, Forall_singleton in Hd, He. destruct Hd as [Hd Hd1], He as [He He1].
  assert (d = e) as ->.
  { cbv beta in *. rewrite <- (Z.mod_small d b), <- (Z.mod_small e b) by lia.
    rewrite <- (Z.mod_add d (digits_value b ds) b), <- (Z.mod_add e (digits_value b es) b) by lia.
    f_equal. lia. }
  f_equal. apply IH; [done|done|lia|nia].
Qed.

(** *** The buffer loop *)
Lemma u16_mask k : 0 ≤ k < 16 → (u16_shl 1 k - 1) mod 65536 = Z.ones k.
Proof.
  intros Hk. unfold u16_shl. rewrite Z.shiftl_1_l, Z.ones_equiv.
  assert (2 ^ k < 2 ^ 16) by (apply Z.pow_lt_mono_r; lia).
  assert (0 < 2 ^ k) by (apply Z.pow_pos_nonneg; lia).
  change 65536 with (2 ^ 16). rewrite (Z.mod_small (2 ^ k)) by lia. rewrite Z.mod_small; lia.
Qed.

(** A state of the loop holds the bits read and not yet written. *)
Definition buffered (value : Z) (st : list Z * Z * Z) : Prop :=
  let '(encoded, buffer, bits) := st in
  Forall (in_base 32) encoded ∧ 0 ≤ bits ∧ 0 ≤ buffer < 2 ^ bits ∧
  value = digits_value 32 encoded * 2 ^ bits + buffer.

Definition bit_count (st : list Z * Z * Z) : Z :=
  let '(encoded, _, bits) := st in 5 * Z.of_nat (length encoded) + bits.

Lemma take_quintets_spec fuel encoded buffer bits value :
  buffered value (encoded, buffer, bits) → bits < 16 → bits < 5 * Z.of_nat fuel + 5 →
  let st := take_quintets fuel encoded buffer bits in
  buffered value st ∧ st.2 < 5 ∧ bit_count st = bit_count (encoded, buffer, bits).
Proof.
  revert encoded buffer bits. induction fuel as [|fuel IH]; intros encoded buffer bits Hb H16 Hf.
  { cbn. split; [done|]. split; [lia|done]. }
  cbn [take_quintets]. destruct (Z.leb_spec 5 bits) as [H5|H5]; [|by split_and!].
  destruct Hb as (Henc & H0 & Hbuf & Hval).
  assert (2 ^ bits = 32 * 2 ^ (bits - 5)) as Hpow.
  { change 32 with (2 ^ 5). rewrite <- Z.pow_add_r by lia. f_equal. lia. }
  assert (0 < 2 ^ (bits - 5)) as Hpos by (apply Z.pow_pos_nonneg; lia).
  assert (0 ≤ buffer / 2 ^ (bits - 5) < 32) as Hq.
  { split; [apply Z.div_pos; lia|apply Z.div_lt_upper_bound; lia]. }
  rewrite Z.shiftr_div_pow2 by lia. change 31 with (Z.ones 5). rewrite Z.land_ones by lia.
  rewrite (Z.mod_small (buffer / _)) by done. rewrite u16_mask by lia.
  rewrite Z.land_ones by lia.
  pose proof (Z.div_mod buffer (2 ^ (bits - 5)) ltac:(lia)) as Hdm.
  pose proof (Z.mod_pos_bound buffer (2 ^ (bits - 5)) Hpos) as Hm.
  destruct (IH (encoded ++ [buffer / 2 ^ (bits - 5)]) (buffer mod 2 ^ (bits - 5)) (bits - 5))
    as (IH1 & IH2 & IH3); [|lia|lia|].
  - split_and!; [|lia|lia|lia|].
    + by apply Forall_app; split; [|constructor].
    + rewrite digits_value_snoc. nia.
  - split_and!; [done|done|]. rewrite IH3. cbn. rewrite length_app. cbn. lia.
Qed.

Lemma encode_byte_spec value st byte :
  buffered value st → st.2 < 5 → 0 ≤ byte < 256 →
  buffered (value * 256 + byte) (encode_byte st byte) ∧ (encode_byte st byte).2 < 5 ∧
  bit_count (encode_byte st byte) = bit_count st + 8.
Proof.
  destruct st as [[encoded buffer] bits]. intros (Henc & H0 & Hbuf & Hval) H5 Hbyte.
  cbn [snd] in H5. cbn [encode_byte].
  assert (2 ^ bits ≤ 16) by (change 16 with (2 ^ 4); apply Z.pow_le_mono_r; lia).
  assert (2 ^ (bits + 8) = 256 * 2 ^ bits) as Hpow.
  { rewrite Z.pow_add_r by lia. lia. }
  assert (Z.lor (u16_shl buffer 8) byte = buffer * 256 + byte) as ->.
  { unfold u16_shl. rewrite Z.shiftl_mul_pow2 by lia. change (2 ^ 8) with 256.
    rewrite Z.mod_small by lia. symmetry. rewrite Z.add_nocarry_lor; [done|].
    apply Z.bits_inj'. intros n Hn. rewrite Z.land_spec, Z.bits_0.
    change 256 with (2 ^ 8). destruct (Z.lt_ge_cases n 8).
    - rewrite Z.mul_pow2_bits_low by done. done.
    - replace byte with (byte mod 2 ^ 8) by (apply Z.mod_small; lia).
      rewrite Z.mod_pow2_bits_high by lia. apply andb_false_r. }
  destruct (take_quintets_spec (Z.to_nat (bits + 8)) encoded (buffer * 256 + byte) (bits + 8)
    (value * 256 + byte)) as (R1 & R2 & R3); [|lia|lia|].
  - split_and!; [done|lia|lia|lia|]. nia.
  - split_and!; [done|done|]. rewrite R3. cbn. lia.
Qed.

Lemma encode_bytes_spec bytes value st :
  buffered value st → st.2 < 5 → Forall (in_base 256) bytes →
  buffered (foldl (λ a d, a * 256 + d) value bytes) (foldl encode_byte st bytes) ∧
  bit_count (foldl encode_byte st bytes) = bit_count st + 8 * Z.of_nat (length bytes) ∧
  (foldl encode_byte st bytes).2 < 5.
Proof.
  revert value st. induction bytes as [|b bytes IH]; intros value st Hst H5 Hb.
  { cbn. split_and!; [done|lia|done]. }
  apply Forall_cons_1 in Hb as [Hb Hbs].
  destruct (encode_byte_spec value st b Hst H5 Hb) as (E1 & E2 & E3).
  destruct (IH _ _ E1 E2 Hbs) as (R1 & R2 & R3). cbn [foldl length].
  split_and!; [done|rewrite R2, E3; lia|done].
Qed.

(** The digits are the base-32 writing of the entropy. *)
Lemma encode_quintets_value bytes :
  length bytes = 15%nat → Forall (in_base 256) bytes →
  length (encode_quintets bytes) = 24%nat ∧ Forall (in_base 32) (encode_quintets bytes) ∧
  digits_value 32 (encode_quintets bytes) = digits_value 256 bytes.
Proof.
  intros Hl Hb. destruct (encode_bytes_spec bytes 0 ([], 0, 0)) as (E1 & E2 & E3); [|cbn; lia|done|].
  { by split_and!; [constructor|..]. }
  unfold encode_quintets. rewrite Hl in E2. change (foldl _ 0 bytes) with (digits_value 256 bytes) in E1.
  destruct (foldl encode_byte ([], 0, 0) bytes) as [[encoded buffer] bits].
  destruct E1 as (F1 & F2 & F3 & F4). cbn [fst snd bit_count length] in *.
  assert (bits = 0) as -> by lia. change (2 ^ 0) with 1 in *.
  split_and!; [lia|done|lia].
Qed.

(** *** The text of an id *)
Lemma alphabet_chars d : 0 ≤ d < 32 →
  id_char (alphabet_char d) = true ∧
  ∀ e, 0 ≤ e < 32 → alphabet_char d = alphabet_char e → d = e.
Proof.
  intros Hd. assert (∀ n, n < 32 → ∀ m, m < 32 →
    id_char (alphabet_char (Z.of_nat n)) &&
    (bool_decide (alphabet_char (Z.of_nat n) ≠ alphabet_char (Z.of_nat m)) || (n =? m))%nat = true)%nat as H.
  { assert (forallb (λ n, forallb (λ m, id_char (alphabet_char (Z.of_nat n)) &&
      (bool_decide (alphabet_char (Z.of_nat n) ≠ alphabet_char (Z.of_nat m)) || (n =? m))%nat)
      (seq 0 32)) (seq 0 32) = true) as H by by vm_compute.
    intros n Hn m Hm. rewrite forallb_forall in H.
    specialize (H n ltac:(apply in_seq; lia)). rewrite forallb_forall in H.
    apply (H m). apply in_seq. lia. }
  split.
  - specialize (H (Z.to_nat d) ltac:(lia) 0%nat ltac:(lia)). rewrite Z2Nat.id in H by lia.
    by apply andb_true_iff in H as [? _].
  - intros e He Heq. specialize (H (Z.to_nat d) ltac:(lia) (Z.to_nat e) ltac:(lia)).
    rewrite !Z2Nat.id in H by lia. apply andb_true_iff in H as [_ H].
    apply orb_true_iff in H as [H%bool_decide_eq_true|H%Nat.eqb_eq]; [done|lia].
Qed.

Lemma str_all_list P l : str_all P (string_of_list_ascii l) = forallb P l.
Proof. induction l as [|c l IH]; cbn; [done|]. by rewrite IH. Qed.

Lemma str_len_list l : str_len (string_of_list_ascii l) = Z.of_nat (length l).
Proof. unfold str_len. f_equal. induction l; cbn; congruence. Qed.

Lemma string_of_list_inj l l' : string_of_list_ascii l = string_of_list_ascii l' → l = l'.
Proof.
  intros H. apply (f_equal list_ascii_of_string) in H.
  by rewrite !list_ascii_of_string_of_list_ascii in H.
Qed.

Lemma alphabet_text_inj ds es :
  Forall (in_base 32) ds → Forall (in_base 32) es →
  map alphabet_char ds = map alphabet_char es → ds = es.
Proof.
  intros Hd. revert es. induction Hd as [|d ds Hd Hds IH]; intros [|e es] He; cbn; try done.
  apply Forall_cons_1 in He as [He Hes]. intros [= H1 H2]. f_equal; [|by apply IH].
  by apply (proj2 (alphabet_chars d Hd)).
Qed.

Lemma instance_id_parse_spec s :
  instance_id_parse s = Ok s ↔ instance_id_valid s = true.
Proof.
  unfold instance_id_parse, instance_id_valid.
  destruct (negb (str_is_empty s)), (str_len s <=? MAX_LEN), (str_all id_char s); cbn; naive_solver.
Qed.

(** Fifteen bytes give a text of 26 characters that parses, and different bytes
    give different texts. *)
Lemma secure_ids_valid_and_distinct bytes bytes' :
  length bytes = 15%nat → Forall (in_base 256) bytes →
  length bytes' = 15%nat → Forall (in_base 256) bytes' →
  let text b := ("i_" +:+ encode_secure_instance_id b)%string in
  str_len (text bytes) = 26 ∧ instance_id_parse (text bytes) = Ok (text bytes) ∧
  (text bytes = text bytes' → bytes = bytes').
Proof.
  intros Hl Hb Hl' Hb' text.
  destruct (encode_quintets_value bytes Hl Hb) as (L & D & V).
  destruct (encode_quintets_value bytes' Hl' Hb') as (L' & D' & V').
  assert (str_len (text bytes) = 26) as Hlen.
  { unfold text, encode_secure_instance_id.
    change (str_len (_ +:+ _)%string) with (Z.of_nat (S (S (String.length
      (string_of_list_ascii (map alphabet_char (encode_quintets bytes))))))).
    pose proof (str_len_list (map alphabet_char (encode_quintets bytes))) as H.
    unfold str_len in H. rewrite length_map, L in H. lia. }
  split_and!; [done| |].
  - apply instance_id_parse_spec. unfold instance_id_valid. rewrite Hlen.
    apply andb_true_iff. split; [done|].
    change (str_all id_char (encode_secure_instance_id bytes) = true).
    unfold encode_secure_instance_id. rewrite str_all_list. apply forallb_forall.
    intros c (d & <- & Hd)%in_map_iff. rewrite Forall_forall in D.
    apply list_elem_of_In in Hd. exact (proj1 (alphabet_chars d (D d Hd))).
  - unfold text. intros [= H%string_of_list_inj]. apply alphabet_text_inj in H; [|done..].
    apply (digits_value_inj 256); [lia|done|done|congruence|congruence].
Qed.

(** C33: The secure generator fails only when the system has no entropy; otherwise
    its id is valid, has 26 characters, and two calls return the same id only when
    they drew the same bytes. *)
Theorem secure_generate_valid_injective {W} (fill : W → option (list Z) * W) w1 w2 :
  (∀ w bytes w', fill w = (Some bytes, w') → length bytes = 15%nat ∧ Forall (in_base 256) bytes) →
  (∀ e w', secure_generate fill w1 = (Err e, w') → e = GenEntropy ∧ (fill w1).1 = None) ∧
  (∀ id w', secure_generate fill w1 = (Ok id, w') → instance_id_valid id = true ∧ str_len id = 26) ∧
  (∀ id w1' w2', secure_generate fill w1 = (Ok id, w1') → secure_generate fill w2 = (Ok id, w2') →
     (fill w1).1 = (fill w2).1).
Proof.
  intros Hfill.
  assert (∀ w bytes w', fill w = (Some bytes, w') →
    secure_generate fill w = (Ok ("i_" +:+ encode_secure_instance_id bytes)%string, w')) as Hgen.
  { intros w bytes w' Hw. destruct (Hfill _ _ _ Hw) as [Hl Hb]. unfold secure_generate. rewrite Hw.
    by rewrite (proj1 (proj2 (secure_ids_valid_and_distinct bytes bytes Hl Hb Hl Hb))). }
  assert (∀ w w', fill w = (None, w') → secure_generate fill w = (Err GenEntropy, w')) as Hnone.
  { intros w w' Hw. unfold secure_generate. by rewrite Hw. }
  destruct (fill w1) as [[b1|] v1] eqn:E1;
    [rewrite (Hgen _ _ _ E1)|rewrite (Hnone _ _ E1); naive_solver].
  destruct (Hfill _ _ _ E1) as [Hl1 Hb1].
  destruct (secure_ids_valid_and_distinct b1 b1 Hl1 Hb1 Hl1 Hb1) as (L1 & P1 & _).
  split_and!; [done| |].
  - intros id w' [= <- _]. split; [by apply instance_id_parse_spec|done].
  - intros id w1' w2' [= <- _]. destruct (fill w2) as [[b2|] v2] eqn:E2;
      [rewrite (Hgen _ _ _ E2)|by rewrite (Hnone _ _ E2)].
    destruct (Hfill _ _ _ E2) as [Hl2 Hb2]. intros H. cbn. f_equal.
    symmetry. apply (secure_ids_valid_and_distinct b2 b1 Hl2 Hb2 Hl1 Hb1). congruence.
Qed.

(** A source of entropy for the witness: a counter repeated. *)
Definition counter_fill (n : Z) : option (list Z) * Z :=
  (Some (repeat (n mod 256) 15), n + 1).

Lemma secure_generate_valid_injective_witness :
  ∃ id w', secure_generate counter_fill 7 = (Ok id, w') ∧ instance_id_valid id = true ∧ str_len id = 26.
Proof.
  eexists _, _. split; [vm_compute; reflexivity|].
  eapply (secure_generate_valid_injective counter_fill 7 8); [|vm_compute; reflexivity].
  intros w bytes w' [= <- _]. split; [reflexivity|].
  pose proof (Z.mod_pos_bound w 256). repeat constructor; lia.
Defined.
