(* ===== verification/InstanceStore.v ===== *)
(** * The in-memory instance store against a map

    The store keeps two nested ordered maps. Here every operation of it is shown
    to be an operation on one finite map from guild and id to instance, with the
    listings in id order; the teardown protocol, stated as a class, holds of the
    store. *)

From Stdlib Require Import ZArith Lia Ascii String.
From stdpp Require Import base decidable list strings gmap numbers sorting.
From S2P Require Import Prelude RustStd RustText Instance.
Open Scope Z_scope.

(** ** Well-formed stores *)
Definition table_wf (g : Z) (entries : list (string * AutomationInstance)) : Prop :=
  bt_sorted entries ∧
  ∀ i v, bt_get entries i = Some v → ai_id v = i ∧ ai_guild_id v = g.

Definition store_wf (st : InMemoryInstanceStore) : Prop :=
  bt_sorted st ∧ ∀ g entries, bt_get st g = Some entries → table_wf g entries.

Lemma store_wf_empty : store_wf [].
Proof. split; [constructor|done]. Qed.

Lemma table_wf_empty g : table_wf g [].
Proof. split; [constructor|done]. Qed.

Lemma store_table_wf st g : store_wf st → table_wf g (default [] (bt_get st g)).
Proof.
  intros [_ Hst]. destruct (bt_get st g) eqn:E; [by apply Hst|apply table_wf_empty].
Qed.

Lemma table_wf_insert g i v entries :
  table_wf g entries → ai_id v = i → ai_guild_id v = g → table_wf g (bt_insert i v entries).
Proof.
  intros [Hs He] Hi Hg. split; [by apply bt_upsert_sorted|]. unfold bt_insert. intros j w.
  destruct (decide (i = j)) as [<-|Hne].
  - rewrite bt_get_upsert_eq by done. intros [= <-]. done.
  - rewrite bt_get_upsert_ne by done. apply He.
Qed.

Lemma upsert_wf f g st :
  store_wf st → table_wf g (f (bt_get st g)) → store_wf (bt_upsert f g st).
Proof.
  intros [Hs He] Hf. split; [by apply bt_upsert_sorted|]. intros g' entries.
  destruct (decide (g = g')) as [<-|Hne].
  - rewrite bt_get_upsert_eq by done. by intros [= <-].
  - rewrite bt_get_upsert_ne by done. apply He.
Qed.

Lemma store_set_wf g i v st :
  store_wf st → ai_id v = i → ai_guild_id v = g → store_wf (store_set g i v st).
Proof.
  intros Hst Hi Hg. apply upsert_wf; [done|]. apply table_wf_insert; [|done|done].
  by apply store_table_wf.
Qed.

Lemma store_find_default st g i :
  store_find st g i = bt_get (default [] (bt_get st g)) i.
Proof. unfold store_find. by destruct (bt_get st g). Qed.

Lemma store_find_set g i v st g' i' : store_wf st →
  store_find (store_set g i v st) g' i' =
  if decide ((g, i) = (g', i')) then Some v else store_find st g' i'.
Proof.
  intros Hst. rewrite !store_find_default. unfold store_set.
  destruct (decide (g = g')) as [<-|Hg].
  - rewrite bt_get_upsert_eq by apply Hst. cbn. unfold bt_insert.
    destruct (decide (i = i')) as [<-|Hi].
    + rewrite bt_get_upsert_eq by by apply store_table_wf. by rewrite decide_True.
    + rewrite bt_get_upsert_ne by done. rewrite decide_False; [done|congruence].
  - rewrite bt_get_upsert_ne by done. rewrite decide_False; [done|congruence].
Qed.

Lemma store_find_touch g st g' i' : store_wf st →
  store_find (bt_upsert (default []) g st) g' i' = store_find st g' i'.
Proof.
  intros Hst. rewrite !store_find_default. destruct (decide (g = g')) as [<-|Hg].
  - by rewrite bt_get_upsert_eq by apply Hst.
  - by rewrite bt_get_upsert_ne by done.
Qed.

Lemma store_find_ids st g i v :
  store_wf st → store_find st g i = Some v → ai_id v = i ∧ ai_guild_id v = g.
Proof.
  intros Hst. rewrite store_find_default. apply store_table_wf. done.
Qed.

(** ** The store as a finite map *)
Abbreviation InstanceMap := (gmap (Z * string) AutomationInstance).

Definition represents (st : InMemoryInstanceStore) (m : InstanceMap) : Prop :=
  store_wf st ∧ ∀ g i, store_find st g i = m !! (g, i).

(** The abstract operations. *)
Definition map_register (v : AutomationInstance) : Cmd InstanceMap InstanceStoreError unit :=
  λ m, match m !! (ai_guild_id v, ai_id v) with
       | Some _ => (Err DuplicateInstance, m)
       | None => (Ok tt, <[(ai_guild_id v, ai_id v) := v]> m)
       end.

(** [f] decides from the current status: an error, or an answer with the status
    to be written, if any. *)
Definition map_status {A} (f : InstanceStatus → Result InstanceStoreError (A * option InstanceStatus))
    (g : Z) (i : string) : Cmd InstanceMap InstanceStoreError A :=
  λ m, match m !! (g, i) with
       | None => (Err NotFound, m)
       | Some v =>
           match f (ai_status v) with
           | Err e => (Err e, m)
           | Ok (a, None) => (Ok a, m)
           | Ok (a, Some s) => (Ok a, <[(g, i) := set_status s v]> m)
           end
       end.

Definition claim_rule (s : InstanceStatus)
  : Result InstanceStoreError (InstanceTeardownClaimOutcomeV1 * option InstanceStatus) :=
  match s with
  | Active | Disabled => Ok (Claimed, Some Deleting)
  | Deleting => Ok (AlreadyDeleting, None)
  | Deleted => Ok (ClaimAlreadyDeleted, None)
  end.

Definition mark_rule (s : InstanceStatus)
  : Result InstanceStoreError (InstanceTeardownMarkOutcomeV1 * option InstanceStatus) :=
  match s with
  | Deleting => Ok (MarkedDeleted, Some Deleted)
  | Deleted => Ok (MarkAlreadyDeleted, None)
  | Active | Disabled => Err NotFound
  end.

Definition from_rule (from to s : InstanceStatus)
  : Result InstanceStoreError (unit * option InstanceStatus) :=
  if decide (s = from) then Ok (tt, Some to) else Err NotFound.

Definition refines {A} (c : StoreCmd A) (a : Cmd InstanceMap InstanceStoreError A) : Prop :=
  ∀ st m, represents st m → (c st).1 = (a m).1 ∧ represents (c st).2 (a m).2.

(** A listing: the instances of a guild that satisfy [P], each once, in id order. *)
Definition lists (m : InstanceMap) (g : Z) (P : AutomationInstance → bool)
    (l : list AutomationInstance) : Prop :=
  StronglySorted (λ a b, cmp (ai_id a) (ai_id b) = Lt) l ∧
  ∀ v, v ∈ l ↔ P v = true ∧ m !! (g, ai_id v) = Some v.

Lemma represents_set st m g i v :
  represents st m → ai_id v = i → ai_guild_id v = g →
  represents (store_set g i v st) (<[(g, i) := v]> m).
Proof.
  intros [Hwf Hf] Hi Hg. split; [by apply store_set_wf|]. intros g' i'.
  rewrite store_find_set by done. destruct (decide ((g, i) = (g', i'))) as [[= <- <-]|Hne].
  - by rewrite lookup_insert_eq.
  - rewrite lookup_insert_ne by done. apply Hf.
Qed.

(** Every operation that decides by the status of one instance has this shape. *)
Definition status_shape {A} (c : StoreCmd A)
    (f : InstanceStatus → Result InstanceStoreError (A * option InstanceStatus)) (g : Z) (i : string)
  : Prop :=
  ∀ st, c st = match store_find st g i with
               | None => (Err NotFound, st)
               | Some v =>
                   match f (ai_status v) with
                   | Err e => (Err e, st)
                   | Ok (a, None) => (Ok a, st)
                   | Ok (a, Some s) => (Ok a, store_set g i (set_status s v) st)
                   end
               end.

Lemma claim_shape g i : status_shape (claim_deleting_v1 g i) claim_rule g i.
Proof.
  intros st. unfold claim_deleting_v1. destruct (store_find st g i) as [v|]; [|done].
  by destruct (ai_status v).
Qed.

Lemma mark_shape g i : status_shape (mark_deleted_v1 g i) mark_rule g i.
Proof.
  intros st. unfold mark_deleted_v1. destruct (store_find st g i) as [v|]; [|done].
  by destruct (ai_status v).
Qed.

Lemma transition_shape from to g i : status_shape (transition_from from to g i) (from_rule from to) g i.
Proof.
  intros st. unfold transition_from, from_rule. destruct (store_find st g i) as [v|]; [|done].
  by case_bool_decide; case_decide.
Qed.

Lemma status_refines {A} (c : StoreCmd A) f g i :
  status_shape c f g i → refines c (map_status f g i).
Proof.
  intros Hc st m Hr. rewrite Hc. unfold map_status. destruct Hr as [Hwf Hf]. rewrite <- Hf.
  destruct (store_find st g i) as [v|] eqn:E; [|done].
  destruct (f (ai_status v)) as [[a [s|]]|e]; cbn; [|done..].
  split; [done|]. destruct (store_find_ids _ _ _ _ Hwf E). by apply represents_set.
Qed.

Lemma register_refines v : refines (register v) (map_register v).
Proof.
  intros st m [Hwf Hf]. unfold register, map_register.
  rewrite store_find_touch by done. rewrite Hf.
  assert (represents (bt_upsert (default []) (ai_guild_id v) st) m) as Hr.
  { split; [|intros g i; by rewrite store_find_touch].
    apply upsert_wf; [done|]. by apply store_table_wf. }
  destruct (m !! _) eqn:E; cbn; [done|]. split; [done|]. by apply represents_set.
Qed.

Lemma listing_refines P st m g :
  represents st m → lists m g P (filter (λ v, P v) (default [] (bt_get st g)).*2).
Proof.
  intros [Hwf Hf]. pose proof (store_table_wf st g Hwf) as [Hs He].
  assert (∀ v, v ∈ (default [] (bt_get st g)).*2 ↔ m !! (g, ai_id v) = Some v) as Hel.
  { intros v. rewrite <- Hf, store_find_default. rewrite list_elem_of_fmap. split.
    - intros ([i w] & -> & Hin). cbn. apply bt_get_elem in Hin; [|done].
      by rewrite (proj1 (He _ _ Hin)).
    - intros H. exists (ai_id v, v). split; [done|]. by apply bt_get_elem. }
  split.
  - apply sorted_filter. clear -Hs He.
    assert (∀ i v, (i, v) ∈ default [] (bt_get st g) → ai_id v = i) as Hid.
    { intros i v Hin. apply bt_get_elem in Hin; [|done]. by apply He. }
    clear He. revert Hs Hid. generalize (default [] (bt_get st g)). intros l Hs Hid.
    induction Hs as [|[i v] l Hs IH Hall]; cbn; [constructor|].
    constructor; [apply IH; intros; apply Hid; by right|]. apply Forall_forall.
    intros w ([j w'] & -> & Hin)%list_elem_of_fmap. cbn.
    rewrite (Hid i v ltac:(left)), (Hid j w' ltac:(by right)).
    rewrite Forall_forall in Hall. by apply (Hall (j, w')).
  - intros v. rewrite list_elem_of_filter, Hel. by rewrite Is_true_true.
Qed.

(** C32: The store behaves as one finite map: registration, lookups, every status
    transition and the teardown protocol are the operations of the map, and the
    listings are the entries of the guild, in id order and without repetition. *)
Theorem store_refines_map :
  (∀ v, refines (register v) (map_register v)) ∧
  (∀ g i, refines (get g i) (λ m, (Ok (m !! (g, i)), m))) ∧
  (∀ g i s, refines (update_status g i s) (map_status (λ _, Ok (tt, Some s)) g i)) ∧
  (∀ g i, refines (transition_to_deleting g i) (map_status (from_rule Active Deleting) g i)) ∧
  (∀ g i, refines (mark_deleted g i) (map_status (from_rule Deleting Deleted) g i)) ∧
  (∀ g i, refines (claim_deleting_v1 g i) (map_status claim_rule g i)) ∧
  (∀ g i, refines (mark_deleted_v1 g i) (map_status mark_rule g i)) ∧
  (∀ st m g, represents st m → ∃ all deleting,
     list_by_guild g st = (Ok all, st) ∧ lists m g (λ _, true) all ∧
     list_deleting g st = (Ok deleting, st) ∧ lists m g is_deleting deleting ∧
     ∀ limit, (limit ≤ 256)%nat → list_retryable_v1 g limit st = (Ok (take limit deleting), st)).
Proof.
  split_and!.
  - apply register_refines.
  - intros g i st m [Hwf Hf]. cbn. by rewrite Hf.
  - intros g i s. by apply status_refines.
  - intros g i. apply status_refines, transition_shape.
  - intros g i. apply status_refines, transition_shape.
  - intros g i. apply status_refines, claim_shape.
  - intros g i. apply status_refines, mark_shape.
  - intros st m g Hr. eexists _, _. split; [reflexivity|]. split.
    { pose proof (listing_refines (λ _, true) st m g Hr) as H.
      by rewrite filter_id in H by done. }
    split; [reflexivity|]. split; [by apply listing_refines|].
    intros limit Hl. unfold list_retryable_v1. rewrite bool_decide_false; [done|].
    unfold MAX_INSTANCE_TEARDOWN_RETRY_BATCH_V1. lia.
Qed.

(** ** What teardown needs of a store

    The trait [InstanceTeardownStoreV1]. A database may fail at any call; [view]
    is what it would answer, and the laws say what calls do to it: a successful
    call acts by the rules above, a failed one may have acted or not. *)
Class InstanceTeardownStoreV1 (S : Type) := {
  get_for_teardown_v1 : Z → string → Cmd S InstanceStoreError (option AutomationInstance);
  claim_deleting : Z → string → Cmd S InstanceStoreError InstanceTeardownClaimOutcomeV1;
  mark_deleted_store : Z → string → Cmd S InstanceStoreError InstanceTeardownMarkOutcomeV1
}.

(** What [map_status] does to the entry of one key. *)
Definition status_effect {A} (f : InstanceStatus → Result InstanceStoreError (A * option InstanceStatus))
    (before : option AutomationInstance) : Result InstanceStoreError A * option AutomationInstance :=
  match before with
  | None => (Err NotFound, None)
  | Some v =>
      match f (ai_status v) with
      | Err e => (Err e, Some v)
      | Ok (a, None) => (Ok a, Some v)
      | Ok (a, Some s) => (Ok a, Some (set_status s v))
      end
  end.

Class TeardownStoreLaws (S : Type) `{InstanceTeardownStoreV1 S} := {
  view : S → Z → string → option AutomationInstance;
  healthy : S → Prop;
  get_view g i s r s' : healthy s → get_for_teardown_v1 g i s = (r, s') →
    healthy s' ∧ (∀ g' i', view s' g' i' = view s g' i') ∧ ∀ o, r = Ok o → o = view s g i;
  claim_view g i s r s' : healthy s → claim_deleting g i s = (r, s') →
    healthy s' ∧ (∀ g' i', (g', i') ≠ (g, i) → view s' g' i' = view s g' i') ∧
    (view s' g i = view s g i ∨ view s' g i = (status_effect claim_rule (view s g i)).2) ∧
    ∀ o, r = Ok o → status_effect claim_rule (view s g i) = (Ok o, view s' g i);
  mark_view g i s r s' : healthy s → mark_deleted_store g i s = (r, s') →
    healthy s' ∧ (∀ g' i', (g', i') ≠ (g, i) → view s' g' i' = view s g' i') ∧
    (view s' g i = view s g i ∨ view s' g i = (status_effect mark_rule (view s g i)).2) ∧
    ∀ o, r = Ok o → status_effect mark_rule (view s g i) = (Ok o, view s' g i)
}.

#[export] Instance in_memory_teardown_store : InstanceTeardownStoreV1 InMemoryInstanceStore := {
  get_for_teardown_v1 := get;
  claim_deleting := claim_deleting_v1;
  mark_deleted_store := mark_deleted_v1
}.

Lemma status_shape_effect {A} (c : StoreCmd A) f g i st r st' :
  status_shape c f g i → store_wf st → c st = (r, st') →
  store_wf st' ∧ (∀ g' i', (g', i') ≠ (g, i) → store_find st' g' i' = store_find st g' i') ∧
  status_effect f (store_find st g i) = (r, store_find st' g i).
Proof.
  intros Hc Hwf. rewrite Hc. unfold status_effect.
  destruct (store_find st g i) as [v|] eqn:E; [|intros [= <- <-]; by rewrite E].
  destruct (f (ai_status v)) as [[a [s|]]|e]; intros [= <- <-]; [|by rewrite E..].
  destruct (store_find_ids _ _ _ _ Hwf E). split_and!; [by apply store_set_wf| |].
  - intros g' i' Hne. rewrite store_find_set by done. by rewrite decide_False by congruence.
  - rewrite store_find_set by done. by rewrite decide_True.
Qed.

#[export, program] Instance in_memory_teardown_laws : TeardownStoreLaws InMemoryInstanceStore := {
  view := store_find;
  healthy := store_wf
}.
Next Obligation. intros g i s r s' Hs [= <- <-]. split_and!; [done|done|by intros o [= <-]]. Qed.
Next Obligation.
  intros g i s r s' Hs Hr.
  destruct (status_shape_effect _ _ _ _ _ _ _ (claim_shape g i) Hs Hr) as (H1 & H2 & H3).
  split_and!; [done|done|by rewrite H3; right|by intros o ->].
Qed.
Next Obligation.
  intros g i s r s' Hs Hr.
  destruct (status_shape_effect _ _ _ _ _ _ _ (mark_shape g i) Hs Hr) as (H1 & H2 & H3).
  split_and!; [done|done|by rewrite H3; right|by intros o ->].
Qed.
