(* ===== verification/Teardown.v ===== *)
(** * Tearing an instance down

    Crate [automation-instance-teardown]: the messages, channels and roles of an
    instance are deleted in that order, between claiming the instance for
    deletion and marking it deleted. Store and deleter are the two traits the
    service is generic in; both may fail at any call. *)

From Stdlib Require Import ZArith Lia Ascii String.
From stdpp Require Import base decidable list strings numbers.
From S2P Require Import Prelude RustStd RustText DiscordModel Instance InstanceStore.
Open Scope Z_scope.

(** ** Domain *)
Inductive InstanceResource :=
| ResRole (alias : string) (id : RoleId)
| ResChannel (alias : string) (id : ChannelId)
| ResMessage (alias : string) (channel : ChannelId) (id : MessageId).

Inductive DeleteOutcome := DeleteDone | AlreadyGone.

Inductive DeleterErrorKind := DelForbidden | DelRateLimited | DelNetwork | DelUnknown.
Record DeleterError := mkDeleterError {
  de_kind : DeleterErrorKind;
  de_message : string
}.

(** The trait [InstanceDeleter]. *)
Class InstanceDeleter (D : Type) := {
  delete_message : GuildId → ChannelId → MessageId → Cmd D DeleterError DeleteOutcome;
  delete_channel : GuildId → ChannelId → Cmd D DeleterError DeleteOutcome;
  delete_role : GuildId → RoleId → Cmd D DeleterError DeleteOutcome
}.

Inductive TeardownOutcome := Completed | ResumedAndCompleted | TornAlreadyDeleted | InProgress.

Inductive TeardownError :=
| TeLookup (e : InstanceStoreError)
| TeInstanceNotFound
| TeManifestDrift
| TeDeleteFailed (resource : InstanceResource) (source : DeleterError)
| TeStore (e : InstanceStoreError).

Record ExactInstanceRegistrationIdentityV1 := mkExactIdentity {
  ex_ruleset_key : string;
  ex_ruleset_version : Z;
  ex_kind : string;
  ex_created_by : UserId
}.

Record ExactInstanceTeardownRequestV1 := mkExactRequest {
  er_guild_id : GuildId;
  er_instance_id : string;
  er_expected_resources : InstanceResources;
  er_expected_identity : option ExactInstanceRegistrationIdentityV1
}.

Definition exact_request_new (g : GuildId) (i : string) (r : InstanceResources)
  : ExactInstanceTeardownRequestV1 := mkExactRequest g i r None.

Definition identity_from_exact_instance_v1 (v : AutomationInstance)
  : ExactInstanceRegistrationIdentityV1 :=
  mkExactIdentity (ai_ruleset_key v) (ai_ruleset_version v) (ai_kind v) (ai_created_by v).

Definition request_from_exact_instance_v1 (v : AutomationInstance)
  : ExactInstanceTeardownRequestV1 :=
  mkExactRequest (ai_guild_id v) (ai_id v) (ai_resources v)
    (Some (identity_from_exact_instance_v1 v)).

Definition identity_matches_instance_v1 (x : ExactInstanceRegistrationIdentityV1)
    (v : AutomationInstance) : bool :=
  String.eqb (ex_ruleset_key x) (ai_ruleset_key v)
  && (ex_ruleset_version x =? ai_ruleset_version v)
  && String.eqb (ex_kind x) (ai_kind v)
  && (ex_created_by x =? ai_created_by v).

Definition matches_instance_v1 (r : ExactInstanceTeardownRequestV1) (v : AutomationInstance) : bool :=
  bool_decide (er_expected_resources r = ai_resources v)
  && is_none_or (λ x, identity_matches_instance_v1 x v) (er_expected_identity r).

Inductive InstanceTeardownRecoveryObservationV1 :=
  ProvenNotStarted | DurableRetryPending | ProvenSucceeded.

(** ** The service *)
Section service.
Context {S D : Type} `{InstanceTeardownStoreV1 S} `{InstanceDeleter D}.

Definition Service (A : Type) : Type := Cmd (S * D) TeardownError A.

Definition on_store {A} (err : InstanceStoreError → TeardownError)
    (m : Cmd S InstanceStoreError A) : Service A :=
  cmd_map_err err (cmd_zoom fst (λ s sd, (s, sd.2)) m).

Definition on_deleter {A} (err : DeleterError → TeardownError)
    (m : Cmd D DeleterError A) : Service A :=
  cmd_map_err err (cmd_zoom snd (λ d sd, (sd.1, d)) m).

(** The three loops over the manifest. *)
Fixpoint delete_messages (g : GuildId) (l : list (string * InstanceMessageRef)) : Service unit :=
  match l with
  | [] => cmd_ret tt
  | (alias, m) :: rest =>
      _ ← on_deleter (TeDeleteFailed (ResMessage alias (mr_channel m) (mr_id m)))
            (delete_message g (mr_channel m) (mr_id m));
      delete_messages g rest
  end.

Fixpoint delete_channels (g : GuildId) (l : list (string * ChannelId)) : Service unit :=
  match l with
  | [] => cmd_ret tt
  | (alias, id) :: rest =>
      _ ← on_deleter (TeDeleteFailed (ResChannel alias id)) (delete_channel g id);
      delete_channels g rest
  end.

Fixpoint delete_roles (g : GuildId) (l : list (string * RoleId)) : Service unit :=
  match l with
  | [] => cmd_ret tt
  | (alias, id) :: rest =>
      _ ← on_deleter (TeDeleteFailed (ResRole alias id)) (delete_role g id);
      delete_roles g rest
  end.

Definition drifted (exact : option ExactInstanceTeardownRequestV1) (v : AutomationInstance) : bool :=
  is_some_and (λ r, negb (matches_instance_v1 r v)) exact.

(** [get_for_teardown_v1(..).map_err(Lookup)?.ok_or(InstanceNotFound)?] and the
    check against the exact request. *)
Definition lookup_exact (g : GuildId) (i : string) (exact : option ExactInstanceTeardownRequestV1)
  : Service AutomationInstance :=
  found ← on_store TeLookup (get_for_teardown_v1 g i);
  v ← cmd_lift (λ _, ok_or found TeInstanceNotFound);
  _ ← cmd_lift (λ _, ensure (negb (drifted exact v)) TeManifestDrift);
  cmd_ret v.

(** What follows the claim: the deletions and the mark. *)
Definition finish_teardown (g : GuildId) (i : string) (claim : InstanceTeardownClaimOutcomeV1)
    (instance : AutomationInstance) : Service TeardownOutcome :=
  match claim with
  | ClaimAlreadyDeleted => cmd_ret TornAlreadyDeleted
  | Claimed | AlreadyDeleting =>
      _ ← delete_messages g (ir_messages (ai_resources instance));
      _ ← delete_channels g (ir_channels (ai_resources instance));
      _ ← delete_roles g (ir_roles (ai_resources instance));
      _ ← on_store TeStore (mark_deleted_store g i);
      cmd_ret (match claim with Claimed => Completed | _ => ResumedAndCompleted end)
  end.

Definition teardown_locked (g : GuildId) (i : string)
    (exact : option ExactInstanceTeardownRequestV1) : Service TeardownOutcome :=
  _ ← lookup_exact g i exact;
  claim ← on_store TeStore (claim_deleting g i);
  instance ← lookup_exact g i exact;
  finish_teardown g i claim instance.

Definition observe_teardown_exact_v1 (request : ExactInstanceTeardownRequestV1)
  : Service InstanceTeardownRecoveryObservationV1 :=
  instance ← lookup_exact (er_guild_id request) (er_instance_id request) (Some request);
  cmd_ret (match ai_status instance with
           | Active | Disabled => ProvenNotStarted
           | Deleting => DurableRetryPending
           | Deleted => ProvenSucceeded
           end).

(** The methods of the service once the lock of the key is held; [teardown]
    without it answers [InProgress]. *)
Definition teardown (locked : bool) (g : GuildId) (i : string) : Service TeardownOutcome :=
  if locked then teardown_locked g i None else cmd_ret InProgress.

Definition teardown_exact_v1 (locked : bool) (request : ExactInstanceTeardownRequestV1)
  : Service TeardownOutcome :=
  if locked then teardown_locked (er_guild_id request) (er_instance_id request) (Some request)
  else cmd_ret InProgress.
End service.
