(* ===== verification/TeardownSpec.v ===== *)
(** * What teardown guarantees

    The deleter's promise: what it reports deleted or already gone is gone, and
    what is gone stays gone. With the laws of the store this gives the guarantee
    of the crate: an instance is marked deleted only when nothing it created is
    left, whatever fails on the way, and a failed teardown can be resumed. *)

From Stdlib Require Import ZArith Lia Ascii String.
From stdpp Require Import base decidable list strings gmap numbers.
From S2P Require Import Prelude RustStd DiscordModel Instance InstanceStore Teardown.
Open Scope Z_scope.

(** ** The manifest as one list of deletions *)
Definition manifest (r : InstanceResources) : list InstanceResource :=
  ((λ '(alias, m), ResMessage alias (mr_channel m) (mr_id m)) <$> ir_messages r)
  ++ ((λ '(alias, id), ResChannel alias id) <$> ir_channels r)
  ++ ((λ '(alias, id), ResRole alias id) <$> ir_roles r).

Section deletions.
Context {S D : Type} `{InstanceTeardownStoreV1 S} `{InstanceDeleter D}.

Definition delete_resource (g : Z) (r : InstanceResource) : Cmd D DeleterError DeleteOutcome :=
  match r with
  | ResMessage _ c m => delete_message g c m
  | ResChannel _ c => delete_channel g c
  | ResRole _ r => delete_role g r
  end.

Fixpoint delete_resources (g : Z) (l : list InstanceResource) : Service (S := S) (D := D) unit :=
  match l with
  | [] => cmd_ret tt
  | r :: rest =>
      _ ← on_deleter (TeDeleteFailed r) (delete_resource g r);
      delete_resources g rest
  end.

Lemma delete_resources_app g l l' sd :
  delete_resources g (l ++ l') sd = (_ ← delete_resources g l; delete_resources g l') sd.
Proof.
  revert sd. induction l as [|r l IH]; intros sd; cbn; [done|].
  unfold mbind, Cmd_bind, cmd_bind in *.
  destruct (on_deleter _ _ sd) as [[o|e] sd']; [apply IH|done].
Qed.

Lemma delete_messages_list g l sd :
  delete_messages g l sd =
  delete_resources g ((λ '(alias, m), ResMessage alias (mr_channel m) (mr_id m)) <$> l) sd.
Proof.
  revert sd. induction l as [|[a m] l IH]; intros sd; cbn; [done|].
  unfold mbind, Cmd_bind, cmd_bind. destruct (on_deleter _ _ sd) as [[o|e] sd']; [apply IH|done].
Qed.

Lemma delete_channels_list g l sd :
  delete_channels g l sd = delete_resources g ((λ '(alias, id), ResChannel alias id) <$> l) sd.
Proof.
  revert sd. induction l as [|[a m] l IH]; intros sd; cbn; [done|].
  unfold mbind, Cmd_bind, cmd_bind. destruct (on_deleter _ _ sd) as [[o|e] sd']; [apply IH|done].
Qed.

Lemma delete_roles_list g l sd :
  delete_roles g l sd = delete_resources g ((λ '(alias, id), ResRole alias id) <$> l) sd.
Proof.
  revert sd. induction l as [|[a m] l IH]; intros sd; cbn; [done|].
  unfold mbind, Cmd_bind, cmd_bind. destruct (on_deleter _ _ sd) as [[o|e] sd']; [apply IH|done].
Qed.

(** The loops delete messages, then channels, then roles. *)
Lemma loops_manifest {A} g r (k : Service (S := S) (D := D) A) sd :
  (_ ← delete_messages g (ir_messages r);
   _ ← delete_channels g (ir_channels r);
   _ ← delete_roles g (ir_roles r); k) sd = (_ ← delete_resources g (manifest r); k) sd.
Proof.
  unfold manifest, mbind, Cmd_bind, cmd_bind. rewrite delete_messages_list, delete_resources_app.
  unfold mbind, Cmd_bind, cmd_bind. destruct (delete_resources g _ sd) as [[u|e] sd']; [|done].
  rewrite delete_channels_list, delete_resources_app. unfold mbind, Cmd_bind, cmd_bind.
  destruct (delete_resources g _ sd') as [[u'|e] sd'']; [|done]. by rewrite delete_roles_list.
Qed.
End deletions.

(** ** The deleter's promise *)
Class InstanceDeleterLaws (D : Type) `{InstanceDeleter D} := {
  gone : D → Z → InstanceResource → Prop;
  delete_gone g r d o d' : delete_resource g r d = (o, d') →
    (∀ g' r', gone d g' r' → gone d' g' r') ∧ (∀ x, o = Ok x → gone d' g r)
}.

Section spec.
Context {S D : Type} `{TeardownStoreLaws S} `{InstanceDeleterLaws D}.
Implicit Types (s : S) (d : D) (g : Z) (i : string).

Definition all_gone d g (l : list InstanceResource) : Prop := ∀ r, r ∈ l → gone d g r.
Definition still_gone d d' : Prop := ∀ g r, gone d g r → gone d' g r.
Definition same_elsewhere s s' g i : Prop :=
  ∀ g' i', (g', i') ≠ (g, i) → view s' g' i' = view s g' i'.

Lemma on_deleter_inv {A} err (m : Cmd D DeleterError A) s d r s' d' :
  on_deleter err m (s, d) = (r, (s', d')) → ∃ o, m d = (o, d') ∧ s' = s ∧ r = map_err err o.
Proof.
  unfold on_deleter, cmd_map_err, cmd_zoom. cbn. destruct (m d) as [o d1]. naive_solver.
Qed.

Lemma on_store_inv {A} err (m : Cmd S InstanceStoreError A) s d r s' d' :
  on_store err m (s, d) = (r, (s', d')) → ∃ o, m s = (o, s') ∧ d' = d ∧ r = map_err err o.
Proof.
  unfold on_store, cmd_map_err, cmd_zoom. cbn. destruct (m s) as [o s1]. naive_solver.
Qed.

Lemma delete_resources_effect g l s d r s' d' :
  delete_resources g l (s, d) = (r, (s', d')) →
  s' = s ∧ still_gone d d' ∧
  match r with
  | Ok _ => all_gone d' g l
  | Err e => ∃ l1 res l2 src, l = l1 ++ res :: l2 ∧ e = TeDeleteFailed res src ∧ all_gone d' g l1
  end.
Proof.
  revert d. induction l as [|x l IH]; intros d; cbn.
  { intros [= <- <- <-]. split_and!; [done|by intros g' r'|]. intros y Hy. by apply not_elem_of_nil in Hy. }
  unfold mbind, Cmd_bind, cmd_bind.
  destruct (on_deleter _ _ (s, d)) as [o [s1 d1]] eqn:E.
  apply on_deleter_inv in E as (out & E & -> & ->).
  destruct (delete_gone _ _ _ _ _ E) as [Hmono Hx]. destruct out as [o|e]; cbn.
  - intros HR. apply IH in HR as (-> & Hmono2 & HR). specialize (Hx o eq_refl).
    split_and!; [done|by intros g' r' Hg'; apply Hmono2, Hmono|]. destruct r as [u|e].
    + intros y [->|Hy]%elem_of_cons; [by apply Hmono2|by apply HR].
    + destruct HR as (l1 & res & l2 & src & -> & -> & Hg). exists (x :: l1), res, l2, src.
      split_and!; [done|done|]. intros y [->|Hy]%elem_of_cons; [by apply Hmono2|by apply Hg].
  - intros [= <- <- <-]. split_and!; [done|done|]. exists [], x, l, e.
    split_and!; [done|done|]. intros y Hy. by apply not_elem_of_nil in Hy.
Qed.

Lemma lookup_exact_effect g i exact s d r s' d' :
  healthy s → lookup_exact g i exact (s, d) = (r, (s', d')) →
  healthy s' ∧ (∀ g' i', view s' g' i' = view s g' i') ∧ d' = d ∧
  match r with
  | Ok v => view s g i = Some v ∧ drifted exact v = false
  | Err (TeLookup _) => True
  | Err TeInstanceNotFound => view s g i = None
  | Err TeManifestDrift => ∃ v, view s g i = Some v ∧ drifted exact v = true
  | Err _ => False
  end.
Proof.
  intros Hs. unfold lookup_exact, mbind, Cmd_bind, cmd_bind.
  destruct (on_store _ _ (s, d)) as [o [s1 d1]] eqn:E.
  apply on_store_inv in E as (out & E & -> & ->).
  destruct (get_view _ _ _ _ _ Hs E) as (Hs1 & Hv & Ho). destruct out as [found|e]; cbn.
  - specialize (Ho found eq_refl) as ->. unfold cmd_lift. destruct (view s g i) as [v|]; cbn.
    + destruct (drifted exact v) eqn:Hd; cbn; intros [= <- <- <-]; eauto 10.
    + intros [= <- <- <-]. eauto.
  - intros [= <- <- <-]. eauto.
Qed.

(** The status an instance was found in, by the answer. *)
Definition found_in (out : TeardownOutcome) (status : InstanceStatus) : Prop :=
  match out with
  | Completed => status = Active ∨ status = Disabled
  | ResumedAndCompleted => status = Deleting
  | TornAlreadyDeleted => status = Deleted
  | InProgress => False
  end.

(** [v] is on its way: not drifted, not deleted before, and now has status [to]. *)
Definition moved g i exact s s' (to : InstanceStatus) (v : AutomationInstance) : Prop :=
  view s g i = Some v ∧ drifted exact v = false ∧ ai_status v ≠ Deleted ∧
  view s' g i = Some (set_status to v).

(** What one teardown does, by its answer. *)
Definition teardown_effect g i exact s d (r : Result TeardownError TeardownOutcome) s' d' : Prop :=
  match r with
  | Ok TornAlreadyDeleted => ∃ v, view s g i = Some v ∧ ai_status v = Deleted ∧
      drifted exact v = false ∧ view s' g i = Some v ∧ d' = d
  | Ok out => ∃ v, moved g i exact s s' Deleted v ∧ found_in out (ai_status v) ∧
      all_gone d' g (manifest (ai_resources v))
  | Err (TeDeleteFailed res _) => ∃ v l1 l2, moved g i exact s s' Deleting v ∧
      manifest (ai_resources v) = l1 ++ res :: l2 ∧ all_gone d' g l1
  | Err TeInstanceNotFound => view s g i = None ∧ view s' g i = None ∧ d' = d
  | Err TeManifestDrift => ∃ v, view s g i = Some v ∧ drifted exact v = true ∧
      view s' g i = Some v ∧ d' = d
  | Err (TeLookup _ | TeStore _) =>
      view s' g i = view s g i ∨
      (∃ v, moved g i exact s s' Deleting v) ∨
      (∃ v, moved g i exact s s' Deleted v ∧ all_gone d' g (manifest (ai_resources v)))
  end.

Lemma drifted_status exact v st : drifted exact (set_status st v) = drifted exact v.
Proof. done. Qed.

Lemma set_status_same v : set_status (ai_status v) v = v.
Proof. by destruct v. Qed.

Lemma set_status_twice a b v : set_status a (set_status b v) = set_status a v.
Proof. done. Qed.

(** After a claim that succeeded the instance is being deleted, or was already. *)
Lemma claim_effect v claim after :
  status_effect claim_rule (Some v) = (Ok claim, after) →
  match claim with
  | ClaimAlreadyDeleted => ai_status v = Deleted ∧ after = Some v
  | Claimed => found_in Completed (ai_status v) ∧ after = Some (set_status Deleting v)
  | AlreadyDeleting => ai_status v = Deleting ∧ after = Some (set_status Deleting v)
  end.
Proof.
  cbn. destruct (ai_status v) eqn:E; intros [= <- <-]; cbn; auto.
  split; [done|]. rewrite <- E. by rewrite set_status_same.
Qed.

Lemma claim_failed_effect v s s' g i exact after :
  view s g i = Some v → drifted exact v = false → view s' g i = after →
  (after = Some v ∨ after = (status_effect claim_rule (Some v)).2) →
  view s' g i = view s g i ∨ ∃ v, moved g i exact s s' Deleting v.
Proof.
  intros Hv Hd Ha [-> | ->]; [left; congruence|]. cbn in Ha.
  destruct (ai_status v) eqn:E; cbn in Ha; try (left; congruence);
    right; exists v; split_and!; congruence.
Qed.

(** The deletions and the mark that follow a claim. *)
Lemma delete_and_mark_effect g i v (out : TeardownOutcome) s d (r : Result TeardownError TeardownOutcome) s' d' :
  healthy s → view s g i = Some (set_status Deleting v) →
  (_ ← delete_resources g (manifest (ai_resources v));
   _ ← on_store TeStore (mark_deleted_store g i); cmd_ret out) (s, d) = (r, (s', d')) →
  healthy s' ∧ same_elsewhere s s' g i ∧ still_gone d d' ∧
  match r with
  | Ok o => o = out ∧ view s' g i = Some (set_status Deleted v) ∧
      all_gone d' g (manifest (ai_resources v))
  | Err (TeDeleteFailed res _) => ∃ l1 l2, view s' g i = Some (set_status Deleting v) ∧
      manifest (ai_resources v) = l1 ++ res :: l2 ∧ all_gone d' g l1
  | Err (TeStore _) => view s' g i = Some (set_status Deleting v) ∨
      (view s' g i = Some (set_status Deleted v) ∧ all_gone d' g (manifest (ai_resources v)))
  | Err _ => False
  end.
Proof.
  intros Hs Hv. unfold mbind, Cmd_bind, cmd_bind.
  destruct (delete_resources g _ (s, d)) as [o [s1 d1]] eqn:E.
  apply delete_resources_effect in E as (-> & Hmono & Ho). destruct o as [u|e].
  - destruct (on_store _ _ (s, d1)) as [o [s2 d2]] eqn:E.
    apply on_store_inv in E as (m & E & -> & ->).
    destruct (mark_view _ _ _ _ _ Hs E) as (Hs2 & Helse & Hor & Hok).
    rewrite Hv in Hor, Hok. cbn in Hor, Hok. destruct m as [m|e]; cbn.
    + intros [= <- <- <-]. specialize (Hok m eq_refl). split_and!; try done. by injection Hok.
    + intros [= <- <- <-]. split_and!; try done. destruct Hor as [Hor|Hor]; rewrite Hor; auto.
  - intros [= <- <- <-]. destruct Ho as (l1 & res & l2 & src & Hl & -> & Hg).
    split_and!; [done|by intros ???|done|]. eauto.
Qed.

(** The claim and what it left, in one statement. *)
Definition claimed g i exact s s' (claim : InstanceTeardownClaimOutcomeV1) (v : AutomationInstance) : Prop :=
  view s g i = Some v ∧ drifted exact v = false ∧
  match claim with
  | ClaimAlreadyDeleted => ai_status v = Deleted ∧ view s' g i = Some v
  | Claimed => found_in Completed (ai_status v) ∧ view s' g i = Some (set_status Deleting v)
  | AlreadyDeleting => ai_status v = Deleting ∧ view s' g i = Some (set_status Deleting v)
  end.

Lemma claimed_cases g i exact s s' claim v :
  claimed g i exact s s' claim v →
  view s' g i = view s g i ∨ moved g i exact s s' Deleting v.
Proof.
  intros (Hv & Hd & Hc). destruct claim; destruct Hc as [Hst Hv'].
  - right. split_and!; [done|done| |done]. by destruct Hst as [-> | ->].
  - right. split_and!; [done|done|by rewrite Hst|done].
  - left. congruence.
Qed.

(** The second lookup finds the claimed instance, or fails. *)
Lemma second_lookup g i exact s s2 claim v (o : Result TeardownError AutomationInstance) :
  claimed g i exact s s2 claim v →
  match o with
  | Ok v => view s2 g i = Some v ∧ drifted exact v = false
  | Err (TeLookup _) => True
  | Err TeInstanceNotFound => view s2 g i = None
  | Err TeManifestDrift => ∃ v, view s2 g i = Some v ∧ drifted exact v = true
  | Err _ => False
  end →
  o = Ok (match claim with ClaimAlreadyDeleted => v | _ => set_status Deleting v end) ∨
  ∃ e, o = Err (TeLookup e).
Proof.
  intros (Hv & Hd & Hc).
  assert (view s2 g i = Some (match claim with ClaimAlreadyDeleted => v | _ => set_status Deleting v end)) as ->.
  { by destruct claim; destruct Hc. }
  destruct o as [w|[]]; try done; [intros [[= <-] _]; by left|by right; eauto|].
  intros (w & [= <-] & Hdr). by destruct claim; rewrite ?drifted_status in Hdr; congruence.
Qed.

Lemma finish_manifest g i claim v (sd : S * D) :
  claim ≠ ClaimAlreadyDeleted →
  finish_teardown g i claim v sd =
  (_ ← delete_resources g (manifest (ai_resources v));
   _ ← on_store TeStore (mark_deleted_store g i);
   cmd_ret (match claim with Claimed => Completed | _ => ResumedAndCompleted end)) sd.
Proof. intros Hc. destruct claim; [apply loops_manifest|apply loops_manifest|done]. Qed.

Lemma finish_effect g i exact s s1 d claim v r s' d' :
  healthy s1 → claimed g i exact s s1 claim v →
  finish_teardown g i claim (match claim with ClaimAlreadyDeleted => v | _ => set_status Deleting v end)
    (s1, d) = (r, (s', d')) →
  healthy s' ∧ same_elsewhere s1 s' g i ∧ still_gone d d' ∧
  teardown_effect g i exact s d r s' d'.
Proof.
  intros Hs (Hv & Hd & Hc). destruct claim; destruct Hc as [Hst Hv1]; try rewrite finish_manifest by done.
  3: { intros [= <- <- <-]. split_and!; [done|by intros ???|by intros ??|]. cbn. eauto 10. }
  all: intros HR; apply delete_and_mark_effect in HR as (F1 & F2 & F3 & F4); [|done|done];
    cbn [ai_resources set_status] in *; split_and!; [done..|].
  all: assert (ai_status v ≠ Deleted) as Hnd
    by (intros E; rewrite E in Hst; first [done|by destruct Hst]).
  all: destruct r as [o|e]; [destruct F4 as (-> & F4 & F5); exists v; by split_and!|].
  all: destruct e; cbn; try done.
  all: try (destruct F4 as (l1 & l2 & F4 & F5 & F6); exists v, l1, l2; by split_and!).
  all: right; destruct F4 as [F4|[F4 F5]]; [left|right]; exists v; by split_and!.
Qed.

Lemma teardown_locked_effect g i exact s d r s' d' :
  healthy s → teardown_locked g i exact (s, d) = (r, (s', d')) →
  healthy s' ∧ same_elsewhere s s' g i ∧ still_gone d d' ∧
  teardown_effect g i exact s d r s' d'.
Proof.
  intros Hs. unfold teardown_locked. unfold mbind at 1, Cmd_bind at 1, cmd_bind at 1.
  destruct (lookup_exact g i exact (s, d)) as [o [s1 d1]] eqn:E1.
  apply lookup_exact_effect in E1 as (Hs1 & Hv1 & -> & Ho); [|done].
  destruct o as [v|e]; [destruct Ho as [Hv Hd]|].
  2: { intros [= <- <- <-]. split_and!; [done|by intros ???; apply Hv1|by intros ??|].
       destruct e; cbn; try done; [by left; apply Hv1|by rewrite Hv1|].
       destruct Ho as (v & Hv & Hd). exists v. rewrite Hv1. eauto. }
  unfold mbind at 1, Cmd_bind at 1, cmd_bind at 1.
  destruct (on_store _ _ (s1, d)) as [o [s2 d2]] eqn:E2.
  apply on_store_inv in E2 as (c & E2 & -> & ->).
  destruct (claim_view _ _ _ _ _ Hs1 E2) as (Hs2 & Helse2 & Hor & Hok).
  rewrite Hv1, Hv in Hor, Hok.
  assert (same_elsewhere s s2 g i) as Hsame2 by (intros g' i' Hne; by rewrite Helse2, Hv1).
  destruct c as [claim|e]; cbn [map_err].
  2: { intros [= <- <- <-]. split_and!; [done|done|by intros ??|]. cbn.
       destruct (claim_failed_effect v s s2 g i exact _ Hv Hd eq_refl Hor); auto. }
  assert (claimed g i exact s s2 claim v) as Hcl.
  { split_and!; [done|done|]. by apply claim_effect, Hok. }
  unfold mbind at 1, Cmd_bind at 1, cmd_bind at 1.
  destruct (lookup_exact g i exact (s2, d)) as [o [s3 d3]] eqn:E3.
  apply lookup_exact_effect in E3 as (Hs3 & Hv3 & -> & Ho3); [|done].
  destruct (second_lookup _ _ _ _ _ _ _ _ Hcl Ho3) as [->|[e ->]].
  - intros HR. apply (finish_effect g i exact s) in HR as (R1 & R2 & R3 & R4).
    + split_and!; [done| |done|done]. intros g' i' Hne. by rewrite R2, Hv3, Hsame2.
    + done.
    + destruct Hcl as (A & B & C). split_and!; [done|done|]. by rewrite Hv3.
  - intros [= <- <- <-]. split_and!; [done| |by intros ??|].
    + intros g' i' Hne. by rewrite Hv3, Hsame2.
    + cbn. rewrite Hv3. destruct (claimed_cases _ _ _ _ _ _ _ Hcl) as [?|(A & B & C & F)];
        [by left|right; left]. exists v. split_and!; [done..|]. by rewrite Hv3.
Qed.

(** ** Histories of attempts *)
Definition Attempt : Type := Z * string * option ExactInstanceTeardownRequestV1.

Definition attempt (sd : S * D) (a : Attempt) : S * D :=
  (teardown_locked a.1.1 a.1.2 a.2 sd).2.

Definition advances (a b : InstanceStatus) : Prop :=
  a = b ∨ (a ≠ Deleted ∧ b = Deleting) ∨ b = Deleted.

Definition no_orphans s d : Prop :=
  ∀ g i v, view s g i = Some v → ai_status v = Deleted → all_gone d g (manifest (ai_resources v)).

Definition progressed s s' : Prop :=
  ∀ g i, match view s g i with
         | None => view s' g i = None
         | Some v => ∃ st, view s' g i = Some (set_status st v) ∧ advances (ai_status v) st
         end.

Lemma advances_trans a b c : advances a b → advances b c → advances a c.
Proof. unfold advances. naive_solver. Qed.

Lemma progressed_refl s : progressed s s.
Proof.
  intros g i. destruct (view s g i) as [v|] eqn:E; [|done].
  exists (ai_status v). rewrite set_status_same. split; [done|by left].
Qed.

Lemma progressed_trans s1 s2 s3 : progressed s1 s2 → progressed s2 s3 → progressed s1 s3.
Proof.
  intros P1 P2 g i. specialize (P1 g i). specialize (P2 g i). destruct (view s1 g i) as [v|].
  - destruct P1 as (st & E1 & A1). rewrite E1 in P2. destruct P2 as (st' & E2 & A2).
    exists st'. rewrite set_status_twice in E2. split; [done|].
    by eapply advances_trans; [|exact A2].
  - by rewrite P1 in P2.
Qed.

(** What the key itself goes through in one attempt. *)
Lemma effect_key g i exact s d r s' d' :
  teardown_effect g i exact s d r s' d' →
  view s' g i = view s g i ∨
  (∃ v, moved g i exact s s' Deleting v) ∨
  (∃ v, moved g i exact s s' Deleted v ∧ all_gone d' g (manifest (ai_resources v))).
Proof.
  destruct r as [[]|[]]; cbn.
  - intros (v & Hm & _ & Hg). right. right. by exists v.
  - intros (v & Hm & _ & Hg). right. right. by exists v.
  - intros (v & Hv & _ & _ & Hv' & _). left. congruence.
  - by intros (v & _ & [] & _).
  - done.
  - intros (Hv & Hv' & _). left. congruence.
  - intros (v & Hv & _ & Hv' & _). left. congruence.
  - intros (v & l1 & l2 & Hm & _). right. left. by exists v.
  - done.
Qed.

Lemma attempt_effect s d a s' d' :
  healthy s → attempt (s, d) a = (s', d') →
  healthy s' ∧ same_elsewhere s s' a.1.1 a.1.2 ∧ still_gone d d' ∧ progressed s s' ∧
  ∃ r, teardown_effect a.1.1 a.1.2 a.2 s d r s' d'.
Proof.
  destruct a as [[g i] exact]. unfold attempt. cbn. intros Hs Ha.
  destruct (teardown_locked g i exact (s, d)) as [r sd'] eqn:E. cbn in Ha. subst sd'.
  apply teardown_locked_effect in E as (E1 & E2 & E3 & E4); [|done].
  split_and!; [done|done|done| |by exists r].
  intros g' i'. destruct (decide ((g', i') = (g, i))) as [[= -> ->]|Hne].
  - apply effect_key in E4 as [E4|[(w & A & B & C & F)|(w & (A & B & C & F) & Hg)]].
    + pose proof (progressed_refl s g i) as P. rewrite E4. by destruct (view s g i).
    + rewrite A. exists Deleting. split; [done|]. right. by left.
    + rewrite A. exists Deleted. split; [done|]. right. by right.
  - pose proof (progressed_refl s g' i') as P. rewrite E2 by done. by destruct (view s g' i').
Qed.

Lemma attempt_keeps s d a s' d' :
  healthy s → no_orphans s d → attempt (s, d) a = (s', d') → no_orphans s' d'.
Proof.
  intros Hs Hn Ha. apply attempt_effect in Ha as (_ & E2 & E3 & _ & r & E4); [|done].
  destruct a as [[g i] exact]. cbn in *. apply effect_key in E4.
  intros g' i' v Hv Hdel r' Hr'. destruct (decide ((g', i') = (g, i))) as [[= -> ->]|Hne].
  - destruct E4 as [E4|[(w & A & B & C & F)|(w & (A & B & C & F) & Hg)]].
    + rewrite E4 in Hv. apply E3. by eapply Hn.
    + rewrite F in Hv. by injection Hv as <-.
    + rewrite F in Hv. injection Hv as <-. by apply Hg.
  - apply E3. rewrite E2 in Hv by done. by eapply Hn.
Qed.

Lemma attempts_effect s d attempts s' d' :
  healthy s → foldl attempt (s, d) attempts = (s', d') →
  healthy s' ∧ progressed s s' ∧
  ∀ g i, (∀ a, a ∈ attempts → a.1 ≠ (g, i)) → view s' g i = view s g i.
Proof.
  revert s d. induction attempts as [|a attempts IH]; intros s d Hs; cbn [foldl].
  { intros [= <- <-]. split_and!; [done|apply progressed_refl|done]. }
  destruct (attempt (s, d) a) as [s1 d1] eqn:E. intros HF.
  destruct (attempt_effect _ _ _ _ _ Hs E) as (A1 & A2 & _ & A4 & _).
  destruct (IH s1 d1 A1 HF) as (R1 & R2 & R3).
  split_and!; [done|by eapply progressed_trans|]. intros g i Hall.
  rewrite R3 by (intros b Hb; apply Hall; by right). apply A2.
  specialize (Hall a ltac:(left)). destruct a as [[g' i'] ex]. cbn in *. congruence.
Qed.

Lemma attempts_keep s d attempts s' d' :
  healthy s → no_orphans s d → foldl attempt (s, d) attempts = (s', d') →
  healthy s' ∧ no_orphans s' d' ∧ progressed s s'.
Proof.
  revert s d. induction attempts as [|a attempts IH]; intros s d Hs Hn; cbn [foldl].
  { intros [= <- <-]. split_and!; [done|done|apply progressed_refl]. }
  destruct (attempt (s, d) a) as [s1 d1] eqn:E. intros HF.
  destruct (attempt_effect _ _ _ _ _ Hs E) as (A1 & _ & _ & A4 & _).
  destruct (IH s1 d1 A1 (attempt_keeps _ _ _ _ _ Hs Hn E) HF) as (R1 & R2 & R3).
  split_and!; [done|done|by eapply progressed_trans].
Qed.
End spec.

(** ** Calls that succeed

    While [ok_s] and [ok_d] hold of them, store and deleter answer every call. *)
Record Reliable {S D : Type} `{TeardownStoreLaws S} `{InstanceDeleter D}
    (ok_s : S → Prop) (ok_d : D → Prop) : Prop := mkReliable {
  ok_healthy s : ok_s s → healthy s;
  ok_get g i s : ok_s s → ∃ o s', get_for_teardown_v1 g i s = (Ok o, s') ∧ ok_s s';
  ok_claim g i s v : ok_s s → view s g i = Some v →
    ∃ o s', claim_deleting g i s = (Ok o, s') ∧ ok_s s';
  ok_mark g i s v : ok_s s → view s g i = Some v → ai_status v = Deleting →
    ∃ o s', mark_deleted_store g i s = (Ok o, s') ∧ ok_s s';
  ok_delete g r d : ok_d d → ∃ o d', delete_resource g r d = (Ok o, d') ∧ ok_d d'
}.
Arguments ok_healthy {S D _ _ _ ok_s ok_d}.
Arguments ok_get {S D _ _ _ ok_s ok_d}.
Arguments ok_claim {S D _ _ _ ok_s ok_d}.
Arguments ok_mark {S D _ _ _ ok_s ok_d}.
Arguments ok_delete {S D _ _ _ ok_s ok_d}.

Section reliable.
Context {S D : Type} `{TeardownStoreLaws S} `{InstanceDeleterLaws D}.
Context (ok_s : S → Prop) (ok_d : D → Prop) (Hrel : Reliable ok_s ok_d).

Lemma on_store_ok {A} err (m : Cmd S InstanceStoreError A) s (d : D) o s' :
  m s = (Ok o, s') → on_store err m (s, d) = (Ok o, (s', d)).
Proof. intros E. unfold on_store, cmd_map_err, cmd_zoom. cbn. by rewrite E. Qed.

Lemma delete_resources_ok g l (s : S) d : ok_d d →
  ∃ d', delete_resources g l (s, d) = (Ok tt, (s, d')) ∧ ok_d d'.
Proof.
  revert d. induction l as [|r l IH]; intros d Hd; cbn; [by exists d|].
  destruct (ok_delete Hrel g r d Hd) as (o & d1 & E & Hd1).
  destruct (IH d1 Hd1) as (d2 & E2 & Hd2). exists d2. split; [|done].
  unfold mbind, Cmd_bind, cmd_bind, on_deleter, cmd_map_err, cmd_zoom. cbn. by rewrite E.
Qed.

Lemma lookup_exact_ok g i exact s (d : D) v :
  ok_s s → view s g i = Some v → drifted exact v = false →
  ∃ s', lookup_exact g i exact (s, d) = (Ok v, (s', d)) ∧ ok_s s' ∧
        ∀ g' i', view s' g' i' = view s g' i'.
Proof.
  intros Hs Hv Hd. destruct (ok_get Hrel g i s Hs) as (o & s' & E & Hs').
  destruct (get_view _ _ _ _ _ (ok_healthy Hrel s Hs) E) as (_ & Hsame & Ho).
  specialize (Ho o eq_refl) as ->. exists s'. split_and!; [|done|done].
  unfold lookup_exact, mbind, Cmd_bind, cmd_bind, cmd_lift.
  rewrite (on_store_ok _ _ _ _ _ _ E). rewrite Hv. cbn. by rewrite Hd.
Qed.

Lemma finish_ok g i claim v s d :
  ok_s s → ok_d d →
  (claim ≠ ClaimAlreadyDeleted → view s g i = Some v ∧ ai_status v = Deleting) →
  ∃ out s' d', finish_teardown g i claim v (s, d) = (Ok out, (s', d')) ∧ ok_s s' ∧ ok_d d'.
Proof.
  intros Hs Hd Hv. assert (claim = ClaimAlreadyDeleted ∨ claim ≠ ClaimAlreadyDeleted) as [->|Hc]
    by (destruct claim; auto).
  { by exists TornAlreadyDeleted, s, d. }
  specialize (Hv Hc) as [Hv Hst]. rewrite finish_manifest by done.
  destruct (delete_resources_ok g (manifest (ai_resources v)) s d Hd) as (d' & E & Hd').
  destruct (ok_mark Hrel g i s v Hs Hv Hst) as (o & s' & E' & Hs').
  eexists _, s', d'. split; [|done]. unfold mbind, Cmd_bind, cmd_bind.
  rewrite E. rewrite (on_store_ok _ _ _ _ _ _ E'). reflexivity.
Qed.

Lemma teardown_locked_ok g i exact s d v :
  ok_s s → ok_d d → view s g i = Some v → drifted exact v = false →
  ∃ out s' d', teardown_locked g i exact (s, d) = (Ok out, (s', d')) ∧ ok_s s' ∧ ok_d d'.
Proof.
  intros Hs Hd Hv Hdr.
  destruct (lookup_exact_ok g i exact s d v Hs Hv Hdr) as (s1 & E1 & Hs1 & Hv1).
  assert (view s1 g i = Some v) as Hv1' by by rewrite Hv1.
  destruct (ok_claim Hrel g i s1 v Hs1 Hv1') as (claim & s2 & E2 & Hs2).
  destruct (claim_view _ _ _ _ _ (ok_healthy Hrel s1 Hs1) E2) as (_ & _ & _ & Hok).
  specialize (Hok claim eq_refl). rewrite Hv1' in Hok. apply claim_effect in Hok.
  set (w := match claim with ClaimAlreadyDeleted => v | _ => set_status Deleting v end).
  assert (view s2 g i = Some w) as Hv2 by (by subst w; destruct claim; destruct Hok).
  assert (drifted exact w = false) as Hdr2 by (by subst w; destruct claim).
  destruct (lookup_exact_ok g i exact s2 d w Hs2 Hv2 Hdr2) as (s3 & E3 & Hs3 & Hv3).
  destruct (finish_ok g i claim w s3 d Hs3 Hd) as (out & s' & d' & E4 & Hs' & Hd').
  { intros Hc. rewrite Hv3. split; [done|]. subst w. by destruct claim. }
  exists out, s', d'. split; [|done]. unfold teardown_locked, mbind, Cmd_bind, cmd_bind.
  rewrite E1, (on_store_ok _ _ _ _ _ _ E2), E3. exact E4.
Qed.

Lemma teardown_reliable_effect g i exact s d v :
  ok_s s → ok_d d → no_orphans s d → view s g i = Some v → drifted exact v = false →
  ∃ out s' d', teardown_locked g i exact (s, d) = (Ok out, (s', d')) ∧ ok_s s' ∧ ok_d d' ∧
    found_in out (ai_status v) ∧ view s' g i = Some (set_status Deleted v) ∧
    all_gone d' g (manifest (ai_resources v)) ∧ same_elsewhere s s' g i.
Proof.
  intros Hs Hd Hn Hv Hdr.
  destruct (teardown_locked_ok g i exact s d v Hs Hd Hv Hdr) as (out & s' & d' & E & Hs' & Hd').
  exists out, s', d'. split; [done|]. split_and!; [done|done|..].
  all: apply teardown_locked_effect in E as (_ & E2 & _ & E4); [|by apply (ok_healthy Hrel)].
  4: done.
  all: destruct out; cbn in E4;
    [destruct E4 as (w & (A & B & C & F) & Hf & Hg)|destruct E4 as (w & (A & B & C & F) & Hf & Hg)
    |destruct E4 as (w & A & Hf & B & F & ->)|by destruct E4 as (w & _ & [] & _)];
    rewrite Hv in A; injection A as <-; try done.
  - rewrite F, <- Hf. by rewrite set_status_same.
  - by eapply Hn.
Qed.
End reliable.

(** ** The guarantees *)
Section guarantees.
Context {S D : Type} `{TeardownStoreLaws S} `{InstanceDeleterLaws D}.

(** What each answer of a teardown means. Completed and resumed teardowns found
    the instance live respectively half deleted, everything of its manifest is gone
    and it is marked deleted; a failed deletion leaves it marked as being deleted,
    with the resources before the failing one gone; a drifted or missing instance is
    not touched; other instances never are. *)
Theorem teardown_answers (s : S) (d : D) g i exact r s' d' :
  healthy s → teardown_locked g i exact (s, d) = (r, (s', d')) →
  same_elsewhere s s' g i ∧ still_gone d d' ∧ teardown_effect g i exact s d r s' d'.
Proof. intros Hs HR. by apply teardown_locked_effect in HR as (_ & HR). Qed.

(** C24: No sequence of teardown attempts, on any instances and with store or deleter
    failing anywhere, marks an instance deleted while one of its resources is left,
    moves an instance back, or changes anything of it but its status. *)
Theorem teardowns_leave_no_orphans (s : S) (d : D) attempts s' d' :
  healthy s → no_orphans s d → foldl attempt (s, d) attempts = (s', d') →
  no_orphans s' d' ∧ progressed s s'.
Proof. intros Hs Hn HF. by apply attempts_keep in HF as (_ & HF). Qed.

(** A teardown that failed can be resumed: whatever attempts came before, once
    store and deleter answer, one more attempt on an instance that matches the
    request completes it and leaves nothing of it behind. *)
Theorem teardown_resumes (ok_s : S → Prop) (ok_d : D → Prop) s d attempts s1 d1 g i exact v :
  Reliable ok_s ok_d → healthy s → no_orphans s d →
  foldl attempt (s, d) attempts = (s1, d1) → ok_s s1 → ok_d d1 →
  view s g i = Some v → drifted exact v = false →
  ∃ out s2 d2, teardown_locked g i exact (s1, d1) = (Ok out, (s2, d2)) ∧ out ≠ InProgress ∧
    view s2 g i = Some (set_status Deleted v) ∧ all_gone d2 g (manifest (ai_resources v)).
Proof.
  intros Hrel Hs Hn HF Hs1 Hd1 Hv Hdr.
  apply attempts_keep in HF as (_ & Hn1 & Hp); [|done|done].
  specialize (Hp g i). rewrite Hv in Hp. destruct Hp as (st & Hv1 & _).
  destruct (teardown_reliable_effect ok_s ok_d Hrel g i exact s1 d1 (set_status st v))
    as (out & s2 & d2 & E & _ & _ & Hf & Hv2 & Hg & _); [done..|].
  exists out, s2, d2. split_and!; [done|by intros ->|done|done].
Qed.
End guarantees.
