(* ===== verification/TeardownLocks.v ===== *)
(** * The teardown locks

    [try_lock] and the drop of its guard, interleaved between any number of
    threads. A key's entry is an [Arc<LockEntry>] kept in a registry behind a
    mutex; the flag in it is taken by compare-and-exchange outside the mutex, and
    the guard's drop clears the flag and removes the entry when nobody else refers
    to it. The steps are those at which another thread can run in between. *)

From Stdlib Require Import ZArith Lia String.
From stdpp Require Import base decidable list strings gmap numbers relations sets.
From S2P Require Import Prelude RustStd DiscordModel.
Open Scope nat_scope.

(** [TeardownKey] *)
Definition TeardownKey : Type := Z * string.

(** Where a thread is: it has cloned the entry of a key, it holds the guard, it is
    dropping the guard, with the registry locked and the flag cleared, or it is done with
    the registry and only its reference to the entry is left to be dropped. *)
Inductive ThreadState :=
| Cloned (key : TeardownKey) (entry : nat)
| Holding (key : TeardownKey) (entry : nat)
| Dropping (key : TeardownKey) (entry : nat)
| Leaving (key : TeardownKey) (entry : nat).

Record LockState := mkLocks {
  registry : gmap TeardownKey nat;
  held : gset nat;
  allocated : nat;
  threads : gmap nat ThreadState
}.

Definition initial_locks : LockState := mkLocks ∅ ∅ 0 ∅.

Definition thread_ref (t : ThreadState) : TeardownKey * nat :=
  match t with Cloned k e | Holding k e | Dropping k e | Leaving k e => (k, e) end.

Definition is_leaving (t : ThreadState) : bool := match t with Leaving _ _ => true | _ => false end.

(** [Arc::strong_count]: the registry's references and the threads'. *)
Definition strong_count (l : LockState) (e : nat) : nat :=
  size (filter (λ p : TeardownKey * nat, p.2 = e) (registry l))
  + size (filter (λ p : nat * ThreadState, (thread_ref p.2).2 = e) (threads l)).

(** The registry's mutex is free. *)
Definition mutex_free (l : LockState) : Prop :=
  ∀ t k e, threads l !! t ≠ Some (Dropping k e).

Definition set_thread (t : nat) (s : ThreadState) (l : LockState) : LockState :=
  mkLocks (registry l) (held l) (allocated l) (<[t := s]> (threads l)).
Definition end_thread (t : nat) (l : LockState) : LockState :=
  mkLocks (registry l) (held l) (allocated l) (delete t (threads l)).
Definition set_held (h : gset nat) (l : LockState) : LockState :=
  mkLocks (registry l) h (allocated l) (threads l).

Inductive lock_step (l : LockState) : LockState → Prop :=
(** [locks.entry(key).or_default().clone()], the entry present *)
| step_clone t k e :
    mutex_free l → threads l !! t = None → registry l !! k = Some e →
    lock_step l (set_thread t (Cloned k e) l)
(** ... or made for the occasion *)
| step_create t k :
    mutex_free l → threads l !! t = None → registry l !! k = None →
    lock_step l (set_thread t (Cloned k (allocated l))
      (mkLocks (<[k := allocated l]> (registry l)) (held l) (S (allocated l)) (threads l)))
(** [compare_exchange(false, true)] *)
| step_acquire t k e :
    threads l !! t = Some (Cloned k e) → e ∉ held l →
    lock_step l (set_thread t (Holding k e) (set_held ({[e]} ∪ held l) l))
(** ... which fails, and [None] is returned *)
| step_refuse t k e :
    threads l !! t = Some (Cloned k e) → e ∈ held l →
    lock_step l (set_thread t (Leaving k e) l)
(** the guard's drop locks the registry and clears the flag *)
| step_release t k e :
    mutex_free l → threads l !! t = Some (Holding k e) →
    lock_step l (set_thread t (Dropping k e) (set_held (held l ∖ {[e]}) l))
(** ... removes the entry if only the registry and the guard refer to it *)
| step_remove t k e :
    threads l !! t = Some (Dropping k e) →
    strong_count l e = 2 → registry l !! k = Some e →
    lock_step l (set_thread t (Leaving k e)
      (mkLocks (delete k (registry l)) (held l) (allocated l) (threads l)))
(** ... and otherwise leaves it; the registry is unlocked *)
| step_keep t k e :
    threads l !! t = Some (Dropping k e) →
    (strong_count l e ≠ 2 ∨ registry l !! k ≠ Some e) →
    lock_step l (set_thread t (Leaving k e) l)
(** the reference to the entry is dropped *)
| step_end t k e :
    threads l !! t = Some (Leaving k e) →
    lock_step l (end_thread t l).

Definition reachable (l : LockState) : Prop := rtc lock_step initial_locks l.

(** ** The invariant *)
Record locks_inv (l : LockState) : Prop := mkInv {
  inv_ref t s : threads l !! t = Some s → is_leaving s = false →
    registry l !! (thread_ref s).1 = Some (thread_ref s).2;
  inv_inj k k' e : registry l !! k = Some e → registry l !! k' = Some e → k = k';
  inv_alloc k e : registry l !! k = Some e → e < allocated l;
  inv_held_alloc e : e ∈ held l → e < allocated l;
  inv_holding t k e : threads l !! t = Some (Holding k e) → e ∈ held l;
  inv_unique t t' k e k' e' : threads l !! t = Some (Holding k e) →
    threads l !! t' = Some (Holding k' e') → e = e' → t = t';
  inv_held e : e ∈ held l → ∃ t k, threads l !! t = Some (Holding k e)
}.

Lemma initial_locks_inv : locks_inv initial_locks.
Proof. split; cbn; intros; simplify_map_eq; set_solver. Qed.

Lemma size_pos {K A} `{Countable K} (m : gmap K A) k x : m !! k = Some x → 1 ≤ size m.
Proof. intros E. rewrite <- (insert_delete_id m k x E), map_size_insert_None; [lia|apply lookup_delete_eq]. Qed.

Lemma size_two {K A} `{Countable K} (m : gmap K A) k k' x x' :
  k ≠ k' → m !! k = Some x → m !! k' = Some x' → 2 ≤ size m.
Proof.
  intros Hne E E'. rewrite <- (insert_delete_id m k x E).
  rewrite map_size_insert_None by apply lookup_delete_eq.
  pose proof (size_pos (delete k m) k' x'). rewrite lookup_delete_ne in H0 by done. specialize (H0 E'). lia.
Qed.

(** When only two references are left they are the registry's and the guard's. *)
Lemma count_two_alone l t s k t' s' :
  threads l !! t = Some s → threads l !! t' = Some s' → t ≠ t' →
  (thread_ref s).2 = (thread_ref s').2 → registry l !! k = Some (thread_ref s).2 →
  strong_count l (thread_ref s).2 ≠ 2.
Proof.
  intros E E' Hne He Hk. unfold strong_count.
  pose proof (size_pos (filter (λ p : TeardownKey * nat, p.2 = (thread_ref s).2) (registry l)) k
    (thread_ref s).2) as H1.
  rewrite map_lookup_filter_Some in H1. specialize (H1 (conj Hk eq_refl)).
  pose proof (size_two (filter (λ p : nat * ThreadState, (thread_ref p.2).2 = (thread_ref s).2)
    (threads l)) t t' s s' Hne) as H2.
  rewrite !map_lookup_filter_Some in H2. specialize (H2 (conj E eq_refl) (conj E' (eq_sym He))). lia.
Qed.

(** Threads other than the one that moved. *)
Ltac other_thread :=
  repeat match goal with
         | H : <[?t := _]> _ !! ?t' = Some _ |- _ =>
             apply lookup_insert_Some in H as [[? H]|[? H]]; simplify_eq; try done
         | H : delete _ _ !! _ = Some _ |- _ => apply lookup_delete_Some in H as [? H]
         end.

Lemma create_inv l t k :
  locks_inv l → threads l !! t = None → registry l !! k = None →
  locks_inv (set_thread t (Cloned k (allocated l))
    (mkLocks (<[k := allocated l]> (registry l)) (held l) (S (allocated l)) (threads l))).
Proof.
  intros [Href Hinj Hal Hha Hho Hun Hhe] Ht Hk. split; cbn.
  - intros t' s H Hs. other_thread; cbn; [by rewrite lookup_insert_eq|].
    specialize (Href _ _ H Hs). rewrite lookup_insert_ne; [done|]. congruence.
  - intros k1 k2 e H1 H2. other_thread.
    + apply Hal in H1. lia.
    + apply Hal in H2. lia.
    + by eapply Hinj.
  - intros k1 e H1. other_thread; [lia|]. apply Hal in H1. lia.
  - intros e He. apply Hha in He. lia.
  - intros t' k' e H. other_thread. by eapply Hho.
  - intros t1 t2 k1 e1 k2 e2 H1 H2. other_thread. by eapply Hun.
  - intros e He. destruct (Hhe e He) as (t' & k' & H). exists t', k'.
    rewrite lookup_insert_ne; [done|]. congruence.
Qed.

Lemma clone_inv l t k e :
  locks_inv l → threads l !! t = None → registry l !! k = Some e →
  locks_inv (set_thread t (Cloned k e) l).
Proof.
  intros [Href Hinj Hal Hha Hho Hun Hhe] Ht Hk. split; cbn; try done.
  - intros t' s H Hs. other_thread. by apply (Href t').
  - intros t' k' e' H. other_thread. by eapply Hho.
  - intros t1 t2 k1 e1 k2 e2 H1 H2. other_thread. by eapply Hun.
  - intros e' He. destruct (Hhe e' He) as (t' & k' & H). exists t', k'.
    rewrite lookup_insert_ne; [done|]. congruence.
Qed.

Lemma acquire_inv l t k e :
  locks_inv l → threads l !! t = Some (Cloned k e) → e ∉ held l →
  locks_inv (set_thread t (Holding k e) (set_held ({[e]} ∪ held l) l)).
Proof.
  intros [Href Hinj Hal Hha Hho Hun Hhe] Ht He. pose proof (Href _ _ Ht eq_refl) as Hk. cbn in Hk.
  split; cbn; try done.
  - intros t' s H Hs. other_thread. by apply (Href t').
  - intros e' [->%elem_of_singleton|H]%elem_of_union; [by apply (Hal k)|by apply Hha].
  - intros t' k' e' H. other_thread; [set_solver|]. apply Hho in H. set_solver.
  - intros t1 t2 k1 e1 k2 e2 H1 H2 ->. other_thread.
    + by apply Hho in H1.
    + by apply Hho in H2.
    + by eapply Hun.
  - intros e' [->%elem_of_singleton|H]%elem_of_union.
    + exists t, k. by rewrite lookup_insert_eq.
    + destruct (Hhe e' H) as (t' & k' & Ht'). exists t', k'.
      rewrite lookup_insert_ne; [done|]. congruence.
Qed.

Lemma release_inv l t k e :
  locks_inv l → threads l !! t = Some (Holding k e) →
  locks_inv (set_thread t (Dropping k e) (set_held (held l ∖ {[e]}) l)).
Proof.
  intros [Href Hinj Hal Hha Hho Hun Hhe] Ht. split; cbn; try done.
  - intros t' s H Hs. other_thread; [by apply (Href _ _ Ht)|by apply (Href t')].
  - intros e' He. apply Hha. set_solver.
  - intros t' k' e' H. other_thread. apply elem_of_difference. split; [by eapply Hho|].
    intros ->%elem_of_singleton. pose proof (Hun _ _ _ _ _ _ Ht H eq_refl). done.
  - intros t1 t2 k1 e1 k2 e2 H1 H2. other_thread. by eapply Hun.
  - intros e' [He Hne]%elem_of_difference. destruct (Hhe e' He) as (t' & k' & H). exists t', k'.
    rewrite lookup_insert_ne; [done|]. intros ->. rewrite Ht in H. set_solver.
Qed.

(** A thread that does not hold the lock may leave. *)
Lemma leave_inv l t s k e :
  locks_inv l → threads l !! t = Some s → (∀ k e, s ≠ Holding k e) →
  locks_inv (set_thread t (Leaving k e) l).
Proof.
  intros [Href Hinj Hal Hha Hho Hun Hhe] Ht Hs. split; cbn; try done.
  - intros t' s' H Hs'. other_thread. by apply (Href t').
  - intros t' k' e' H. other_thread. by eapply Hho.
  - intros t1 t2 k1 e1 k2 e2 H1 H2. other_thread. by eapply Hun.
  - intros e' He. destruct (Hhe e' He) as (t' & k' & H). exists t', k'.
    rewrite lookup_insert_ne; [done|]. intros ->. rewrite Ht in H. by injection H as ->; eapply Hs.
Qed.

Lemma end_inv l t k e :
  locks_inv l → threads l !! t = Some (Leaving k e) → locks_inv (end_thread t l).
Proof.
  intros [Href Hinj Hal Hha Hho Hun Hhe] Ht. split; cbn; try done.
  - intros t' s' H Hs. other_thread. by apply (Href t').
  - intros t' k' e' H. other_thread. by eapply Hho.
  - intros t1 t2 k1 e1 k2 e2 H1 H2. other_thread. by eapply Hun.
  - intros e' He. destruct (Hhe e' He) as (t' & k' & H). exists t', k'.
    rewrite lookup_delete_ne; [done|]. congruence.
Qed.

Lemma remove_inv l t k e :
  locks_inv l → threads l !! t = Some (Dropping k e) → strong_count l e = 2 →
  registry l !! k = Some e →
  locks_inv (set_thread t (Leaving k e) (mkLocks (delete k (registry l)) (held l) (allocated l) (threads l))).
Proof.
  intros Hl Ht Hc Hk. pose proof (leave_inv l t _ k e Hl Ht ltac:(done)) as Hend.
  destruct Hl as [Href Hinj Hal Hha Hho Hun Hhe]. destruct Hend as [_ _ _ _ Hho' Hun' Hhe'].
  split; cbn in *; try done.
  - intros t' s H Hs. other_thread. pose proof (Href _ _ H Hs) as Hr. rewrite lookup_delete_ne; [done|].
    intros Heq. rewrite <- Heq in Hr. assert (e = (thread_ref s).2) as He by congruence.
    by eapply (count_two_alone l t (Dropping k e) k t' s).
  - intros k1 k2 e' H1 H2. other_thread. by eapply Hinj.
  - intros k' e' H. other_thread. by eapply Hal.
Qed.

Lemma step_inv l l' : lock_step l l' → locks_inv l → locks_inv l'.
Proof.
  intros Hstep Hl. destruct Hstep.
  - by apply clone_inv.
  - by apply create_inv.
  - by apply acquire_inv.
  - by eapply leave_inv.
  - by apply release_inv.
  - by apply remove_inv.
  - by eapply leave_inv.
  - by eapply end_inv.
Qed.

Lemma reachable_inv l : reachable l → locks_inv l.
Proof.
  unfold reachable. intros H. pose proof initial_locks_inv as Hi. revert H Hi.
  generalize initial_locks. induction 1 as [|l1 l2 l3 H12 _ IH]; [done|].
  intros H1. by apply IH, (step_inv l1).
Qed.

(** C26: However the threads interleave, two of them never hold the lock of one
    instance; and a thread that has reached the flag is refused exactly when some
    other thread holds the instance, so an answer [InProgress] is true when given. *)
Theorem teardown_lock_exclusive l :
  reachable l →
  (∀ t t' k e e', threads l !! t = Some (Holding k e) → threads l !! t' = Some (Holding k e') → t = t') ∧
  (∀ t k e, threads l !! t = Some (Cloned k e) →
     e ∈ held l ↔ ∃ t' e', t' ≠ t ∧ threads l !! t' = Some (Holding k e')).
Proof.
  intros Hl%reachable_inv. split.
  - intros t t' k e e' H H'. pose proof (inv_ref _ Hl _ _ H eq_refl) as R. pose proof (inv_ref _ Hl _ _ H' eq_refl) as R'.
    cbn in R, R'. eapply (inv_unique _ Hl); [done|done|congruence].
  - intros t k e H. pose proof (inv_ref _ Hl _ _ H eq_refl) as R. cbn in R. split.
    + intros (t' & k' & H')%(inv_held _ Hl). pose proof (inv_ref _ Hl _ _ H' eq_refl) as R'. cbn in R'.
      rewrite (inv_inj _ Hl _ _ _ R' R) in H'. exists t', e. split; [congruence|done].
    + intros (t' & e' & _ & H'). pose proof (inv_ref _ Hl _ _ H' eq_refl) as R'. cbn in R'.
      rewrite R in R'. injection R' as ->. by eapply (inv_holding _ Hl).
Qed.

(** Two threads after one key: the second reaches the flag while the first holds it. *)
Definition contended_locks : LockState :=
  mkLocks {[ (1%Z, "a"%string) := 0 ]} {[0]} 1
    {[ 0 := Holding (1%Z, "a"%string) 0; 1 := Cloned (1%Z, "a"%string) 0 ]}.

Lemma contended_reachable : reachable contended_locks.
Proof.
  eapply rtc_l; [apply (step_create _ 0 (1%Z, "a"%string)); [by intros ?|done|done]|].
  eapply rtc_l; [apply (step_acquire _ 0 (1%Z, "a"%string) 0); [by vm_compute|set_solver]|].
  eapply rtc_l; [apply (step_clone _ 1 (1%Z, "a"%string) 0); [|by vm_compute|by vm_compute]|].
  { intros t k e. cbn. intros [[_ ?]|[_ [[_ ?]|[_ ?]]%lookup_insert_Some]]%lookup_insert_Some; done. }
  match goal with |- rtc _ ?x ?y => replace x with y by (vm_compute; reflexivity) end.
  apply rtc_refl.
Qed.

Lemma teardown_lock_exclusive_witness :
  0 ∈ held contended_locks ↔
  ∃ t' e', t' ≠ 1 ∧ threads contended_locks !! t' = Some (Holding (1%Z, "a"%string) e').
Proof.
  apply (teardown_lock_exclusive contended_locks contended_reachable). vm_compute. reflexivity.
Defined.
