(* ===== verification/InstanceScan.v ===== *)
(** * The paged scan of pending deletions

    [scan_retryable_v2] lists the instances awaiting deletion a page at a time, in
    the order the database would. The lemmas relate a page to the sorted list of
    all pending keys: a page is a stretch of it, and its cursor continues where the
    page ended, so that no key of the window is missed. *)

From Stdlib Require Import ZArith Lia Ascii String.
From stdpp Require Import base decidable list strings gmap numbers sorting.
From S2P Require Import Prelude RustStd RustText Instance InstanceStore.
Open Scope Z_scope.

(** ** The order of keys *)
Definition key_text (k : InstanceTeardownRetryKeyV2) : string * string :=
  (print_u64 (rk_guild_id k), rk_instance_id k).

Definition key_lt (a b : InstanceTeardownRetryKeyV2) : Prop := cmp_c_v2 a b = Lt.

Lemma cmp_key_text a b : cmp_c_v2 a b = cmp (key_text a) (key_text b).
Proof. done. Qed.

Lemma key_lt_trans a b c : key_lt a b → key_lt b c → key_lt a c.
Proof. unfold key_lt. rewrite !cmp_key_text. apply cmp_lt_trans. Qed.

Lemma key_lt_irrefl a : ¬ key_lt a a.
Proof. unfold key_lt. rewrite cmp_key_text, cmp_refl. done. Qed.

Lemma key_gt_true a b : key_gt a b = true ↔ key_lt b a.
Proof.
  unfold key_gt, key_lt. rewrite !cmp_key_text, <- (cmp_gt_lt (key_text a)).
  by destruct (cmp _ _).
Qed.

Lemma key_gt_false a b : key_gt a b = false ↔ key_le a b.
Proof. unfold key_gt, key_le. destruct (cmp_c_v2 a b); split; congruence. Qed.

Lemma key_lt_le a b : key_lt a b → key_le a b.
Proof. unfold key_lt, key_le. congruence. Qed.

Lemma key_le_cases a b : key_le a b → key_text a = key_text b ∨ key_lt a b.
Proof.
  unfold key_le, key_lt. rewrite cmp_key_text. destruct (cmp _ _) eqn:E; [|by right|done].
  left. by apply cmp_eq_iff.
Qed.

Lemma key_lt_le_trans a b c : key_lt a b → key_le b c → key_lt a c.
Proof.
  intros Hab [Hbc|Hbc]%key_le_cases; [|by eapply key_lt_trans].
  unfold key_lt in *. rewrite cmp_key_text in *. by rewrite <- Hbc.
Qed.

#[export] Instance key_le_trans : Transitive key_le.
Proof.
  intros a b c Hab Hbc. apply key_le_cases in Hab as [Hab|Hab].
  - unfold key_le in *. rewrite cmp_key_text in *. by rewrite Hab.
  - by apply key_lt_le, (key_lt_le_trans _ b).
Qed.

#[export] Instance key_le_total : Total key_le.
Proof.
  intros a b. unfold key_le. rewrite !cmp_key_text, (cmp_antisym (key_text a)).
  destruct (cmp (key_text a) (key_text b)); cbn; auto.
Qed.

Definition key_valid (k : InstanceTeardownRetryKeyV2) : Prop :=
  rk_guild_id k ≠ 0 ∧ u64_valid (rk_guild_id k).

Lemma key_text_inj a b : key_valid a → key_valid b → key_text a = key_text b → a = b.
Proof.
  destruct a as [ga ia], b as [gb ib]. intros [_ Ha] [_ Hb] [= Hg ->]. cbn in *. f_equal.
  by apply print_u64_inj.
Qed.

(** ** The pending keys of a store *)
Definition is_pending (st : InMemoryInstanceStore) (k : InstanceTeardownRetryKeyV2) : Prop :=
  ∃ v, store_find st (rk_guild_id k) (rk_instance_id k) = Some v ∧ ai_status v = Deleting.

(** Guilds have the ids Discord gives them. *)
Definition store_ids_valid (st : InMemoryInstanceStore) : Prop :=
  ∀ g i v, store_find st g i = Some v → g ≠ 0 ∧ u64_valid g.

Definition raw_keys (st : InMemoryInstanceStore) : list (Z * string) :=
  st ≫= λ '(g, entries), (λ instance, (g, ai_id instance)) <$>
                           filter (λ i, is_deleting i) entries.*2.

Lemma table_elem g entries v :
  table_wf g entries → v ∈ entries.*2 ↔ bt_get entries (ai_id v) = Some v.
Proof.
  intros [Hs He]. rewrite list_elem_of_fmap. split.
  - intros ([i w] & -> & Hin). apply bt_get_elem in Hin; [|done]. cbn.
    by rewrite (proj1 (He _ _ Hin)).
  - intros H. exists (ai_id v, v). split; [done|]. by apply bt_get_elem.
Qed.

Lemma raw_keys_elem st g i : store_wf st →
  (g, i) ∈ raw_keys st ↔ is_pending st (mkRetryKey g i).
Proof.
  intros [Hs He]. unfold raw_keys, is_pending, store_find. cbn.
  rewrite list_elem_of_bind. split.
  - intros ([g' entries] & Hin & Hst). apply list_elem_of_fmap in Hin as (v & [= -> ->] & Hv).
    apply list_elem_of_filter in Hv as [Hd Hv]. apply bt_get_elem in Hst; [|done].
    apply (table_elem g') in Hv; [|by apply He]. exists v. rewrite Hst. cbn. split; [done|].
    unfold is_deleting in Hd. by apply bool_decide_unpack in Hd.
  - intros (v & Hv & Hd). destruct (bt_get st g) as [entries|] eqn:E; [|done]. cbn in Hv.
    exists (g, entries). split; [|by apply bt_get_elem].
    destruct (He _ _ E) as [Hs' He']. destruct (He' _ _ Hv) as [<- _].
    apply list_elem_of_fmap. exists v. split; [done|]. apply list_elem_of_filter.
    split; [by apply bool_decide_pack|]. by apply (table_elem g).
Qed.

Lemma raw_keys_NoDup st : store_wf st → NoDup (raw_keys st).
Proof.
  intros [Hs He]. apply NoDup_bind.
  - intros [g1 e1] [g2 e2] y H1 H2 Hy1 Hy2.
    apply list_elem_of_fmap in Hy1 as (v1 & -> & _), Hy2 as (v2 & [= -> _] & _).
    apply bt_get_elem in H1, H2; [|done..]. congruence.
  - intros [g entries] H. apply bt_get_elem in H; [|done]. destruct (He _ _ H) as [Hs' He'].
    apply NoDup_fmap_2_strong.
    + intros v w Hv Hw [= Hid]. apply list_elem_of_filter in Hv as [_ Hv], Hw as [_ Hw].
      apply (table_elem g) in Hv, Hw; [|done..]. congruence.
    + apply NoDup_filter. apply NoDup_fmap_2_strong.
      * intros [i v] [j w] Hv Hw. cbn. intros ->. f_equal. apply bt_get_elem in Hv, Hw; [|done..].
        apply He' in Hv, Hw. naive_solver.
      * eapply NoDup_fmap_1, bt_sorted_NoDup, Hs'.
  - eapply NoDup_fmap_1, bt_sorted_NoDup, Hs.
Qed.

Lemma mapM_keys (l : list (Z * string)) :
  (∀ g i, (g, i) ∈ l → g ≠ 0) →
  mapM (λ '(g, i), retry_key_new g i) l = Some ((λ '(g, i), mkRetryKey g i) <$> l).
Proof.
  induction l as [|[g i] l IH]; intros Hl; [done|].
  assert (retry_key_new g i = Some (mkRetryKey g i)) as E.
  { unfold retry_key_new. by rewrite (proj2 (Z.eqb_neq g 0)) by (apply (Hl g i); left). }
  cbn -[retry_key_new]. rewrite E. cbn -[retry_key_new].
  rewrite IH; [done|]. intros g' i' H. apply (Hl g' i'). by right.
Qed.

(** The keys the scan sorts, as one strictly increasing list. *)
Definition pending (st : InMemoryInstanceStore) : list InstanceTeardownRetryKeyV2 :=
  merge_sort key_le ((λ '(g, i), mkRetryKey g i) <$> raw_keys st).

Lemma pending_elem st k : store_wf st → k ∈ pending st ↔ is_pending st k.
Proof.
  intros Hwf. unfold pending. rewrite merge_sort_Permutation, list_elem_of_fmap. destruct k as [g i].
  split.
  - intros ([g' i'] & [= -> ->] & H). by apply raw_keys_elem.
  - intros H. exists (g, i). split; [done|]. by apply raw_keys_elem.
Qed.

Lemma pending_valid st k :
  store_wf st → store_ids_valid st → k ∈ pending st → key_valid k.
Proof. intros Hwf Hid (v & Hv & _)%pending_elem; [|done]. by apply Hid in Hv. Qed.

Lemma strictly_sorted l :
  StronglySorted key_le l → NoDup l → (∀ k, k ∈ l → key_valid k) → StronglySorted key_lt l.
Proof.
  induction 1 as [|a l Hl IH Ha]; intros Hnd Hv; [constructor|].
  apply NoDup_cons in Hnd as [Hnin Hnd]. constructor.
  - apply IH; [done|]. intros k Hk. apply Hv. by right.
  - rewrite Forall_forall in *. intros b Hb. destruct (key_le_cases a b (Ha b Hb)) as [E|E]; [|done].
    apply key_text_inj in E; [by subst b|apply Hv; left|apply Hv; by right].
Qed.

Lemma pending_sorted st :
  store_wf st → store_ids_valid st → StronglySorted key_lt (pending st).
Proof.
  intros Hwf Hid. apply strictly_sorted.
  - apply StronglySorted_merge_sort; apply _.
  - unfold pending. rewrite merge_sort_Permutation. apply NoDup_fmap_2; [|by apply raw_keys_NoDup].
    by intros [g i] [g' i'] [= -> ->].
  - intros k. by apply pending_valid.
Qed.

(** ** Pages *)
Lemma sorted_in_order l : StronglySorted key_lt l → out_of_order l = false.
Proof.
  induction 1 as [|a l Hl IH Ha]; [done|]. destruct l as [|b l]; [done|].
  cbn [out_of_order]. apply Forall_cons_1 in Ha as [Ha _]. unfold key_lt in Ha. by rewrite Ha.
Qed.

Lemma sorted_take {A} (R : A → A → Prop) n l : StronglySorted R l → StronglySorted R (take n l).
Proof. intros H. rewrite <- (take_drop n l) in H. by apply sorted_app in H as (? & _). Qed.

(** What a page holds. *)
Definition page_through (cursor : InstanceTeardownRetryScanCursorV2) (st : InMemoryInstanceStore)
  : option InstanceTeardownRetryKeyV2 :=
  match cu_through cursor with Some t => Some t | None => last (pending st) end.

Definition page_keys (cursor : InstanceTeardownRetryScanCursorV2) (limit : nat)
    (st : InMemoryInstanceStore) : list InstanceTeardownRetryKeyV2 :=
  take limit (filter (λ k, in_window cursor (page_through cursor st) k) (pending st)).

Lemma deleting_keys_total st :
  store_wf st → store_ids_valid st →
  deleting_keys st = Some ((λ '(g, i), mkRetryKey g i) <$> raw_keys st).
Proof.
  intros Hwf Hid. apply mapM_keys. intros g i (v & Hv & _)%raw_keys_elem; [|done]. exact (proj1 (Hid _ _ _ Hv)).
Qed.

Lemma scan_page cursor limit st :
  store_wf st → store_ids_valid st → (limit ≤ 256)%nat →
  scan_retryable_v2 cursor limit st =
  Some (Ok (mkPage (page_keys cursor limit st) (page_through cursor st))).
Proof.
  intros Hwf Hid Hl. unfold scan_retryable_v2.
  rewrite bool_decide_false by (unfold MAX_INSTANCE_TEARDOWN_RETRY_SCAN_BATCH_V2; lia).
  rewrite deleting_keys_total by done. cbn [mbind option_bind].
  change (merge_sort key_le _) with (pending st).
  change (match cu_through cursor with Some t => Some t | None => last (pending st) end)
    with (page_through cursor st).
  change (take limit _) with (page_keys cursor limit st).
  unfold page_new. set (keys := page_keys cursor limit st).
  assert (∀ k, k ∈ keys → in_window cursor (page_through cursor st) k = true) as Hwin.
  { intros k Hk. apply elem_of_take in Hk as (j & Hj & _). apply list_elem_of_lookup_2 in Hj.
    apply list_elem_of_filter in Hj as [Hj _]. by apply Is_true_true. }
  rewrite bool_decide_false by (unfold MAX_INSTANCE_TEARDOWN_RETRY_SCAN_BATCH_V2; lia).
  rewrite bool_decide_false by (subst keys; unfold page_keys; rewrite length_take; lia).
  rewrite sorted_in_order by (apply sorted_take, sorted_filter; by apply pending_sorted).
  replace (existsb _ keys) with false.
  - destruct (page_through cursor st) as [t|] eqn:E.
    + rewrite (bool_decide_false (Some t = None)) by done. by rewrite andb_false_r.
    + replace keys with (@nil InstanceTeardownRetryKeyV2); [done|].
      destruct keys as [|k ks]; [done|]. specialize (Hwin k ltac:(left)).
      unfold in_window in Hwin. cbn in Hwin. by rewrite andb_false_r in Hwin.
  - symmetry. apply not_true_iff_false. rewrite existsb_exists. intros (k & Hk & Hg).
    apply list_elem_of_In in Hk. specialize (Hwin k Hk). unfold in_window in Hwin.
    apply andb_true_iff in Hwin as [_ Hw]. destruct (page_through cursor st); [|done].
    cbn in *. by rewrite Hg in Hw.
Qed.

(** Strictly sorted lists with the same elements are the same. *)
Lemma sorted_unique l l' :
  StronglySorted key_lt l → StronglySorted key_lt l' → (∀ k, k ∈ l ↔ k ∈ l') → l = l'.
Proof.
  intros Hl Hl' Hel.
  assert (∀ l, StronglySorted key_lt l → NoDup l) as Hnd.
  { clear. induction 1 as [|a l Hl IH Ha]; constructor; [|done].
    intros Hin. rewrite Forall_forall in Ha. by apply (key_lt_irrefl a), Ha. }
  eapply (StronglySorted_unique_strong key_lt); [|done|done|by apply NoDup_Permutation; auto].
  intros a b _ _ Hab Hba. by destruct (key_lt_irrefl a (key_lt_trans _ _ _ Hab Hba)).
Qed.

Lemma sorted_last_le l k t :
  StronglySorted key_lt l → last l = Some t → k ∈ l → k = t ∨ key_lt k t.
Proof.
  intros Hl Ht Hk. apply last_Some in Ht as [l' ->].
  apply sorted_app in Hl as (_ & _ & Hl). apply elem_of_app in Hk as [Hk|Hk].
  - right. apply Hl; [done|left].
  - left. by apply list_elem_of_singleton in Hk.
Qed.

(** ** Following the cursor

    A page and the cursor it hands out together miss no pending key of the window: it is
    on the page, or in the window of the next cursor. *)
Definition next_after (cursor : InstanceTeardownRetryScanCursorV2) (limit : nat) (st : InMemoryInstanceStore)
  : InstanceTeardownRetryScanCursorV2 :=
  default cursor_initial (next_cursor_v2 (mkPage (page_keys cursor limit st) (page_through cursor st))).

(** The keys a cursor still has to hand out. *)
Definition ahead (cursor : InstanceTeardownRetryScanCursorV2) (k : InstanceTeardownRetryKeyV2) : Prop :=
  ∃ a t, cursor = mkCursor (Some a) (Some t) ∧ key_lt a k ∧ key_le k t.

Lemma key_le_last rest k t : StronglySorted key_lt rest → last rest = Some t → k ∈ rest → key_le k t.
Proof.
  intros Hs Et Hk. destruct (sorted_last_le rest k t Hs Et Hk) as [->|Hlt]; [|by apply key_lt_le].
  unfold key_le. by rewrite cmp_key_text, cmp_refl.
Qed.

Lemma page_keys_sorted cursor limit st :
  store_wf st → store_ids_valid st → StronglySorted key_lt (page_keys cursor limit st).
Proof. intros. by apply sorted_take, sorted_filter, pending_sorted. Qed.

Lemma page_keys_elem cursor limit st k :
  store_wf st → k ∈ page_keys cursor limit st →
  is_pending st k ∧ ∀ a, cu_after cursor = Some a → key_lt a k.
Proof.
  intros Hwf Hk. apply elem_of_take in Hk as (j & Hj%list_elem_of_lookup_2 & _).
  apply list_elem_of_filter in Hj as [[Hw _]%Is_true_true%andb_true_iff Hj].
  split; [by apply pending_elem|]. intros a Ha. rewrite Ha in Hw. by apply key_gt_true in Hw.
Qed.

Lemma page_misses cursor limit st k :
  store_wf st → store_ids_valid st → (0 < limit)%nat → is_pending st k →
  in_window cursor (page_through cursor st) k = true →
  k ∈ page_keys cursor limit st ∨ ∃ a, last (page_keys cursor limit st) = Some a ∧ key_lt a k.
Proof.
  intros Hwf Hid Hl Hk Hw. unfold page_keys. set (l := filter _ (pending st)).
  assert (Hin : k ∈ l).
  { apply list_elem_of_filter. split; [by apply Is_true_true|by apply pending_elem]. }
  assert (Hs : StronglySorted key_lt l) by (by apply sorted_filter, pending_sorted).
  rewrite <- (take_drop limit l) in Hin, Hs. apply elem_of_app in Hin as [?|Hin]; [by left|right].
  apply sorted_app in Hs as (_ & _ & Hs). destruct (last (take limit l)) as [a|] eqn:Ea.
  - exists a. split; [done|]. apply Hs; [|done]. apply last_Some in Ea as [l' ->]. apply elem_of_app. right. left.
  - apply last_None in Ea. destruct l; [by rewrite drop_nil in Hin; apply not_elem_of_nil in Hin|].
    by destruct limit; [lia|].
Qed.

Lemma page_covers cursor limit st k :
  store_wf st → store_ids_valid st → (0 < limit)%nat → is_pending st k →
  cursor = cursor_initial ∨ ahead cursor k →
  k ∈ page_keys cursor limit st ∨ ahead (next_after cursor limit st) k.
Proof.
  intros Hwf Hid Hl Hk Hc. assert (Hkp := proj2 (pending_elem st k Hwf) Hk).
  assert (∃ t, page_through cursor st = Some t ∧ key_le k t ∧ in_window cursor (Some t) k = true)
    as (t & Ht & Hkt & Hw).
  { destruct Hc as [->|(a & t & -> & Ha & Ht)].
    - unfold page_through. cbn. destruct (last (pending st)) as [t|] eqn:Et.
      + assert (key_le k t) by (by eapply key_le_last; [apply pending_sorted|..]).
        exists t. split_and!; [done..|]. unfold in_window. cbn. by apply negb_true_iff, key_gt_false.
      + apply last_None in Et. rewrite Et in Hkp. by apply not_elem_of_nil in Hkp.
    - exists t. split_and!; [done..|]. unfold in_window. cbn.
      by rewrite (proj2 (key_gt_true k a)), (proj2 (key_gt_false k t)). }
  rewrite <- Ht in Hw. apply (page_misses _ limit) in Hw as [?|(a & Ea & Hak)]; [by left|right|done..].
  unfold next_after, next_cursor_v2. cbn [pg_keys pg_through]. rewrite Ea, Ht. cbn [mbind option_bind].
  unfold cursor_continue_after. rewrite (key_lt_le_trans a k t Hak Hkt). by exists a, t.
Qed.

Lemma next_after_shape cursor limit st :
  next_after cursor limit st = cursor_initial ∨
  ∃ a t, next_after cursor limit st = mkCursor (Some a) (Some t) ∧ last (page_keys cursor limit st) = Some a.
Proof.
  unfold next_after, next_cursor_v2. cbn [pg_keys pg_through].
  destruct (last (page_keys cursor limit st)) as [a|]; [|by left].
  destruct (page_through cursor st) as [t|]; [|by left]. cbn [mbind option_bind].
  unfold cursor_continue_after. destruct (cmp_c_v2 a t); cbn; eauto.
Qed.
