(* ===== verification/RetrySupervisor.v ===== *)
(** * The teardown retry supervisor

    [automation-runtime]'s background loop: scan a page of pending deletions, retry
    them concurrently, move the cursor, sleep, until told to stop. The retries of a page
    are the futures of [buffer_unordered]: they start in the order of the page, as many
    at a time as the configuration allows, are polled in any order, end in any order, and
    are dropped wherever they are when their timeout fires. A future is a program that
    stops at its [await]s; a poll runs it to the next one. *)

From Stdlib Require Import ZArith Lia Ascii String.
From stdpp Require Import base decidable list strings gmap numbers relations sorting.
From S2P Require Import Prelude RustStd Instance InstanceStore Teardown TeardownSpec InstanceScan.
Open Scope Z_scope.

(** ** Configuration; a [Duration] is its number of nanoseconds *)
Definition from_secs (s : Z) : Z := s * 1000000000.
Definition MAX_TEARDOWN_RETRY_CONCURRENCY_V1 : nat := 32.
Definition MAX_TEARDOWN_RETRY_CADENCE_V1 : Z := from_secs (60 * 60).
Definition MAX_TEARDOWN_RETRY_SCAN_TIMEOUT_V1 : Z := from_secs 60.
Definition MAX_TEARDOWN_RETRY_INSTANCE_TIMEOUT_V1 : Z := from_secs 60.

Inductive InstanceTeardownRetrySupervisorConfigurationErrorV1 :=
  CeCadence | CePageLimit | CeConcurrency | CeScanTimeout | CeInstanceTimeout.

Record InstanceTeardownRetrySupervisorConfigV1 := mkSupervisorConfig {
  sc_cadence : Z;
  sc_page_limit : nat;
  sc_max_concurrency : nat;
  sc_scan_timeout : Z;
  sc_per_instance_timeout : Z
}.

Definition supervisor_config_new (cadence : Z) (page_limit max_concurrency : nat)
    (scan_timeout per_instance_timeout : Z)
  : Result InstanceTeardownRetrySupervisorConfigurationErrorV1 InstanceTeardownRetrySupervisorConfigV1 :=
  _ ← ensure (negb (cadence =? 0) && (cadence <=? MAX_TEARDOWN_RETRY_CADENCE_V1)) CeCadence;
  _ ← ensure (bool_decide (page_limit ≤ MAX_INSTANCE_TEARDOWN_RETRY_SCAN_BATCH_V2)%nat) CePageLimit;
  _ ← ensure (bool_decide (max_concurrency ≤ MAX_TEARDOWN_RETRY_CONCURRENCY_V1)%nat) CeConcurrency;
  _ ← ensure (negb (scan_timeout =? 0) && (scan_timeout <=? MAX_TEARDOWN_RETRY_SCAN_TIMEOUT_V1))
        CeScanTimeout;
  _ ← ensure (negb (per_instance_timeout =? 0)
              && (per_instance_timeout <=? MAX_TEARDOWN_RETRY_INSTANCE_TIMEOUT_V1)) CeInstanceTimeout;
  Ok (mkSupervisorConfig cadence page_limit max_concurrency scan_timeout per_instance_timeout).

(** ** Progress *)
Inductive InstanceTeardownRetrySupervisorExitV1 :=
  ExitCommanded | ExitControlClosed | ExitPanicked | ExitDeadlineElapsed.

Record InstanceTeardownRetrySupervisorProgressV1 := mkProgress {
  pr_scan_succeeded : Z;
  pr_scan_failed : Z;
  pr_scan_timed_out : Z;
  pr_candidates : Z;
  pr_completed : Z;
  pr_in_progress : Z;
  pr_failed : Z;
  pr_timed_out : Z
}.

Definition progress_default : InstanceTeardownRetrySupervisorProgressV1 := mkProgress 0 0 0 0 0 0 0 0.

Definition u64_saturating_add (a b : Z) : Z := Z.min (a + b) u64_max.
Definition increment (v : Z) : Z := u64_saturating_add v 1.

Inductive InstanceTeardownRetryEntryOutcomeV1 :=
| EntryCompleted (outcome : TeardownOutcome)
| EntryFailed
| EntryTimedOut.

(** [increment(&mut progress.scan_succeeded)] and the candidates. *)
Definition count_scan (keys : nat) (p : InstanceTeardownRetrySupervisorProgressV1)
  : InstanceTeardownRetrySupervisorProgressV1 :=
  mkProgress (increment (pr_scan_succeeded p)) (pr_scan_failed p) (pr_scan_timed_out p)
    (u64_saturating_add (pr_candidates p) (Z.min (Z.of_nat keys) u64_max))
    (pr_completed p) (pr_in_progress p) (pr_failed p) (pr_timed_out p).

Definition count_scan_failed (timed_out : bool) (p : InstanceTeardownRetrySupervisorProgressV1)
  : InstanceTeardownRetrySupervisorProgressV1 :=
  mkProgress (pr_scan_succeeded p) (increment (pr_scan_failed p))
    (if timed_out then increment (pr_scan_timed_out p) else pr_scan_timed_out p)
    (pr_candidates p) (pr_completed p) (pr_in_progress p) (pr_failed p) (pr_timed_out p).

Definition count_outcome (p : InstanceTeardownRetrySupervisorProgressV1)
    (o : InstanceTeardownRetryEntryOutcomeV1) : InstanceTeardownRetrySupervisorProgressV1 :=
  let '(mkProgress ss sf st ca co ip fa ti) := p in
  match o with
  | EntryCompleted InProgress => mkProgress ss sf st ca co (increment ip) fa ti
  | EntryCompleted _ => mkProgress ss sf st ca (increment co) ip fa ti
  | EntryFailed => mkProgress ss sf st ca co ip (increment fa) ti
  | EntryTimedOut => mkProgress ss sf st ca co ip fa (increment ti)
  end.

(** ** The retries of a page *)

(** The trait [InstanceTeardownRetrySupervisorPortV1]. A scan may panic ([None]). A retry
    is a task, and a poll of it leaves the task at its next [await] or ends it. *)
Class RetryPort (P : Type) := {
  RetryTask : Type;
  port_scan : InstanceTeardownRetryScanCursorV2 → nat → P →
    option (Result InstanceStoreError InstanceTeardownRetryScanPageV2);
  port_retry : InstanceTeardownRetryKeyV2 → RetryTask;
  port_poll : InstanceTeardownRetryKeyV2 → RetryTask → P →
    RetryTask + Result TeardownError TeardownOutcome → P → Prop
}.

Section loop.
Context {P : Type} `{RetryPort P}.

(** The keys not started yet, the futures in flight, and the outcomes so far. *)
Record PageRun := mkPageRun {
  run_waiting : list InstanceTeardownRetryKeyV2;
  run_running : list (InstanceTeardownRetryKeyV2 * RetryTask);
  run_done : list (InstanceTeardownRetryKeyV2 * InstanceTeardownRetryEntryOutcomeV1)
}.

Definition page_start (keys : list InstanceTeardownRetryKeyV2) : PageRun := mkPageRun keys [] [].

Definition entry_outcome (r : Result TeardownError TeardownOutcome) : InstanceTeardownRetryEntryOutcomeV1 :=
  match r with Ok outcome => EntryCompleted outcome | Err _ => EntryFailed end.

(** [run_teardown_retry_page_v1] with [buffer_unordered(max_concurrency)]. *)
Inductive page_step (max_concurrency : nat) : PageRun * P → PageRun * P → Prop :=
| page_starts k waiting running done p :
    (length running < max_concurrency)%nat →
    page_step max_concurrency
      (mkPageRun (k :: waiting) running done, p)
      (mkPageRun waiting (running ++ [(k, port_retry k)]) done, p)
| page_polls k t t' waiting running1 running2 done p p' :
    port_poll k t p (inl t') p' →
    page_step max_concurrency
      (mkPageRun waiting (running1 ++ (k, t) :: running2) done, p)
      (mkPageRun waiting (running1 ++ (k, t') :: running2) done, p')
| page_ends k t r waiting running1 running2 done p p' :
    port_poll k t p (inr r) p' →
    page_step max_concurrency
      (mkPageRun waiting (running1 ++ (k, t) :: running2) done, p)
      (mkPageRun waiting (running1 ++ running2) (done ++ [(k, entry_outcome r)]), p')
| page_times_out k t waiting running1 running2 done p :
    page_step max_concurrency
      (mkPageRun waiting (running1 ++ (k, t) :: running2) done, p)
      (mkPageRun waiting (running1 ++ running2) (done ++ [(k, EntryTimedOut)]), p).

(** ** The loop *)
Inductive Phase :=
| Scanning
| Paging (run : PageRun) (next_cursor : InstanceTeardownRetryScanCursorV2)
| Sleeping
| Stopped (exit : InstanceTeardownRetrySupervisorExitV1).

Record Supervisor := mkSupervisor {
  sv_port : P;
  sv_cursor : InstanceTeardownRetryScanCursorV2;
  sv_progress : InstanceTeardownRetrySupervisorProgressV1;
  sv_phase : Phase
}.

Definition supervisor_start (p : P) : Supervisor := mkSupervisor p cursor_initial progress_default Scanning.

Inductive Event :=
| Scanned (p : P) (keys : list InstanceTeardownRetryKeyV2)
| PageDone (outcomes : list (InstanceTeardownRetryKeyV2 * InstanceTeardownRetryEntryOutcomeV1)).

(** What else changes the store and the guild meanwhile. *)
Context (others : P → P → Prop).
Context (config : InstanceTeardownRetrySupervisorConfigV1).

(** [run_instance_teardown_retry_supervisor_v1]. A command to stop wins at any of its three
    [select!]s, and then the futures of the page are dropped. *)
Inductive supervisor_step : Supervisor → option Event → Supervisor → Prop :=
| supervisor_stops p cursor progress phase exit :
    exit = ExitCommanded ∨ exit = ExitControlClosed → (∀ e, phase ≠ Stopped e) →
    supervisor_step (mkSupervisor p cursor progress phase) None
      (mkSupervisor p cursor progress (Stopped exit))
| supervisor_scans p cursor progress page :
    port_scan cursor (sc_page_limit config) p = Some (Ok page) →
    supervisor_step (mkSupervisor p cursor progress Scanning) (Some (Scanned p (pg_keys page)))
      (mkSupervisor p cursor (count_scan (length (pg_keys page)) progress)
         (Paging (page_start (pg_keys page)) (default cursor_initial (next_cursor_v2 page))))
| supervisor_scan_fails p cursor progress e :
    port_scan cursor (sc_page_limit config) p = Some (Err e) →
    supervisor_step (mkSupervisor p cursor progress Scanning) None
      (mkSupervisor p cursor (count_scan_failed false progress) Sleeping)
| supervisor_scan_times_out p cursor progress :
    supervisor_step (mkSupervisor p cursor progress Scanning) None
      (mkSupervisor p cursor (count_scan_failed true progress) Sleeping)
| supervisor_scan_panics p cursor progress :
    port_scan cursor (sc_page_limit config) p = None →
    supervisor_step (mkSupervisor p cursor progress Scanning) None
      (mkSupervisor p cursor progress (Stopped ExitPanicked))
| supervisor_retries p p' cursor progress run run' next :
    page_step (sc_max_concurrency config) (run, p) (run', p') →
    supervisor_step (mkSupervisor p cursor progress (Paging run next)) None
      (mkSupervisor p' cursor progress (Paging run' next))
| supervisor_counts p cursor progress outcomes next :
    supervisor_step (mkSupervisor p cursor progress (Paging (mkPageRun [] [] outcomes) next))
      (Some (PageDone outcomes))
      (mkSupervisor p next (foldl count_outcome progress outcomes.*2) Sleeping)
| supervisor_wakes p cursor progress :
    supervisor_step (mkSupervisor p cursor progress Sleeping) None
      (mkSupervisor p cursor progress Scanning)
| supervisor_aside p p' cursor progress phase :
    others p p' →
    supervisor_step (mkSupervisor p cursor progress phase) None (mkSupervisor p' cursor progress phase).

(** *** A sweep: from the initial cursor until the cursor is back there

    With the store each scan of it saw and the keys it handed out, and the outcomes. *)
Definition swept (scans : list (P * list InstanceTeardownRetryKeyV2)) (s : Supervisor) : Prop :=
  scans ≠ [] ∧ sv_phase s = Sleeping ∧ sv_cursor s = cursor_initial.

Definition scan_of (e : option Event) : list (P * list InstanceTeardownRetryKeyV2) :=
  match e with Some (Scanned p keys) => [(p, keys)] | _ => [] end.

Definition outcomes_of (e : option Event)
  : list (InstanceTeardownRetryKeyV2 * InstanceTeardownRetryEntryOutcomeV1) :=
  match e with Some (PageDone outcomes) => outcomes | _ => [] end.

Inductive sweeps (s0 : Supervisor) : list (P * list InstanceTeardownRetryKeyV2) →
    list (InstanceTeardownRetryKeyV2 * InstanceTeardownRetryEntryOutcomeV1) → Supervisor → Prop :=
| sweep_begins : sv_phase s0 = Scanning → sv_cursor s0 = cursor_initial → sweeps s0 [] [] s0
| sweep_goes_on scans outcomes s e s' :
    sweeps s0 scans outcomes s → ¬ swept scans s → supervisor_step s e s' →
    sweeps s0 (scans ++ scan_of e) (outcomes ++ outcomes_of e) s'.
End loop.
Arguments PageRun P {_}.
Arguments Phase P {_}.
Arguments Supervisor P {_}.

(** ** A teardown as a task

    [teardown] with its [await]s: the lock is tried, the instance looked up, claimed and
    looked up again, its resources deleted one after the other, and the instance marked. *)
Inductive TeardownTask :=
| TaskLock
| TaskLookup
| TaskClaim
| TaskReload (claim : InstanceTeardownClaimOutcomeV1)
| TaskDelete (claim : InstanceTeardownClaimOutcomeV1) (resource : InstanceResource) (rest : list InstanceResource)
| TaskMark (claim : InstanceTeardownClaimOutcomeV1).

Section task.
Context {S D : Type} `{InstanceTeardownStoreV1 S} `{InstanceDeleter D}.

Definition task_deletes (claim : InstanceTeardownClaimOutcomeV1) (resources : list InstanceResource)
  : TeardownTask :=
  match resources with [] => TaskMark claim | r :: rest => TaskDelete claim r rest end.

(** The answer of an awaited call ends the task or lets it go on. *)
Definition task_then {A} (r : Result TeardownError A * (S * D))
    (k : A → TeardownTask + Result TeardownError TeardownOutcome)
  : (TeardownTask + Result TeardownError TeardownOutcome) * (S * D) :=
  match r with (Ok a, p) => (k a, p) | (Err e, p) => (inr (Err e), p) end.

Definition task_poll (free : bool) (g : Z) (i : string) (t : TeardownTask) (p : S * D)
  : (TeardownTask + Result TeardownError TeardownOutcome) * (S * D) :=
  match t with
  | TaskLock => (if free then inl TaskLookup else inr (Ok InProgress), p)
  | TaskLookup => task_then (lookup_exact g i None p) (λ _, inl TaskClaim)
  | TaskClaim => task_then (on_store TeStore (claim_deleting g i) p) (λ claim, inl (TaskReload claim))
  | TaskReload claim =>
      task_then (lookup_exact g i None p) (λ instance,
        match claim with
        | ClaimAlreadyDeleted => inr (Ok TornAlreadyDeleted)
        | _ => inl (task_deletes claim (manifest (ai_resources instance)))
        end)
  | TaskDelete claim r rest =>
      task_then (on_deleter (TeDeleteFailed r) (delete_resource g r) p) (λ _, inl (task_deletes claim rest))
  | TaskMark claim =>
      task_then (on_store TeStore (mark_deleted_store g i) p) (λ _,
        inr (Ok (match claim with Claimed => Completed | _ => ResumedAndCompleted end)))
  end.

(** Polled alone until it ends. *)
Fixpoint task_drive (fuel : nat) (g : Z) (i : string) (t : TeardownTask) (p : S * D)
  : option (Result TeardownError TeardownOutcome * (S * D)) :=
  match fuel with
  | O => None
  | Datatypes.S fuel' =>
      match task_poll true g i t p with
      | (inl t', p') => task_drive fuel' g i t' p'
      | (inr r, p') => Some (r, p')
      end
  end.

Lemma drive_deletes g i claim resources p : claim ≠ ClaimAlreadyDeleted →
  task_drive (Datatypes.S (length resources)) g i (task_deletes claim resources) p =
  Some ((_ ← delete_resources g resources; _ ← on_store TeStore (mark_deleted_store g i);
         cmd_ret (match claim with Claimed => Completed | _ => ResumedAndCompleted end)) p).
Proof.
  intros Hc. revert p. induction resources as [|r rest IH]; intros p.
  - cbn. unfold mbind, Cmd_bind, cmd_bind. cbn. by destruct (on_store _ _ p) as [[]].
  - change (task_drive (Datatypes.S (length (r :: rest))) g i (task_deletes claim (r :: rest)) p)
      with (match task_poll true g i (TaskDelete claim r rest) p with
            | (inl t', p') => task_drive (Datatypes.S (length rest)) g i t' p'
            | (inr x, p') => Some (x, p')
            end).
    unfold mbind, Cmd_bind, cmd_bind in *. cbn [task_poll delete_resources]. unfold mbind, Cmd_bind, cmd_bind.
    destruct (on_deleter _ _ p) as [[o|e] p']; cbn [task_then]; [apply IH|done].
Qed.

(** A task that is polled alone is the teardown. *)
Lemma task_drive_teardown g i p : ∃ fuel, task_drive fuel g i TaskLock p = Some (teardown true g i p).
Proof.
  unfold teardown, teardown_locked. unfold mbind at 1, Cmd_bind at 1, cmd_bind at 1.
  destruct (lookup_exact g i None p) as [[v|e] p1] eqn:E1; [|exists 2%nat; cbn; by rewrite E1].
  unfold mbind at 1, Cmd_bind at 1, cmd_bind at 1.
  destruct (on_store _ _ p1) as [[claim|e] p2] eqn:E2; [|exists 3%nat; cbn; rewrite E1; cbn; by rewrite E2].
  unfold mbind at 1, Cmd_bind at 1, cmd_bind at 1.
  destruct (lookup_exact g i None p2) as [[w|e] p3] eqn:E3.
  2: { exists 4%nat. cbn. rewrite E1. cbn. rewrite E2. cbn. by rewrite E3. }
  assert (claim = ClaimAlreadyDeleted ∨ claim ≠ ClaimAlreadyDeleted) as [->|Hc] by (destruct claim; auto).
  { exists 4%nat. cbn. rewrite E1. cbn. rewrite E2. cbn. by rewrite E3. }
  exists (4 + Datatypes.S (length (manifest (ai_resources w))))%nat.
  rewrite finish_manifest, <- (drive_deletes _ _ _ _ _ Hc) by done.
  cbn. rewrite E1. cbn. rewrite E2. cbn. rewrite E3. by destruct claim.
Qed.
End task.

(** ** The port of the dispatcher

    [scan_teardown_retries_v1] scans the store and [retry_teardown_v1] tears down. The
    lock of the key may be taken by a teardown somebody else asked for. *)
#[export] Instance dispatcher_port {D} `{InstanceDeleter D} : RetryPort (InMemoryInstanceStore * D) := {
  RetryTask := TeardownTask;
  port_scan c limit p := scan_retryable_v2 c limit p.1;
  port_retry _ := TaskLock;
  port_poll k t p r p' := ∃ free, task_poll free (rk_guild_id k) (rk_instance_id k) t p = (r, p')
}.

(** ** Pages end

    Every way to run the retries of a page ends, and it ends only when each key of the page
    has its outcome; no more retries than configured are ever in flight. *)
Section one_less.
Context {A : Type} (R : A → A → Prop).

Definition one_less (l' l : list A) : Prop :=
  ∃ l1 x y l2, l = l1 ++ x :: l2 ∧ l' = l1 ++ y :: l2 ∧ R y x.

Lemma one_less_acc l : Forall (Acc R) l → Acc one_less l.
Proof.
  induction 1 as [|x l Hx _ IH].
  { constructor. intros l' (l1 & x & y & l2 & E & _). by destruct l1. }
  revert l IH. induction Hx as [x _ IHx]. intros l Hl. induction Hl as [l Hl IHl].
  constructor. intros l' (l1 & a & b & l2 & E & -> & Hab). destruct l1 as [|c l1]; injection E as -> ->.
  - apply IHx; [done|]. by constructor.
  - apply IHl. by exists l1, a, b, l2.
Qed.
End one_less.

Section pages.
Context {P : Type} `{RetryPort P} (limit : nat).

Definition task_less (t' t : RetryTask) : Prop := ∃ k p p', port_poll k t p (inl t') p'.

Lemma pages_end (run : PageRun P) (p : P) : well_founded task_less → sn (page_step limit) (run, p).
Proof.
  intros Hwf. destruct run as [waiting running done].
  remember (2 * length waiting + length running)%nat as n eqn:Hn.
  revert waiting running done p Hn. induction n as [n IHn] using lt_wf_ind.
  intros waiting running. remember running.*2 as ts eqn:Hts.
  assert (Ha : Acc (one_less task_less) ts) by (apply one_less_acc, Forall_forall; intros; apply Hwf).
  revert running Hts. induction Ha as [ts _ IHa]. intros running -> done p Hn. constructor. intros [run' p'] Hstep.
  inversion Hstep; subst; try (eapply IHn; [|reflexivity]; rewrite ?length_app; cbn; rewrite ?length_app; cbn; lia).
  eapply IHa; [|reflexivity|by rewrite !length_app].
  rewrite !fmap_app, !fmap_cons. eexists _, t, t', _. split_and!; [done..|]. by exists k, p, p'.
Qed.

Lemma page_stuck (run : PageRun P) (p : P) :
  (0 < limit)%nat → nf (page_step limit) (run, p) → run_waiting run = [] ∧ run_running run = [].
Proof.
  intros Hl Hnf. destruct run as [waiting [|[k t] running] done]; cbn.
  - destruct waiting as [|k waiting]; [done|]. destruct Hnf. eexists. by apply page_starts.
  - destruct Hnf. eexists. apply (page_times_out _ k t waiting []).
Qed.

(** The keys of a page that ended, run or wait. *)
Definition run_keys (run : PageRun P) : list InstanceTeardownRetryKeyV2 :=
  (run_done run).*1 ++ (run_running run).*1 ++ run_waiting run.

Lemma page_step_keys (x y : PageRun P * P) : page_step limit x y → run_keys y.1 ≡ₚ run_keys x.1.
Proof.
  intros []; unfold run_keys; cbn; rewrite ?fmap_app; cbn; rewrite ?fmap_app; cbn; rewrite <- ?app_assoc; cbn;
    solve_Permutation.
Qed.

Lemma page_step_bound (x y : PageRun P * P) :
  page_step limit x y → (length (run_running x.1) ≤ limit)%nat → (length (run_running y.1) ≤ limit)%nat.
Proof. intros []; cbn; rewrite ?length_app; cbn; lia. Qed.
End pages.

Lemma teardown_tasks_end {D} `{InstanceDeleter D} : well_founded (task_less (P := InMemoryInstanceStore * D)).
Proof.
  assert (Hmark : ∀ c, Acc (task_less (P := InMemoryInstanceStore * D)) (TaskMark c)).
  { intros c. constructor. intros t (k & p & p' & free & E). cbn in E. unfold task_then in E.
    destruct (on_store _ _ _) as [[]]; simplify_eq. }
  assert (Hdel : ∀ c rs, Acc (task_less (P := InMemoryInstanceStore * D)) (task_deletes c rs)).
  { intros c rs. induction rs as [|r rs IH]; [apply Hmark|]. constructor. intros t (k & p & p' & free & E).
    cbn in E. unfold task_then in E. destruct (on_deleter _ _ _) as [[]]; by simplify_eq. }
  assert (Hreload : ∀ c, Acc (task_less (P := InMemoryInstanceStore * D)) (TaskReload c)).
  { intros c. constructor. intros t (k & p & p' & free & E). cbn in E. unfold task_then in E.
    destruct (lookup_exact _ _ _ _) as [[]]; [|by simplify_eq]. destruct c; simplify_eq; apply Hdel. }
  assert (Hclaim : Acc (task_less (P := InMemoryInstanceStore * D)) TaskClaim).
  { constructor. intros t (k & p & p' & free & E). cbn in E. unfold task_then in E.
    destruct (on_store _ _ _) as [[]]; by simplify_eq. }
  assert (Hlookup : Acc (task_less (P := InMemoryInstanceStore * D)) TaskLookup).
  { constructor. intros t (k & p & p' & free & E). cbn in E. unfold task_then in E.
    destruct (lookup_exact _ _ _ _) as [[]]; by simplify_eq. }
  intros [| | |c|c r rs|c]; [|done|done|done|apply (Hdel c (r :: rs))|done].
  constructor. intros t (k & p & p' & [] & E); cbn in E; by simplify_eq.
Qed.

(** ** What a retry does to the store *)
Section effects.
Context {D : Type} `{InstanceDeleterLaws D}.
Implicit Types (p : InMemoryInstanceStore * D) (k : InstanceTeardownRetryKeyV2).
#[local] Arguments store_find : simpl never.

Definition port_ok p : Prop := store_wf p.1 ∧ store_ids_valid p.1.

Definition find_key p k : option AutomationInstance := store_find p.1 (rk_guild_id k) (rk_instance_id k).

Definition deleted p k : Prop := ∃ v, find_key p k = Some v ∧ ai_status v = Deleted.

(** Instances stay, with what they created; their deletion is not undone, nor is a deletion on Discord. *)
Record port_kept p p' : Prop := {
  kept_ok : port_ok p → port_ok p';
  kept_views g i v : store_find p.1 g i = Some v →
    ∃ st, store_find p'.1 g i = Some (set_status st v) ∧ advances (ai_status v) st;
  kept_gone : still_gone p.2 p'.2
}.

Lemma port_kept_refl p : port_kept p p.
Proof.
  split; [done| |by intros ??]. intros g i v Hv. exists (ai_status v).
  rewrite set_status_same. split; [done|by left].
Qed.

Lemma deleted_kept p p' k : port_kept p p' → deleted p k → deleted p' k.
Proof.
  intros Hk (v & Hv & Hd). destruct (kept_views _ _ Hk _ _ _ Hv) as (st & Hv' & Ha).
  exists (set_status st v). split; [done|]. cbn. rewrite Hd in Ha. by destruct Ha as [<-|[[? _]| ->]].
Qed.

(** Where a task is in the deletion of its instance. *)
Definition task_ok k (t : TeardownTask) p : Prop :=
  match t with
  | TaskReload ClaimAlreadyDeleted => deleted p k
  | TaskDelete _ r rest => ∃ v l, find_key p k = Some v ∧
      manifest (ai_resources v) = l ++ r :: rest ∧ all_gone p.2 (rk_guild_id k) l
  | TaskMark _ => ∃ v, find_key p k = Some v ∧ all_gone p.2 (rk_guild_id k) (manifest (ai_resources v))
  | _ => True
  end.

Lemma task_ok_kept p p' k t : port_kept p p' → task_ok k t p → task_ok k t p'.
Proof.
  intros Hk. destruct t as [| | |[]|c r rest|c]; cbn; try done.
  - by apply deleted_kept.
  - intros (v & l & Hv & Hm & Hg). destruct (kept_views _ _ Hk _ _ _ Hv) as (st & Hv' & _).
    exists (set_status st v), l. split_and!; [done..|]. intros x Hx. by apply (kept_gone _ _ Hk), Hg.
  - intros (v & Hv & Hg). destruct (kept_views _ _ Hk _ _ _ Hv) as (st & Hv' & _).
    exists (set_status st v). split; [done|]. intros x Hx. by apply (kept_gone _ _ Hk), Hg.
Qed.

Lemma task_deletes_ok k c rest l p v :
  find_key p k = Some v → manifest (ai_resources v) = l ++ rest → all_gone p.2 (rk_guild_id k) l →
  task_ok k (task_deletes c rest) p.
Proof.
  intros Hv Hm Hg. destruct rest as [|r rest]; [|by exists v, l].
  exists v. rewrite app_nil_r in Hm. by rewrite Hm.
Qed.

(** What a poll of a task of [k] leaves. *)
Record polled k p p' : Prop := {
  po_kept : port_kept p p';
  po_orphans : no_orphans p.1 p.2 → no_orphans p'.1 p'.2;
  po_elsewhere k' : k' ≠ k → is_pending p'.1 k' ↔ is_pending p.1 k';
  po_pending : (∃ v, find_key p k = Some v ∧ ai_status v ≠ Active ∧ ai_status v ≠ Disabled) →
    is_pending p'.1 k → is_pending p.1 k
}.

Lemma polled_refl k p : polled k p p.
Proof. split; [apply port_kept_refl|done..]. Qed.

Lemma lookup_same g i p r p' :
  lookup_exact g i None p = (r, p') → p' = p ∧ ∀ v, r = Ok v → store_find p.1 g i = Some v.
Proof.
  destruct p as [st d]. unfold lookup_exact, mbind, Cmd_bind, cmd_bind, on_store, cmd_map_err, cmd_zoom, cmd_lift.
  cbn. destruct (store_find st g i) as [v|]; cbn; intros [= <- <-]; split; try done.
  by intros w [= <-].
Qed.

(** A change of the status of one key. *)
Lemma status_polled k st d st' (before after : option AutomationInstance) :
  store_wf st' → (∀ g i, (g, i) ≠ (rk_guild_id k, rk_instance_id k) → store_find st' g i = store_find st g i) →
  find_key (st, d) k = before → find_key (st', d) k = after →
  (after = before ∨ ∃ v s, before = Some v ∧ after = Some (set_status s v) ∧ advances (ai_status v) s ∧
     (s = Deleted → all_gone d (rk_guild_id k) (manifest (ai_resources v))) ∧
     (s = Deleting → ai_status v = Active ∨ ai_status v = Disabled)) →
  polled k (st, d) (st', d).
Proof.
  unfold find_key. cbn. intros Hwf Helse Hb Ha Hor.
  assert (Hcase : ∀ g i, store_find st' g i = store_find st g i ∨ g = rk_guild_id k ∧ i = rk_instance_id k).
  { intros g i. destruct (decide ((g, i) = (rk_guild_id k, rk_instance_id k))) as [[= -> ->]|]; auto. }
  split; [split| | |]; cbn.
  - intros [_ Hid]. split; [done|]. intros g i v Hv. cbn in Hv, Hid. destruct (Hcase g i) as [E|[-> ->]]; [rewrite E in Hv; eauto|].
    rewrite Ha in Hv. destruct Hor as [->|(w & s & -> & _)]; [|by eapply Hid]. subst. by eapply Hid.
  - intros g i v Hv. destruct (Hcase g i) as [E|[-> ->]].
    + exists (ai_status v). rewrite set_status_same, E. split; [done|by left].
    + rewrite Hv in Hb. subst before. rewrite Ha. destruct Hor as [->|(w & s & [= <-] & -> & Hadv & _)]; [|eauto].
      exists (ai_status v). rewrite set_status_same. split; [done|by left].
  - by intros ??.
  - intros Hn g i v Hv Hd. cbn in Hv. destruct (Hcase g i) as [E|[-> ->]].
    + rewrite E in Hv. by eapply Hn.
    + rewrite Ha in Hv. destruct Hor as [->|(w & s & -> & -> & _ & Hg & _)]; [subst; by eapply Hn|].
      injection Hv as <-. by apply Hg.
  - intros k' Hne. unfold is_pending. rewrite Helse; [done|]. destruct k, k'. cbn in *. congruence.
  - unfold find_key, is_pending. cbn. intros (v & Hv & Hna & Hnd) (w & Hw & Hs).
    rewrite Ha in Hw. subst before. destruct Hor as [->|(x & s & Hx & -> & _ & _ & Hdel)]; [eauto|].
    injection Hw as <-. cbn in Hs. rewrite Hv in Hx. injection Hx as <-. by destruct (Hdel Hs).
Qed.

Lemma claim_polled k st d o st' : port_ok (st, d) →
  claim_deleting_v1 (rk_guild_id k) (rk_instance_id k) st = (o, st') →
  polled k (st, d) (st', d) ∧ (o = Ok ClaimAlreadyDeleted → deleted (st', d) k).
Proof.
  intros [Hwf _] E. cbn in Hwf. destruct (status_shape_effect _ _ _ _ _ _ _ (claim_shape _ _) Hwf E) as (Hwf' & Helse & Heff).
  unfold deleted, find_key. cbn [fst]. destruct (store_find st _ _) as [v|] eqn:Hv.
  2: { injection Heff as <- Hn. split; [|done]. eapply status_polled; [done..|]. left.
       unfold find_key. cbn. congruence. }
  cbn in Heff. destruct (ai_status v) eqn:Es; injection Heff as <- Hn; (split; [|intros; simplify_eq; eauto]).
  all: eapply status_polled; [done|done|exact Hv|symmetry; exact Hn|]; first [by left|right].
  all: exists v, Deleting; split_and!; try done; [right; left; by rewrite Es|auto].
Qed.

Lemma mark_polled k st d o st' : port_ok (st, d) →
  (∃ v, find_key (st, d) k = Some v ∧ all_gone d (rk_guild_id k) (manifest (ai_resources v))) →
  mark_deleted_v1 (rk_guild_id k) (rk_instance_id k) st = (o, st') →
  polled k (st, d) (st', d) ∧ (is_ok o = true → deleted (st', d) k).
Proof.
  intros [Hwf _] (v & Hv & Hg) E. unfold find_key in Hv. cbn in Hv, Hwf.
  destruct (status_shape_effect _ _ _ _ _ _ _ (mark_shape _ _) Hwf E) as (Hwf' & Helse & Heff).
  rewrite Hv in Heff. unfold deleted, find_key. cbn [fst]. cbn in Heff.
  destruct (ai_status v) eqn:Es; injection Heff as <- Hn; (split; [|intros; try done; rewrite <- Hn; eauto]).
  all: eapply status_polled; [done|done|exact Hv|symmetry; exact Hn|]; first [by left|right].
  exists v, Deleted. split_and!; try done. right. by right.
Qed.

Definition completes (o : InstanceTeardownRetryEntryOutcomeV1) : Prop :=
  match o with EntryCompleted InProgress => False | EntryCompleted _ => True | _ => False end.

Lemma poll_effect k t p r p' : port_ok p → task_ok k t p → port_poll k t p r p' →
  polled k p p' ∧
  match r with
  | inl t' => task_ok k t' p'
  | inr r => completes (entry_outcome r) → deleted p' k
  end.
Proof.
  intros Hp Ht [free E]. destruct p as [st d]. destruct t as [| | |c|c x rest|c]; cbn in E; unfold task_then in E.
  - injection E as <- <-. split; [apply polled_refl|]. by destruct free.
  - destruct (lookup_exact _ _ _ _) as [[v|e] q] eqn:El; injection E as <- <-;
      apply lookup_same in El as [-> _]; (split; [apply polled_refl|done]).
  - destruct (on_store _ _ _) as [o [st' d']] eqn:Es. apply on_store_inv in Es as (m & Es & -> & ->).
    apply (claim_polled k st d) in Es as [Hpo Hd]; [|done].
    destruct m as [c|e]; cbn in E; injection E as <- <-; (split; [done|]); [|done]. destruct c; try done. by apply Hd.
  - destruct (lookup_exact _ _ _ _) as [[v|e] q] eqn:El; [|injection E as <- <-];
      apply lookup_same in El as [-> Hv]; [|split; [apply polled_refl|done]].
    specialize (Hv v eq_refl). destruct c; injection E as <- <-; (split; [apply polled_refl|]).
    1,2: eapply (task_deletes_ok _ _ _ []); [exact Hv|done|]; intros x Hx; by apply not_elem_of_nil in Hx.
    by intros _.
  - destruct (on_deleter _ _ _) as [o [st' d']] eqn:Es. apply on_deleter_inv in Es as (m & Es & -> & ->).
    destruct (delete_gone _ _ _ _ _ Es) as [Hmono Hx]. destruct Ht as (v & l & Hv & Hm & Hg). cbn in Hg.
    assert (polled k (st, d) (st, d')).
    { split; [split; [done| |done]| |done|done].
      - intros g i w Hw. exists (ai_status w). rewrite set_status_same. split; [done|by left].
      - intros Hn g i w Hw Hd y Hy. by apply Hmono, (Hn g i w Hw Hd). }
    destruct m as [o|e]; cbn in E; injection E as <- <-; (split; [done|]); [|done].
    apply (task_deletes_ok _ _ _ (l ++ [x]) _ v); [done|by rewrite <- app_assoc|].
    intros y [Hy| ->%list_elem_of_singleton]%elem_of_app; [by apply Hmono, Hg|by eapply Hx].
  - destruct (on_store _ _ _) as [o [st' d']] eqn:Es. apply on_store_inv in Es as (m & Es & -> & ->).
    apply (mark_polled k st d) in Es as [Hpo Hd]; [|done|done].
    destruct m as [m|e]; cbn in E; injection E as <- <-; (split; [done|]); [|done]. intros _. by apply Hd.
Qed.
End effects.

(** ** A sweep reaches every pending instance *)
Section sweep.
Context {D : Type} `{InstanceDeleterLaws D}.
Implicit Types (p : InMemoryInstanceStore * D) (k : InstanceTeardownRetryKeyV2).
Implicit Types (s : Supervisor (InMemoryInstanceStore * D)).
Implicit Types (scans : list (InMemoryInstanceStore * D * list InstanceTeardownRetryKeyV2)).
Implicit Types (outs : list (InstanceTeardownRetryKeyV2 * InstanceTeardownRetryEntryOutcomeV1)).
Context (others : InMemoryInstanceStore * D → InMemoryInstanceStore * D → Prop).
Context (config : InstanceTeardownRetrySupervisorConfigV1).

(** What else runs keeps the store and Discord as teardowns do. *)
Definition others_keep : Prop := ∀ p p', others p p' →
  port_kept p p' ∧ (no_orphans p.1 p.2 → no_orphans p'.1 p'.2).

Definition others_quiet : Prop := ∀ p p' k, others p p' → is_pending p'.1 k → is_pending p.1 k.

Definition page_of s : PageRun (InMemoryInstanceStore * D) :=
  match sv_phase s with Paging run _ => run | _ => page_start [] end.

Definition closed p k : Prop := ∃ v, find_key p k = Some v ∧ ai_status v ≠ Active ∧ ai_status v ≠ Disabled.

Lemma closed_kept p p' k : port_kept p p' → closed p k → closed p' k.
Proof.
  intros Hk (v & Hv & Hs). destruct (kept_views _ _ Hk _ _ _ Hv) as (st & Hv' & Ha).
  exists (set_status st v). split; [done|]. cbn. by destruct Ha as [<-|[[_ ->]| ->]].
Qed.

(** *** What the retries keep *)
Record run_ok (run : PageRun (InMemoryInstanceStore * D)) outs p : Prop := {
  ro_ok : port_ok p;
  ro_orphans : no_orphans p.1 p.2;
  ro_running k t : (k, t) ∈ run_running run → task_ok k t p;
  ro_done k o : (k, o) ∈ outs ++ run_done run → completes o → deleted p k;
  ro_bound : (length (run_running run) ≤ sc_max_concurrency config)%nat
}.

Lemma run_ok_kept run outs p p' : port_kept p p' → no_orphans p'.1 p'.2 → run_ok run outs p → run_ok run outs p'.
Proof.
  intros Hk Hn [Hok _ Hr Hd Hb]. split; [by apply (kept_ok _ _ Hk)|done| | |done].
  - intros k t Ht. eapply task_ok_kept; [done|]. by apply Hr.
  - intros k o Ho Hc. eapply deleted_kept; [done|]. by eapply Hd.
Qed.

Lemma page_step_ok run outs p run' p' :
  page_step (sc_max_concurrency config) (run, p) (run', p') → run_ok run outs p →
  run_ok run' outs p' ∧ port_kept p p' ∧
  ((∀ k, k ∈ run_keys run → closed p k) → ∀ k, is_pending p'.1 k → is_pending p.1 k).
Proof.
  intros Hstep Hrun. pose proof (page_step_bound _ _ _ Hstep (ro_bound _ _ _ Hrun)) as Hb.
  inversion Hstep; subst; cbn in Hb.
  - destruct Hrun as [Hok Hn Hr Hd _]. split; [|split; [apply port_kept_refl|done]]. split; try done. cbn in *.
    intros k' t' [Ht|[= -> ->]%list_elem_of_singleton]%elem_of_app; [by apply Hr|done].
  - assert (Hkt : task_ok k t p) by (apply (ro_running _ _ _ Hrun); cbn; set_solver).
    destruct (poll_effect _ _ _ _ _ (ro_ok _ _ _ Hrun) Hkt ltac:(eassumption)) as [Hpo Ht'].
    destruct (run_ok_kept _ _ _ _ (po_kept _ _ _ Hpo) (po_orphans _ _ _ Hpo (ro_orphans _ _ _ Hrun)) Hrun)
      as [Hok Hn Hr Hd _].
    split; [|split; [apply Hpo|]]; [split; try done; cbn in *; intros k1 t1 Hin; set_solver|].
    intros Hcl k' Hk'. destruct (decide (k' = k)) as [->|Hne]; [|by apply (po_elsewhere _ _ _ Hpo)].
    apply (po_pending _ _ _ Hpo); [|done]. apply Hcl. unfold run_keys. cbn. rewrite fmap_app. cbn. set_solver.
  - assert (Hkt : task_ok k t p) by (apply (ro_running _ _ _ Hrun); cbn; set_solver).
    destruct (poll_effect _ _ _ _ _ (ro_ok _ _ _ Hrun) Hkt ltac:(eassumption)) as [Hpo Ht'].
    destruct (run_ok_kept _ _ _ _ (po_kept _ _ _ Hpo) (po_orphans _ _ _ Hpo (ro_orphans _ _ _ Hrun)) Hrun)
      as [Hok Hn Hr Hd _].
    split; [|split; [apply Hpo|]].
    + split; try done; cbn in *; [intros k1 t1 Hin; set_solver|]. rewrite app_assoc.
      intros k1 o1 [Hin|[= -> ->]%list_elem_of_singleton]%elem_of_app; [by eapply Hd|done].
    + intros Hcl k' Hk'. destruct (decide (k' = k)) as [->|Hne]; [|by apply (po_elsewhere _ _ _ Hpo)].
      apply (po_pending _ _ _ Hpo); [|done]. apply Hcl. unfold run_keys. cbn. rewrite fmap_app. cbn. set_solver.
  - destruct Hrun as [Hok Hn Hr Hd _]. split; [|split; [apply port_kept_refl|done]]. split; try done; cbn in *.
    + intros k1 t1 Hin. apply Hr. set_solver.
    + rewrite app_assoc. intros k1 o1 [Hin|[= -> ->]%list_elem_of_singleton]%elem_of_app; [by eapply Hd|done].
Qed.

(** A step of the supervisor keeps the invariant of the run; only others make keys pending. *)
Lemma supervisor_step_ok s e s' outs :
  others_keep → supervisor_step others config s e s' → run_ok (page_of s) outs (sv_port s) →
  run_ok (page_of s') (outs ++ outcomes_of e) (sv_port s') ∧ port_kept (sv_port s) (sv_port s') ∧
  (others_quiet → (∀ k, k ∈ run_keys (page_of s) → closed (sv_port s) k) →
   ∀ k, is_pending (sv_port s').1 k → is_pending (sv_port s).1 k).
Proof.
  intros Hkeep Hstep Hrun. assert (Hempty : run_ok (page_start []) outs (sv_port s)).
  { destruct Hrun as [Hok Hn _ Hd _]. split; try done; cbn; [by intros ? ? ?%not_elem_of_nil| |lia].
    intros k o Ho. apply Hd. cbn in Ho. rewrite app_nil_r in Ho. apply elem_of_app. by left. }
  destruct Hstep; cbn in *; rewrite ?app_nil_r; unfold page_of in *; cbn in *;
    try (split; [done|split; [apply port_kept_refl|done]]).
  - split; [|split; [apply port_kept_refl|done]]. by destruct Hempty.
  - match goal with Hs : page_step _ _ _ |- _ => eapply page_step_ok in Hs as (Hr & Hk & Hp); [|exact Hrun] end.
    split_and!; [done|done|]. intros _. exact Hp.
  - split; [|split; [apply port_kept_refl|done]]. destruct Hrun as [? ? _ Hd _]. split; try done; cbn in *.
    + by intros ? ? ?%not_elem_of_nil.
    + intros k o Ho. rewrite app_nil_r in Ho. by apply Hd.
    + lia.
  - destruct (Hkeep _ _ ltac:(eassumption)) as [Hk Hn]. split_and!; [|done|].
    + apply (run_ok_kept _ _ p); [done| |done]. apply Hn, (ro_orphans _ _ _ Hrun).
    + intros Hq _ k. by eapply Hq.
Qed.

(** *** Where the cursor is *)
Definition handed scans : list InstanceTeardownRetryKeyV2 := scans ≫= snd.

(** The cursor the next scan will use. *)
Definition next_of s : InstanceTeardownRetryScanCursorV2 :=
  match sv_phase s with Paging _ next => next | _ => sv_cursor s end.

Record position scans s : Prop := {
  ps_next : next_of s = cursor_initial ∨
    ∃ a t, next_of s = mkCursor (Some a) (Some t) ∧ last (handed scans) = Some a;
  ps_first : scans = [] → next_of s = cursor_initial;
  ps_cover k : scans ≠ [] → (∀ scan, scan ∈ scans → is_pending scan.1.1 k) →
    k ∈ handed scans ∨ ahead (next_of s) k;
  ps_scanning : sv_phase s = Scanning → scans ≠ [] → sv_cursor s ≠ cursor_initial;
  ps_length : next_of s ≠ cursor_initial → (length scans ≤ length (handed scans))%nat
}.

Definition stopped s : Prop := ∃ e, sv_phase s = Stopped e.

Record sweep_ok (s0 : Supervisor (InMemoryInstanceStore * D)) scans outs s : Prop := {
  sw_run : run_ok (page_of s) outs (sv_port s);
  sw_sorted : StronglySorted key_lt (handed scans);
  sw_outs : ∃ rest, outs.*1 ++ rest ≡ₚ handed scans ∧ (¬ stopped s → rest = run_keys (page_of s));
  sw_position : ¬ stopped s → position scans s;
  sw_scans : (length scans ≤ Datatypes.S (length (handed scans)))%nat;
  sw_closed k : k ∈ handed scans → closed (sv_port s) k;
  sw_quiet : others_quiet → (∀ k, is_pending (sv_port s).1 k → is_pending (sv_port s0).1 k) ∧
    ∀ k, k ∈ handed scans → is_pending (sv_port s0).1 k
}.

Lemma position_same scans s s' :
  next_of s' = next_of s → (sv_phase s' = Scanning → scans ≠ [] → sv_cursor s' ≠ cursor_initial) →
  position scans s → position scans s'.
Proof. intros Hn Hs [H1 H2 H3 H4 H5]. split; rewrite ?Hn; done. Qed.

Lemma handed_snoc scans p keys : handed (scans ++ [(p, keys)]) = handed scans ++ keys.
Proof. unfold handed. rewrite bind_app. cbn. by rewrite app_nil_r. Qed.

Lemma ahead_not_initial k : ¬ ahead cursor_initial k.
Proof. by intros (a & t & E & _). Qed.

(** The page of a scan continues what was handed out. *)
Lemma page_continues scans s :
  StronglySorted key_lt (handed scans) → position scans s → sv_phase s = Scanning → port_ok (sv_port s) →
  StronglySorted key_lt (handed scans ++ page_keys (sv_cursor s) (sc_page_limit config) (sv_port s).1).
Proof.
  intros Hs Hpos Hph [Hwf Hid]. apply sorted_app. split_and!; [done|by apply page_keys_sorted|].
  intros k k' Hk Hk'. destruct (page_keys_elem _ _ _ _ Hwf Hk') as [_ Hafter].
  pose proof (ps_next _ _ Hpos) as Hn. unfold next_of in Hn. rewrite Hph in Hn.
  destruct Hn as [Hc|(a & t & Hc & Ha)].
  - destruct scans as [|scan scans]; [by apply not_elem_of_nil in Hk|]. by destruct (ps_scanning _ _ Hpos Hph).
  - specialize (Hafter a). rewrite Hc in Hafter. specialize (Hafter eq_refl).
    destruct (sorted_last_le _ _ _ Hs Ha Hk) as [->|Hlt]; [done|by eapply key_lt_trans].
Qed.

Lemma scan_position scans p cursor progress progress' :
  (0 < sc_page_limit config)%nat → port_ok p → let s := mkSupervisor p cursor progress Scanning in
  let keys := page_keys cursor (sc_page_limit config) p.1 in
  position scans s →
  position (scans ++ [(p, keys)])
    (mkSupervisor p cursor progress' (Paging (page_start keys) (next_after cursor (sc_page_limit config) p.1))) ∧
  (length (scans ++ [(p, keys)]) ≤ Datatypes.S (length (handed scans ++ keys)))%nat.
Proof.
  intros Hl [Hwf Hid] s keys [H1 H2 H3 H4 H5]. unfold next_of in *. cbn in *.
  assert (Hlen : (length scans ≤ length (handed scans))%nat).
  { destruct scans as [|x scans]; [cbn; lia|]. by apply H5, H4. }
  assert (Hnil : keys = [] → next_after cursor (sc_page_limit config) p.1 = cursor_initial).
  { intros Hk. destruct (next_after_shape cursor (sc_page_limit config) p.1) as [|(a & t & _ & E)]; [done|].
    change (last keys = Some a) in E. by rewrite Hk in E. }
  split; [|rewrite !length_app; cbn; lia]. split; rewrite ?handed_snoc; unfold next_of; cbn.
  - destruct (next_after_shape cursor (sc_page_limit config) p.1) as [?|(a & t & E & Ea)]; [by left|right].
    exists a, t. split; [done|]. change (last keys = Some a) in Ea. by rewrite last_app, Ea.
  - by destruct scans.
  - intros k _ Hall. assert (Hk : is_pending p.1 k) by (apply (Hall (p, keys)); set_solver).
    rewrite elem_of_app. destruct scans as [|x scans].
    + destruct (page_covers cursor (sc_page_limit config) p.1 k) as [?|?]; auto.
    + destruct (H3 k) as [?|Ha]; [done|intros scan Hs; apply Hall; set_solver|auto|].
      destruct (page_covers cursor (sc_page_limit config) p.1 k) as [?|?]; auto.
  - done.
  - intros Hne. rewrite !length_app. cbn. destruct keys as [|k keys]; [by destruct Hne; apply Hnil|cbn; lia].
Qed.

Lemma flying_handed s0 scans outs s k : sweep_ok s0 scans outs s → k ∈ run_keys (page_of s) → k ∈ handed scans.
Proof.
  intros Hok Hk. destruct (sw_outs _ _ _ _ Hok) as (rest & <- & Hrest). apply elem_of_app. right.
  rewrite Hrest; [done|]. intros [e He]. unfold page_of in Hk. rewrite He in Hk. by apply not_elem_of_nil in Hk.
Qed.

(** A step that hands nothing out and counts nothing. *)
Lemma sweep_ok_same s0 scans outs s s' :
  sweep_ok s0 scans outs s → run_ok (page_of s') outs (sv_port s') → port_kept (sv_port s) (sv_port s') →
  (others_quiet → ∀ k, is_pending (sv_port s').1 k → is_pending (sv_port s0).1 k) →
  (¬ stopped s' → ¬ stopped s ∧ run_keys (page_of s') ≡ₚ run_keys (page_of s) ∧ position scans s') →
  sweep_ok s0 scans outs s'.
Proof.
  intros [_ Hs (rest & Ho & Hrest) _ Hn Hc Hq] Hrun Hk Hq' Hlive. split; try done.
  - destruct (decide (rest ≡ₚ run_keys (page_of s'))) as [Hr|Hr].
    + exists (run_keys (page_of s')). split; [by rewrite <- Hr|done].
    + exists rest. split; [done|]. intros Hst. destruct (Hlive Hst) as (Hst0 & Hkeys & _), Hr.
      by rewrite (Hrest Hst0), Hkeys.
  - intros Hst. apply (Hlive Hst).
  - intros k Hin. by eapply closed_kept, Hc.
  - intros Hqt. split; [by apply Hq'|]. apply (Hq Hqt).
Qed.

Lemma scan_step_ok s0 scans outs p cursor progress page :
  (0 < sc_page_limit config ≤ 256)%nat → sweep_ok s0 scans outs (mkSupervisor p cursor progress Scanning) →
  run_ok (page_start (pg_keys page)) outs p →
  scan_retryable_v2 cursor (sc_page_limit config) p.1 = Some (Ok page) →
  sweep_ok s0 (scans ++ [(p, pg_keys page)]) outs
    (mkSupervisor p cursor (count_scan (length (pg_keys page)) progress)
       (Paging (page_start (pg_keys page)) (default cursor_initial (next_cursor_v2 page)))).
Proof.
  intros Hl [Hrun Hs Ho Hp Hn Hc Hq] Hrun' E. pose proof (ro_ok _ _ _ Hrun) as Hok. pose proof Hok as [Hwf Hid].
  assert (Hlive : ¬ stopped (mkSupervisor p cursor progress Scanning)) by (by intros [e He]).
  rewrite scan_page in E by (done || lia). injection E as <-. cbn [pg_keys] in *.
  change (default cursor_initial _) with (next_after cursor (sc_page_limit config) p.1).
  destruct (scan_position scans p cursor progress (count_scan (length (page_keys cursor (sc_page_limit config) p.1)) progress)
    ltac:(lia) Hok (Hp Hlive)) as [Hpos Hlen].
  pose proof (page_continues scans _ Hs (Hp Hlive) eq_refl Hok) as Hs'. cbn in Hs'.
  assert (Hpend : ∀ k, k ∈ page_keys cursor (sc_page_limit config) p.1 → is_pending p.1 k)
    by (intros k Hk; by apply (page_keys_elem _ _ _ _ Hwf Hk)).
  split; rewrite ?handed_snoc; try done; cbn.
  - destruct Ho as (rest & Ho & Hrest). rewrite (Hrest Hlive) in Ho. exists (page_keys cursor (sc_page_limit config) p.1).
    split; [|done]. rewrite <- Ho. cbn. by rewrite app_nil_r.
  - intros k [Hk|Hk]%elem_of_app; [by apply Hc|]. destruct (Hpend k Hk) as (v & Hv & Hd).
    exists v. split; [done|]. by rewrite Hd.
  - intros Hqt. destruct (Hq Hqt) as [Hq1 Hq2]. split; [done|].
    intros k [Hk|Hk]%elem_of_app; [by apply Hq2|by apply Hq1, Hpend].
Qed.

Lemma sweep_step_ok s0 scans outs s e s' :
  others_keep → (0 < sc_page_limit config ≤ 256)%nat → sweep_ok s0 scans outs s → ¬ swept scans s →
  supervisor_step others config s e s' → sweep_ok s0 (scans ++ scan_of e) (outs ++ outcomes_of e) s'.
Proof.
  intros Hkeep Hl Hok Hsw Hstep.
  destruct (supervisor_step_ok _ _ _ _ Hkeep Hstep (sw_run _ _ _ _ Hok)) as (Hrun' & Hkept & Hquiet).
  assert (Hq : others_quiet → ∀ k, is_pending (sv_port s').1 k → is_pending (sv_port s0).1 k).
  { intros Hqt k Hk. apply (proj1 (sw_quiet _ _ _ _ Hok Hqt)), (Hquiet Hqt); [|done].
    intros k' Hk'. by eapply sw_closed, flying_handed. }
  destruct Hstep; cbn [scan_of outcomes_of] in *; rewrite ?app_nil_r in *.
  - apply (sweep_ok_same s0 scans outs _ _ Hok); [done..|]. intros []. by eexists.
  - by apply scan_step_ok.
  - apply (sweep_ok_same s0 scans outs _ _ Hok); [done..|]. intros _. split; [by intros [??]|]. split; [done|].
    eapply position_same; [| |apply (sw_position _ _ _ _ Hok); by intros [??]]; done.
  - apply (sweep_ok_same s0 scans outs _ _ Hok); [done..|]. intros _. split; [by intros [??]|]. split; [done|].
    eapply position_same; [| |apply (sw_position _ _ _ _ Hok); by intros [??]]; done.
  - apply (sweep_ok_same s0 scans outs _ _ Hok); [done..|]. intros []. by eexists.
  - apply (sweep_ok_same s0 scans outs _ _ Hok); [done..|]. intros _. split; [by intros [??]|].
    split; [by eapply (page_step_keys _ (_, _) (_, _))|].
    eapply position_same; [| |apply (sw_position _ _ _ _ Hok); by intros [??]]; done.
  - destruct Hok as [Hrun Hs Ho Hp Hn Hc Hqt]. split; try done.
    + destruct Ho as (rest & Ho & Hrest). rewrite Hrest in Ho by (by intros [??]). exists []. split; [|done].
      rewrite fmap_app, app_nil_r. cbn in Ho. unfold run_keys in Ho. cbn in Ho. by rewrite !app_nil_r in Ho.
    + intros _. eapply position_same; [| |apply Hp; by intros [??]]; done.
  - apply (sweep_ok_same s0 scans outs _ _ Hok); [done..|]. intros _. split; [by intros [??]|]. split; [done|].
    eapply position_same; [| |apply (sw_position _ _ _ _ Hok); by intros [??]]; [done|].
    intros _ Hne Hc. by destruct Hsw.
  - apply (sweep_ok_same s0 scans outs _ _ Hok); [done..|]. intros Hst. split; [done|]. split; [done|].
    eapply position_same; [| |by apply (sw_position _ _ _ _ Hok)]; [done|].
    apply (ps_scanning _ _ (sw_position _ _ _ _ Hok Hst)).
Qed.

Lemma sweeps_ok s0 scans outs s :
  others_keep → (0 < sc_page_limit config ≤ 256)%nat → port_ok (sv_port s0) →
  no_orphans (sv_port s0).1 (sv_port s0).2 → sweeps others config s0 scans outs s → sweep_ok s0 scans outs s.
Proof.
  intros Hkeep Hl Hp0 Hn. induction 1 as [Hph Hcu|scans outs s e s' _ IH Hsw Hstep]; [|by eapply sweep_step_ok].
  split; cbn; unfold page_of, next_of; rewrite ?Hph.
  - split; try done; cbn; [by intros ? ? ?%not_elem_of_nil|by intros ? ? ?%not_elem_of_nil|lia].
  - constructor.
  - by exists [].
  - intros _. assert (Hnext : next_of s0 = cursor_initial) by (unfold next_of; by rewrite Hph).
    split; try done. by left.
  - lia.
  - by intros k ?%not_elem_of_nil.
  - intros _. split; [done|]. by intros k ?%not_elem_of_nil.
Qed.
End sweep.

(** ** The guarantees *)
Section guarantees.
Context {D : Type} `{InstanceDeleterLaws D}.
Context (others : InMemoryInstanceStore * D → InMemoryInstanceStore * D → Prop).
Context (config : InstanceTeardownRetrySupervisorConfigV1).

Lemma keys_NoDup l : StronglySorted key_lt l → NoDup l.
Proof.
  induction 1 as [|a l Hl IH Ha]; constructor; [|done].
  intros Hin. rewrite Forall_forall in Ha. by apply (key_lt_irrefl a), Ha.
Qed.

(** C27: The supervisor starves no pending deletion. Take a sweep so far, from the initial
    cursor until the cursor is back there, with the retries of a page running concurrently,
    ending in any order or cut off by their timeouts, scans that fail or time out, and other
    teardowns and registrations in between. No more retries are in flight than configured, no
    instance is retried twice, one whose retry reports completion is deleted, and an instance
    is deleted only when everything it created is gone. The retries of a page end whatever
    happens, and not before each has its outcome. When the sweep is over, every instance that
    was pending at each of its scans has been retried. And if nothing else makes instances
    pending, there is at most one scan more than there were pending instances. *)
Theorem sweep_retries_every_pending s0 scans outs s :
  others_keep others → (0 < sc_page_limit config ≤ 256)%nat → (0 < sc_max_concurrency config)%nat →
  port_ok (sv_port s0) → no_orphans (sv_port s0).1 (sv_port s0).2 →
  sweeps others config s0 scans outs s →
  (length (run_running (page_of s)) ≤ sc_max_concurrency config)%nat ∧
  NoDup outs.*1 ∧
  (∀ k o, (k, o) ∈ outs → completes o → deleted (sv_port s) k) ∧
  no_orphans (sv_port s).1 (sv_port s).2 ∧
  (∀ p, sn (page_step (sc_max_concurrency config)) (page_of s, p) ∧
     (nf (page_step (sc_max_concurrency config)) (page_of s, p) →
      run_waiting (page_of s) = [] ∧ run_running (page_of s) = [])) ∧
  (swept scans s → ∀ k, (∀ scan, scan ∈ scans → is_pending scan.1.1 k) → k ∈ outs.*1) ∧
  (others_quiet others → (length scans ≤ S (length (pending (sv_port s0).1)))%nat).
Proof.
  intros Hkeep Hl Hm Hp0 Hn0 Hsweep. destruct (sweeps_ok others config _ _ _ _ Hkeep Hl Hp0 Hn0 Hsweep)
    as [[Hok Hn Hr Hd Hb] Hs (rest & Ho & Hrest) Hpos Hlen Hc Hq].
  pose proof (keys_NoDup _ Hs) as Hnd. split_and!; [done| | |done| | |].
  - rewrite <- Ho in Hnd. by apply NoDup_app in Hnd as (? & _).
  - intros k o Hin. apply Hd, elem_of_app. by left.
  - intros p. split; [apply pages_end, teardown_tasks_end|by apply page_stuck].
  - intros (Hne & Hph & Hcu) k Hk. assert (Hst : ¬ stopped s) by (intros [e He]; congruence).
    destruct (ps_cover _ _ (Hpos Hst) k Hne Hk) as [Hin|Ha].
    + rewrite <- Ho, (Hrest Hst) in Hin. unfold page_of in Hin. rewrite Hph in Hin. cbn in Hin.
      by rewrite app_nil_r in Hin.
    + unfold next_of in Ha. rewrite Hph, Hcu in Ha. by destruct (ahead_not_initial k).
  - intros Hqt. destruct (Hq Hqt) as [_ Hin]. etransitivity; [exact Hlen|]. apply le_n_S.
    apply submseteq_length, NoDup_submseteq; [done|]. intros k Hk. apply pending_elem; [apply Hp0|by apply Hin].
Qed.
End guarantees.
