(* ===== verification/TeardownExamples.v ===== *)
(** * Sample teardowns

    A deleter that remembers what it deleted and refuses some targets, and a store
    with two instances, one of them half deleted: the theorems on teardown and on
    the supervisor apply to them, and the sample runs compute. *)

From Stdlib Require Import ZArith Lia Ascii String.
From stdpp Require Import base decidable list strings gmap numbers relations.
From S2P Require Import Prelude RustStd Instance InstanceStore Teardown TeardownSpec InstanceScan RetrySupervisor.
Open Scope Z_scope.

(** ** A deleter *)
Definition target (g : Z) (r : InstanceResource) : Z * Z * Z * Z :=
  match r with
  | ResMessage _ c m => (g, 0, c, m)
  | ResChannel _ c => (g, 1, c, 0)
  | ResRole _ r => (g, 2, r, 0)
  end.

Record FakeDeleter := mkFake {
  fd_gone : list (Z * Z * Z * Z);
  fd_refused : list (Z * Z * Z * Z)
}.

Definition fake_delete (t : Z * Z * Z * Z) : Cmd FakeDeleter DeleterError DeleteOutcome :=
  λ d, if decide (t ∈ fd_refused d) then (Err (mkDeleterError DelForbidden "forbidden"), d)
       else (Ok (if decide (t ∈ fd_gone d) then AlreadyGone else DeleteDone),
             mkFake (t :: fd_gone d) (fd_refused d)).

#[export] Instance fake_deleter : InstanceDeleter FakeDeleter := {
  delete_message g c m := fake_delete (g, 0, c, m);
  delete_channel g c := fake_delete (g, 1, c, 0);
  delete_role g r := fake_delete (g, 2, r, 0)
}.

Lemma fake_delete_target g r d : delete_resource g r d = fake_delete (target g r) d.
Proof. by destruct r. Qed.

#[export, program] Instance fake_deleter_laws : InstanceDeleterLaws FakeDeleter := {
  gone d g r := target g r ∈ fd_gone d
}.
Next Obligation.
  intros g r d o d'. rewrite fake_delete_target. unfold fake_delete. case_decide; intros [= <- <-].
  - split; [done|by intros x].
  - split; [intros g' r' H'; by right|intros x _; left].
Qed.

Lemma fake_reliable g r d : fd_refused d = [] →
  ∃ o d', delete_resource g r d = (Ok o, d') ∧ fd_refused d' = [].
Proof.
  intros Hd. rewrite fake_delete_target. unfold fake_delete. rewrite Hd.
  rewrite decide_False by apply not_elem_of_nil. eauto.
Qed.

(** ** Two instances *)
Definition sample_resources : InstanceResources :=
  mkResources [("member"%string, 70)] [("room"%string, 80)] [("panel"%string, mkMessageRef 80 90)].

Definition sample_instance (id : string) (status : InstanceStatus) : AutomationInstance :=
  mkInstance id 7 "study" 1 "study_room" 5 sample_resources status.

Definition sample_store : InMemoryInstanceStore :=
  store_set 7 "i_b" (sample_instance "i_b" Deleting)
    (store_set 7 "i_a" (sample_instance "i_a" Active) []).

Lemma sample_store_wf : store_wf sample_store.
Proof. apply store_set_wf; [|done..]. apply store_set_wf; [apply store_wf_empty|done..]. Qed.

Lemma sample_healthy : healthy sample_store.
Proof. exact sample_store_wf. Qed.

Lemma sample_store_find g i v : store_find sample_store g i = Some v →
  g = 7 ∧ (v = sample_instance "i_a" Active ∨ v = sample_instance "i_b" Deleting).
Proof.
  unfold sample_store. rewrite !store_find_set by (repeat apply store_set_wf; try done; apply store_wf_empty).
  case_decide as E1; [intros [= <-]; injection E1 as <- _; auto|].
  case_decide as E2; [intros [= <-]; injection E2 as <- _; auto|]. done.
Qed.

Lemma sample_store_ids : store_ids_valid sample_store.
Proof. intros g i v [-> _]%sample_store_find. split; [done|]. by split; vm_compute. Qed.

Lemma sample_no_orphans (d : FakeDeleter) : no_orphans sample_store d.
Proof. intros g i v Hv Hd. apply sample_store_find in Hv as [_ [->| ->]]; done. Qed.

(** The role of the instance cannot be deleted at first. *)
Definition stubborn : FakeDeleter := mkFake [] [(7, 2, 70, 0)].

Lemma stubborn_fails :
  (teardown_locked 7 "i_a" None (sample_store, stubborn)).1 =
  Err (TeDeleteFailed (ResRole "member" 70) (mkDeleterError DelForbidden "forbidden")).
Proof. vm_compute. reflexivity. Qed.

Lemma teardown_answers_witness :
  let '(r, (s', d')) := teardown_locked 7 "i_a" None (sample_store, stubborn) in
  teardown_effect 7 "i_a" None sample_store stubborn r s' d'.
Proof.
  destruct (teardown_locked 7 "i_a" None (sample_store, stubborn)) as [r [s' d']] eqn:E.
  apply (teardown_answers sample_store stubborn 7 "i_a" None r s' d' sample_healthy E).
Defined.

Lemma teardowns_leave_no_orphans_witness :
  let '(s', d') := foldl attempt (sample_store, stubborn) [(7, "i_a"%string, None); (7, "i_b"%string, None)] in
  no_orphans s' d'.
Proof.
  destruct (foldl attempt (sample_store, stubborn) _) as [s' d'] eqn:E.
  apply (teardowns_leave_no_orphans sample_store stubborn _ s' d' sample_healthy
    (sample_no_orphans stubborn) E).
Defined.

Lemma in_memory_reliable {D} `{InstanceDeleterLaws D} (ok_d : D → Prop) :
  (∀ g r d, ok_d d → ∃ o d', delete_resource g r d = (Ok o, d') ∧ ok_d d') →
  Reliable (S := InMemoryInstanceStore) store_wf ok_d.
Proof.
  intros Hok. split; [done| | | |done].
  - intros g i s Hs. by exists (store_find s g i), s.
  - intros g i s v Hs Hv. cbn in Hv. cbn.
    destruct (claim_deleting_v1 g i s) as [r s'] eqn:E.
    destruct (status_shape_effect _ _ _ _ _ _ _ (claim_shape g i) Hs E) as (E1 & _ & E3).
    rewrite Hv in E3. cbn in E3. destruct (ai_status v); injection E3 as <- _; eauto.
  - intros g i s v Hs Hv Hd. cbn in Hv. cbn.
    destruct (mark_deleted_v1 g i s) as [r s'] eqn:E.
    destruct (status_shape_effect _ _ _ _ _ _ _ (mark_shape g i) Hs E) as (E1 & _ & E3).
    rewrite Hv in E3. cbn in E3. rewrite Hd in E3. injection E3 as <- _. eauto.
Qed.

(** After the failure the role may be deleted, and the teardown is resumed. *)
Lemma teardown_resumes_witness :
  ∃ out s2 d2, teardown_locked 7 "i_b" None (sample_store, mkFake [] []) = (Ok out, (s2, d2)) ∧
    out ≠ InProgress ∧ store_find s2 7 "i_b" = Some (sample_instance "i_b" Deleted) ∧
    all_gone d2 7 (manifest sample_resources).
Proof.
  apply (teardown_resumes (S := InMemoryInstanceStore) store_wf (λ d, fd_refused d = [])
    sample_store (mkFake [] []) [] sample_store (mkFake [] []) 7 "i_b" None
    (sample_instance "i_b" Deleting)
    (in_memory_reliable _ fake_reliable) sample_healthy (sample_no_orphans _) eq_refl
    sample_store_wf eq_refl eq_refl eq_refl).
Defined.

(** ** A sweep with two retries in flight

    Two instances are pending. Both retries start; the second is polled to its end while the
    first waits, and then the first times out. Other teardowns may run at any time. *)
Definition sample_config : InstanceTeardownRetrySupervisorConfigV1 := mkSupervisorConfig 1 2 2 1 1.

Definition pending_store : InMemoryInstanceStore :=
  store_set 7 "i_b" (sample_instance "i_b" Deleting)
    (store_set 7 "i_a" (sample_instance "i_a" Deleting) []).

Abbreviation SamplePort := (InMemoryInstanceStore * FakeDeleter)%type (only parsing).

Definition pending_port : SamplePort := (pending_store, mkFake [] []).

Lemma pending_store_find g i v : store_find pending_store g i = Some v →
  g = 7 ∧ (v = sample_instance "i_a" Deleting ∨ v = sample_instance "i_b" Deleting).
Proof.
  unfold pending_store. rewrite !store_find_set by (repeat apply store_set_wf; try done; apply store_wf_empty).
  case_decide as E1; [intros [= <-]; injection E1 as <- _; auto|].
  case_decide as E2; [intros [= <-]; injection E2 as <- _; auto|]. done.
Qed.

Lemma pending_port_ok : port_ok pending_port.
Proof.
  split; [apply store_set_wf; [|done..]; apply store_set_wf; [apply store_wf_empty|done..]|].
  intros g i v [-> _]%pending_store_find. split; [done|]. by split; vm_compute.
Qed.

Lemma pending_no_orphans : no_orphans pending_port.1 pending_port.2.
Proof. intros g i v Hv Hd. apply pending_store_find in Hv as [_ [->| ->]]; done. Qed.

Definition teardowns (p p' : SamplePort) : Prop := ∃ a, healthy p.1 ∧ p' = attempt p a.

Lemma teardowns_keep : others_keep teardowns.
Proof.
  intros [s d] p' (a & Hs & ->). change (healthy s) in Hs. destruct (attempt (s, d) a) as [s' d'] eqn:E.
  destruct (attempt_effect _ _ _ _ _ Hs E) as (Hs' & _ & Hgone & Hprog & _).
  split; [|intros Hn; exact (attempt_keeps _ _ _ _ _ Hs Hn E)]. split.
  - intros [_ Hid]. split; [done|]. intros g i v Hv.
    change (view s' g i = Some v) in Hv. specialize (Hprog g i).
    destruct (view s g i) as [w|] eqn:Ew; [by eapply Hid|congruence].
  - intros g i v Hv. change (view s g i = Some v) in Hv. specialize (Hprog g i).
    by rewrite Hv in Hprog.
  - done.
Qed.

(** A schedule for the retries of a page. *)
Inductive Choice := ChooseStart | ChoosePoll (n : nat) | ChooseTimeout (n : nat).

Definition choose (limit : nat) (c : Choice) (x : PageRun SamplePort * SamplePort)
  : option (PageRun SamplePort * SamplePort) :=
  let '(mkPageRun waiting running done, p) := x in
  match c with
  | ChooseStart =>
      match waiting with
      | k :: rest =>
          if decide (length running < limit)%nat
          then Some (mkPageRun rest (running ++ [(k, TaskLock)]) done, p) else None
      | [] => None
      end
  | ChoosePoll n =>
      '(k, t) ← running !! n;
      match task_poll true (rk_guild_id k) (rk_instance_id k) t p with
      | (inl t', p') => Some (mkPageRun waiting (take n running ++ (k, t') :: drop (S n) running) done, p')
      | (inr r, p') => Some (mkPageRun waiting (take n running ++ drop (S n) running)
                               (done ++ [(k, entry_outcome r)]), p')
      end
  | ChooseTimeout n =>
      '(k, t) ← running !! n;
      Some (mkPageRun waiting (take n running ++ drop (S n) running) (done ++ [(k, EntryTimedOut)]), p)
  end.

Lemma choose_steps limit c x y : choose limit c x = Some y → page_step limit x y.
Proof.
  destruct x as [[waiting running done] p], c as [|n|n]; cbn.
  - destruct waiting as [|k rest]; [done|]. case_decide; [|done]. intros [= <-].
    by apply (page_starts limit k rest running done p).
  - intros ([k t] & E & Hc)%bind_Some. cbn in Hc.
    destruct (task_poll _ _ _ t p) as [[t'|r] p'] eqn:Ep; injection Hc as <-;
      pose proof (take_drop_middle _ _ _ E) as Hrun.
    + rewrite <- Hrun at 1.
      exact (page_polls (P := SamplePort) limit k t t' waiting _ _ done p p' (ex_intro _ true Ep)).
    + rewrite <- Hrun at 1.
      exact (page_ends (P := SamplePort) limit k t r waiting _ _ done p p' (ex_intro _ true Ep)).
  - intros ([k t] & E & Hc)%bind_Some. injection Hc as <-.
    pose proof (take_drop_middle _ _ _ E) as Hrun. rewrite <- Hrun at 1.
    exact (page_times_out (P := SamplePort) limit k t waiting _ _ done p).
Qed.

Definition choices (limit : nat) (cs : list Choice) (x : PageRun SamplePort * SamplePort)
  : option (PageRun SamplePort * SamplePort) := foldl (λ o c, o ≫= choose limit c) (Some x) cs.

Lemma choices_steps limit cs x y : choices limit cs x = Some y → rtc (page_step limit) x y.
Proof.
  unfold choices. revert x. induction cs as [|c cs IH]; intros x; cbn; [by intros [= ->]|].
  destruct (choose limit c x) as [z|] eqn:E.
  - intros Hz. eapply rtc_l; [by eapply choose_steps|by apply IH].
  - intros Hz. exfalso. clear -Hz. by induction cs.
Qed.

Lemma sweeps_page others config (s0 : Supervisor SamplePort) scans outs cursor progress next x y :
  sweeps others config s0 scans outs (mkSupervisor x.2 cursor progress (Paging x.1 next)) →
  rtc (page_step (sc_max_concurrency config)) x y →
  sweeps others config s0 scans outs (mkSupervisor y.2 cursor progress (Paging y.1 next)).
Proof.
  intros Hs Hr. revert Hs. induction Hr as [|x y z Hxy _ IH]; [done|]. intros Hs. apply IH.
  rewrite <- (app_nil_r scans), <- (app_nil_r outs).
  eapply (sweep_goes_on _ _ _ _ _ _ None); [exact Hs|by intros (_ & ? & _)|].
  destruct x, y. by apply supervisor_retries.
Qed.

Definition first_key : InstanceTeardownRetryKeyV2 := mkRetryKey 7 "i_a".
Definition second_key : InstanceTeardownRetryKeyV2 := mkRetryKey 7 "i_b".

Definition sample_schedule : list Choice :=
  [ChooseStart; ChoosePoll 0; ChooseStart] ++ replicate 8 (ChoosePoll 1) ++ [ChooseTimeout 0].

Definition sample_page : PageRun SamplePort * SamplePort :=
  default (page_start [], pending_port)
    (choices 2 sample_schedule (page_start [first_key; second_key], pending_port)).

Definition sample_outs : list (InstanceTeardownRetryKeyV2 * InstanceTeardownRetryEntryOutcomeV1) :=
  [(second_key, EntryCompleted ResumedAndCompleted); (first_key, EntryTimedOut)].

Lemma sample_page_run :
  choices 2 sample_schedule (page_start [first_key; second_key], pending_port) = Some sample_page.
Proof.
  assert (Hs : is_some (choices 2 sample_schedule (page_start [first_key; second_key], pending_port)) = true)
    by (vm_compute; reflexivity).
  unfold sample_page. by destruct (choices _ _ _).
Qed.

Lemma sample_page_done : sample_page.1 = mkPageRun [] [] sample_outs.
Proof.
  assert (Hd : run_done sample_page.1 = sample_outs) by (vm_compute; reflexivity).
  assert (Hw : run_waiting sample_page.1 = []) by (vm_compute; reflexivity).
  assert (Hr : length (run_running sample_page.1) = 0%nat) by (vm_compute; reflexivity).
  destruct sample_page as [[waiting [|x running] outs] p]; [|done]. cbn in *. by subst.
Qed.

Lemma sample_sweep : ∃ progress,
  sweeps teardowns sample_config (supervisor_start pending_port)
    [(pending_port, [first_key; second_key])] sample_outs
    (mkSupervisor sample_page.2 cursor_initial progress Sleeping).
Proof.
  eexists.
  eapply (sweep_goes_on _ _ _ [(pending_port, [first_key; second_key])] [] _ (Some (PageDone sample_outs))).
  - eapply (sweeps_page teardowns sample_config _ _ [] cursor_initial _ cursor_initial
      (page_start [first_key; second_key], pending_port) sample_page).
    + eapply (sweep_goes_on _ _ _ [] [] _ (Some (Scanned pending_port [first_key; second_key])));
        [by apply sweep_begins|by intros [? _]|].
      apply (supervisor_scans teardowns sample_config pending_port cursor_initial progress_default
        (mkPage [first_key; second_key] (Some second_key))). vm_compute. reflexivity.
    + apply (choices_steps 2 sample_schedule), sample_page_run.
  - by intros (_ & ? & _).
  - rewrite sample_page_done. apply supervisor_counts.
Qed.

Lemma sweep_retries_every_pending_witness :
  ∃ s, sweeps teardowns sample_config (supervisor_start pending_port)
         [(pending_port, [first_key; second_key])] sample_outs s ∧
    NoDup sample_outs.*1 ∧ deleted (sv_port s) second_key ∧ first_key ∈ sample_outs.*1.
Proof.
  destruct sample_sweep as [progress Hs]. eexists. split; [exact Hs|].
  destruct (sweep_retries_every_pending teardowns sample_config (supervisor_start pending_port) _ _ _
    teardowns_keep ltac:(cbn; lia) ltac:(cbn; lia)
    pending_port_ok pending_no_orphans Hs) as (_ & Hnd & Hdel & _ & _ & Hall & _).
  split; [done|]. split.
  - apply (Hdel second_key (EntryCompleted ResumedAndCompleted)); [left|exact I].
  - apply Hall; [done|]. intros scan ->%list_elem_of_singleton.
    exists (sample_instance "i_a" Deleting). split; vm_compute; reflexivity.
Defined.
