(* ===== verification/AutomationState.v ===== *)
(** * Interaction rule sets

    Crate [automation-state]: what a user writes to automate a guild. Panels with
    buttons, modals with fields, and rules that answer a click, a submission or an
    action on an instance with a list of actions. *)

From Stdlib Require Import ZArith Lia Ascii String.
From stdpp Require Import base decidable list strings numbers.
From S2P Require Import Prelude RustStd RustText DiscordModel Instance.
Open Scope Z_scope.

Abbreviation ResourceKey := string (only parsing).

(** ** Modals *)
Inductive ModalFieldStyle := Short | Paragraph.
Inductive ModalInputPolicy := Preserve | TrimUnicodeWhitespace.

Definition input_policy_normalize (p : ModalInputPolicy) (value : string) : string :=
  match p with
  | Preserve => value
  | TrimUnicodeWhitespace => str_trim value
  end.

Record ModalFieldSpec := mkModalField {
  mf_key : string;
  mf_label : string;
  mf_style : ModalFieldStyle;
  mf_required : bool;
  mf_min_length : option Z;
  mf_max_length : option Z;
  mf_input_policy : ModalInputPolicy
}.

Record ModalSpec := mkModal {
  mo_key : string;
  mo_title : string;
  mo_fields : list ModalFieldSpec
}.

Definition DISCORD_MODAL_INPUT_MAX_LENGTH : Z := 4000.

Definition modal_input_utf16_len (value : string) : Z := utf16_len value.

(** ** References *)
Inductive InstanceRef :=
| InstanceEvent
| InstanceCreated (created : string).

Inductive RoleRef :=
| RoleExisting (key : ResourceKey)
| RoleCreated (created : string)
| RoleInstance (instance : InstanceRef) (alias : string).

Inductive ChannelRef :=
| ChannelExisting (key : ResourceKey)
| ChannelCreated (created : string).

Inductive OverwriteTargetSpec :=
| SpecEveryone
| SpecRole (role : RoleRef).

Inductive ActionTarget := Actor.

Record InstanceResourceRefs := mkResourceRefs {
  rr_roles : list (string * string);
  rr_channels : list (string * string);
  rr_messages : list (string * string)
}.

(** ** Panels *)
Inductive ButtonRoute :=
| RouteStatic (key : string)
| RouteInstanceAction (instance : InstanceRef) (action : string).

Record ButtonSpec := mkButton {
  bt_label : string;
  bt_route : ButtonRoute
}.

Record PanelSpec := mkPanel {
  pn_key : string;
  pn_channel : ResourceKey;
  pn_content : string;
  pn_buttons : list ButtonSpec
}.

(** ** Rules *)
Inductive TriggerSpec :=
| OnButtonClick (component : string)
| OnModalSubmit (modal : string)
| OnInstanceAction (action : string).

Inductive ActionSpec :=
| GrantRole (role : RoleRef) (target : ActionTarget)
| RespondEphemeral (content : string)
| OpenModal (modal : string)
| CreateChannel (key name : string)
| CreateRole (key name : string)
| UpsertOverwrite (channel : ChannelRef) (target : OverwriteTargetSpec) (allow deny : Permissions)
| PostPanel (key : string) (channel : ChannelRef) (content : string) (buttons : list ButtonSpec)
| DeferEphemeral
| EditResponse (content : string)
| RegisterInstance (key : string) (kind : InstanceKind) (resources : InstanceResourceRefs)
| TeardownInstance (instance : InstanceRef).

Record InteractionRule := mkRule {
  ru_key : string;
  ru_trigger : TriggerSpec;
  ru_actions : list ActionSpec
}.

Record InteractionRuleSet := mkRuleSet {
  rs_version : Z;
  rs_panels : list PanelSpec;
  rs_modals : list ModalSpec;
  rs_rules : list InteractionRule
}.

#[export] Instance ModalFieldStyle_eq_dec : EqDecision ModalFieldStyle.
Proof. solve_decision. Defined.
#[export] Instance ModalInputPolicy_eq_dec : EqDecision ModalInputPolicy.
Proof. solve_decision. Defined.
#[export] Instance ModalFieldSpec_eq_dec : EqDecision ModalFieldSpec.
Proof. solve_decision. Defined.
#[export] Instance InstanceRef_eq_dec : EqDecision InstanceRef.
Proof. solve_decision. Defined.
#[export] Instance ModalSpec_eq_dec : EqDecision ModalSpec.
Proof. solve_decision. Defined.
#[export] Instance RoleRef_eq_dec : EqDecision RoleRef.
Proof. solve_decision. Defined.
#[export] Instance ChannelRef_eq_dec : EqDecision ChannelRef.
Proof. solve_decision. Defined.
#[export] Instance OverwriteTargetSpec_eq_dec : EqDecision OverwriteTargetSpec.
Proof. solve_decision. Defined.
#[export] Instance ActionTarget_eq_dec : EqDecision ActionTarget.
Proof. solve_decision. Defined.
#[export] Instance InstanceResourceRefs_eq_dec : EqDecision InstanceResourceRefs.
Proof. solve_decision. Defined.
#[export] Instance ButtonRoute_eq_dec : EqDecision ButtonRoute.
Proof. solve_decision. Defined.
#[export] Instance ButtonSpec_eq_dec : EqDecision ButtonSpec.
Proof. solve_decision. Defined.
#[export] Instance PanelSpec_eq_dec : EqDecision PanelSpec.
Proof. solve_decision. Defined.
#[export] Instance TriggerSpec_eq_dec : EqDecision TriggerSpec.
Proof. solve_decision. Defined.
#[export] Instance ActionSpec_eq_dec : EqDecision ActionSpec.
Proof. solve_decision. Defined.
#[export] Instance InteractionRule_eq_dec : EqDecision InteractionRule.
Proof. solve_decision. Defined.
#[export] Instance InteractionRuleSet_eq_dec : EqDecision InteractionRuleSet.
Proof. solve_decision. Defined.
