(* ===== verification/Template.v ===== *)
(** * Message templates

    Crate [automation-core], [template.rs]: a text with [${input.key}] holes is
    parsed into segments, filled from the inputs of a modal, sanitised for where
    it will appear, and bounded in length. *)

From Stdlib Require Import ZArith Lia Ascii String.
From stdpp Require Import base decidable list strings numbers sets.
From S2P Require Import Prelude RustStd RustText.
Open Scope Z_scope.

Definition EPHEMERAL_MAX_LEN : Z := 2000.
Definition NAME_MAX_LEN : Z := 100.

Inductive SanitizeContext := EphemeralMessageContent | ChannelName | RoleName.

Inductive TemplateError :=
| BadSyntax (source : string)
| UnsupportedVariable (expr : string)
| MissingInput (key : string)
| TooLong (limit actual : Z)
| EmptyAfterSanitize.

Inductive Segment :=
| Literal (text : string)
| Input (key : string).

Definition TemplateString : Type := list Segment.

Definition push_literal (text : string) (segments : list Segment) : list Segment :=
  if str_is_empty text then segments else Literal text :: segments.

(** The [while let] of [TemplateString::parse]: each turn consumes at least the
    two characters of the opening, so the length of the text is enough fuel. *)
Fixpoint parse_segments (fuel : nat) (source rest : string) : Result TemplateError (list Segment) :=
  match str_find "${" rest with
  | None => Ok (push_literal rest [])
  | Some (literal, after) =>
      match fuel with
      | O => Err (BadSyntax source)
      | S fuel' =>
          '(expr, rest') ← ok_or (str_find "}" after) (BadSyntax source);
          key ← ok_or (strip_prefix "input." expr) (UnsupportedVariable expr);
          _ ← ensure (negb (str_is_empty key)) (BadSyntax source);
          segments ← parse_segments fuel' source rest';
          Ok (push_literal literal (Input key :: segments))
      end
  end.

Definition template_parse (source : string) : Result TemplateError TemplateString :=
  parse_segments (String.length source) source source.

Definition input_keys (t : TemplateString) : list string :=
  omap (λ s, match s with Input key => Some key | Literal _ => None end) t.

Definition max_len (c : SanitizeContext) : Z :=
  match c with
  | EphemeralMessageContent => EPHEMERAL_MAX_LEN
  | ChannelName | RoleName => NAME_MAX_LEN
  end.

(** *** Sanitising, on characters

    [U+200B], the zero-width space, goes into mentions to break them. *)
Definition zwsp : Z := 8203.
Definition everyone_text : list Z := chars "@everyone".
Definition here_text : list Z := chars "@here".
Definition user_mention : list Z := chars "<@".
Definition channel_mention : list Z := chars "<#".

Definition neutralized (p : list Z) : list Z :=
  match p with c :: t => c :: zwsp :: t | [] => [] end.

(** The four [replace]s both sanitisers start with. *)
Definition neutralize_mentions (cs : list Z) : list Z :=
  replace_chars channel_mention (neutralized channel_mention)
    (replace_chars user_mention (neutralized user_mention)
      (replace_chars here_text (neutralized here_text)
        (replace_chars everyone_text (neutralized everyone_text) cs))).

Definition keep_in_message (c : Z) : bool := (c =? 10) || negb (is_control c).

Definition sanitize_message (input : string) : string :=
  of_chars (filter (λ c, keep_in_message c) (neutralize_mentions (chars input))).

(** The loop pushes lowercase letters and digits, and one hyphen for what lies
    between; [out] is the text so far, last character first. *)
Definition push_channel_char (out : list Z) (c : Z) : list Z :=
  if char_is_ascii_lowercase c || char_is_ascii_digit c then c :: out
  else match out with 45 :: _ => out | _ => 45 :: out end.

Definition sanitize_channel_name (input : string) : string :=
  let result := reverse (foldl push_channel_char [] (chars input ≫= to_lowercase)) in
  of_chars (trim_chars (Z.eqb 45) result).

Definition sanitize_role_name (input : string) : string :=
  let cleaned := filter (λ c, negb (is_control c)) (neutralize_mentions (chars input)) in
  of_chars (join_chars [32] (split_words [] cleaned)).

Definition sanitize (input : string) (c : SanitizeContext) : Result TemplateError string :=
  let result := match c with
                | EphemeralMessageContent => sanitize_message input
                | ChannelName => sanitize_channel_name input
                | RoleName => sanitize_role_name input
                end in
  if str_is_empty result then Err EmptyAfterSanitize else Ok result.

(** The substitution loop of [render]. *)
Fixpoint substitute (t : TemplateString) (inputs : list (string * string)) (out : string)
  : Result TemplateError string :=
  match t with
  | [] => Ok out
  | Literal text :: rest => substitute rest inputs (out +:+ text)%string
  | Input key :: rest =>
      value ← ok_or (bt_get inputs key) (MissingInput key);
      substitute rest inputs (out +:+ value)%string
  end.

Definition render (t : TemplateString) (inputs : list (string * string)) (c : SanitizeContext)
  : Result TemplateError string :=
  out ← substitute t inputs EmptyString;
  sanitized ← sanitize out c;
  let actual := Z.of_nat (length (chars sanitized)) in
  if max_len c <? actual then Err (TooLong (max_len c) actual) else Ok sanitized.

(** ** What templates mean

    Parsing is the inverse of writing a template down; rendering fails for a
    missing input only, or for what sanitising leaves; what it produces has the
    shape Discord asks for. Mentions are broken in every text without control
    characters, and only there. *)

(** ** Printing *)
Definition print_segment (s : Segment) : string :=
  match s with
  | Literal text => text
  | Input key => ("${input." +:+ key +:+ "}")%string
  end.

Fixpoint template_print (t : TemplateString) : string :=
  match t with
  | [] => EmptyString
  | s :: rest => (print_segment s +:+ template_print rest)%string
  end.

(** The segment lists the parser can produce: literals are not empty, do not open
    a hole and do not follow one another; keys are not empty and do not close one. *)
Fixpoint canonical (t : TemplateString) : bool :=
  match t with
  | [] => true
  | Literal text :: rest =>
      negb (str_is_empty text) && negb (is_some (str_find "${" text))
      && match rest with Literal _ :: _ => false | _ => true end && canonical rest
  | Input key :: rest =>
      negb (str_is_empty key) && negb (is_some (str_find "}" key)) && canonical rest
  end.

Lemma str_app_empty (a : string) : (a +:+ EmptyString = a)%string.
Proof. induction a as [|c a IH]; [done|]. by rewrite str_app_cons, IH. Qed.

Lemma str_length_app (a b : string) :
  String.length (a +:+ b)%string = (String.length a + String.length b)%nat.
Proof. induction a as [|c a IH]; [done|]. rewrite str_app_cons. cbn. by rewrite IH. Qed.

Lemma str_find_app_none p a b : str_find p (a +:+ b)%string = None → str_find p b = None.
Proof.
  induction a as [|c a IH]; [done|]. rewrite str_app_cons. cbn [str_find].
  destruct (strip_prefix p _); [done|]. destruct (str_find p (a +:+ b)%string) as [[u v]|] eqn:E; [done|].
  intros _. by apply IH.
Qed.

(** Finding a pattern where it was put. *)
Lemma find_one c a r :
  str_find (String c EmptyString) a = None →
  str_find (String c EmptyString) (a +:+ String c r)%string = Some (a, r).
Proof.
  induction a as [|x a IH]; cbn [str_find].
  - rewrite str_app_nil. cbn. by rewrite Ascii.eqb_refl.
  - rewrite str_app_cons. cbn [str_find strip_prefix]. destruct (Ascii.eqb c x); [done|].
    destruct (str_find (String c EmptyString) a) as [[u v]|]; [done|]. intros _. by rewrite IH.
Qed.

Lemma find_two c1 c2 a r : c1 ≠ c2 →
  str_find (String c1 (String c2 EmptyString)) a = None →
  str_find (String c1 (String c2 EmptyString)) (a +:+ String c1 (String c2 r))%string = Some (a, r).
Proof.
  intros Hne. induction a as [|x a IH].
  - intros _. rewrite str_app_nil. cbn. by rewrite !Ascii.eqb_refl.
  - rewrite str_app_cons. cbn [str_find].
    destruct (strip_prefix _ (String x a)) eqn:E1; [done|].
    destruct (str_find _ a) as [[u v]|] eqn:E2; [done|]. intros _. rewrite IH by done.
    replace (strip_prefix _ (String x (a +:+ String c1 (String c2 r))))%string with (@None string); [done|].
    cbn [strip_prefix] in *. destruct (Ascii.eqb c1 x); [|done].
    destruct a as [|y a]; [rewrite str_app_nil|rewrite str_app_cons].
    + destruct (Ascii.eqb_spec c2 c1); [congruence|done].
    + by destruct (Ascii.eqb c2 y).
Qed.

Lemma push_literal_print text t :
  template_print (push_literal text t) = (text +:+ template_print t)%string.
Proof. unfold push_literal, str_is_empty. by destruct (String.eqb_spec text EmptyString) as [->|]. Qed.

Lemma str_is_empty_false s : str_is_empty s = false ↔ s ≠ EmptyString.
Proof. unfold str_is_empty. by rewrite String.eqb_neq. Qed.

(** *** Parsing what was printed *)
Lemma parse_input fuel source literal key rest t :
  str_find "${" literal = None → str_find "}" key = None → key ≠ EmptyString →
  parse_segments fuel source rest = Ok t →
  parse_segments (S fuel) source (literal +:+ "${input." +:+ key +:+ "}" +:+ rest)%string =
  Ok (push_literal literal (Input key :: t)).
Proof.
  intros Hlit Hkey Hne Hrest.
  assert (str_find "${" (literal +:+ "${input." +:+ key +:+ "}" +:+ rest) =
          Some (literal, "input." +:+ key +:+ "}" +:+ rest))%string as E1 by by apply find_two.
  assert (str_find "}" ("input." +:+ key +:+ "}" +:+ rest) = Some ("input." +:+ key, rest))%string as E2.
  { rewrite (str_app_assoc "input."). apply find_one. rewrite !str_app_cons, str_app_nil. cbn.
    by rewrite Hkey. }
  cbn [parse_segments]. rewrite E1. cbn [mbind]. rewrite E2. cbn [ok_or mbind Result_bind].
  rewrite (proj2 (strip_prefix_spec "input." _ key) eq_refl). cbn [ok_or mbind Result_bind].
  rewrite (proj2 (str_is_empty_false key) Hne). cbn. by rewrite Hrest.
Qed.

Definition prints_back (t : TemplateString) : Prop :=
  ∀ fuel source, canonical t = true → (String.length (template_print t) ≤ fuel)%nat →
  parse_segments fuel source (template_print t) = Ok t.

Lemma print_input_length literal key t :
  String.length (literal +:+ template_print (Input key :: t))%string =
  (String.length literal + 9 + String.length key + String.length (template_print t))%nat.
Proof.
  cbn [template_print print_segment]. rewrite !str_length_app. cbn. lia.
Qed.

Lemma parse_literal_input literal key t fuel source :
  str_find "${" literal = None → canonical (Input key :: t) = true → prints_back t →
  (String.length (literal +:+ template_print (Input key :: t))%string ≤ fuel)%nat →
  parse_segments fuel source (literal +:+ template_print (Input key :: t))%string =
  Ok (push_literal literal (Input key :: t)).
Proof.
  intros Hlit Hc IH Hf. rewrite print_input_length in Hf. destruct fuel as [|fuel]; [lia|].
  cbn [canonical] in Hc. apply andb_true_iff in Hc as [Hc Ht]. apply andb_true_iff in Hc as [Hk Hf'].
  apply negb_true_iff in Hk, Hf'. cbn [template_print print_segment].
  replace (literal +:+ ("${input." +:+ key +:+ "}") +:+ template_print t)%string
    with (literal +:+ "${input." +:+ key +:+ "}" +:+ template_print t)%string
    by (by rewrite <- !str_app_assoc).
  apply parse_input; [done|by apply is_some_false|by apply str_is_empty_false|].
  apply IH; [done|lia].
Qed.

Lemma parse_print t : prints_back t ∧ ∀ literal, prints_back (Literal literal :: t).
Proof.
  induction t as [|[text|key] t [IH1 IH2]].
  - split; [by intros [] ???|]. intros literal fuel source Hc Hf. cbn [template_print print_segment].
    rewrite str_app_empty. cbn [canonical] in Hc. rewrite !andb_true_iff in Hc.
    destruct Hc as [[[He Hn] _] _]. apply negb_true_iff in He, Hn. apply is_some_false in Hn.
    destruct fuel; cbn [parse_segments]; rewrite Hn; unfold push_literal; by rewrite He.
  - split; [apply IH2|]. intros literal fuel source Hc. cbn [canonical] in Hc.
    by rewrite andb_false_r in Hc.
  - split.
    + intros fuel source Hc Hf. by apply (parse_literal_input EmptyString).
    + intros literal fuel source Hc Hf. pose proof Hc as Hc'. cbn [canonical] in Hc.
      rewrite !andb_true_iff in Hc. destruct Hc as [[[He Hn] _] Hc].
      apply negb_true_iff in He, Hn. apply is_some_false in Hn.
      change (template_print (Literal literal :: Input key :: t))
        with (literal +:+ template_print (Input key :: t))%string in *.
      rewrite parse_literal_input; [|done| |done|done].
      * unfold push_literal. by rewrite He.
      * cbn [canonical]. by rewrite !andb_true_iff.
Qed.

(** *** Printing what was parsed *)
Lemma parse_sound fuel source rest t :
  (String.length rest ≤ fuel)%nat → parse_segments fuel source rest = Ok t →
  canonical t = true ∧ template_print t = rest.
Proof.
  revert rest t. induction fuel as [|fuel IH]; intros rest t Hf; cbn [parse_segments];
    destruct (str_find "${" rest) as [[literal after]|] eqn:E.
  1: { apply str_find_Some in E. rewrite E, !str_length_app in Hf. cbn in Hf. lia. }
  1, 3: intros [= <-]; rewrite push_literal_print; split; [|by rewrite str_app_empty];
    unfold push_literal; destruct (str_is_empty rest) eqn:He; cbn [canonical]; by rewrite ?He, ?E.
  pose proof (str_find_first "${" rest literal after ltac:(done) E) as Hlit.
  apply str_find_Some in E.
  destruct (str_find "}" after) as [[expr rest']|] eqn:E2; cbn [ok_or mbind Result_bind]; [|done].
  pose proof (str_find_first "}" after expr rest' ltac:(done) E2) as Hexpr. apply str_find_Some in E2.
  destruct (strip_prefix "input." expr) as [key|] eqn:E3;
    cbn [ok_or mbind Result_bind]; [|done]. apply strip_prefix_spec in E3.
  destruct (str_is_empty key) eqn:Hk; cbn [negb ensure mbind Result_bind]; [done|].
  destruct (parse_segments fuel source rest') as [segments|e] eqn:E4;
    cbn [mbind Result_bind]; [|done]. intros [= <-].
  destruct (IH rest' segments) as [IH1 IH2]; [|done|].
  { rewrite E, E2, !str_length_app in Hf. cbn in Hf. lia. }
  rewrite E3 in Hexpr. apply str_find_app_none in Hexpr. split.
  - unfold push_literal. destruct (str_is_empty literal) eqn:He; cbn [canonical];
      rewrite ?He, ?Hlit, Hk, Hexpr, IH1; done.
  - rewrite push_literal_print. cbn [template_print print_segment]. rewrite IH2, E, E2, E3.
    by rewrite <- !str_app_assoc.
Qed.

(** C34: Parsing terminates and is the inverse of printing: a text parses to
    exactly the canonical template it is the writing of, if there is one, and is
    refused otherwise. *)
Theorem template_parse_print source t :
  template_parse source = Ok t ↔ canonical t = true ∧ template_print t = source.
Proof.
  split.
  - by apply parse_sound.
  - intros [Hc <-]. by apply parse_print.
Qed.

(** The keys of a parsed template are those written in it. *)
Lemma substitute_total t inputs out :
  (∀ key, key ∈ input_keys t → is_Some (bt_get inputs key)) →
  ∃ text, substitute t inputs out = Ok text.
Proof.
  revert out. induction t as [|[text|key] t IH]; intros out Hall; cbn [substitute].
  - eauto.
  - apply IH. intros key Hk. by apply Hall.
  - destruct (Hall key) as [value Hv]; [left|]. rewrite Hv. cbn. apply IH.
    intros key' Hk. apply Hall. by right.
Qed.

(** ** Sanitising *)
Lemma replace_from_Forall (P : Z → Prop) p r k cs :
  Forall P r → Forall P cs → Forall P (replace_from p r k cs).
Proof.
  intros Hr Hcs. revert k. induction Hcs as [|c cs Hc Hcs IH]; intros k; cbn [replace_from]; [constructor|].
  destruct k; [|done]. destruct (is_prefix p (c :: cs)); [by apply Forall_app_2|by constructor].
Qed.

Lemma neutralize_Forall (P : Z → Prop) cs :
  Forall P everyone_text → Forall P here_text → Forall P user_mention → Forall P channel_mention →
  P zwsp → Forall P cs → Forall P (neutralize_mentions cs).
Proof.
  assert (∀ p, Forall P p → P zwsp → Forall P (neutralized p)) as Hn.
  { intros p Hp Hz. destruct Hp; repeat constructor; done. }
  intros. unfold neutralize_mentions. repeat (apply replace_from_Forall; [by apply Hn|]). done.
Qed.

Lemma neutralize_scalars cs :
  Forall (λ c, is_scalar c = true) cs → Forall (λ c, is_scalar c = true) (neutralize_mentions cs).
Proof. intros H. by apply neutralize_Forall; [apply chars_scalars..| |]. Qed.

Lemma filter_Forall (P : Z → Prop) (f : Z → bool) cs : Forall P cs → Forall P (filter (λ c, f c) cs).
Proof.
  induction 1 as [|c cs Hc Hcs IH]; [constructor|]. rewrite filter_cons.
  case_decide; [by constructor|done].
Qed.

Lemma chars_sanitize_message s :
  chars (sanitize_message s) = filter (λ c, keep_in_message c) (neutralize_mentions (chars s)).
Proof.
  apply chars_of_chars, filter_Forall, neutralize_scalars, chars_scalars.
Qed.

(** The patterns the sanitisers break. *)
Definition mentions : list (list Z) := [everyone_text; here_text; user_mention; channel_mention].

Lemma mention_shape p : p ∈ mentions →
  ∃ c t, p = c :: t ∧ (zwsp ∉ c :: t) ∧ (c ∉ t) ∧ t ≠ [].
Proof.
  unfold mentions. rewrite !elem_of_cons. intros [->|[->|[->|[->|H]]]];
    [| | | |by apply not_elem_of_nil in H].
  all: eexists _, _; split; [vm_compute; reflexivity|]; split_and!; [vm_compute; set_solver..|done].
Qed.

Lemma neutral_keeps q p cs :
  p ∈ mentions → q ∈ mentions →
  contains q (replace_chars p (neutralized p) cs) = true → contains q cs = true.
Proof.
  intros (c & t & -> & Hz & _)%mention_shape (c' & t' & -> & Hz' & _)%mention_shape.
  by apply (broken_contains c zwsp t Hz []).
Qed.

Lemma neutral_drops p cs : p ∈ mentions → contains p (replace_chars p (neutralized p) cs) = false.
Proof. intros (c & t & -> & Hz & Hc & Ht)%mention_shape. by apply broken_absent. Qed.

Lemma neutralize_absent q cs : q ∈ mentions → contains q (neutralize_mentions cs) = false.
Proof.
  intros Hq. apply not_true_iff_false. intros H. unfold neutralize_mentions in H.
  assert (∀ p cs, p ∈ mentions → contains q (replace_chars p (neutralized p) cs) = true →
    q ≠ p ∧ contains q cs = true) as Hstep.
  { intros p cs' Hp H'. split; [intros ->; by rewrite neutral_drops in H'|].
    by apply (neutral_keeps q p). }
  repeat (apply Hstep in H as [? H]; [|unfold mentions; set_solver]).
  unfold mentions in Hq. set_solver.
Qed.

(** ** Rendering *)
Lemma render_Ok t inputs c out :
  render t inputs c = Ok out →
  ∃ text, substitute t inputs EmptyString = Ok text ∧ sanitize text c = Ok out ∧
          Z.of_nat (length (chars out)) ≤ max_len c.
Proof.
  unfold render. intros (text & E1 & H)%bind_Ok_inv. apply bind_Ok_inv in H as (out' & E2 & H).
  cbv zeta in H. destruct (max_len c <? _) eqn:E3; [done|]. injection H as <-.
  apply Z.ltb_ge in E3. eauto.
Qed.

Lemma sanitize_Ok text c out :
  sanitize text c = Ok out →
  out ≠ EmptyString ∧
  out = match c with
        | EphemeralMessageContent => sanitize_message text
        | ChannelName => sanitize_channel_name text
        | RoleName => sanitize_role_name text
        end.
Proof.
  unfold sanitize. destruct (str_is_empty _) eqn:E; [done|]. intros [= <-].
  by apply str_is_empty_false in E.
Qed.

(** *** Channel names *)
Definition channel_char (c : Z) : bool :=
  char_is_ascii_lowercase c || char_is_ascii_digit c || (c =? 45).

Lemma push_channel_char_inv out c :
  Forall (λ c, channel_char c = true) out → contains [45; 45] out = false →
  Forall (λ c, channel_char c = true) (push_channel_char out c) ∧
  contains [45; 45] (push_channel_char out c) = false.
Proof.
  intros Hf Hc. unfold push_channel_char.
  destruct (char_is_ascii_lowercase c || char_is_ascii_digit c) eqn:E.
  - split; [constructor; [unfold channel_char; by rewrite E|done]|].
    rewrite contains_cons, Hc, orb_false_r. cbn [is_prefix].
    destruct (Z.eqb_spec 45 c) as [<-|]; [by vm_compute in E|done].
  - destruct out as [|x out]; [by repeat constructor|].
    destruct (decide (x = 45)) as [->|Hx]; [done|].
    assert (match x with 45 => x :: out | _ => 45 :: x :: out end = 45 :: x :: out) as ->.
    { destruct x as [|q|q]; try done. do 7 (destruct q as [q|q|]; try done). }
    split; [by constructor|]. rewrite contains_cons, Hc, orb_false_r. cbn [is_prefix].
    destruct (Z.eqb_spec 45 x); [congruence|done].
Qed.

Lemma push_channel_chars_inv cs out :
  Forall (λ c, channel_char c = true) out → contains [45; 45] out = false →
  Forall (λ c, channel_char c = true) (foldl push_channel_char out cs) ∧
  contains [45; 45] (foldl push_channel_char out cs) = false.
Proof.
  revert out. induction cs as [|c cs IH]; intros out Hf Hc; [done|].
  destruct (push_channel_char_inv out c Hf Hc). by apply IH.
Qed.

Lemma contains_reverse p cs : contains (reverse p) (reverse cs) = contains p cs.
Proof.
  assert (∀ p cs, contains p cs = true → contains (reverse p) (reverse cs) = true) as H.
  { intros p' cs'. rewrite !contains_spec. intros (a & b & ->). exists (reverse b), (reverse a).
    by rewrite !reverse_app, app_assoc. }
  destruct (contains p cs) eqn:E; [by apply H|]. apply not_true_iff_false. intros E'.
  apply H in E'. rewrite !reverse_involutive in E'. congruence.
Qed.

(** What the channel name sanitiser produces. *)
Lemma chars_sanitize_channel_name s :
  let cs := chars (sanitize_channel_name s) in
  utf8 (sanitize_channel_name s) ∧ Forall (λ c, channel_char c = true) cs ∧ contains [45; 45] cs = false ∧
  match cs with [] => True | c :: _ => c ≠ 45 end ∧ last cs ≠ Some 45.
Proof.
  unfold sanitize_channel_name. cbv zeta.
  destruct (push_channel_chars_inv (chars s ≫= to_lowercase) [] ltac:(constructor) eq_refl) as [Hf Hc].
  set (out := foldl push_channel_char [] _) in *.
  destruct (trim_chars_infix (Z.eqb 45) (reverse out)) as (a & b & E).
  set (cs := trim_chars (Z.eqb 45) (reverse out)) in *.
  assert (Forall (λ c, channel_char c = true) cs) as Hcs.
  { apply Forall_reverse in Hf. rewrite E in Hf. rewrite !Forall_app in Hf. tauto. }
  assert (Forall (λ c, is_scalar c = true) cs) as Hsc.
  { eapply Forall_impl; [exact Hcs|]. intros c H. apply is_scalar_spec.
    unfold channel_char, char_is_ascii_lowercase, char_is_ascii_digit, char_in in H.
    rewrite !orb_true_iff, !andb_true_iff, !Z.leb_le, Z.eqb_eq in H. lia. }
  rewrite chars_of_chars by done. split_and!; [by apply of_chars_utf8|done| | |].
  - apply not_true_iff_false. intros H. apply (contains_infix _ a _ b) in H. rewrite <- E in H.
    change [45; 45] with (reverse [45; 45]) in H. rewrite contains_reverse in H. congruence.
  - pose proof (trim_chars_head (Z.eqb 45) (reverse out)) as H. fold cs in H.
    destruct cs; [done|]. apply Z.eqb_neq in H. congruence.
  - pose proof (trim_chars_last (Z.eqb 45) (reverse out)) as H. fold cs in H.
    destruct (last cs) as [c|]; [|done]. intros [= ->]. done.
Qed.

(** *** Role names *)
Lemma join_Forall (P : Z → Prop) ws : P 32 → (∀ w, w ∈ ws → Forall P w) → Forall P (join_chars [32] ws).
Proof.
  intros H32. induction ws as [|w ws IH]; intros Hall; cbn [join_chars]; [constructor|].
  pose proof (Hall w ltac:(left)) as Hw. destruct ws as [|w' ws]; [done|].
  apply Forall_app. split; [done|]. constructor; [done|]. apply IH. intros v Hv. apply Hall. by right.
Qed.

Lemma words_Forall (P : Z → Prop) cs w : Forall P cs → w ∈ split_words [] cs → Forall P w.
Proof.
  intros Hcs (a & b & E)%split_words_infix. cbn in E. rewrite E, !Forall_app in Hcs. tauto.
Qed.

Definition role_text (s : string) : list Z :=
  filter (λ c, negb (is_control c)) (neutralize_mentions (chars s)).

Lemma chars_sanitize_role_name s :
  chars (sanitize_role_name s) = join_chars [32] (split_words [] (role_text s)).
Proof.
  apply chars_of_chars, join_Forall; [done|]. intros w. apply words_Forall, filter_Forall,
    neutralize_scalars, chars_scalars.
Qed.

Lemma filter_holds (f : Z → bool) cs : Forall (λ c, f c = true) (filter (λ c, f c) cs).
Proof.
  induction cs as [|c cs IH]; [constructor|]. rewrite filter_cons.
  case_decide as E; [constructor; [by apply Is_true_true|done]|done].
Qed.

(** What a template renders to, by where it goes: never empty, never longer
    than Discord allows; a message has no control character but the newline; a role
    name none at all, and is words joined by single blanks; a channel name is
    lowercase letters and digits in groups joined by single hyphens. *)
Theorem render_shape t inputs c out :
  render t inputs c = Ok out →
  utf8 out ∧ 0 < Z.of_nat (length (chars out)) ≤ max_len c ∧
  match c with
  | EphemeralMessageContent => Forall (λ ch, keep_in_message ch = true) (chars out)
  | RoleName => ∃ words, chars out = join_chars [32] words ∧
      ∀ w, w ∈ words → w ≠ [] ∧ Forall (λ ch, is_whitespace ch = false ∧ is_control ch = false) w
  | ChannelName => Forall (λ ch, channel_char ch = true) (chars out) ∧
      contains [45; 45] (chars out) = false ∧ chars out !! 0%nat ≠ Some 45 ∧ last (chars out) ≠ Some 45
  end.
Proof.
  intros (text & _ & Hs & Hl)%render_Ok. apply sanitize_Ok in Hs as [Hne Hs].
  assert (utf8 out) as Hu.
  { unfold utf8. destruct c; subst out.
    - by rewrite chars_sanitize_message.
    - apply chars_sanitize_channel_name.
    - by rewrite chars_sanitize_role_name. }
  split; [done|]. split.
  { split; [|done]. destruct (chars out) as [|x cs] eqn:E; [|cbn; lia].
    unfold utf8 in Hu. rewrite E in Hu. by rewrite <- Hu in Hne. }
  destruct c; subst out.
  - rewrite chars_sanitize_message. apply filter_holds.
  - destruct (chars_sanitize_channel_name text) as (_ & A & B & C & F). split_and!; [done|done| |done].
    destruct (chars (sanitize_channel_name text)); [done|]. cbn. congruence.
  - exists (split_words [] (role_text text)). split; [apply chars_sanitize_role_name|].
    intros w Hw. split; [by eapply split_words_plain; [|exact Hw]|].
    apply Forall_and. split; [by eapply split_words_plain; [|exact Hw]|].
    pose proof (words_Forall _ _ w (filter_holds (λ c, negb (is_control c)) (neutralize_mentions (chars text))) Hw)
      as H. eapply Forall_impl; [exact H|]. intros ch Hch. by apply negb_true_iff.
Qed.

Lemma render_shape_witness :
  utf8 "study-room-1" ∧ 0 < Z.of_nat (length (chars "study-room-1")) ≤ 100.
Proof.
  destruct (render_shape [Input "x"] [("x", "Study  Room 1!")]%string ChannelName "study-room-1" eq_refl)
    as (H1 & H2 & _).
  exact (conj H1 H2).
Defined.

(** *** Mentions *)
Lemma mention_facts q : q ∈ mentions → q ≠ [] ∧ (32 ∉ q) ∧ ∃ ch, (ch ∈ q) ∧ channel_char ch = false.
Proof.
  unfold mentions. rewrite !elem_of_cons. intros [->|[->|[->|[->|H]]]];
    [| | | |by apply not_elem_of_nil in H].
  1, 2: split_and!; [done|vm_compute; set_solver|exists 64; split; [vm_compute; set_solver|done]].
  all: split_and!; [done|vm_compute; set_solver|exists 60; split; [vm_compute; set_solver|done]].
Qed.

Lemma filter_all (f : Z → bool) (cs : list Z) : (∀ c, c ∈ cs → f c = true) → filter (λ c, f c) cs = cs.
Proof. intros H. apply filter_id. intros c Hc. by apply Is_true_true, H. Qed.

Lemma neutralize_plain (cs : list Z) :
  (∀ c, c ∈ cs → is_control c = false) → ∀ c, c ∈ neutralize_mentions cs → is_control c = false.
Proof.
  intros H c Hc. assert (Forall (λ c, is_control c = false) (neutralize_mentions cs)) as HF.
  { apply neutralize_Forall; [by vm_compute; repeat constructor..|done|].
    apply Forall_forall. intros x Hx. by apply H. }
  rewrite Forall_forall in HF. by apply HF.
Qed.

Lemma plain_text cs :
  forallb (λ c, negb (is_control c)) cs = true → ∀ c, c ∈ cs → is_control c = false.
Proof.
  intros H c Hc. rewrite forallb_forall in H. apply negb_true_iff, H. by apply list_elem_of_In.
Qed.

(** A template filled with text that has no control character renders to text
    in which every [@everyone], [@here], user and channel mention is broken. *)
Theorem render_breaks_mentions t inputs c out text q :
  substitute t inputs EmptyString = Ok text → (∀ ch, ch ∈ chars text → is_control ch = false) →
  render t inputs c = Ok out → q ∈ mentions → contains q (chars out) = false.
Proof.
  intros Hsub Hplain (text' & Hsub' & Hs & _)%render_Ok Hq.
  rewrite Hsub in Hsub'. injection Hsub' as <-. apply sanitize_Ok in Hs as [_ ->].
  pose proof (neutralize_plain _ Hplain) as Hn.
  destruct (mention_facts q Hq) as (Hne & H32 & ch & Hch & Hcc). destruct c.
  - rewrite chars_sanitize_message, filter_all; [by apply neutralize_absent|].
    intros c Hc. unfold keep_in_message. by rewrite (Hn c Hc), orb_true_r.
  - apply not_true_iff_false. rewrite contains_spec. intros (a & b & E).
    destruct (chars_sanitize_channel_name text) as (_ & HF & _). rewrite E in HF.
    rewrite !Forall_app in HF. destruct HF as (_ & HF & _). rewrite Forall_forall in HF.
    specialize (HF ch Hch). congruence.
  - rewrite chars_sanitize_role_name. apply not_true_iff_false. intros H.
    apply contains_join_space in H as (w & Hw & H); [|done|done].
    apply split_words_infix in Hw as (a & b & E). cbn in E.
    apply (contains_infix _ a _ b) in H. rewrite <- E in H. unfold role_text in H.
    rewrite filter_all in H; [by rewrite neutralize_absent in H|].
    intros x Hx. by rewrite (Hn x Hx).
Qed.

Lemma render_breaks_mentions_witness :
  contains everyone_text (chars (of_chars (neutralized everyone_text))) = false.
Proof.
  apply (render_breaks_mentions [Input "x"] [("x", "@everyone")]%string EphemeralMessageContent
    (of_chars (neutralized everyone_text)) "@everyone" everyone_text);
    [reflexivity| |vm_compute; reflexivity|left].
  apply plain_text. reflexivity.
Defined.

(** A control character inside a mention undoes this: mentions are broken first
    and control characters removed afterwards, so [@], a tab and [everyone] renders
    to [@everyone], in messages and in role names. *)
Theorem render_mention_bypass :
  let inputs := [("x", of_chars (64 :: 9 :: chars "everyone"))]%string in
  render [Input "x"] inputs EphemeralMessageContent = Ok "@everyone"%string ∧
  render [Input "x"] inputs RoleName = Ok "@everyone"%string.
Proof. by vm_compute. Qed.
