(* ===== verification/AutomationPlan.v ===== *)
(** * From an event to a plan

    Crate [automation-core]: the events a guild sends, the inputs of a submitted
    modal checked against its definition, and [interpret], which turns the rule an
    event triggers into a plan with the bound roles and channels filled in. Also the
    static policy findings on a rule set. *)

From Stdlib Require Import ZArith Lia Ascii String.
From stdpp Require Import base decidable list strings gmap numbers.
From S2P Require Import Prelude RustStd RustText DiscordModel Resolution Instance AutomationState.
Open Scope Z_scope.

(** ** Events *)
Inductive EventKind :=
| EvButtonClick (component : string)
| EvModalSubmit (modal : string) (inputs : list (string * string))
| EvInstanceAction (instance_id : InstanceId) (action : string).

Record RuntimeEvent := mkEvent {
  ev_guild_id : GuildId;
  ev_actor : UserId;
  ev_kind : EventKind
}.

Record ResolvedInstanceContext := mkInstanceContext {
  ic_instance : AutomationInstance;
  ic_action : string
}.

Record RunningRuleSetIdentity := mkRuleSetIdentity {
  ri_key : string;
  ri_version : InstanceRuleSetVersion
}.

Record RuntimeContext := mkRuntimeContext {
  rc_guild_id : GuildId;
  rc_actor : UserId;
  rc_ruleset_key : string;
  rc_ruleset_version : InstanceRuleSetVersion;
  rc_inputs : list (string * string);
  rc_instance : option ResolvedInstanceContext
}.

Definition context_from_event (event : RuntimeEvent) (identity : RunningRuleSetIdentity)
  : RuntimeContext :=
  mkRuntimeContext (ev_guild_id event) (ev_actor event) (ri_key identity) (ri_version identity)
    (match ev_kind event with EvModalSubmit _ inputs => inputs | _ => [] end) None.

Definition set_inputs (inputs : list (string * string)) (c : RuntimeContext) : RuntimeContext :=
  mkRuntimeContext (rc_guild_id c) (rc_actor c) (rc_ruleset_key c) (rc_ruleset_version c)
    inputs (rc_instance c).

(** ** Modal inputs *)
Inductive ModalInputError :=
| ModalDefinitionMissing (modal : string)
| RequiredMissing (modal field : string)
| UnexpectedInput (modal field : string)
| InputTooShort (modal field : string) (min_length actual_length : Z)
| InputTooLong (modal field : string) (max_length actual_length : Z).

(** One field of the loop: its value in the normalised inputs. *)
Definition normalize_field (modal : string) (inputs : list (string * string)) (field : ModalFieldSpec)
  : Result ModalInputError string :=
  match bt_get inputs (mf_key field) with
  | None => if mf_required field then Err (RequiredMissing modal (mf_key field)) else Ok EmptyString
  | Some raw =>
      let value := input_policy_normalize (mf_input_policy field) raw in
      if str_is_empty value then
        if mf_required field then Err (RequiredMissing modal (mf_key field)) else Ok value
      else
        let actual := modal_input_utf16_len value in
        _ ← match mf_min_length field with
            | Some min => ensure (negb (actual <? min)) (InputTooShort modal (mf_key field) min actual)
            | None => Ok tt
            end;
        let max := default DISCORD_MODAL_INPUT_MAX_LENGTH (mf_max_length field) in
        _ ← ensure (negb (max <? actual)) (InputTooLong modal (mf_key field) max actual);
        Ok value
  end.

Fixpoint normalize_fields (modal : string) (inputs : list (string * string))
    (fields : list ModalFieldSpec) (normalized : list (string * string))
  : Result ModalInputError (list (string * string)) :=
  match fields with
  | [] => Ok normalized
  | field :: rest =>
      value ← normalize_field modal inputs field;
      normalize_fields modal inputs rest (bt_insert (mf_key field) value normalized)
  end.

Definition normalize_inputs (modal : ModalSpec) (inputs : list (string * string))
  : Result ModalInputError (list (string * string)) :=
  match List.find (λ k, negb (existsb (String.eqb k) (map mf_key (mo_fields modal)))) inputs.*1 with
  | Some field => Err (UnexpectedInput (mo_key modal) field)
  | None => normalize_fields (mo_key modal) inputs (mo_fields modal) []
  end.

Definition modal_trigger (modal : string) (rule : InteractionRule) : bool :=
  match ru_trigger rule with OnModalSubmit m => String.eqb m modal | _ => false end.

Definition normalize_modal_submit_inputs (event : RuntimeEvent) (ruleset : InteractionRuleSet)
  : Result ModalInputError (option (list (string * string))) :=
  match ev_kind event with
  | EvModalSubmit modal inputs =>
      if negb (existsb (modal_trigger modal) (rs_rules ruleset)) then Ok None
      else
        specification ← ok_or (List.find (λ m, String.eqb (mo_key m) modal) (rs_modals ruleset))
                          (ModalDefinitionMissing modal);
        normalized ← normalize_inputs specification inputs;
        Ok (Some normalized)
  | _ => Ok None
  end.

(** ** Plans *)
Inductive PlannedRole :=
| RoleResolved (id : RoleId)
| RolePlanned (key : string)
| RoleOfInstance (alias : string).

Inductive PlannedChannel :=
| ChannelResolved (id : ChannelId)
| ChannelPlanned (key : string).

Inductive PlannedOverwriteTarget :=
| PlannedEveryone
| PlannedTarget (role : PlannedRole).

Record ModalPresentation := mkPresentation {
  mp_key : string;
  mp_title : string;
  mp_fields : list ModalFieldSpec
}.

Inductive PlannedAction :=
| PlGrantRole (role : PlannedRole) (target : UserId)
| PlRespondEphemeral (content : string)
| PlOpenModal (modal : ModalPresentation)
| PlCreateChannel (key name : string)
| PlCreateRole (key name : string)
| PlUpsertOverwrite (channel : PlannedChannel) (target : PlannedOverwriteTarget) (allow deny : Permissions)
| PlPostPanel (key : string) (channel : PlannedChannel) (content : string) (buttons : list ButtonSpec)
| PlDeferEphemeral
| PlEditResponse (content : string)
| PlRegisterInstance (key : string) (kind : InstanceKind) (resources : InstanceResourceRefs)
| PlTeardownInstance (instance : InstanceRef).

Definition ActionPlan : Type := list PlannedAction.

Definition resolve_role_ref (bindings : ResourceBindingMap) (role : RoleRef) : option PlannedRole :=
  match role with
  | RoleExisting key => id ← role_bindings bindings !! key; Some (RoleResolved id)
  | RoleCreated created => Some (RolePlanned created)
  | RoleInstance InstanceEvent alias => Some (RoleOfInstance alias)
  | RoleInstance (InstanceCreated _) _ => None
  end.

Definition resolve_channel_ref (bindings : ResourceBindingMap) (channel : ChannelRef)
  : option PlannedChannel :=
  match channel with
  | ChannelExisting key => id ← channel_bindings bindings !! key; Some (ChannelResolved id)
  | ChannelCreated created => Some (ChannelPlanned created)
  end.

Definition trigger_matches (trigger : TriggerSpec) (kind : EventKind) : bool :=
  match trigger, kind with
  | OnButtonClick component, EvButtonClick clicked => String.eqb component clicked
  | OnModalSubmit modal, EvModalSubmit submitted _ => String.eqb modal submitted
  | OnInstanceAction action, EvInstanceAction _ received => String.eqb action received
  | _, _ => false
  end.

(** One turn of the loop of [interpret]. *)
Definition plan_action (event : RuntimeEvent) (ruleset : InteractionRuleSet)
    (bindings : ResourceBindingMap) (action : ActionSpec) : option PlannedAction :=
  match action with
  | GrantRole role Actor =>
      planned ← resolve_role_ref bindings role; Some (PlGrantRole planned (ev_actor event))
  | RespondEphemeral content => Some (PlRespondEphemeral content)
  | OpenModal modal =>
      spec ← List.find (λ m, String.eqb (mo_key m) modal) (rs_modals ruleset);
      Some (PlOpenModal (mkPresentation (mo_key spec) (mo_title spec) (mo_fields spec)))
  | CreateChannel key name => Some (PlCreateChannel key name)
  | CreateRole key name => Some (PlCreateRole key name)
  | UpsertOverwrite channel target allow deny =>
      planned_channel ← resolve_channel_ref bindings channel;
      planned_target ← match target with
                       | SpecEveryone => Some PlannedEveryone
                       | SpecRole role => PlannedTarget <$> resolve_role_ref bindings role
                       end;
      Some (PlUpsertOverwrite planned_channel planned_target allow deny)
  | PostPanel key channel content buttons =>
      planned_channel ← resolve_channel_ref bindings channel;
      Some (PlPostPanel key planned_channel content buttons)
  | DeferEphemeral => Some PlDeferEphemeral
  | EditResponse content => Some (PlEditResponse content)
  | RegisterInstance key kind resources => Some (PlRegisterInstance key kind resources)
  | TeardownInstance instance => Some (PlTeardownInstance instance)
  end.

Definition interpret (event : RuntimeEvent) (ruleset : InteractionRuleSet)
    (bindings : ResourceBindingMap) : option ActionPlan :=
  rule ← List.find (λ r, trigger_matches (ru_trigger r) (ev_kind event)) (rs_rules ruleset);
  mapM (plan_action event ruleset bindings) (ru_actions rule).

(** ** Static policy *)
Inductive DynamicAction := DynCreateChannel | DynCreateRole.

Inductive PolicyFinding :=
| PrivilegedRoleGrant (rule : string) (role : ResourceKey)
| DynamicResourceCreation (rule : string) (action : DynamicAction)
| CreatedResourceReference (rule : string)
| EveryoneOverwrite (rule : string)
| PrivilegedOverwriteAllow (rule : string)
| RuntimeMessagePost (rule : string)
| RuntimeInteractivePanel (rule : string).

Definition automation_privileged_mask : Permissions :=
  foldr Z.lor 0 [ADMINISTRATOR; MANAGE_GUILD; MANAGE_ROLES; MANAGE_CHANNELS;
                 BAN_MEMBERS; KICK_MEMBERS; MODERATE_MEMBERS].

Definition perms_intersects (a b : Permissions) : bool := negb (Z.land a b =? 0).

Definition analyze_action (roles : gmap ResourceKey Permissions) (rule : string) (action : ActionSpec)
  : list PolicyFinding :=
  match action with
  | GrantRole (RoleExisting key) _ =>
      if is_some_and (λ p, perms_intersects p automation_privileged_mask) (roles !! key)
      then [PrivilegedRoleGrant rule key] else []
  | GrantRole (RoleCreated _) _ => [CreatedResourceReference rule]
  | GrantRole (RoleInstance _ _) _ => []
  | CreateChannel _ _ => [DynamicResourceCreation rule DynCreateChannel]
  | CreateRole _ _ => [DynamicResourceCreation rule DynCreateRole]
  | UpsertOverwrite _ target allow _ =>
      match target with SpecEveryone => [EveryoneOverwrite rule] | SpecRole _ => [] end
      ++ if perms_intersects allow automation_privileged_mask
         then [PrivilegedOverwriteAllow rule] else []
  | PostPanel _ _ _ buttons =>
      RuntimeMessagePost rule :: match buttons with [] => [] | _ => [RuntimeInteractivePanel rule] end
  | RespondEphemeral _ | OpenModal _ | DeferEphemeral | EditResponse _
  | RegisterInstance _ _ _ | TeardownInstance _ => []
  end.

Definition analyze (ruleset : InteractionRuleSet) (roles : gmap ResourceKey Permissions)
  : list PolicyFinding :=
  rs_rules ruleset ≫= λ rule, ru_actions rule ≫= analyze_action roles (ru_key rule).
