(* ===== verification/AutomationValidate.v ===== *)
(** * Validation of rule sets

    Crate [automation-core], [validate.rs]: structural validation of a rule set and
    the check of its references against the bound resources. The passes are those
    of the source, in its order; each returns the errors it pushes, and the sets it
    fills are passed on. A set that is only inserted into and looked up is a
    [gset]. *)

From Stdlib Require Import ZArith Lia Ascii String.
From stdpp Require Import base decidable list strings gmap numbers.
From S2P Require Import Prelude RustStd RustText DiscordModel Resolution Instance AutomationState AutomationPlan Template.
Open Scope Z_scope.

Inductive CreatedKind := KindRole | KindChannel | KindMessage | KindInstance.

#[export] Instance CreatedKind_eq_dec : EqDecision CreatedKind.
Proof. solve_decision. Defined.

Inductive ValidationError :=
| DuplicatePanelKey (key : string)
| DuplicateButtonKey (key : string)
| DuplicateRuleKey (key : string)
| UnknownButtonRef (rule component : string)
| UnknownRoleRef (rule : string) (role : ResourceKey)
| ConflictingTrigger (component : string)
| EmptyResponseContent (rule : string)
| DuplicateModalKey (key : string)
| DuplicateModalFieldKey (modal field : string)
| InvalidModalFieldMinLength (modal field : string) (min_length : Z)
| InvalidModalFieldMaxLength (modal field : string) (max_length : Z)
| InvalidModalFieldLengthRange (modal field : string) (min_length max_length : Z)
| UnknownModalRef (rule modal : string)
| ConflictingModalTrigger (modal : string)
| BadTemplate (rule : string)
| InputTemplateInButtonRule (rule input : string)
| UnknownTemplateInput (rule modal input : string)
| DuplicateActionKey (rule key : string)
| UnknownCreatedRoleRef (rule key : string)
| CreatedRoleRefTypeMismatch (rule key : string)
| UnknownChannelRef (rule : string) (channel : ResourceKey)
| UnknownCreatedChannelRef (rule key : string)
| CreatedChannelRefTypeMismatch (rule key : string)
| UnknownCreatedMessageRef (rule key : string)
| CreatedMessageRefTypeMismatch (rule key : string)
| InstanceResourceMissingFromManifest (key : string) (kind : CreatedKind)
| InstanceResourceDeclaredMultipleTimes (key : string)
| InstanceResourceProducedAfterRegister (key : string) (kind : CreatedKind)
| MultipleRegisterInstance (rule : string)
| EmptyInstanceResources (rule : string)
| InvalidResourceAlias (rule alias : string)
| OverlappingOverwrite (rule : string)
| EmptyOverwrite (rule : string)
| EmptyButtonLabel (rule button : string)
| TooManyPanelButtons (rule : string) (count : nat)
| DeferNotFirst (rule : string)
| ConflictingInitialResponse (rule : string)
| EditResponseWithoutDefer (rule : string)
| DeferredMissingEditResponse (rule : string)
| MultipleEditResponse (rule : string)
| EditResponseNotLast (rule : string)
| InstanceRoleOutsideInstanceRule (rule : string)
| InstanceRoleMustUseEvent (rule : string)
| InstanceActionRuleMustDefer (rule : string)
| TeardownInstanceOutsideInstanceRule (rule : string)
| UnknownCreatedInstanceRef (rule key : string)
| CreatedInstanceRefTypeMismatch (rule key : string)
| TeardownRegisterConflict (rule : string).

Abbreviation Errors := (list ValidationError) (only parsing).

Definition error_if (b : bool) (e : ValidationError) : Errors := if b then [e] else [].

(** [if !set.insert(key) { errors.push(e) }]. *)
Definition set_insert (key : string) (s : gset string) : gset string := {[key]} ∪ s.
Definition insert_errors (key : string) (s : gset string) (e : ValidationError) : Errors :=
  error_if (bool_decide (key ∈ s)) e.

(** ** Panels and buttons *)
Definition MAX_PANEL_BUTTONS : nat := 5.

Fixpoint buttons_pass (buttons : list ButtonSpec) (keys : gset string) : gset string * Errors :=
  match buttons with
  | [] => (keys, [])
  | button :: rest =>
      match bt_route button with
      | RouteStatic key =>
          let '(keys', errors) := buttons_pass rest (set_insert key keys) in
          (keys', insert_errors key keys (DuplicateButtonKey key) ++ errors)
      | RouteInstanceAction _ _ => buttons_pass rest keys
      end
  end.

Fixpoint panels_pass (panels : list PanelSpec) (panel_keys button_keys : gset string)
  : gset string * Errors :=
  match panels with
  | [] => (button_keys, [])
  | panel :: rest =>
      let '(keys1, errors1) := buttons_pass (pn_buttons panel) button_keys in
      let '(keys2, errors2) := panels_pass rest (set_insert (pn_key panel) panel_keys) keys1 in
      (keys2, insert_errors (pn_key panel) panel_keys (DuplicatePanelKey (pn_key panel))
              ++ errors1 ++ errors2)
  end.

Definition button_name (b : ButtonSpec) : string :=
  match bt_route b with RouteStatic key => key | RouteInstanceAction _ action => action end.

(** The buttons of a posted panel: labels, and static keys again. *)
Fixpoint posted_buttons_pass (rule : string) (buttons : list ButtonSpec) (keys : gset string)
  : gset string * Errors :=
  match buttons with
  | [] => (keys, [])
  | button :: rest =>
      let label_errors := error_if (is_blank (bt_label button)) (EmptyButtonLabel rule (button_name button)) in
      match bt_route button with
      | RouteStatic key =>
          let '(keys', errors) := posted_buttons_pass rule rest (set_insert key keys) in
          (keys', label_errors ++ insert_errors key keys (DuplicateButtonKey key) ++ errors)
      | RouteInstanceAction _ _ =>
          let '(keys', errors) := posted_buttons_pass rule rest keys in
          (keys', label_errors ++ errors)
      end
  end.

Fixpoint posted_actions_pass (rule : string) (actions : list ActionSpec) (keys : gset string)
  : gset string * Errors :=
  match actions with
  | [] => (keys, [])
  | PostPanel _ _ _ buttons :: rest =>
      let '(keys1, errors1) := posted_buttons_pass rule buttons keys in
      let '(keys2, errors2) := posted_actions_pass rule rest keys1 in
      (keys2, error_if (bool_decide (MAX_PANEL_BUTTONS < length buttons)%nat)
                (TooManyPanelButtons rule (length buttons)) ++ errors1 ++ errors2)
  | _ :: rest => posted_actions_pass rule rest keys
  end.

Fixpoint posted_panels_pass (rules : list InteractionRule) (keys : gset string) : gset string * Errors :=
  match rules with
  | [] => (keys, [])
  | rule :: rest =>
      let '(keys1, errors1) := posted_actions_pass (ru_key rule) (ru_actions rule) keys in
      let '(keys2, errors2) := posted_panels_pass rest keys1 in
      (keys2, errors1 ++ errors2)
  end.

(** ** Modals *)
Definition field_errors (modal : string) (f : ModalFieldSpec) : Errors :=
  match mf_min_length f with
  | Some min => error_if (DISCORD_MODAL_INPUT_MAX_LENGTH <? min)
                  (InvalidModalFieldMinLength modal (mf_key f) min)
  | None => []
  end
  ++ match mf_max_length f with
     | Some max => error_if ((max =? 0) || (DISCORD_MODAL_INPUT_MAX_LENGTH <? max))
                     (InvalidModalFieldMaxLength modal (mf_key f) max)
     | None => []
     end
  ++ match mf_min_length f, mf_max_length f with
     | Some min, Some max => error_if (max <? min)
                               (InvalidModalFieldLengthRange modal (mf_key f) min max)
     | _, _ => []
     end.

Fixpoint fields_pass (modal : string) (fields : list ModalFieldSpec) (keys : gset string)
  : gset string * Errors :=
  match fields with
  | [] => (keys, [])
  | f :: rest =>
      let '(keys', errors) := fields_pass modal rest (set_insert (mf_key f) keys) in
      (keys', insert_errors (mf_key f) keys (DuplicateModalFieldKey modal (mf_key f))
              ++ field_errors modal f ++ errors)
  end.

Fixpoint modals_pass (modals : list ModalSpec) (keys : gset string) (fields : gmap string (gset string))
  : gset string * gmap string (gset string) * Errors :=
  match modals with
  | [] => (keys, fields, [])
  | modal :: rest =>
      let '(field_keys, errors1) := fields_pass (mo_key modal) (mo_fields modal) ∅ in
      let '(keys', fields', errors2) :=
        modals_pass rest (set_insert (mo_key modal) keys) (<[mo_key modal := field_keys]> fields) in
      (keys', fields', insert_errors (mo_key modal) keys (DuplicateModalKey (mo_key modal))
                       ++ errors1 ++ errors2)
  end.

(** ** References inside a rule *)
Abbreviation Created := (gmap string CreatedKind) (only parsing).

Definition is_instance_rule (rule : InteractionRule) : bool :=
  match ru_trigger rule with OnInstanceAction _ => true | _ => false end.

Definition check_resource_alias (rule : InteractionRule) (alias : string) : Errors :=
  error_if (str_is_empty alias || (32 <? str_len alias) || negb (str_all id_char alias))
    (InvalidResourceAlias (ru_key rule) alias).

(** The lookup of a created resource of the expected kind. *)
Definition check_created (created : Created) (key : string) (kind : CreatedKind)
    (unknown mismatch : ValidationError) : Errors :=
  match created !! key with
  | None => [unknown]
  | Some k => error_if (negb (bool_decide (k = kind))) mismatch
  end.

Definition check_role_ref (rule : InteractionRule) (created : Created) (role : RoleRef) : Errors :=
  match role with
  | RoleExisting _ => []
  | RoleCreated key =>
      check_created created key KindRole (UnknownCreatedRoleRef (ru_key rule) key)
        (CreatedRoleRefTypeMismatch (ru_key rule) key)
  | RoleInstance instance alias =>
      error_if (negb (is_instance_rule rule)) (InstanceRoleOutsideInstanceRule (ru_key rule))
      ++ match instance with
         | InstanceEvent => []
         | InstanceCreated _ => [InstanceRoleMustUseEvent (ru_key rule)]
         end
      ++ check_resource_alias rule alias
  end.

Definition check_channel_ref (rule : InteractionRule) (created : Created) (channel : ChannelRef) : Errors :=
  match channel with
  | ChannelExisting _ => []
  | ChannelCreated key =>
      check_created created key KindChannel (UnknownCreatedChannelRef (ru_key rule) key)
        (CreatedChannelRefTypeMismatch (ru_key rule) key)
  end.

Definition check_teardown_instance_ref (rule : InteractionRule) (created : Created)
    (instance : InstanceRef) : Errors :=
  match instance with
  | InstanceEvent =>
      error_if (negb (is_instance_rule rule)) (TeardownInstanceOutsideInstanceRule (ru_key rule))
  | InstanceCreated key =>
      check_created created key KindInstance (UnknownCreatedInstanceRef (ru_key rule) key)
        (CreatedInstanceRefTypeMismatch (ru_key rule) key)
  end.

Definition check_manifest_refs (rule : InteractionRule) (created : Created) (kind : CreatedKind)
    (unknown mismatch : string → string → ValidationError) (refs : list (string * string)) : Errors :=
  refs ≫= λ '(alias, key),
    check_resource_alias rule alias
    ++ check_created created key kind (unknown (ru_key rule) key) (mismatch (ru_key rule) key).

Definition check_manifest (rule : InteractionRule) (created : Created)
    (resources : InstanceResourceRefs) : Errors :=
  error_if (bool_decide (rr_roles resources = []) && bool_decide (rr_channels resources = [])
            && bool_decide (rr_messages resources = [])) (EmptyInstanceResources (ru_key rule))
  ++ check_manifest_refs rule created KindRole UnknownCreatedRoleRef CreatedRoleRefTypeMismatch
       (rr_roles resources)
  ++ check_manifest_refs rule created KindChannel UnknownCreatedChannelRef
       CreatedChannelRefTypeMismatch (rr_channels resources)
  ++ check_manifest_refs rule created KindMessage UnknownCreatedMessageRef
       CreatedMessageRefTypeMismatch (rr_messages resources).

Definition check_template (rule : InteractionRule) (modal_fields : gmap string (gset string))
    (content : string) : Errors :=
  match template_parse content with
  | Err _ => [BadTemplate (ru_key rule)]
  | Ok template =>
      input_keys template ≫= λ key,
        match ru_trigger rule with
        | OnButtonClick _ | OnInstanceAction _ => [InputTemplateInButtonRule (ru_key rule) key]
        | OnModalSubmit modal =>
            error_if (negb (is_some_and (λ fields : gset string, bool_decide (key ∈ fields)) (modal_fields !! modal)))
              (UnknownTemplateInput (ru_key rule) modal key)
        end
  end.

(** ** The actions of a rule *)
Definition register_created (rule : InteractionRule) (created : Created) (key : string) : Errors :=
  error_if (is_some (created !! key)) (DuplicateActionKey (ru_key rule) key).

Definition action_created (created : Created) (action : ActionSpec) : Created :=
  match action with
  | CreateChannel key _ => <[key := KindChannel]> created
  | CreateRole key _ => <[key := KindRole]> created
  | PostPanel key _ _ _ => <[key := KindMessage]> created
  | RegisterInstance key _ _ => <[key := KindInstance]> created
  | _ => created
  end.

(** One turn of the loop; references are checked with the action's own key already
    created, as in the source. *)
Definition action_errors (rule : InteractionRule) (modal_keys : gset string)
    (modal_fields : gmap string (gset string)) (created : Created) (action : ActionSpec) : Errors :=
  let created' := action_created created action in
  match action with
  | GrantRole role _ => check_role_ref rule created role
  | RespondEphemeral content =>
      error_if (is_blank content) (EmptyResponseContent (ru_key rule))
      ++ check_template rule modal_fields content
  | OpenModal modal =>
      error_if (negb (bool_decide (modal ∈ modal_keys))) (UnknownModalRef (ru_key rule) modal)
  | CreateChannel key name | CreateRole key name =>
      register_created rule created key ++ check_template rule modal_fields name
  | UpsertOverwrite channel target allow deny =>
      check_channel_ref rule created channel
      ++ match target with SpecRole role => check_role_ref rule created role | SpecEveryone => [] end
      ++ error_if (perms_intersects allow deny) (OverlappingOverwrite (ru_key rule))
      ++ error_if ((allow =? 0) && (deny =? 0)) (EmptyOverwrite (ru_key rule))
  | PostPanel key channel content _ =>
      register_created rule created key
      ++ check_channel_ref rule created' channel
      ++ check_template rule modal_fields content
  | DeferEphemeral => []
  | EditResponse content => check_template rule modal_fields content
  | RegisterInstance key _ resources =>
      register_created rule created key ++ check_manifest rule created' resources
  | TeardownInstance instance => check_teardown_instance_ref rule created instance
  end.

Fixpoint actions_pass (rule : InteractionRule) (modal_keys : gset string)
    (modal_fields : gmap string (gset string)) (created : Created) (actions : list ActionSpec) : Errors :=
  match actions with
  | [] => []
  | action :: rest =>
      action_errors rule modal_keys modal_fields created action
      ++ actions_pass rule modal_keys modal_fields (action_created created action) rest
  end.

(** ** The footprint of a registered instance *)
Definition is_register (action : ActionSpec) : bool :=
  match action with RegisterInstance _ _ _ => true | _ => false end.
Definition is_teardown (action : ActionSpec) : bool :=
  match action with TeardownInstance _ => true | _ => false end.

Definition produced (action : ActionSpec) : option (string * CreatedKind) :=
  match action with
  | CreateRole key _ => Some (key, KindRole)
  | CreateChannel key _ => Some (key, KindChannel)
  | PostPanel key _ _ _ => Some (key, KindMessage)
  | _ => None
  end.

Definition manifest_refs (action : ActionSpec) : list string :=
  match action with
  | RegisterInstance _ _ r => (rr_roles r).*2 ++ (rr_channels r).*2 ++ (rr_messages r).*2
  | _ => []
  end.

(** [position(...)], as an option. *)
Fixpoint position_from (n : nat) (actions : list ActionSpec) : option nat :=
  match actions with
  | [] => None
  | a :: rest => if is_register a then Some n else position_from (S n) rest
  end.

Fixpoint produced_after (first index : nat) (actions : list ActionSpec) : Errors :=
  match actions with
  | [] => []
  | a :: rest =>
      match produced a with
      | Some (key, kind) =>
          error_if (bool_decide (first < index)%nat) (InstanceResourceProducedAfterRegister key kind)
      | None => []
      end ++ produced_after first (S index) rest
  end.

Definition ownable (actions : list ActionSpec) : list (string * CreatedKind) :=
  foldl (λ m a, match produced a with Some (k, kind) => bt_insert k kind m | None => m end) [] actions.

Definition manifest_counts (actions : list ActionSpec) : list (string * Z) :=
  foldl (λ m k, bt_upsert (λ n, default 0 n + 1) k m) [] (actions ≫= manifest_refs).

Definition check_instance_footprint (rule : InteractionRule) : Errors :=
  let actions := ru_actions rule in
  let register_count := length (filter (λ a, is_register a) actions) in
  match position_from 0 actions with
  | None => []
  | Some first =>
      error_if (bool_decide (1 < register_count)%nat) (MultipleRegisterInstance (ru_key rule))
      ++ produced_after first 0 actions
      ++ (ownable actions ≫= λ '(key, kind),
            error_if (negb (is_some (bt_get (manifest_counts actions) key)))
              (InstanceResourceMissingFromManifest key kind))
      ++ (manifest_counts actions ≫= λ '(key, count),
            error_if (1 <? count) (InstanceResourceDeclaredMultipleTimes key))
  end.

(** ** Responses *)
Definition is_defer (a : ActionSpec) : bool := match a with DeferEphemeral => true | _ => false end.
Definition is_edit (a : ActionSpec) : bool := match a with EditResponse _ => true | _ => false end.
Definition is_other_initial (a : ActionSpec) : bool :=
  match a with RespondEphemeral _ | OpenModal _ => true | _ => false end.

Fixpoint positions (P : ActionSpec → bool) (n : nat) (actions : list ActionSpec) : list nat :=
  match actions with
  | [] => []
  | a :: rest => (if P a then [n] else []) ++ positions P (S n) rest
  end.

Definition response_errors (rule : InteractionRule) : Errors :=
  let actions := ru_actions rule in
  let defer_positions := positions is_defer 0 actions in
  let edit_positions := positions is_edit 0 actions in
  let has_other_initial := existsb is_other_initial actions in
  let last_index := (length actions - 1)%nat in
  error_if (existsb (λ i, negb (Nat.eqb i 0)) defer_positions) (DeferNotFirst (ru_key rule))
  ++ (if bool_decide (defer_positions = []) then []
      else error_if has_other_initial (ConflictingInitialResponse (ru_key rule))
           ++ error_if (bool_decide (edit_positions = [])) (DeferredMissingEditResponse (ru_key rule)))
  ++ error_if (negb (bool_decide (edit_positions = [])) && bool_decide (defer_positions = []))
       (EditResponseWithoutDefer (ru_key rule))
  ++ error_if (bool_decide (1 < length edit_positions)%nat) (MultipleEditResponse (ru_key rule))
  ++ error_if (existsb (λ i, negb (Nat.eqb i last_index)) edit_positions)
       (EditResponseNotLast (ru_key rule)).

(** ** Rules *)
Definition trigger_errors (rule : InteractionRule) (button_keys modal_keys : gset string)
    (components modals : gset string) : Errors :=
  match ru_trigger rule with
  | OnButtonClick component =>
      error_if (negb (bool_decide (component ∈ button_keys))) (UnknownButtonRef (ru_key rule) component)
      ++ insert_errors component components (ConflictingTrigger component)
  | OnModalSubmit modal =>
      error_if (negb (bool_decide (modal ∈ modal_keys))) (UnknownModalRef (ru_key rule) modal)
      ++ insert_errors modal modals (ConflictingModalTrigger modal)
  | OnInstanceAction _ =>
      error_if (match ru_actions rule with DeferEphemeral :: _ => false | _ => true end)
        (InstanceActionRuleMustDefer (ru_key rule))
  end.

Definition trigger_components (rule : InteractionRule) (components : gset string) : gset string :=
  match ru_trigger rule with OnButtonClick c => set_insert c components | _ => components end.
Definition trigger_modals (rule : InteractionRule) (modals : gset string) : gset string :=
  match ru_trigger rule with OnModalSubmit m => set_insert m modals | _ => modals end.

Definition rule_errors (rule : InteractionRule) (modal_keys : gset string)
    (modal_fields : gmap string (gset string)) : Errors :=
  error_if (existsb is_register (ru_actions rule) && existsb is_teardown (ru_actions rule))
    (TeardownRegisterConflict (ru_key rule))
  ++ actions_pass rule modal_keys modal_fields ∅ (ru_actions rule)
  ++ check_instance_footprint rule
  ++ response_errors rule.

Fixpoint rules_pass (rules : list InteractionRule) (button_keys modal_keys : gset string)
    (modal_fields : gmap string (gset string)) (rule_keys components modals : gset string) : Errors :=
  match rules with
  | [] => []
  | rule :: rest =>
      insert_errors (ru_key rule) rule_keys (DuplicateRuleKey (ru_key rule))
      ++ trigger_errors rule button_keys modal_keys components modals
      ++ rule_errors rule modal_keys modal_fields
      ++ rules_pass rest button_keys modal_keys modal_fields (set_insert (ru_key rule) rule_keys)
           (trigger_components rule components) (trigger_modals rule modals)
  end.

Definition structural_errors (ruleset : InteractionRuleSet) : Errors :=
  let '(button_keys1, errors1) := panels_pass (rs_panels ruleset) ∅ ∅ in
  let '(button_keys, errors2) := posted_panels_pass (rs_rules ruleset) button_keys1 in
  let '(modal_keys, modal_fields, errors3) := modals_pass (rs_modals ruleset) ∅ ∅ in
  errors1 ++ errors2 ++ errors3
  ++ rules_pass (rs_rules ruleset) button_keys modal_keys modal_fields ∅ ∅ ∅.

Definition errors_result (errors : Errors) : Result Errors unit :=
  match errors with [] => Ok tt | _ => Err errors end.

Definition validate_structural (ruleset : InteractionRuleSet) : Result Errors unit :=
  errors_result (structural_errors ruleset).

(** ** Bindings *)
Definition check_role_binding (rule : string) (bindings : ResourceBindingMap) (role : RoleRef) : Errors :=
  match role with
  | RoleExisting key => error_if (negb (is_some (role_bindings bindings !! key))) (UnknownRoleRef rule key)
  | _ => []
  end.

Definition check_channel_binding (rule : string) (bindings : ResourceBindingMap) (channel : ChannelRef)
  : Errors :=
  match channel with
  | ChannelExisting key =>
      error_if (negb (is_some (channel_bindings bindings !! key))) (UnknownChannelRef rule key)
  | _ => []
  end.

Definition binding_errors (bindings : ResourceBindingMap) (rule : string) (action : ActionSpec) : Errors :=
  match action with
  | GrantRole role _ => check_role_binding rule bindings role
  | UpsertOverwrite channel target _ _ =>
      check_channel_binding rule bindings channel
      ++ match target with SpecRole role => check_role_binding rule bindings role | SpecEveryone => [] end
  | PostPanel _ channel _ _ => check_channel_binding rule bindings channel
  | _ => []
  end.

Definition bindings_errors (ruleset : InteractionRuleSet) (bindings : ResourceBindingMap) : Errors :=
  rs_rules ruleset ≫= λ rule, ru_actions rule ≫= binding_errors bindings (ru_key rule).

Definition validate_bindings (ruleset : InteractionRuleSet) (bindings : ResourceBindingMap)
  : Result Errors unit := errors_result (bindings_errors ruleset bindings).

Definition automation_validate (ruleset : InteractionRuleSet) (bindings : ResourceBindingMap)
  : Result Errors unit :=
  errors_result
    (match validate_structural ruleset with Err structural => structural | Ok _ => [] end
     ++ match validate_bindings ruleset bindings with Err binding => binding | Ok _ => [] end).
