(* ===== verification/AutomationExec.v ===== *)
(** * Executing a plan

    Crate [automation-core]: [prepare.rs], [execution/] and [run.rs]. The five
    services an execution is given, Discord's mutations, the responder, the instance
    registrar, the id generator and the teardown service, are one type class over
    the state of the world; their calls are made one after the other. *)

From Stdlib Require Import ZArith Lia Ascii String.
From stdpp Require Import base decidable list strings gmap numbers.
From S2P Require Import Prelude RustStd RustText DiscordModel Resolution Instance Teardown AutomationState AutomationPlan Template.
Open Scope Z_scope.

(** ** Errors

    Messages are kept as the [format!] they come from, with its arguments. *)
Inductive AdapterErrorKind :=
  KForbidden | KNotFound | KRateLimited | KNetwork | KUnsupported | KBadRequest
| KInvalidEventRoute | KUnknown.

Inductive AdapterMessage :=
| MsgText (text : string)
| MsgInstanceActionRoute
| MsgModalInput (e : ModalInputError)
| MsgTemplate (e : TemplateError)
| MsgInstanceRegister (e : InstanceStoreError)
| MsgInstanceTeardown (e : TeardownError)
| MsgInstanceId (e : InstanceIdGenerationError)
| MsgUnresolvedPlannedInstance (key : string)
| MsgUnresolvedManifest (key : string)
| MsgUnresolvedCreatedRole (key : string)
| MsgUnresolvedCreatedChannel (key : string)
| MsgEventInstanceMissing
| MsgInstanceContextMissing (alias : string)
| MsgInstanceResourceNotFound (instance : InstanceId) (alias : string).

Record AdapterError := mkAdapterError {
  ae_kind : AdapterErrorKind;
  ae_message : AdapterMessage
}.

Definition bad_request (m : AdapterMessage) : AdapterError := mkAdapterError KBadRequest m.

(** ** Services *)
Inductive ResolvedButtonRoute :=
| ResolvedStatic (key : string)
| ResolvedInstanceAction (instance_id : InstanceId) (action : string).

Record PostPanelButtonSpec := mkPostButton {
  pb_label : string;
  pb_route : ResolvedButtonRoute
}.

Record PostPanelSpec := mkPostPanel {
  pp_content : string;
  pp_buttons : list PostPanelButtonSpec
}.

Class AutomationServices (W : Type) := {
  svc_grant_role : GuildId → UserId → RoleId → Cmd W AdapterError unit;
  svc_create_channel : GuildId → string → Cmd W AdapterError ChannelId;
  svc_create_role : GuildId → string → Cmd W AdapterError RoleId;
  svc_upsert_overwrite :
    GuildId → ChannelId → OverwriteTarget → Permissions → Permissions → Cmd W AdapterError unit;
  svc_post_panel : GuildId → ChannelId → PostPanelSpec → Cmd W AdapterError MessageId;
  svc_respond_ephemeral : string → Cmd W AdapterError unit;
  svc_open_modal : ModalPresentation → Cmd W AdapterError unit;
  svc_defer_ephemeral : Cmd W AdapterError unit;
  svc_edit_response : string → Cmd W AdapterError unit;
  svc_register_instance : AutomationInstance → Cmd W InstanceStoreError unit;
  svc_generate : Cmd W InstanceIdGenerationError InstanceId;
  svc_teardown : GuildId → InstanceId → Cmd W TeardownError TeardownOutcome
}.

(** ** Execution state *)
Record ExecutionState := mkExec {
  created_roles : gmap string RoleId;
  created_channels : gmap string ChannelId;
  created_messages : gmap string InstanceMessageRef;
  planned_instances : gmap string InstanceId;
  created_instances : gmap string InstanceId
}.

Definition add_role (k : string) (id : RoleId) (s : ExecutionState) : ExecutionState :=
  mkExec (<[k := id]> (created_roles s)) (created_channels s) (created_messages s)
    (planned_instances s) (created_instances s).
Definition add_channel (k : string) (id : ChannelId) (s : ExecutionState) : ExecutionState :=
  mkExec (created_roles s) (<[k := id]> (created_channels s)) (created_messages s)
    (planned_instances s) (created_instances s).
Definition add_message (k : string) (m : InstanceMessageRef) (s : ExecutionState) : ExecutionState :=
  mkExec (created_roles s) (created_channels s) (<[k := m]> (created_messages s))
    (planned_instances s) (created_instances s).
Definition add_instance (k : string) (id : InstanceId) (s : ExecutionState) : ExecutionState :=
  mkExec (created_roles s) (created_channels s) (created_messages s)
    (planned_instances s) (<[k := id]> (created_instances s)).

Definition state_resolve_role (s : ExecutionState) (context : RuntimeContext) (role : PlannedRole)
  : Result AdapterError RoleId :=
  match role with
  | RoleResolved id => Ok id
  | RolePlanned key => ok_or (created_roles s !! key) (bad_request (MsgUnresolvedCreatedRole key))
  | RoleOfInstance alias =>
      resolved ← ok_or (rc_instance context) (bad_request (MsgInstanceContextMissing alias));
      ok_or (bt_get (ir_roles (ai_resources (ic_instance resolved))) alias)
        (bad_request (MsgInstanceResourceNotFound (ai_id (ic_instance resolved)) alias))
  end.

Definition state_resolve_channel (s : ExecutionState) (channel : PlannedChannel)
  : Result AdapterError ChannelId :=
  match channel with
  | ChannelResolved id => Ok id
  | ChannelPlanned key =>
      ok_or (created_channels s !! key) (bad_request (MsgUnresolvedCreatedChannel key))
  end.

(** [context.instance.as_ref().map(|r| r.instance.id.clone()).ok_or_else(event_instance_missing)]. *)
Definition event_instance_id (context : RuntimeContext) : Result AdapterError InstanceId :=
  ok_or ((λ r, ai_id (ic_instance r)) <$> rc_instance context) (bad_request MsgEventInstanceMissing).

Definition resolve_button_instance (s : ExecutionState) (context : RuntimeContext)
    (instance : InstanceRef) : Result AdapterError InstanceId :=
  match instance with
  | InstanceCreated key =>
      ok_or (planned_instances s !! key) (bad_request (MsgUnresolvedPlannedInstance key))
  | InstanceEvent => event_instance_id context
  end.

Definition resolve_instance_ref (s : ExecutionState) (context : RuntimeContext)
    (instance : InstanceRef) : Result AdapterError InstanceId :=
  match instance with
  | InstanceEvent => event_instance_id context
  | InstanceCreated key =>
      ok_or (match created_instances s !! key with
             | Some id => Some id
             | None => planned_instances s !! key
             end) (bad_request (MsgUnresolvedPlannedInstance key))
  end.

(** [iter().map(..).collect::<Result<_, _>>()]. *)
Fixpoint collect {E A B} (f : A → Result E B) (l : list A) : Result E (list B) :=
  match l with
  | [] => Ok []
  | x :: rest => y ← f x; ys ← collect f rest; Ok (y :: ys)
  end.

Definition resolve_panel_button (s : ExecutionState) (context : RuntimeContext) (button : ButtonSpec)
  : Result AdapterError PostPanelButtonSpec :=
  route ← match bt_route button with
          | RouteStatic key => Ok (ResolvedStatic key)
          | RouteInstanceAction instance action =>
              id ← resolve_button_instance s context instance;
              Ok (ResolvedInstanceAction id action)
          end;
  Ok (mkPostButton (bt_label button) route).

Definition resolve_panel_buttons (s : ExecutionState) (context : RuntimeContext)
    (buttons : list ButtonSpec) : Result AdapterError (list PostPanelButtonSpec) :=
  collect (resolve_panel_button s context) buttons.

(** One of the three loops of [resolve_manifest]. *)
Fixpoint resolve_refs {A} (created : gmap string A) (refs : list (string * string))
    (resolved : list (string * A)) : Result AdapterError (list (string * A)) :=
  match refs with
  | [] => Ok resolved
  | (alias, key) :: rest =>
      id ← ok_or (created !! key) (bad_request (MsgUnresolvedManifest key));
      resolve_refs created rest (bt_insert alias id resolved)
  end.

Definition resolve_manifest (s : ExecutionState) (refs : InstanceResourceRefs)
  : Result AdapterError InstanceResources :=
  roles ← resolve_refs (created_roles s) (rr_roles refs) [];
  channels ← resolve_refs (created_channels s) (rr_channels refs) [];
  messages ← resolve_refs (created_messages s) (rr_messages refs) [];
  Ok (mkResources roles channels messages).

(** ** Preparing an action *)
Inductive PreparedAction :=
| PrGrantRole (role : RoleId) (target : UserId)
| PrRespondEphemeral (content : string)
| PrOpenModal (modal : ModalPresentation)
| PrCreateChannel (action_index : nat) (key name : string)
| PrCreateRole (action_index : nat) (key name : string)
| PrUpsertOverwrite (channel : ChannelId) (target : OverwriteTarget) (allow deny : Permissions)
| PrPostPanel (action_index : nat) (key : string) (channel : ChannelId) (spec : PostPanelSpec)
| PrDeferEphemeral
| PrEditResponse (content : string)
| PrRegisterInstance (action_index : nat) (key : string) (id : InstanceId) (instance : AutomationInstance)
| PrTeardownInstance (action_index : nat) (instance_id : InstanceId).

Definition render_source (source : string) (context : RuntimeContext) (c : SanitizeContext)
  : Result AdapterError string :=
  map_err (λ e, bad_request (MsgTemplate e))
    (template ← template_parse source; render template (rc_inputs context) c).

Definition prepare_failure_message (source : string) (context : RuntimeContext)
  : Result AdapterError string := render_source source context EphemeralMessageContent.

Definition prepare_action (action_index : nat) (step : PlannedAction) (context : RuntimeContext)
    (s : ExecutionState) : Result AdapterError PreparedAction :=
  match step with
  | PlGrantRole role target =>
      role ← state_resolve_role s context role; Ok (PrGrantRole role target)
  | PlRespondEphemeral content =>
      content ← render_source content context EphemeralMessageContent;
      Ok (PrRespondEphemeral content)
  | PlOpenModal modal => Ok (PrOpenModal modal)
  | PlCreateChannel key name =>
      name ← render_source name context ChannelName; Ok (PrCreateChannel action_index key name)
  | PlCreateRole key name =>
      name ← render_source name context RoleName; Ok (PrCreateRole action_index key name)
  | PlUpsertOverwrite channel target allow deny =>
      channel ← state_resolve_channel s channel;
      target ← match target with
               | PlannedEveryone => Ok (TargetRole (rc_guild_id context))
               | PlannedTarget role => id ← state_resolve_role s context role; Ok (TargetRole id)
               end;
      Ok (PrUpsertOverwrite channel target allow deny)
  | PlPostPanel key channel content buttons =>
      channel ← state_resolve_channel s channel;
      content ← render_source content context EphemeralMessageContent;
      buttons ← resolve_panel_buttons s context buttons;
      Ok (PrPostPanel action_index key channel (mkPostPanel content buttons))
  | PlDeferEphemeral => Ok PrDeferEphemeral
  | PlEditResponse content =>
      content ← render_source content context EphemeralMessageContent; Ok (PrEditResponse content)
  | PlRegisterInstance key kind resources =>
      id ← ok_or (planned_instances s !! key) (bad_request (MsgUnresolvedPlannedInstance key));
      resources ← resolve_manifest s resources;
      Ok (PrRegisterInstance action_index key id
            (mkInstance id (rc_guild_id context) (rc_ruleset_key context)
               (rc_ruleset_version context) kind (rc_actor context) resources Active))
  | PlTeardownInstance instance =>
      id ← resolve_instance_ref s context instance; Ok (PrTeardownInstance action_index id)
  end.

(** ** Results *)
Inductive CreatedResource :=
| MadeChannel (action_index : nat) (key name : string) (id : ChannelId)
| MadeRole (action_index : nat) (key name : string) (id : RoleId)
| MadeMessage (action_index : nat) (key : string) (channel : ChannelId) (id : MessageId)
| MadeInstance (action_index : nat) (key : string) (id : InstanceId).

Inductive ResponseDeliveryOutcome := ResponseSent | ResponseFailed.

Record TeardownActionResult := mkTeardownResult {
  ta_action_index : nat;
  ta_instance_id : InstanceId;
  ta_teardown : TeardownOutcome;
  ta_response : ResponseDeliveryOutcome
}.

(** [ExecutionOutput], and the [RunResult] it finishes as. *)
Record RunResult := mkRun {
  run_created : list CreatedResource;
  run_teardowns : list TeardownActionResult
}.

Definition output_default : RunResult := mkRun [] [].
Definition push_created (c : CreatedResource) (o : RunResult) : RunResult :=
  mkRun (run_created o ++ [c]) (run_teardowns o).
Definition push_teardown (t : TeardownActionResult) (o : RunResult) : RunResult :=
  mkRun (run_created o) (run_teardowns o ++ [t]).
Definition fail_responses (o : RunResult) : RunResult :=
  mkRun (run_created o)
    ((λ t, mkTeardownResult (ta_action_index t) (ta_instance_id t) (ta_teardown t) ResponseFailed)
       <$> run_teardowns o).

(** ** Running *)
Section run.
Context {W : Type} `{AutomationServices W}.

(** [ExecutionState::prepare]: an id for every instance the plan registers, drawn
    once per key and before anything is done. *)
Fixpoint draw_ids (steps : list PlannedAction) (planned : gmap string InstanceId)
  : Cmd W AdapterError (gmap string InstanceId) :=
  match steps with
  | [] => cmd_ret planned
  | PlRegisterInstance key _ _ :: rest =>
      match planned !! key with
      | Some _ => draw_ids rest planned
      | None =>
          id ← cmd_map_err (λ e, bad_request (MsgInstanceId e)) svc_generate;
          draw_ids rest (<[key := id]> planned)
      end
  | _ :: rest => draw_ids rest planned
  end.

Definition execution_prepare (plan : ActionPlan) : Cmd W AdapterError ExecutionState :=
  planned ← draw_ids plan ∅; cmd_ret (mkExec ∅ ∅ ∅ planned ∅).

Definition execute_action (guild : GuildId) (action : PreparedAction) (s : ExecutionState)
    (o : RunResult) : Cmd W AdapterError (ExecutionState * RunResult) :=
  match action with
  | PrGrantRole role target =>
      _ ← svc_grant_role guild target role; cmd_ret (s, o)
  | PrRespondEphemeral content =>
      _ ← svc_respond_ephemeral content; cmd_ret (s, o)
  | PrOpenModal modal =>
      _ ← svc_open_modal modal; cmd_ret (s, o)
  | PrCreateChannel index key name =>
      id ← svc_create_channel guild name;
      cmd_ret (add_channel key id s, push_created (MadeChannel index key name id) o)
  | PrCreateRole index key name =>
      id ← svc_create_role guild name;
      cmd_ret (add_role key id s, push_created (MadeRole index key name id) o)
  | PrUpsertOverwrite channel target allow deny =>
      _ ← svc_upsert_overwrite guild channel target allow deny; cmd_ret (s, o)
  | PrPostPanel index key channel spec =>
      id ← svc_post_panel guild channel spec;
      cmd_ret (add_message key (mkMessageRef channel id) s,
               push_created (MadeMessage index key channel id) o)
  | PrDeferEphemeral =>
      _ ← svc_defer_ephemeral; cmd_ret (s, o)
  | PrEditResponse content =>
      λ w, match svc_edit_response content w with
           | (Ok _, w') => (Ok (s, o), w')
           | (Err e, w') =>
               match run_teardowns o with
               | [] => (Err e, w')
               | _ => (Ok (s, fail_responses o), w')
               end
           end
  | PrRegisterInstance index key id instance =>
      _ ← cmd_map_err (λ e, bad_request (MsgInstanceRegister e)) (svc_register_instance instance);
      cmd_ret (add_instance key id s, push_created (MadeInstance index key id) o)
  | PrTeardownInstance index instance_id =>
      outcome ← cmd_map_err (λ e, bad_request (MsgInstanceTeardown e)) (svc_teardown guild instance_id);
      cmd_ret (s, push_teardown (mkTeardownResult index instance_id outcome ResponseSent) o)
  end.

Fixpoint execute_steps (index : nat) (steps : list PlannedAction) (context : RuntimeContext)
    (s : ExecutionState) (o : RunResult) : Cmd W AdapterError (ExecutionState * RunResult) :=
  match steps with
  | [] => cmd_ret (s, o)
  | step :: rest =>
      action ← cmd_lift (λ _, prepare_action index step context s);
      so ← execute_action (rc_guild_id context) action s o;
      execute_steps (S index) rest context so.1 so.2
  end.

Definition execute_plan (context : RuntimeContext) (plan : ActionPlan) : Cmd W AdapterError RunResult :=
  s ← execution_prepare plan;
  so ← execute_steps 0 plan context s output_default;
  cmd_ret so.2.

(** ** Handling an event *)
Record PreparedEventExecution := mkPrepared {
  pe_context : RuntimeContext;
  pe_plan : ActionPlan;
  pe_leading_defer_ephemeral : bool
}.

Definition prepare_event_execution (event : RuntimeEvent) (ruleset : InteractionRuleSet)
    (bindings : ResourceBindingMap) (identity : RunningRuleSetIdentity)
  : Result AdapterError (option PreparedEventExecution) :=
  match ev_kind event with
  | EvInstanceAction _ _ => Err (mkAdapterError KInvalidEventRoute MsgInstanceActionRoute)
  | _ =>
      normalized ← map_err (λ e, bad_request (MsgModalInput e))
                     (normalize_modal_submit_inputs event ruleset);
      let context := context_from_event event identity in
      let context' := match normalized with Some inputs => set_inputs inputs context | None => context end in
      match interpret event ruleset bindings with
      | None => Ok None
      | Some (PlDeferEphemeral :: steps) => Ok (Some (mkPrepared context' steps true))
      | Some steps => Ok (Some (mkPrepared context' steps false))
      end
  end.

(** Run the plan; after a deferral, a failure is told to the user as well. *)
Definition execute_or_report (prepared : PreparedEventExecution) (failure_message : string)
  : Cmd W AdapterError unit :=
  λ w, match execute_plan (pe_context prepared) (pe_plan prepared) w with
       | (Ok _, w') => (Ok tt, w')
       | (Err error, w') =>
           if pe_leading_defer_ephemeral prepared then
             match prepare_failure_message failure_message (pe_context prepared) with
             | Ok rendered => (Err error, (svc_edit_response rendered w').2)
             | Err _ => (Err error, w')
             end
           else (Err error, w')
       end.

Definition execute_prepared_event (prepared : PreparedEventExecution) (failure_message : string)
  : Cmd W AdapterError unit :=
  _ ← (if pe_leading_defer_ephemeral prepared then svc_defer_ephemeral else cmd_ret tt);
  execute_or_report prepared failure_message.

Inductive HandleOutcome := HandleExecuted | HandleNoOp.

Definition handle_event (event : RuntimeEvent) (ruleset : InteractionRuleSet)
    (bindings : ResourceBindingMap) (failure_message : string) (identity : RunningRuleSetIdentity)
  : Cmd W AdapterError HandleOutcome :=
  prepared ← cmd_lift (λ _, prepare_event_execution event ruleset bindings identity);
  match prepared with
  | None => cmd_ret HandleNoOp
  | Some p => _ ← execute_prepared_event p failure_message; cmd_ret HandleExecuted
  end.
End run.

(** ** The mocks of the crate

    [MockMutationAdapter], [MockInteractionResponder] and
    [MockInstanceTeardownService], with the in-memory store and the sequence
    generator, as one world. *)
Inductive MutationCall :=
| CallGrantRole (guild : GuildId) (member : UserId) (role : RoleId)
| CallCreateChannel (guild : GuildId) (name : string)
| CallCreateRole (guild : GuildId) (name : string)
| CallUpsertOverwrite (guild : GuildId) (channel : ChannelId) (target : OverwriteTarget)
    (allow deny : Permissions)
| CallPostPanel (guild : GuildId) (channel : ChannelId) (content : string)
    (buttons : list PostPanelButtonSpec).

Inductive ResponderCall :=
| CallRespondEphemeral (content : string)
| CallOpenModal (modal : string)
| CallDeferEphemeral
| CallEditResponse (content : string).

Record MockWorld := mkMock {
  mw_calls : list MutationCall;
  mw_fail : option AdapterError;
  mw_next_id : Z;
  mw_responses : list ResponderCall;
  mw_store : InMemoryInstanceStore;
  mw_ids : SequenceInstanceIdGenerator;
  mw_teardown_calls : list (GuildId * InstanceId);
  mw_teardown_result : Result TeardownError TeardownOutcome
}.

(** Record the call, then fail or answer; a creation answers with the next id. *)
Definition mock_call (call : MutationCall) : Cmd MockWorld AdapterError unit :=
  λ w, (match mw_fail w with Some e => Err e | None => Ok tt end,
        mkMock (mw_calls w ++ [call]) (mw_fail w) (mw_next_id w) (mw_responses w) (mw_store w)
          (mw_ids w) (mw_teardown_calls w) (mw_teardown_result w)).

Definition mock_next_id : Cmd MockWorld AdapterError Z :=
  λ w, (Ok (u64_wrapping_add 800000 (mw_next_id w)),
        mkMock (mw_calls w) (mw_fail w) (u64_wrapping_add (mw_next_id w) 1) (mw_responses w)
          (mw_store w) (mw_ids w) (mw_teardown_calls w) (mw_teardown_result w)).

Definition mock_create (call : MutationCall) : Cmd MockWorld AdapterError Z :=
  _ ← mock_call call; mock_next_id.

Definition mock_respond (call : ResponderCall) : Cmd MockWorld AdapterError unit :=
  λ w, (Ok tt, mkMock (mw_calls w) (mw_fail w) (mw_next_id w) (mw_responses w ++ [call])
                 (mw_store w) (mw_ids w) (mw_teardown_calls w) (mw_teardown_result w)).

Definition put_store (st : InMemoryInstanceStore) (w : MockWorld) : MockWorld :=
  mkMock (mw_calls w) (mw_fail w) (mw_next_id w) (mw_responses w) st (mw_ids w)
    (mw_teardown_calls w) (mw_teardown_result w).
Definition put_ids (g : SequenceInstanceIdGenerator) (w : MockWorld) : MockWorld :=
  mkMock (mw_calls w) (mw_fail w) (mw_next_id w) (mw_responses w) (mw_store w) g
    (mw_teardown_calls w) (mw_teardown_result w).

Definition mock_teardown (guild : GuildId) (id : InstanceId) : Cmd MockWorld TeardownError TeardownOutcome :=
  λ w, (mw_teardown_result w,
        mkMock (mw_calls w) (mw_fail w) (mw_next_id w) (mw_responses w) (mw_store w) (mw_ids w)
          (mw_teardown_calls w ++ [(guild, id)]) (mw_teardown_result w)).

#[export] Instance mock_services : AutomationServices MockWorld := {
  svc_grant_role guild member role := mock_call (CallGrantRole guild member role);
  svc_create_channel guild name := mock_create (CallCreateChannel guild name);
  svc_create_role guild name := mock_create (CallCreateRole guild name);
  svc_upsert_overwrite guild channel target allow deny :=
    mock_call (CallUpsertOverwrite guild channel target allow deny);
  svc_post_panel guild channel spec :=
    mock_create (CallPostPanel guild channel (pp_content spec) (pp_buttons spec));
  svc_respond_ephemeral content := mock_respond (CallRespondEphemeral content);
  svc_open_modal modal := mock_respond (CallOpenModal (mp_key modal));
  svc_defer_ephemeral := mock_respond CallDeferEphemeral;
  svc_edit_response content := mock_respond (CallEditResponse content);
  svc_register_instance instance := cmd_zoom mw_store put_store (register instance);
  svc_generate := cmd_zoom mw_ids put_ids sequence_generate;
  svc_teardown := mock_teardown
}.
