(* ===== verification/AutomationSound.v ===== *)
(** * Validated rules do not go wrong

    What validation accepts is read as a type discipline: the keys a rule has
    created so far are its environment, references are looked up in it. A plan
    interpreted from a validated rule can then fail only for reasons that arise at
    run time: a service refuses, the user's input does not fit, or a rendered text
    is too long or empty. *)

From Stdlib Require Import ZArith Lia Ascii String.
From stdpp Require Import base decidable list strings gmap numbers sets.
From S2P Require Import Prelude RustStd RustText DiscordModel Resolution Instance Teardown AutomationState AutomationPlan Template AutomationValidate AutomationExec.
Open Scope Z_scope.

(** ** Reading an empty list of errors *)
Lemma error_if_nil b e : error_if b e = [] ↔ b = false.
Proof. by destruct b. Qed.

Lemma insert_errors_nil k s e : insert_errors k s e = [] ↔ k ∉ s.
Proof. unfold insert_errors. by rewrite error_if_nil, bool_decide_eq_false. Qed.

Lemma bind_nil {A B} (f : A → list B) l : l ≫= f = [] ↔ ∀ x, x ∈ l → f x = [].
Proof.
  induction l as [|x l IH]; cbn.
  - split; [|done]. intros _ x Hx. by apply not_elem_of_nil in Hx.
  - rewrite app_nil, IH. split.
    + intros [Hx Hl] y [->|Hy]%elem_of_cons; auto.
    + intros Hl. split; [apply Hl; left|]. intros y Hy. apply Hl. by right.
Qed.

Ltac no_errors :=
  repeat match goal with
         | H : _ ++ _ = [] |- _ => apply app_nil in H as [? H]
         | H : error_if _ _ = [] |- _ => apply error_if_nil in H
         end.

Lemma errors_result_Ok es u : errors_result es = Ok u ↔ es = [].
Proof. destruct es; cbn; destruct u; split; congruence. Qed.

(** ** The types *)
Section types.
Context (inst : bool) (keys : string → Prop) (modal_keys : gset string).

Definition template_fits (content : string) : Prop :=
  ∃ t, template_parse content = Ok t ∧ ∀ k, k ∈ input_keys t → keys k.

Definition role_ok (created : gmap string CreatedKind) (role : RoleRef) : Prop :=
  match role with
  | RoleExisting _ => True
  | RoleCreated k => created !! k = Some KindRole
  | RoleInstance InstanceEvent _ => inst = true
  | RoleInstance (InstanceCreated _) _ => False
  end.

Definition channel_ok (created : gmap string CreatedKind) (channel : ChannelRef) : Prop :=
  match channel with
  | ChannelExisting _ => True
  | ChannelCreated k => created !! k = Some KindChannel
  end.

Definition refs_ok (created : gmap string CreatedKind) (kind : CreatedKind)
    (refs : list (string * string)) : Prop :=
  ∀ alias k, (alias, k) ∈ refs → created !! k = Some kind.

Definition manifest_ok (created : gmap string CreatedKind) (r : InstanceResourceRefs) : Prop :=
  refs_ok created KindRole (rr_roles r) ∧ refs_ok created KindChannel (rr_channels r) ∧
  refs_ok created KindMessage (rr_messages r).

Definition action_ok (created : gmap string CreatedKind) (a : ActionSpec) : Prop :=
  match a with
  | GrantRole role _ => role_ok created role
  | RespondEphemeral content | EditResponse content => template_fits content
  | OpenModal modal => modal ∈ modal_keys
  | CreateChannel k name | CreateRole k name => created !! k = None ∧ template_fits name
  | UpsertOverwrite channel target _ _ => channel_ok created channel ∧
      match target with SpecRole role => role_ok created role | SpecEveryone => True end
  | PostPanel k channel content _ =>
      created !! k = None ∧ channel_ok created channel ∧ template_fits content
  | DeferEphemeral => True
  | RegisterInstance k _ r => created !! k = None ∧ manifest_ok created r
  | TeardownInstance InstanceEvent => inst = true
  | TeardownInstance (InstanceCreated k) => created !! k = Some KindInstance
  end.

Fixpoint actions_ok (created : gmap string CreatedKind) (actions : list ActionSpec) : Prop :=
  match actions with
  | [] => True
  | a :: rest => action_ok created a ∧ actions_ok (action_created created a) rest
  end.
End types.

(** The inputs a rule may name. *)
Definition rule_inputs (rule : InteractionRule) (fields : gmap string (gset string)) (k : string) : Prop :=
  match ru_trigger rule with
  | OnModalSubmit modal => ∃ fs, fields !! modal = Some fs ∧ k ∈ fs
  | _ => False
  end.

Lemma check_created_nil created k kind e1 e2 :
  check_created created k kind e1 e2 = [] → created !! k = Some kind.
Proof.
  unfold check_created. destruct (created !! k) as [k'|]; [|done]. intros H%error_if_nil.
  by apply negb_false_iff, bool_decide_eq_true in H as ->.
Qed.

Lemma check_template_nil rule fields content :
  check_template rule fields content = [] → template_fits (rule_inputs rule fields) content.
Proof.
  unfold check_template, template_fits, rule_inputs. destruct (template_parse content) as [t|]; [|done].
  intros H. exists t. split; [done|]. rewrite bind_nil in H. intros k Hk. specialize (H k Hk).
  destruct (ru_trigger rule) as [c|modal|a]; [done| |done].
  apply error_if_nil, negb_false_iff in H. destruct (fields !! modal) as [fs|]; [|done].
  exists fs. split; [done|]. exact (bool_decide_eq_true_1 _ H).
Qed.

Lemma check_role_ref_nil rule created role :
  check_role_ref rule created role = [] → role_ok (is_instance_rule rule) created role.
Proof.
  destruct role as [k|k|[|k] alias]; cbn; [done|by apply check_created_nil| |].
  - intros H. no_errors. by apply negb_false_iff.
  - intros H. by no_errors.
Qed.

Lemma check_channel_ref_nil rule created channel :
  check_channel_ref rule created channel = [] → channel_ok created channel.
Proof. destruct channel; cbn; [done|by apply check_created_nil]. Qed.

Lemma check_manifest_refs_nil rule created kind e1 e2 refs :
  check_manifest_refs rule created kind e1 e2 refs = [] → refs_ok created kind refs.
Proof.
  unfold check_manifest_refs. rewrite bind_nil. intros H alias k Hin.
  specialize (H _ Hin). cbn in H. no_errors. by eapply check_created_nil.
Qed.

(** Looking a reference up beside one's own fresh key of another kind changes nothing. *)
Lemma lookup_own (created : gmap string CreatedKind) k kind k' kind' :
  kind ≠ kind' → <[k := kind]> created !! k' = Some kind' → created !! k' = Some kind'.
Proof. intros Hne [[_ ?]|[_ ?]]%lookup_insert_Some; congruence. Qed.

Lemma action_errors_nil rule modal_keys fields created a :
  action_errors rule modal_keys fields created a = [] →
  action_ok (is_instance_rule rule) (rule_inputs rule fields) modal_keys created a.
Proof.
  destruct a as [role t|content|modal|k name|k name|ch t al dn|k ch content bs| |content|k kind r|[|k]];
    cbn; unfold register_created; intros H; no_errors; try done.
  - by apply check_role_ref_nil.
  - by apply check_template_nil.
  - by apply negb_false_iff, bool_decide_eq_true in H.
  - split; [by apply is_some_false|by apply check_template_nil].
  - split; [by apply is_some_false|by apply check_template_nil].
  - split; [by eapply check_channel_ref_nil|]. destruct t; [done|]. by apply check_role_ref_nil.
  - split_and!; [by apply is_some_false| |by apply check_template_nil].
    apply check_channel_ref_nil in H1. destruct ch; [done|]. by apply lookup_own in H1.
  - by apply check_template_nil.
  - split; [by apply is_some_false|]. unfold check_manifest in H. no_errors.
    apply check_manifest_refs_nil in H, H2, H3.
    split_and!; intros alias k' Hin; (eapply lookup_own; [|eauto]); done.
  - by apply negb_false_iff in H.
  - by apply check_created_nil in H.
Qed.

Lemma actions_pass_nil rule modal_keys fields created actions :
  actions_pass rule modal_keys fields created actions = [] →
  actions_ok (is_instance_rule rule) (rule_inputs rule fields) modal_keys created actions.
Proof.
  revert created. induction actions as [|a actions IH]; intros created; [done|].
  cbn [actions_pass actions_ok]. intros H. no_errors.
  split; [by apply action_errors_nil|by apply IH].
Qed.

(** ** Plans are total on validated rules *)
Lemma role_binding_total bindings rule inst created role :
  check_role_binding rule bindings role = [] → role_ok inst created role →
  ∃ p, resolve_role_ref bindings role = Some p.
Proof.
  destruct role as [k|k|[|k] alias]; cbn; intros H Hok; eauto; [|done].
  apply error_if_nil, negb_false_iff, is_some_true in H as [id ->]. cbn. eauto.
Qed.

Lemma channel_binding_total bindings rule channel :
  check_channel_binding rule bindings channel = [] → ∃ p, resolve_channel_ref bindings channel = Some p.
Proof.
  destruct channel as [k|k]; cbn; intros H; eauto.
  apply error_if_nil, negb_false_iff, is_some_true in H as [id ->]. cbn. eauto.
Qed.

(** Every modal key has a modal. *)
Definition modals_found (ruleset : InteractionRuleSet) (modal_keys : gset string) : Prop :=
  ∀ m, m ∈ modal_keys → ∃ spec, List.find (λ x, String.eqb (mo_key x) m) (rs_modals ruleset) = Some spec.

Lemma plan_action_total event ruleset bindings rule inst keys modal_keys created a :
  modals_found ruleset modal_keys → binding_errors bindings rule a = [] →
  action_ok inst keys modal_keys created a →
  ∃ p, plan_action event ruleset bindings a = Some p.
Proof.
  intros Hm. destruct a as [role []|content|modal|k name|k name|ch t al dn|k ch content bs| |content|k kind r|i];
    cbn; intros Hb Hok; eauto.
  - destruct (role_binding_total _ _ _ _ _ Hb Hok) as [p ->]. cbn. eauto.
  - destruct (Hm _ Hok) as [spec ->]. cbn. eauto.
  - destruct Hok as [Hc Ht]. no_errors. destruct (channel_binding_total _ _ _ H) as [p ->]. cbn.
    destruct t as [|role]; cbn; eauto.
    destruct (role_binding_total _ _ _ _ _ Hb Ht) as [q ->]. cbn. eauto.
  - destruct (channel_binding_total _ _ _ Hb) as [p ->]. cbn. eauto.
Qed.

(** A planned action keeps the type of the action it comes from. *)
Definition plans (event : RuntimeEvent) (ruleset : InteractionRuleSet) (bindings : ResourceBindingMap)
    (actions : list ActionSpec) (plan : ActionPlan) : Prop :=
  Forall2 (λ a p, plan_action event ruleset bindings a = Some p) actions plan.

Lemma plan_actions_total event ruleset bindings rule inst keys modal_keys created actions :
  modals_found ruleset modal_keys → (∀ a, a ∈ actions → binding_errors bindings rule a = []) →
  actions_ok inst keys modal_keys created actions →
  ∃ plan, mapM (plan_action event ruleset bindings) actions = Some plan.
Proof.
  intros Hm. revert created. induction actions as [|a actions IH]; intros created Hb Hok; [by exists []|].
  destruct Hok as [Ha Hok].
  destruct (plan_action_total event ruleset bindings rule inst keys modal_keys created a Hm
    (Hb a ltac:(left)) Ha) as [p Hp].
  destruct (IH (action_created created a)) as [plan Hplan]; [|done|].
  { intros b Hbin. apply Hb. by right. }
  exists (p :: plan). cbn. by rewrite Hp, Hplan.
Qed.

(** ** Execution states and environments *)
Record state_ok (created : gmap string CreatedKind) (planned : gset string) (s : ExecutionState) : Prop := {
  so_role k : created !! k = Some KindRole → is_Some (created_roles s !! k);
  so_channel k : created !! k = Some KindChannel → is_Some (created_channels s !! k);
  so_message k : created !! k = Some KindMessage → is_Some (created_messages s !! k);
  so_instance k : created !! k = Some KindInstance → is_Some (created_instances s !! k);
  so_planned k : k ∈ planned → is_Some (planned_instances s !! k)
}.

(** The failures that are left to run time. *)
Definition runtime_failure (inst : bool) (e : AdapterError) : Prop :=
  match ae_message e with
  | MsgModalInput (ModalDefinitionMissing _) => False
  | MsgText _ | MsgModalInput _ | MsgInstanceRegister _ | MsgInstanceTeardown _ | MsgInstanceId _ => True
  | MsgTemplate (TooLong _ _) | MsgTemplate EmptyAfterSanitize => True
  | MsgInstanceResourceNotFound _ _ => inst = true
  | _ => False
  end.

(** The context offers the inputs the templates name, and the instance an instance
    rule needs. *)
Record context_ok (inst : bool) (keys : string → Prop) (context : RuntimeContext) : Prop := {
  co_inputs k : keys k → is_Some (bt_get (rc_inputs context) k);
  co_instance : inst = true → is_Some (rc_instance context)
}.

(** The buttons of posted panels name instances the plan registers; this is not
    checked by validation. *)
Definition button_ok (inst : bool) (planned : gset string) (b : ButtonSpec) : Prop :=
  match bt_route b with
  | RouteStatic _ => True
  | RouteInstanceAction InstanceEvent _ => inst = true
  | RouteInstanceAction (InstanceCreated k) _ => k ∈ planned
  end.

Definition buttons_ok (inst : bool) (planned : gset string) (a : ActionSpec) : Prop :=
  match a with PostPanel _ _ _ buttons => ∀ b, b ∈ buttons → button_ok inst planned b | _ => True end.

Section steps.
Context (inst : bool) (keys : string → Prop) (modal_keys planned : gset string).
Context (context : RuntimeContext) (Hctx : context_ok inst keys context).
Implicit Types (s : ExecutionState) (created : gmap string CreatedKind).

Lemma render_source_ok content c :
  template_fits keys content →
  (∃ text, render_source content context c = Ok text) ∨
  ∃ e, render_source content context c = Err e ∧ runtime_failure inst e.
Proof.
  intros (t & Ht & Hk). unfold render_source, render. rewrite Ht. cbn [mbind Result_bind].
  destruct (substitute_total t (rc_inputs context) EmptyString) as [text ->].
  { intros k Hin. by apply (co_inputs _ _ _ Hctx), Hk. }
  cbn [mbind Result_bind]. unfold sanitize. cbv zeta.
  destruct (str_is_empty _); cbn [mbind Result_bind map_err].
  - right. eexists. split; [done|]. exact I.
  - case_match; cbn [map_err]; [right|left]; eexists; [split; [done|exact I]|done].
Qed.

Lemma resolve_role_ok s created bindings role p :
  state_ok created planned s → role_ok inst created role → resolve_role_ref bindings role = Some p →
  (∃ id, state_resolve_role s context p = Ok id) ∨
  ∃ e, state_resolve_role s context p = Err e ∧ runtime_failure inst e.
Proof.
  intros Hs. destruct role as [k|k|[|k] alias]; cbn; intros Hok Hp; [| |injection Hp as <-|done].
  - destruct (role_bindings bindings !! k); [|done]. injection Hp as <-. left. eauto.
  - injection Hp as <-. destruct (so_role _ _ _ Hs k Hok) as [id Hid]. cbn. rewrite Hid. left. cbn. eauto.
  - destruct (co_instance _ _ _ Hctx Hok) as [r Hr]. cbn. rewrite Hr. cbn.
    destruct (bt_get _ alias); cbn; [left|right]; eauto.
Qed.

Lemma resolve_channel_ok s created bindings channel p :
  state_ok created planned s → channel_ok created channel →
  resolve_channel_ref bindings channel = Some p → ∃ id, state_resolve_channel s p = Ok id.
Proof.
  intros Hs. destruct channel as [k|k]; cbn; intros Hok Hp.
  - destruct (channel_bindings bindings !! k); [|done]. injection Hp as <-. eauto.
  - injection Hp as <-. destruct (so_channel _ _ _ Hs k Hok) as [id Hid]. cbn. rewrite Hid. cbn. eauto.
Qed.

Lemma collect_ok {E A B} (f : A → Result E B) l :
  (∀ x, x ∈ l → ∃ y, f x = Ok y) → ∃ ys, collect f l = Ok ys.
Proof.
  induction l as [|x l IH]; intros Hf; cbn; [eauto|].
  destruct (Hf x ltac:(left)) as [y ->]. cbn.
  destruct IH as [ys ->]; [|cbn; eauto]. intros x' Hx. apply Hf. by right.
Qed.

Lemma resolve_buttons_ok s created buttons :
  state_ok created planned s → (∀ b, b ∈ buttons → button_ok inst planned b) →
  ∃ bs, resolve_panel_buttons s context buttons = Ok bs.
Proof.
  intros Hs Hall. apply collect_ok. intros b Hb%Hall. unfold button_ok in Hb.
  unfold resolve_panel_button. destruct (bt_route b) as [k|[|k] action]; cbn; [eauto| |].
  - destruct (co_instance _ _ _ Hctx Hb) as [r Hr]. unfold event_instance_id. rewrite Hr. cbn. eauto.
  - destruct (so_planned _ _ _ Hs k Hb) as [id Hid]. rewrite Hid. cbn. eauto.
Qed.

Lemma resolve_refs_ok {A} (m : gmap string A) refs acc :
  (∀ alias k, (alias, k) ∈ refs → is_Some (m !! k)) → ∃ l, resolve_refs m refs acc = Ok l.
Proof.
  revert acc. induction refs as [|[alias k] refs IH]; intros acc Hr; cbn; [eauto|].
  destruct (Hr alias k ltac:(left)) as [x Hx]. rewrite Hx. cbn. apply IH.
  intros a' k' H. apply (Hr a'). by right.
Qed.

Lemma resolve_manifest_ok s created r :
  state_ok created planned s → manifest_ok created r → ∃ res, resolve_manifest s r = Ok res.
Proof.
  intros Hs (H1 & H2 & H3). unfold resolve_manifest.
  destruct (resolve_refs_ok (created_roles s) (rr_roles r) []) as [l1 E1].
  { intros a k Hin. eapply so_role; [exact Hs|by eapply H1]. }
  destruct (resolve_refs_ok (created_channels s) (rr_channels r) []) as [l2 E2].
  { intros a k Hin. eapply so_channel; [exact Hs|by eapply H2]. }
  destruct (resolve_refs_ok (created_messages s) (rr_messages r) []) as [l3 E3].
  { intros a k Hin. eapply so_message; [exact Hs|by eapply H3]. }
  rewrite E1. cbn. rewrite E2. cbn. rewrite E3. cbn. eauto.
Qed.

(** One planned action can be prepared, up to a failure left to run time. *)
Lemma prepare_action_ok event ruleset bindings s created index a p :
  state_ok created planned s → action_ok inst keys modal_keys created a →
  buttons_ok inst planned a →
  (∀ k kind r, a = RegisterInstance k kind r → k ∈ planned) →
  plan_action event ruleset bindings a = Some p →
  (∃ action, prepare_action index p context s = Ok action) ∨
  ∃ e, prepare_action index p context s = Err e ∧ runtime_failure inst e.
Proof.
  intros Hs. destruct a as [role []|content|modal|k name|k name|ch t al dn|k ch content bs| |content|k kind r|i];
    cbn [plan_action action_ok buttons_ok]; intros Hok Hbs Hreg Hp.
  - apply bind_Some in Hp as (q & Hq & [= <-]). cbn.
    destruct (resolve_role_ok _ _ _ _ _ Hs Hok Hq) as [[id ->]|(e & -> & ?)]; cbn; eauto.
  - injection Hp as <-. cbn [prepare_action].
    destruct (render_source_ok _ EphemeralMessageContent Hok) as [[x ->]|(e & -> & ?)]; cbn; eauto.
  - apply bind_Some in Hp as (q & Hq & [= <-]). left. cbn. eauto.
  - injection Hp as <-. cbn [prepare_action].
    destruct (render_source_ok _ ChannelName (proj2 Hok)) as [[x ->]|(e & -> & ?)]; cbn; eauto.
  - injection Hp as <-. cbn [prepare_action].
    destruct (render_source_ok _ RoleName (proj2 Hok)) as [[x ->]|(e & -> & ?)]; cbn; eauto.
  - apply bind_Some in Hp as (q & Hq & Hp). apply bind_Some in Hp as (tq & Htq & [= <-]). cbn.
    destruct (resolve_channel_ok _ _ _ _ _ Hs (proj1 Hok) Hq) as [id ->]. cbn.
    destruct t as [|role]; [injection Htq as <-; cbn; eauto|].
    destruct (resolve_role_ref bindings role) as [rq|] eqn:Hrq; [|done]. injection Htq as <-. cbn.
    destruct (resolve_role_ok _ _ _ _ _ Hs (proj2 Hok) Hrq) as [[rid ->]|(e & -> & ?)]; cbn; eauto.
  - apply bind_Some in Hp as (q & Hq & [= <-]). destruct Hok as (_ & Hc & Ht). cbn [prepare_action].
    destruct (resolve_channel_ok _ _ _ _ _ Hs Hc Hq) as [id ->]. cbn [mbind Result_bind].
    destruct (render_source_ok _ EphemeralMessageContent Ht) as [[x ->]|(e & -> & ?)]; [|right; cbn; eauto].
    cbn [mbind Result_bind]. destruct (resolve_buttons_ok _ _ _ Hs Hbs) as [l ->]. cbn. eauto.
  - injection Hp as <-. left. cbn. eauto.
  - injection Hp as <-. cbn [prepare_action].
    destruct (render_source_ok _ EphemeralMessageContent Hok) as [[x ->]|(e & -> & ?)]; cbn; eauto.
  - injection Hp as <-. cbn. destruct (so_planned _ _ _ Hs k (Hreg _ _ _ eq_refl)) as [id ->]. cbn.
    destruct (resolve_manifest_ok _ _ _ Hs (proj2 Hok)) as [res ->]. cbn. eauto.
  - injection Hp as <-. left. destruct i as [|k]; cbn.
    + destruct (co_instance _ _ _ Hctx Hok) as [x Hx]. unfold event_instance_id. rewrite Hx. cbn. eauto.
    + destruct (so_instance _ _ _ Hs k Hok) as [id ->]. cbn. eauto.
Qed.
End steps.

(** ** Running *)

Ltac grow_state :=
  let Hs := fresh in intros Hs; split; cbn; intros ?; try (apply (so_planned _ _ _ Hs));
  intros [[<- ?]|[? ?]]%lookup_insert_Some; try discriminate;
  rewrite ?lookup_insert_eq, ?lookup_insert_ne by done; destruct Hs; eauto.


(** The errors a service reports are its own texts. *)
Definition speaks {W A} (c : Cmd W AdapterError A) : Prop :=
  ∀ w, match (c w).1 with Ok _ => True | Err e => ∃ text, ae_message e = MsgText text end.

Record services_speak {W} `{AutomationServices W} : Prop := {
  speak_grant g u r : speaks (svc_grant_role g u r);
  speak_channel g n : speaks (svc_create_channel g n);
  speak_role g n : speaks (svc_create_role g n);
  speak_overwrite g c t al dn : speaks (svc_upsert_overwrite g c t al dn);
  speak_panel g c p : speaks (svc_post_panel g c p);
  speak_respond t : speaks (svc_respond_ephemeral t);
  speak_modal m : speaks (svc_open_modal m);
  speak_defer : speaks svc_defer_ephemeral;
  speak_edit t : speaks (svc_edit_response t)
}.
Arguments services_speak W {_}.

Section running.
Context {W : Type} `{AutomationServices W} (Hspeak : services_speak W).
Context (inst : bool).

(** A command answers as [Q] says or fails for a reason left to run time. *)
Definition safe {A} (c : Cmd W AdapterError A) (Q : A → Prop) : Prop :=
  ∀ w, match (c w).1 with Ok a => Q a | Err e => runtime_failure inst e end.

Lemma safe_ret {A} (a : A) (Q : A → Prop) : Q a → safe (cmd_ret a) Q.
Proof. by intros HQ w. Qed.

Lemma safe_bind {A B} (c : Cmd W AdapterError A) (k : A → Cmd W AdapterError B)
    (P : A → Prop) (Q : B → Prop) :
  safe c P → (∀ a, P a → safe (k a) Q) → safe (x ← c; k x) Q.
Proof.
  intros Hc Hk w. specialize (Hc w). unfold mbind, Cmd_bind, cmd_bind.
  destruct (c w) as [[a|e] w']; cbn in *; [by apply Hk|done].
Qed.

Lemma safe_mono {A} (c : Cmd W AdapterError A) (P Q : A → Prop) :
  (∀ a, P a → Q a) → safe c P → safe c Q.
Proof. intros HPQ Hc w. specialize (Hc w). destruct (c w) as [[a|e] w']; cbn in *; auto. Qed.

Lemma safe_speaks {A} (c : Cmd W AdapterError A) : speaks c → safe c (λ _, True).
Proof.
  intros Hc w. specialize (Hc w). destruct (c w) as [[a|e] w']; cbn in *; [done|].
  destruct Hc as [text Ht]. unfold runtime_failure. by rewrite Ht.
Qed.

Lemma safe_map_err {E A} (c : Cmd W E A) (f : E → AdapterError) :
  (∀ e, runtime_failure inst (f e)) → safe (cmd_map_err f c) (λ _, True).
Proof. intros Hf w. unfold cmd_map_err. destruct (c w) as [[a|e] w']; cbn; auto. Qed.

Lemma safe_lift {A} (r : Result AdapterError A) (Q : A → Prop) :
  (∃ a, r = Ok a ∧ Q a) ∨ (∃ e, r = Err e ∧ runtime_failure inst e) → safe (cmd_lift (λ _, r)) Q.
Proof. intros [(a & -> & Ha)|(e & -> & He)] w; done. Qed.

Lemma safe_then {A B} (c : Cmd W AdapterError A) (b : A → B) (Q : B → Prop) :
  speaks c → (∀ a, Q (b a)) → safe (x ← c; cmd_ret (b x)) Q.
Proof. intros Hc HQ. eapply safe_bind; [by apply safe_speaks|]. intros a _. by apply safe_ret. Qed.

(** ** States follow the environment *)
Lemma state_ok_role created planned s k id :
  state_ok created planned s → state_ok (<[k := KindRole]> created) planned (add_role k id s).
Proof. grow_state. Qed.

Lemma state_ok_channel created planned s k id :
  state_ok created planned s → state_ok (<[k := KindChannel]> created) planned (add_channel k id s).
Proof. grow_state. Qed.

Lemma state_ok_message created planned s k m :
  state_ok created planned s → state_ok (<[k := KindMessage]> created) planned (add_message k m s).
Proof. grow_state. Qed.

Lemma state_ok_instance created planned s k id :
  state_ok created planned s → state_ok (<[k := KindInstance]> created) planned (add_instance k id s).
Proof. grow_state. Qed.

#[local] Hint Resolve state_ok_role state_ok_channel state_ok_message state_ok_instance : core.

Lemma execute_prepared_ok event ruleset bindings context created planned index a p action guild s o :
  plan_action event ruleset bindings a = Some p → prepare_action index p context s = Ok action →
  state_ok created planned s →
  safe (execute_action guild action s o) (λ so, state_ok (action_created created a) planned so.1).
Proof.
  destruct a as [role []|content|modal|k name|k name|ch t al dn|k ch content bs| |content|k kind r|i];
    cbn [plan_action action_created]; intros Hp Hact Hs;
    repeat (apply bind_Some in Hp as (? & _ & Hp)); injection Hp as <-; cbn [prepare_action] in Hact;
    repeat (apply bind_Ok_inv in Hact as (? & _ & Hact)); injection Hact as <-; cbn [execute_action].
  all: try (apply safe_then; [apply Hspeak|]; cbn; by auto).
  - intros w. pose proof (speak_edit Hspeak x w) as He.
    destruct (svc_edit_response x w) as [[u|e] w']; cbn; [done|].
    destruct (run_teardowns o); [|done]. destruct He as [text Ht]. unfold runtime_failure. cbn. by rewrite Ht.
  - eapply safe_bind; [by apply safe_map_err|]. intros [] _. apply safe_ret. cbn. auto.
  - eapply safe_bind; [by apply safe_map_err|]. intros out _. by apply safe_ret.
Qed.

Lemma execute_steps_ok keys modal_keys planned event ruleset bindings context actions plan :
  context_ok inst keys context → plans event ruleset bindings actions plan →
  (∀ k kind r, RegisterInstance k kind r ∈ actions → k ∈ planned) →
  Forall (buttons_ok inst planned) actions →
  ∀ created index s o,
  actions_ok inst keys modal_keys created actions → state_ok created planned s →
  safe (execute_steps index plan context s o) (λ _, True).
Proof.
  intros Hctx Hplan. induction Hplan as [|a p actions plan Hp _ IH]; intros Hreg Hbs created index s o Hok Hs.
  - by apply safe_ret.
  - destruct Hok as [Ha Hok]. apply Forall_cons in Hbs as [Hb Hbs]. cbn [execute_steps].
    eapply (safe_bind _ _ (λ action, prepare_action index p context s = Ok action)).
    + apply safe_lift. destruct (prepare_action_ok inst keys modal_keys planned context Hctx
        event ruleset bindings s created index a p Hs Ha Hb) as [[action Hact]|He]; [|done|by left; eauto|by right].
      intros k kind r ->. apply (Hreg k kind r). left.
    + intros action Hact. eapply safe_bind; [by eapply execute_prepared_ok|].
      intros [s' o'] Hs'. eapply IH; [|done..]. intros k kind r Hin. apply (Hreg k kind r). by right.
Qed.

(** The ids drawn beforehand serve every instance the plan registers. *)
Lemma draw_ids_ok plan planned :
  safe (draw_ids plan planned) (λ m, (∀ k, is_Some (planned !! k) → is_Some (m !! k)) ∧
    ∀ k kind r, PlRegisterInstance k kind r ∈ plan → is_Some (m !! k)).
Proof.
  revert planned. induction plan as [|p plan IH]; intros planned.
  { apply safe_ret. split; [done|]. intros k kind r Hin. by apply not_elem_of_nil in Hin. }
  assert (Hskip : (∀ k kind r, p = PlRegisterInstance k kind r → is_Some (planned !! k)) →
    safe (draw_ids plan planned) (λ m, (∀ k, is_Some (planned !! k) → is_Some (m !! k)) ∧
    ∀ k kind r, PlRegisterInstance k kind r ∈ p :: plan → is_Some (m !! k))).
  { intros Hp. eapply safe_mono; [|apply IH]. intros m [H1 H2]. split; [done|].
    intros k kind r [Heq|Hin]%elem_of_cons; eauto. }
  destruct p as [| | | | | | | | |key kind res|]; cbn [draw_ids]; try (by apply Hskip).
  destruct (planned !! key) as [id|] eqn:Hk.
  { apply Hskip. intros k kind' r [= <- _ _]. by rewrite Hk. }
  eapply safe_bind; [by apply safe_map_err|]. intros id _.
  eapply safe_mono; [|apply IH]. intros m [H1 H2]. split.
  - intros k Hin. apply H1. destruct (decide (k = key)) as [->|];
      [rewrite lookup_insert_eq|rewrite lookup_insert_ne by done]; eauto.
  - intros k kind' r [[= -> _ _]|Hin]%elem_of_cons; [|eauto]. apply H1. rewrite lookup_insert_eq. eauto.
Qed.
End running.

(** ** What validation says of modals and rules *)
Lemma fields_pass_keys modal fields keys k :
  k ∈ (fields_pass modal fields keys).1 ↔ k ∈ keys ∨ k ∈ map mf_key fields.
Proof.
  revert keys. induction fields as [|f fields IH]; intros keys; cbn [fields_pass map].
  - split; [by left|]. intros [?|Hin]; [done|by apply not_elem_of_nil in Hin].
  - specialize (IH (set_insert (mf_key f) keys)). destruct (fields_pass modal fields _) as [keys' es].
    cbn in *. rewrite IH, elem_of_cons. unfold set_insert. set_solver.
Qed.

Lemma modals_pass_nil modals keys fields keys' fields' :
  modals_pass modals keys fields = (keys', fields', []) →
  (∀ m, m ∈ keys' → m ∈ keys ∨ ∃ spec, List.find (λ x, String.eqb (mo_key x) m) modals = Some spec) ∧
  (∀ m, m ∈ keys → fields' !! m = fields !! m) ∧
  ∀ m spec, List.find (λ x, String.eqb (mo_key x) m) modals = Some spec →
    fields' !! m = Some (fields_pass (mo_key spec) (mo_fields spec) ∅).1.
Proof.
  revert keys fields. induction modals as [|modal modals IH]; intros keys fields; cbn [modals_pass List.find].
  { intros [= <- <-]. split_and!; auto. done. }
  destruct (fields_pass (mo_key modal) (mo_fields modal) ∅) as [fk e1] eqn:Hf.
  destruct (modals_pass modals _ _) as [[k2 f2] e2] eqn:Hm. intros [= <- <- He].
  no_errors. subst e2. apply insert_errors_nil in H.
  destruct (IH _ _ Hm) as (H1 & H2 & H3). unfold set_insert in *. split_and!.
  - intros m Hin. destruct (String.eqb_spec (mo_key modal) m) as [<-|Hne]; [right; eauto|].
    destruct (H1 m Hin) as [Hk|Hs]; [left; set_solver|by right].
  - intros m Hin. rewrite H2 by set_solver. apply lookup_insert_ne. set_solver.
  - intros m spec. destruct (String.eqb_spec (mo_key modal) m) as [<-|Hne]; [|by apply H3].
    intros [= <-]. rewrite H2 by set_solver. by rewrite lookup_insert_eq, Hf.
Qed.

Lemma rules_pass_nil rules buttons modal_keys fields rule_keys components modals rule :
  rules_pass rules buttons modal_keys fields rule_keys components modals = [] → rule ∈ rules →
  rule_errors rule modal_keys fields = [] ∧
  ∀ m, ru_trigger rule = OnModalSubmit m → m ∈ modal_keys.
Proof.
  revert rule_keys components modals.
  induction rules as [|r rules IH]; intros rk cs ms He Hin; [by apply not_elem_of_nil in Hin|].
  cbn [rules_pass] in He. no_errors. apply elem_of_cons in Hin as [->|Hin]; [|by eapply IH].
  split; [done|]. intros m Hm. unfold trigger_errors in *. rewrite Hm in *. no_errors.
  match goal with Hb : negb _ = false |- _ => by apply negb_false_iff, bool_decide_eq_true in Hb end.
Qed.

Lemma normalize_fields_total modal inputs fields acc out k :
  normalize_fields modal inputs fields acc = Ok out → bt_sorted acc →
  is_Some (bt_get acc k) ∨ k ∈ map mf_key fields → is_Some (bt_get out k).
Proof.
  revert acc. induction fields as [|f fields IH]; intros acc; cbn [normalize_fields map].
  - intros [= <-] _ [?|Hin]; [done|by apply not_elem_of_nil in Hin].
  - intros (v & _ & Hr)%bind_Ok_inv Hs Hk. apply (IH _ Hr); [by apply bt_upsert_sorted|].
    rewrite elem_of_cons in Hk. destruct (decide (k = mf_key f)) as [->|Hne].
    + left. unfold bt_insert. rewrite bt_get_upsert_eq by done. eauto.
    + unfold bt_insert. rewrite bt_get_upsert_ne by done. naive_solver.
Qed.

Definition registers (actions : list ActionSpec) : gset string :=
  list_to_set (omap (λ a, match a with RegisterInstance k _ _ => Some k | _ => None end) actions).

Lemma registers_spec actions k :
  k ∈ registers actions ↔ ∃ kind r, RegisterInstance k kind r ∈ actions.
Proof.
  unfold registers. rewrite elem_of_list_to_set, list_elem_of_omap. split.
  - intros ([] & Hin & [= ->]). eauto.
  - intros (kind & r & Hin). by exists (RegisterInstance k kind r).
Qed.

(** What a validated rule set offers to the event that triggers one of its rules. *)
Record rule_valid (ruleset : InteractionRuleSet) (bindings : ResourceBindingMap) (rule : InteractionRule)
    (modal_keys : gset string) (fields : gmap string (gset string)) : Prop := {
  rv_actions : actions_ok (is_instance_rule rule) (rule_inputs rule fields) modal_keys ∅ (ru_actions rule);
  rv_conflict : existsb is_register (ru_actions rule) && existsb is_teardown (ru_actions rule) = false;
  rv_footprint : check_instance_footprint rule = [];
  rv_responses : response_errors rule = [];
  rv_bindings a : a ∈ ru_actions rule → binding_errors bindings (ru_key rule) a = [];
  rv_modal m : ru_trigger rule = OnModalSubmit m → m ∈ modal_keys
}.

Lemma validated ruleset bindings :
  automation_validate ruleset bindings = Ok tt →
  ∃ modal_keys fields, modals_found ruleset modal_keys ∧
    (∀ m spec, List.find (λ x, String.eqb (mo_key x) m) (rs_modals ruleset) = Some spec →
      ∀ fs k, fields !! m = Some fs → k ∈ fs → k ∈ map mf_key (mo_fields spec)) ∧
    ∀ rule, rule ∈ rs_rules ruleset → rule_valid ruleset bindings rule modal_keys fields.
Proof.
  unfold automation_validate. rewrite errors_result_Ok. intros He. no_errors.
  assert (Hst : structural_errors ruleset = []).
  { revert H. unfold validate_structural. by destruct (structural_errors ruleset). }
  assert (Hbind : bindings_errors ruleset bindings = []).
  { revert He. unfold validate_bindings. by destruct (bindings_errors ruleset bindings). }
  unfold structural_errors in Hst. destruct (panels_pass _ _ _) as [bk1 e1].
  destruct (posted_panels_pass _ _) as [bk e2].
  destruct (modals_pass (rs_modals ruleset) ∅ ∅) as [[modal_keys fields] e3] eqn:Hm. no_errors. subst.
  destruct (modals_pass_nil _ _ _ _ _ Hm) as (H4 & _ & H5).
  exists modal_keys, fields. split_and!.
  - intros m Hin. destruct (H4 m Hin) as [Hn|]; [by apply not_elem_of_empty in Hn|done].
  - intros m spec Hspec fs k Hfs Hk. rewrite (H5 _ _ Hspec) in Hfs. injection Hfs as <-.
    apply fields_pass_keys in Hk as [Hn|]; [by apply not_elem_of_empty in Hn|done].
  - intros rule Hin. destruct (rules_pass_nil _ _ _ _ _ _ _ _ Hst Hin) as [Hr Hmod].
    unfold bindings_errors in Hbind. rewrite bind_nil in Hbind. specialize (Hbind rule Hin).
    rewrite bind_nil in Hbind. unfold rule_errors in Hr. no_errors.
    split; auto. by apply actions_pass_nil.
Qed.

(** ** Events *)
Section events.
Context {W : Type} `{AutomationServices W} (Hspeak : services_speak W).

Lemma plans_registers event ruleset bindings actions plan k :
  plans event ruleset bindings actions plan → k ∈ registers actions →
  ∃ kind r, PlRegisterInstance k kind r ∈ plan.
Proof.
  rewrite registers_spec. intros Hp (kind & r & Hin). exists kind, r.
  apply list_elem_of_lookup in Hin as [i Hi].
  destruct (Forall2_lookup_l _ _ _ _ _ Hp Hi) as (p & Hpl & [= <-]).
  by eapply list_elem_of_lookup_2.
Qed.

Lemma execute_plan_ok inst keys modal_keys event ruleset bindings context actions plan :
  context_ok inst keys context → plans event ruleset bindings actions plan →
  Forall (buttons_ok inst (registers actions)) actions →
  actions_ok inst keys modal_keys ∅ actions → safe inst (execute_plan context plan) (λ _, True).
Proof.
  intros Hctx Hp Hbs Hok. eapply (safe_bind _ _ _ (state_ok ∅ (registers actions))).
  - eapply safe_bind; [apply draw_ids_ok|]. intros m [_ Hm]. apply safe_ret.
    split; try done. intros k (kind & r & Hin)%(plans_registers _ _ _ _ _ _ Hp). by apply (Hm k kind r).
  - intros s Hs. eapply safe_bind; [|intros so _; by apply safe_ret].
    eapply (execute_steps_ok Hspeak inst); try done.
    intros k kind r Hin. apply registers_spec. eauto.
Qed.

Lemma execute_prepared_event_ok inst prepared failure :
  safe inst (execute_plan (pe_context prepared) (pe_plan prepared)) (λ _, True) →
  safe inst (execute_prepared_event prepared failure) (λ _, True).
Proof.
  intros Hplan. eapply (safe_bind _ _ _ (λ _, True)).
  - destruct (pe_leading_defer_ephemeral prepared); [apply safe_speaks, Hspeak|by apply safe_ret].
  - intros [] _ w. unfold execute_or_report. specialize (Hplan w).
    destruct (execute_plan _ _ w) as [[x|e] w']; [done|].
    destruct (pe_leading_defer_ephemeral prepared); [|done].
    by destruct (prepare_failure_message _ _).
Qed.
End events.

(** The buttons a rule set posts name the event's instance only in instance rules,
    and created instances only where the same rule registers them. *)
Definition posted_instances_registered (ruleset : InteractionRuleSet) : Prop :=
  ∀ rule, rule ∈ rs_rules ruleset →
    Forall (buttons_ok (is_instance_rule rule) (registers (ru_actions rule))) (ru_actions rule).

Lemma find_rule event ruleset rule :
  List.find (λ r, trigger_matches (ru_trigger r) (ev_kind event)) (rs_rules ruleset) = Some rule →
  rule ∈ rs_rules ruleset ∧ trigger_matches (ru_trigger rule) (ev_kind event) = true.
Proof. intros [Hin Hm]%find_some. split; [by apply list_elem_of_In|done]. Qed.

(** The context a prepared event runs in. *)
Lemma prepared_context event ruleset bindings identity modal_keys fields rule normalized :
  modals_found ruleset modal_keys →
  (∀ m spec, List.find (λ x, String.eqb (mo_key x) m) (rs_modals ruleset) = Some spec →
    ∀ fs k, fields !! m = Some fs → k ∈ fs → k ∈ map mf_key (mo_fields spec)) →
  rule_valid ruleset bindings rule modal_keys fields → rule ∈ rs_rules ruleset →
  trigger_matches (ru_trigger rule) (ev_kind event) = true → is_instance_rule rule = false →
  normalize_modal_submit_inputs event ruleset = Ok normalized →
  let context := context_from_event event identity in
  context_ok false (rule_inputs rule fields)
    match normalized with Some inputs => set_inputs inputs context | None => context end.
Proof.
  intros Hmod Hfields Hv Hin Ht Hinst Hn. split; [|done]. unfold rule_inputs, is_instance_rule in *.
  destruct (ru_trigger rule) as [c|modal|a] eqn:Htr; try done.
  intros k (fs & Hfs & Hk). destruct (ev_kind event) as [|m inputs|] eqn:Hev; try done.
  apply String.eqb_eq in Ht as <-. unfold normalize_modal_submit_inputs in Hn. rewrite Hev in Hn.
  assert (He : existsb (modal_trigger modal) (rs_rules ruleset) = true).
  { apply existsb_exists. exists rule. split; [by apply list_elem_of_In|].
    unfold modal_trigger. rewrite Htr. apply String.eqb_refl. }
  rewrite He in Hn. cbn [negb] in Hn. destruct (Hmod _ (rv_modal _ _ _ _ _ Hv _ Htr)) as [spec Hspec].
  rewrite Hspec in Hn. apply bind_Ok_inv in Hn as (spec' & [= <-] & Hn).
  apply bind_Ok_inv in Hn as (out & Hout & [= <-]). cbn. unfold normalize_inputs in Hout.
  destruct (List.find _ _) in Hout; [done|].
  eapply normalize_fields_total; [exact Hout|constructor|]. right. by eapply Hfields.
Qed.

Lemma normalize_failure event ruleset modal_keys e :
  modals_found ruleset modal_keys →
  (∀ rule m, rule ∈ rs_rules ruleset → ru_trigger rule = OnModalSubmit m → m ∈ modal_keys) →
  normalize_modal_submit_inputs event ruleset = Err e → ∀ m, e ≠ ModalDefinitionMissing m.
Proof.
  intros Hmod Hr. unfold normalize_modal_submit_inputs. destruct (ev_kind event) as [|modal inputs|]; try done.
  destruct (existsb _ _) eqn:Hex; [|done]. apply existsb_exists in Hex as (rule & Hin & Hm).
  unfold modal_trigger in Hm. destruct (ru_trigger rule) as [|m'|] eqn:Ht; try done.
  apply String.eqb_eq in Hm as ->. apply list_elem_of_In in Hin.
  destruct (Hmod _ (Hr _ _ Hin Ht)) as [spec Hspec]. cbn [negb]. rewrite Hspec. cbn.
  destruct (normalize_inputs spec inputs) as [x|e'] eqn:Hn; [done|]. intros [= <-] m ->.
  unfold normalize_inputs in Hn. destruct (List.find _ _) in Hn; [done|]. revert Hn. generalize (@nil (string * string)).
  induction (mo_fields spec) as [|f fields IH]; intros acc Hn; [done|]. cbn [normalize_fields] in Hn.
  destruct (normalize_field (mo_key spec) inputs f) as [v|e] eqn:Hv; [by eapply IH|].
  injection Hn as ->. unfold normalize_field, ensure in Hv. by repeat case_match; simplify_eq.
Qed.

Lemma mapM_plans event ruleset bindings actions plan :
  mapM (plan_action event ruleset bindings) actions = Some plan → plans event ruleset bindings actions plan.
Proof. apply mapM_Some_1. Qed.

(** What is left to run after the preparation: all of the rule, or all but a leading
    deferral. *)
Lemma prepared_suffix event ruleset bindings actions plan context :
  plans event ruleset bindings actions plan →
  ∃ rest steps leading,
    match plan with
    | PlDeferEphemeral :: steps => Ok (Some (mkPrepared context steps true))
    | steps => Ok (Some (mkPrepared context steps false))
    end = Ok (E := AdapterError) (Some (mkPrepared context steps leading)) ∧
    plans event ruleset bindings rest steps ∧ (actions = rest ∨ actions = DeferEphemeral :: rest).
Proof.
  intros Hp. destruct Hp as [|a p actions plan Hap Hp]; [exists [], [], false; split_and!; auto; constructor|].
  assert (p = PlDeferEphemeral ∨ p ≠ PlDeferEphemeral) as [-> | Hne] by (destruct p; auto).
  - exists actions, plan, true. split_and!; auto. right. f_equal.
    destruct a as [? []| | | | | | | | | |]; cbn in Hap;
      repeat (apply bind_Some in Hap as (? & _ & Hap)); by simplify_eq.
  - exists (a :: actions), (p :: plan), false. split_and!; auto; [by destruct p|by constructor].
Qed.

(** The suffix starts from the same environment. *)
Lemma suffix_ok inst keys modal_keys actions rest :
  actions = rest ∨ actions = DeferEphemeral :: rest → actions_ok inst keys modal_keys ∅ actions →
  actions_ok inst keys modal_keys ∅ rest.
Proof. intros [-> | ->]; [done|]. by intros [_ ?]. Qed.

Lemma suffix_buttons inst actions rest :
  actions = rest ∨ actions = DeferEphemeral :: rest →
  Forall (buttons_ok inst (registers actions)) actions → Forall (buttons_ok inst (registers rest)) rest.
Proof. intros [-> | ->]; [done|]. by intros [_ ?]%Forall_cons. Qed.

(** The two parts of the preparation of a click or a submission. *)
Lemma prepare_event_split event ruleset bindings identity :
  (∀ id action, ev_kind event ≠ EvInstanceAction id action) →
  prepare_event_execution event ruleset bindings identity =
    (normalized ← map_err (λ e, bad_request (MsgModalInput e)) (normalize_modal_submit_inputs event ruleset);
     let context := context_from_event event identity in
     let context' := match normalized with Some inputs => set_inputs inputs context | None => context end in
     match interpret event ruleset bindings with
     | None => Ok None
     | Some (PlDeferEphemeral :: steps) => Ok (Some (mkPrepared context' steps true))
     | Some steps => Ok (Some (mkPrepared context' steps false))
     end).
Proof.
  intros Hev. unfold prepare_event_execution. destruct (ev_kind event) as [| |id action]; try done.
  by destruct (Hev id action).
Qed.

Lemma no_rule event ruleset :
  List.find (λ r, trigger_matches (ru_trigger r) (ev_kind event)) (rs_rules ruleset) = None ↔
  Forall (λ r, trigger_matches (ru_trigger r) (ev_kind event) = false) (rs_rules ruleset).
Proof.
  rewrite List.Forall_forall. split; [|].
  - intros Hn r. by apply (find_none _ _ Hn).
  - intros Hall. destruct (List.find _ _) as [r|] eqn:Hf; [|done].
    apply find_some in Hf as [Hin Hm]. rewrite (Hall r Hin) in Hm. done.
Qed.

Lemma handled_events_safe {W} `{AutomationServices W} ruleset bindings event failure identity :
  services_speak W → automation_validate ruleset bindings = Ok tt → posted_instances_registered ruleset →
  (∀ id action, ev_kind event ≠ EvInstanceAction id action) →
  safe false (handle_event event ruleset bindings failure identity) (λ outcome,
    outcome = HandleNoOp ↔ Forall (λ r, trigger_matches (ru_trigger r) (ev_kind event) = false) (rs_rules ruleset)).
Proof.
  intros Hspeak (modal_keys & fields & Hmod & Hf & Hrules)%validated Hposted Hev.
  unfold handle_event. rewrite (prepare_event_split _ _ _ _ Hev).
  eapply safe_mono; [intros outcome Ho; rewrite <- no_rule; exact Ho|]. cbv beta.
  destruct (normalize_modal_submit_inputs event ruleset) as [normalized|e] eqn:Hn; cycle 1.
  { eapply (safe_bind _ _ _ (λ _, False)); [|done]. apply safe_lift. right. eexists. split; [done|].
    pose proof (normalize_failure event ruleset modal_keys e Hmod
      (λ r m Hin, rv_modal _ _ _ _ _ (Hrules r Hin) m) Hn) as He.
    destruct e; try done. exfalso. by eapply He. }
  cbn [map_err mbind Result_bind]. unfold interpret.
  destruct (List.find _ (rs_rules ruleset)) as [rule|] eqn:Hr; [|by intros w].
  destruct (find_rule _ _ _ Hr) as [Hin Ht]. pose proof (Hrules rule Hin) as Hv.
  assert (Hinst : is_instance_rule rule = false).
  { unfold is_instance_rule. destruct (ru_trigger rule), (ev_kind event) eqn:Hk; try done.
    by destruct (Hev instance_id action0). }
  pose proof (prepared_context event ruleset bindings identity modal_keys fields rule normalized
    Hmod Hf Hv Hin Ht Hinst Hn) as Hctx.
  pose proof (rv_actions _ _ _ _ _ Hv) as Hok. pose proof (Hposted rule Hin) as Hb.
  rewrite Hinst in Hok, Hb. cbv zeta in Hctx. cbn [mbind option_bind].
  destruct (plan_actions_total event ruleset bindings (ru_key rule) _ _ _ _ _ Hmod
    (rv_bindings _ _ _ _ _ Hv) Hok) as [plan Hplan]. rewrite Hplan.
  destruct (prepared_suffix _ _ _ _ _ (match normalized with Some inputs => set_inputs inputs
    (context_from_event event identity) | None => context_from_event event identity end)
    (mapM_plans _ _ _ _ _ Hplan)) as (rest & steps & leading & Heq & Hp & Hrest).
  cbv zeta. rewrite Heq. eapply (safe_bind _ _ _ (λ p, p = Some _)); [apply safe_lift; eauto|].
  intros _ ->. eapply safe_bind; [|by intros [] _; apply safe_ret].
  apply (execute_prepared_event_ok Hspeak).
  eapply (execute_plan_ok Hspeak); [exact Hctx|exact Hp|by eapply suffix_buttons|by eapply suffix_ok].
Qed.

(** C6: Validation is a sound type system for interaction rules. For a rule set that
    passes [validate] (and whose posted buttons name registered instances), handling
    a click or a modal submission, whatever the services answer, either runs the
    rule the event triggers, or does nothing because there is none, or fails for a
    reason that only exists at run time: a service's own refusal, user input that
    breaks the field's rules, or a rendered text that is empty or too long. No
    reference is dangling, no template input is missing, no rule is dropped. *)
Theorem validated_events_cannot_go_wrong {W} `{AutomationServices W} ruleset bindings event failure identity :
  services_speak W → automation_validate ruleset bindings = Ok tt → posted_instances_registered ruleset →
  (∀ id action, ev_kind event ≠ EvInstanceAction id action) →
  safe false (handle_event event ruleset bindings failure identity) (λ outcome,
    outcome = HandleNoOp ↔ Forall (λ r, trigger_matches (ru_trigger r) (ev_kind event) = false) (rs_rules ruleset)).
Proof. intros ????. by apply handled_events_safe. Qed.
