(* ===== verification/AutomationFootprint.v ===== *)
(** * A registered instance owns what its rule created

    The footprint check of [validate] ties the resources a rule creates to the
    manifest of the instance it registers. Followed through the execution of the
    plan, it means that the stored instance lists every role, channel and message
    the run made, so that tearing the instance down later removes all of them. *)

From Stdlib Require Import ZArith Lia Ascii String.
From stdpp Require Import base decidable list strings gmap numbers sets.
From S2P Require Import Prelude RustStd RustText DiscordModel Resolution Instance InstanceStore Teardown TeardownSpec AutomationState AutomationPlan Template AutomationValidate AutomationExec AutomationSound.
Open Scope Z_scope.

(** ** Reading the footprint check *)
Lemma position_from_Some n actions i :
  position_from n actions = Some i →
  ∃ pre a post, actions = pre ++ a :: post ∧ i = (n + length pre)%nat ∧ is_register a = true ∧
    Forall (λ b, is_register b = false) pre.
Proof.
  revert n. induction actions as [|a actions IH]; intros n; cbn; [done|].
  destruct (is_register a) eqn:Ha.
  - intros [= <-]. exists [], a, actions. split_and!; auto; cbn; lia.
  - intros (pre & b & post & -> & -> & Hb & Hpre)%IH. exists (a :: pre), b, post.
    split_and!; auto; cbn; lia.
Qed.

Lemma position_from_None n actions :
  position_from n actions = None → Forall (λ b, is_register b = false) actions.
Proof.
  revert n. induction actions as [|a actions IH]; intros n; cbn; [constructor|].
  destruct (is_register a) eqn:Ha; [done|]. intros Hn. constructor; eauto.
Qed.

Lemma produced_after_app first n l1 l2 :
  produced_after first n (l1 ++ l2) = produced_after first n l1 ++ produced_after first (n + length l1) l2.
Proof.
  revert n. induction l1 as [|a l1 IH]; intros n; cbn [produced_after app length].
  - by rewrite Nat.add_0_r.
  - rewrite IH, app_assoc. by rewrite Nat.add_succ_comm.
Qed.

Lemma produced_after_nil first n actions :
  (first < n)%nat → produced_after first n actions = [] → Forall (λ a, produced a = None) actions.
Proof.
  revert n. induction actions as [|a actions IH]; intros n Hn; cbn; [constructor|].
  intros [Ha Hr]%app_nil. constructor; [|eapply IH; [|done]; lia].
  destruct (produced a) as [[k kind]|]; [|done]. apply error_if_nil, bool_decide_eq_false in Ha. lia.
Qed.

Lemma ownable_complete actions a k kind :
  a ∈ actions → produced a = Some (k, kind) → ∃ kind', (k, kind') ∈ ownable actions.
Proof.
  intros Hin Hp. unfold ownable.
  assert (Hgen : ∀ m, bt_sorted m → a ∈ actions ∨ is_Some (bt_get m k) →
    let out := foldl (λ m a, match produced a with Some (k, kind) => bt_insert k kind m | None => m end) m actions in
    bt_sorted out ∧ is_Some (bt_get out k)).
  { clear Hin. induction actions as [|b actions IH]; intros m Hm Hor; cbn.
    - split; [done|]. destruct Hor as [Hin|]; [by apply not_elem_of_nil in Hin|done].
    - apply IH; [destruct (produced b) as [[]|]; [by apply bt_upsert_sorted|done]|].
      destruct Hor as [[<-|?]%elem_of_cons|[v Hv]]; [right; rewrite Hp|by left|right].
      + unfold bt_insert. rewrite bt_get_upsert_eq by done. eauto.
      + destruct (produced b) as [[k' kind']|]; [|eauto]. unfold bt_insert.
        destruct (decide (k = k')) as [->|]; [rewrite bt_get_upsert_eq by done; eauto|].
        rewrite bt_get_upsert_ne by done. eauto. }
  destruct (Hgen [] ltac:(constructor) ltac:(by left)) as [Hs [kind' Hk]].
  exists kind'. by apply bt_get_elem.
Qed.

Lemma manifest_counts_sound actions k :
  is_some (bt_get (manifest_counts actions) k) = true → k ∈ actions ≫= manifest_refs.
Proof.
  unfold manifest_counts. generalize (actions ≫= manifest_refs). intros refs.
  assert (Hgen : ∀ m, is_some (bt_get (foldl (λ m k, bt_upsert (λ n, default 0 n + 1) k m) m refs) k) = true →
    k ∈ refs ∨ is_some (bt_get m k) = true).
  { induction refs as [|k' refs IH]; intros m Hk; [by right|]. cbn in Hk.
    destruct (IH _ Hk) as [?|Hm]; [by left; right|]. destruct (decide (k' = k)) as [->|]; [by left; left|].
    rewrite bt_get_upsert_ne in Hm by done. by right. }
  intros [?|?]%Hgen; done.
Qed.

(** Everything a rule produces is produced before its one registration and listed
    in that registration's manifest. *)
Lemma footprint_split rule :
  check_instance_footprint rule = [] → existsb is_register (ru_actions rule) = true →
  ∃ pre k kind r post, ru_actions rule = pre ++ RegisterInstance k kind r :: post ∧
    Forall (λ a, is_register a = false) pre ∧
    Forall (λ a, is_register a = false ∧ produced a = None) post ∧
    ∀ a key kd, a ∈ pre → produced a = Some (key, kd) → key ∈ manifest_refs (RegisterInstance k kind r).
Proof.
  unfold check_instance_footprint. intros Hf Hex.
  destruct (position_from 0 (ru_actions rule)) as [first|] eqn:Hpos; cycle 1.
  { apply position_from_None in Hpos. apply existsb_exists in Hex as (a & Ha%list_elem_of_In & Hr).
    rewrite Forall_forall in Hpos. by rewrite Hpos in Hr. }
  apply position_from_Some in Hpos as (pre & a & post & Hacts & -> & Ha & Hpre). no_errors.
  destruct a as [| | | | | | | | |k kind r|]; try done. rewrite Hacts in *.
  exists pre, k, kind, r, post.
  assert (Hpost : Forall (λ a, is_register a = false) post).
  { apply bool_decide_eq_false in H. rewrite filter_app, length_app, filter_cons_True in H by done. cbn in H.
    apply Forall_forall. intros b Hb. destruct (is_register b) eqn:Hr; [|done].
    assert (b ∈ filter (λ a, is_register a) post) as Hin%list_elem_of_lookup
      by (apply list_elem_of_filter; by rewrite Hr).
    destruct Hin as [i Hi%lookup_lt_Some]. lia. }
  split_and!; auto.
  - apply Forall_and. split; [done|].
    rewrite produced_after_app in H0. apply app_nil in H0 as [_ H0]. cbn in H0.
    eapply produced_after_nil, H0. lia.
  - intros b key kd Hb Hp. rewrite bind_nil in H1.
    destruct (ownable_complete (pre ++ RegisterInstance k kind r :: post) b key kd) as [kd' Hown];
      [apply elem_of_app; by left|done|].
    specialize (H1 _ Hown). cbn in H1. apply error_if_nil, negb_false_iff, manifest_counts_sound in H1.
    rewrite bind_app in H1. cbn in H1.
    assert (Hnone : ∀ l, Forall (λ a, is_register a = false) l → l ≫= manifest_refs = []).
    { intros l Hl. apply bind_nil. rewrite Forall_forall in Hl. intros x Hx%Hl. by destruct x. }
    rewrite (Hnone pre Hpre), (Hnone post Hpost), app_nil_r in H1. done.
Qed.

(** ** Services over the in-memory instance store *)
Class RegistryView (W : Type) `{AutomationServices W} := {
  registry : W → InMemoryInstanceStore;
  registry_register i w : (svc_register_instance i w).1 = (register i (registry w)).1 ∧
    registry (svc_register_instance i w).2 = (register i (registry w)).2;
  registry_grant g u r w : registry (svc_grant_role g u r w).2 = registry w;
  registry_channel g n w : registry (svc_create_channel g n w).2 = registry w;
  registry_role g n w : registry (svc_create_role g n w).2 = registry w;
  registry_overwrite g c t al dn w : registry (svc_upsert_overwrite g c t al dn w).2 = registry w;
  registry_panel g c p w : registry (svc_post_panel g c p w).2 = registry w;
  registry_respond t w : registry (svc_respond_ephemeral t w).2 = registry w;
  registry_modal m w : registry (svc_open_modal m w).2 = registry w;
  registry_defer w : registry (svc_defer_ephemeral w).2 = registry w;
  registry_edit t w : registry (svc_edit_response t w).2 = registry w;
  registry_generate w : registry (svc_generate w).2 = registry w
}.

Section footprint.
Context {W : Type} `{RegistryView W}.
Implicit Types (w : W) (s : ExecutionState) (o : RunResult).

Lemma map_err_run {E A} (f : E → AdapterError) (c : Cmd W E A) w a w' :
  cmd_map_err f c w = (Ok a, w') → c w = (Ok a, w').
Proof. unfold cmd_map_err. destruct (c w) as [[x|e] w1]; cbn; congruence. Qed.

Lemma execute_steps_app context l1 l2 index s o w x w' :
  execute_steps index (l1 ++ l2) context s o w = (Ok x, w') →
  ∃ s1 o1 w1 index1, execute_steps index l1 context s o w = (Ok (s1, o1), w1) ∧
    execute_steps index1 l2 context s1 o1 w1 = (Ok x, w').
Proof.
  revert index s o w. induction l1 as [|p l1 IH]; intros index s o w; cbn [app execute_steps]; [eauto 10|].
  intros (a & w1 & H1 & Hr)%cmd_bind_Ok_inv. apply cmd_bind_Ok_inv in Hr as ([s1 o1] & w2 & H2 & Hr).
  destruct (IH _ _ _ _ Hr) as (s2 & o2 & w3 & i2 & H3 & H4). exists s2, o2, w3, i2. split; [|done].
  unfold mbind, Cmd_bind, cmd_bind. rewrite H1, H2. done.
Qed.

(** The results so far are those the state records, under keys of their kind. *)
Definition recorded (created : gmap string CreatedKind) s (c : CreatedResource) : Prop :=
  match c with
  | MadeRole _ k _ id => created !! k = Some KindRole ∧ created_roles s !! k = Some id
  | MadeChannel _ k _ id => created !! k = Some KindChannel ∧ created_channels s !! k = Some id
  | MadeMessage _ k ch id =>
      created !! k = Some KindMessage ∧ created_messages s !! k = Some (mkMessageRef ch id)
  | MadeInstance _ k id => created !! k = Some KindInstance ∧ created_instances s !! k = Some id
  end.

Definition faithful (created : gmap string CreatedKind) s o : Prop :=
  ∀ c, c ∈ run_created o → recorded created s c.

Lemma faithful_push created created' s s' o c :
  faithful created s o → (∀ d, recorded created s d → recorded created' s' d) →
  recorded created' s' c → faithful created' s' (push_created c o).
Proof.
  intros Hf Hmono Hc d. cbn. intros [Hd|Hd]%elem_of_app; [by apply Hmono, Hf|].
  by apply list_elem_of_singleton in Hd as ->.
Qed.

Ltac fresh_key :=
  intros [] [? ?]; cbn; rewrite ?lookup_insert_ne by (intros ->; congruence); done.

Lemma execute_action_faithful inst keys modal_keys event ruleset bindings context created index a p action
    guild s o s' o' w w' :
  action_ok inst keys modal_keys created a → plan_action event ruleset bindings a = Some p →
  prepare_action index p context s = Ok action → faithful created s o →
  execute_action guild action s o w = (Ok (s', o'), w') → faithful (action_created created a) s' o'.
Proof.
  destruct a as [role []|content|modal|k name|k name|ch t al dn|k ch content bs| |content|k kind r|i];
    cbn [plan_action action_created action_ok]; intros Hok Hp Hact Hf;
    repeat (apply bind_Some in Hp as (? & _ & Hp)); injection Hp as <-; cbn [prepare_action] in Hact;
    repeat (apply bind_Ok_inv in Hact as (? & _ & Hact)); injection Hact as <-; cbn [execute_action].
  9: { destruct (svc_edit_response _ w) as [[]?]; [by intros [= <- <-]|].
       destruct (run_teardowns o); by intros [= <- <-]. }
  all: intros (y & w1 & Hy & [= <- <- _])%cmd_bind_Ok_inv; try done.
  all: destruct Hok as [Hk _].
  all: eapply faithful_push; [exact Hf|fresh_key|]; cbn; by rewrite !lookup_insert_eq.
Qed.

Lemma execute_steps_faithful inst keys modal_keys event ruleset bindings context actions plan :
  plans event ruleset bindings actions plan → ∀ created index s o w s' o' w',
  actions_ok inst keys modal_keys created actions → faithful created s o →
  execute_steps index plan context s o w = (Ok (s', o'), w') →
  faithful (foldl action_created created actions) s' o'.
Proof.
  induction 1 as [|a p actions plan Hp _ IH]; intros created index s o w s' o' w' Hok Hf; cbn [execute_steps].
  - by intros [= <- <- _].
  - intros (action & w1 & Hact & Hr)%cmd_bind_Ok_inv. apply cmd_bind_Ok_inv in Hr as ([s1 o1] & w2 & H1 & Hr).
    injection Hact as Hact <-. destruct Hok as [Ha Hok].
    eapply IH; [done| |exact Hr]. by eapply execute_action_faithful.
Qed.

Lemma bind_registry {A B} (c : Cmd W AdapterError A) (b : A → B) w :
  registry ((x ← c; cmd_ret (b x)) w).2 = registry (c w).2.
Proof. unfold mbind, Cmd_bind, cmd_bind. by destruct (c w) as [[] ?]. Qed.

(** What a step other than a registration or a teardown leaves alone. *)
Lemma execute_action_quiet event ruleset bindings context index a p action guild s o s' o' w w' :
  plan_action event ruleset bindings a = Some p → prepare_action index p context s = Ok action →
  is_register a = false → is_teardown a = false →
  execute_action guild action s o w = (Ok (s', o'), w') →
  registry w' = registry w ∧ (produced a = None → run_created o' = run_created o).
Proof.
  destruct a as [role []|content|modal|k name|k name|ch t al dn|k ch content bs| |content|k kind r|i];
    try done; cbn [plan_action]; intros Hp Hact _ _;
    repeat (apply bind_Some in Hp as (? & _ & Hp)); injection Hp as <-; cbn [prepare_action] in Hact;
    repeat (apply bind_Ok_inv in Hact as (? & _ & Hact)); injection Hact as <-; cbn [execute_action].
  9: { intros Hw. pose proof (registry_edit x w) as Hv. revert Hw Hv.
       destruct (svc_edit_response _ w) as [[]?]; [by intros [= <- <- <-]|].
       destruct (run_teardowns o); by intros [= <- <- <-]. }
  all: intros Hw; pose proof (f_equal (λ x, registry x.2) Hw) as Hv; cbn in Hv; rewrite bind_registry in Hv;
    apply cmd_bind_Ok_inv in Hw as (y & w1 & _ & [= <- <- _]); split; [rewrite <- Hv|done].
  - apply registry_grant.
  - apply registry_respond.
  - apply registry_modal.
  - apply registry_channel.
  - apply registry_role.
  - apply registry_overwrite.
  - apply registry_panel.
  - apply registry_defer.
Qed.

Lemma execute_steps_quiet event ruleset bindings context actions plan :
  plans event ruleset bindings actions plan →
  Forall (λ a, is_register a = false) actions → Forall (λ a, is_teardown a = false) actions →
  ∀ index s o w s' o' w', execute_steps index plan context s o w = (Ok (s', o'), w') →
  registry w' = registry w ∧ (Forall (λ a, produced a = None) actions → run_created o' = run_created o).
Proof.
  induction 1 as [|a p actions plan Hp _ IH]; intros Hreg Htd index s o w s' o' w'; cbn [execute_steps].
  - by intros [= <- <- <-].
  - intros (action & w1 & Hact & Hr)%cmd_bind_Ok_inv. apply cmd_bind_Ok_inv in Hr as ([s1 o1] & w2 & H1 & Hr).
    injection Hact as Hact <-. apply Forall_cons in Hreg as [Ha Hreg], Htd as [Hta Htd].
    destruct (execute_action_quiet _ _ _ _ _ _ _ _ _ _ _ _ _ _ _ Hp Hact Ha Hta H1) as [Hv Hc].
    destruct (IH Hreg Htd _ _ _ _ _ _ _ Hr) as [Hv' Hc']. split; [congruence|].
    intros [Hpa Hps]%Forall_cons. rewrite Hc' by done. auto.
Qed.

(** A resolved manifest has an entry for each reference. *)
Lemma resolve_refs_spec {A} (m : gmap string A) refs acc out :
  resolve_refs m refs acc = Ok out → bt_sorted acc → NoDup refs.*1 →
  bt_sorted out ∧
  (∀ alias x, alias ∉ refs.*1 → (alias, x) ∈ acc → (alias, x) ∈ out) ∧
  ∀ alias k x, (alias, k) ∈ refs → m !! k = Some x → (alias, x) ∈ out.
Proof.
  revert acc. induction refs as [|[alias k] refs IH]; intros acc; cbn [resolve_refs].
  { intros [= <-] Hs _. split_and!; auto. intros ? ? ? Hin. by apply not_elem_of_nil in Hin. }
  intros (x & Hx & Hr)%bind_Ok_inv Hs [Hn Hd]%NoDup_cons.
  apply ok_or_Ok_inv in Hx.
  destruct (IH _ Hr (bt_upsert_sorted _ _ _ Hs) Hd) as (Hso & Hkeep & Hall). split_and!; [done| |].
  - intros alias' y Hna Hin. apply Hkeep; [set_solver|]. apply bt_get_elem; [by apply bt_upsert_sorted|].
    unfold bt_insert. rewrite bt_get_upsert_ne by set_solver. by apply bt_get_elem.
  - intros alias' k' y [[= -> ->]|Hin]%elem_of_cons Hy; [|by eapply Hall].
    apply Hkeep; [done|]. apply bt_get_elem; [by apply bt_upsert_sorted|].
    unfold bt_insert. rewrite bt_get_upsert_eq by done. congruence.
Qed.

Definition aliases_distinct (r : InstanceResourceRefs) : Prop :=
  NoDup (rr_roles r).*1 ∧ NoDup (rr_channels r).*1 ∧ NoDup (rr_messages r).*1.

(** The instance lists a result of the run. *)
Definition owned (instance : AutomationInstance) (c : CreatedResource) : Prop :=
  match c with
  | MadeRole _ _ _ id => ∃ alias, ResRole alias id ∈ manifest (ai_resources instance)
  | MadeChannel _ _ _ id => ∃ alias, ResChannel alias id ∈ manifest (ai_resources instance)
  | MadeMessage _ _ ch id => ∃ alias, ResMessage alias ch id ∈ manifest (ai_resources instance)
  | MadeInstance _ _ id => id = ai_id instance
  end.

Lemma refs_key refs (k : string) : k ∈ refs.*2 → ∃ alias : string, (alias, k) ∈ refs.
Proof. intros ([alias k'] & -> & Hin)%list_elem_of_fmap. eauto. Qed.

Lemma manifest_owns created s r resources instance c :
  resolve_manifest s r = Ok resources → ai_resources instance = resources →
  manifest_ok created r → aliases_distinct r → recorded created s c →
  match c with
  | MadeRole _ k _ _ | MadeChannel _ k _ _ | MadeMessage _ k _ _ =>
      k ∈ (rr_roles r).*2 ++ (rr_channels r).*2 ++ (rr_messages r).*2
  | MadeInstance _ _ _ => False
  end → owned instance c.
Proof.
  unfold resolve_manifest. intros (l1 & H1 & Hr)%bind_Ok_inv Hres (M1 & M2 & M3) (D1 & D2 & D3).
  apply bind_Ok_inv in Hr as (l2 & H2 & Hr). apply bind_Ok_inv in Hr as (l3 & H3 & Hr).
  injection Hr as <-.
  apply resolve_refs_spec in H1 as (_ & _ & R1); [|constructor|done].
  apply resolve_refs_spec in H2 as (_ & _ & R2); [|constructor|done].
  apply resolve_refs_spec in H3 as (_ & _ & R3); [|constructor|done].
  destruct c as [i k n id|i k n id|i k ch id|i k id]; cbn [recorded owned]; [| | |done];
    intros [Hk Hid] Hin; rewrite !elem_of_app in Hin; rewrite Hres;
    destruct Hin as [[alias Ha]%refs_key|[[alias Ha]%refs_key|[alias Ha]%refs_key]];
    first [pose proof (M1 _ _ Ha)|pose proof (M2 _ _ Ha)|pose proof (M3 _ _ Ha)]; try congruence;
    exists alias; unfold manifest; cbn; rewrite !elem_of_app.
  - right; left. apply list_elem_of_fmap. exists (alias, id). eauto.
  - right; right. apply list_elem_of_fmap. exists (alias, id). eauto.
  - left. apply list_elem_of_fmap. exists (alias, mkMessageRef ch id). eauto.
Qed.

Lemma created_produced actions created k kd :
  foldl action_created created actions !! k = Some kd → Forall (λ a, is_register a = false) actions →
  created !! k = Some kd ∨ ∃ a, a ∈ actions ∧ produced a = Some (k, kd).
Proof.
  revert created. induction actions as [|a actions IH]; intros created; cbn [foldl]; [by left|].
  intros Hk [Ha Hreg]%Forall_cons.
  destruct (IH _ Hk Hreg) as [Hc|(b & Hb & Hp)]; [|right; exists b; split; [by right|done]].
  destruct a; cbn in Hc; try done; try (by left);
    (apply lookup_insert_Some in Hc as [[<- <-]|[_ Hc]];
     [right; eexists; split; [left|done]|by left]).
Qed.

Lemma actions_ok_app inst keys modal_keys created l1 l2 :
  actions_ok inst keys modal_keys created (l1 ++ l2) →
  actions_ok inst keys modal_keys created l1 ∧
  actions_ok inst keys modal_keys (foldl action_created created l1) l2.
Proof.
  revert created. induction l1 as [|a l1 IH]; intros created; cbn; [done|].
  intros [Ha Hok]. destruct (IH _ Hok). done.
Qed.

Lemma draw_ids_quiet plan planned w m w' : draw_ids plan planned w = (Ok m, w') → registry w' = registry w.
Proof.
  revert planned w. induction plan as [|p plan IH]; intros planned w; cbn [draw_ids]; [by intros [= _ <-]|].
  destruct p; try by apply IH. destruct (planned !! key); [by apply IH|].
  intros (id & w1 & Hg & Hr)%cmd_bind_Ok_inv. rewrite (IH _ _ Hr). apply map_err_run in Hg.
  rewrite <- (registry_generate w). by rewrite Hg.
Qed.

Lemma register_found instance w w' :
  store_wf (registry w) → svc_register_instance instance w = (Ok tt, w') →
  store_wf (registry w') ∧
  store_find (registry w') (ai_guild_id instance) (ai_id instance) = Some instance.
Proof.
  intros Hwf Hr. destruct (registry_register instance w) as [H1 H2]. rewrite Hr in H1, H2. cbn in H1, H2.
  rewrite H2. unfold register in *. cbv zeta in *. destruct (is_some _); [done|]. cbn [snd].
  assert (store_wf (bt_upsert (default []) (ai_guild_id instance) (registry w))) as Hwf'.
  { apply upsert_wf; [done|]. by apply store_table_wf. }
  split; [by apply store_set_wf|]. rewrite store_find_set by done. by rewrite decide_True.
Qed.

(** A plan whose one registration comes after all creations, and lists them. *)
Lemma run_owns inst keys modal_keys event ruleset bindings context pre k kind r post plan w run w' :
  Forall (λ a, is_register a = false) pre →
  Forall (λ a, is_register a = false ∧ produced a = None) post →
  Forall (λ a, is_teardown a = false) (pre ++ post) →
  (∀ a key kd, a ∈ pre → produced a = Some (key, kd) → key ∈ manifest_refs (RegisterInstance k kind r)) →
  aliases_distinct r →
  actions_ok inst keys modal_keys ∅ (pre ++ RegisterInstance k kind r :: post) →
  plans event ruleset bindings (pre ++ RegisterInstance k kind r :: post) plan →
  store_wf (registry w) → execute_plan context plan w = (Ok run, w') →
  ∃ instance, store_wf (registry w') ∧
    store_find (registry w') (rc_guild_id context) (ai_id instance) = Some instance ∧
    ai_status instance = Active ∧ Forall (owned instance) (run_created run).
Proof.
  intros Hpre Hpost [Ht1 Ht2]%Forall_app Hman Hal [Hok1 [Hokr _]]%actions_ok_app Hp Hwf.
  intros (s0 & w0 & Hdraw & Hrun)%cmd_bind_Ok_inv. apply cmd_bind_Ok_inv in Hdraw as (m & w0' & Hdraw & [= <- <-]).
  apply draw_ids_quiet in Hdraw. rewrite <- Hdraw in Hwf.
  apply cmd_bind_Ok_inv in Hrun as ([s3 o3] & w3 & Hrun & [= <- <-]).
  unfold plans in Hp. apply Forall2_app_inv_l in Hp as (plan1 & plan2 & Hp1 & Hp2 & ->).
  apply Forall2_cons_inv_l in Hp2 as (p & plan3 & [= <-] & Hp3 & ->).
  apply execute_steps_app in Hrun as (s1 & o1 & w1 & i1 & Hrun1 & Hrun).
  apply cmd_bind_Ok_inv in Hrun as (action & w2 & Hact & Hrun). injection Hact as Hact <-.
  apply cmd_bind_Ok_inv in Hrun as ([s2 o2] & w2 & Hreg & Hrun). cbn [fst snd] in Hrun.
  apply Forall_and in Hpost as [Hpost1 Hpost2].
  destruct (execute_steps_quiet _ _ _ _ _ _ Hp3 Hpost1 Ht2 _ _ _ _ _ _ _ Hrun) as [Hv3 Hc3].
  destruct (execute_steps_quiet _ _ _ _ _ _ Hp1 Hpre Ht1 _ _ _ _ _ _ _ Hrun1) as [Hv1 _].
  assert (Hf : faithful (foldl action_created ∅ pre) s1 o1).
  { eapply execute_steps_faithful; [exact Hp1|exact Hok1| |exact Hrun1].
    intros c Hc. by apply not_elem_of_nil in Hc. }
  apply bind_Ok_inv in Hact as (id & _ & Hact). apply bind_Ok_inv in Hact as (resources & Hres & [= <-]).
  apply cmd_bind_Ok_inv in Hreg as ([] & w2' & Hreg & [= <- <- <-]). apply map_err_run in Hreg.
  apply register_found in Hreg as [Hwf' Hreg]; [|by rewrite Hv1].
  eexists. rewrite Hv3, Hc3 by done. split_and!; [exact Hwf'|exact Hreg|done|].
  apply Forall_app. split; [|by repeat constructor]. apply Forall_forall. intros c Hc%Hf.
  eapply manifest_owns; [exact Hres|done|apply Hokr|done|exact Hc|].
  destruct c as [i key n x|i key n x|i key ch x|i key x]; cbn in Hc; destruct Hc as [Hk _];
    (apply created_produced in Hk as [Hk|(a & Ha & Hpa)]; [done| |done]); [by eapply Hman..|].
  by destruct a.
Qed.

Lemma no_teardowns actions :
  existsb is_teardown actions = false → Forall (λ a, is_teardown a = false) actions.
Proof.
  intros He. apply Forall_forall. intros a Ha. destruct (is_teardown a) eqn:Ht; [|done].
  rewrite <- He. symmetry. apply existsb_exists. exists a. split; [by apply list_elem_of_In|done].
Qed.

(** The plan a click or a submission is prepared into, with the rule it is of. *)
Lemma prepared_plan ruleset bindings event identity prepared :
  automation_validate ruleset bindings = Ok tt →
  prepare_event_execution event ruleset bindings identity = Ok (Some prepared) →
  ∃ rule modal_keys fields rest, rule ∈ rs_rules ruleset ∧
    trigger_matches (ru_trigger rule) (ev_kind event) = true ∧
    rule_valid ruleset bindings rule modal_keys fields ∧
    rc_guild_id (pe_context prepared) = ev_guild_id event ∧
    plans event ruleset bindings rest (pe_plan prepared) ∧
    (ru_actions rule = rest ∨ ru_actions rule = DeferEphemeral :: rest).
Proof.
  intros (modal_keys & fields & _ & _ & Hrules)%validated Hprep.
  unfold prepare_event_execution in Hprep.
  assert (∃ context, rc_guild_id context = ev_guild_id event ∧
    match interpret event ruleset bindings with
    | None => Ok None
    | Some (PlDeferEphemeral :: steps) => Ok (Some (mkPrepared context steps true))
    | Some steps => Ok (Some (mkPrepared context steps false))
    end = Ok (E := AdapterError) (Some prepared)) as (context & Hg & Hi).
  { destruct (ev_kind event); try done; apply bind_Ok_inv in Hprep as (n & _ & Hi);
      eexists; (split; [|exact Hi]); by destruct n. }
  clear Hprep. unfold interpret in Hi.
  destruct (List.find _ _) as [rule|] eqn:Hr; [|done]. destruct (find_rule _ _ _ Hr) as [Hin Ht].
  cbn [mbind option_bind] in Hi. destruct (mapM _ _) as [plan|] eqn:Hplan; [|done].
  destruct (prepared_suffix _ _ _ _ _ context (mapM_plans _ _ _ _ _ Hplan))
    as (rest & steps & leading & Heq & Hp & Hrest). rewrite Heq in Hi. injection Hi as <-.
  exists rule, modal_keys, fields, rest. split_and!; auto.
Qed.

(** A split of a rule around its registration, below a leading deferral. *)
Lemma split_rest actions rest pre k kind r post :
  actions = rest ∨ actions = DeferEphemeral :: rest → actions = pre ++ RegisterInstance k kind r :: post →
  ∃ pre', rest = pre' ++ RegisterInstance k kind r :: post ∧ ∀ a, a ∈ pre' → a ∈ pre.
Proof.
  intros [-> | ->] Hs; [by exists pre|]. destruct pre as [|a pre]; [done|].
  injection Hs as <- ->. exists pre. split; [done|]. intros a Ha. by right.
Qed.
End footprint.

Lemma planned_register event ruleset bindings actions plan k kind r :
  plans event ruleset bindings actions plan → RegisterInstance k kind r ∈ actions →
  PlRegisterInstance k kind r ∈ plan.
Proof.
  intros Hp [i Hi]%list_elem_of_lookup.
  destruct (Forall2_lookup_l _ _ _ _ _ Hp Hi) as (p & Hpl & [= <-]). by eapply list_elem_of_lookup_2.
Qed.

Lemma registered_action event ruleset bindings actions plan k kind r :
  plans event ruleset bindings actions plan → PlRegisterInstance k kind r ∈ plan →
  RegisterInstance k kind r ∈ actions.
Proof.
  intros Hp [i Hi]%list_elem_of_lookup.
  destruct (Forall2_lookup_r _ _ _ _ _ Hp Hi) as (a & Ha & Hap). apply list_elem_of_lookup_2 in Ha.
  destruct a as [? []| | | | | | | | | |]; cbn in Hap;
    repeat (apply bind_Some in Hap as (? & _ & Hap)); by simplify_eq.
Qed.

(** A result of a run that the deleter no longer has. *)
Definition removed {D} `{InstanceDeleterLaws D} (d : D) (g : GuildId) (c : CreatedResource) : Prop :=
  match c with
  | MadeRole _ _ _ id => ∃ alias, gone d g (ResRole alias id)
  | MadeChannel _ _ _ id => ∃ alias, gone d g (ResChannel alias id)
  | MadeMessage _ _ ch id => ∃ alias, gone d g (ResMessage alias ch id)
  | MadeInstance _ _ _ => True
  end.

Lemma teardown_removes {D} `{InstanceDeleterLaws D} st d instance g out st' d' :
  store_wf st → store_find st g (ai_id instance) = Some instance → ai_status instance = Active →
  teardown true g (ai_id instance) (st, d) = (Ok out, (st', d')) →
  out = Completed ∧ ∀ c, owned instance c → removed d' g c.
Proof.
  intros Hwf Hfind Hst Ht.
  apply (teardown_locked_effect (S := InMemoryInstanceStore) (H0 := in_memory_teardown_laws)) in Ht
    as (_ & _ & _ & He); [|done].
  assert (Hsame : ∀ v, view st g (ai_id instance) = Some v → v = instance).
  { intros v Hv. cbn in Hv. congruence. }
  destruct out; cbn [teardown_effect] in He; destruct He as (v & He).
  - destruct He as ((->%Hsame & _) & _ & Hg). split; [done|]. intros c Ho.
    destruct c; cbn in *; try done; destruct Ho as [alias Ho]; exists alias; by apply Hg.
  - destruct He as ((->%Hsame & _) & Hs & _). cbn in Hs. congruence.
  - destruct He as (->%Hsame & Hs & _). congruence.
  - by destruct He as (_ & Hs & _).
Qed.

(** C7: Nothing a rule creates is orphaned. Take a validated rule set, a click or
    submission whose rule registers an instance, and a run of its plan that
    succeeds: the store then holds an active instance whose manifest lists every
    role, channel and message the run created; and when that instance is later torn
    down successfully, the answer is [Completed] and each of them is gone. *)
Theorem registered_runs_leave_no_orphans {W} `{RegistryView W} ruleset bindings event identity prepared w run w' :
  automation_validate ruleset bindings = Ok tt →
  prepare_event_execution event ruleset bindings identity = Ok (Some prepared) →
  (∃ k kind r, PlRegisterInstance k kind r ∈ pe_plan prepared) →
  (∀ k kind r, PlRegisterInstance k kind r ∈ pe_plan prepared → aliases_distinct r) →
  store_wf (registry w) → execute_plan (pe_context prepared) (pe_plan prepared) w = (Ok run, w') →
  ∃ instance, store_find (registry w') (ev_guild_id event) (ai_id instance) = Some instance ∧
    ai_status instance = Active ∧ Forall (owned instance) (run_created run) ∧
    ∀ D (deleter : InstanceDeleter D) (laws : InstanceDeleterLaws D) (d : D) out st' d',
      teardown true (ev_guild_id event) (ai_id instance) (registry w', d) = (Ok out, (st', d')) →
      out = Completed ∧ Forall (removed d' (ev_guild_id event)) (run_created run).
Proof.
  intros Hval Hprep Hreg Hal Hwf Hrun.
  destruct (prepared_plan _ _ _ _ _ Hval Hprep)
    as (rule & modal_keys & fields & rest & Hin & Htr & Hv & Hg & Hp & Hrest).
  assert (Hex : existsb is_register (ru_actions rule) = true).
  { destruct Hreg as (k & kind & r & Hin'). apply existsb_exists. exists (RegisterInstance k kind r).
    split; [|done]. apply list_elem_of_In. eapply registered_action in Hin'; [|exact Hp].
    destruct Hrest as [-> | ->]; [done|by right]. }
  pose proof (rv_conflict _ _ _ _ _ Hv) as Hc. rewrite Hex in Hc. apply no_teardowns in Hc.
  destruct (footprint_split rule (rv_footprint _ _ _ _ _ Hv) Hex)
    as (pre & k & kind & r & post & Hsplit & Hpre & Hpost & Hman).
  destruct (split_rest _ _ _ _ _ _ _ Hrest Hsplit) as (pre' & -> & Hsub).
  rewrite Forall_forall in Hpre.
  assert (Hpre' : Forall (λ a, is_register a = false) pre') by (apply Forall_forall; auto).
  assert (Hc' : Forall (λ a, is_teardown a = false) (pre' ++ post)).
  { apply Forall_forall. intros a Ha. rewrite Forall_forall in Hc. apply Hc. rewrite Hsplit.
    rewrite elem_of_app in Ha. rewrite elem_of_app, elem_of_cons. naive_solver. }
  assert (Hal' : aliases_distinct r).
  { apply (Hal k kind r). eapply planned_register; [exact Hp|]. apply elem_of_app. right. left. }
  destruct (run_owns _ _ _ _ _ _ _ _ _ _ _ _ _ _ _ _ Hpre' Hpost Hc' (λ a key kd Ha, Hman a key kd (Hsub a Ha))
    Hal' (suffix_ok _ _ _ _ _ Hrest (rv_actions _ _ _ _ _ Hv)) Hp Hwf Hrun)
    as (instance & Hwf' & Hfind & Hst & Hown).
  rewrite Hg in Hfind. exists instance. split_and!; auto. intros D deleter laws d out st' d' Ht.
  destruct (teardown_removes _ _ _ _ _ _ _ Hwf' Hfind Hst Ht) as [-> Hrem]. split; [done|].
  eapply Forall_impl; [exact Hown|exact Hrem].
Qed.
