(* ===== verification/AutomationExamples.v ===== *)
(** * A sample rule set

    Study rooms: a button opens a modal, and submitting it creates a role, a
    channel and a panel and registers them as an instance. The theorems on
    validated rules apply to it, with the mocks of the crate as services. *)

From Stdlib Require Import ZArith Lia Ascii String.
From stdpp Require Import base decidable list strings gmap numbers sets.
From S2P Require Import Prelude RustStd RustText DiscordModel Resolution Instance InstanceStore Teardown TeardownSpec TeardownExamples AutomationState AutomationPlan Template AutomationValidate AutomationExec AutomationSound AutomationFootprint.
Open Scope Z_scope.
Open Scope string_scope.

Definition name_field : ModalFieldSpec :=
  mkModalField "name" "Name" Short true (Some 2) (Some 40) TrimUnicodeWhitespace.

Definition study_manifest : InstanceResourceRefs :=
  mkResourceRefs [("member", "role")] [("room", "channel")] [("panel", "message")].

Definition join_button : ButtonSpec :=
  mkButton "Join" (RouteInstanceAction (InstanceCreated "instance") "join").

Definition study_actions : list ActionSpec :=
  [DeferEphemeral;
   CreateRole "role" "study ${input.name}";
   CreateChannel "channel" "study ${input.name}";
   UpsertOverwrite (ChannelCreated "channel") (SpecRole (RoleCreated "role")) 1024 0;
   PostPanel "message" (ChannelCreated "channel") "Welcome to ${input.name}" [join_button];
   RegisterInstance "instance" "study_room" study_manifest;
   EditResponse "Created ${input.name}"].

Definition study_rules : InteractionRuleSet :=
  mkRuleSet 1 [mkPanel "lobby" "lobby" "Open a room" [mkButton "Open" (RouteStatic "open")]]
    [mkModal "create" "New room" [name_field]]
    [mkRule "ask" (OnButtonClick "open") [OpenModal "create"];
     mkRule "create" (OnModalSubmit "create") study_actions].

Definition no_bindings : ResourceBindingMap := mkBindings ∅ ∅.
Definition study_identity : RunningRuleSetIdentity := mkRuleSetIdentity "study" 1.
Definition submit_event : RuntimeEvent := mkEvent 7 5 (EvModalSubmit "create" [("name", " Rocq ")]).
Definition sample_mock : MockWorld :=
  mkMock [] None 0 [] [] (mkSequence "study" 1) [] (Ok Completed).

(** The mocks, with every refusal reported as a text. *)
Definition told {A} (c : Cmd MockWorld AdapterError A) : Cmd MockWorld AdapterError A :=
  cmd_map_err (λ e, mkAdapterError (ae_kind e) (MsgText "refused")) c.

Definition telling_services : AutomationServices MockWorld :=
  let m := mock_services in
  {| svc_grant_role g u r := told (svc_grant_role (AutomationServices := m) g u r);
     svc_create_channel g n := told (svc_create_channel (AutomationServices := m) g n);
     svc_create_role g n := told (svc_create_role (AutomationServices := m) g n);
     svc_upsert_overwrite g c t al dn := told (svc_upsert_overwrite (AutomationServices := m) g c t al dn);
     svc_post_panel g c p := told (svc_post_panel (AutomationServices := m) g c p);
     svc_respond_ephemeral t := told (svc_respond_ephemeral (AutomationServices := m) t);
     svc_open_modal p := told (svc_open_modal (AutomationServices := m) p);
     svc_defer_ephemeral := told (svc_defer_ephemeral (AutomationServices := m));
     svc_edit_response t := told (svc_edit_response (AutomationServices := m) t);
     svc_register_instance := svc_register_instance (AutomationServices := m);
     svc_generate := svc_generate (AutomationServices := m);
     svc_teardown := svc_teardown (AutomationServices := m) |}.

Lemma told_speaks {A} (c : Cmd MockWorld AdapterError A) : speaks (told c).
Proof. intros w. unfold told, cmd_map_err. destruct (c w) as [[x|e] w']; cbn; eauto. Qed.

Lemma telling_speaks : services_speak MockWorld (H := telling_services).
Proof. split; intros; apply told_speaks. Qed.

#[local, program] Instance mock_registry : RegistryView MockWorld := {
  registry := mw_store
}.
Next Obligation. intros i w. cbn. unfold cmd_zoom. by destruct (register i (mw_store w)). Qed.
Next Obligation. done. Qed.
Next Obligation.
  intros g n w. cbn. unfold mock_create, mbind, Cmd_bind, cmd_bind, mock_call. by destruct (mw_fail w).
Qed.
Next Obligation.
  intros g n w. cbn. unfold mock_create, mbind, Cmd_bind, cmd_bind, mock_call. by destruct (mw_fail w).
Qed.
Next Obligation. done. Qed.
Next Obligation.
  intros g c p w. cbn. unfold mock_create, mbind, Cmd_bind, cmd_bind, mock_call. by destruct (mw_fail w).
Qed.
Next Obligation. done. Qed.
Next Obligation. done. Qed.
Next Obligation. done. Qed.
Next Obligation. done. Qed.
Next Obligation. intros w. cbn. unfold cmd_zoom. by destruct (sequence_generate (mw_ids w)). Qed.

Lemma study_rules_valid : automation_validate study_rules no_bindings = Ok tt.
Proof. vm_compute. reflexivity. Qed.

Lemma study_posted : posted_instances_registered study_rules.
Proof.
  intros rule. cbn. intros [->|[->|[]%not_elem_of_nil]%elem_of_cons]%elem_of_cons; repeat constructor.
  intros b ->%list_elem_of_singleton. vm_compute. reflexivity.
Qed.

(** The submission runs, and makes its calls in the order of the rule. *)
Lemma study_run :
  let '(r, w) := handle_event (H := mock_services) submit_event study_rules no_bindings "failed"
                   study_identity sample_mock in
  r = Ok HandleExecuted ∧
  mw_responses w = [CallDeferEphemeral; CallEditResponse "Created Rocq"] ∧
  mw_calls w =
    [CallCreateRole 7 "study Rocq"; CallCreateChannel 7 "study-rocq";
     CallUpsertOverwrite 7 800001 (TargetRole 800000) 1024 0;
     CallPostPanel 7 800001 "Welcome to Rocq"
       [mkPostButton "Join" (ResolvedInstanceAction "study_001" "join")]].
Proof. vm_compute. split_and!; reflexivity. Qed.

Lemma validated_events_cannot_go_wrong_witness :
  automation_validate study_rules no_bindings = Ok tt ∧
  safe (W := MockWorld) false
    (handle_event (H := telling_services) submit_event study_rules no_bindings "failed" study_identity)
    (λ outcome, outcome = HandleNoOp ↔
      Forall (λ r, trigger_matches (ru_trigger r) (ev_kind submit_event) = false) (rs_rules study_rules)).
Proof.
  split; [exact study_rules_valid|].
  apply (validated_events_cannot_go_wrong (H := telling_services) study_rules no_bindings submit_event
    "failed" study_identity telling_speaks study_rules_valid study_posted). done.
Defined.

Definition study_prepared : PreparedEventExecution :=
  match prepare_event_execution submit_event study_rules no_bindings study_identity with
  | Ok (Some p) => p
  | _ => mkPrepared (context_from_event submit_event study_identity) [] false
  end.

Lemma study_registers :
  Forall (λ p, match p with PlRegisterInstance _ _ r => r = study_manifest | _ => True end)
    (pe_plan study_prepared).
Proof. vm_compute. by repeat constructor. Qed.

Definition study_result : RunResult :=
  mkRun [MadeRole 0 "role" "study Rocq" 800000; MadeChannel 1 "channel" "study-rocq" 800001;
         MadeMessage 3 "message" 800001 800002; MadeInstance 4 "instance" "study_001"] [].

Definition study_world : MockWorld :=
  (execute_plan (H := mock_services) (pe_context study_prepared) (pe_plan study_prepared) sample_mock).2.

Lemma registered_runs_leave_no_orphans_witness :
  ∃ instance, store_find (registry study_world) (ev_guild_id submit_event) (ai_id instance) = Some instance ∧
    ai_status instance = Active ∧ Forall (owned instance) (run_created study_result) ∧
    ∀ D (deleter : InstanceDeleter D) (laws : InstanceDeleterLaws D) (d : D) out st' d',
      teardown true (ev_guild_id submit_event) (ai_id instance) (registry study_world, d) = (Ok out, (st', d')) →
      out = Completed ∧ Forall (removed d' (ev_guild_id submit_event)) (run_created study_result).
Proof.
  refine (registered_runs_leave_no_orphans (W := MockWorld) study_rules no_bindings submit_event
    study_identity study_prepared sample_mock study_result study_world study_rules_valid _ _ _ _ _).
  - vm_compute. reflexivity.
  - exists "instance", "study_room", study_manifest. vm_compute. by repeat (left || right).
  - intros k kind r Hin. pose proof study_registers as Hall. rewrite Forall_forall in Hall.
    rewrite (Hall _ Hin). split_and!; apply NoDup_singleton.
  - exact store_wf_empty.
  - vm_compute. reflexivity.
Defined.

(** ** A button nobody checks *)

(** The same room, without the registration the button needs. *)
Definition orphan_rules : InteractionRuleSet :=
  mkRuleSet 1 [mkPanel "lobby" "lobby" "Open a room" [mkButton "Open" (RouteStatic "open")]] []
    [mkRule "create" (OnButtonClick "open")
       [CreateChannel "channel" "study room";
        PostPanel "message" (ChannelCreated "channel") "Welcome" [join_button]]].

Definition click_event : RuntimeEvent := mkEvent 7 5 (EvButtonClick "open").

(** Validation does not look at the instance a posted button names. A rule set
    whose button names an instance no action registers passes [validate]; when the
    rule runs, the channel is created, and only then the run fails because the
    instance cannot be resolved, leaving the channel behind. *)
Theorem unregistered_button_fails_midway :
  automation_validate orphan_rules no_bindings = Ok tt ∧ ¬ posted_instances_registered orphan_rules ∧
  let '(r, w) := handle_event (H := mock_services) click_event orphan_rules no_bindings "failed"
                   study_identity sample_mock in
  r = Err (bad_request (MsgUnresolvedPlannedInstance "instance")) ∧
  mw_calls w = [CallCreateChannel 7 "study-room"].
Proof.
  split_and!; [vm_compute; reflexivity| |vm_compute; split; reflexivity].
  intros Hposted. specialize (Hposted _ ltac:(left)). apply Forall_cons in Hposted as [_ Hposted].
  apply Forall_cons in Hposted as [Hb _]. specialize (Hb join_button ltac:(left)).
  apply registers_spec in Hb as (kind & r & Hin). cbn in Hin.
  by repeat (apply elem_of_cons in Hin as [Hin|Hin]; [done|]); apply not_elem_of_nil in Hin.
Qed.
