(* ===== verification/RuleSet.v ===== *)
(** * Published rule sets

    The crate [automation-ruleset]: keys, version numbers, content hashes, and the
    in-memory store of published versions with its activation pointer. The hasher
    is the argument the store is built with; [content_hash] serializes with serde
    and digests with SHA-256, which stay parameters. *)

From Stdlib Require Import ZArith Lia Ascii String.
From stdpp Require Import base decidable list strings gmap numbers sets.
From S2P Require Import Prelude RustStd DiscordModel AutomationState AutomationValidate.
Open Scope Z_scope.

(** ** Keys and versions *)
Abbreviation RuleSetKey := string (only parsing).
Abbreviation RuleSetVersionId := Z (only parsing).
Abbreviation RuleSetContentHash := (list Z) (only parsing).

Definition RULESET_KEY_MAX_LEN : Z := 64.

Inductive RuleSetKeyError := RuleSetKeyEmpty | RuleSetKeyTooLong | RuleSetKeyInvalidChar.

Definition ruleset_key_char (c : ascii) : bool :=
  is_ascii_alphanumeric c || Ascii.eqb c "_" || Ascii.eqb c "-".

Definition ruleset_key_parse (value : string) : Result RuleSetKeyError RuleSetKey :=
  if str_is_empty value then Err RuleSetKeyEmpty
  else if RULESET_KEY_MAX_LEN <? str_len value then Err RuleSetKeyTooLong
  else if negb (str_all ruleset_key_char value) then Err RuleSetKeyInvalidChar
  else Ok value.

Inductive RuleSetVersionError := VersionZero | RuleSetVersionOverflow.

Definition FIRST : RuleSetVersionId := 1.

Definition version_id_new (value : Z) : Result RuleSetVersionError RuleSetVersionId :=
  if value =? 0 then Err VersionZero else Ok value.

Definition version_id_next (v : RuleSetVersionId) : Result RuleSetVersionError RuleSetVersionId :=
  ok_or (u32_checked_add v 1) RuleSetVersionOverflow.

Definition CURRENT_RULESET_SCHEMA_VERSION : Z := 1.

(** ** Hashes *)
Definition hex_digit (d : Z) : ascii :=
  ascii_of_N (Z.to_N (if d <? 10 then d + 48 else d + 87)).

(** [{byte:02x}] for each byte. *)
Fixpoint to_hex (bytes : RuleSetContentHash) : string :=
  match bytes with
  | [] => EmptyString
  | byte :: rest => String (hex_digit (Z.shiftr byte 4)) (String (hex_digit (Z.land byte 15)) (to_hex rest))
  end.

(** [char::to_digit(16)] on the characters that are left after the check. *)
Definition to_digit16 (c : ascii) : option Z :=
  if is_ascii_digit c then Some (byte_value c - 48)
  else if byte_in 97 102 c then Some (byte_value c - 87)
  else if byte_in 65 70 c then Some (byte_value c - 55)
  else None.

Fixpoint parse_chunks (value : string) : option (list Z) :=
  match value with
  | String c0 (String c1 rest) =>
      hi ← to_digit16 c0; lo ← to_digit16 c1; bytes ← parse_chunks rest;
      Some (Z.lor (Z.shiftl hi 4) lo :: bytes)
  | _ => Some []
  end.

Definition parse_hex (value : string) : option RuleSetContentHash :=
  if negb (str_len value =? 64) || negb (str_all is_lower_hex value) then None
  else parse_chunks value.

(** [Serialization], with serde's message. *)
Inductive RuleSetHashError := Serialization (message : string).

(** A [serde_json::Value]; an object is its members in the order of its map. *)
#[warnings="-register-all"]
Inductive Value (N : Type) :=
| VNull
| VBool (b : bool)
| VNumber (n : N)
| VString (text : string)
| VArray (items : list (Value N))
| VObject (members : list (string * Value N)).
Arguments VNull {_}.
Arguments VBool {_} b.
Arguments VNumber {_} n.
Arguments VString {_} text.
Arguments VArray {_} items.
Arguments VObject {_} members.

Fixpoint canonicalize {N} (value : Value N) : Value N :=
  match value with
  | VObject members =>
      VObject ((fix insert_all (members sorted : list (string * Value N)) :=
                  match members with
                  | [] => sorted
                  | (k, v) :: rest => insert_all rest (bt_insert k (canonicalize v) sorted)
                  end) members [])
  | VArray items => VArray (map canonicalize items)
  | other => other
  end.

(** [content_hash], over the third-party serializer and digest. *)
Section content_hash.
Context {N : Type} (to_value : Z → InteractionRuleSet → Result string (Value N))
  (to_vec : Value N → Result string (list Z)) (digest : list Z → RuleSetContentHash).

Definition content_hash (schema_version : Z) (definition : InteractionRuleSet)
  : Result RuleSetHashError RuleSetContentHash :=
  value ← map_err Serialization (to_value schema_version definition);
  bytes ← map_err Serialization (to_vec (canonicalize value));
  Ok (digest bytes).
End content_hash.

(** ** Versions *)
Record RuleSetVersion := mkRuleSetVersion {
  rv_guild_id : GuildId;
  rv_ruleset_key : RuleSetKey;
  rv_version : RuleSetVersionId;
  rv_schema_version : Z;
  rv_definition : InteractionRuleSet;
  rv_content_hash : RuleSetContentHash;
  rv_created_by : UserId
}.

Record RuleSetActivation := mkActivation {
  act_guild_id : GuildId;
  act_ruleset_key : RuleSetKey;
  act_active_version : RuleSetVersionId
}.

Record RuleSetVersionIdentity := mkVersionIdentity {
  vi_version : RuleSetVersionId;
  vi_content_hash : RuleSetContentHash
}.

#[export] Instance RuleSetVersionIdentity_eq_dec : EqDecision RuleSetVersionIdentity.
Proof. solve_decision. Defined.

Definition version_identity (v : RuleSetVersion) : RuleSetVersionIdentity :=
  mkVersionIdentity (rv_version v) (rv_content_hash v).

Inductive ExpectedActiveRuleSet :=
| ExpectAbsent
| ExpectExact (identity : RuleSetVersionIdentity).

Record GuardedRuleSetActivation := mkGuardedActivation {
  ga_guild_id : GuildId;
  ga_ruleset_key : RuleSetKey;
  ga_target : RuleSetVersionIdentity;
  ga_expected_active : ExpectedActiveRuleSet
}.

Inductive GuardedActivationOutcome :=
| Activated (activation : RuleSetActivation)
| AlreadyTarget (activation : RuleSetActivation)
| BaselineMismatch (observed_active : option RuleSetVersionIdentity).

(** ** The store *)
Record PublishRuleSetRequest := mkPublish {
  pr_guild_id : GuildId;
  pr_ruleset_key : RuleSetKey;
  pr_definition : InteractionRuleSet;
  pr_created_by : UserId
}.

Inductive PublishOutcome :=
| PublishCreated (version : RuleSetVersion)
| PublishReused (version : RuleSetVersion).

Inductive RuleSetStoreError :=
| InvalidDefinition (errors : Errors)
| StoreVersionNotFound
| StoreVersionOverflow
| HashCollision
| TargetHashMismatch
| GuardedActivationUnsupported
| Canonicalization (message : string)
| StoreBackend (message : string).

Record GuildRuleSet := mkGuildRuleSet {
  gr_versions : list (RuleSetVersionId * RuleSetVersion);
  gr_active : option RuleSetVersionId
}.

Definition guild_ruleset_default : GuildRuleSet := mkGuildRuleSet [] None.

Abbreviation InMemoryRuleSetStore := (gmap (GuildId * RuleSetKey) GuildRuleSet) (only parsing).

Definition RuleSetCmd (A : Type) : Type := Cmd (gmap (GuildId * RuleSetKey) GuildRuleSet) RuleSetStoreError A.

(** The search of [publish] among the versions in order: the first with the same
    hash decides. *)
Definition same_hash (content_hash : RuleSetContentHash) (existing : RuleSetVersionId * RuleSetVersion) : bool :=
  bool_decide (rv_content_hash existing.2 = content_hash).

(** [keys().next_back()]. *)
Definition next_version (versions : list (RuleSetVersionId * RuleSetVersion))
  : Result RuleSetStoreError RuleSetVersionId :=
  match last versions with
  | Some (max, _) => map_err (λ _, StoreVersionOverflow) (version_id_next max)
  | None => Ok FIRST
  end.

Section store.
Context (hasher : Z → InteractionRuleSet → Result RuleSetHashError RuleSetContentHash).

(** What [publish] does with the entry it finds or creates. *)
Definition publish_entry (request : PublishRuleSetRequest) (content_hash : RuleSetContentHash)
    (entry : GuildRuleSet) : Result RuleSetStoreError PublishOutcome * GuildRuleSet :=
  match List.find (same_hash content_hash) (gr_versions entry) with
  | Some (_, existing) =>
      (if bool_decide (rv_definition existing = pr_definition request)
       then Ok (PublishReused existing) else Err HashCollision, entry)
  | None =>
      match next_version (gr_versions entry) with
      | Err e => (Err e, entry)
      | Ok version =>
          let record := mkRuleSetVersion (pr_guild_id request) (pr_ruleset_key request) version
                          CURRENT_RULESET_SCHEMA_VERSION (pr_definition request) content_hash
                          (pr_created_by request) in
          (Ok (PublishCreated record),
           mkGuildRuleSet (bt_insert version record (gr_versions entry)) (gr_active entry))
      end
  end.

Definition publish_locked (request : PublishRuleSetRequest) (content_hash : RuleSetContentHash)
  : RuleSetCmd PublishOutcome :=
  λ st, let k := (pr_guild_id request, pr_ruleset_key request) in
        let '(r, entry) := publish_entry request content_hash (default guild_ruleset_default (st !! k)) in
        (r, <[k := entry]> st).

Definition publish (request : PublishRuleSetRequest) : RuleSetCmd PublishOutcome :=
  λ st,
  match validate_structural (pr_definition request) with
  | Err errors => (Err (InvalidDefinition errors), st)
  | Ok _ =>
      match hasher CURRENT_RULESET_SCHEMA_VERSION (pr_definition request) with
      | Err (Serialization m) => (Err (Canonicalization m), st)
      | Ok content_hash => publish_locked request content_hash st
      end
  end.
End store.

Definition find_version (st : gmap (GuildId * RuleSetKey) GuildRuleSet) (g : GuildId) (key : RuleSetKey)
    (version : RuleSetVersionId) : option RuleSetVersion :=
  entry ← st !! (g, key); bt_get (gr_versions entry) version.

Definition find_active (st : gmap (GuildId * RuleSetKey) GuildRuleSet) (g : GuildId) (key : RuleSetKey)
  : option RuleSetVersion :=
  entry ← st !! (g, key); version ← gr_active entry; bt_get (gr_versions entry) version.

Definition get_version (g : GuildId) (key : RuleSetKey) (version : RuleSetVersionId)
  : RuleSetCmd (option RuleSetVersion) := λ st, (Ok (find_version st g key version), st).

Definition list_versions (g : GuildId) (key : RuleSetKey) : RuleSetCmd (list RuleSetVersion) :=
  λ st, (Ok (default [] ((λ entry, (gr_versions entry).*2) <$> st !! (g, key))), st).

Definition set_active (version : RuleSetVersionId) (entry : GuildRuleSet) : GuildRuleSet :=
  mkGuildRuleSet (gr_versions entry) (Some version).

Definition activate (g : GuildId) (key : RuleSetKey) (version : RuleSetVersionId)
  : RuleSetCmd RuleSetActivation :=
  λ st, match st !! (g, key) with
        | Some entry =>
            if is_some (bt_get (gr_versions entry) version)
            then (Ok (mkActivation g key version), <[(g, key) := set_active version entry]> st)
            else (Err StoreVersionNotFound, st)
        | None => (Err StoreVersionNotFound, st)
        end.

Definition baseline_matches (expected : ExpectedActiveRuleSet)
    (observed : option RuleSetVersionIdentity) : bool :=
  match expected with
  | ExpectAbsent => negb (is_some observed)
  | ExpectExact identity => bool_decide (observed = Some identity)
  end.

Definition activate_guarded (request : GuardedRuleSetActivation) : RuleSetCmd GuardedActivationOutcome :=
  λ st,
  let k := (ga_guild_id request, ga_ruleset_key request) in
  match st !! k with
  | None => (Err StoreVersionNotFound, st)
  | Some entry =>
      match bt_get (gr_versions entry) (vi_version (ga_target request)) with
      | None => (Err StoreVersionNotFound, st)
      | Some target =>
          if negb (bool_decide (rv_content_hash target = vi_content_hash (ga_target request)))
          then (Err TargetHashMismatch, st)
          else
            let observed := version_identity <$> (gr_active entry ≫= bt_get (gr_versions entry)) in
            let activation := mkActivation (ga_guild_id request) (ga_ruleset_key request)
                                (vi_version (ga_target request)) in
            if bool_decide (observed = Some (ga_target request)) then (Ok (AlreadyTarget activation), st)
            else if negb (baseline_matches (ga_expected_active request) observed)
            then (Ok (BaselineMismatch observed), st)
            else (Ok (Activated activation),
                  <[k := set_active (vi_version (ga_target request)) entry]> st)
      end
  end.

Definition active (g : GuildId) (key : RuleSetKey) : RuleSetCmd (option RuleSetVersion) :=
  λ st, (Ok (find_active st g key), st).
