(* ===== verification/RuleSetSpec.v ===== *)
(** * The rule set store as a log

    Published versions of one rule set form a log: they are numbered from one, never
    change, and no definition is published twice; one of them may be active. Hashes
    and their hexadecimal form correspond, and the canonical form of a serialized
    definition does not depend on the order of its members. *)

From Stdlib Require Import ZArith Lia Ascii String.
From stdpp Require Import base decidable list strings gmap numbers sets.
From S2P Require Import Prelude RustStd DiscordModel AutomationState AutomationValidate RuleSet.
Open Scope Z_scope.

(** ** Hexadecimal *)
Definition is_byte (b : Z) : Prop := 0 ≤ b < 256.

(** Small ranges are checked by evaluation. *)
Lemma below_all (f : Z → bool) n : forallb f (seqZ 0 n) = true → ∀ d, 0 ≤ d < n → f d = true.
Proof.
  intros Hall d Hd. rewrite forallb_forall in Hall. apply Hall, list_elem_of_In, elem_of_seqZ. lia.
Qed.

Definition in_range (n x : Z) : bool := (0 <=? x) && (x <? n).

Lemma in_range_spec n x : in_range n x = true ↔ 0 ≤ x < n.
Proof. unfold in_range. rewrite andb_true_iff, Z.leb_le, Z.ltb_lt. done. Qed.

Lemma hex_digit_value d : 0 ≤ d < 16 → to_digit16 (hex_digit d) = Some d ∧ is_lower_hex (hex_digit d) = true.
Proof.
  intros Hd. pose proof (below_all (λ d, bool_decide (to_digit16 (hex_digit d) = Some d) &&
    is_lower_hex (hex_digit d)) 16 eq_refl d Hd) as Hc. cbn beta in Hc.
  by apply andb_true_iff in Hc as [?%bool_decide_eq_true ?].
Qed.

Lemma nibbles_of_byte b : is_byte b → 0 ≤ Z.shiftr b 4 < 16 ∧ 0 ≤ Z.land b 15 < 16 ∧
  Z.lor (Z.shiftl (Z.shiftr b 4) 4) (Z.land b 15) = b.
Proof.
  intros Hb. pose proof (below_all (λ b, in_range 16 (Z.shiftr b 4) && in_range 16 (Z.land b 15) &&
    (Z.lor (Z.shiftl (Z.shiftr b 4) 4) (Z.land b 15) =? b)) 256 eq_refl b Hb) as Hc. cbn beta in Hc.
  rewrite !andb_true_iff, !in_range_spec, Z.eqb_eq in Hc. tauto.
Qed.

Lemma byte_of_nibbles hi lo : 0 ≤ hi < 16 → 0 ≤ lo < 16 →
  let b := Z.lor (Z.shiftl hi 4) lo in is_byte b ∧ Z.shiftr b 4 = hi ∧ Z.land b 15 = lo.
Proof.
  intros Hhi Hlo. pose proof (below_all (λ hi, forallb (λ lo, let b := Z.lor (Z.shiftl hi 4) lo in
    in_range 256 b && (Z.shiftr b 4 =? hi) && (Z.land b 15 =? lo)) (seqZ 0 16)) 16 eq_refl hi Hhi) as Hc.
  cbn beta in Hc. pose proof (below_all _ _ Hc lo Hlo) as Hd. cbn beta zeta in Hd.
  rewrite !andb_true_iff, in_range_spec, !Z.eqb_eq in Hd. cbv zeta. unfold is_byte. tauto.
Qed.

Lemma hex_value_digit c : is_lower_hex c = true →
  ∃ d, to_digit16 c = Some d ∧ 0 ≤ d < 16 ∧ hex_digit d = c.
Proof.
  destruct c as [[] [] [] [] [] [] [] []]; try discriminate;
    intros _; eexists; (split; [reflexivity|split; [split; [discriminate|reflexivity]|reflexivity]]).
Qed.

Lemma parse_chunks_to_hex h : Forall is_byte h →
  parse_chunks (to_hex h) = Some h ∧ str_all is_lower_hex (to_hex h) = true ∧
  String.length (to_hex h) = (2 * length h)%nat.
Proof.
  induction 1 as [|b h Hb _ (IH1 & IH2 & IH3)]; [done|].
  destruct (nibbles_of_byte b Hb) as (Hhi & Hlo & Heq).
  destruct (hex_digit_value _ Hhi) as [D1 L1], (hex_digit_value _ Hlo) as [D2 L2].
  cbn [to_hex parse_chunks str_all String.length length]. rewrite D1, D2, IH1, L1, L2, IH2. cbn.
  rewrite Heq. split_and!; [done|done|lia].
Qed.

Lemma to_hex_parse_chunks n s h :
  String.length s = (2 * n)%nat → str_all is_lower_hex s = true → parse_chunks s = Some h →
  length h = n ∧ Forall is_byte h ∧ to_hex h = s.
Proof.
  revert s h. induction n as [|n IH]; intros s h Hlen Hall Hp.
  { destruct s; [|done]. injection Hp as <-. repeat constructor. }
  destruct s as [|c0 [|c1 s]]; cbn in Hlen; try lia. cbn in Hall.
  apply andb_true_iff in Hall as [A0 Hall]. apply andb_true_iff in Hall as [A1 Hall].
  destruct (hex_value_digit _ A0) as (hi & D0 & R0 & C0), (hex_value_digit _ A1) as (lo & D1 & R1 & C1).
  cbn in Hp. rewrite D0, D1 in Hp. cbn in Hp. apply bind_Some in Hp as (bytes & Hb & [= <-]).
  destruct (IH s bytes ltac:(lia) Hall Hb) as (L & B & E).
  destruct (byte_of_nibbles hi lo R0 R1) as (Hbyte & Hhi & Hlo). cbv zeta in *.
  split_and!; [cbn; lia|by constructor|]. cbn [to_hex]. by rewrite Hhi, Hlo, C0, C1, E.
Qed.

(** Content hashes and their hexadecimal form correspond one to one: a text is
    read as a hash exactly when it is what the hash prints as, 32 bytes. *)
Theorem content_hash_hex_round_trip s h :
  parse_hex s = Some h ↔ length h = 32%nat ∧ Forall is_byte h ∧ to_hex h = s.
Proof.
  unfold parse_hex, str_len. split.
  - destruct (_ =? 64) eqn:Hl; [|done]. destruct (str_all is_lower_hex s) eqn:Ha; [|done]. cbn.
    apply Z.eqb_eq in Hl. apply to_hex_parse_chunks; [lia|done].
  - intros (Hl & Hb & <-). destruct (parse_chunks_to_hex h Hb) as (H1 & H2 & H3).
    rewrite H2, H3, Hl. done.
Qed.

(** ** The log *)
Section log.
Context (hasher : Z → InteractionRuleSet → Result RuleSetHashError (list Z)).
Implicit Types (st : gmap (Z * string) GuildRuleSet) (g : Z) (key : string).

(** A version record under its number. *)
Definition version_wf g key (v : Z) (r : RuleSetVersion) : Prop :=
  rv_guild_id r = g ∧ rv_ruleset_key r = key ∧ rv_version r = v ∧
  rv_schema_version r = CURRENT_RULESET_SCHEMA_VERSION ∧
  validate_structural (rv_definition r) = Ok tt ∧
  hasher CURRENT_RULESET_SCHEMA_VERSION (rv_definition r) = Ok (rv_content_hash r).

Record entry_wf g key (entry : GuildRuleSet) : Prop := {
  ew_numbers : (gr_versions entry).*1 = seqZ 1 (Z.of_nat (length (gr_versions entry)));
  ew_bound : Z.of_nat (length (gr_versions entry)) ≤ u32_max;
  ew_records v r : (v, r) ∈ gr_versions entry → version_wf g key v r;
  ew_hashes : NoDup (rv_content_hash ∘ snd <$> gr_versions entry);
  ew_active v : gr_active entry = Some v → is_Some (bt_get (gr_versions entry) v)
}.

Definition ruleset_store_wf st : Prop := ∀ g key entry, st !! (g, key) = Some entry → entry_wf g key entry.

(** The definitions published under a key, oldest first. *)
Definition log st g key : list InteractionRuleSet :=
  default [] ((λ entry, rv_definition ∘ snd <$> gr_versions entry) <$> st !! (g, key)).

Lemma store_wf_start : ruleset_store_wf ∅.
Proof. intros g key entry Hst. by rewrite lookup_empty in Hst. Qed.

Lemma entry_wf_default g key : entry_wf g key guild_ruleset_default.
Proof.
  split; cbn; try done; [|constructor].
  intros v r Hin. by apply not_elem_of_nil in Hin.
Qed.

Lemma lookup_wf st g key :
  ruleset_store_wf st → entry_wf g key (default guild_ruleset_default (st !! (g, key))).
Proof. intros Hst. destruct (st !! (g, key)) eqn:E; [by apply Hst|apply entry_wf_default]. Qed.

(** Numbered lists are sorted, and an index is a number less one. *)
Lemma numbers_sorted {V} (versions : list (Z * V)) m :
  versions.*1 = seqZ m (Z.of_nat (length versions)) → bt_sorted versions.
Proof.
  revert m. induction versions as [|[v r] versions IH]; intros m Hn; [constructor|].
  cbn [fmap list_fmap length fst] in Hn. rewrite Nat2Z.inj_succ, seqZ_cons in Hn by lia.
  injection Hn as -> Hn. rewrite Z.pred_succ in Hn.
  constructor; [by eapply IH|]. apply Forall_forall. intros [v' r'] Hin. cbn. apply Z.compare_lt_iff.
  apply (list_elem_of_fmap_2 fst) in Hin. rewrite Hn in Hin. apply elem_of_seqZ in Hin. cbn in Hin. lia.
Qed.

Lemma numbers_lookup {V} (versions : list (Z * V)) v r :
  versions.*1 = seqZ 1 (Z.of_nat (length versions)) →
  (v, r) ∈ versions ↔ 1 ≤ v ∧ versions !! Z.to_nat (v - 1) = Some (v, r).
Proof.
  intros Hn. split.
  - intros [i Hi]%list_elem_of_lookup.
    assert (versions.*1 !! i = Some v) as Hv by (rewrite list_lookup_fmap, Hi; done).
    rewrite Hn in Hv. apply lookup_seqZ in Hv as [-> Hlt]. split; [lia|].
    replace (Z.to_nat (1 + Z.of_nat i - 1)) with i by lia. done.
  - intros [_ Hi]. by eapply list_elem_of_lookup_2.
Qed.

Lemma next_version_wf g key entry : entry_wf g key entry →
  next_version (gr_versions entry) =
    if decide (Z.of_nat (length (gr_versions entry)) < u32_max)
    then Ok (Z.of_nat (length (gr_versions entry)) + 1) else Err StoreVersionOverflow.
Proof.
  intros [Hn _ _ _ _]. revert Hn. generalize (gr_versions entry). intros versions Hn. unfold next_version.
  destruct (last versions) as [[max r]|] eqn:E.
  - apply last_Some in E as [l ->]. rewrite length_app in *. cbn [length] in *.
    assert ((l ++ [(max, r)]).*1 !! length l = Some max) as Hm.
    { rewrite fmap_app, lookup_app_r by (by rewrite length_fmap). by rewrite length_fmap, Nat.sub_diag. }
    rewrite Hn in Hm. apply lookup_seqZ in Hm as [-> _]. unfold version_id_next, u32_checked_add.
    case_decide as Hd; [rewrite (proj2 (Z.leb_le _ _)) by lia; cbn; f_equal; lia|].
    by rewrite (proj2 (Z.leb_gt _ _)) by lia.
  - apply last_None in E as ->. cbn. by rewrite decide_True by (unfold u32_max; lia).
Qed.

(** A new record goes to the end. *)
Lemma bt_insert_snoc {V} (versions : list (Z * V)) v r :
  (∀ v', v' ∈ versions.*1 → v' < v) → bt_insert v r versions = versions ++ [(v, r)].
Proof.
  unfold bt_insert. induction versions as [|[v' r'] versions IH]; intros Hlt; [done|].
  cbn. assert (v' < v) by (apply Hlt; left). unfold cmp, Z_Ord. rewrite (proj2 (Z.compare_gt_iff v v')) by done.
  f_equal. apply IH. intros v0 Hin. apply Hlt. by right.
Qed.

Lemma entry_wf_snoc g key entry v :
  entry_wf g key entry → version_wf g key (Z.of_nat (length (gr_versions entry)) + 1) v →
  Z.of_nat (length (gr_versions entry)) < u32_max →
  rv_content_hash v ∉ (rv_content_hash ∘ snd <$> gr_versions entry) →
  entry_wf g key (mkGuildRuleSet (gr_versions entry ++ [(rv_version v, v)]) (gr_active entry)).
Proof.
  intros [W1 W2 W3 W4 W5] Hv Hlt Hnew. pose proof Hv as (_ & _ & Hn & _).
  assert (Hnum : (gr_versions entry ++ [(rv_version v, v)]).*1 =
    seqZ 1 (Z.of_nat (length (gr_versions entry ++ [(rv_version v, v)])))).
  { rewrite fmap_app, W1, length_app, Nat2Z.inj_add, seqZ_app by lia. cbn [fmap list_fmap fst length]. f_equal.
    change (Z.of_nat 1) with 1. rewrite seqZ_cons by lia. cbn. f_equal. lia. }
  split; cbn [gr_versions gr_active].
  - done.
  - rewrite length_app. cbn. lia.
  - intros v' r [Hin|Hin]%elem_of_app; [by apply W3|].
    apply list_elem_of_singleton in Hin as [= -> ->]. by rewrite Hn.
  - rewrite fmap_app. apply NoDup_app. split_and!; [done| |apply NoDup_singleton].
    intros h Hh Hs. cbn in Hs. apply list_elem_of_singleton in Hs as ->. done.
  - intros v' [r Hr]%W5. exists r. apply bt_get_elem; [by eapply numbers_sorted|].
    apply elem_of_app. left. apply bt_get_elem; [by eapply numbers_sorted|done].
Qed.

Lemma publish_entry_wf g key req hash entry :
  entry_wf g key entry → pr_guild_id req = g → pr_ruleset_key req = key →
  validate_structural (pr_definition req) = Ok tt →
  hasher CURRENT_RULESET_SCHEMA_VERSION (pr_definition req) = Ok hash →
  let '(r, entry') := publish_entry req hash entry in
  entry_wf g key entry' ∧ gr_active entry' = gr_active entry ∧
  match r with
  | Ok (PublishCreated v) =>
      gr_versions entry' = gr_versions entry ++ [(rv_version v, v)] ∧ rv_definition v = pr_definition req ∧
      rv_version v = Z.of_nat (length (gr_versions entry)) + 1 ∧
      pr_definition req ∉ (rv_definition ∘ snd <$> gr_versions entry)
  | Ok (PublishReused v) => entry' = entry ∧ (rv_version v, v) ∈ gr_versions entry ∧ rv_definition v = pr_definition req
  | Err HashCollision => entry' = entry ∧ ∃ v r', (v, r') ∈ gr_versions entry ∧
      rv_definition r' ≠ pr_definition req ∧ hasher CURRENT_RULESET_SCHEMA_VERSION (rv_definition r') = Ok hash
  | Err StoreVersionOverflow => entry' = entry ∧ Z.of_nat (length (gr_versions entry)) = u32_max ∧
      pr_definition req ∉ (rv_definition ∘ snd <$> gr_versions entry)
  | Err _ => False
  end.
Proof.
  intros Hw Hg Hk Hval Hh. unfold publish_entry.
  destruct (List.find _ _) as [[v existing]|] eqn:Hf.
  - apply find_some in Hf as [Hin%list_elem_of_In Hsame]. apply bool_decide_eq_true in Hsame. cbn in Hsame.
    destruct (ew_records _ _ _ Hw _ _ Hin) as (_ & _ & Hv & _ & _ & Hhe). rewrite Hsame in Hhe.
    destruct (bool_decide _) eqn:Hd; [apply bool_decide_eq_true in Hd|apply bool_decide_eq_false in Hd];
      (split; [done|]); split; [done| |done|]; [subst v; auto|eauto 10].
  - assert (Hnew : hash ∉ (rv_content_hash ∘ snd <$> gr_versions entry)).
    { intros (x & -> & Hx)%list_elem_of_fmap. pose proof (find_none _ _ Hf x) as Hn.
      rewrite <- list_elem_of_In in Hn. specialize (Hn Hx). by apply bool_decide_eq_false in Hn. }
    assert (Hdef : pr_definition req ∉ (rv_definition ∘ snd <$> gr_versions entry)).
    { intros ([v r] & Heq & Hx)%list_elem_of_fmap. apply Hnew. cbn in Heq.
      destruct (ew_records _ _ _ Hw _ _ Hx) as (_ & _ & _ & _ & _ & Hhr). rewrite <- Heq, Hh in Hhr.
      injection Hhr as ->. apply (list_elem_of_fmap_2 (rv_content_hash ∘ snd) _ _ Hx). }
    rewrite (next_version_wf _ _ _ Hw). case_decide as Hlt.
    + cbn [gr_active gr_versions]. rewrite bt_insert_snoc.
      2: { intros v' Hin. rewrite (ew_numbers _ _ _ Hw) in Hin. apply elem_of_seqZ in Hin. lia. }
      split; [|split; [done|split_and!; done]].
      apply (entry_wf_snoc _ _ _ (mkRuleSetVersion (pr_guild_id req) (pr_ruleset_key req) _ _ _ hash _));
        [done|by split_and!|done|done].
    + split_and!; try done. pose proof (ew_bound _ _ _ Hw). lia.
Qed.

(** Changing one entry. *)
Lemma insert_wf st g key entry :
  ruleset_store_wf st → entry_wf g key entry → ruleset_store_wf (<[(g, key) := entry]> st).
Proof.
  intros Hst He g' key' entry' [[[= <- <-] <-]|[_ Hl]]%lookup_insert_Some; [done|by apply Hst].
Qed.

Lemma set_active_wf g key entry v :
  entry_wf g key entry → is_Some (bt_get (gr_versions entry) v) → entry_wf g key (set_active v entry).
Proof. intros [W1 W2 W3 W4 W5] Hv. split; cbn; auto. by intros v' [= <-]. Qed.

(** ** Histories *)
Inductive RuleSetOp :=
| OpPublish (request : PublishRuleSetRequest)
| OpActivate (g : Z) (key : string) (version : Z)
| OpActivateGuarded (request : GuardedRuleSetActivation).

Definition run_ruleset_op st (op : RuleSetOp) : gmap (Z * string) GuildRuleSet :=
  match op with
  | OpPublish request => (publish hasher request st).2
  | OpActivate g key version => (activate g key version st).2
  | OpActivateGuarded request => (activate_guarded request st).2
  end.

(** What an operation may do to an entry: append to its versions, and move the
    pointer among them. *)
Definition grows (entry entry' : GuildRuleSet) : Prop :=
  gr_versions entry `prefix_of` gr_versions entry'.

Definition store_grows st st' : Prop :=
  ∀ g key entry, st !! (g, key) = Some entry → ∃ entry', st' !! (g, key) = Some entry' ∧ grows entry entry'.

Lemma store_grows_insert st g key entry :
  grows (default guild_ruleset_default (st !! (g, key))) entry → store_grows st (<[(g, key) := entry]> st).
Proof.
  intros Hg g' key' entry' Hl. destruct (decide ((g, key) = (g', key'))) as [[= <- <-]|Hne].
  - rewrite lookup_insert_eq. rewrite Hl in Hg. eauto.
  - rewrite lookup_insert_ne by done. exists entry'. split; [done|]. by exists []; rewrite app_nil_r.
Qed.

Lemma store_grows_refl st : store_grows st st.
Proof. intros g key entry Hl. exists entry. split; [done|]. by exists []; rewrite app_nil_r. Qed.

Lemma store_grows_trans st1 st2 st3 : store_grows st1 st2 → store_grows st2 st3 → store_grows st1 st3.
Proof.
  intros H1 H2 g key entry (e2 & Hl2 & G2)%H1. destruct (H2 _ _ _ Hl2) as (e3 & Hl3 & G3).
  exists e3. split; [done|]. unfold grows in *. by etrans.
Qed.

Lemma run_op_wf st op :
  ruleset_store_wf st → ruleset_store_wf (run_ruleset_op st op) ∧ store_grows st (run_ruleset_op st op).
Proof.
  intros Hst. destruct op as [req|g key v|req]; cbn [run_ruleset_op].
  - unfold publish. destruct (validate_structural _) as [[]|] eqn:Hval; [|split; [done|apply store_grows_refl]].
    destruct (hasher _ _) as [hash|[m]] eqn:Hh; [|split; [done|apply store_grows_refl]].
    unfold publish_locked. pose proof (publish_entry_wf _ _ req hash _
      (lookup_wf st (pr_guild_id req) (pr_ruleset_key req) Hst) eq_refl eq_refl Hval Hh) as Hp.
    destruct (publish_entry _ _ _) as [r entry']. destruct Hp as (Hw & _ & Hr). cbn [snd].
    split; [by apply insert_wf|]. apply store_grows_insert. unfold grows.
    destruct r as [[v|v]|[]]; try done; destruct Hr as [-> _]; [by eexists|by exists []; rewrite app_nil_r..].
  - unfold activate. destruct (st !! (g, key)) as [entry|] eqn:Hl; [|split; [done|apply store_grows_refl]].
    destruct (is_some _) eqn:Hv; [|split; [done|apply store_grows_refl]]. cbn [snd].
    apply is_some_true in Hv as [r Hv]. split; [apply insert_wf; [done|]; apply set_active_wf; eauto|].
    apply store_grows_insert. rewrite Hl. by exists []; rewrite app_nil_r.
  - unfold activate_guarded. destruct (st !! _) as [entry|] eqn:Hl; [|split; [done|apply store_grows_refl]].
    destruct (bt_get _ _) as [target|] eqn:Hv; [|split; [done|apply store_grows_refl]].
    repeat (case_match; [split; [done|apply store_grows_refl]|]). cbn [snd].
    split; [apply insert_wf; [done|]; apply set_active_wf; eauto|].
    apply store_grows_insert. rewrite Hl. by exists []; rewrite app_nil_r.
Qed.

Lemma run_ops_wf st ops :
  ruleset_store_wf st →
  ruleset_store_wf (foldl run_ruleset_op st ops) ∧ store_grows st (foldl run_ruleset_op st ops).
Proof.
  revert st. induction ops as [|op ops IH]; intros st Hst; [split; [done|apply store_grows_refl]|].
  destruct (run_op_wf st op Hst) as [Hst1 G1]. destruct (IH _ Hst1) as [Hst2 G2].
  split; [done|]. by eapply store_grows_trans.
Qed.

Lemma find_version_log st g key v r :
  ruleset_store_wf st → find_version st g key v = Some r →
  1 ≤ v ∧ log st g key !! Z.to_nat (v - 1) = Some (rv_definition r) ∧ version_wf g key v r.
Proof.
  intros Hst. unfold find_version, log. destruct (st !! (g, key)) as [entry|] eqn:Hl; [|done]. cbn.
  intros Hb. pose proof (Hst _ _ _ Hl) as Hw. pose proof (ew_numbers _ _ _ Hw) as Hn.
  apply bt_get_elem in Hb; [|by eapply numbers_sorted].
  pose proof (proj1 (numbers_lookup _ _ _ Hn) Hb) as [Hv Hi].
  split_and!; [done| |by apply Hw]. by rewrite list_lookup_fmap, Hi.
Qed.

Lemma find_version_grows st st' g key v r :
  ruleset_store_wf st → ruleset_store_wf st' → store_grows st st' →
  find_version st g key v = Some r → find_version st' g key v = Some r.
Proof.
  intros Hst Hst' Hg. unfold find_version. destruct (st !! (g, key)) as [entry|] eqn:Hl; [|done].
  destruct (Hg _ _ _ Hl) as (entry' & Hl' & [l Hl2]). rewrite Hl'. cbn. intros Hb.
  apply bt_get_elem; [eapply numbers_sorted, ew_numbers; by eapply Hst'|]. rewrite Hl2.
  apply elem_of_app. left. apply bt_get_elem; [|done]. eapply numbers_sorted, ew_numbers. by eapply Hst.
Qed.

Lemma active_is_published st g key a :
  ruleset_store_wf st → find_active st g key = Some a → find_version st g key (rv_version a) = Some a.
Proof.
  intros Hst Ha. unfold find_active, find_version in *. destruct (st !! (g, key)) as [entry|] eqn:Hl; [|done].
  cbn in *. apply bind_Some in Ha as (va & Hva & Hb). pose proof (Hst _ _ _ Hl) as Hwf.
  pose proof (numbers_sorted _ _ (ew_numbers _ _ _ Hwf)) as Hs.
  pose proof (proj2 (bt_get_elem _ _ _ Hs) Hb) as Hin.
  destruct (ew_records _ _ _ Hwf _ _ Hin) as (_ & _ & -> & _). done.
Qed.
End log.

(** Published versions are permanent. Whatever is published and activated after
    a version was published, looking it up returns the same record, which is valid,
    has the hash of its definition, and whose number is its place in the log of the
    rule set; and the active version is always one of the published ones. *)
Theorem published_versions_are_permanent hasher ops ops' g key v r :
  let st := foldl (run_ruleset_op hasher) ∅ ops in
  let st' := foldl (run_ruleset_op hasher) st ops' in
  find_version st g key v = Some r →
  find_version st' g key v = Some r ∧ version_wf hasher g key v r ∧
  log st' g key !! Z.to_nat (v - 1) = Some (rv_definition r) ∧
  ∀ a, find_active st' g key = Some a → find_version st' g key (rv_version a) = Some a.
Proof.
  cbv zeta. set (st := foldl _ _ ops). intros Hf.
  destruct (run_ops_wf hasher ∅ ops (store_wf_start hasher)) as [Hst _]. fold st in Hst.
  destruct (run_ops_wf hasher st ops' Hst) as [Hst' Hg]. set (st' := foldl _ st ops') in *.
  pose proof (find_version_grows hasher _ _ _ _ _ _ Hst Hst' Hg Hf) as Hf'.
  destruct (find_version_log hasher _ _ _ _ _ Hst' Hf') as (_ & Hlog & Hw). split_and!; try done.
  intros a. by apply (active_is_published hasher).
Qed.

(** The views of a store through the entry of a key. *)
Lemma log_entry st g key :
  log st g key = rv_definition ∘ snd <$> gr_versions (default guild_ruleset_default (st !! (g, key))).
Proof. unfold log. by destruct (st !! (g, key)). Qed.

Lemma find_version_entry st g key v :
  find_version st g key v = bt_get (gr_versions (default guild_ruleset_default (st !! (g, key)))) v.
Proof. unfold find_version. by destruct (st !! (g, key)). Qed.

Lemma find_active_entry st g key :
  find_active st g key = let entry := default guild_ruleset_default (st !! (g, key)) in
                         gr_active entry ≫= bt_get (gr_versions entry).
Proof. unfold find_active. by destruct (st !! (g, key)). Qed.

(** Appending does not change what the pointer means. *)
Lemma active_snoc hasher g key entry entry' l :
  entry_wf hasher g key entry → entry_wf hasher g key entry' → gr_versions entry' = gr_versions entry ++ l →
  gr_active entry' = gr_active entry →
  gr_active entry' ≫= bt_get (gr_versions entry') = gr_active entry ≫= bt_get (gr_versions entry).
Proof.
  intros Hw Hw' Hv ->. destruct (gr_active entry) as [a|] eqn:Ha; [|done]. cbn.
  destruct (ew_active _ _ _ _ Hw a Ha) as [r Hr]. rewrite Hr.
  apply bt_get_elem; [eapply numbers_sorted, ew_numbers, Hw'|]. rewrite Hv. apply elem_of_app. left.
  apply bt_get_elem; [eapply numbers_sorted, ew_numbers, Hw|done].
Qed.

Lemma publish_wf hasher st req : ruleset_store_wf hasher st → ruleset_store_wf hasher (publish hasher req st).2.
Proof. intros Hst. apply (run_op_wf hasher st (OpPublish req) Hst). Qed.

(** Publishing does not move the pointer. *)
Lemma publish_keeps_active hasher st req g key :
  ruleset_store_wf hasher st → find_active (publish hasher req st).2 g key = find_active st g key.
Proof.
  intros Hst. unfold publish. destruct (validate_structural _) as [[]|] eqn:Hval; [|done].
  destruct (hasher _ _) as [hash|[m]] eqn:Hh; [|done]. unfold publish_locked.
  pose proof (lookup_wf hasher st (pr_guild_id req) (pr_ruleset_key req) Hst) as Hw.
  pose proof (publish_entry_wf hasher _ _ req hash _ Hw eq_refl eq_refl Hval Hh) as He.
  destruct (publish_entry _ _ _) as [r entry']. destruct He as (Hw' & Hact & He). cbn [snd].
  rewrite !find_active_entry.
  destruct (decide ((pr_guild_id req, pr_ruleset_key req) = (g, key))) as [[= <- <-]|Hne];
    [|by rewrite lookup_insert_ne].
  rewrite lookup_insert_eq. cbn [default from_option id]. cbv zeta.
  destruct r as [[v|v]|[]]; try done.
  - eapply active_snoc; [exact Hw|exact Hw'|apply He|done].
  - destruct He as [-> _]. done.
  - destruct He as [-> _]. done.
  - destruct He as [-> _]. done.
Qed.

(** What publishing answers. A new definition is appended to the log under the
    next number, one that was published before is returned under its old number,
    and every error names its cause: the definition is invalid, cannot be
    serialized, has the hash of another published definition, or the numbers are
    exhausted. The active version and other rule sets never change. *)
Theorem publish_answers hasher st req r st' :
  ruleset_store_wf hasher st → publish hasher req st = (r, st') →
  let g := pr_guild_id req in let key := pr_ruleset_key req in let def := pr_definition req in
  (∀ g' key', (g', key') ≠ (g, key) → st' !! (g', key') = st !! (g', key')) ∧
  find_active st' g key = find_active st g key ∧
  match r with
  | Ok (PublishCreated v) => log st' g key = log st g key ++ [def] ∧ ¬ def ∈ log st g key ∧
      rv_version v = Z.of_nat (length (log st g key)) + 1 ∧ rv_definition v = def ∧
      find_version st' g key (rv_version v) = Some v
  | Ok (PublishReused v) => log st' g key = log st g key ∧ rv_definition v = def ∧
      find_version st g key (rv_version v) = Some v
  | Err (InvalidDefinition errors) => validate_structural def = Err errors ∧ st' = st
  | Err (Canonicalization m) => hasher CURRENT_RULESET_SCHEMA_VERSION def = Err (Serialization m) ∧ st' = st
  | Err HashCollision => log st' g key = log st g key ∧ ∃ other, other ∈ log st g key ∧ other ≠ def ∧
      hasher CURRENT_RULESET_SCHEMA_VERSION other = hasher CURRENT_RULESET_SCHEMA_VERSION def
  | Err StoreVersionOverflow => log st' g key = log st g key ∧ Z.of_nat (length (log st g key)) = u32_max
  | Err _ => False
  end.
Proof.
  intros Hst Hp. cbv zeta. unfold publish in Hp.
  destruct (validate_structural _) as [[]|errors] eqn:Hval; [|injection Hp as <- <-; done].
  destruct (hasher _ _) as [hash|[m]] eqn:Hh; [|injection Hp as <- <-; done].
  set (g := pr_guild_id req) in *. set (key := pr_ruleset_key req) in *.
  pose proof (lookup_wf hasher st g key Hst) as Hw.
  unfold publish_locked in Hp. fold g key in Hp.
  set (entry := default guild_ruleset_default (st !! (g, key))) in *.
  pose proof (publish_entry_wf hasher _ _ req hash _ Hw eq_refl eq_refl Hval Hh) as He.
  destruct (publish_entry req hash entry) as [r0 entry']. injection Hp as <- <-.
  destruct He as (Hw' & Hact & He).
  assert (Hl : gr_versions entry' = gr_versions entry ++
    match r0 with Ok (PublishCreated v) => [(rv_version v, v)] | _ => [] end).
  { destruct r0 as [[v|v]|[]]; try done; destruct He as [He _]; rewrite ?He, ?app_nil_r; done. }
  split; [intros g' key' Hne; by rewrite lookup_insert_ne by congruence|].
  assert (Hd : default guild_ruleset_default (<[(g, key) := entry']> st !! (g, key)) = entry')
    by (by rewrite lookup_insert_eq).
  split. { rewrite !find_active_entry, Hd. cbv zeta. by eapply active_snoc. }
  pose proof (numbers_sorted _ _ (ew_numbers _ _ _ _ Hw)) as Hs.
  pose proof (numbers_sorted _ _ (ew_numbers _ _ _ _ Hw')) as Hs'.
  destruct r0 as [[v|v]|[]]; try done; rewrite ?find_version_entry, ?log_entry, ?Hd; fold entry.
  - destruct He as (Hv & Hdef & Hn & Hnew). rewrite Hv, fmap_app, length_fmap, <- Hdef. cbn.
    rewrite Hdef. split_and!; auto. apply bt_get_elem; [by rewrite <- Hv|]. apply elem_of_app. right. left.
  - destruct He as (-> & Hin & Hdef). split_and!; auto. by apply bt_get_elem.
  - destruct He as [-> (Hlen & _)]. rewrite length_fmap. done.
  - destruct He as (-> & v & r' & Hin & Hne & Hh'). split; [done|]. exists (rv_definition r').
    split_and!; [|done|done]. apply (list_elem_of_fmap_2 (rv_definition ∘ snd) _ _ Hin).
Qed.

(** ** Guarded activation *)

(** The identity of the active version. *)
Definition observed_active (st : gmap (Z * string) GuildRuleSet) (g : Z) (key : string)
  : option RuleSetVersionIdentity := version_identity <$> find_active st g key.

(** What an answer of a guarded activation says about the store before and after. *)
Definition guarded_contract (st st' : gmap (Z * string) GuildRuleSet) (req : GuardedRuleSetActivation)
    (r : Result RuleSetStoreError GuardedActivationOutcome) : Prop :=
  let g := ga_guild_id req in let key := ga_ruleset_key req in
  let target := ga_target req in let observed := observed_active st g key in
  let published := version_identity <$> find_version st g key (vi_version target) in
  match r with
  | Ok (Activated a) => published = Some target ∧ observed ≠ Some target ∧
      observed = match ga_expected_active req with ExpectAbsent => None | ExpectExact i => Some i end ∧
      observed_active st' g key = Some target ∧ a = mkActivation g key (vi_version target) ∧
      (∀ g' key' v, find_version st' g' key' v = find_version st g' key' v) ∧
      (∀ g' key', (g', key') ≠ (g, key) → find_active st' g' key' = find_active st g' key')
  | Ok (AlreadyTarget a) => published = Some target ∧ observed = Some target ∧ st' = st ∧
      a = mkActivation g key (vi_version target)
  | Ok (BaselineMismatch seen) => published = Some target ∧ seen = observed ∧ observed ≠ Some target ∧
      observed ≠ match ga_expected_active req with ExpectAbsent => None | ExpectExact i => Some i end ∧ st' = st
  | Err StoreVersionNotFound => published = None ∧ st' = st
  | Err TargetHashMismatch => (∃ i, published = Some i ∧ i ≠ target) ∧ st' = st
  | Err _ => False
  end.

Lemma activate_guarded_contract hasher st req r st' :
  ruleset_store_wf hasher st → activate_guarded req st = (r, st') → guarded_contract st st' req r.
Proof.
  intros Hst. unfold activate_guarded, guarded_contract, observed_active. cbv zeta. rewrite find_version_entry, find_active_entry.
  set (g := ga_guild_id req). set (key := ga_ruleset_key req). set (target := ga_target req).
  destruct (st !! (g, key)) as [entry|] eqn:Hl; [|by intros [= <- <-]]. cbn [default from_option id].
  pose proof (Hst _ _ _ Hl) as Hw. pose proof (numbers_sorted _ _ (ew_numbers _ _ _ _ Hw)) as Hs.
  destruct (bt_get (gr_versions entry) (vi_version target)) as [v|] eqn:Hv; [|by intros [= <- <-]].
  assert (Hnum : rv_version v = vi_version target).
  { apply bt_get_elem in Hv; [|done]. by destruct (ew_records _ _ _ _ Hw _ _ Hv) as (_ & _ & ? & _). }
  destruct (bool_decide (rv_content_hash v = _)) eqn:Hh; cbn [negb]; cycle 1.
  { apply bool_decide_eq_false in Hh. intros [= <- <-]. split; [|done]. eexists. split; [done|].
    intros <-. by apply Hh. }
  apply bool_decide_eq_true in Hh.
  assert (Hid : version_identity v = target) by (unfold version_identity; rewrite Hnum, Hh; by destruct target).
  cbn [fmap option_fmap option_map]. rewrite Hid. set (observed := version_identity <$> _).
  destruct (bool_decide (observed = Some target)) eqn:Ho; [apply bool_decide_eq_true in Ho; by intros [= <- <-]|].
  apply bool_decide_eq_false in Ho. destruct (baseline_matches _ _) eqn:Hb; cbn [negb]; intros [= <- <-].
  - split_and!; try done.
    + unfold baseline_matches in Hb. destruct (ga_expected_active req); [by destruct observed|].
      by apply bool_decide_eq_true in Hb.
    + rewrite find_active_entry, lookup_insert_eq. cbn. rewrite Hv. cbn. by rewrite Hid.
    + intros g' key' v'. rewrite !find_version_entry. destruct (decide ((g, key) = (g', key'))) as [[= <- <-]|Hne].
      * by rewrite lookup_insert_eq, Hl.
      * by rewrite lookup_insert_ne.
    + intros g' key' Hne. rewrite !find_active_entry, lookup_insert_ne by congruence. done.
  - split_and!; try done. unfold baseline_matches in Hb. destruct (ga_expected_active req).
    + by destruct observed.
    + by apply bool_decide_eq_false in Hb.
Qed.

(** A guarded activation is a compare-and-set on the active version. It answers
    that the target is active already, or that the observed version is not the
    expected one, without changing anything; or it found exactly the expected
    version and makes the target, a published version with the given hash, active.
    Errors change nothing. *)
Theorem guarded_activation_compares_and_sets hasher st req r st' :
  ruleset_store_wf hasher st → activate_guarded req st = (r, st') → guarded_contract st st' req r.
Proof. apply activate_guarded_contract. Qed.
