(* ===== verification/Readiness.v ===== *)
(** * Readiness of a rule set in a guild

    The crate [automation-ruleset-readiness]: the capabilities of the bot and the
    permissions of the bound roles from a snapshot of the guild, the gate a version
    passes before it runs, the role hierarchy, and activation and hydration over a
    rule set store. *)

From Stdlib Require Import ZArith Lia Ascii String.
From stdpp Require Import base decidable list strings gmap numbers sets.
From S2P Require Import Prelude RustStd DiscordModel Resolution AutomationState AutomationPlan AutomationValidate RuleSet.
Open Scope Z_scope.

(** ** Context *)
Inductive ReadinessContextError :=
| EveryoneRoleMissing
| BoundRoleMissing (key : ResourceKey) (role_id : RoleId).

Record GuildCapabilities := mkCapabilities { base_permissions : Permissions }.

Definition satisfies (c : GuildCapabilities) (required : Permissions) : bool :=
  perms_contains (base_permissions c) ADMINISTRATOR || perms_contains (base_permissions c) required.

(** The entries of a [BTreeMap] that is a [gmap] elsewhere, in key order. *)
Definition btree_entries {V} (m : gmap string V) : list (string * V) :=
  foldr (λ '(k, v) sorted, bt_insert k v sorted) [] (map_to_list m).

(** The loop over the role bindings. *)
Fixpoint bound_permissions (snapshot : gmap RoleId Permissions) (bound : list (string * RoleId))
    (acc : gmap string Permissions) : Result ReadinessContextError (gmap string Permissions) :=
  match bound with
  | [] => Ok acc
  | (key, role_id) :: rest =>
      perms ← ok_or (snapshot !! role_id) (BoundRoleMissing key role_id);
      bound_permissions snapshot rest (<[key := perms]> acc)
  end.

Definition build_readiness_context (g : GuildId) (bindings : ResourceBindingMap)
    (snapshot : gmap RoleId Permissions) (bot_role_ids : list RoleId)
  : Result ReadinessContextError (GuildCapabilities * gmap string Permissions) :=
  everyone ← ok_or (snapshot !! g) EveryoneRoleMissing;
  let base := foldl (λ base role_id, Z.lor base (default 0 (snapshot !! role_id))) everyone bot_role_ids in
  role_permissions ← bound_permissions snapshot (btree_entries (role_bindings bindings)) ∅;
  Ok (mkCapabilities base, role_permissions).

(** ** The gate *)
Definition action_capabilities (action : ActionSpec) : Permissions :=
  match action with
  | CreateRole _ _ | GrantRole _ _ | UpsertOverwrite _ _ _ _ => MANAGE_ROLES
  | CreateChannel _ _ => MANAGE_CHANNELS
  | TeardownInstance _ => Z.lor MANAGE_ROLES MANAGE_CHANNELS
  | _ => 0
  end.

Definition required_capabilities (ruleset : InteractionRuleSet) : Permissions :=
  foldl (λ required action, Z.lor required (action_capabilities action)) 0
    (rs_rules ruleset ≫= ru_actions).

Inductive PolicySeverity := SeverityNotice | SeverityBlocking.

Definition policy_severity (finding : PolicyFinding) : PolicySeverity :=
  match finding with
  | DynamicResourceCreation _ _ | CreatedResourceReference _ | EveryoneOverwrite _
  | RuntimeMessagePost _ | RuntimeInteractivePanel _ => SeverityNotice
  | _ => SeverityBlocking
  end.

Definition is_blocking (finding : PolicyFinding) : bool :=
  match policy_severity finding with SeverityBlocking => true | SeverityNotice => false end.

Inductive ReadinessError :=
| UnsupportedSchema (version : Z)
| StructurallyInvalid (errors : Errors)
| HashComputation (e : RuleSetHashError)
| ReadinessHashMismatch
| BindingInvalid (errors : Errors)
| BlockingPolicy (findings : list PolicyFinding)
| MissingCapabilities (missing : Permissions).

Record RuntimeRuleSet := mkRuntimeRuleSet {
  rt_guild_id : GuildId;
  rt_ruleset_key : RuleSetKey;
  rt_version : RuleSetVersionId;
  rt_definition : InteractionRuleSet;
  rt_notices : list PolicyFinding
}.

(** [!base] on the flags: the named flags that [base] lacks. *)
Definition perms_not (p : Permissions) : Permissions := Z.land perms_all (u64_not p).

Section readiness.
Context (content_hash : Z → InteractionRuleSet → Result RuleSetHashError (list Z)).

Definition check_readiness (artifact : RuleSetVersion) (bindings : ResourceBindingMap)
    (capabilities : GuildCapabilities) (role_permissions : gmap string Permissions)
  : Result ReadinessError RuntimeRuleSet :=
  let definition := rv_definition artifact in
  _ ← ensure (rv_schema_version artifact =? CURRENT_RULESET_SCHEMA_VERSION)
        (UnsupportedSchema (rv_schema_version artifact));
  _ ← map_err StructurallyInvalid (validate_structural definition);
  recomputed ← map_err HashComputation (content_hash (rv_schema_version artifact) definition);
  _ ← ensure (bool_decide (recomputed = rv_content_hash artifact)) ReadinessHashMismatch;
  _ ← map_err BindingInvalid (validate_bindings definition bindings);
  let findings := analyze definition role_permissions in
  let blocking := List.filter is_blocking findings in
  _ ← ensure (bool_decide (length blocking = 0%nat)) (BlockingPolicy blocking);
  let notices := List.filter (λ f, negb (is_blocking f)) findings in
  let required := required_capabilities definition in
  _ ← ensure (satisfies capabilities required)
        (MissingCapabilities (Z.land required (perms_not (base_permissions capabilities))));
  Ok (mkRuntimeRuleSet (rv_guild_id artifact) (rv_ruleset_key artifact) (rv_version artifact)
        definition notices).

(** ** Activation and hydration, over the in-memory store *)
Inductive ActivationError :=
| ActivationVersionLookup (e : RuleSetStoreError)
| ActivationVersionNotFound
| ActivationNotReady (e : ReadinessError)
| ActivateFailed (e : RuleSetStoreError).

Definition activate_if_ready (g : GuildId) (key : RuleSetKey) (version : RuleSetVersionId)
    (bindings : ResourceBindingMap) (capabilities : GuildCapabilities)
    (role_permissions : gmap string Permissions)
  : Cmd (gmap (GuildId * RuleSetKey) GuildRuleSet) ActivationError (RuleSetActivation * RuntimeRuleSet) :=
  found ← cmd_map_err ActivationVersionLookup (get_version g key version);
  artifact ← cmd_lift (λ _, ok_or found ActivationVersionNotFound);
  runtime ← cmd_lift (λ _, map_err ActivationNotReady
                             (check_readiness artifact bindings capabilities role_permissions));
  activation ← cmd_map_err ActivateFailed (activate g key version);
  cmd_ret (activation, runtime).

Inductive HydrationError :=
| NoActiveRuleSet
| HydrationStore (e : RuleSetStoreError)
| HydrationNotReady (e : ReadinessError).

Definition hydrate_active_ruleset (g : GuildId) (key : RuleSetKey) (bindings : ResourceBindingMap)
    (capabilities : GuildCapabilities) (role_permissions : gmap string Permissions)
  : Cmd (gmap (GuildId * RuleSetKey) GuildRuleSet) HydrationError RuntimeRuleSet :=
  found ← cmd_map_err HydrationStore (active g key);
  artifact ← cmd_lift (λ _, ok_or found NoActiveRuleSet);
  cmd_lift (λ _, map_err HydrationNotReady (check_readiness artifact bindings capabilities role_permissions)).
End readiness.

(** ** Role hierarchy *)
Definition MAX_GUILD_ROLES : nat := 250.
Definition MAX_BOT_ROLES : nat := 250.

Record GuildRoleStateV1 := mkRoleState {
  gs_position : Z;
  gs_managed : bool
}.

Inductive GuildRoleHierarchyErrorV1 :=
| InvalidGuild | RoleLimitExceeded | InvalidRole | EveryoneMissing | EveryoneInvalid
| BotRoleLimitExceeded | DuplicateBotRole | InvalidBotRole | BotRoleMissing.

Record GuildRoleHierarchyV1 := mkHierarchy {
  hi_guild_id : GuildId;
  hi_roles : list (RoleId * GuildRoleStateV1);
  hi_bot_role_ids : list RoleId
}.

(** [into_iter().collect::<BTreeSet<_>>()]. *)
Definition btree_set (l : list Z) : list Z := (foldl (λ s x, bt_insert x tt s) [] l).*1.

Definition hierarchy_new (g : GuildId) (roles : list (RoleId * GuildRoleStateV1)) (bot_role_ids : list RoleId)
  : Result GuildRoleHierarchyErrorV1 GuildRoleHierarchyV1 :=
  _ ← ensure (negb (g =? 0)) InvalidGuild;
  _ ← ensure (negb (bool_decide (length roles = 0%nat) || bool_decide (MAX_GUILD_ROLES < length roles)%nat))
        RoleLimitExceeded;
  _ ← ensure (negb (existsb (λ r, r.1 =? 0) roles)) InvalidRole;
  everyone ← ok_or (bt_get roles g) EveryoneMissing;
  _ ← ensure ((gs_position everyone =? 0) && negb (gs_managed everyone)) EveryoneInvalid;
  _ ← ensure (negb (bool_decide (MAX_BOT_ROLES < length bot_role_ids)%nat)) BotRoleLimitExceeded;
  let canonical := btree_set bot_role_ids in
  if bool_decide (length canonical = 0%nat) then Ok (mkHierarchy g roles [])
  else
    _ ← ensure (bool_decide (length canonical = length bot_role_ids)) DuplicateBotRole;
    _ ← ensure (negb (existsb (Z.eqb g) canonical || existsb (Z.eqb 0) canonical)) InvalidBotRole;
    _ ← ensure (negb (existsb (λ id, negb (is_some (bt_get roles id))) canonical)) BotRoleMissing;
    Ok (mkHierarchy g roles canonical).

Definition compare_roles (left right : RoleId * GuildRoleStateV1) : comparison :=
  match gs_position left.2 ?= gs_position right.2 with
  | Eq => right.1 ?= left.1
  | c => c
  end.

(** [max_by]: of equal elements the last is kept. *)
Definition max_by {A} (compare : A → A → comparison) (l : list A) : option A :=
  foldl (λ best x, match best with
                   | None => Some x
                   | Some b => match compare b x with Gt => Some b | _ => Some x end
                   end) None l.

Definition highest_bot_role (h : GuildRoleHierarchyV1) : option (RoleId * GuildRoleStateV1) :=
  max_by compare_roles
    (omap (λ id, (λ st, (id, st)) <$> bt_get (hi_roles h) id) (hi_bot_role_ids h)).

Definition outranks (highest : option (RoleId * GuildRoleStateV1)) (role : RoleId * GuildRoleStateV1) : bool :=
  is_some_and (λ b, match compare_roles b role with Gt => true | _ => false end) highest.

Definition can_create_role (h : GuildRoleHierarchyV1) : bool :=
  match bt_get (hi_roles h) (hi_guild_id h) with
  | None => false
  | Some everyone => outranks (highest_bot_role h) (hi_guild_id h, everyone)
  end.

Inductive RoleHierarchyReadinessErrorV1 :=
| EvidenceUnavailable | ContextGuildMismatch | TargetBindingMissing | TargetRoleMissing
| TargetRoleUnassignable | TargetRoleOutranksBot | BotHierarchyInsufficient
| CreatedRoleReferenceInvalid | UnsupportedDynamicRoleReference.

Definition can_manage_role (h : GuildRoleHierarchyV1) (role_id : RoleId)
  : Result RoleHierarchyReadinessErrorV1 unit :=
  _ ← ensure (negb (role_id =? hi_guild_id h)) TargetRoleUnassignable;
  target ← ok_or (bt_get (hi_roles h) role_id) TargetRoleMissing;
  _ ← ensure (negb (gs_managed target)) TargetRoleUnassignable;
  ensure (outranks (highest_bot_role h) (role_id, target)) TargetRoleOutranksBot.

Record RoleHierarchyReadyV1 := mkHierarchyReady {
  hr_checked_existing_grants : nat;
  hr_created_role_postcheck_required : bool;
  hr_instance_role_runtime_recheck_required : bool
}.

Definition requires_role_management (ruleset : InteractionRuleSet) : bool :=
  existsb (λ rule, existsb (λ a, match a with
                                 | CreateRole _ _ | GrantRole _ _ | TeardownInstance _ => true
                                 | _ => false
                                 end) (ru_actions rule)) (rs_rules ruleset).

Definition require_role_creation (h : GuildRoleHierarchyV1) : Result RoleHierarchyReadinessErrorV1 unit :=
  ensure (can_create_role h) BotHierarchyInsufficient.

Definition ready_grant (r : RoleHierarchyReadyV1) : RoleHierarchyReadyV1 :=
  mkHierarchyReady (S (hr_checked_existing_grants r)) (hr_created_role_postcheck_required r)
    (hr_instance_role_runtime_recheck_required r).
Definition ready_postcheck (r : RoleHierarchyReadyV1) : RoleHierarchyReadyV1 :=
  mkHierarchyReady (hr_checked_existing_grants r) true (hr_instance_role_runtime_recheck_required r).
Definition ready_recheck (r : RoleHierarchyReadyV1) : RoleHierarchyReadyV1 :=
  mkHierarchyReady (hr_checked_existing_grants r) (hr_created_role_postcheck_required r) true.

Definition check_action_hierarchy (bindings : ResourceBindingMap) (h : GuildRoleHierarchyV1)
    (action : ActionSpec) (created : gset string) (ready : RoleHierarchyReadyV1)
  : Result RoleHierarchyReadinessErrorV1 (gset string * RoleHierarchyReadyV1) :=
  match action with
  | CreateRole key _ =>
      _ ← require_role_creation h; Ok ({[key]} ∪ created, ready_postcheck ready)
  | GrantRole (RoleExisting key) _ =>
      role_id ← ok_or (role_bindings bindings !! key) TargetBindingMissing;
      _ ← can_manage_role h role_id; Ok (created, ready_grant ready)
  | GrantRole (RoleCreated key) _ =>
      _ ← ensure (bool_decide (key ∈ created)) CreatedRoleReferenceInvalid;
      _ ← require_role_creation h; Ok (created, ready_postcheck ready)
  | GrantRole (RoleInstance InstanceEvent _) _ =>
      _ ← require_role_creation h; Ok (created, ready_recheck ready)
  | GrantRole (RoleInstance (InstanceCreated _) _) _ => Err UnsupportedDynamicRoleReference
  | TeardownInstance _ =>
      _ ← require_role_creation h; Ok (created, ready_recheck ready)
  | _ => Ok (created, ready)
  end.

Fixpoint check_actions_hierarchy (bindings : ResourceBindingMap) (h : GuildRoleHierarchyV1)
    (actions : list ActionSpec) (created : gset string) (ready : RoleHierarchyReadyV1)
  : Result RoleHierarchyReadinessErrorV1 RoleHierarchyReadyV1 :=
  match actions with
  | [] => Ok ready
  | action :: rest =>
      cr ← check_action_hierarchy bindings h action created ready;
      check_actions_hierarchy bindings h rest cr.1 cr.2
  end.

Fixpoint check_rules_hierarchy (bindings : ResourceBindingMap) (h : GuildRoleHierarchyV1)
    (rules : list InteractionRule) (ready : RoleHierarchyReadyV1)
  : Result RoleHierarchyReadinessErrorV1 RoleHierarchyReadyV1 :=
  match rules with
  | [] => Ok ready
  | rule :: rest =>
      ready' ← check_actions_hierarchy bindings h (ru_actions rule) ∅ ready;
      check_rules_hierarchy bindings h rest ready'
  end.

Definition check_role_hierarchy_v1 (artifact : RuleSetVersion) (bindings : ResourceBindingMap)
    (hierarchy : option GuildRoleHierarchyV1)
  : Result RoleHierarchyReadinessErrorV1 RoleHierarchyReadyV1 :=
  let start := mkHierarchyReady 0 false false in
  if negb (requires_role_management (rv_definition artifact)) then Ok start
  else
    h ← ok_or hierarchy EvidenceUnavailable;
    _ ← ensure (hi_guild_id h =? rv_guild_id artifact) ContextGuildMismatch;
    check_rules_hierarchy bindings h (rs_rules (rv_definition artifact)) start.
