(* ===== verification/ReadinessSpec.v ===== *)
(** * What readiness guarantees

    The gate accepts a version exactly when it may run: current schema, valid rules
    and bindings, untouched content, nothing privileged, enough capabilities. The
    role hierarchy check on valid rules fails only for the guild's sake, and when it
    succeeds every role the rules grant is below a role of the bot. *)

From Stdlib Require Import ZArith Lia Ascii String.
From stdpp Require Import base decidable list strings gmap numbers sets.
From S2P Require Import Prelude RustStd DiscordModel Resolution AutomationState AutomationPlan AutomationValidate AutomationSound RuleSet RuleSetSpec Readiness.
Open Scope Z_scope.

(** ** The gate *)

(** Nothing a rule does hands out a privileged permission. *)
Definition unprivileged (roles : gmap string Permissions) (a : ActionSpec) : Prop :=
  match a with
  | GrantRole (RoleExisting key) _ => ∀ p, roles !! key = Some p → Z.land p automation_privileged_mask = 0
  | UpsertOverwrite _ _ allow _ => Z.land allow automation_privileged_mask = 0
  | _ => True
  end.

Lemma intersects_false a b : perms_intersects a b = false ↔ Z.land a b = 0.
Proof. unfold perms_intersects. by rewrite negb_false_iff, Z.eqb_eq. Qed.

Lemma analyze_action_blocking roles rule a :
  List.filter is_blocking (analyze_action roles rule a) = [] ↔ unprivileged roles a.
Proof.
  destruct a as [[k|k|i k] t|content|modal|k n|k n|ch [|r] al dn|k ch c [|b bs]| |content|k kind r|i]; cbn; try done.
  - destruct (roles !! k) as [p|]; cbn; [|by split].
    destruct (perms_intersects p _) eqn:E; cbn.
    + split; [done|]. intros Hp. specialize (Hp p eq_refl). apply intersects_false in Hp. congruence.
    + split; [|done]. intros _ p' [= <-]. by apply intersects_false.
  - destruct (perms_intersects al _) eqn:E; cbn; rewrite <- intersects_false; split; congruence.
  - destruct (perms_intersects al _) eqn:E; cbn; rewrite <- intersects_false; split; congruence.
Qed.

Lemma filter_bind_nil {A B} (p : B → bool) (f : A → list B) l :
  List.filter p (l ≫= f) = [] ↔ ∀ x, x ∈ l → List.filter p (f x) = [].
Proof.
  induction l as [|x l IH]; cbn.
  - split; [intros _ x Hx; by apply not_elem_of_nil in Hx|done].
  - rewrite List.filter_app, app_nil, IH. split.
    + intros [Hx Hl] y [->|Hy]%elem_of_cons; auto.
    + intros Hl. split; [apply Hl; left|]. intros y Hy. apply Hl. by right.
Qed.

Lemma analyze_blocking ruleset roles :
  List.filter is_blocking (analyze ruleset roles) = [] ↔
  ∀ rule a, rule ∈ rs_rules ruleset → a ∈ ru_actions rule → unprivileged roles a.
Proof.
  unfold analyze. rewrite filter_bind_nil. split.
  - intros Hall rule a Hr Ha. specialize (Hall rule Hr). rewrite filter_bind_nil in Hall.
    by eapply analyze_action_blocking, Hall.
  - intros Hall rule Hr. rewrite filter_bind_nil. intros a Ha. by eapply analyze_action_blocking, Hall.
Qed.

Lemma required_spec ruleset p :
  (∀ rule a, rule ∈ rs_rules ruleset → a ∈ ru_actions rule → perms_contains p (action_capabilities a) = true) ↔
  perms_contains p (required_capabilities ruleset) = true.
Proof.
  unfold required_capabilities. rewrite perms_contains_spec.
  assert (Hfold : ∀ (actions : list ActionSpec) acc i, 0 ≤ i →
    Z.testbit (foldl (λ r a, Z.lor r (action_capabilities a)) acc actions) i = true ↔
    Z.testbit acc i = true ∨ ∃ a, a ∈ actions ∧ Z.testbit (action_capabilities a) i = true).
  { induction actions as [|a actions IH]; intros acc i Hi; cbn.
    - split; [by left|]. intros [?|(a & Ha & _)]; [done|by apply not_elem_of_nil in Ha].
    - rewrite IH by done. rewrite Z.lor_spec, orb_true_iff. setoid_rewrite elem_of_cons. naive_solver. }
  split.
  - intros Hall i Hi. rewrite Hfold by done. rewrite Z.bits_0. intros [?|(a & Ha & Hb)]; [done|].
    apply list_elem_of_bind in Ha as (rule & Ha & Hr). specialize (Hall rule a Hr Ha).
    rewrite perms_contains_spec in Hall. auto.
  - intros Hall rule a Hr Ha. apply perms_contains_spec. intros i Hi Hb. apply Hall; [done|].
    apply Hfold; [done|]. right. exists a. split; [|done]. apply list_elem_of_bind. eauto.
Qed.

(** *** What an action changes in a guild

    Roles, when it creates one, hands one out, changes who may do what in a channel or
    removes what an instance created; channels, when it creates one or removes those of an
    instance. Discord lets a member do so who has the bit 28 ([MANAGE_ROLES]), the bit 4
    ([MANAGE_CHANNELS]), or the bit 3 ([ADMINISTRATOR]) for everything. *)
Inductive changes_roles : ActionSpec → Prop :=
| creates_role k n : changes_roles (CreateRole k n)
| grants_role r t : changes_roles (GrantRole r t)
| sets_overwrite c t allow deny : changes_roles (UpsertOverwrite c t allow deny)
| removes_roles i : changes_roles (TeardownInstance i).

Inductive changes_channels : ActionSpec → Prop :=
| creates_channel k n : changes_channels (CreateChannel k n)
| removes_channels i : changes_channels (TeardownInstance i).

Definition may_perform (p : Permissions) (a : ActionSpec) : Prop :=
  (changes_roles a → Z.testbit p 28 = true) ∧ (changes_channels a → Z.testbit p 4 = true).

Lemma action_capabilities_spec p a : perms_contains p (action_capabilities a) = true ↔ may_perform p a.
Proof.
  pose proof (perms_contains_flag p 28 ltac:(done)) as Hr. pose proof (perms_contains_flag p 4 ltac:(done)) as Hc.
  change (perms_contains p MANAGE_ROLES = Z.testbit p 28) in Hr.
  change (perms_contains p MANAGE_CHANNELS = Z.testbit p 4) in Hc.
  assert (Hnone : perms_contains p 0 = true) by (apply perms_contains_spec; intros i _; by rewrite Z.bits_0).
  assert (Hboth : perms_contains p (Z.lor MANAGE_ROLES MANAGE_CHANNELS) = true ↔
                  Z.testbit p 28 = true ∧ Z.testbit p 4 = true).
  { rewrite <-Hr, <-Hc, !perms_contains_spec. setoid_rewrite Z.lor_spec. setoid_rewrite orb_true_iff. naive_solver. }
  unfold may_perform. destruct a; cbn [action_capabilities]; rewrite ?Hboth, ?Hr, ?Hc, ?Hnone;
    (split; [intros; split; intros Hch; inversion Hch; naive_solver|]);
    intros [Hroles Hchannels]; try done; try split; first [apply Hroles|apply Hchannels]; constructor.
Qed.

(** What a version has to satisfy to run in a guild. *)
Definition runnable (content_hash : Z → InteractionRuleSet → Result RuleSetHashError (list Z))
    (artifact : RuleSetVersion) (bindings : ResourceBindingMap) (capabilities : GuildCapabilities)
    (roles : gmap string Permissions) : Prop :=
  let definition := rv_definition artifact in
  rv_schema_version artifact = CURRENT_RULESET_SCHEMA_VERSION ∧
  automation_validate definition bindings = Ok tt ∧
  content_hash (rv_schema_version artifact) definition = Ok (rv_content_hash artifact) ∧
  (∀ rule a, rule ∈ rs_rules definition → a ∈ ru_actions rule → unprivileged roles a) ∧
  (Z.testbit (base_permissions capabilities) 3 = true ∨
   ∀ rule a, rule ∈ rs_rules definition → a ∈ ru_actions rule → may_perform (base_permissions capabilities) a).

Lemma validate_parts definition bindings :
  automation_validate definition bindings = Ok tt ↔
  validate_structural definition = Ok tt ∧ validate_bindings definition bindings = Ok tt.
Proof.
  unfold automation_validate. rewrite errors_result_Ok, app_nil. unfold validate_structural, validate_bindings.
  destruct (structural_errors definition), (bindings_errors definition bindings); cbn; split; intros []; done.
Qed.

Lemma filter_rest {A} (p : A → bool) l : List.filter p l = [] → List.filter (λ x, negb (p x)) l = l.
Proof.
  induction l as [|x l IH]; cbn; [done|]. destruct (p x); [done|]. cbn. intros H. by rewrite IH.
Qed.

Lemma capabilities_spec definition capabilities :
  satisfies capabilities (required_capabilities definition) = true ↔
  Z.testbit (base_permissions capabilities) 3 = true ∨
  ∀ rule a, rule ∈ rs_rules definition → a ∈ ru_actions rule → may_perform (base_permissions capabilities) a.
Proof.
  unfold satisfies. rewrite orb_true_iff, <-required_spec. setoid_rewrite action_capabilities_spec.
  by rewrite <-(perms_contains_flag _ 3).
Qed.

Lemma check_readiness_Ok content_hash artifact bindings capabilities roles runtime :
  check_readiness content_hash artifact bindings capabilities roles = Ok runtime ↔
  runnable content_hash artifact bindings capabilities roles ∧
  runtime = mkRuntimeRuleSet (rv_guild_id artifact) (rv_ruleset_key artifact) (rv_version artifact)
    (rv_definition artifact) (analyze (rv_definition artifact) roles).
Proof.
  unfold check_readiness, runnable. rewrite validate_parts, <- analyze_blocking, <- capabilities_spec. split.
  - intros (? & H1%ensure_Ok_inv & Hr)%bind_Ok_inv. apply bind_Ok_inv in Hr as ([] & H2%map_err_Ok & Hr).
    apply bind_Ok_inv in Hr as (h & H3%map_err_Ok & Hr).
    apply bind_Ok_inv in Hr as (? & H4%ensure_Ok_inv%bool_decide_eq_true & Hr).
    apply bind_Ok_inv in Hr as ([] & H5%map_err_Ok & Hr). cbv zeta in Hr.
    apply bind_Ok_inv in Hr as (? & H6%ensure_Ok_inv%bool_decide_eq_true%nil_length_inv & Hr).
    apply bind_Ok_inv in Hr as (? & H7%ensure_Ok_inv & [= <-]).
    apply Z.eqb_eq in H1. rewrite H6, (filter_rest _ _ H6), <- H4. split_and!; auto.
  - intros [(H1 & [H2 H5] & H3 & H6 & H7) ->]. rewrite H1 in H3. cbv zeta.
    rewrite H1, Z.eqb_refl, H2, H3, H5, H6, H7, (filter_rest _ _ H6).
    cbn [ensure mbind Result_bind map_err length]. rewrite !bool_decide_true by done. done.
Qed.

(** C35: The readiness gate is exact. A version passes exactly when its schema is
    current, its rules and references validate, its content has the recorded hash,
    no rule grants a bound role with privileged permissions or allows them in an
    overwrite, and the bot is an administrator or may manage roles and channels if
    any action changes roles or channels of the guild; what runs then is the definition
    of that version. *)
Theorem readiness_exact content_hash artifact bindings capabilities roles runtime :
  check_readiness content_hash artifact bindings capabilities roles = Ok runtime ↔
  runnable content_hash artifact bindings capabilities roles ∧
  runtime = mkRuntimeRuleSet (rv_guild_id artifact) (rv_ruleset_key artifact) (rv_version artifact)
    (rv_definition artifact) (analyze (rv_definition artifact) roles).
Proof. apply check_readiness_Ok. Qed.

(** ** Ranks *)

(** A role is above another by position, and at the same position by the smaller id. *)
Definition above (x y : Z * GuildRoleStateV1) : Prop :=
  gs_position y.2 < gs_position x.2 ∨ (gs_position x.2 = gs_position y.2 ∧ x.1 < y.1).

Lemma compare_roles_above x y : compare_roles x y = Gt ↔ above x y.
Proof.
  unfold compare_roles, above. destruct (Z.compare_spec (gs_position x.2) (gs_position y.2)).
  - rewrite Z.compare_gt_iff. lia.
  - split; [done|lia].
  - split; [lia|done].
Qed.

Lemma above_trans x y z : above x y → above y z → above x z.
Proof. unfold above. lia. Qed.

Lemma not_above x y : compare_roles x y ≠ Gt → ∀ z, above x z → above y z.
Proof. rewrite compare_roles_above. unfold above. lia. Qed.

(** What the fold of [max_by] keeps is above whatever some element is above. *)
Definition some_above (o : option (Z * GuildRoleStateV1)) (z : Z * GuildRoleStateV1) : Prop :=
  ∃ b, o = Some b ∧ above b z.

Lemma outranks_spec o z : outranks o z = true ↔ some_above o z.
Proof.
  unfold outranks, some_above. destruct o as [b|]; cbn; [|by split; [|intros (? & ? & _)]].
  split.
  - intros H. exists b. split; [done|]. apply compare_roles_above. by destruct (compare_roles b z).
  - intros (b' & [= <-] & Hb%compare_roles_above). by rewrite Hb.
Qed.

Lemma max_by_above l z : some_above (max_by compare_roles l) z ↔ ∃ b, b ∈ l ∧ above b z.
Proof.
  unfold max_by. set (step := λ best x, match best with None => Some x | Some b => _ end).
  assert (Hstep : ∀ best x, some_above (step best x) z ↔ some_above best z ∨ above x z).
  { unfold some_above. intros [b|] x; cbn; [|naive_solver].
    destruct (compare_roles b x) eqn:E; [| |apply compare_roles_above in E; naive_solver (eauto using above_trans)];
      pose proof (not_above b x ltac:(by rewrite E) z); naive_solver. }
  assert (Hgen : ∀ best, some_above (foldl step best l) z ↔ some_above best z ∨ ∃ b, b ∈ l ∧ above b z).
  { induction l as [|x l IH]; intros best; cbn [foldl].
    - split; [by left|]. intros [?|(b & Hb & _)]; [done|by apply not_elem_of_nil in Hb].
    - rewrite IH, Hstep. setoid_rewrite elem_of_cons. naive_solver. }
  rewrite Hgen. unfold some_above. naive_solver.
Qed.

(** A role of the bot above a given role. *)
Definition bot_above (h : GuildRoleHierarchyV1) (z : Z * GuildRoleStateV1) : Prop :=
  ∃ b st, b ∈ hi_bot_role_ids h ∧ bt_get (hi_roles h) b = Some st ∧ above (b, st) z.

Lemma highest_outranks h z : outranks (highest_bot_role h) z = true ↔ bot_above h z.
Proof.
  rewrite outranks_spec. unfold highest_bot_role, bot_above. rewrite max_by_above. split.
  - intros ([b st] & (id & Hid & Hb)%list_elem_of_omap & Ha).
    apply fmap_Some in Hb as (st' & Hst & [= -> ->]). eauto.
  - intros (b & st & Hb & Hst & Ha). exists (b, st). split; [|done].
    apply list_elem_of_omap. exists b. by rewrite Hst.
Qed.

Definition above_everyone (h : GuildRoleHierarchyV1) : Prop :=
  ∃ st, bt_get (hi_roles h) (hi_guild_id h) = Some st ∧ bot_above h (hi_guild_id h, st).

Definition manageable (h : GuildRoleHierarchyV1) (id : Z) : Prop :=
  id ≠ hi_guild_id h ∧ ∃ st, bt_get (hi_roles h) id = Some st ∧ gs_managed st = false ∧ bot_above h (id, st).

(** The failures that are the guild's: its roles changed or the bot ranks too low. *)
Definition guild_failure (e : RoleHierarchyReadinessErrorV1) : Prop :=
  match e with
  | TargetRoleMissing | TargetRoleUnassignable | TargetRoleOutranksBot | BotHierarchyInsufficient => True
  | _ => False
  end.

(** A check that settles a condition: it succeeds when the condition holds, and fails
    for the guild's sake when it does not. *)
Definition settles {A} (r : Result RoleHierarchyReadinessErrorV1 A) (P : Prop) : Prop :=
  match r with Ok _ => P | Err e => guild_failure e ∧ ¬ P end.

Lemma settles_iff {A} (r : Result _ A) P Q : (P ↔ Q) → settles r P → settles r Q.
Proof. destruct r; cbn; tauto. Qed.

Lemma settles_bind {A B} (r : Result _ A) (k : A → Result _ B) P Q :
  settles r P → (∀ a, r = Ok a → P → settles (k a) Q) → settles (x ← r; k x) (P ∧ Q).
Proof.
  destruct r as [a|e]; cbn; [|tauto]. intros HP Hk. specialize (Hk a eq_refl HP).
  destruct (k a); cbn in *; tauto.
Qed.

Lemma settles_ret {A B} (r : Result _ A) (b : A → B) P : settles r P → settles (x ← r; Ok (b x)) P.
Proof. by destruct r. Qed.

Lemma settles_ensure b e P : guild_failure e → (b = true ↔ P) → settles (ensure b e) P.
Proof. intros He Hb. destruct b; cbn; [by apply Hb|]. split; [done|]. intros HP%Hb. done. Qed.

Lemma require_role_creation_settles h : settles (require_role_creation h) (above_everyone h).
Proof.
  apply settles_ensure; [done|]. unfold can_create_role, above_everyone.
  destruct (bt_get _ _) as [st|]; [rewrite highest_outranks; naive_solver|naive_solver].
Qed.

Lemma can_manage_role_settles h id : settles (can_manage_role h id) (manageable h id).
Proof.
  unfold can_manage_role, manageable.
  eapply settles_iff; [|eapply (settles_bind _ _ (id ≠ hi_guild_id h)
    (∃ st, bt_get (hi_roles h) id = Some st ∧ gs_managed st = false ∧ bot_above h (id, st)))]; [done| |].
  - apply settles_ensure; [done|]. by rewrite negb_true_iff, Z.eqb_neq.
  - intros _ _ _. destruct (bt_get (hi_roles h) id) as [st|]; cbn; [|naive_solver].
    eapply settles_iff; [|eapply (settles_bind _ _ (gs_managed st = false) (bot_above h (id, st)))];
      [naive_solver|apply settles_ensure; [done|by rewrite negb_true_iff]|].
    intros _ _ _. apply settles_ensure; [done|apply highest_outranks].
Qed.

(** What an action asks of the hierarchy. *)
Definition action_manageable (bindings : ResourceBindingMap) (h : GuildRoleHierarchyV1) (a : ActionSpec) : Prop :=
  match a with
  | GrantRole (RoleExisting key) _ => ∃ id, role_bindings bindings !! key = Some id ∧ manageable h id
  | GrantRole _ _ | CreateRole _ _ | TeardownInstance _ => above_everyone h
  | _ => True
  end.

Section rules.
Context (bindings : ResourceBindingMap) (h : GuildRoleHierarchyV1).

Lemma check_action_settles inst keys modal_keys rule created names a ready :
  action_ok inst keys modal_keys created a → binding_errors bindings rule a = [] →
  (∀ k, created !! k = Some KindRole → k ∈ names) →
  settles (check_action_hierarchy bindings h a names ready) (action_manageable bindings h a) ∧
  ∀ names' ready', check_action_hierarchy bindings h a names ready = Ok (names', ready') →
    ∀ k, action_created created a !! k = Some KindRole → k ∈ names'.
Proof.
  pose proof (require_role_creation_settles h) as Hreq.
  intros Hok Hb Hn.
  assert (Hgrow : ∀ names' : gset string, names ⊆ names' →
    (match a with CreateRole k _ => k ∈ names' | _ => True end) →
    ∀ k, action_created created a !! k = Some KindRole → k ∈ names').
  { intros names' Hsub Ha k. destruct a; cbn; try (intros Hk%Hn; set_solver);
      intros [[<- ?]|[_ Hk%Hn]]%lookup_insert_Some; done || set_solver. }
  destruct a as [[k|k|[|k] alias] t|content|modal|k n|k n|ch t al dn|k ch c bs| |content|k kind r|i];
    cbn [check_action_hierarchy action_manageable]; try (by split; [|intros ? ? [= <- <-]; apply Hgrow]).
  - cbn in Hb. apply error_if_nil, negb_false_iff, is_some_true in Hb as [id Hid]. rewrite Hid. cbn [ok_or mbind Result_bind].
    split; [apply settles_ret; eapply settles_iff; [|apply can_manage_role_settles]; naive_solver|].
    intros ? ? (? & _ & [= <- <-])%bind_Ok_inv. by apply Hgrow.
  - cbn in Hok. rewrite bool_decide_true by (by apply Hn). cbn [ensure mbind Result_bind].
    split; [by apply settles_ret|]. intros ? ? (? & _ & [= <- <-])%bind_Ok_inv. by apply Hgrow.
  - split; [by apply settles_ret|]. intros ? ? (? & _ & [= <- <-])%bind_Ok_inv. by apply Hgrow.
  - split; [by apply settles_ret|]. intros ? ? (? & _ & [= <- <-])%bind_Ok_inv. apply Hgrow; set_solver.
  - split; [by apply settles_ret|]. intros ? ? (? & _ & [= <- <-])%bind_Ok_inv. by apply Hgrow.
Qed.

Lemma check_actions_settles inst keys modal_keys rule actions :
  (∀ a, a ∈ actions → binding_errors bindings rule a = []) →
  ∀ created names ready, actions_ok inst keys modal_keys created actions →
  (∀ k, created !! k = Some KindRole → k ∈ names) →
  settles (check_actions_hierarchy bindings h actions names ready)
    (∀ a, a ∈ actions → action_manageable bindings h a).
Proof.
  induction actions as [|a actions IH]; intros Hb created names ready Hok Hn; cbn [check_actions_hierarchy].
  { cbn. intros a Ha. by apply not_elem_of_nil in Ha. }
  destruct Hok as [Ha Hok].
  destruct (check_action_settles _ _ _ rule _ _ _ ready Ha (Hb a ltac:(left)) Hn) as [Hs Hnext].
  eapply settles_iff; [|eapply (settles_bind _ _ _ (∀ b, b ∈ actions → action_manageable bindings h b) Hs)].
  - setoid_rewrite elem_of_cons. naive_solver.
  - intros [names' ready'] Heq _. cbn. eapply IH; [|exact Hok|by eapply Hnext]. intros b Hbin. apply Hb. by right.
Qed.

Lemma check_rules_settles modal_keys fields ruleset rules :
  (∀ rule, rule ∈ rules → rule_valid ruleset bindings rule modal_keys fields) → ∀ ready,
  settles (check_rules_hierarchy bindings h rules ready)
    (∀ rule a, rule ∈ rules → a ∈ ru_actions rule → action_manageable bindings h a).
Proof.
  induction rules as [|rule rules IH]; intros Hv ready; cbn [check_rules_hierarchy].
  { cbn. intros rule a Hr. by apply not_elem_of_nil in Hr. }
  pose proof (Hv rule ltac:(left)) as Hr.
  eapply settles_iff; [|eapply (settles_bind _ _ (∀ a, a ∈ ru_actions rule → action_manageable bindings h a)
    (∀ rule a, rule ∈ rules → a ∈ ru_actions rule → action_manageable bindings h a))].
  - setoid_rewrite elem_of_cons. naive_solver.
  - eapply check_actions_settles; [apply (rv_bindings _ _ _ _ _ Hr)|apply (rv_actions _ _ _ _ _ Hr)|].
    intros k Hk. by rewrite lookup_empty in Hk.
  - intros ready' _ _. apply IH. intros r' Hin. apply Hv. by right.
Qed.
End rules.

Lemma no_role_management ruleset bindings h rule a :
  requires_role_management ruleset = false → rule ∈ rs_rules ruleset → a ∈ ru_actions rule →
  action_manageable bindings h a.
Proof.
  intros Hreq Hr Ha. unfold requires_role_management in Hreq.
  assert (Hfalse : (match a with CreateRole _ _ | GrantRole _ _ | TeardownInstance _ => true | _ => false end) = false).
  { rewrite <- not_true_iff_false in Hreq |- *. intros Ht. apply Hreq. apply existsb_exists. exists rule.
    split; [by apply list_elem_of_In|]. apply existsb_exists. exists a. split; [by apply list_elem_of_In|done]. }
  by destruct a.
Qed.

(** The role hierarchy check is exact on validated rules. Over the hierarchy of
    the right guild it succeeds exactly when every bound role the rules grant is
    known, not managed by an integration and below a role of the bot, and the bot
    has a role above everyone if roles are created, granted or torn down; otherwise
    it fails for one of these reasons, never because a reference is dangling. *)
Theorem role_hierarchy_exact artifact bindings h :
  automation_validate (rv_definition artifact) bindings = Ok tt → hi_guild_id h = rv_guild_id artifact →
  settles (check_role_hierarchy_v1 artifact bindings (Some h))
    (∀ rule a, rule ∈ rs_rules (rv_definition artifact) → a ∈ ru_actions rule → action_manageable bindings h a).
Proof.
  intros (modal_keys & fields & _ & _ & Hrules)%validated Hg. unfold check_role_hierarchy_v1.
  destruct (requires_role_management _) eqn:Hreq; cbn [negb ok_or mbind Result_bind].
  - rewrite Hg, Z.eqb_refl. cbn [ensure mbind Result_bind]. by eapply check_rules_settles.
  - cbn. intros rule a. by apply no_role_management.
Qed.

Lemma hydrate_active content_hash g key bindings caps roles st artifact runtime :
  find_active st g key = Some artifact → check_readiness content_hash artifact bindings caps roles = Ok runtime →
  hydrate_active_ruleset content_hash g key bindings caps roles st = (Ok runtime, st).
Proof.
  intros Ha Hr. unfold hydrate_active_ruleset, active, cmd_map_err, cmd_lift, mbind, Cmd_bind, cmd_bind.
  rewrite Ha. cbn. by rewrite Hr.
Qed.

Lemma publishes_keep_active hasher st requests g key :
  ruleset_store_wf hasher st →
  find_active (foldl (λ st req, (publish hasher req st).2) st requests) g key = find_active st g key.
Proof.
  revert st. induction requests as [|req requests IH]; intros st Hst; [done|]. cbn.
  rewrite IH by (by apply publish_wf). by apply publish_keeps_active.
Qed.

(** Activation is gated, and what it activates is what runs. Activating a version
    changes the store only when the version is published and passes the gate; the
    rule set it reports is then what hydration returns in the same guild, also after
    further publications; and a version that fails leaves the active one in place. *)
Theorem activation_gates_and_hydrates hasher content_hash st g key v bindings caps roles r st' requests :
  ruleset_store_wf hasher st →
  activate_if_ready content_hash g key v bindings caps roles st = (r, st') →
  match r with
  | Ok (activation, runtime) =>
      act_active_version activation = v ∧ rt_version runtime = v ∧
      let later := foldl (λ st req, (publish hasher req st).2) st' requests in
      hydrate_active_ruleset content_hash g key bindings caps roles later = (Ok runtime, later)
  | Err ActivationVersionNotFound => find_version st g key v = None ∧ st' = st
  | Err (ActivationNotReady e) => st' = st ∧ ∃ artifact, find_version st g key v = Some artifact ∧
      check_readiness content_hash artifact bindings caps roles = Err e
  | Err _ => False
  end.
Proof.
  intros Hst. unfold activate_if_ready, get_version, cmd_map_err, cmd_lift, mbind, Cmd_bind, cmd_bind.
  destruct (find_version st g key v) as [artifact|] eqn:Hf; cbn [map_err ok_or]; [|by intros [= <- <-]].
  destruct (check_readiness _ artifact _ _ _) as [runtime|e] eqn:Hr; cbn [map_err]; [|by intros [= <- <-]; eauto].
  destruct (find_version_log hasher _ _ _ _ _ Hst Hf) as (_ & _ & Hw).
  pose proof (run_op_wf hasher st (OpActivate g key v) Hst) as [Hst' _]. cbn [run_ruleset_op] in Hst'.
  revert Hst'. unfold activate. pose proof Hf as Hf'. unfold find_version in Hf'.
  destruct (st !! (g, key)) as [entry|] eqn:Hl; [|done]. cbn in Hf'. rewrite Hf'. cbn [is_some snd map_err].
  intros Hst' [= <- <-]. pose proof Hr as Hrt. apply check_readiness_Ok in Hrt as [_ ->].
  split_and!; [done|apply Hw|]. cbv zeta. eapply hydrate_active; [|exact Hr].
  rewrite (publishes_keep_active hasher) by done. rewrite find_active_entry, lookup_insert_eq. cbn. exact Hf'.
Qed.
