(* ===== verification/Dispatch.v ===== *)
(** * Dispatching instance actions

    The crate [automation-ruleset-dispatch]: a button of an instance is answered by
    the rule set version the instance is pinned to. The stores, the snapshot of the
    guild's roles and the services are classes over one world. *)

From Stdlib Require Import ZArith Lia Ascii String.
From stdpp Require Import base decidable list strings gmap numbers sets.
From S2P Require Import Prelude RustStd DiscordModel Resolution Instance Teardown AutomationState Template.
From S2P Require Import AutomationPlan AutomationValidate AutomationExec AutomationSound RuleSet RuleSetSpec.
From S2P Require Import Readiness ReadinessSpec.
Open Scope Z_scope.

(** ** Errors *)
Abbreviation SnapshotError := string (only parsing).

Inductive DispatchError :=
| DeferFailed (e : AdapterError)
| InstanceLookup (e : InstanceStoreError)
| InstanceNotFound
| InstanceInactive (status : InstanceStatus)
| PinnedKeyInvalid
| VersionLookup (e : RuleSetStoreError)
| PinnedVersionMissing
| SnapshotFailed (e : SnapshotError)
| ContextInvalid (e : ReadinessContextError)
| NotReady (e : ReadinessError)
| NoMatchingRule (action : string)
| Execution (e : AdapterError).

Inductive FailureResponseOutcome := NotAttempted | FailureSent | FailureFailed (e : AdapterError).

Record DispatchFailure := mkDispatchFailure {
  df_cause : DispatchError;
  df_failure_response : FailureResponseOutcome
}.

(** ** Resolving the pinned version *)
Record ResolvedPinnedInstanceV1 := mkPinned {
  rp_instance : AutomationInstance;
  rp_artifact : RuleSetVersion
}.

Inductive PinnedInstanceResolverErrorV1 :=
| ResolverInstanceLookup (e : InstanceStoreError)
| ResolverInstanceNotFound
| ResolverInstanceInactive (status : InstanceStatus)
| ResolverPinnedKeyInvalid
| ResolverVersionLookup (e : RuleSetStoreError)
| ResolverPinnedVersionMissing.

Class PinnedInstanceResolverV1 (W : Type) :=
  resolve_pinned_instance_v1 : GuildId → InstanceId → Cmd W PinnedInstanceResolverErrorV1 ResolvedPinnedInstanceV1.

Class InstanceRouteReaderV1 (W : Type) :=
  read_instance_route_v1 : GuildId → InstanceId → Cmd W InstanceStoreError (option AutomationInstance).

Class RuleSetReader (W : Type) :=
  read_version : GuildId → RuleSetKey → RuleSetVersionId → Cmd W RuleSetStoreError (option RuleSetVersion).

(** [LegacyStoreBackedPinnedInstanceResolverV1], after the instance was read. *)
Definition pinned_key (instance : AutomationInstance)
  : Result PinnedInstanceResolverErrorV1 (RuleSetKey * RuleSetVersionId) :=
  _ ← ensure (bool_decide (ai_status instance = Active)) (ResolverInstanceInactive (ai_status instance));
  key ← map_err (λ _, ResolverPinnedKeyInvalid) (ruleset_key_parse (ai_ruleset_key instance));
  version ← map_err (λ _, ResolverPinnedKeyInvalid) (version_id_new (ai_ruleset_version instance));
  Ok (key, version).

Definition pinned_artifact (g : GuildId) (kv : RuleSetKey * RuleSetVersionId) (found : option RuleSetVersion)
  : Result PinnedInstanceResolverErrorV1 RuleSetVersion :=
  artifact ← ok_or found ResolverPinnedVersionMissing;
  _ ← ensure ((rv_guild_id artifact =? g) && String.eqb (rv_ruleset_key artifact) kv.1
              && (rv_version artifact =? kv.2)) ResolverPinnedVersionMissing;
  Ok artifact.

Definition store_backed_resolver {W} `{InstanceRouteReaderV1 W} `{RuleSetReader W}
  : PinnedInstanceResolverV1 W :=
  λ g instance_id,
  found ← cmd_map_err ResolverInstanceLookup (read_instance_route_v1 g instance_id);
  instance ← cmd_lift (λ _, ok_or found ResolverInstanceNotFound);
  kv ← cmd_lift (λ _, pinned_key instance);
  version ← cmd_map_err ResolverVersionLookup (read_version g kv.1 kv.2);
  artifact ← cmd_lift (λ _, pinned_artifact g kv version);
  cmd_ret (mkPinned instance artifact).

Definition map_resolver_error (e : PinnedInstanceResolverErrorV1) : DispatchError :=
  match e with
  | ResolverInstanceLookup e => InstanceLookup e
  | ResolverInstanceNotFound => InstanceNotFound
  | ResolverInstanceInactive status => InstanceInactive status
  | ResolverPinnedKeyInvalid => PinnedKeyInvalid
  | ResolverVersionLookup e => VersionLookup e
  | ResolverPinnedVersionMissing => PinnedVersionMissing
  end.

(** ** Preparing *)
Record GuildRoleSnapshot := mkRoleSnapshot {
  sn_roles : gmap RoleId Permissions;
  sn_bot_role_ids : list RoleId
}.

Class GuildRoleSnapshotProvider (W : Type) := snapshot : GuildId → Cmd W SnapshotError GuildRoleSnapshot.

Definition validate_resolved_instance_action_v1 (event : RuntimeEvent) (instance_id : InstanceId)
    (expected_ruleset_key : option RuleSetKey) (resolved : ResolvedPinnedInstanceV1)
  : Result DispatchError unit :=
  let instance := rp_instance resolved in
  let artifact := rp_artifact resolved in
  _ ← ensure (bool_decide (ai_status instance = Active)) (InstanceInactive (ai_status instance));
  key ← map_err (λ _, PinnedKeyInvalid) (ruleset_key_parse (ai_ruleset_key instance));
  version ← map_err (λ _, PinnedKeyInvalid) (version_id_new (ai_ruleset_version instance));
  ensure ((ai_guild_id instance =? ev_guild_id event) && String.eqb (ai_id instance) instance_id
          && is_none_or (λ expected, String.eqb expected key) expected_ruleset_key
          && (rv_guild_id artifact =? ev_guild_id event)
          && String.eqb (rv_ruleset_key artifact) key && (rv_version artifact =? version))
    PinnedVersionMissing.

Record PreparedInstanceActionV1 := mkPreparedInstance {
  pi_context : RuntimeContext;
  pi_plan : ActionPlan;
  pi_leading_defer_ephemeral : bool
}.

Definition set_instance (instance : ResolvedInstanceContext) (c : RuntimeContext) : RuntimeContext :=
  mkRuntimeContext (rc_guild_id c) (rc_actor c) (rc_ruleset_key c) (rc_ruleset_version c)
    (rc_inputs c) (Some instance).

(** [steps.remove(0)] of a leading deferral. *)
Definition drop_defer (steps : ActionPlan) : ActionPlan :=
  match steps with PlDeferEphemeral :: rest => rest | _ => steps end.

Section dispatch.
Context (content_hash : Z → InteractionRuleSet → Result RuleSetHashError (list Z)).

Definition prepare_resolved_instance_action_v1 (event : RuntimeEvent) (instance_id : InstanceId)
    (action : string) (expected_ruleset_key : option RuleSetKey) (resolved : ResolvedPinnedInstanceV1)
    (roles : GuildRoleSnapshot) (bindings : ResourceBindingMap)
  : Result DispatchError PreparedInstanceActionV1 :=
  _ ← validate_resolved_instance_action_v1 event instance_id expected_ruleset_key resolved;
  let instance := rp_instance resolved in
  let identity := mkRuleSetIdentity (ai_ruleset_key instance) (ai_ruleset_version instance) in
  context ← map_err ContextInvalid
              (build_readiness_context (ev_guild_id event) bindings (sn_roles roles) (sn_bot_role_ids roles));
  runtime ← map_err NotReady
              (check_readiness content_hash (rp_artifact resolved) bindings context.1 context.2);
  plan ← ok_or (interpret event (rt_definition runtime) bindings) (NoMatchingRule action);
  Ok (mkPreparedInstance
        (set_instance (mkInstanceContext instance action) (context_from_event event identity))
        (drop_defer plan) true).

Context {W : Type} `{PinnedInstanceResolverV1 W} `{GuildRoleSnapshotProvider W} `{AutomationServices W}.

(** [expected_ruleset_key.map(RuleSetKey::parse).transpose()]. *)
Definition parse_expected (expected : option string) : Result DispatchError (option RuleSetKey) :=
  match expected with
  | None => Ok None
  | Some text => map_err (λ _, PinnedKeyInvalid) (Some <$> ruleset_key_parse text)
  end.

Definition prepare_instance_action_with_route_v1 (event : RuntimeEvent) (instance_id : InstanceId)
    (action : string) (expected_ruleset_key : option string) (bindings : ResourceBindingMap)
  : Cmd W DispatchError PreparedInstanceActionV1 :=
  expected ← cmd_lift (λ _, parse_expected expected_ruleset_key);
  resolved ← cmd_map_err map_resolver_error (resolve_pinned_instance_v1 (ev_guild_id event) instance_id);
  _ ← cmd_lift (λ _, validate_resolved_instance_action_v1 event instance_id expected resolved);
  roles ← cmd_map_err SnapshotFailed (snapshot (ev_guild_id event));
  cmd_lift (λ _, prepare_resolved_instance_action_v1 event instance_id action expected resolved roles bindings).

(** The variant for a snapshot that is there already. *)
Definition prepare_instance_action_with_resolver_and_snapshot_v1 (event : RuntimeEvent)
    (instance_id : InstanceId) (action expected_ruleset_key : string) (roles : GuildRoleSnapshot)
    (bindings : ResourceBindingMap) : Cmd W DispatchError PreparedInstanceActionV1 :=
  expected ← cmd_lift (λ _, map_err (λ _, PinnedKeyInvalid) (ruleset_key_parse expected_ruleset_key));
  resolved ← cmd_map_err map_resolver_error (resolve_pinned_instance_v1 (ev_guild_id event) instance_id);
  cmd_lift (λ _, prepare_resolved_instance_action_v1 event instance_id action (Some expected) resolved
                   roles bindings).

(** ** Executing *)
Definition execute_prepared_instance_action_v1 (prepared : PreparedInstanceActionV1)
  : Cmd W DispatchError HandleOutcome :=
  _ ← cmd_map_err Execution (execute_plan (pi_context prepared) (pi_plan prepared));
  cmd_ret HandleExecuted.

Definition emit_failure (failure_message : string) (w : W) : FailureResponseOutcome * W :=
  match (template ← template_parse failure_message; render template [] EphemeralMessageContent) with
  | Err _ => (NotAttempted, w)
  | Ok rendered =>
      match svc_edit_response rendered w with
      | (Ok _, w') => (FailureSent, w')
      | (Err e, w') => (FailureFailed e, w')
      end
  end.

(** Run, and on a failure tell the user. *)
Definition or_emit_failure {A} (failure_message : string) (c : Cmd W DispatchError A)
  : Cmd W DispatchFailure A :=
  λ w, match c w with
       | (Ok a, w') => (Ok a, w')
       | (Err cause, w') =>
           let '(response, w'') := emit_failure failure_message w' in
           (Err (mkDispatchFailure cause response), w'')
       end.

Definition dispatch_instance_action_with_route_v1 (event : RuntimeEvent) (instance_id : InstanceId)
    (action : string) (expected_ruleset_key : option string) (bindings : ResourceBindingMap)
    (failure_message : string) : Cmd W DispatchFailure HandleOutcome :=
  _ ← cmd_map_err (λ e, mkDispatchFailure (DeferFailed e) NotAttempted) svc_defer_ephemeral;
  prepared ← or_emit_failure failure_message
    (prepare_instance_action_with_route_v1 event instance_id action expected_ruleset_key bindings);
  or_emit_failure failure_message (execute_prepared_instance_action_v1 prepared).
End dispatch.

(** ** Dispatched actions run what their instance is pinned to

    Whatever the stores, the snapshot provider and the services answer, an instance
    action is executed only for an active instance, with the rule set version the
    instance was created by, and only if that version may run in the guild now; and
    then it fails only for reasons of run time. *)

(** The instance and version an event may run. *)
Record pinned (event : RuntimeEvent) (instance_id : InstanceId) (resolved : ResolvedPinnedInstanceV1) : Prop := {
  pin_active : ai_status (rp_instance resolved) = Active;
  pin_guild : ai_guild_id (rp_instance resolved) = ev_guild_id event;
  pin_id : ai_id (rp_instance resolved) = instance_id;
  pin_artifact_guild : rv_guild_id (rp_artifact resolved) = ev_guild_id event;
  pin_artifact_key : rv_ruleset_key (rp_artifact resolved) = ai_ruleset_key (rp_instance resolved);
  pin_artifact_version : rv_version (rp_artifact resolved) = ai_ruleset_version (rp_instance resolved)
}.

Lemma ruleset_key_parse_same text key : ruleset_key_parse text = Ok key → key = text.
Proof. unfold ruleset_key_parse. repeat case_match; congruence. Qed.

Lemma version_id_new_same v v' : version_id_new v = Ok v' → v' = v.
Proof. unfold version_id_new. case_match; congruence. Qed.

Lemma validate_resolved_pinned event instance_id expected resolved :
  validate_resolved_instance_action_v1 event instance_id expected resolved = Ok tt →
  pinned event instance_id resolved.
Proof.
  unfold validate_resolved_instance_action_v1. cbv zeta.
  intros (? & H1%ensure_Ok_inv%bool_decide_eq_true & Hr)%bind_Ok_inv.
  apply bind_Ok_inv in Hr as (key & H2%map_err_Ok%ruleset_key_parse_same & Hr).
  apply bind_Ok_inv in Hr as (v & H3%map_err_Ok%version_id_new_same & Hr%ensure_Ok_inv).
  rewrite !andb_true_iff, !Z.eqb_eq, !String.eqb_eq in Hr. destruct Hr as (((((? & ?) & _) & ?) & ?) & ?).
  split; congruence.
Qed.

Lemma drop_defer_suffix event ruleset bindings actions plan :
  plans event ruleset bindings actions plan →
  ∃ rest, plans event ruleset bindings rest (drop_defer plan) ∧
    (actions = rest ∨ actions = DeferEphemeral :: rest).
Proof.
  intros Hp. destruct (prepared_suffix _ _ _ _ _ (mkRuntimeContext 0 0 EmptyString 0 [] None) Hp)
    as (rest & steps & leading & Heq & Hsteps & Hrest).
  exists rest. split; [|done]. replace (drop_defer plan) with steps; [done|].
  by destruct plan as [|[] plan]; injection Heq as <- _.
Qed.

Section dispatch.
Context (content_hash : Z → InteractionRuleSet → Result RuleSetHashError (list Z)).
Context {W : Type} `{PinnedInstanceResolverV1 W} `{GuildRoleSnapshotProvider W} `{AutomationServices W}.

(** The version may run with the capabilities and the roles the bot has in a snapshot of the guild. *)
Definition ready_to_run (event : RuntimeEvent) (resolved : ResolvedPinnedInstanceV1)
    (roles : GuildRoleSnapshot) (bindings : ResourceBindingMap) : Prop :=
  ∃ capabilities permissions,
    build_readiness_context (ev_guild_id event) bindings (sn_roles roles) (sn_bot_role_ids roles)
    = Ok (capabilities, permissions) ∧
    runnable content_hash (rp_artifact resolved) bindings capabilities permissions.

(** What a dispatch loaded before it decided, each from the world the call before it left. *)
Definition loaded (event : RuntimeEvent) (instance_id : InstanceId) (w : W)
    (resolved : ResolvedPinnedInstanceV1) (roles : GuildRoleSnapshot) (w' : W) : Prop :=
  ∃ w1 w2, svc_defer_ephemeral w = (Ok tt, w1) ∧
    resolve_pinned_instance_v1 (ev_guild_id event) instance_id w1 = (Ok resolved, w2) ∧
    snapshot (ev_guild_id event) w2 = (Ok roles, w').

(** What a successful preparation means. *)
Lemma prepare_resolved_Ok event instance_id action expected resolved roles bindings prepared :
  prepare_resolved_instance_action_v1 content_hash event instance_id action expected resolved roles bindings = Ok prepared →
  pinned event instance_id resolved ∧ ready_to_run event resolved roles bindings ∧
  ∃ plan, interpret event (rv_definition (rp_artifact resolved)) bindings = Some plan ∧
    pi_plan prepared = drop_defer plan ∧
    rc_instance (pi_context prepared) = Some (mkInstanceContext (rp_instance resolved) action).
Proof.
  unfold prepare_resolved_instance_action_v1. intros ([] & Hpin%validate_resolved_pinned & Hr)%bind_Ok_inv.
  cbv zeta in Hr. apply bind_Ok_inv in Hr as ([caps perms] & Hctx%map_err_Ok & Hr).
  apply bind_Ok_inv in Hr as (runtime & Hready%map_err_Ok%check_readiness_Ok & Hr). destruct Hready as [Hrun ->].
  apply bind_Ok_inv in Hr as (plan & Hplan%ok_or_Ok_inv & [= <-]).
  split_and!; [done|by exists caps, perms|]. exists plan. done.
Qed.

Lemma find_instance_rule event instance_id action rules rule :
  ev_kind event = EvInstanceAction instance_id action →
  List.find (λ r, trigger_matches (ru_trigger r) (ev_kind event)) rules = Some rule →
  rule ∈ rules ∧ is_instance_rule rule = true.
Proof.
  intros He [Hin%list_elem_of_In Ht]%find_some. split; [done|]. rewrite He in Ht.
  unfold is_instance_rule. by destruct (ru_trigger rule).
Qed.

(** The plan of a pinned version is complete, and runs safely. *)
Lemma prepared_runs_safely event instance_id action expected resolved roles bindings prepared :
  services_speak W → ev_kind event = EvInstanceAction instance_id action →
  posted_instances_registered (rv_definition (rp_artifact resolved)) →
  prepare_resolved_instance_action_v1 content_hash event instance_id action expected resolved roles bindings = Ok prepared →
  safe true (execute_plan (pi_context prepared) (pi_plan prepared)) (λ _, True).
Proof.
  intros Hspeak He Hposted (Hpin & (caps & perms & _ & _ & Hval & _) & plan & Hint & -> & Hinst)%prepare_resolved_Ok.
  unfold interpret in Hint. apply bind_Some in Hint as (rule & Hf & Hplan).
  destruct (find_instance_rule _ _ _ _ _ He Hf) as [Hin Hir].
  apply validated in Hval as (modal_keys & fields & Hmod & _ & Hrules).
  destruct (drop_defer_suffix _ _ _ _ _ (mapM_plans _ _ _ _ _ Hplan)) as (rest & Hp & Hrest).
  pose proof (rv_actions _ _ _ _ _ (Hrules rule Hin)) as Hok. pose proof (Hposted rule Hin) as Hb.
  rewrite Hir in Hok, Hb.
  eapply (execute_plan_ok Hspeak); [|exact Hp|by eapply suffix_buttons|by eapply suffix_ok].
  split; [|by rewrite Hinst; eauto]. intros k. unfold rule_inputs, is_instance_rule in *.
  by destruct (ru_trigger rule).
Qed.

(** An event finds no rule exactly when none matches: validated rules always plan. *)
Lemma interpret_None event ruleset bindings :
  automation_validate ruleset bindings = Ok tt → interpret event ruleset bindings = None →
  Forall (λ r, trigger_matches (ru_trigger r) (ev_kind event) = false) (rs_rules ruleset).
Proof.
  intros (modal_keys & fields & Hmod & _ & Hrules)%validated Hi. apply no_rule. unfold interpret in Hi.
  destruct (List.find _ _) as [rule|] eqn:Hf; [|done]. destruct (find_rule _ _ _ Hf) as [Hin _].
  pose proof (Hrules rule Hin) as Hv.
  destruct (plan_actions_total event ruleset bindings (ru_key rule) _ _ _ _ _ Hmod
    (rv_bindings _ _ _ _ _ Hv) (rv_actions _ _ _ _ _ Hv)) as [plan Hplan].
  cbn in Hi. congruence.
Qed.

(** Errors of the earlier stages are not of the later kinds. *)
Definition early (e : DispatchError) : Prop :=
  match e with NoMatchingRule _ | Execution _ => False | _ => True end.

Lemma validate_resolved_early event instance_id expected resolved e :
  validate_resolved_instance_action_v1 event instance_id expected resolved = Err e → early e.
Proof.
  unfold validate_resolved_instance_action_v1, ensure. cbv zeta.
  destruct (bool_decide _); [|by intros [= <-]]. cbn [mbind Result_bind].
  destruct (ruleset_key_parse _); [|by intros [= <-]]. cbn [map_err mbind Result_bind].
  destruct (version_id_new _); [|by intros [= <-]]. cbn [map_err mbind Result_bind].
  case_match; [done|by intros [= <-]].
Qed.

Lemma prepare_resolved_Err event instance_id action expected resolved roles bindings e :
  prepare_resolved_instance_action_v1 content_hash event instance_id action expected resolved roles bindings = Err e →
  early e ∨ e = NoMatchingRule action ∧
    Forall (λ r, trigger_matches (ru_trigger r) (ev_kind event) = false)
      (rs_rules (rv_definition (rp_artifact resolved))).
Proof.
  unfold prepare_resolved_instance_action_v1.
  destruct (validate_resolved_instance_action_v1 _ _ _ _) as [[]|e0] eqn:Hv; cbv zeta; cbn [mbind Result_bind].
  2: { intros [= <-]. left. by eapply validate_resolved_early. }
  destruct (build_readiness_context _ _ _ _) as [[caps perms]|e0]; cbn [map_err mbind Result_bind];
    [|intros [= <-]; by left].
  destruct (check_readiness _ _ _ _ _) as [runtime|e0] eqn:Hr; cbn [map_err mbind Result_bind];
    [|intros [= <-]; by left].
  apply check_readiness_Ok in Hr as [(_ & Hval & _) ->]. cbn [rt_definition].
  destruct (interpret _ _ _) eqn:Hi; cbn [ok_or mbind Result_bind]; [done|]. intros [= <-].
  right. split; [done|]. by eapply interpret_None.
Qed.

(** The answers of a preparation, with the instance it resolved. *)
Lemma prepare_route_answers event instance_id action expected bindings w r w' :
  prepare_instance_action_with_route_v1 content_hash event instance_id action expected bindings w = (r, w') →
  (∃ e, r = Err e ∧ early e) ∨
  ∃ resolved w1 key roles,
    resolve_pinned_instance_v1 (ev_guild_id event) instance_id w = (Ok resolved, w1) ∧
    snapshot (ev_guild_id event) w1 = (Ok roles, w') ∧
    r = prepare_resolved_instance_action_v1 content_hash event instance_id action key resolved roles bindings.
Proof.
  unfold prepare_instance_action_with_route_v1, mbind, Cmd_bind, cmd_bind, cmd_map_err, cmd_lift.
  destruct (parse_expected expected) as [key|e] eqn:Hk.
  2: { intros [= <- <-]. left. eexists. split; [done|]. destruct expected as [text|]; [|done]. cbn in Hk.
       destruct (ruleset_key_parse text); [done|]. by injection Hk as <-. }
  destruct (resolve_pinned_instance_v1 _ _ w) as [[resolved|e] w1] eqn:Hres; cbn [map_err].
  2: { intros [= <- <-]. left. eexists. split; [done|]. by destruct e. }
  destruct (validate_resolved_instance_action_v1 _ _ _ _) as [[]|e] eqn:Hv.
  2: { intros [= <- <-]. left. eexists. split; [done|]. by eapply validate_resolved_early. }
  destruct (snapshot _ w1) as [[roles|e] w2] eqn:Hsnap; cbn [map_err]; [|by intros [= <- <-]; left; eexists].
  intros [= <- <-]. right. by exists resolved, w1, key, roles.
Qed.

(** What one dispatch may have done, by its answer. *)
Definition dispatch_effect event instance_id action bindings (w : W)
    (r : Result DispatchFailure HandleOutcome) : Prop :=
  match r with
  | Ok _ | Err (mkDispatchFailure (Execution _) _) =>
      ∃ resolved roles w', loaded event instance_id w resolved roles w' ∧
        pinned event instance_id resolved ∧ ready_to_run event resolved roles bindings ∧
        match r with Err (mkDispatchFailure (Execution e) _) => runtime_failure true e | _ => True end
  | Err (mkDispatchFailure (NoMatchingRule a) _) =>
      a = action ∧ ∃ resolved roles w', loaded event instance_id w resolved roles w' ∧
        Forall (λ r, trigger_matches (ru_trigger r) (ev_kind event) = false)
          (rs_rules (rv_definition (rp_artifact resolved)))
  | Err _ => True
  end.
End dispatch.

