(* ===== verification/DispatchExamples.v ===== *)
(** * A sample dispatch

    Study rooms again, published, activated and dispatched: joining a room grants the
    role its instance owns. The theorems on the rule set store, on readiness and on
    dispatch apply to them. *)

From Stdlib Require Import ZArith Lia Ascii String.
From stdpp Require Import base decidable list strings gmap numbers sets.
From S2P Require Import Prelude RustStd RustText DiscordModel Resolution Instance InstanceStore Teardown AutomationState AutomationPlan Template AutomationValidate AutomationExec AutomationSound AutomationFootprint AutomationExamples RuleSet RuleSetSpec Readiness ReadinessSpec Dispatch.
Open Scope Z_scope.
Open Scope string_scope.

Definition room_rules : InteractionRuleSet :=
  mkRuleSet 1 (rs_panels study_rules) (rs_modals study_rules)
    (rs_rules study_rules ++
     [mkRule "join" (OnInstanceAction "join")
        [DeferEphemeral; GrantRole (RoleInstance InstanceEvent "member") Actor; EditResponse "Welcome"]]).

(** A serializer that writes the number of rules, and a digest that repeats it. *)
Definition sample_hash : Z → InteractionRuleSet → Result RuleSetHashError (list Z) :=
  content_hash (λ schema rules, Ok (VObject [("rules", VNumber (Z.of_nat (length (rs_rules rules)))); ("version", VNumber schema)]))
    (λ v, match v with VObject ((_, VNumber n) :: _) => Ok [n mod 256] | _ => Err "unexpected" end)
    (λ bytes, replicate 32 (default 0 (head bytes))).

Definition room_request : PublishRuleSetRequest := mkPublish 7 "study" room_rules 5.

Definition published : gmap (Z * string) GuildRuleSet := (publish sample_hash room_request ∅).2.

Definition room_version : RuleSetVersion :=
  mkRuleSetVersion 7 "study" 1 1 room_rules (replicate 32 3) 5.

Lemma published_found : find_version published 7 "study" 1 = Some room_version.
Proof. vm_compute. reflexivity. Qed.

Lemma published_wf : ruleset_store_wf sample_hash published.
Proof. apply publish_wf, store_wf_start. Qed.

Lemma published_versions_are_permanent_witness :
  let st := foldl (run_ruleset_op sample_hash) ∅ [OpPublish room_request] in
  let st' := foldl (run_ruleset_op sample_hash) st [OpActivate 7 "study" 1; OpPublish (mkPublish 7 "study" study_rules 6)] in
  find_version st' 7 "study" 1 = Some room_version ∧ version_wf sample_hash 7 "study" 1 room_version ∧
  log st' 7 "study" !! 0%nat = Some room_rules ∧
  ∀ a, find_active st' 7 "study" = Some a → find_version st' 7 "study" (rv_version a) = Some a.
Proof.
  refine (published_versions_are_permanent sample_hash [OpPublish room_request]
    [OpActivate 7 "study" 1; OpPublish (mkPublish 7 "study" study_rules 6)] 7 "study" 1 room_version _).
  vm_compute. reflexivity.
Defined.

Lemma publish_answers_witness :
  find_version published 7 "study" 1 = Some room_version ∧
  log published 7 "study" = [room_rules] ∧
  find_active published 7 "study" = None.
Proof.
  destruct (publish_answers sample_hash ∅ room_request (Ok (PublishCreated room_version)) published
    (store_wf_start _)) as (_ & Ha & Hl & _ & _ & _ & Hf); [vm_compute; reflexivity|].
  split_and!; [exact Hf|exact Hl|exact Ha].
Defined.

Definition first_activation : GuardedRuleSetActivation :=
  mkGuardedActivation 7 "study" (mkVersionIdentity 1 (replicate 32 3)) ExpectAbsent.

Lemma guarded_activation_compares_and_sets_witness :
  observed_active published 7 "study" = None ∧
  observed_active (activate_guarded first_activation published).2 7 "study" =
    Some (mkVersionIdentity 1 (replicate 32 3)).
Proof.
  destruct (guarded_activation_compares_and_sets sample_hash published first_activation
    (Ok (Activated (mkActivation 7 "study" 1))) (activate_guarded first_activation published).2 published_wf)
    as (_ & _ & Ho & Ho' & _); [vm_compute; reflexivity|].
  split; [exact Ho|exact Ho'].
Defined.

(** ** Readiness *)
Definition bot_capabilities : GuildCapabilities := mkCapabilities (Z.lor MANAGE_ROLES MANAGE_CHANNELS).

Lemma room_rules_valid : automation_validate room_rules no_bindings = Ok tt.
Proof. vm_compute. reflexivity. Qed.

Lemma room_ready :
  is_ok (check_readiness sample_hash room_version no_bindings bot_capabilities ∅) = true ∧
  check_readiness sample_hash room_version no_bindings (mkCapabilities MANAGE_ROLES) ∅ =
    Err (MissingCapabilities MANAGE_CHANNELS).
Proof. vm_compute. split; reflexivity. Qed.

Definition room_runtime : RuntimeRuleSet :=
  mkRuntimeRuleSet 7 "study" 1 room_rules (analyze room_rules ∅).

Lemma activation_gates_and_hydrates_witness :
  let later := (publish sample_hash (mkPublish 7 "study" study_rules 6)
    (activate_if_ready sample_hash 7 "study" 1 no_bindings bot_capabilities ∅ published).2).2 in
  hydrate_active_ruleset sample_hash 7 "study" no_bindings bot_capabilities ∅ later = (Ok room_runtime, later).
Proof.
  destruct (activation_gates_and_hydrates sample_hash sample_hash published 7 "study" 1 no_bindings
    bot_capabilities ∅ (Ok (mkActivation 7 "study" 1, room_runtime))
    (activate_if_ready sample_hash 7 "study" 1 no_bindings bot_capabilities ∅ published).2
    [mkPublish 7 "study" study_rules 6] published_wf) as (_ & _ & Hh); [vm_compute; reflexivity|].
  exact Hh.
Defined.

Definition sample_hierarchy : GuildRoleHierarchyV1 :=
  mkHierarchy 7 [(7, mkRoleState 0 false); (70, mkRoleState 2 false); (71, mkRoleState 5 true)] [71].

Lemma sample_hierarchy_new :
  hierarchy_new 7 (hi_roles sample_hierarchy) [71] = Ok sample_hierarchy ∧
  can_manage_role sample_hierarchy 70 = Ok tt ∧
  can_manage_role sample_hierarchy 71 = Err TargetRoleUnassignable.
Proof. vm_compute. split_and!; reflexivity. Qed.

Lemma role_hierarchy_exact_witness :
  settles (check_role_hierarchy_v1 room_version no_bindings (Some sample_hierarchy))
    (∀ rule a, rule ∈ rs_rules room_rules → a ∈ ru_actions rule →
       action_manageable no_bindings sample_hierarchy a) ∧
  check_role_hierarchy_v1 room_version no_bindings (Some sample_hierarchy) =
    Ok (mkHierarchyReady 0 true true).
Proof.
  split; [|vm_compute; reflexivity].
  refine (role_hierarchy_exact room_version no_bindings sample_hierarchy _ _);
    [exact room_rules_valid|reflexivity].
Defined.

(** ** Dispatch *)
Definition DispatchWorld : Type := MockWorld * gmap (Z * string) GuildRuleSet.

Definition on_mock {E A} (c : Cmd MockWorld E A) : Cmd DispatchWorld E A :=
  cmd_zoom fst (λ m w, (m, w.2)) c.

#[local] Instance dispatch_services : AutomationServices DispatchWorld :=
  let t := telling_services in
  {| svc_grant_role g u r := on_mock (svc_grant_role (AutomationServices := t) g u r);
     svc_create_channel g n := on_mock (svc_create_channel (AutomationServices := t) g n);
     svc_create_role g n := on_mock (svc_create_role (AutomationServices := t) g n);
     svc_upsert_overwrite g c x al dn := on_mock (svc_upsert_overwrite (AutomationServices := t) g c x al dn);
     svc_post_panel g c p := on_mock (svc_post_panel (AutomationServices := t) g c p);
     svc_respond_ephemeral x := on_mock (svc_respond_ephemeral (AutomationServices := t) x);
     svc_open_modal p := on_mock (svc_open_modal (AutomationServices := t) p);
     svc_defer_ephemeral := on_mock (svc_defer_ephemeral (AutomationServices := t));
     svc_edit_response x := on_mock (svc_edit_response (AutomationServices := t) x);
     svc_register_instance i := on_mock (svc_register_instance (AutomationServices := t) i);
     svc_generate := on_mock (svc_generate (AutomationServices := t));
     svc_teardown g i := on_mock (svc_teardown (AutomationServices := t) g i) |}.

Lemma on_mock_speaks {A} (c : Cmd MockWorld AdapterError A) : speaks c → speaks (on_mock c).
Proof. intros Hc [m rules]. specialize (Hc m). unfold on_mock, cmd_zoom. cbn. by destruct (c m). Qed.

Lemma dispatch_speaks : services_speak DispatchWorld.
Proof. split; intros; apply on_mock_speaks, told_speaks. Qed.

#[local] Instance world_routes : InstanceRouteReaderV1 DispatchWorld :=
  λ g i w, (Ok (store_find (mw_store w.1) g i), w).
#[local] Instance world_rulesets : RuleSetReader DispatchWorld :=
  λ g key v w, (Ok (find_version w.2 g key v), w).
#[local] Instance world_resolver : PinnedInstanceResolverV1 DispatchWorld := store_backed_resolver.
#[local] Instance world_snapshot : GuildRoleSnapshotProvider DispatchWorld :=
  λ g w, (Ok (mkRoleSnapshot {[g := Z.lor MANAGE_ROLES MANAGE_CHANNELS]} []), w).

Definition join_event : RuntimeEvent := mkEvent 7 9 (EvInstanceAction "study_001" "join").

(** The world after the room was created. *)
Definition room_world : DispatchWorld := (study_world, published).

Lemma join_run :
  let '(r, w) := dispatch_instance_action_with_route_v1 sample_hash join_event "study_001" "join"
                   (Some "study") no_bindings "failed" room_world in
  r = Ok HandleExecuted ∧ last (mw_calls w.1) = Some (CallGrantRole 7 9 800000).
Proof. vm_compute. split; reflexivity. Qed.

Definition room_instance : AutomationInstance :=
  mkInstance "study_001" 7 "study" 1 "study_room" 5
    (mkResources [("member", 800000)] [("room", 800001)] [("panel", mkMessageRef 800001 800002)]) Active.

Lemma room_instance_stored : store_find (mw_store study_world) 7 "study_001" = Some room_instance.
Proof. vm_compute. reflexivity. Qed.

(** A resolver that knows this one room. *)
Definition room_resolver : PinnedInstanceResolverV1 DispatchWorld :=
  λ g i w, (if bool_decide ((g, i) = (7, "study_001")) then Ok (mkPinned room_instance room_version)
            else Err ResolverInstanceNotFound, w).

Lemma room_posted : posted_instances_registered room_rules.
Proof.
  intros rule. unfold room_rules. cbn [rs_rules]. intros [Hin|Hin]%elem_of_app; [by apply study_posted|].
  apply list_elem_of_singleton in Hin as ->. repeat constructor.
Qed.

