(* ===== verification/ApprovalBinding.v ===== *)
(** * Approval bindings and framed digests

    Module [approval] of the crate [resource-resolution]: the bindings an approval
    depends on, their canonical order, their projection from the current bindings,
    and the fingerprint of both. A digest is taken over length-framed fields; the
    SHA-256 of the third-party crate is a parameter. *)

From Stdlib Require Import ZArith Lia Ascii String.
From stdpp Require Import base decidable list strings gmap numbers.
From S2P Require Import Prelude RustStd DiscordModel DesiredState Resolution RuleSet RuleSetSpec.
Open Scope Z_scope.

(** ** Framing *)

(** [to_be_bytes] of an integer of [n] bytes. *)
Fixpoint be_bytes (n : nat) (x : Z) : list Z :=
  match n with
  | O => []
  | S n => (x / 256 ^ Z.of_nat n) mod 256 :: be_bytes n x
  end.

Fixpoint str_bytes (s : string) : list Z :=
  match s with
  | EmptyString => []
  | String c s => byte_value c :: str_bytes s
  end.

(** What [update_length_framed] feeds to the hasher. *)
Definition framed (value : list Z) : list Z := be_bytes 8 (Z.of_nat (length value)) ++ value.

Definition frames (fields : list (list Z)) : list Z := fields ≫= framed.

Lemma be_bytes_length n x : length (be_bytes n x) = n.
Proof. induction n; cbn; congruence. Qed.

Lemma be_bytes_inj n x y : 0 ≤ x < 256 ^ Z.of_nat n → 0 ≤ y < 256 ^ Z.of_nat n →
  be_bytes n x = be_bytes n y → x = y.
Proof.
  assert (Hmod : ∀ n x y, be_bytes n x = be_bytes n y →
            x mod 256 ^ Z.of_nat n = y mod 256 ^ Z.of_nat n).
  { clear. induction n as [|n IH]; intros x y E; [by rewrite !Z.mod_1_r|].
    cbn in E. injection E as E1 E2. apply IH in E2.
    rewrite Nat2Z.inj_succ, Z.pow_succ_r, (Z.mul_comm 256) by lia.
    rewrite !Z.rem_mul_r by lia. by rewrite E1, E2. }
  intros Hx Hy E. apply Hmod in E. by rewrite !Z.mod_small in E.
Qed.

Lemma str_bytes_inj s t : str_bytes s = str_bytes t → s = t.
Proof.
  revert t. induction s as [|c s IH]; intros [|d t] E; try done. cbn in E.
  injection E as Ec Es. f_equal; [|by apply IH].
  apply N2Z.inj in Ec. rewrite <- (ascii_N_embedding c), <- (ascii_N_embedding d). by f_equal.
Qed.

Lemma str_bytes_length s : length (str_bytes s) = String.length s.
Proof. induction s; cbn; congruence. Qed.

(** A field whose length a [u64] holds; [update_length_framed] expects it. *)
Definition fits (value : list Z) : Prop := Z.of_nat (length value) < 2 ^ 64.

Definition short (s : string) : Prop := str_len s < 2 ^ 64.

Lemma frames_cons f fs : frames (f :: fs) = be_bytes 8 (Z.of_nat (length f)) ++ f ++ frames fs.
Proof. unfold frames, framed. rewrite bind_cons. by rewrite <- app_assoc. Qed.

Lemma frames_inj fs fs' : Forall fits fs → Forall fits fs' → frames fs = frames fs' → fs = fs'.
Proof.
  intros H. revert fs'. induction H as [|f fs Hf _ IH]; intros [|f' fs'] H' E; [done| | |].
  - by rewrite frames_cons in E.
  - by rewrite frames_cons in E.
  - apply Forall_cons_1 in H' as [Hf' H']. rewrite !frames_cons in E. unfold fits in *.
    apply app_inj_1 in E as [El E]; [|by rewrite !be_bytes_length].
    apply be_bytes_inj, Nat2Z.inj in El; [|lia..].
    apply app_inj_1 in E as [-> E]; [|done]. f_equal. by apply IH.
Qed.

Lemma to_hex_inj h h' : Forall is_byte h → Forall is_byte h' → to_hex h = to_hex h' → h = h'.
Proof.
  intros [P _]%parse_chunks_to_hex [P' _]%parse_chunks_to_hex E. rewrite E in P. congruence.
Qed.

(** ** Bindings *)
Inductive ResolvedApprovalBinding :=
| BindingChannel (key : ResourceKey) (id : ChannelId)
| BindingRole (key : ResourceKey) (id : RoleId).

#[export] Instance ResolvedApprovalBinding_eq_dec : EqDecision ResolvedApprovalBinding.
Proof. solve_decision. Defined.

Definition binding_identity (b : ResolvedApprovalBinding) : Z * ResourceKey :=
  match b with
  | BindingChannel key _ => (0, key)
  | BindingRole key _ => (1, key)
  end.

Inductive ApprovalBindingProjectionError :=
| NonCanonical
| MissingChannel (key : string)
| MissingRole (key : string).

(** [windows(2).all(|w| w[0] < w[1])], by a key. *)
Fixpoint windows_lt {A K} `{Ord K} (key : A → K) (l : list A) : bool :=
  match l with
  | x :: (y :: _) as rest =>
      match cmp (key x) (key y) with Lt => windows_lt key rest | _ => false end
  | _ => true
  end.

Definition validate_canonical (bindings : list ResolvedApprovalBinding)
  : Result ApprovalBindingProjectionError unit :=
  ensure (windows_lt binding_identity bindings) NonCanonical.

Definition project_binding (bindings : ResourceBindingMap) (b : ResolvedApprovalBinding)
  : Result ApprovalBindingProjectionError ResolvedApprovalBinding :=
  match b with
  | BindingChannel key _ =>
      ok_or (BindingChannel key <$> channel_bindings bindings !! key) (MissingChannel key)
  | BindingRole key _ =>
      ok_or (BindingRole key <$> role_bindings bindings !! key) (MissingRole key)
  end.

Fixpoint project_all (bindings : ResourceBindingMap) (required : list ResolvedApprovalBinding)
  : Result ApprovalBindingProjectionError (list ResolvedApprovalBinding) :=
  match required with
  | [] => Ok []
  | b :: rest => b' ← project_binding bindings b; rest' ← project_all bindings rest; Ok (b' :: rest')
  end.

Definition project_required_bindings (required : list ResolvedApprovalBinding)
    (bindings : ResourceBindingMap)
  : Result ApprovalBindingProjectionError (list ResolvedApprovalBinding) :=
  _ ← validate_canonical required; project_all bindings required.

(** The domain strings end in a zero byte. *)
Definition domain_bytes (s : string) : list Z := str_bytes s ++ [0].

Definition APPROVAL_BINDING_DOMAIN_V1 : list Z :=
  domain_bytes "starring.activation.approval_binding.v1".

Definition binding_fields (b : ResolvedApprovalBinding) : list (list Z) :=
  match b with
  | BindingChannel key id => [str_bytes "channel"; str_bytes key; str_bytes (print_u64 id)]
  | BindingRole key id => [str_bytes "role"; str_bytes key; str_bytes (print_u64 id)]
  end.

Definition approval_binding_fields (g : GuildId) (revision : Z) (bindings : list ResolvedApprovalBinding)
  : list (list Z) :=
  [APPROVAL_BINDING_DOMAIN_V1; str_bytes (print_u64 g); be_bytes 8 revision] ++ (bindings ≫= binding_fields).

Section fingerprint.
Context (sha256 : list Z → list Z).

Definition approval_binding_fingerprint_v1 (g : GuildId) (revision : Z)
    (bindings : list ResolvedApprovalBinding) : Result ApprovalBindingProjectionError string :=
  _ ← validate_canonical bindings;
  Ok (to_hex (sha256 (frames (approval_binding_fields g revision bindings)))).
End fingerprint.

(** ** Fields determine the bindings *)

(** [injection] would look into the bytes of a field. *)
Lemma field_inv {A} (x y : A) l l' : x :: l = y :: l' → x = y ∧ l = l'.
Proof. by intros [= -> ->]. Qed.

Ltac field E H := apply field_inv in E as [H E].

Lemma u64_bytes_inj r r' : u64_valid r → u64_valid r' → be_bytes 8 r = be_bytes 8 r' → r = r'.
Proof. intros Hr Hr'. apply be_bytes_inj; unfold u64_valid, u64_max in *; lia. Qed.

Definition binding_ok (b : ResolvedApprovalBinding) : Prop :=
  match b with BindingChannel key id | BindingRole key id => str_len key < 2 ^ 64 ∧ u64_valid id end.

Lemma binding_fields_inj b b' rest rest' : binding_ok b → binding_ok b' →
  binding_fields b ++ rest = binding_fields b' ++ rest' → b = b' ∧ rest = rest'.
Proof.
  destruct b as [k i|k i], b' as [k' i'|k' i']; intros [_ Hi] [_ Hi'] E; cbn [binding_fields app] in E;
    field E Et; [|discriminate Et..|]; field E Ek; field E Ei;
    apply str_bytes_inj in Ek; apply str_bytes_inj, print_u64_inj in Ei; by subst.
Qed.

Lemma bindings_fields_inj bs bs' : Forall binding_ok bs → Forall binding_ok bs' →
  bs ≫= binding_fields = bs' ≫= binding_fields → bs = bs'.
Proof.
  intros H. revert bs'. induction H as [|b bs Hb _ IH]; intros [|b' bs'] H' E; cbn in E; try done.
  - by destruct b'.
  - by destruct b.
  - apply Forall_cons_1 in H' as [Hb' H'].
    apply binding_fields_inj in E as [-> E]; [|done..]. f_equal. by apply IH.
Qed.

Lemma print_digits_length fuel n s :
  (String.length (print_digits fuel n s) ≤ fuel + String.length s)%nat.
Proof.
  revert n s. induction fuel as [|fuel IH]; intros n s; cbn; [done|].
  destruct (n / 10 =? 0)%Z; cbn [String.length]; [lia|]. specialize (IH (n / 10) (String (digit_char (n mod 10)) s)).
  cbn [String.length] in IH. lia.
Qed.

Lemma fits_print n : fits (str_bytes (print_u64 n)).
Proof.
  unfold fits. rewrite str_bytes_length. pose proof (print_digits_length 20 n EmptyString) as H.
  unfold print_u64. change (String.length EmptyString) with 0%nat in H. lia.
Qed.

Lemma fits_be_bytes n x : (n ≤ 8)%nat → fits (be_bytes n x).
Proof. unfold fits. rewrite be_bytes_length. lia. Qed.

Lemma fits_str s : str_len s < 2 ^ 64 → fits (str_bytes s).
Proof. unfold fits, str_len. by rewrite str_bytes_length. Qed.

Lemma fits_binding b : binding_ok b → Forall fits (binding_fields b).
Proof.
  destruct b; intros [Hk _]; repeat constructor; auto using fits_print, fits_str.
Qed.

Lemma fits_bindings bs : Forall binding_ok bs → Forall fits (bs ≫= binding_fields).
Proof. induction 1; cbn; [constructor|]. apply Forall_app. auto using fits_binding. Qed.

(** SHA-256 yields 32 bytes; two given inputs that differ and have one digest are a collision.
    Some two inputs always collide, so the theorems name the inputs that were hashed. *)
Definition sha_bytes (sha256 : list Z → list Z) : Prop :=
  ∀ x, length (sha256 x) = 32%nat ∧ Forall is_byte (sha256 x).
Definition sha_collision (sha256 : list Z → list Z) (x y : list Z) : Prop :=
  x ≠ y ∧ sha256 x = sha256 y.

Lemma framed_digest_inj sha256 fs fs' : sha_bytes sha256 → Forall fits fs → Forall fits fs' →
  to_hex (sha256 (frames fs)) = to_hex (sha256 (frames fs')) →
  fs = fs' ∨ sha_collision sha256 (frames fs) (frames fs').
Proof.
  intros Hs Hf Hf' E. apply to_hex_inj in E; [|apply Hs..].
  destruct (decide (frames fs = frames fs')) as [Ef|Ef].
  - left. by apply frames_inj.
  - by right.
Qed.

(** A projection answers the required keys with their current ids, in order. *)
Lemma project_all_Ok bindings required out :
  project_all bindings required = Ok out ↔
  Forall2 (λ b b', project_binding bindings b = Ok b') required out.
Proof.
  revert out. induction required as [|b bs IH]; intros out; cbn.
  - split; [by intros [= <-]|by inversion_clear 1].
  - split.
    + intros (b' & Hb & (bs' & Hbs%IH & [= <-])%bind_Ok_inv)%bind_Ok_inv. by constructor.
    + intros (b' & bs' & Hb & Hbs%IH & ->)%Forall2_cons_inv_l. by rewrite Hb; cbn; rewrite Hbs.
Qed.

Lemma fingerprint_Ok sha256 g r bs fp : approval_binding_fingerprint_v1 sha256 g r bs = Ok fp →
  to_hex (sha256 (frames (approval_binding_fields g r bs))) = fp.
Proof. intros (? & _ & E)%bind_Ok_inv. injection E. done. Qed.

Lemma approval_fields_fit g r bs : Forall binding_ok bs → Forall fits (approval_binding_fields g r bs).
Proof.
  intros Hb. apply Forall_app. split; [|by apply fits_bindings].
  repeat constructor; auto using fits_print, fits_be_bytes.
Qed.

(** Unless SHA-256 collides on the two framings, equal fingerprints mean the same guild, the same
    revision and the same bindings: the fields are framed without ambiguity. *)
Theorem approval_fingerprint_commits sha256 g g' r r' bs bs' fp :
  sha_bytes sha256 → u64_valid g → u64_valid g' → u64_valid r → u64_valid r' →
  Forall binding_ok bs → Forall binding_ok bs' →
  approval_binding_fingerprint_v1 sha256 g r bs = Ok fp →
  approval_binding_fingerprint_v1 sha256 g' r' bs' = Ok fp →
  (g = g' ∧ r = r' ∧ bs = bs') ∨
  sha_collision sha256 (frames (approval_binding_fields g r bs)) (frames (approval_binding_fields g' r' bs')).
Proof.
  intros Hs Hg Hg' Hr Hr' Hb Hb' <-%fingerprint_Ok E%fingerprint_Ok.
  symmetry in E. apply framed_digest_inj in E as [E|]; [left|by right|done|by apply approval_fields_fit..].
  unfold approval_binding_fields in E. cbn [app] in E.
  field E Ed. field E Eg. field E Er. apply str_bytes_inj, print_u64_inj in Eg; [|done..].
  apply u64_bytes_inj in Er; [|done..]. apply bindings_fields_inj in E; done.
Qed.
