(* ===== verification/Activation.v ===== *)
(** * Activation requests

    The crate [automation-ruleset-activation], its requests: identifiers, the context
    an approval is bound to with its digests, and the state machine of a request from
    creation over approvals and apply attempts to its end. Instants and durations of
    [chrono] are integers of nanoseconds; its checked addition and conversion from
    seconds and the SHA-256 of [sha2] are parameters. *)

From Stdlib Require Import ZArith Lia Ascii String.
From stdpp Require Import base decidable list strings gmap numbers.
From S2P Require Import Prelude RustStd DiscordModel Resolution RuleSet ApprovalBinding.
Open Scope Z_scope.

(** ** Identifiers *)
Abbreviation DateTime := Z (only parsing).
Abbreviation Duration := Z (only parsing).
Abbreviation ActivationRequestId := string (only parsing).
Abbreviation ApplyAttemptId := string (only parsing).
Abbreviation ActivationDigest := string (only parsing).
Abbreviation ActivationPromotionId := string (only parsing).

Inductive ActivationIdError := ActivationIdEmpty | ActivationIdTooLong | ActivationIdInvalidChar.

(** [define_id!], for request and attempt ids. *)
Definition activation_id_parse (value : string) : Result ActivationIdError string :=
  if str_is_empty value then Err ActivationIdEmpty
  else if 64 <? str_len value then Err ActivationIdTooLong
  else if negb (str_all (λ c, is_ascii_alphanumeric c || Ascii.eqb c "_" || Ascii.eqb c "-") value)
  then Err ActivationIdInvalidChar
  else Ok value.

Inductive ActivationHashError := InvalidActivationHash.

(** [define_hash!], for digests and promotion ids. *)
Definition activation_hash_parse (value : string) : Result ActivationHashError string :=
  if (str_len value =? 64) && str_all is_lower_hex value then Ok value else Err InvalidActivationHash.

(** ** What an approval is bound to *)
Record ActivationTarget := mkTarget {
  tg_guild_id : GuildId;
  tg_ruleset_key : string;
  tg_version : Z;
  tg_content_hash : list Z
}.

Record ObservedActive := mkObserved {
  ob_version : Z;
  ob_content_hash : list Z
}.

#[export] Instance ObservedActive_eq_dec : EqDecision ObservedActive.
Proof. solve_decision. Defined.

Inductive ExpectedActiveBaselineV1 :=
| BaselineAbsent
| BaselineExact (version : Z) (content_hash : list Z).

#[export] Instance ExpectedActiveBaselineV1_eq_dec : EqDecision ExpectedActiveBaselineV1.
Proof. solve_decision. Defined.

Definition from_observed (observed : option ObservedActive) : ExpectedActiveBaselineV1 :=
  match observed with
  | Some o => BaselineExact (ob_version o) (ob_content_hash o)
  | None => BaselineAbsent
  end.

Definition as_observed (b : ExpectedActiveBaselineV1) : option ObservedActive :=
  match b with
  | BaselineAbsent => None
  | BaselineExact version content_hash => Some (mkObserved version content_hash)
  end.

Record ApprovalPolicyBindingV1 := mkPolicyBinding {
  ap_revision : Z;
  ap_required_approvals : Z;
  ap_ttl_seconds : Z;
  ap_digest : ActivationDigest
}.

Record ApprovalBindingContextV1 := mkBindingContext {
  ab_revision : Z;
  ab_required_bindings : list ResolvedApprovalBinding;
  ab_fingerprint : string
}.

Record ProductApprovalContextV1 := mkProductContext {
  pc_promotion_id : ActivationPromotionId;
  pc_promotion_request_digest : ActivationDigest;
  pc_approval_payload_digest : ActivationDigest;
  pc_approval_context_digest : ActivationDigest;
  pc_binding : ApprovalBindingContextV1;
  pc_baseline : ExpectedActiveBaselineV1;
  pc_policy : ApprovalPolicyBindingV1
}.

Inductive ActivationApprovalContextV1 :=
| LegacyManual
| ProductAuthoring (context : ProductApprovalContextV1).

Inductive ActivationLinkStateV1 := LinkNotRequired | Unlinked | Linked (linked_at : DateTime).

#[export] Instance ActivationLinkStateV1_eq_dec : EqDecision ActivationLinkStateV1.
Proof. solve_decision. Defined.

Definition APPROVAL_POLICY_DOMAIN_V1 : list Z := domain_bytes "starring.activation.approval_policy.v1".
Definition APPROVAL_CONTEXT_DOMAIN_V1 : list Z := domain_bytes "starring.activation.approval_context.v1".

Definition approval_policy_fields (revision required_approvals ttl_seconds : Z) : list (list Z) :=
  [APPROVAL_POLICY_DOMAIN_V1; be_bytes 8 revision; be_bytes 4 required_approvals; be_bytes 8 ttl_seconds].

Definition baseline_fields (b : ExpectedActiveBaselineV1) : list (list Z) :=
  match b with
  | BaselineAbsent => [str_bytes "absent"]
  | BaselineExact version content_hash =>
      [str_bytes "exact"; be_bytes 4 version; str_bytes (to_hex content_hash)]
  end.

Definition target_fields (request_id : ActivationRequestId) (target : ActivationTarget) (requester : UserId)
  : list (list Z) :=
  [str_bytes request_id; str_bytes (print_u64 (tg_guild_id target)); str_bytes (tg_ruleset_key target);
   be_bytes 4 (tg_version target); str_bytes (to_hex (tg_content_hash target));
   str_bytes (print_u64 requester)].

(** The updates of [product_approval_context_digest_v1], in order. *)
Definition product_context_fields (request_id : ActivationRequestId) (target : ActivationTarget)
    (requester : UserId) (c : ProductApprovalContextV1) : list (list Z) :=
  APPROVAL_CONTEXT_DOMAIN_V1 :: target_fields request_id target requester ++
  [str_bytes (pc_promotion_id c); str_bytes (pc_promotion_request_digest c);
   str_bytes (pc_approval_payload_digest c);
   be_bytes 8 (ab_revision (pc_binding c)); str_bytes (ab_fingerprint (pc_binding c))] ++
  (ab_required_bindings (pc_binding c) ≫= binding_fields) ++
  baseline_fields (pc_baseline c) ++
  [be_bytes 8 (ap_revision (pc_policy c)); be_bytes 4 (ap_required_approvals (pc_policy c));
   be_bytes 8 (ap_ttl_seconds (pc_policy c)); str_bytes (ap_digest (pc_policy c))].

(** ** Requests *)
Record Approval := mkActivationApproval {
  aa_approver : UserId;
  aa_approved_at : DateTime;
  aa_payload_digest : option ActivationDigest
}.

Record Rejection := mkRejection {
  rj_rejected_at : DateTime;
  rj_rejected_by : UserId;
  rj_reason : string
}.

Inductive CompletionKind := KindActivated | KindAlreadyActive | KindCrashRecovered.

Record Completion := mkCompletion {
  cp_applied_at : DateTime;
  cp_applied_by : UserId;
  cp_kind : CompletionKind;
  cp_notices : option (list string)
}.

Inductive ApplyFailureKind :=
| FailTargetMissing | FailTargetCorrupt | FailEnvironment | FailNotReady | FailActivation.

Record ApplyErrorRecord := mkApplyErrorRecord {
  ae_kind : ApplyFailureKind;
  ae_message : string
}.

Inductive ActivationRequestState :=
| StPending | StApproved | StApplying | StApplied | StRejected | StExpired | StSuperseded | StWithdrawn.

#[export] Instance ActivationRequestState_eq_dec : EqDecision ActivationRequestState.
Proof. solve_decision. Defined.

Inductive SupersessionReasonV1 :=
| ActiveBaselineDrift (expected observed : ExpectedActiveBaselineV1)
| BindingDrift (expected_revision observed_revision : Z) (expected_fingerprint : string)
    (observed_fingerprint : option string)
| PolicyDrift (expected_revision observed_revision expected_required_approvals
    observed_required_approvals expected_ttl_seconds observed_ttl_seconds : Z).

Inductive ActivationTerminationV1 :=
| TerminationSuperseded (at_ : DateTime) (reason : SupersessionReasonV1)
| TerminationWithdrawn (at_ : DateTime) (by_ : UserId) (reason : string).

Definition termination_at (t : ActivationTerminationV1) : DateTime :=
  match t with TerminationSuperseded at_ _ | TerminationWithdrawn at_ _ _ => at_ end.

Record ActivationRequest := mkRequest {
  ar_id : ActivationRequestId;
  ar_target : ActivationTarget;
  ar_requester : UserId;
  ar_required_approvals : Z;
  ar_approval_context : ActivationApprovalContextV1;
  ar_link_state : ActivationLinkStateV1;
  ar_approvals : list Approval;
  ar_state : ActivationRequestState;
  ar_rejection : option Rejection;
  ar_apply_attempt_id : option ApplyAttemptId;
  ar_apply_attempt_no : Z;
  ar_apply_lease_until : option DateTime;
  ar_last_apply_error : option ApplyErrorRecord;
  ar_observed_active : option ObservedActive;
  ar_completion : option Completion;
  ar_termination : option ActivationTerminationV1;
  ar_created_at : DateTime;
  ar_expires_at : DateTime
}.

Definition with_link_state (l : ActivationLinkStateV1) (r : ActivationRequest) : ActivationRequest :=
  mkRequest (ar_id r) (ar_target r) (ar_requester r) (ar_required_approvals r) (ar_approval_context r) l
    (ar_approvals r) (ar_state r) (ar_rejection r) (ar_apply_attempt_id r)
    (ar_apply_attempt_no r) (ar_apply_lease_until r) (ar_last_apply_error r)
    (ar_observed_active r) (ar_completion r) (ar_termination r) (ar_created_at r)
    (ar_expires_at r).
Definition with_approvals (l : list Approval) (r : ActivationRequest) : ActivationRequest :=
  mkRequest (ar_id r) (ar_target r) (ar_requester r) (ar_required_approvals r) (ar_approval_context r)
    (ar_link_state r) l (ar_state r) (ar_rejection r) (ar_apply_attempt_id r)
    (ar_apply_attempt_no r) (ar_apply_lease_until r) (ar_last_apply_error r)
    (ar_observed_active r) (ar_completion r) (ar_termination r) (ar_created_at r)
    (ar_expires_at r).
Definition with_state (s : ActivationRequestState) (r : ActivationRequest) : ActivationRequest :=
  mkRequest (ar_id r) (ar_target r) (ar_requester r) (ar_required_approvals r) (ar_approval_context r)
    (ar_link_state r) (ar_approvals r) s (ar_rejection r) (ar_apply_attempt_id r)
    (ar_apply_attempt_no r) (ar_apply_lease_until r) (ar_last_apply_error r)
    (ar_observed_active r) (ar_completion r) (ar_termination r) (ar_created_at r)
    (ar_expires_at r).
Definition with_rejection (x : option Rejection) (r : ActivationRequest) : ActivationRequest :=
  mkRequest (ar_id r) (ar_target r) (ar_requester r) (ar_required_approvals r) (ar_approval_context r)
    (ar_link_state r) (ar_approvals r) (ar_state r) x (ar_apply_attempt_id r)
    (ar_apply_attempt_no r) (ar_apply_lease_until r) (ar_last_apply_error r)
    (ar_observed_active r) (ar_completion r) (ar_termination r) (ar_created_at r)
    (ar_expires_at r).
Definition with_attempt (attempt : option string) (lease : option DateTime) (r : ActivationRequest) : ActivationRequest :=
  mkRequest (ar_id r) (ar_target r) (ar_requester r) (ar_required_approvals r) (ar_approval_context r)
    (ar_link_state r) (ar_approvals r) (ar_state r) (ar_rejection r) attempt
    (ar_apply_attempt_no r) lease (ar_last_apply_error r) (ar_observed_active r)
    (ar_completion r) (ar_termination r) (ar_created_at r) (ar_expires_at r).
Definition with_attempt_no (n : Z) (r : ActivationRequest) : ActivationRequest :=
  mkRequest (ar_id r) (ar_target r) (ar_requester r) (ar_required_approvals r) (ar_approval_context r)
    (ar_link_state r) (ar_approvals r) (ar_state r) (ar_rejection r) (ar_apply_attempt_id r) n
    (ar_apply_lease_until r) (ar_last_apply_error r) (ar_observed_active r) (ar_completion r)
    (ar_termination r) (ar_created_at r) (ar_expires_at r).
Definition with_apply_error (e : option ApplyErrorRecord) (r : ActivationRequest) : ActivationRequest :=
  mkRequest (ar_id r) (ar_target r) (ar_requester r) (ar_required_approvals r) (ar_approval_context r)
    (ar_link_state r) (ar_approvals r) (ar_state r) (ar_rejection r) (ar_apply_attempt_id r)
    (ar_apply_attempt_no r) (ar_apply_lease_until r) e (ar_observed_active r) (ar_completion r)
    (ar_termination r) (ar_created_at r) (ar_expires_at r).
Definition with_completion (c : option Completion) (r : ActivationRequest) : ActivationRequest :=
  mkRequest (ar_id r) (ar_target r) (ar_requester r) (ar_required_approvals r) (ar_approval_context r)
    (ar_link_state r) (ar_approvals r) (ar_state r) (ar_rejection r) (ar_apply_attempt_id r)
    (ar_apply_attempt_no r) (ar_apply_lease_until r) (ar_last_apply_error r)
    (ar_observed_active r) c (ar_termination r) (ar_created_at r) (ar_expires_at r).
Definition with_termination (t : option ActivationTerminationV1) (r : ActivationRequest) : ActivationRequest :=
  mkRequest (ar_id r) (ar_target r) (ar_requester r) (ar_required_approvals r) (ar_approval_context r)
    (ar_link_state r) (ar_approvals r) (ar_state r) (ar_rejection r) (ar_apply_attempt_id r)
    (ar_apply_attempt_no r) (ar_apply_lease_until r) (ar_last_apply_error r)
    (ar_observed_active r) (ar_completion r) t (ar_created_at r) (ar_expires_at r).

Record CreateActivationRequest := mkCreate {
  cr_id : ActivationRequestId;
  cr_target : ActivationTarget;
  cr_requester : UserId;
  cr_required_approvals : Z;
  cr_ttl : Duration;
  cr_observed_active : option ObservedActive
}.

Record CreateProductActivationRequest := mkCreateProduct {
  cq_id : ActivationRequestId;
  cq_target : ActivationTarget;
  cq_requester : UserId;
  cq_context : ProductApprovalContextV1
}.

Inductive ClaimDecision :=
| DecClaimed
| DecInProgress (blocking_request_id : ActivationRequestId) (lease_until : DateTime) (lease_expired : bool)
| DecAlreadyApplied | DecNotApproved | DecUnlinked | DecExpired.

Inductive ApprovalDecisionError :=
| AdDuplicateApproval | AdBoundApprovalRequired | AdUnlinked | AdPayloadMismatch | AdNotPending | AdExpired.
Inductive RejectionDecisionError := RdNotPending | RdUnlinked | RdExpired.
Inductive WithdrawDecisionError := WdUnlinked | WdInvalidState | WdExpired.
Inductive TransitionError := AttemptOverflow.
Inductive LinkDecision := DecLinked | DecExactReplay.
Inductive LinkDecisionError := LdNotProduct | LdConflict | LdNotPending | LdExpired.

Definition is_linked (l : ActivationLinkStateV1) : bool :=
  match l with Linked _ => true | _ => false end.
Definition is_product (c : ActivationApprovalContextV1) : bool :=
  match c with ProductAuthoring _ => true | LegacyManual => false end.

(** A product request that nothing has linked yet. *)
Definition awaits_link (r : ActivationRequest) : bool :=
  is_product (ar_approval_context r) && negb (is_linked (ar_link_state r)).

(** [u32::try_from(len).unwrap_or(u32::MAX)]. *)
Definition u32_len {A} (l : list A) : Z := Z.min (Z.of_nat (length l)) u32_max.

Definition i64_max : Z := 2 ^ 63 - 1.
Definition i64_try_from (n : Z) : option Z := if n <=? i64_max then Some n else None.

(** The stable [sort_by_key]. *)
Fixpoint sort_insert {A} (key : A → Z) (x : A) (l : list A) : list A :=
  match l with
  | [] => [x]
  | y :: rest => if key x <=? key y then x :: l else y :: sort_insert key x rest
  end.
Definition sort_by_key {A} (key : A → Z) (l : list A) : list A := foldr (sort_insert key) [] l.

Section requests.
Context (sha256 : list Z → list Z).
Context (checked_add_signed : DateTime → Duration → option DateTime).
Context (try_seconds : Z → option Duration).

Definition approval_policy_digest_v1 (revision required_approvals ttl_seconds : Z) : ActivationDigest :=
  to_hex (sha256 (frames (approval_policy_fields revision required_approvals ttl_seconds))).

Definition product_approval_context_digest_v1 (request_id : ActivationRequestId) (target : ActivationTarget)
    (requester : UserId) (c : ProductApprovalContextV1) : ActivationDigest :=
  to_hex (sha256 (frames (product_context_fields request_id target requester c))).

Definition policy_validate (p : ApprovalPolicyBindingV1) : bool :=
  (ap_required_approvals p =? 1) &&
  String.eqb (approval_policy_digest_v1 (ap_revision p) (ap_required_approvals p) (ap_ttl_seconds p))
    (ap_digest p).

Definition binding_validate (g : GuildId) (b : ApprovalBindingContextV1) : bool :=
  match approval_binding_fingerprint_v1 sha256 g (ab_revision b) (ab_required_bindings b) with
  | Ok fingerprint => String.eqb fingerprint (ab_fingerprint b)
  | Err _ => false
  end.

(** *** Validation *)
Definition within (r : ActivationRequest) (t : DateTime) : bool :=
  (ar_created_at r <=? t) && (t <? ar_expires_at r).

Definition validate_policy (r : ActivationRequest) : Result string unit :=
  ensure (negb ((ar_required_approvals r =? 0) || (ar_expires_at r <=? ar_created_at r)))
    "activation request policy or expiry is invalid".

Definition validate_approvals (r : ActivationRequest) : Result string unit :=
  ensure (windows_lt aa_approver (ar_approvals r) &&
          forallb (λ a, within r (aa_approved_at a)) (ar_approvals r))
    "activation approvals are invalid".

Definition validate_timestamps (r : ActivationRequest) : Result string unit :=
  ensure (negb (is_some_and (λ x, negb (within r (rj_rejected_at x))) (ar_rejection r)
                || is_some_and (λ c, cp_applied_at c <? ar_created_at r) (ar_completion r)
                || is_some_and (λ t, termination_at t <? ar_created_at r) (ar_termination r)))
    "activation decision timestamps are invalid".

Definition product_context_valid (r : ActivationRequest) (c : ProductApprovalContextV1) : bool :=
  policy_validate (pc_policy c) && binding_validate (tg_guild_id (ar_target r)) (pc_binding c) &&
  (ap_required_approvals (pc_policy c) =? ar_required_approvals r) &&
  bool_decide (as_observed (pc_baseline c) = ar_observed_active r) &&
  String.eqb (product_approval_context_digest_v1 (ar_id r) (ar_target r) (ar_requester r) c)
    (pc_approval_context_digest c).

Definition product_ttl (c : ProductApprovalContextV1) : option Duration :=
  i64_try_from (ap_ttl_seconds (pc_policy c)) ≫= try_seconds.

Definition validate_link (r : ActivationRequest) : Result string unit :=
  match ar_link_state r with
  | LinkNotRequired => Err "product activation link state is invalid"
  | Unlinked =>
      ensure (match ar_state r with StPending | StExpired => true | _ => false end
              && bool_decide (length (ar_approvals r) = 0%nat) && (ar_apply_attempt_no r =? 0))
        "unlinked product activation is not inert"
  | Linked linked_at =>
      _ ← ensure (within r linked_at) "product activation link timestamp is invalid";
      ensure (forallb (λ a, linked_at <=? aa_approved_at a) (ar_approvals r))
        "product activation approval predates its link"
  end.

Definition validate_context (r : ActivationRequest) : Result string unit :=
  match ar_approval_context r with
  | LegacyManual =>
      ensure (bool_decide (ar_link_state r = LinkNotRequired) &&
              forallb (λ a, negb (is_some (aa_payload_digest a))) (ar_approvals r))
        "legacy activation context is invalid"
  | ProductAuthoring c =>
      _ ← ensure (product_context_valid r c) "product activation context is invalid";
      ttl ← ok_or (product_ttl c) "product activation ttl is invalid";
      _ ← ensure ((ar_expires_at r - ar_created_at r =? ttl) &&
                  forallb (λ a, bool_decide (aa_payload_digest a = Some (pc_approval_payload_digest c)))
                    (ar_approvals r))
            "product activation approval evidence is invalid";
      validate_link r
  end.

Definition validate_apply_fields (r : ActivationRequest) : Result string unit :=
  let applying := bool_decide (ar_state r = StApplying) in
  let applying_fields := is_some (ar_apply_attempt_id r) && is_some (ar_apply_lease_until r) in
  ensure (Bool.eqb applying applying_fields &&
          (applying || negb (is_some (ar_apply_attempt_id r) || is_some (ar_apply_lease_until r))))
    "activation apply fields are invalid".

Definition no_rejection (r : ActivationRequest) : bool := negb (is_some (ar_rejection r)).
Definition no_completion (r : ActivationRequest) : bool := negb (is_some (ar_completion r)).
Definition no_termination (r : ActivationRequest) : bool := negb (is_some (ar_termination r)).
Definition approval_count (r : ActivationRequest) : Z := u32_len (ar_approvals r).

Definition validate_state (r : ActivationRequest) : Result string unit :=
  let quorum := ar_required_approvals r <=? approval_count r in
  match ar_state r with
  | StPending =>
      ensure (negb quorum && no_rejection r && no_completion r && no_termination r)
        "pending activation state is invalid"
  | StApproved =>
      ensure (quorum && no_rejection r && no_completion r && no_termination r)
        "approved activation state is invalid"
  | StApplying =>
      ensure (quorum && no_rejection r && no_completion r && no_termination r)
        "applying activation state is invalid"
  | StApplied =>
      ensure (quorum && is_some (ar_completion r) && no_rejection r && no_termination r)
        "applied activation state is invalid"
  | StRejected =>
      ensure (is_some (ar_rejection r) && no_completion r && no_termination r)
        "rejected activation state is invalid"
  | StExpired =>
      ensure (no_rejection r && no_completion r && no_termination r)
        "expired activation state is invalid"
  | StSuperseded =>
      ensure (quorum && no_rejection r && no_completion r &&
              is_some_and (λ t, match t with TerminationSuperseded _ _ => true | _ => false end)
                (ar_termination r) &&
              is_product (ar_approval_context r) && is_linked (ar_link_state r))
        "superseded activation state is invalid"
  | StWithdrawn =>
      ensure (no_rejection r && no_completion r &&
              is_some_and (λ t, match t with TerminationWithdrawn _ _ _ => true | _ => false end)
                (ar_termination r))
        "withdrawn activation state is invalid"
  end.

Definition validate_request (r : ActivationRequest) : Result string unit :=
  _ ← validate_policy r; _ ← validate_approvals r; _ ← validate_timestamps r;
  _ ← validate_context r; _ ← validate_apply_fields r; validate_state r.

(** *** Creation *)
Definition new_request (id : ActivationRequestId) (target : ActivationTarget) (requester : UserId)
    (required_approvals : Z) (context : ActivationApprovalContextV1) (link : ActivationLinkStateV1)
    (observed : option ObservedActive) (now expires_at : DateTime) : ActivationRequest :=
  mkRequest id target requester required_approvals context link [] StPending None None 0 None None
    observed None None now expires_at.

Definition create (input : CreateActivationRequest) (now : DateTime) : Result string ActivationRequest :=
  _ ← ensure (negb (cr_required_approvals input =? 0)) "required approvals must be at least one";
  _ ← ensure (0 <? cr_ttl input) "request ttl must be positive";
  expires_at ← ok_or (checked_add_signed now (cr_ttl input)) "request expiry overflow";
  let request := new_request (cr_id input) (cr_target input) (cr_requester input)
                   (cr_required_approvals input) LegacyManual LinkNotRequired
                   (cr_observed_active input) now expires_at in
  _ ← validate_request request; Ok request.

Definition create_product (input : CreateProductActivationRequest) (now : DateTime)
  : Result string ActivationRequest :=
  let c := cq_context input in
  _ ← ensure (policy_validate (pc_policy c) && binding_validate (tg_guild_id (cq_target input)) (pc_binding c) &&
              String.eqb (product_approval_context_digest_v1 (cq_id input) (cq_target input) (cq_requester input) c)
                (pc_approval_context_digest c))
        "product approval context is invalid";
  ttl ← ok_or (product_ttl c) "request ttl overflow";
  expires_at ← ok_or (checked_add_signed now ttl) "request expiry overflow";
  let request := new_request (cq_id input) (cq_target input) (cq_requester input)
                   (ap_required_approvals (pc_policy c)) (ProductAuthoring c) Unlinked
                   (as_observed (pc_baseline c)) now expires_at in
  _ ← validate_request request; Ok request.
End requests.

(** *** Transitions *)
Definition expire_if_due (now : DateTime) (r : ActivationRequest) : bool * ActivationRequest :=
  if match ar_state r with StPending | StApproved => true | _ => false end && (ar_expires_at r <=? now)
  then (true, with_state StExpired r) else (false, r).

Definition link_product_at (promotion_id : ActivationPromotionId) (promotion_request_digest : ActivationDigest)
    (approval_context_digest : ActivationDigest) (now : DateTime)
  : Cmd ActivationRequest LinkDecisionError LinkDecision := λ r,
  match ar_approval_context r with
  | LegacyManual => (Err LdNotProduct, r)
  | ProductAuthoring c =>
      if negb (String.eqb (pc_promotion_id c) promotion_id)
         || negb (String.eqb (pc_promotion_request_digest c) promotion_request_digest)
         || negb (String.eqb (pc_approval_context_digest c) approval_context_digest)
      then (Err LdConflict, r)
      else if is_linked (ar_link_state r) then (Ok DecExactReplay, (expire_if_due now r).2)
      else
        let '(expired, r) := expire_if_due now r in
        if expired then (Err LdExpired, r)
        else match ar_link_state r with
             | LinkNotRequired | Linked _ => (Err LdNotProduct, r)
             | Unlinked =>
                 if negb (bool_decide (ar_state r = StPending))
                    || negb (bool_decide (length (ar_approvals r) = 0%nat))
                 then (Err LdNotPending, r)
                 else (Ok DecLinked, with_link_state (Linked now) r)
             end
  end.

Definition approve_with_digest_at (approver : UserId) (digest : option ActivationDigest) (now : DateTime)
  : Cmd ActivationRequest ApprovalDecisionError unit := λ r,
  let '(expired, r) := expire_if_due now r in
  if expired then (Err AdExpired, r)
  else if negb (bool_decide (ar_state r = StPending)) then (Err AdNotPending, r)
  else if existsb (λ a, aa_approver a =? approver) (ar_approvals r) then (Err AdDuplicateApproval, r)
  else
    let r := with_approvals
               (sort_by_key aa_approver (ar_approvals r ++ [mkActivationApproval approver now digest])) r in
    (Ok tt, if ar_required_approvals r <=? u32_len (ar_approvals r) then with_state StApproved r else r).

Definition approve_at (approver : UserId) (now : DateTime)
  : Cmd ActivationRequest ApprovalDecisionError unit := λ r,
  let '(expired, r) := expire_if_due now r in
  if expired then (Err AdExpired, r)
  else if is_product (ar_approval_context r) then (Err AdBoundApprovalRequired, r)
  else approve_with_digest_at approver None now r.

Definition approve_bound_at (approver : UserId) (digest : ActivationDigest) (now : DateTime)
  : Cmd ActivationRequest ApprovalDecisionError unit := λ r,
  let '(expired, r) := expire_if_due now r in
  if expired then (Err AdExpired, r)
  else match ar_approval_context r with
       | LegacyManual => (Err AdPayloadMismatch, r)
       | ProductAuthoring c =>
           if negb (is_linked (ar_link_state r)) then (Err AdUnlinked, r)
           else if negb (String.eqb (pc_approval_payload_digest c) digest) then (Err AdPayloadMismatch, r)
           else approve_with_digest_at approver (Some digest) now r
       end.

Definition reject_at (rejected_by : UserId) (reason : string) (now : DateTime)
  : Cmd ActivationRequest RejectionDecisionError unit := λ r,
  let '(expired, r) := expire_if_due now r in
  if expired then (Err RdExpired, r)
  else if awaits_link r then (Err RdUnlinked, r)
  else if negb (bool_decide (ar_state r = StPending)) then (Err RdNotPending, r)
  else (Ok tt, with_rejection (Some (mkRejection now rejected_by reason)) (with_state StRejected r)).

(** The attempt number is assigned only when it does not overflow. *)
Definition begin_attempt (attempt_id : ApplyAttemptId) (lease_until : DateTime)
  : Cmd ActivationRequest TransitionError unit := λ r,
  match u64_checked_add (ar_apply_attempt_no r) 1 with
  | None => (Err AttemptOverflow, r)
  | Some n => (Ok tt, with_attempt (Some attempt_id) (Some lease_until)
                        (with_state StApplying (with_attempt_no n r)))
  end.

Definition in_progress (now : DateTime) (r : ActivationRequest) : ClaimDecision :=
  let lease_until := default now (ar_apply_lease_until r) in
  DecInProgress (ar_id r) lease_until (lease_until <=? now).

Definition claim_apply_at (attempt_id : ApplyAttemptId) (now lease_until : DateTime)
  : Cmd ActivationRequest TransitionError ClaimDecision := λ r,
  let '(expired, r) := expire_if_due now r in
  if expired then (Ok DecExpired, r)
  else if awaits_link r then (Ok DecUnlinked, r)
  else match ar_state r with
       | StApproved => (_ ← begin_attempt attempt_id lease_until; cmd_ret DecClaimed) r
       | StApplying => (Ok (in_progress now r), r)
       | StApplied => (Ok DecAlreadyApplied, r)
       | StExpired => (Ok DecExpired, r)
       | StPending | StRejected | StSuperseded | StWithdrawn => (Ok DecNotApproved, r)
       end.

Definition claim_resume_at (attempt_id : ApplyAttemptId) (now lease_until : DateTime)
  : Cmd ActivationRequest TransitionError ClaimDecision := λ r,
  if awaits_link r then (Ok DecUnlinked, r)
  else match ar_state r with
       | StApplying =>
           if is_some_and (λ lease, now <? lease) (ar_apply_lease_until r) then (Ok (in_progress now r), r)
           else (_ ← begin_attempt attempt_id lease_until; cmd_ret DecClaimed) r
       | StApplied => (Ok DecAlreadyApplied, r)
       | StExpired => (Ok DecExpired, r)
       | StPending | StApproved | StRejected | StSuperseded | StWithdrawn => (Ok DecNotApproved, r)
       end.

(** The request is being applied by this attempt. *)
Definition held_by (attempt_id : ApplyAttemptId) (r : ActivationRequest) : bool :=
  bool_decide (ar_state r = StApplying) && bool_decide (ar_apply_attempt_id r = Some attempt_id).

(** The attempt ends: what the four endings have in common. *)
Definition end_attempt (s : ActivationRequestState) (e : option ApplyErrorRecord) (r : ActivationRequest)
  : ActivationRequest := with_apply_error e (with_attempt None None (with_state s r)).

Definition supersede_at (attempt_id : ApplyAttemptId) (reason : SupersessionReasonV1) (now : DateTime)
    (r : ActivationRequest) : bool * ActivationRequest :=
  if negb (held_by attempt_id r) || negb (is_product (ar_approval_context r))
     || negb (is_linked (ar_link_state r))
  then (false, r)
  else (true, with_termination (Some (TerminationSuperseded now reason)) (end_attempt StSuperseded None r)).

Definition withdraw_at (by_ : UserId) (reason : string) (now : DateTime)
  : Cmd ActivationRequest WithdrawDecisionError unit := λ r,
  let '(expired, r) := expire_if_due now r in
  if expired then (Err WdExpired, r)
  else if awaits_link r then (Err WdUnlinked, r)
  else match ar_state r with
       | StPending | StApproved =>
           (Ok tt, with_termination (Some (TerminationWithdrawn now by_ reason))
                     (with_apply_error None (with_state StWithdrawn r)))
       | _ => (Err WdInvalidState, r)
       end.

Definition renew_lease_at (attempt_id : ApplyAttemptId) (lease_until : DateTime) (r : ActivationRequest)
  : bool * ActivationRequest :=
  if negb (held_by attempt_id r) then (false, r)
  else (true, with_attempt (ar_apply_attempt_id r) (Some lease_until) r).

Definition complete_at (attempt_id : ApplyAttemptId) (completion : Completion) (r : ActivationRequest)
  : bool * ActivationRequest :=
  if negb (held_by attempt_id r) then (false, r)
  else (true, with_completion (Some completion) (end_attempt StApplied None r)).

Definition release_at (attempt_id : ApplyAttemptId) (error : ApplyErrorRecord) (r : ActivationRequest)
  : bool * ActivationRequest :=
  if negb (held_by attempt_id r) then (false, r)
  else (true, end_attempt StApproved (Some error) r).

Definition bookkeep_at (completion : Completion) (r : ActivationRequest) : bool * ActivationRequest :=
  if negb (bool_decide (ar_state r = StApplying)) then (false, r)
  else (true, with_completion (Some completion) (end_attempt StApplied None r)).
