(* ===== verification/ActivationStore.v ===== *)
(** * The store of activation requests

    The in-memory store of [automation-ruleset-activation]: a [BTreeMap] behind a
    mutex. Each operation takes the readings of the clock it makes. Some operations
    change the stored request in place and others a copy that is put back: an
    operation of the first kind keeps what it did when it then reports an error. *)

From Stdlib Require Import ZArith Lia Ascii String.
From stdpp Require Import base decidable list strings gmap numbers.
From S2P Require Import Prelude RustStd DiscordModel RuleSet ApprovalBinding Activation.
Open Scope Z_scope.

Inductive ActivationStoreError :=
| DuplicateRequest
| RequestNotFound
| InvalidRequest (message : string)
| ActivationBackend (message : string).

Inductive ApproveError :=
| ApDuplicateApproval | ApBoundApprovalRequired | ApUnlinked | ApPayloadMismatch | ApNotPending | ApExpired
| ApStore (e : ActivationStoreError).

Definition approve_error_from (e : ApprovalDecisionError) : ApproveError :=
  match e with
  | AdDuplicateApproval => ApDuplicateApproval
  | AdBoundApprovalRequired => ApBoundApprovalRequired
  | AdUnlinked => ApUnlinked
  | AdPayloadMismatch => ApPayloadMismatch
  | AdNotPending => ApNotPending
  | AdExpired => ApExpired
  end.

Inductive RejectError := RjNotPending | RjUnlinked | RjExpired | RjStore (e : ActivationStoreError).

Definition reject_error_from (e : RejectionDecisionError) : RejectError :=
  match e with RdNotPending => RjNotPending | RdUnlinked => RjUnlinked | RdExpired => RjExpired end.

Inductive WithdrawError := WeUnlinked | WeInvalidState | WeExpired | WeStore (e : ActivationStoreError).

Definition withdraw_error_from (e : WithdrawDecisionError) : WithdrawError :=
  match e with WdUnlinked => WeUnlinked | WdInvalidState => WeInvalidState | WdExpired => WeExpired end.

Inductive LinkProductError :=
| LeNotProduct | LeConflict | LeNotPending | LeExpired | LeStore (e : ActivationStoreError).

Definition link_error_from (e : LinkDecisionError) : LinkProductError :=
  match e with
  | LdNotProduct => LeNotProduct
  | LdConflict => LeConflict
  | LdNotPending => LeNotPending
  | LdExpired => LeExpired
  end.

Inductive ClaimOutcome :=
| Claimed (request : ActivationRequest)
| ClaimInProgress (blocking_request_id : ActivationRequestId) (lease_until : DateTime) (lease_expired : bool)
| ClaimAlreadyApplied | ClaimNotApproved | ClaimUnlinked | ClaimExpired.

Definition from_decision (decision : ClaimDecision) (request : ActivationRequest) : ClaimOutcome :=
  match decision with
  | DecClaimed => Claimed request
  | DecInProgress blocking until expired => ClaimInProgress blocking until expired
  | DecAlreadyApplied => ClaimAlreadyApplied
  | DecNotApproved => ClaimNotApproved
  | DecUnlinked => ClaimUnlinked
  | DecExpired => ClaimExpired
  end.

Record LinkProductActivation := mkLink {
  lk_promotion_id : ActivationPromotionId;
  lk_promotion_request_digest : ActivationDigest;
  lk_approval_context_digest : ActivationDigest
}.

Abbreviation Requests := (list (string * ActivationRequest)) (only parsing).

(** A change of the stored request in place, whatever it answers. *)
Definition in_place {E A} (not_found : E) (request_id : ActivationRequestId)
    (f : Cmd ActivationRequest E A) : Cmd Requests E A := λ st,
  match bt_get st request_id with
  | None => (Err not_found, st)
  | Some r => let '(answer, r') := f r in (answer, bt_insert request_id r' st)
  end.

(** A change of a copy, put back under its id when the step says so. *)
Definition put_back (r : ActivationRequest) : Requests → Requests := bt_insert (ar_id r) r.

Section store.
Context (sha256 : list Z → list Z).
Context (checked_add_signed : DateTime → Duration → option DateTime).
Context (try_seconds : Z → option Duration).
(** [Duration::seconds]. *)
Context (seconds : Z → Duration).

Abbreviation valid := (validate_request sha256 try_seconds) (only parsing).

Definition lease_until (now : DateTime) (lease_seconds : Z) : Result ActivationStoreError DateTime :=
  ok_or (checked_add_signed now (seconds lease_seconds)) (InvalidRequest "lease overflow").

(** A decision on a request followed by its validation. *)
Definition decide_valid {D E A} (from : D → E) (store : ActivationStoreError → E)
    (f : Cmd ActivationRequest D A) : Cmd ActivationRequest E ActivationRequest := λ r,
  let '(answer, r') := f r in
  match answer with
  | Err d => (Err (from d), r')
  | Ok _ => (_ ← map_err (store ∘ InvalidRequest) (valid r'); Ok r', r')
  end.

Definition store_create (now : DateTime) (input : CreateActivationRequest)
  : Cmd Requests ActivationStoreError ActivationRequest := λ st,
  if is_some (bt_get st (cr_id input)) then (Err DuplicateRequest, st)
  else match create sha256 checked_add_signed try_seconds input now with
       | Err m => (Err (InvalidRequest m), st)
       | Ok request => (Ok request, put_back request st)
       end.

Definition store_create_product (now : DateTime) (input : CreateProductActivationRequest)
  : Cmd Requests ActivationStoreError ActivationRequest := λ st,
  if is_some (bt_get st (cq_id input)) then (Err DuplicateRequest, st)
  else match create_product sha256 checked_add_signed try_seconds input now with
       | Err m => (Err (InvalidRequest m), st)
       | Ok request => (Ok request, put_back request st)
       end.

Definition store_link_product (now : DateTime) (request_id : ActivationRequestId) (link : LinkProductActivation)
  : Cmd Requests LinkProductError ActivationRequest :=
  in_place (LeStore RequestNotFound) request_id
    (decide_valid link_error_from LeStore
       (link_product_at (lk_promotion_id link) (lk_promotion_request_digest link)
          (lk_approval_context_digest link) now)).

Definition store_get (now : DateTime) (request_id : ActivationRequestId)
  : Cmd Requests ActivationStoreError (option ActivationRequest) := λ st,
  match bt_get st request_id with
  | None => (Ok None, st)
  | Some r =>
      let r' := (expire_if_due now r).2 in
      (_ ← map_err InvalidRequest (valid r'); Ok (Some r'), bt_insert request_id r' st)
  end.

Definition store_approve (now : DateTime) (request_id : ActivationRequestId) (approver : UserId)
  : Cmd Requests ApproveError ActivationRequest :=
  in_place (ApStore RequestNotFound) request_id
    (decide_valid approve_error_from ApStore (approve_at approver now)).

Definition store_approve_bound (now : DateTime) (request_id : ActivationRequestId) (approver : UserId)
    (digest : ActivationDigest) : Cmd Requests ApproveError ActivationRequest :=
  in_place (ApStore RequestNotFound) request_id
    (decide_valid approve_error_from ApStore (approve_bound_at approver digest now)).

Definition store_reject (now : DateTime) (request_id : ActivationRequestId) (rejected_by : UserId)
    (reason : string) : Cmd Requests RejectError ActivationRequest :=
  in_place (RjStore RequestNotFound) request_id
    (decide_valid reject_error_from RjStore (reject_at rejected_by reason now)).

Definition store_withdraw (now : DateTime) (request_id : ActivationRequestId) (withdrawn_by : UserId)
    (reason : string) : Cmd Requests WithdrawError ActivationRequest := λ st,
  match bt_get st request_id with
  | None => (Err (WeStore RequestNotFound), st)
  | Some r =>
      match decide_valid withdraw_error_from WeStore (withdraw_at withdrawn_by reason now) r with
      | (Ok candidate, _) => (Ok candidate, put_back candidate st)
      | (Err e, _) => (Err e, st)
      end
  end.

(** Another request that is being applied to the same rule set. *)
Definition blocks (candidate request : ActivationRequest) : bool :=
  negb (String.eqb (ar_id request) (ar_id candidate)) && bool_decide (ar_state request = StApplying) &&
  (tg_guild_id (ar_target request) =? tg_guild_id (ar_target candidate)) &&
  String.eqb (tg_ruleset_key (ar_target request)) (tg_ruleset_key (ar_target candidate)).

Definition is_claimed (d : ClaimDecision) : bool := match d with DecClaimed => true | _ => false end.

(** [now'] is the second reading of the clock, for the lease. *)
Definition store_claim_apply (now now' : DateTime) (request_id : ActivationRequestId)
    (attempt_id : ApplyAttemptId) (lease_seconds : Z) : Cmd Requests ActivationStoreError ClaimOutcome := λ st,
  match lease_until now' lease_seconds with
  | Err e => (Err e, st)
  | Ok until =>
      match bt_get st request_id with
      | None => (Err RequestNotFound, st)
      | Some r =>
          match claim_apply_at attempt_id now until r with
          | (Err AttemptOverflow, _) => (Err (InvalidRequest "apply attempt number overflow"), st)
          | (Ok decision, candidate) =>
              match (if is_claimed decision then List.find (blocks candidate) st.*2 else None) with
              | Some blocking =>
                  let until := default now (ar_apply_lease_until blocking) in
                  (Ok (ClaimInProgress (ar_id blocking) until (until <=? now)), st)
              | None =>
                  match valid candidate with
                  | Err m => (Err (InvalidRequest m), st)
                  | Ok _ => (Ok (from_decision decision candidate), put_back candidate st)
                  end
              end
          end
      end
  end.

Definition store_claim_resume (now now' : DateTime) (request_id : ActivationRequestId)
    (attempt_id : ApplyAttemptId) (lease_seconds : Z) : Cmd Requests ActivationStoreError ClaimOutcome := λ st,
  match lease_until now' lease_seconds with
  | Err e => (Err e, st)
  | Ok until =>
      in_place RequestNotFound request_id
        (λ r, match claim_resume_at attempt_id now until r with
              | (Err AttemptOverflow, r') => (Err (InvalidRequest "apply attempt number overflow"), r')
              | (Ok decision, r') =>
                  (_ ← map_err InvalidRequest (valid r'); Ok (from_decision decision r'), r')
              end) st
  end.

(** What the remaining operations share: a missing request and a refused step
    answer false, an accepted step is validated and put back. *)
Definition update_if (request_id : ActivationRequestId)
    (step : ActivationRequest → bool * ActivationRequest) : Cmd Requests ActivationStoreError bool := λ st,
  match bt_get st request_id with
  | None => (Ok false, st)
  | Some r =>
      match step r with
      | (false, _) => (Ok false, st)
      | (true, candidate) =>
          match valid candidate with
          | Err m => (Err (InvalidRequest m), st)
          | Ok _ => (Ok true, put_back candidate st)
          end
      end
  end.

Definition store_renew_lease (now : DateTime) (request_id : ActivationRequestId) (attempt_id : ApplyAttemptId)
    (lease_seconds : Z) : Cmd Requests ActivationStoreError bool := λ st,
  match lease_until now lease_seconds with
  | Err e => (Err e, st)
  | Ok until => update_if request_id (renew_lease_at attempt_id until) st
  end.

Definition store_complete_applied (now : DateTime) (request_id : ActivationRequestId)
    (attempt_id : ApplyAttemptId) (applied_by : UserId) (kind : CompletionKind)
    (notices : option (list string)) : Cmd Requests ActivationStoreError bool :=
  update_if request_id (complete_at attempt_id (mkCompletion now applied_by kind notices)).

Definition store_release_to_approved (request_id : ActivationRequestId) (attempt_id : ApplyAttemptId)
    (error : ApplyErrorRecord) : Cmd Requests ActivationStoreError bool :=
  update_if request_id (release_at attempt_id error).

Definition store_supersede_applying (now : DateTime) (request_id : ActivationRequestId)
    (attempt_id : ApplyAttemptId) (reason : SupersessionReasonV1) : Cmd Requests ActivationStoreError bool :=
  update_if request_id (supersede_at attempt_id reason now).

Definition store_mark_expired (now : DateTime) (request_id : ActivationRequestId)
  : Cmd Requests ActivationStoreError bool := update_if request_id (expire_if_due now).

Fixpoint all_valid (l : list ActivationRequest) : Result string unit :=
  match l with
  | [] => Ok tt
  | r :: rest => _ ← valid r; all_valid rest
  end.

Definition store_list_applying (g : GuildId) : Cmd Requests ActivationStoreError (list ActivationRequest) := λ st,
  let applying := List.filter (λ r, (tg_guild_id (ar_target r) =? g) && bool_decide (ar_state r = StApplying)) st.*2 in
  (_ ← map_err InvalidRequest (all_valid applying); Ok applying, st).

Definition store_bookkeep_applied (now : DateTime) (request_id : ActivationRequestId) (applied_by : UserId)
  : Cmd Requests ActivationStoreError bool :=
  update_if request_id (bookkeep_at (mkCompletion now applied_by KindCrashRecovered None)).
End store.
