(* ===== verification/ActivationService.v ===== *)
(** * The activation service

    The preflight of product activations and the service of
    [automation-ruleset-activation]. The service is generic in three traits; a run of
    it is a program: a tree of the calls it makes on the request store, the rule set
    store and the environment provider, with what it does for every answer. Programs
    run over the in-memory stores; [ActivationSystem.v] interleaves them. *)

From Stdlib Require Import ZArith Lia Ascii String.
From stdpp Require Import base decidable list strings gmap numbers.
From S2P Require Import Prelude RustStd DiscordModel Resolution AutomationState AutomationPlan.
From S2P Require Import AutomationValidate RuleSet Readiness ApprovalBinding Activation ActivationStore.
Open Scope Z_scope.

(** ** Preflight of product activations *)
Record ActivationEnvironment := mkEnvironment {
  en_binding_revision : option Z;
  en_bindings : ResourceBindingMap;
  en_guild_capabilities : GuildCapabilities;
  en_role_permissions : gmap string Permissions;
  en_role_hierarchy : option GuildRoleHierarchyV1
}.

Inductive ProductPreflightErrorCodeV1 :=
| CodeTargetCorrupt | CodeBindingRevisionUnavailable | CodeUnsupportedSchema | CodeStructurallyInvalid
| CodeHashComputationFailed | CodeHashMismatch | CodeBindingInvalid | CodeBlockingPolicy
| CodeMissingCapabilities | CodeRoleHierarchyUnavailable | CodeRoleHierarchyIncomplete | CodeRoleUnmanageable.

Inductive ProductPreflightErrorV1 :=
| CauseTargetCorrupt
| CauseBindingRevisionUnavailable
| CauseReadiness (e : ReadinessError)
| CauseRoleHierarchy (e : RoleHierarchyReadinessErrorV1).

Definition preflight_code (e : ProductPreflightErrorV1) : ProductPreflightErrorCodeV1 :=
  match e with
  | CauseTargetCorrupt => CodeTargetCorrupt
  | CauseBindingRevisionUnavailable => CodeBindingRevisionUnavailable
  | CauseReadiness e =>
      match e with
      | UnsupportedSchema _ => CodeUnsupportedSchema
      | StructurallyInvalid _ => CodeStructurallyInvalid
      | HashComputation _ => CodeHashComputationFailed
      | ReadinessHashMismatch => CodeHashMismatch
      | BindingInvalid _ => CodeBindingInvalid
      | BlockingPolicy _ => CodeBlockingPolicy
      | MissingCapabilities _ => CodeMissingCapabilities
      end
  | CauseRoleHierarchy e =>
      match e with
      | EvidenceUnavailable => CodeRoleHierarchyUnavailable
      | TargetBindingMissing | TargetRoleMissing | ContextGuildMismatch => CodeRoleHierarchyIncomplete
      | CreatedRoleReferenceInvalid | UnsupportedDynamicRoleReference => CodeStructurallyInvalid
      | TargetRoleUnassignable | TargetRoleOutranksBot | BotHierarchyInsufficient => CodeRoleUnmanageable
      end
  end.

Record ProductTargetReadyV1 := mkTargetReady {
  tr_target : ActivationTarget;
  tr_binding : ApprovalBindingContextV1;
  tr_target_is_active : bool;
  tr_expected_active : ExpectedActiveRuleSet
}.

Inductive ProductTargetAssessmentV1 :=
| TargetReady (ready : ProductTargetReadyV1)
| TargetSuperseded (reason : SupersessionReasonV1).

Record ProductPreflightReadyV1 := mkPreflightReady {
  pf_target : ActivationTarget;
  pf_binding : ApprovalBindingContextV1;
  pf_target_is_active : bool;
  pf_expected_active : ExpectedActiveRuleSet;
  pf_activation_notices : list string;
  pf_role_hierarchy : RoleHierarchyReadyV1
}.

Inductive ProductReadinessAssessmentV1 :=
| PreflightReady (ready : ProductPreflightReadyV1)
| PreflightSuperseded (reason : SupersessionReasonV1).

(** The artifact is the one the target names. *)
Definition artifact_matches (target : ActivationTarget) (artifact : RuleSetVersion) : bool :=
  (rv_guild_id artifact =? tg_guild_id target) && String.eqb (rv_ruleset_key artifact) (tg_ruleset_key target) &&
  (rv_version artifact =? tg_version target) && bool_decide (rv_content_hash artifact = tg_content_hash target).

Definition validate_product_target_v1 (target : ActivationTarget) (artifact : RuleSetVersion)
  : Result ProductPreflightErrorV1 ActivationTarget :=
  if negb (artifact_matches target artifact) then Err CauseTargetCorrupt else Ok target.

Definition product_active_baseline_v1 (active : option RuleSetVersionIdentity) : ExpectedActiveBaselineV1 :=
  match active with
  | Some a => BaselineExact (vi_version a) (vi_content_hash a)
  | None => BaselineAbsent
  end.

Definition expected_active_ruleset (b : ExpectedActiveBaselineV1) : ExpectedActiveRuleSet :=
  match b with
  | BaselineAbsent => ExpectAbsent
  | BaselineExact version content_hash => ExpectExact (mkVersionIdentity version content_hash)
  end.

Definition target_identity (target : ActivationTarget) : RuleSetVersionIdentity :=
  mkVersionIdentity (tg_version target) (tg_content_hash target).

Definition assess_product_target_v1 (target : ActivationTarget) (context : ProductApprovalContextV1)
    (active : option RuleSetVersionIdentity) : ProductTargetAssessmentV1 :=
  let target_is_active := bool_decide (active = Some (target_identity target)) in
  let observed := product_active_baseline_v1 active in
  if negb target_is_active && negb (bool_decide (observed = pc_baseline context))
  then TargetSuperseded (ActiveBaselineDrift (pc_baseline context) observed)
  else TargetReady (mkTargetReady target (pc_binding context) target_is_active
                      (expected_active_ruleset (pc_baseline context))).

Section preflight.
Context (sha256 : list Z → list Z).
Context (content_hash : Z → InteractionRuleSet → Result RuleSetHashError (list Z)).
(** The derived [Debug] of a finding. *)
Context (debug_finding : PolicyFinding → string).

Definition product_binding_drift (g : GuildId) (binding : ApprovalBindingContextV1) (env : ActivationEnvironment)
  : Result ProductPreflightErrorV1 (option SupersessionReasonV1) :=
  observed_revision ← ok_or (en_binding_revision env) CauseBindingRevisionUnavailable;
  let observed_bindings :=
    match project_required_bindings (ab_required_bindings binding) (en_bindings env) with
    | Ok bs => Some bs | Err _ => None
    end in
  let observed_fingerprint :=
    bs ← observed_bindings;
    match approval_binding_fingerprint_v1 sha256 g observed_revision bs with Ok fp => Some fp | Err _ => None end in
  if (observed_revision =? ab_revision binding) &&
     bool_decide (observed_bindings = Some (ab_required_bindings binding)) &&
     bool_decide (observed_fingerprint = Some (ab_fingerprint binding))
  then Ok None
  else Ok (Some (BindingDrift (ab_revision binding) observed_revision (ab_fingerprint binding)
                   observed_fingerprint)).

Definition check_product_readiness_v1 (target : ProductTargetReadyV1) (artifact : RuleSetVersion)
    (env : ActivationEnvironment) : Result ProductPreflightErrorV1 ProductReadinessAssessmentV1 :=
  _ ← validate_product_target_v1 (tr_target target) artifact;
  drift ← product_binding_drift (tg_guild_id (tr_target target)) (tr_binding target) env;
  match drift with
  | Some reason => Ok (PreflightSuperseded reason)
  | None =>
      runtime ← map_err CauseReadiness
                  (check_readiness content_hash artifact (en_bindings env) (en_guild_capabilities env)
                     (en_role_permissions env));
      role_hierarchy ← map_err CauseRoleHierarchy
                         (check_role_hierarchy_v1 artifact (en_bindings env) (en_role_hierarchy env));
      Ok (PreflightReady (mkPreflightReady (tr_target target) (tr_binding target) (tr_target_is_active target)
                            (tr_expected_active target) (map debug_finding (rt_notices runtime)) role_hierarchy))
  end.
End preflight.

(** ** Programs *)
Inductive ActivationEnvironmentError := EnvironmentLoad (message : string).

(** The calls of the three traits, and looking at the deadline. *)
Inductive Action :=
| CallCreate (input : CreateActivationRequest)
| CallCreateProduct (input : CreateProductActivationRequest)
| CallLinkProduct (id : ActivationRequestId) (link : LinkProductActivation)
| CallGet (id : ActivationRequestId)
| CallApprove (id : ActivationRequestId) (approver : UserId)
| CallApproveBound (id : ActivationRequestId) (approver : UserId) (digest : ActivationDigest)
| CallReject (id : ActivationRequestId) (rejected_by : UserId) (reason : string)
| CallWithdraw (id : ActivationRequestId) (withdrawn_by : UserId) (reason : string)
| CallClaimApply (id : ActivationRequestId) (attempt : ApplyAttemptId) (lease_seconds : Z)
| CallClaimResume (id : ActivationRequestId) (attempt : ApplyAttemptId) (lease_seconds : Z)
| CallRenewLease (id : ActivationRequestId) (attempt : ApplyAttemptId) (lease_seconds : Z)
| CallCompleteApplied (id : ActivationRequestId) (attempt : ApplyAttemptId) (applied_by : UserId)
    (kind : CompletionKind) (notices : option (list string))
| CallRelease (id : ActivationRequestId) (attempt : ApplyAttemptId) (error : ApplyErrorRecord)
| CallSupersede (id : ActivationRequestId) (attempt : ApplyAttemptId) (reason : SupersessionReasonV1)
| CallMarkExpired (id : ActivationRequestId)
| CallListApplying (g : GuildId)
| CallBookkeep (id : ActivationRequestId) (applied_by : UserId)
| CallPublish (request : PublishRuleSetRequest)
| CallGetVersion (g : GuildId) (key : RuleSetKey) (version : RuleSetVersionId)
| CallActive (g : GuildId) (key : RuleSetKey)
| CallActivate (g : GuildId) (key : RuleSetKey) (version : RuleSetVersionId)
| CallActivateGuarded (request : GuardedRuleSetActivation)
| CallLoadFresh (target : ActivationTarget)
| PollDeadline.

Definition answer (a : Action) : Type :=
  match a with
  | CallCreate _ | CallCreateProduct _ => Result ActivationStoreError ActivationRequest
  | CallLinkProduct _ _ => Result LinkProductError ActivationRequest
  | CallGet _ => Result ActivationStoreError (option ActivationRequest)
  | CallApprove _ _ | CallApproveBound _ _ _ => Result ApproveError ActivationRequest
  | CallReject _ _ _ => Result RejectError ActivationRequest
  | CallWithdraw _ _ _ => Result WithdrawError ActivationRequest
  | CallClaimApply _ _ _ | CallClaimResume _ _ _ => Result ActivationStoreError ClaimOutcome
  | CallRenewLease _ _ _ | CallCompleteApplied _ _ _ _ _ | CallRelease _ _ _ | CallSupersede _ _ _
  | CallMarkExpired _ | CallBookkeep _ _ => Result ActivationStoreError bool
  | CallListApplying _ => Result ActivationStoreError (list ActivationRequest)
  | CallPublish _ => Result RuleSetStoreError PublishOutcome
  | CallGetVersion _ _ _ | CallActive _ _ => Result RuleSetStoreError (option RuleSetVersion)
  | CallActivate _ _ _ => Result RuleSetStoreError RuleSetActivation
  | CallActivateGuarded _ => Result RuleSetStoreError GuardedActivationOutcome
  | CallLoadFresh _ => Result ActivationEnvironmentError ActivationEnvironment
  | PollDeadline => bool
  end.

Inductive Prog (A : Type) : Type :=
| Done (a : A)
| Call (a : Action) (k : answer a → Prog A).
Arguments Done {A} a.
Arguments Call {A} a k.

Fixpoint prog_bind {A B} (p : Prog A) (f : A → Prog B) : Prog B :=
  match p with
  | Done a => f a
  | Call a k => Call a (λ x, prog_bind (k x) f)
  end.

Definition perform (a : Action) : Prog (answer a) := Call a Done.

(** [?]: the rest is skipped on an error, which [from] converts. *)
Definition prog_try {E F A B} (from : E → F) (p : Prog (Result E A)) (f : A → Prog (Result F B)) : Prog (Result F B) :=
  prog_bind p (λ r, match r with Ok a => f a | Err e => Done (Err (from e)) end).

(** The [Deadline] future: it looks at the timer before it polls and again when the
    polled future is ready, whose output is dropped when the time is over. *)
Fixpoint with_deadline {A} (elapsed : A) (p : Prog A) : Prog A :=
  match p with
  | Done a => Call PollDeadline (λ late : bool, Done (if late then elapsed else a))
  | Call a k => Call PollDeadline (λ late : bool, if late then Done elapsed
                                                  else Call a (λ x, with_deadline elapsed (k x)))
  end.

(** ** The service *)
Definition APPLY_LEASE_SECONDS : Z := 60.

Record RequestActivation := mkRequestActivation {
  ra_id : ActivationRequestId;
  ra_guild_id : GuildId;
  ra_ruleset_key : RuleSetKey;
  ra_version : RuleSetVersionId;
  ra_requester : UserId;
  ra_required_approvals : Z;
  ra_ttl : Duration
}.

Inductive RequestActivationError :=
| RqTargetMissing | RqTargetCorrupt | RqRuleSet (e : RuleSetStoreError) | RqStore (e : ActivationStoreError).

Inductive ApplyOutcome :=
| ApplyActivated | ApplyAlreadyActive | ApplyRecoveredAlreadyActive | ApplyAlreadyApplied
| ApplySuperseded (reason : SupersessionReasonV1)
| ApplyInProgress (blocking_request_id : ActivationRequestId) (lease_until : DateTime) (lease_expired : bool).

Inductive ApplyError :=
| ErrNotApproved | ErrUnlinked | ErrExpired | ErrWithdrawn | ErrLeaseLost | ErrTargetMissing | ErrTargetCorrupt
| ErrEnvironment (e : ActivationEnvironmentError)
| ErrNotReady (e : ReadinessError)
| ErrRoleHierarchyNotReady (e : RoleHierarchyReadinessErrorV1)
| ErrRuleSet (e : RuleSetStoreError)
| ErrIndeterminate (e : RuleSetStoreError)
| ErrStore (e : ActivationStoreError).

Inductive RecoveryDisposition := Recovered | KeptApplying.

Record RecoveryEntry := mkRecoveryEntry {
  re_request_id : ActivationRequestId;
  re_disposition : RecoveryDisposition;
  re_detail : option string
}.

Definition request_activation (input : RequestActivation) : Prog (Result RequestActivationError ActivationRequest) :=
  prog_try RqRuleSet (perform (CallGetVersion (ra_guild_id input) (ra_ruleset_key input) (ra_version input))) (λ found,
  match found with
  | None => Done (Err RqTargetMissing)
  | Some artifact =>
      if negb (rv_guild_id artifact =? ra_guild_id input) ||
         negb (String.eqb (rv_ruleset_key artifact) (ra_ruleset_key input)) ||
         negb (rv_version artifact =? ra_version input)
      then Done (Err RqTargetCorrupt)
      else
        prog_try RqRuleSet (perform (CallActive (ra_guild_id input) (ra_ruleset_key input))) (λ active,
        prog_try RqStore
          (perform (CallCreate (mkCreate (ra_id input)
             (mkTarget (ra_guild_id input) (ra_ruleset_key input) (ra_version input) (rv_content_hash artifact))
             (ra_requester input) (ra_required_approvals input) (ra_ttl input)
             ((λ a, mkObserved (rv_version a) (rv_content_hash a)) <$> active))))
          (λ r, Done (Ok r)))
  end).

Definition supersession_reason (r : ActivationRequest) : Result ApplyError SupersessionReasonV1 :=
  match ar_termination r with
  | Some (TerminationSuperseded _ reason) => Ok reason
  | _ => Err (ErrStore (InvalidRequest "superseded activation omitted terminal evidence"))
  end.

Definition product_preflight_apply_error (e : ProductPreflightErrorV1) : ApplyError :=
  match e with
  | CauseTargetCorrupt => ErrTargetCorrupt
  | CauseBindingRevisionUnavailable =>
      ErrEnvironment (EnvironmentLoad "authoritative binding revision is unavailable for product activation")
  | CauseReadiness e => ErrNotReady e
  | CauseRoleHierarchy e => ErrRoleHierarchyNotReady e
  end.

Definition apply_failure_kind (e : ApplyError) : ApplyFailureKind :=
  match e with
  | ErrTargetMissing => FailTargetMissing
  | ErrTargetCorrupt => FailTargetCorrupt
  | ErrEnvironment _ => FailEnvironment
  | ErrNotReady _ | ErrRoleHierarchyNotReady _ => FailNotReady
  | _ => FailActivation
  end.

Inductive PreparedActivation := PreparedAlreadyActive | PreparedReady (env : ActivationEnvironment).

Section service.
Context (sha256 : list Z → list Z).
Context (content_hash : Z → InteractionRuleSet → Result RuleSetHashError (list Z)).
Context (debug_finding : PolicyFinding → string).
(** The derived texts of errors. *)
Context (display_apply_error : ApplyError → string) (debug_store_error : RuleSetStoreError → string)
  (display_activation_error : ActivationStoreError → string).

Definition apply_error_record (e : ApplyError) : ApplyErrorRecord :=
  mkApplyErrorRecord (apply_failure_kind e) (display_apply_error e).

Definition load_request (id : ActivationRequestId) : Prog (Result ApplyError ActivationRequest) :=
  prog_try ErrStore (perform (CallGet id)) (λ found, Done (ok_or found (ErrStore RequestNotFound))).

Definition svc_complete (id : ActivationRequestId) (attempt : ApplyAttemptId) (by_ : UserId)
    (kind : CompletionKind) (notices : option (list string)) : Prog (Result ApplyError unit) :=
  prog_try ErrStore (perform (CallCompleteApplied id attempt by_ kind notices))
    (λ done, Done (ensure done ErrLeaseLost)).

Definition svc_supersede (id : ActivationRequestId) (attempt : ApplyAttemptId) (reason : SupersessionReasonV1)
  : Prog (Result ApplyError ApplyOutcome) :=
  prog_try ErrStore (perform (CallSupersede id attempt reason))
    (λ done, Done (_ ← ensure done ErrLeaseLost; Ok (ApplySuperseded reason))).

(** [release_known] followed by the error it was given. *)
Definition release_known {A} (id : ActivationRequestId) (attempt : ApplyAttemptId) (error : ApplyError)
  : Prog (Result ApplyError A) :=
  prog_try ErrStore (perform (CallRelease id attempt (apply_error_record error)))
    (λ done, Done (_ ← ensure done ErrLeaseLost; Err error)).

(** A fallible stage whose known failure releases the request. *)
Definition or_release {A B} (id : ActivationRequestId) (attempt : ApplyAttemptId)
    (p : Prog (Result ApplyError A)) (f : A → Prog (Result ApplyError B)) : Prog (Result ApplyError B) :=
  prog_bind p (λ r, match r with Ok a => f a | Err e => release_known id attempt e end).

Definition load_exact_target (target : ActivationTarget) : Prog (Result ApplyError RuleSetVersion) :=
  prog_try ErrRuleSet (perform (CallGetVersion (tg_guild_id target) (tg_ruleset_key target) (tg_version target)))
    (λ found, Done (artifact ← ok_or found ErrTargetMissing;
                    _ ← map_err product_preflight_apply_error (validate_product_target_v1 target artifact);
                    Ok artifact)).

Definition prepare_activation (target : ActivationTarget) : Prog (Result ApplyError PreparedActivation) :=
  prog_try ErrRuleSet (perform (CallGetVersion (tg_guild_id target) (tg_ruleset_key target) (tg_version target)))
  (λ found,
  match found with
  | None => Done (Err ErrTargetMissing)
  | Some artifact =>
      if negb (artifact_matches target artifact) then Done (Err ErrTargetCorrupt)
      else
        prog_try ErrRuleSet (perform (CallActive (tg_guild_id target) (tg_ruleset_key target))) (λ active,
        match active with
        | Some a =>
            if rv_version a =? tg_version target
            then Done (if bool_decide (rv_content_hash a = tg_content_hash target)
                       then Ok PreparedAlreadyActive else Err ErrTargetCorrupt)
            else prog_try ErrEnvironment (perform (CallLoadFresh target)) (λ env, Done (Ok (PreparedReady env)))
        | None => prog_try ErrEnvironment (perform (CallLoadFresh target)) (λ env, Done (Ok (PreparedReady env)))
        end)
  end).

(** [activate_if_ready] over any rule set store. *)
Definition activate_if_ready_calls (g : GuildId) (key : RuleSetKey) (version : RuleSetVersionId)
    (env : ActivationEnvironment) : Prog (Result ActivationError (RuleSetActivation * RuntimeRuleSet)) :=
  prog_try ActivationVersionLookup (perform (CallGetVersion g key version)) (λ found,
  match found with
  | None => Done (Err ActivationVersionNotFound)
  | Some artifact =>
      match check_readiness content_hash artifact (en_bindings env) (en_guild_capabilities env)
              (en_role_permissions env) with
      | Err e => Done (Err (ActivationNotReady e))
      | Ok runtime =>
          prog_try ActivateFailed (perform (CallActivate g key version))
            (λ activation, Done (Ok (activation, runtime)))
      end
  end).

Definition execute_error (e : ActivationError) : ApplyError :=
  match e with
  | ActivationVersionNotFound => ErrTargetMissing
  | ActivationVersionLookup e => ErrRuleSet e
  | ActivationNotReady e => ErrNotReady e
  | ActivateFailed StoreVersionNotFound => ErrTargetMissing
  | ActivateFailed e => ErrIndeterminate e
  end.

Definition execute_activation (target : ActivationTarget) (env : ActivationEnvironment)
  : Prog (Result ApplyError (list string)) :=
  prog_bind (activate_if_ready_calls (tg_guild_id target) (tg_ruleset_key target) (tg_version target) env)
    (λ r, Done (match r with
                | Ok (_, runtime) => Ok (map debug_finding (rt_notices runtime))
                | Err e => Err (execute_error e)
                end)).

Definition apply_legacy_claimed (id : ActivationRequestId) (attempt : ApplyAttemptId) (by_ : UserId)
    (target : ActivationTarget) : Prog (Result ApplyError ApplyOutcome) :=
  or_release id attempt (prepare_activation target) (λ prepared,
  match prepared with
  | PreparedAlreadyActive =>
      prog_try (λ e, e) (svc_complete id attempt by_ KindAlreadyActive None) (λ _, Done (Ok ApplyAlreadyActive))
  | PreparedReady env =>
      prog_try ErrStore (perform (CallRenewLease id attempt APPLY_LEASE_SECONDS)) (λ renewed : bool,
      if negb renewed then Done (Err ErrLeaseLost)
      else
        prog_bind (execute_activation target env) (λ r,
        match r with
        | Ok notices =>
            prog_try (λ e, e) (svc_complete id attempt by_ KindActivated (Some notices))
              (λ _, Done (Ok ApplyActivated))
        | Err (ErrIndeterminate e) => Done (Err (ErrIndeterminate e))
        | Err error => release_known id attempt error
        end))
  end).

(** What [apply_product_claimed] does with the answer of the guarded activation. *)
Definition finish_guarded (id : ActivationRequestId) (attempt : ApplyAttemptId) (by_ : UserId)
    (context : ProductApprovalContextV1) (notices : option (list string))
    (guarded : Result RuleSetStoreError GuardedActivationOutcome) : Prog (Result ApplyError ApplyOutcome) :=
  match guarded with
  | Ok (Activated _) =>
      prog_try (λ e, e) (svc_complete id attempt by_ KindActivated notices) (λ _, Done (Ok ApplyActivated))
  | Ok (AlreadyTarget _) =>
      prog_try (λ e, e) (svc_complete id attempt by_ KindAlreadyActive notices) (λ _, Done (Ok ApplyAlreadyActive))
  | Ok (BaselineMismatch observed) =>
      svc_supersede id attempt (ActiveBaselineDrift (pc_baseline context) (product_active_baseline_v1 observed))
  | Err (StoreBackend m) => Done (Err (ErrIndeterminate (StoreBackend m)))
  | Err StoreVersionNotFound => release_known id attempt ErrTargetMissing
  | Err TargetHashMismatch => release_known id attempt ErrTargetCorrupt
  | Err e => release_known id attempt (ErrRuleSet e)
  end.

Definition guarded_request (target : ActivationTarget) (expected : ExpectedActiveRuleSet)
  : GuardedRuleSetActivation :=
  mkGuardedActivation (tg_guild_id target) (tg_ruleset_key target) (target_identity target) expected.

Definition apply_product_claimed (id : ActivationRequestId) (attempt : ApplyAttemptId) (by_ : UserId)
    (target : ActivationTarget) (context : ProductApprovalContextV1) : Prog (Result ApplyError ApplyOutcome) :=
  or_release id attempt (load_exact_target target) (λ artifact,
  or_release id attempt
    (prog_try ErrRuleSet (perform (CallActive (tg_guild_id target) (tg_ruleset_key target))) (λ a, Done (Ok a)))
  (λ active,
  match assess_product_target_v1 target context (version_identity <$> active) with
  | TargetSuperseded reason => svc_supersede id attempt reason
  | TargetReady target_ready =>
      or_release id attempt
        (prog_try ErrEnvironment (perform (CallLoadFresh target)) (λ env, Done (Ok env)))
      (λ env,
      match check_product_readiness_v1 sha256 content_hash debug_finding target_ready artifact env with
      | Ok (PreflightSuperseded reason) => svc_supersede id attempt reason
      | Err error => release_known id attempt (product_preflight_apply_error error)
      | Ok (PreflightReady ready) =>
          let notices := Some (pf_activation_notices ready) in
          if pf_target_is_active ready
          then prog_try (λ e, e) (svc_complete id attempt by_ KindAlreadyActive notices)
                 (λ _, Done (Ok ApplyAlreadyActive))
          else
            prog_try ErrStore (perform (CallRenewLease id attempt APPLY_LEASE_SECONDS)) (λ renewed : bool,
            if negb renewed then Done (Err ErrLeaseLost)
            else prog_bind (perform (CallActivateGuarded (guarded_request target (pf_expected_active ready))))
                   (finish_guarded id attempt by_ context notices))
      end)
  end)).

Definition apply_claimed (id : ActivationRequestId) (attempt : ApplyAttemptId) (by_ : UserId)
    (request : ActivationRequest) : Prog (Result ApplyError ApplyOutcome) :=
  match ar_approval_context request with
  | ProductAuthoring context => apply_product_claimed id attempt by_ (ar_target request) context
  | LegacyManual => apply_legacy_claimed id attempt by_ (ar_target request)
  end.

Definition deadline_error : Result ApplyError ApplyOutcome :=
  Err (ErrIndeterminate (StoreBackend "activation deadline exceeded")).

Definition apply_claim (id : ActivationRequestId) (attempt : ApplyAttemptId) (by_ : UserId) (claim : ClaimOutcome)
  : Prog (Result ApplyError ApplyOutcome) :=
  match claim with
  | Claimed request => with_deadline deadline_error (apply_claimed id attempt by_ request)
  | ClaimInProgress blocking until expired => Done (Ok (ApplyInProgress blocking until expired))
  | ClaimAlreadyApplied => Done (Ok ApplyAlreadyApplied)
  | ClaimNotApproved => Done (Err ErrNotApproved)
  | ClaimUnlinked => Done (Err ErrUnlinked)
  | ClaimExpired => Done (Err ErrExpired)
  end.

Definition apply (id : ActivationRequestId) (attempt : ApplyAttemptId) (by_ : UserId)
  : Prog (Result ApplyError ApplyOutcome) :=
  prog_try (λ e, e) (load_request id) (λ request,
  if awaits_link request then Done (Err ErrUnlinked)
  else match ar_state request with
       | StApplied => Done (Ok ApplyAlreadyApplied)
       | StExpired => Done (Err ErrExpired)
       | StSuperseded => Done (reason ← supersession_reason request; Ok (ApplySuperseded reason))
       | StWithdrawn => Done (Err ErrWithdrawn)
       | StPending | StRejected => Done (Err ErrNotApproved)
       | StApproved | StApplying =>
           prog_try ErrStore (perform (CallClaimApply id attempt APPLY_LEASE_SECONDS))
             (apply_claim id attempt by_)
       end).

Definition resume (id : ActivationRequestId) (attempt : ApplyAttemptId) (by_ : UserId)
  : Prog (Result ApplyError ApplyOutcome) :=
  prog_try (λ e, e) (load_request id) (λ request,
  if awaits_link request then Done (Err ErrUnlinked)
  else match ar_state request with
       | StApplied => Done (Ok ApplyAlreadyApplied)
       | StExpired => Done (Err ErrExpired)
       | StSuperseded => Done (reason ← supersession_reason request; Ok (ApplySuperseded reason))
       | StWithdrawn => Done (Err ErrWithdrawn)
       | StApplying =>
           prog_try ErrStore (perform (CallClaimResume id attempt APPLY_LEASE_SECONDS))
             (apply_claim id attempt by_)
       | StPending | StApproved | StRejected => Done (Err ErrNotApproved)
       end).

Definition recover_one (request : ActivationRequest) : Prog (Result string bool) :=
  let target := ar_target request in
  prog_try (λ e, "target lookup failed: " +:+ debug_store_error e)
    (perform (CallGetVersion (tg_guild_id target) (tg_ruleset_key target) (tg_version target))) (λ found,
  match found with
  | None => Done (Err "target missing")
  | Some artifact =>
      if negb (bool_decide (rv_content_hash artifact = tg_content_hash target))
      then Done (Err "target hash mismatch")
      else
        prog_try (λ e, "active lookup failed: " +:+ debug_store_error e)
          (perform (CallActive (tg_guild_id target) (tg_ruleset_key target))) (λ active,
        match active with
        | None => Done (Ok false)
        | Some a =>
            if negb (bool_decide (version_identity a = target_identity target)) then Done (Ok false)
            else prog_try (λ e, "bookkeeping failed: " +:+ display_activation_error e)
                   (perform (CallBookkeep (ar_id request) (ar_requester request))) (λ b, Done (Ok b))
        end)
  end).

Definition recovery_entry (request : ActivationRequest) (disposition : Result string bool) : RecoveryEntry :=
  mkRecoveryEntry (ar_id request)
    (match disposition with Ok true => Recovered | _ => KeptApplying end)
    (match disposition with Ok _ => None | Err m => Some m end).

Fixpoint recover_all (requests : list ActivationRequest) (entries : list RecoveryEntry)
  : Prog (Result ActivationStoreError (list RecoveryEntry)) :=
  match requests with
  | [] => Done (Ok entries)
  | request :: rest =>
      prog_bind (recover_one request) (λ d, recover_all rest (entries ++ [recovery_entry request d]))
  end.

Definition recover_applying (g : GuildId) : Prog (Result ActivationStoreError (list RecoveryEntry)) :=
  prog_try (λ e, e) (perform (CallListApplying g)) (λ applying, recover_all applying []).
End service.

(** ** The in-memory world *)
Record ActWorld := mkActWorld {
  aw_requests : list (string * ActivationRequest);
  aw_rulesets : gmap (GuildId * RuleSetKey) GuildRuleSet
}.

Definition on_requests {A} (w : ActWorld) (r : A * list (string * ActivationRequest)) : A * ActWorld :=
  (r.1, mkActWorld r.2 (aw_rulesets w)).
Definition on_rulesets {A} (w : ActWorld) (r : A * gmap (GuildId * RuleSetKey) GuildRuleSet) : A * ActWorld :=
  (r.1, mkActWorld (aw_requests w) r.2).

Section handler.
Context (sha256 : list Z → list Z).
Context (checked_add_signed : DateTime → Duration → option DateTime).
Context (try_seconds : Z → option Duration) (seconds : Z → Duration).
Context (hasher : Z → InteractionRuleSet → Result RuleSetHashError (list Z)).
Context (provider : ActivationTarget → Result ActivationEnvironmentError ActivationEnvironment).

(** [now] and [now'] are the readings of the clock the call makes; [late] tells
    whether the timer has fired. *)
Definition handle (now now' : DateTime) (late : bool) (a : Action) (w : ActWorld) : answer a * ActWorld :=
  let st := aw_requests w in
  let rs := aw_rulesets w in
  match a with
  | CallCreate input => on_requests w (store_create sha256 checked_add_signed try_seconds now input st)
  | CallCreateProduct input => on_requests w (store_create_product sha256 checked_add_signed try_seconds now input st)
  | CallLinkProduct id link => on_requests w (store_link_product sha256 try_seconds now id link st)
  | CallGet id => on_requests w (store_get sha256 try_seconds now id st)
  | CallApprove id approver => on_requests w (store_approve sha256 try_seconds now id approver st)
  | CallApproveBound id approver digest =>
      on_requests w (store_approve_bound sha256 try_seconds now id approver digest st)
  | CallReject id by_ reason => on_requests w (store_reject sha256 try_seconds now id by_ reason st)
  | CallWithdraw id by_ reason => on_requests w (store_withdraw sha256 try_seconds now id by_ reason st)
  | CallClaimApply id attempt n =>
      on_requests w (store_claim_apply sha256 checked_add_signed try_seconds seconds now now' id attempt n st)
  | CallClaimResume id attempt n =>
      on_requests w (store_claim_resume sha256 checked_add_signed try_seconds seconds now now' id attempt n st)
  | CallRenewLease id attempt n =>
      on_requests w (store_renew_lease sha256 checked_add_signed try_seconds seconds now id attempt n st)
  | CallCompleteApplied id attempt by_ kind notices =>
      on_requests w (store_complete_applied sha256 try_seconds now id attempt by_ kind notices st)
  | CallRelease id attempt error => on_requests w (store_release_to_approved sha256 try_seconds id attempt error st)
  | CallSupersede id attempt reason =>
      on_requests w (store_supersede_applying sha256 try_seconds now id attempt reason st)
  | CallMarkExpired id => on_requests w (store_mark_expired sha256 try_seconds now id st)
  | CallListApplying g => on_requests w (store_list_applying sha256 try_seconds g st)
  | CallBookkeep id by_ => on_requests w (store_bookkeep_applied sha256 try_seconds now id by_ st)
  | CallPublish request => on_rulesets w (publish hasher request rs)
  | CallGetVersion g key version => on_rulesets w (get_version g key version rs)
  | CallActive g key => on_rulesets w (active g key rs)
  | CallActivate g key version => on_rulesets w (activate g key version rs)
  | CallActivateGuarded request => on_rulesets w (activate_guarded request rs)
  | CallLoadFresh target => (provider target, w)
  | PollDeadline => (late, w)
  end.

(** A run with no other calls in between and before the deadline; [clock] gives the
    readings of the clock, one for each call. *)
Fixpoint run {A} (clock : nat → DateTime) (n : nat) (p : Prog A) (w : ActWorld) : nat * (A * ActWorld) :=
  match p with
  | Done a => (n, (a, w))
  | Call a k =>
      let '(x, w') := handle (clock n) (clock n) false a w in
      run clock (match a with PollDeadline => n | _ => S n end) (k x) w'
  end.
End handler.
