(* ===== verification/ActivationSpec.v ===== *)
(** * Activation requests stay valid

    Every transition of an activation request keeps it valid, keeps what was
    approved, and leaves ended requests alone, as long as the clock does not run
    backwards. *)

From Stdlib Require Import ZArith Lia Ascii String.
From stdpp Require Import base decidable list strings gmap numbers sorting.
From S2P Require Import Prelude RustStd DiscordModel RuleSet ApprovalBinding Activation.
Open Scope Z_scope.

(** ** Sorting *)
Section sorting.
Context {A : Type} (key : A → Z).

Lemma sort_insert_perm x l : sort_insert key x l ≡ₚ x :: l.
Proof.
  induction l as [|y l IH]; cbn; [done|]. destruct (_ <=? _); [done|]. rewrite IH. constructor.
Qed.

Lemma sort_by_key_perm l : sort_by_key key l ≡ₚ l.
Proof. induction l as [|x l IH]; cbn; [done|]. by rewrite sort_insert_perm, IH. Qed.

Lemma sort_insert_sorted x l : StronglySorted (λ a b, key a ≤ key b) l →
  StronglySorted (λ a b, key a ≤ key b) (sort_insert key x l).
Proof.
  induction 1 as [|y l Hl IH Hy]; cbn; [repeat constructor|].
  destruct (key x <=? key y) eqn:E.
  - apply Z.leb_le in E. constructor; [by constructor|]. constructor; [done|].
    eapply Forall_impl; [exact Hy|]. cbn. lia.
  - apply Z.leb_gt in E. constructor; [done|]. rewrite sort_insert_perm. constructor; [lia|done].
Qed.

Lemma sort_by_key_sorted l : StronglySorted (λ a b, key a ≤ key b) (sort_by_key key l).
Proof. induction l; cbn; [constructor|by apply sort_insert_sorted]. Qed.

Lemma windows_lt_sorted l : windows_lt key l = true ↔ StronglySorted (λ a b, key a < key b) l.
Proof.
  split.
  - induction l as [|x l IH]; [constructor|]. intros H. destruct l as [|y l]; [repeat constructor|].
    cbn in H. unfold cmp, Z_Ord in H. destruct (key x ?= key y) eqn:E; try done. change (key x < key y) in E.
    specialize (IH H). constructor; [done|]. apply StronglySorted_inv in IH as [_ Hy].
    constructor; [done|]. eapply Forall_impl; [exact Hy|]. cbn. lia.
  - induction 1 as [|x l Hl IH Hx]; [done|]. destruct l as [|y l]; [done|].
    apply Forall_cons_1 in Hx as [Hx _]. cbn in IH |- *. change ((key x ?= key y) = Lt) in Hx.
    unfold cmp, Z_Ord in *. by rewrite Hx.
Qed.

(** Sorting a strictly sorted list with a fresh element keeps it strictly sorted. *)
Lemma sort_fresh_windows l x : windows_lt key l = true → existsb (λ a, key a =? key x) l = false →
  windows_lt key (sort_by_key key (l ++ [x])) = true.
Proof.
  rewrite !windows_lt_sorted. intros Hl Hx.
  assert (Hnd : NoDup (map key (sort_by_key key (l ++ [x])))).
  { rewrite sort_by_key_perm, map_app. apply NoDup_app. split_and!; [|intros k Hk Hk'|apply NoDup_singleton].
    - clear Hx. induction Hl as [|y l Hl IH Hy]; cbn; constructor; [|done].
      intros (z & Ez & Hz)%list_elem_of_fmap. rewrite Forall_forall in Hy. specialize (Hy _ Hz). cbn in Hy. lia.
    - apply list_elem_of_singleton in Hk'. subst. apply list_elem_of_fmap in Hk as (y & Ey & Hy).
      rewrite <- not_true_iff_false, existsb_exists in Hx. apply Hx. exists y.
      split; [by apply list_elem_of_In|]. apply Z.eqb_eq. congruence. }
  generalize (sort_by_key_sorted (l ++ [x])) Hnd. generalize (sort_by_key key (l ++ [x])).
  clear. induction 1 as [|y l Hl IH Hy]; cbn; intros Hnd; constructor.
  - apply IH. by apply NoDup_cons in Hnd as [_ ?].
  - apply NoDup_cons in Hnd as [Hn _]. rewrite Forall_forall in Hy |- *. intros z Hz.
    specialize (Hy _ Hz). cbn in Hy |- *.
    destruct (decide (key y = key z)) as [E|E]; [|lia]. destruct Hn. rewrite E. by apply list_elem_of_fmap_2.
Qed.

Lemma sort_forallb (P : A → bool) l : forallb P (sort_by_key key l) = forallb P l.
Proof.
  apply eq_true_iff_eq. rewrite !forallb_forall. setoid_rewrite <- list_elem_of_In.
  by setoid_rewrite sort_by_key_perm.
Qed.
End sorting.

Section valid.
Context (sha256 : list Z → list Z) (try_seconds : Z → option Z).
Implicit Types r : ActivationRequest.

Abbreviation valid := (validate_request sha256 try_seconds).

Lemma request_validate_parts r : valid r = Ok tt ↔
  validate_policy r = Ok tt ∧ validate_approvals r = Ok tt ∧ validate_timestamps r = Ok tt ∧
  validate_context sha256 try_seconds r = Ok tt ∧ validate_apply_fields r = Ok tt ∧ validate_state r = Ok tt.
Proof. unfold validate_request. by rewrite !then_Ok. Qed.

(** Valid, and none of its instants lies ahead of the clock. *)
Record request_ok (now : Z) r : Prop := {
  rk_valid : valid r = Ok tt;
  rk_created : ar_created_at r ≤ now;
  rk_linked : ∀ l, ar_link_state r = Linked l → l ≤ now
}.

Lemma request_ok_later now now' r : now ≤ now' → request_ok now r → request_ok now' r.
Proof. intros Hle [V C L]. split; [done|lia|]. intros l El. specialize (L l El). lia. Qed.

(** What never changes, what only grows, and that an ended request is left alone. *)
Definition ended (s : ActivationRequestState) : bool :=
  match s with StApplied | StRejected | StExpired | StSuperseded | StWithdrawn => true | _ => false end.

Record extends r r' : Prop := {
  ex_id : ar_id r' = ar_id r;
  ex_target : ar_target r' = ar_target r;
  ex_requester : ar_requester r' = ar_requester r;
  ex_required : ar_required_approvals r' = ar_required_approvals r;
  ex_context : ar_approval_context r' = ar_approval_context r;
  ex_created : ar_created_at r' = ar_created_at r;
  ex_expires : ar_expires_at r' = ar_expires_at r;
  ex_approvals : ∀ a, a ∈ ar_approvals r → a ∈ ar_approvals r';
  ex_linked : ∀ l, ar_link_state r = Linked l → ar_link_state r' = Linked l;
  ex_ended : ended (ar_state r) = true → r' = r
}.

Lemma extends_refl r : extends r r.
Proof. by split. Qed.

Lemma extends_trans r1 r2 r3 : extends r1 r2 → extends r2 r3 → extends r1 r3.
Proof.
  intros [] [ex1 ex2 ex3 ex4 ex5 ex6 ex7 ex8 ex9 ex10]. split; try congruence; auto.
  intros He. rewrite ex10; [auto|]. by rewrite ex_ended0.
Qed.

(** One transition. *)
Definition good_step (now : Z) r r' : Prop := request_ok now r' ∧ extends r r'.

Lemma good_refl now r : request_ok now r → good_step now r r.
Proof. split; [done|apply extends_refl]. Qed.

(** *** The parts of validity as propositions *)
Lemma within_spec r t : within r t = true ↔ ar_created_at r ≤ t < ar_expires_at r.
Proof. unfold within. by rewrite andb_true_iff, Z.leb_le, Z.ltb_lt. Qed.

Lemma some_and_false {A} (P : A → bool) o :
  is_some_and P o = false ↔ ∀ x, o = Some x → P x = false.
Proof. destruct o as [x|]; cbn; split; try done; [by intros ? ? [= <-]|auto]. Qed.

Lemma timestamps_spec r : validate_timestamps r = Ok tt ↔
  (∀ x, ar_rejection r = Some x → ar_created_at r ≤ rj_rejected_at x < ar_expires_at r) ∧
  (∀ c, ar_completion r = Some c → ar_created_at r ≤ cp_applied_at c) ∧
  (∀ t, ar_termination r = Some t → ar_created_at r ≤ termination_at t).
Proof.
  unfold validate_timestamps. rewrite ensure_Ok, negb_true_iff, !orb_false_iff, !some_and_false.
  setoid_rewrite negb_false_iff. setoid_rewrite within_spec. setoid_rewrite Z.ltb_ge. tauto.
Qed.

Lemma apply_fields_spec r : validate_apply_fields r = Ok tt ↔
  match ar_state r with
  | StApplying => is_Some (ar_apply_attempt_id r) ∧ is_Some (ar_apply_lease_until r)
  | _ => ar_apply_attempt_id r = None ∧ ar_apply_lease_until r = None
  end.
Proof.
  unfold validate_apply_fields. rewrite ensure_Ok.
  destruct (ar_state r), (ar_apply_attempt_id r), (ar_apply_lease_until r); cbn;
    unfold is_Some; naive_solver.
Qed.

(** What the context part of validity reads. *)
Definition context_core r :=
  (ar_id r, ar_target r, ar_requester r, ar_required_approvals r, ar_approval_context r,
   ar_observed_active r, ar_created_at r, ar_expires_at r).

Lemma context_carry r r' : context_core r' = context_core r →
  ar_link_state r' = ar_link_state r → ar_approvals r' = ar_approvals r →
  awaits_link r = false ∨ ar_apply_attempt_no r' = ar_apply_attempt_no r ∧ ar_state r' = StExpired →
  validate_context sha256 try_seconds r = Ok tt → validate_context sha256 try_seconds r' = Ok tt.
Proof.
  unfold context_core, awaits_link. intros [= Hid Htg Hrq Hra Hc Hob Hcr Hex] Hl Ha Hor.
  unfold validate_context. rewrite Hc, Hl, Ha. destruct (ar_approval_context r) as [|c]; [done|].
  unfold product_context_valid, validate_link, within. rewrite Hid, Htg, Hrq, Hra, Hob, Hcr, Hex, Hl, Ha.
  intros (-> & H)%then_Ok. cbn. apply bind_Ok_inv in H as (ttl & -> & H). cbn.
  apply then_Ok in H as (-> & H). cbn. destruct (ar_link_state r); [done| |done].
  destruct Hor as [?|[-> ->]]; [done|]. rewrite ensure_Ok, !andb_true_iff in H |- *. tauto.
Qed.

(** A transition that touches neither context, link nor approvals. *)
Lemma carry now r r' : context_core r' = context_core r →
  ar_link_state r' = ar_link_state r → ar_approvals r' = ar_approvals r →
  awaits_link r = false ∨ ar_apply_attempt_no r' = ar_apply_attempt_no r ∧ ar_state r' = StExpired →
  ended (ar_state r) = false →
  validate_timestamps r' = Ok tt → validate_apply_fields r' = Ok tt → validate_state r' = Ok tt →
  request_ok now r → good_step now r r'.
Proof.
  intros Hcore Hl Ha Hor He Vt Vf Vs [V C L]. apply request_validate_parts in V as (V1 & V2 & _ & V4 & _ & _).
  pose proof (context_carry r r' Hcore Hl Ha Hor V4) as V4'.
  unfold context_core in Hcore. injection Hcore as Hid Htg Hrq Hra Hc Hob Hcr Hex. split.
  - split; [|by rewrite Hcr|intros l; rewrite Hl; apply L]. apply request_validate_parts. split_and!; try done.
    + unfold validate_policy in *. by rewrite Hra, Hcr, Hex.
    + unfold validate_approvals, within in *. by rewrite Ha, Hcr, Hex.
  - split; try done; [by rewrite Ha|by rewrite Hl|]. by rewrite He.
Qed.

(** The decisions a state admits. *)
Lemma open_decisions r : ended (ar_state r) = false → validate_state r = Ok tt →
  ar_rejection r = None ∧ ar_completion r = None ∧ ar_termination r = None ∧
  (ar_state r ≠ StPending → ar_required_approvals r ≤ approval_count r).
Proof.
  intros He. unfold validate_state, no_rejection, no_completion, no_termination.
  destruct (ar_state r), (ar_rejection r), (ar_completion r), (ar_termination r);
    cbn in *; try done; rewrite ensure_Ok; rewrite ?andb_true_r, ?andb_false_r; try done;
    rewrite ?Z.leb_le; done.
Qed.

(** Facts of an open request: its decisions, its attempt fields, its validity. *)
Ltac open_request H He Est :=
  pose proof H as Hvalid; apply rk_valid, request_validate_parts in Hvalid as (_ & _ & Vt & _ & Vf & Vs);
  destruct (open_decisions _ He Vs) as (Hrj & Hcp & Htm & Hq);
  apply apply_fields_spec in Vf; rewrite Est in Vf.

Ltac state_part Hrj Hcp Htm :=
  unfold validate_state, no_rejection, no_completion, no_termination, approval_count; cbn;
  rewrite ?Hrj, ?Hcp, ?Htm; cbn;
  (done || (apply ensure_Ok; rewrite ?andb_true_iff, ?Z.leb_le; split_and?; try done)).

Lemma expire_cases now r :
  (ar_state r = StPending ∨ ar_state r = StApproved) ∧ ar_expires_at r ≤ now ∧
    expire_if_due now r = (true, with_state StExpired r) ∨
  (ar_state r = StPending ∨ ar_state r = StApproved → now < ar_expires_at r) ∧
    expire_if_due now r = (false, r).
Proof.
  unfold expire_if_due. destruct (ar_state r) eqn:E; cbn; try (right; split; [by intros []|done]);
    (destruct (_ <=? now) eqn:D; [left; apply Z.leb_le in D; auto|right; apply Z.leb_gt in D; auto]).
Qed.

Lemma expired_good now r : request_ok now r → ar_state r = StPending ∨ ar_state r = StApproved →
  good_step now r (with_state StExpired r).
Proof.
  intros H Hst. assert (He : ended (ar_state r) = false) by (destruct Hst as [E|E]; by rewrite E).
  assert (Vf' : validate_apply_fields (with_state StExpired r) = Ok tt).
  { apply apply_fields_spec. pose proof H as (_ & _ & _ & _ & Vf & _)%rk_valid%request_validate_parts.
    apply apply_fields_spec in Vf. destruct Hst as [E|E]; by rewrite E in Vf. }
  pose proof H as Hvalid; apply rk_valid, request_validate_parts in Hvalid as (_ & _ & Vt & _ & _ & Vs).
  destruct (open_decisions _ He Vs) as (Hrj & Hcp & Htm & _).
  apply (carry now r); try done; [by right|]. state_part Hrj Hcp Htm.
Qed.

Lemma expire_good now r : request_ok now r → good_step now r (expire_if_due now r).2.
Proof.
  intros H. destruct (expire_cases now r) as [(Hst & _ & ->)|[_ ->]]; [by apply expired_good|by apply good_refl].
Qed.

Lemma link_good p d x now r : request_ok now r → good_step now r (link_product_at p d x now r).2.
Proof.
  intros H. unfold link_product_at. destruct (ar_approval_context r) as [|c] eqn:Ec; [by apply good_refl|].
  destruct (_ || _ || _); [by apply good_refl|].
  destruct (is_linked (ar_link_state r)) eqn:El; [by apply expire_good|].
  destruct (expire_cases now r) as [(Hst & _ & ->)|[Hdue ->]]; [by apply expired_good|].
  destruct (ar_link_state r) as [| |l] eqn:Els; [by apply good_refl| |done].
  destruct (bool_decide (ar_state r = StPending)) eqn:Es; [|by apply good_refl].
  destruct (bool_decide (length _ = _)) eqn:Eap; [|by apply good_refl]. cbn.
  apply bool_decide_eq_true in Es, Eap. apply nil_length_inv in Eap. specialize (Hdue (or_introl Es)).
  destruct H as [V C L]. split; [|split; try done; rewrite ?Els, ?Es; done].
  split; [|done|by intros l [= <-]].
  apply request_validate_parts in V as (V1 & V2 & V3 & V4 & V5 & V6). apply request_validate_parts. split_and!; try done.
  2: { revert V6. unfold validate_state. cbn. by rewrite Es. }
  revert V4. unfold validate_context. cbn. rewrite Ec.
  intros (H1 & (ttl & H2 & (H3 & _)%then_Ok)%bind_Ok_inv)%then_Ok.
  apply then_Ok. split; [exact H1|]. rewrite H2. cbn. apply then_Ok. split; [exact H3|].
  unfold validate_link. cbn. rewrite Eap. apply then_Ok. split; [|done].
  apply ensure_Ok, within_spec. done.
Qed.

(** *** Approvals *)
Lemma approvals_carry now approver digest r l (s : ActivationRequestState) :
  request_ok now r → ar_state r = StPending → now < ar_expires_at r → awaits_link r = false →
  existsb (λ a, aa_approver a =? approver) (ar_approvals r) = false →
  (∀ c, ar_approval_context r = ProductAuthoring c → digest = Some (pc_approval_payload_digest c)) →
  (ar_approval_context r = LegacyManual → digest = None) →
  l = sort_by_key aa_approver (ar_approvals r ++ [mkActivationApproval approver now digest]) →
  s = (if ar_required_approvals r <=? u32_len l then StApproved else StPending) →
  good_step now r (with_state s (with_approvals l r)).
Proof.
  intros H Es Hnow Haw Hfresh Hprod Hleg -> ->. set (l := sort_by_key _ _).
  assert (He : ended (ar_state r) = false) by by rewrite Es. open_request H He Es.
  destruct H as [V C L]. apply request_validate_parts in V as (V1 & V2 & _ & V4 & _ & _).
  split; [split; [|done|done]|split; try done; [|by rewrite Es]].
  2: { cbn. intros a Ha. unfold l. rewrite sort_by_key_perm. set_solver. }
  apply request_validate_parts. split_and!; [exact V1| |exact Vt| | |].
  - unfold validate_approvals in *. cbn. rewrite ensure_Ok, andb_true_iff in V2 |- *. destruct V2 as [W F].
    split; [by apply sort_fresh_windows|]. unfold l. rewrite sort_forallb, forallb_app. cbn.
    rewrite andb_true_r. apply andb_true_iff. split; [exact F|]. by apply within_spec.
  - revert V4. unfold validate_context. cbn. destruct (ar_approval_context r) as [|c] eqn:Ec.
    + rewrite !ensure_Ok, !andb_true_iff. intros [? F]. split; [done|]. unfold l.
      rewrite sort_forallb, forallb_app, F. cbn. by rewrite (Hleg eq_refl).
    + intros (H1 & (ttl & H2 & (H3 & H4)%then_Ok)%bind_Ok_inv)%then_Ok.
      apply then_Ok. split; [exact H1|]. rewrite H2. cbn. apply then_Ok. split.
      * rewrite ensure_Ok, andb_true_iff in H3 |- *. destruct H3 as [? F]. split; [done|]. unfold l.
        rewrite sort_forallb, forallb_app, F. cbn. rewrite (Hprod c eq_refl). by rewrite bool_decide_eq_true_2.
      * unfold awaits_link in Haw. rewrite Ec in Haw. cbn in Haw. apply negb_false_iff in Haw.
        unfold validate_link in H4 |- *. cbn. destruct (ar_link_state r) as [| |at_] eqn:El; [done|done|].
        apply then_Ok in H4 as [H4 H5]. apply then_Ok. split; [exact H4|].
        rewrite ensure_Ok in H5 |- *. unfold l. rewrite sort_forallb, forallb_app, H5. cbn.
        rewrite andb_true_r. apply Z.leb_le. by apply L.
  - apply apply_fields_spec. cbn. by destruct (_ <=? _).
  - destruct (_ <=? u32_len l) eqn:Eq; state_part Hrj Hcp Htm.
    + by apply Z.leb_le.
    + by rewrite Eq.
Qed.

Lemma with_state_same s r : ar_state r = s → with_state s r = r.
Proof. intros <-. by destruct r. Qed.

Lemma approve_with_digest_good approver digest now r : request_ok now r → awaits_link r = false →
  (∀ c, ar_approval_context r = ProductAuthoring c → digest = Some (pc_approval_payload_digest c)) →
  (ar_approval_context r = LegacyManual → digest = None) →
  good_step now r (approve_with_digest_at approver digest now r).2.
Proof.
  intros H Haw Hp Hl. unfold approve_with_digest_at.
  destruct (expire_cases now r) as [(Hst & _ & ->)|[Hdue ->]]; [by apply expired_good|].
  destruct (bool_decide (ar_state r = StPending)) eqn:Es; [|by apply good_refl].
  apply bool_decide_eq_true in Es. cbn [negb].
  destruct (existsb _ _) eqn:Ex; [by apply good_refl|]. cbn -[sort_by_key u32_len].
  set (l := sort_by_key _ _).
  pose proof (approvals_carry now approver digest r l _ H Es (Hdue (or_introl Es)) Haw Ex Hp Hl eq_refl eq_refl) as G.
  destruct (_ <=? u32_len l); [exact G|]. by rewrite (with_state_same StPending (with_approvals l r) Es) in G.
Qed.

Lemma approve_good approver now r : request_ok now r → good_step now r (approve_at approver now r).2.
Proof.
  intros H. unfold approve_at.
  destruct (expire_cases now r) as [(Hst & _ & ->)|[_ ->]]; [by apply expired_good|].
  destruct (ar_approval_context r) eqn:Ec; cbn; [|by apply good_refl].
  apply approve_with_digest_good; [done| |by rewrite Ec|done]. unfold awaits_link. by rewrite Ec.
Qed.

Lemma approve_bound_good approver digest now r : request_ok now r →
  good_step now r (approve_bound_at approver digest now r).2.
Proof.
  intros H. unfold approve_bound_at.
  destruct (expire_cases now r) as [(Hst & _ & ->)|[_ ->]]; [by apply expired_good|].
  destruct (ar_approval_context r) as [|c] eqn:Ec; [by apply good_refl|].
  destruct (is_linked (ar_link_state r)) eqn:El; [|by apply good_refl].
  destruct (String.eqb _ digest) eqn:Ed; [|by apply good_refl]. apply String.eqb_eq in Ed as <-.
  apply approve_with_digest_good; [done| |by rewrite Ec; intros ? [= <-]|by rewrite Ec].
  unfold awaits_link. by rewrite El, andb_false_r.
Qed.

(** *** Decisions and attempts *)
Lemma reject_good by_ reason now r : request_ok now r → good_step now r (reject_at by_ reason now r).2.
Proof.
  intros H. unfold reject_at.
  destruct (expire_cases now r) as [(Hst & _ & ->)|[Hdue ->]]; [by apply expired_good|].
  destruct (awaits_link r) eqn:Haw; [by apply good_refl|].
  destruct (bool_decide (ar_state r = StPending)) eqn:Es; [|by apply good_refl].
  apply bool_decide_eq_true in Es. specialize (Hdue (or_introl Es)). cbn.
  assert (He : ended (ar_state r) = false) by by rewrite Es. open_request H He Es.
  apply (carry now r); try done; [by left| |by apply apply_fields_spec|state_part Hrj Hcp Htm].
  apply timestamps_spec in Vt as (_ & T2 & T3). apply timestamps_spec. split_and!; try done.
  intros x [= <-]. cbn. pose proof (rk_created _ _ H). lia.
Qed.

Lemma begin_attempt_good attempt until now r : request_ok now r → awaits_link r = false →
  ar_state r = StApproved ∨ ar_state r = StApplying →
  good_step now r (begin_attempt attempt until r).2.
Proof.
  intros H Haw Hst. unfold begin_attempt. destruct (u64_checked_add _ _) as [n|]; [|by apply good_refl]. cbn.
  assert (He : ended (ar_state r) = false) by (destruct Hst as [E|E]; by rewrite E).
  assert (Hp : ar_state r ≠ StPending) by (destruct Hst as [E|E]; by rewrite E).
  pose proof H as Hvalid; apply rk_valid, request_validate_parts in Hvalid as (_ & _ & Vt & _ & _ & Vs).
  destruct (open_decisions _ He Vs) as (Hrj & Hcp & Htm & Hq). specialize (Hq Hp).
  apply (carry now r); try done; [by left|state_part Hrj Hcp Htm].
Qed.

Lemma begin_then_state {A} attempt until (a : A) r :
  ((_ ← begin_attempt attempt until; cmd_ret a) r).2 = (begin_attempt attempt until r).2.
Proof. cbv [mbind Cmd_bind cmd_bind]. by destruct (begin_attempt attempt until r) as [[]?]. Qed.

Lemma claim_apply_good attempt now until r : request_ok now r →
  good_step now r (claim_apply_at attempt now until r).2.
Proof.
  intros H. unfold claim_apply_at.
  destruct (expire_cases now r) as [(Hst & _ & ->)|[Hdue ->]]; [by apply expired_good|].
  destruct (awaits_link r) eqn:Haw; [by apply good_refl|].
  destruct (ar_state r) eqn:Es; try by apply good_refl.
  rewrite begin_then_state. by apply begin_attempt_good; auto.
Qed.

Lemma claim_resume_good attempt now until r : request_ok now r →
  good_step now r (claim_resume_at attempt now until r).2.
Proof.
  intros H. unfold claim_resume_at. destruct (awaits_link r) eqn:Haw; [by apply good_refl|].
  destruct (ar_state r) eqn:Es; try by apply good_refl.
  destruct (is_some_and _ _); [by apply good_refl|].
  rewrite begin_then_state. by apply begin_attempt_good; auto.
Qed.

Lemma held_by_spec attempt r :
  held_by attempt r = true ↔ ar_state r = StApplying ∧ ar_apply_attempt_id r = Some attempt.
Proof. unfold held_by. by rewrite andb_true_iff, !bool_decide_eq_true. Qed.

(** A request that waits for its link is pending or expired. *)
Lemma decided_linked now r : request_ok now r → ar_state r ≠ StPending → ar_state r ≠ StExpired →
  awaits_link r = false.
Proof.
  intros H Hp He. unfold awaits_link. pose proof H as (_ & _ & _ & V4 & _)%rk_valid%request_validate_parts.
  unfold validate_context in V4. destruct (ar_approval_context r) as [|c]; [done|]. cbn.
  apply then_Ok in V4 as [_ (ttl & _ & (_ & V)%then_Ok)%bind_Ok_inv].
  unfold validate_link in V. destruct (ar_link_state r); [done| |done]. by destruct (ar_state r).
Qed.

Lemma applying_linked now r : request_ok now r → ar_state r = StApplying → awaits_link r = false.
Proof. intros H Es. eapply decided_linked; [done|by rewrite Es..]. Qed.

Lemma approved_linked now r : request_ok now r → ar_state r = StApproved → awaits_link r = false.
Proof. intros H Es. eapply decided_linked; [done|by rewrite Es..]. Qed.

(** The endings of an attempt. *)
Lemma end_attempt_good now r s e c t : request_ok now r → ar_state r = StApplying →
  validate_state (with_completion c (with_termination t (end_attempt s e r))) = Ok tt → s ≠ StApplying →
  (∀ x, c = Some x → cp_applied_at x = now) → (∀ x, t = Some x → termination_at x = now) →
  good_step now r (with_completion c (with_termination t (end_attempt s e r))).
Proof.
  intros H Es Vs' Hs Hc Ht. assert (He : ended (ar_state r) = false) by by rewrite Es.
  open_request H He Es. pose proof (rk_created _ _ H).
  apply (carry now r); try done; [left; by eapply applying_linked| |].
  - apply timestamps_spec in Vt as (T1 & _ & _). apply timestamps_spec. cbn. split_and!; [done|..].
    + intros x Hx. rewrite (Hc x Hx). lia.
    + intros x Hx. rewrite (Ht x Hx). lia.
  - apply apply_fields_spec. by destruct s.
Qed.

Ltac ending H Es :=
  let He := fresh "He" in
  match type of Es with ar_state ?r = _ =>
    assert (He : ended (ar_state r) = false) by (by rewrite Es); open_request H He Es;
    match goal with Hq : ar_state r ≠ StPending → _ |- _ => specialize (Hq ltac:(by rewrite Es)) end
  end.

(** The two fields that no ending but its own sets. *)
Lemma with_both_same s e r : ar_completion r = None → ar_termination r = None →
  with_completion None (with_termination None (end_attempt s e r)) = end_attempt s e r.
Proof. destruct r; cbn. by intros -> ->. Qed.

Lemma supersede_good attempt reason now r : request_ok now r →
  good_step now r (supersede_at attempt reason now r).2.
Proof.
  intros H. unfold supersede_at. destruct (held_by attempt r) eqn:Eh; [|by apply good_refl].
  destruct (is_product (ar_approval_context r)) eqn:Ep; [|by apply good_refl].
  destruct (is_linked (ar_link_state r)) eqn:El; [|by apply good_refl]. cbn.
  apply held_by_spec in Eh as [Es _]. ending H Es.
  replace (with_termination _ (end_attempt StSuperseded None r)) with
    (with_completion None (with_termination (Some (TerminationSuperseded now reason)) (end_attempt StSuperseded None r)))
    by (destruct r; cbn in *; by rewrite Hcp).
  apply end_attempt_good; try done; [|by intros x [= <-]]. state_part Hrj Hcp Htm.
Qed.

Lemma withdraw_good by_ reason now r : request_ok now r → good_step now r (withdraw_at by_ reason now r).2.
Proof.
  intros H. unfold withdraw_at.
  destruct (expire_cases now r) as [(Hst & _ & ->)|[Hdue ->]]; [by apply expired_good|].
  destruct (awaits_link r) eqn:Haw; [by apply good_refl|]. pose proof (rk_created _ _ H).
  destruct (ar_state r) eqn:Es; try (by apply good_refl);
    (assert (He : ended (ar_state r) = false) by (by rewrite Es); open_request H He Es;
     apply (carry now r); try done; [by left| |by apply apply_fields_spec|state_part Hrj Hcp Htm];
     apply timestamps_spec in Vt as (T1 & T2 & _); apply timestamps_spec; split_and!; try done;
     intros x [= <-]; done).
Qed.

Lemma renew_good attempt until now r : request_ok now r → good_step now r (renew_lease_at attempt until r).2.
Proof.
  intros H. unfold renew_lease_at. destruct (held_by attempt r) eqn:Eh; [|by apply good_refl]. cbn.
  apply held_by_spec in Eh as [Es Ea]. ending H Es.
  apply (carry now r); try done; [left; by eapply applying_linked|].
  apply apply_fields_spec. cbn. rewrite Es, Ea. eauto.
Qed.

Lemma complete_step_good now r c : request_ok now r → ar_state r = StApplying → cp_applied_at c = now →
  good_step now r (with_completion (Some c) (end_attempt StApplied None r)).
Proof.
  intros H Es Hc. ending H Es.
  replace (with_completion (Some c) (end_attempt StApplied None r)) with
    (with_completion (Some c) (with_termination None (end_attempt StApplied None r)))
    by (destruct r; cbn in *; by rewrite Htm).
  apply end_attempt_good; try done; [|by intros x [= <-]]. state_part Hrj Hcp Htm.
Qed.

Lemma complete_good attempt c now r : cp_applied_at c = now → request_ok now r →
  good_step now r (complete_at attempt c r).2.
Proof.
  intros Hc H. unfold complete_at. destruct (held_by attempt r) eqn:Eh; [|by apply good_refl].
  apply held_by_spec in Eh as [Es _]. by apply complete_step_good.
Qed.

Lemma bookkeep_good c now r : cp_applied_at c = now → request_ok now r → good_step now r (bookkeep_at c r).2.
Proof.
  intros Hc H. unfold bookkeep_at. destruct (bool_decide (ar_state r = StApplying)) eqn:Es; [|by apply good_refl].
  apply bool_decide_eq_true in Es. by apply complete_step_good.
Qed.

Lemma release_good attempt e now r : request_ok now r → good_step now r (release_at attempt e r).2.
Proof.
  intros H. unfold release_at. destruct (held_by attempt r) eqn:Eh; [|by apply good_refl]. cbn.
  apply held_by_spec in Eh as [Es _]. ending H Es. rewrite <- with_both_same by done.
  apply end_attempt_good; try done. state_part Hrj Hcp Htm.
Qed.
End valid.
