(* ===== verification/ActivationStoreSpec.v ===== *)
(** * The request store

    Whatever is called on the store, every stored request stays valid, what was
    approved stays approved, and a rule set has at most one request that is being
    applied. *)

From Stdlib Require Import ZArith Lia Ascii String.
From stdpp Require Import base decidable list strings gmap numbers.
From S2P Require Import Prelude RustStd DiscordModel RuleSet ApprovalBinding Activation ActivationStore.
From S2P Require Import ActivationSpec.
Open Scope Z_scope.

(** ** Which transitions start an attempt *)
Definition quiet (r r' : ActivationRequest) : Prop :=
  ar_state r' = StApplying → ar_state r = StApplying.

Ltac quiet_done := unfold quiet; cbn; intros; congruence.

Ltac quiet_cases :=
  repeat first
    [ progress cbn
    | match goal with
      | |- context [let '(_, _) := expire_if_due ?now ?r in _] =>
          destruct (expire_cases now r) as [(_ & _ & ->)|[_ ->]]
      | |- context [if ?b then _ else _] => destruct b eqn:?
      | |- context [match ?x with _ => _ end] => destruct x eqn:?
      end ];
  quiet_done.

Lemma expire_quiet now r : quiet r (expire_if_due now r).2.
Proof. destruct (expire_cases now r) as [(_ & _ & ->)|[_ ->]]; quiet_done. Qed.

Lemma link_quiet p d x now r : quiet r (link_product_at p d x now r).2.
Proof.
  unfold link_product_at. destruct (ar_approval_context r) as [|c]; [quiet_done|].
  destruct (_ || _ || _); [quiet_done|]. destruct (is_linked _); [apply expire_quiet|]. quiet_cases.
Qed.

Lemma approve_with_digest_quiet approver digest now r : quiet r (approve_with_digest_at approver digest now r).2.
Proof. unfold approve_with_digest_at. quiet_cases. Qed.

Lemma approve_quiet approver now r : quiet r (approve_at approver now r).2.
Proof.
  unfold approve_at. destruct (expire_cases now r) as [(_ & _ & ->)|[_ ->]]; [quiet_done|].
  destruct (is_product _); [quiet_done|apply approve_with_digest_quiet].
Qed.

Lemma approve_bound_quiet approver digest now r : quiet r (approve_bound_at approver digest now r).2.
Proof.
  unfold approve_bound_at. destruct (expire_cases now r) as [(_ & _ & ->)|[_ ->]]; [quiet_done|].
  destruct (ar_approval_context r); [quiet_done|]. destruct (is_linked _); [|quiet_done].
  destruct (String.eqb _ _); [apply approve_with_digest_quiet|quiet_done].
Qed.

Lemma reject_quiet by_ reason now r : quiet r (reject_at by_ reason now r).2.
Proof. unfold reject_at. quiet_cases. Qed.

Lemma withdraw_quiet by_ reason now r : quiet r (withdraw_at by_ reason now r).2.
Proof. unfold withdraw_at. quiet_cases. Qed.

Lemma claim_resume_quiet attempt now until r : quiet r (claim_resume_at attempt now until r).2.
Proof.
  unfold claim_resume_at. destruct (awaits_link r); [quiet_done|]. destruct (ar_state r) eqn:Es; try quiet_done.
Qed.

Lemma supersede_quiet attempt reason now r : quiet r (supersede_at attempt reason now r).2.
Proof. unfold supersede_at. quiet_cases. Qed.

Lemma renew_quiet attempt until r : quiet r (renew_lease_at attempt until r).2.
Proof. unfold renew_lease_at. quiet_cases. Qed.

Lemma complete_quiet attempt c r : quiet r (complete_at attempt c r).2.
Proof. unfold complete_at. quiet_cases. Qed.

Lemma release_quiet attempt e r : quiet r (release_at attempt e r).2.
Proof. unfold release_at. quiet_cases. Qed.

Lemma bookkeep_quiet c r : quiet r (bookkeep_at c r).2.
Proof. unfold bookkeep_at. quiet_cases. Qed.

(** Unless it claims, [claim_apply_at] is quiet too. *)
Lemma claim_apply_quiet attempt now until r d r' : claim_apply_at attempt now until r = (Ok d, r') →
  is_claimed d = false → quiet r r'.
Proof.
  unfold claim_apply_at. destruct (expire_cases now r) as [(_ & _ & ->)|[_ ->]]; [intros [= <- <-]; quiet_done|].
  destruct (awaits_link r); [intros [= <- <-]; quiet_done|].
  destruct (ar_state r) eqn:Es; try (intros [= <- <-]; quiet_done).
  cbv [mbind Cmd_bind cmd_bind]. destruct (begin_attempt attempt until r) as [[]?]; by intros [= <- <-].
Qed.

Lemma claim_apply_claims attempt now until r r' : claim_apply_at attempt now until r = (Ok DecClaimed, r') →
  ar_state r' = StApplying ∧ ar_apply_attempt_id r' = Some attempt.
Proof.
  unfold claim_apply_at. destruct (expire_cases now r) as [(_ & _ & ->)|[_ ->]]; [by intros [=]|].
  destruct (awaits_link r); [by intros [=]|]. destruct (ar_state r) eqn:Es; try by intros [=].
  cbv [mbind Cmd_bind cmd_bind begin_attempt]. destruct (u64_checked_add _ _); [|by intros [=]]. by intros [= <-].
Qed.

Section store.
Context (sha256 : list Z → list Z) (try_seconds : Z → option Z).
Context (checked_add_signed : Z → Z → option Z) (seconds : Z → Z).
Implicit Types (st : list (string * ActivationRequest)) (r : ActivationRequest).

Abbreviation ok := (request_ok sha256 try_seconds).
Abbreviation good := (good_step sha256 try_seconds).

(** ** The invariant *)
Definition same_ruleset r1 r2 : Prop :=
  tg_guild_id (ar_target r1) = tg_guild_id (ar_target r2) ∧
  tg_ruleset_key (ar_target r1) = tg_ruleset_key (ar_target r2).

Record requests_ok (now : Z) st : Prop := {
  rs_sorted : bt_sorted st;
  rs_ids : ∀ id r, bt_get st id = Some r → ar_id r = id;
  rs_valid : ∀ id r, bt_get st id = Some r → ok now r;
  rs_exclusive : ∀ id1 id2 r1 r2, bt_get st id1 = Some r1 → bt_get st id2 = Some r2 →
    ar_state r1 = StApplying → ar_state r2 = StApplying → same_ruleset r1 r2 → id1 = id2
}.

Definition requests_grow st st' : Prop :=
  ∀ id r, bt_get st id = Some r → ∃ r', bt_get st' id = Some r' ∧ extends r r'.

Lemma requests_ok_empty now : requests_ok now [].
Proof. split; try done. constructor. Qed.

Lemma requests_ok_later now now' st : now ≤ now' → requests_ok now st → requests_ok now' st.
Proof. intros Hle []. split; eauto using request_ok_later. Qed.

Lemma requests_grow_refl st : requests_grow st st.
Proof. intros id r Hl. exists r. split; [done|apply extends_refl]. Qed.

Lemma requests_grow_trans st1 st2 st3 : requests_grow st1 st2 → requests_grow st2 st3 → requests_grow st1 st3.
Proof.
  intros H1 H2 id r (r2 & Hl2 & E2)%H1. destruct (H2 _ _ Hl2) as (r3 & Hl3 & E3).
  exists r3. split; [done|by eapply extends_trans].
Qed.

(** A step of the store. *)
Definition store_step (now : Z) st st' : Prop := requests_ok now st' ∧ requests_grow st st'.

Lemma store_step_refl now st : requests_ok now st → store_step now st st.
Proof. split; [done|apply requests_grow_refl]. Qed.

(** No other request is being applied to this rule set. *)
Definition unblocked st id r : Prop :=
  ∀ id' r', bt_get st id' = Some r' → ar_state r' = StApplying → same_ruleset r r' → id' = id.

Lemma bt_insert_lookup st id r id' : bt_sorted st →
  bt_get (bt_insert id r st) id' = if decide (id = id') then Some r else bt_get st id'.
Proof.
  intros Hs. unfold bt_insert. destruct (decide _) as [<-|]; [by rewrite bt_get_upsert_eq|by rewrite bt_get_upsert_ne].
Qed.

Lemma store_put now st id r' : requests_ok now st → ar_id r' = id → ok now r' →
  (∀ r, bt_get st id = Some r → extends r r') →
  (ar_state r' = StApplying → unblocked st id r') →
  store_step now st (bt_insert id r' st).
Proof.
  intros [Hs Hi Hv Hx] Hid Hr Hext Hfree. split; [split|].
  - by apply bt_upsert_sorted.
  - intros id' r. rewrite bt_insert_lookup by done. case_decide; [by intros [= <-]; subst|apply Hi].
  - intros id' r. rewrite bt_insert_lookup by done. case_decide; [by intros [= <-]|apply Hv].
  - intros id1 id2 r1 r2. rewrite !bt_insert_lookup by done.
    case_decide; case_decide; subst; intros H1 H2 S1 S2 [G K]; try done; [| |by eapply Hx].
    + injection H1 as <-. symmetry. by eapply Hfree.
    + injection H2 as <-. by eapply Hfree.
  - intros id' r Hl. rewrite bt_insert_lookup by done. case_decide; [subst; eauto|].
    exists r. split; [done|apply extends_refl].
Qed.

(** A quiet transition of a stored request. *)
Lemma store_transition now st id r r' : requests_ok now st → bt_get st id = Some r →
  good now r r' → quiet r r' → store_step now st (bt_insert id r' st).
Proof.
  intros Hst Hl [Hok He] Hq. apply store_put; [done| |done|intros ?; by rewrite Hl; intros [= <-]|].
  - rewrite (ex_id _ _ He). by eapply rs_ids.
  - intros Hs id' r2 Hl2 S2 [G K]. rewrite (ex_target _ _ He) in G, K.
    refine (rs_exclusive _ _ Hst id' id r2 r Hl2 Hl S2 (Hq Hs) _). by split.
Qed.

(** ** The operations *)
Lemma valid_Ok now r : ok now r → validate_request sha256 try_seconds r = Ok tt.
Proof. by intros []. Qed.

(** The answer a decision with validation gives: validation does not fail. *)
Lemma decide_valid_run {D E A} (from : D → E) (store : ActivationStoreError → E) (f : Cmd ActivationRequest D A) now r :
  good now r (f r).2 →
  decide_valid sha256 try_seconds from store f r =
    (match (f r).1 with Err d => Err (from d) | Ok _ => Ok (f r).2 end, (f r).2).
Proof.
  intros [Hok _]. unfold decide_valid. destruct (f r) as [[a|d] r']; [|done]. cbn in *.
  by rewrite (valid_Ok _ _ Hok).
Qed.

Lemma in_place_decide {D E A} (from : D → E) (store : ActivationStoreError → E) (e : E)
    (f : Cmd ActivationRequest D A) now id st :
  requests_ok now st → (∀ r, ok now r → good now r (f r).2) → (∀ r, quiet r (f r).2) →
  let '(x, st') := in_place e id (decide_valid sha256 try_seconds from store f) st in
  store_step now st st' ∧
  match x with Ok r' => bt_get st' id = Some r' | Err y => y = e ∨ ∃ d, y = from d end.
Proof.
  intros Hst Hg Hq. unfold in_place. destruct (bt_get st id) as [r|] eqn:Hl.
  - pose proof (Hg r (rs_valid _ _ Hst _ _ Hl)) as G. rewrite (decide_valid_run _ _ _ now) by done.
    split; [by eapply store_transition|]. destruct (f r) as [[a|d] r']; cbn; [|eauto].
    rewrite bt_insert_lookup by apply Hst. by rewrite decide_True.
  - split; [by apply store_step_refl|by left].
Qed.

Lemma update_if_step now id (step : ActivationRequest → bool * ActivationRequest) st :
  requests_ok now st → (∀ r, ok now r → good now r (step r).2) → (∀ r, quiet r (step r).2) →
  let '(x, st') := update_if sha256 try_seconds id step st in
  store_step now st st' ∧ ∃ b : bool, x = Ok b ∧
    (if b then ∃ r, bt_get st id = Some r ∧ (step r).1 = true ∧ bt_get st' id = Some (step r).2
     else st' = st ∧ ∀ r, bt_get st id = Some r → (step r).1 = false).
Proof.
  intros Hst Hg Hq. unfold update_if. destruct (bt_get st id) as [r|] eqn:Hl; cycle 1.
  { split; [by apply store_step_refl|]. exists false. split_and!; done. }
  pose proof (Hg r (rs_valid _ _ Hst _ _ Hl)) as G. pose proof (Hq r) as Q.
  destruct (step r) as [[] r'] eqn:Es; cbn in *; cycle 1.
  { split; [by apply store_step_refl|]. exists false. split_and!; try done. intros ? [= <-]. by rewrite Es. }
  rewrite (valid_Ok _ _ (proj1 G)). unfold put_back. rewrite (ex_id _ _ (proj2 G)), (rs_ids _ _ Hst _ _ Hl).
  split; [by eapply store_transition|]. exists true. split; [done|]. exists r. rewrite Es.
  split_and!; try done. rewrite bt_insert_lookup by apply Hst. by rewrite decide_True.
Qed.

Lemma create_ok input now r : create sha256 checked_add_signed try_seconds input now = Ok r →
  ok now r ∧ ar_state r = StPending ∧ ar_id r = cr_id input.
Proof.
  unfold create. intros (_ & (_ & (e & _ & (V & [= <-])%then_Ok)%bind_Ok_inv)%then_Ok)%then_Ok.
  split; [by split|done].
Qed.

Lemma create_product_ok input now r : create_product sha256 checked_add_signed try_seconds input now = Ok r →
  ok now r ∧ ar_state r = StPending ∧ ar_id r = cq_id input.
Proof.
  unfold create_product.
  intros (_ & (ttl & _ & (e & _ & (V & [= <-])%then_Ok)%bind_Ok_inv)%bind_Ok_inv)%then_Ok.
  split; [by split|done].
Qed.

(** A fresh request. *)
Lemma store_fresh now st r : requests_ok now st → bt_get st (ar_id r) = None → ok now r →
  ar_state r = StPending → store_step now st (put_back r st).
Proof.
  intros Hst Hn Hr Hs. unfold put_back. apply store_put; try done.
  - intros r0. by rewrite Hn.
  - by rewrite Hs.
Qed.

Lemma store_create_step now input st : requests_ok now st →
  store_step now st (store_create sha256 checked_add_signed try_seconds now input st).2.
Proof.
  intros Hst. unfold store_create. destruct (bt_get st (cr_id input)) eqn:Hl; [by apply store_step_refl|]. cbn.
  destruct (create _ _ _ _ _) as [r|] eqn:Hc; [|by apply store_step_refl].
  apply create_ok in Hc as (Hr & Hs & Hid). apply store_fresh; try done. by rewrite Hid.
Qed.

Lemma store_create_product_step now input st : requests_ok now st →
  store_step now st (store_create_product sha256 checked_add_signed try_seconds now input st).2.
Proof.
  intros Hst. unfold store_create_product.
  destruct (bt_get st (cq_id input)) eqn:Hl; [by apply store_step_refl|]. cbn.
  destruct (create_product _ _ _ _ _) as [r|] eqn:Hc; [|by apply store_step_refl].
  apply create_product_ok in Hc as (Hr & Hs & Hid). apply store_fresh; try done. by rewrite Hid.
Qed.

Lemma store_get_step now id st : requests_ok now st →
  let '(x, st') := store_get sha256 try_seconds now id st in
  store_step now st st' ∧ x = Ok (bt_get st' id).
Proof.
  intros Hst. unfold store_get. destruct (bt_get st id) as [r|] eqn:Hl.
  - pose proof (expire_good _ _ now r (rs_valid _ _ Hst _ _ Hl)) as G.
    rewrite (valid_Ok _ _ (proj1 G)). cbn. split; [eapply store_transition; eauto using expire_quiet|].
    rewrite bt_insert_lookup by apply Hst. by rewrite decide_True.
  - split; [by apply store_step_refl|by rewrite Hl].
Qed.

Lemma store_withdraw_step now id by_ reason st : requests_ok now st →
  let '(x, st') := store_withdraw sha256 try_seconds now id by_ reason st in
  store_step now st st' ∧
  match x with
  | Ok r' => bt_get st' id = Some r'
  | Err y => st' = st ∧ (y = WeStore RequestNotFound ∨ ∃ d, y = withdraw_error_from d)
  end.
Proof.
  intros Hst. unfold store_withdraw. destruct (bt_get st id) as [r|] eqn:Hl.
  - pose proof (withdraw_good sha256 try_seconds by_ reason now r (rs_valid _ _ Hst _ _ Hl)) as G.
    pose proof (withdraw_quiet by_ reason now r) as Q.
    rewrite (decide_valid_run _ _ _ now) by done.
    destruct (withdraw_at by_ reason now r) as [[a|d] r']; cbn [fst snd] in *.
    + unfold put_back. rewrite (ex_id _ _ (proj2 G)), (rs_ids _ _ Hst _ _ Hl).
      split; [by eapply store_transition|]. rewrite bt_insert_lookup by apply Hst. by rewrite decide_True.
    + split; [by apply store_step_refl|]. eauto.
  - split; [by apply store_step_refl|]. auto.
Qed.

(** The refusals of a claim that are not a decision. *)
Definition claim_refusal (e : ActivationStoreError) : Prop :=
  e = RequestNotFound ∨ e = InvalidRequest "lease overflow" ∨
  e = InvalidRequest "apply attempt number overflow".

Lemma lease_refusal now n e : lease_until checked_add_signed seconds now n = Err e → claim_refusal e.
Proof. unfold lease_until, claim_refusal. destruct (checked_add_signed _ _); intros [= <-]; auto. Qed.

Lemma find_blocker st candidate : bt_sorted st →
  List.find (blocks candidate) st.*2 = None →
  (∀ id r, bt_get st id = Some r → ar_id r = id) → unblocked st (ar_id candidate) candidate.
Proof.
  intros Hs Hf Hids id' r' Hl Hst [G K]. destruct (decide (id' = ar_id candidate)) as [|Hne]; [done|].
  apply bt_get_elem in Hl as Hin; [|done]. apply (list_elem_of_fmap_2 snd), list_elem_of_In in Hin.
  pose proof (find_none _ _ Hf _ Hin) as Hb. cbn in Hb. unfold blocks in Hb.
  rewrite (Hids _ _ Hl) in Hb. rewrite (proj2 (String.eqb_neq id' _) Hne) in Hb. cbn in Hb.
  rewrite bool_decide_eq_true_2, <- G, <- K, Z.eqb_refl, String.eqb_refl in Hb by done. done.
Qed.

Lemma store_claim_apply_step now now' id attempt n st : requests_ok now st →
  let '(x, st') := store_claim_apply sha256 checked_add_signed try_seconds seconds now now' id attempt n st in
  store_step now st st' ∧
  match x with
  | Ok (Claimed r') => bt_get st' id = Some r' ∧ ar_state r' = StApplying ∧ ar_apply_attempt_id r' = Some attempt
  | Ok _ => True
  | Err e => claim_refusal e ∧ st' = st
  end.
Proof.
  intros Hst. unfold store_claim_apply. pose proof (store_step_refl now st Hst) as Hrefl.
  destruct (lease_until _ _ _ _) as [until|e] eqn:Hle; [|by eauto using lease_refusal].
  destruct (bt_get st id) as [r|] eqn:Hl; [|by split; [|split; [left|]]].
  pose proof (claim_apply_good sha256 try_seconds attempt now until r (rs_valid _ _ Hst _ _ Hl)) as G.
  destruct (claim_apply_at attempt now until r) as [[d|[]] r'] eqn:Hc; cbn [snd] in G;
    [|split; [done|split; [unfold claim_refusal; auto|done]]].
  assert (Hid : ar_id r' = id) by (rewrite (ex_id _ _ (proj2 G)); by eapply rs_ids).
  destruct (is_claimed d) eqn:Hd.
  - destruct d; try done. destruct (List.find _ _) as [blocking|] eqn:Hf; [by split|].
    rewrite (valid_Ok _ _ (proj1 G)). unfold put_back. rewrite Hid. split.
    + apply store_put; try done; [apply G|intros ?; rewrite Hl; intros [= <-]; apply G|].
      intros _. rewrite <- Hid. apply find_blocker; [apply Hst|done|apply Hst].
    + split; [by rewrite bt_insert_lookup, decide_True by first [apply Hst|done]|by eapply claim_apply_claims].
  - rewrite (valid_Ok _ _ (proj1 G)). unfold put_back. rewrite Hid. split; [|by destruct d].
    eapply store_transition; eauto using claim_apply_quiet.
Qed.

Lemma store_claim_resume_step now now' id attempt n st : requests_ok now st →
  let '(x, st') := store_claim_resume sha256 checked_add_signed try_seconds seconds now now' id attempt n st in
  store_step now st st' ∧
  match x with
  | Ok (Claimed r') => bt_get st' id = Some r' ∧ ar_state r' = StApplying ∧ ar_apply_attempt_id r' = Some attempt
  | Ok _ => True
  | Err e => claim_refusal e
  end.
Proof.
  intros Hst. unfold store_claim_resume. pose proof (store_step_refl now st Hst) as Hrefl.
  destruct (lease_until _ _ _ _) as [until|e] eqn:Hle; [|by eauto using lease_refusal].
  unfold in_place. destruct (bt_get st id) as [r|] eqn:Hl; [|by split; [|left]].
  pose proof (claim_resume_good sha256 try_seconds attempt now until r (rs_valid _ _ Hst _ _ Hl)) as G.
  pose proof (claim_resume_quiet attempt now until r) as Q.
  destruct (claim_resume_at attempt now until r) as [[d|[]] r'] eqn:Hc; cbn [snd] in G, Q.
  - rewrite (valid_Ok _ _ (proj1 G)). cbn. split; [by eapply store_transition|].
    destruct d; try done. cbn. rewrite bt_insert_lookup, decide_True by first [apply Hst|done].
    split; [done|]. revert Hc. unfold claim_resume_at. destruct (awaits_link r); [by intros [=]|].
    destruct (ar_state r) eqn:Es; try by intros [=]. destruct (is_some_and _ _); [by intros [=]|].
    cbv [mbind Cmd_bind cmd_bind begin_attempt]. destruct (u64_checked_add _ _); [|by intros [=]]. by intros [= <-].
  - split; [by eapply store_transition|]. unfold claim_refusal. auto.
Qed.

Lemma store_list_applying_run now g st : requests_ok now st →
  store_list_applying sha256 try_seconds g st =
    (Ok (List.filter (λ r, (tg_guild_id (ar_target r) =? g) && bool_decide (ar_state r = StApplying)) st.*2), st).
Proof.
  intros Hst. unfold store_list_applying. set (l := List.filter _ _).
  assert (Hall : ∀ r, r ∈ l → ok now r).
  { intros r Hr. apply list_elem_of_In, filter_In in Hr as [Hr _]. apply list_elem_of_In, list_elem_of_fmap in Hr as ([id r'] & -> & Hin).
    apply bt_get_elem in Hin; [|apply Hst]. by eapply rs_valid. }
  assert (Hv : all_valid sha256 try_seconds l = Ok tt); [|by rewrite Hv].
  clearbody l. induction l as [|r l IH]; [done|]. cbn. rewrite (valid_Ok now) by (apply Hall; left). cbn.
  apply IH. intros r' Hr'. apply Hall. by right.
Qed.
End store.
