(* ===== verification/ActivationSystem.v ===== *)
(** * Activation under interleaving, crashes and lost answers

    Any number of service calls run at once over the two in-memory stores, one call
    at a time. A run may stop for good at any point; a call may fail before it took
    effect, or take effect and lose its answer. Whatever happens, the stored requests
    stay valid, and a rule set's active version only moves to a version that was
    approved and found ready. *)

From Stdlib Require Import ZArith Lia Ascii String.
From stdpp Require Import base decidable list strings gmap numbers.
From S2P Require Import Prelude RustStd DiscordModel Resolution AutomationState AutomationPlan.
From S2P Require Import AutomationValidate RuleSet RuleSetSpec Readiness ApprovalBinding Activation.
From S2P Require Import ActivationStore ActivationService ActivationSpec ActivationStoreSpec.
Open Scope Z_scope.

(** ** Programs and what they know *)
Inductive Fact :=
| FactClaimed (r : ActivationRequest)
| FactVersion (g : GuildId) (key : RuleSetKey) (version : RuleSetVersionId) (artifact : RuleSetVersion)
| FactLoaded (target : ActivationTarget) (env : ActivationEnvironment).

Definition learned (a : Action) : answer a → list Fact :=
  match a with
  | CallClaimApply _ _ _ | CallClaimResume _ _ _ =>
      λ x, match x with Ok (Claimed r) => [FactClaimed r] | _ => [] end
  | CallGetVersion g key version =>
      λ x, match x with Ok (Some artifact) => [FactVersion g key version artifact] | _ => [] end
  | CallLoadFresh target => λ x, match x with Ok env => [FactLoaded target env] | _ => [] end
  | _ => λ _, []
  end.

Section programs.
(** What is required of a call, given what is known. *)
Context (allowed : list Fact → Action → Prop).

Fixpoint wp {A} (p : Prog A) (K : list Fact) (Q : A → list Fact → Prop) : Prop :=
  match p with
  | Done a => Q a K
  | Call a k => allowed K a ∧ ∀ x, wp (k x) (learned a x ++ K) Q
  end.

Lemma wp_bind {A B} (p : Prog A) (f : A → Prog B) K Q :
  wp (prog_bind p f) K Q ↔ wp p K (λ a K', wp (f a) K' Q).
Proof.
  revert K. induction p as [a|a k IH]; intros K; [done|]. cbn. by setoid_rewrite IH.
Qed.

Lemma wp_mono {A} (p : Prog A) K (Q Q' : A → list Fact → Prop) :
  (∀ a K', Q a K' → Q' a K') → wp p K Q → wp p K Q'.
Proof. intros HQ. revert K. induction p as [a|a k IH]; intros K; cbn; [apply HQ|]. intros [? Hk]. split; auto. Qed.

Lemma wp_try {E F A B} (from : E → F) (p : Prog (Result E A)) (f : A → Prog (Result F B)) K Q :
  wp p K (λ r K', match r with Ok a => wp (f a) K' Q | Err e => Q (Err (from e)) K' end) →
  wp (prog_try from p f) K Q.
Proof. intros H. apply wp_bind. eapply wp_mono; [|exact H]. intros [a|e] K'; auto. Qed.

Lemma wp_deadline {A} (elapsed : A) (p : Prog A) K Q :
  (∀ K', allowed K' PollDeadline) → (∀ K', Q elapsed K') → wp p K Q → wp (with_deadline elapsed p) K Q.
Proof.
  intros Hpoll HQ. revert K. induction p as [a|a k IH]; intros K; cbn.
  - intros Ha. split; [apply Hpoll|]. intros []; cbn; auto.
  - intros [Ha Hk]. split; [apply Hpoll|]. intros []; cbn; auto.
Qed.
End programs.

(** A program whose result nobody uses. *)
Definition forget {A} (p : Prog A) : Prog unit := prog_bind p (λ _, Done tt).

(** A clock that is never set back. *)
Definition forward : DateTime → DateTime → Prop := Z.le.

(** ** The system *)
Record System := mkSystem {
  sy_world : ActWorld;
  sy_now : DateTime;
  sy_threads : list (Prog unit)
}.

(** The failure of the backend behind a call. *)
Definition backend_failure (a : Action) (m : string) : option (answer a) :=
  match a with
  | CallLinkProduct _ _ => Some (Err (LeStore (ActivationBackend m)))
  | CallApprove _ _ | CallApproveBound _ _ _ => Some (Err (ApStore (ActivationBackend m)))
  | CallReject _ _ _ => Some (Err (RjStore (ActivationBackend m)))
  | CallWithdraw _ _ _ => Some (Err (WeStore (ActivationBackend m)))
  | CallCreate _ | CallCreateProduct _ => Some (Err (ActivationBackend m))
  | CallGet _ => Some (Err (ActivationBackend m))
  | CallClaimApply _ _ _ | CallClaimResume _ _ _ => Some (Err (ActivationBackend m))
  | CallRenewLease _ _ _ | CallCompleteApplied _ _ _ _ _ | CallRelease _ _ _ | CallSupersede _ _ _
  | CallMarkExpired _ | CallBookkeep _ _ => Some (Err (ActivationBackend m))
  | CallListApplying _ => Some (Err (ActivationBackend m))
  | CallPublish _ => Some (Err (StoreBackend m))
  | CallGetVersion _ _ _ | CallActive _ _ => Some (Err (StoreBackend m))
  | CallActivate _ _ _ => Some (Err (StoreBackend m))
  | CallActivateGuarded _ => Some (Err (StoreBackend m))
  | CallLoadFresh _ => Some (Err (EnvironmentLoad m))
  | PollDeadline => None
  end.

(** Calls that do not move an active version. *)
Definition moves_active (a : Action) : bool :=
  match a with CallActivate _ _ _ | CallActivateGuarded _ => true | _ => false end.

Section system.
Context (sha256 : list Z → list Z).
Context (checked_add_signed : DateTime → Duration → option DateTime).
Context (try_seconds : Z → option Duration) (seconds : Z → Duration).
Context (hasher : Z → InteractionRuleSet → Result RuleSetHashError (list Z)).
Context (debug_finding : PolicyFinding → string).
Context (display_apply_error : ApplyError → string) (debug_store_error : RuleSetStoreError → string)
  (display_activation_error : ActivationStoreError → string).
(** What the environment provider may answer for a target. *)
Context (provides : ActivationTarget → ActivationEnvironment → Prop).

Abbreviation handle' := (handle sha256 checked_add_signed try_seconds seconds hasher).

Inductive answered (now now' : DateTime) (a : Action) (w : ActWorld) : answer a → ActWorld → Prop :=
| AnsweredNormally provider late x w' :
    (∀ target env, provider target = Ok env → provides target env) →
    handle' provider now now' late a w = (x, w') → answered now now' a w x w'
| AnsweredFailed m x : backend_failure a m = Some x → answered now now' a w x w
| AnswerLost provider late m x x' w' :
    backend_failure a m = Some x → handle' provider now now' late a w = (x', w') → answered now now' a w x w'.

(** What runs: the service, and single calls of its other users. *)
Inductive started : Prog unit → Prop :=
| StartedApply id attempt by_ :
    started (forget (apply sha256 hasher debug_finding display_apply_error id attempt by_))
| StartedResume id attempt by_ :
    started (forget (resume sha256 hasher debug_finding display_apply_error id attempt by_))
| StartedRecovery g : started (forget (recover_applying debug_store_error display_activation_error g))
| StartedRequest input : started (forget (request_activation input))
| StartedCall a : moves_active a = false → started (forget (perform a)).

(** [ticks now now']: a clock that last read [now] may read [now'] next. [Utc::now] follows
    the system time, which may be set back; what is shown of the system names the clock. *)
Inductive sys_step (ticks : DateTime → DateTime → Prop) : System → System → Prop :=
| SysStart w now ts p : started p → sys_step ticks (mkSystem w now ts) (mkSystem w now (p :: ts))
| SysCall w now ts1 a k ts2 t t' x w' : ticks now t → ticks t t' → answered t t' a w x w' →
    sys_step ticks (mkSystem w now (ts1 ++ Call a k :: ts2)) (mkSystem w' t' (ts1 ++ k x :: ts2))
| SysStop w now ts1 p ts2 : sys_step ticks (mkSystem w now (ts1 ++ p :: ts2)) (mkSystem w now (ts1 ++ ts2)).

Inductive sys_reachable (ticks : DateTime → DateTime → Prop) : System → Prop :=
| SysInitial now : sys_reachable ticks (mkSystem (mkActWorld [] ∅) now [])
| SysNext s s' : sys_reachable ticks s → sys_step ticks s s' → sys_reachable ticks s'.

(** ** The worlds *)
Definition world_ok (now : DateTime) (w : ActWorld) : Prop :=
  requests_ok sha256 try_seconds now (aw_requests w) ∧ ruleset_store_wf hasher (aw_rulesets w).

Definition world_grows (w w' : ActWorld) : Prop :=
  requests_grow (aw_requests w) (aw_requests w') ∧ store_grows (aw_rulesets w) (aw_rulesets w').

Lemma world_grows_refl w : world_grows w w.
Proof. split; [apply requests_grow_refl|apply store_grows_refl]. Qed.

(** What a fact says of the world; it goes on holding as the world grows. *)
Definition backed (w : ActWorld) (f : Fact) : Prop :=
  match f with
  | FactClaimed r => ar_state r = StApplying ∧ ∃ now, request_ok sha256 try_seconds now r ∧
      ∃ r', bt_get (aw_requests w) (ar_id r) = Some r' ∧ extends r r'
  | FactVersion g key version artifact => find_version (aw_rulesets w) g key version = Some artifact
  | FactLoaded target env => provides target env
  end.

Lemma backed_grows now now' w w' f : world_ok now w → world_ok now' w' → world_grows w w' →
  backed w f → backed w' f.
Proof.
  intros [_ Hw] [_ Hw'] [Hr Hg]. destruct f as [r|g key v artifact|target env]; cbn; [|by eapply find_version_grows|done].
  intros (Hs & t & Ht & r' & Hl & E). split; [done|]. exists t. split; [done|].
  destruct (Hr _ _ Hl) as (r2 & Hl2 & E2). exists r2. split; [done|by eapply extends_trans].
Qed.

(** The calls on the request store, each as a step of it. *)
Lemma in_place_state {D E A} (from : D → E) store (e : E) (f : Cmd ActivationRequest D A) now id st :
  requests_ok sha256 try_seconds now st →
  (∀ r, request_ok sha256 try_seconds now r → good_step sha256 try_seconds now r (f r).2) →
  (∀ r, quiet r (f r).2) →
  store_step sha256 try_seconds now st (in_place e id (decide_valid sha256 try_seconds from store f) st).2.
Proof.
  intros Hst Hg Hq. pose proof (in_place_decide sha256 try_seconds from store e f now id st Hst Hg Hq) as H.
  destruct (in_place _ _ _ _). apply H.
Qed.

Lemma update_if_state now id step st :
  requests_ok sha256 try_seconds now st →
  (∀ r, request_ok sha256 try_seconds now r → good_step sha256 try_seconds now r (step r).2) →
  (∀ r, quiet r (step r).2) →
  store_step sha256 try_seconds now st (update_if sha256 try_seconds id step st).2.
Proof.
  intros Hst Hg Hq. pose proof (update_if_step sha256 try_seconds now id step st Hst Hg Hq) as H.
  destruct (update_if _ _ _ _ _). apply H.
Qed.

Definition requests_call (a : Action) : bool :=
  match a with
  | CallPublish _ | CallGetVersion _ _ _ | CallActive _ _ | CallActivate _ _ _ | CallActivateGuarded _
  | CallLoadFresh _ | PollDeadline => false
  | _ => true
  end.

Lemma handle_requests provider now now' late a w : requests_call a = true →
  requests_ok sha256 try_seconds now (aw_requests w) →
  aw_rulesets (handle' provider now now' late a w).2 = aw_rulesets w ∧
  store_step sha256 try_seconds now (aw_requests w) (aw_requests (handle' provider now now' late a w).2).
Proof.
  intros Ha Hst. destruct a; try discriminate Ha; (split; [reflexivity|]); cbn.
  - by apply store_create_step.
  - by apply store_create_product_step.
  - apply in_place_state; auto using link_good, link_quiet.
  - pose proof (store_get_step sha256 try_seconds now id _ Hst) as H. destruct (store_get _ _ _ _ _). apply H.
  - apply in_place_state; auto using approve_good, approve_quiet.
  - apply in_place_state; auto using approve_bound_good, approve_bound_quiet.
  - apply in_place_state; auto using reject_good, reject_quiet.
  - pose proof (store_withdraw_step sha256 try_seconds now id withdrawn_by reason _ Hst) as H.
    destruct (store_withdraw _ _ _ _ _ _ _). apply H.
  - pose proof (store_claim_apply_step sha256 try_seconds checked_add_signed seconds now now' id attempt lease_seconds _ Hst) as H.
    destruct (store_claim_apply _ _ _ _ _ _ _ _ _ _). apply H.
  - pose proof (store_claim_resume_step sha256 try_seconds checked_add_signed seconds now now' id attempt lease_seconds _ Hst) as H.
    destruct (store_claim_resume _ _ _ _ _ _ _ _ _ _). apply H.
  - unfold store_renew_lease. destruct (lease_until _ _ _ _); [|by apply store_step_refl].
    apply update_if_state; auto using renew_good, renew_quiet.
  - apply update_if_state; auto using complete_good, complete_quiet.
  - apply update_if_state; auto using release_good, release_quiet.
  - apply update_if_state; auto using supersede_good, supersede_quiet.
  - apply update_if_state; auto using expire_good, expire_quiet.
  - by apply store_step_refl.
  - apply update_if_state; auto using bookkeep_good, bookkeep_quiet.
Qed.

Lemma handle_rulesets provider now now' late a w : requests_call a = false →
  ruleset_store_wf hasher (aw_rulesets w) →
  aw_requests (handle' provider now now' late a w).2 = aw_requests w ∧
  ruleset_store_wf hasher (aw_rulesets (handle' provider now now' late a w).2) ∧
  store_grows (aw_rulesets w) (aw_rulesets (handle' provider now now' late a w).2).
Proof.
  intros Ha Hst. destruct a; try discriminate Ha; (split; [reflexivity|]); cbn;
    try (split; [done|apply store_grows_refl]).
  - apply (run_op_wf hasher _ (OpPublish request) Hst).
  - apply (run_op_wf hasher _ (OpActivate g key version) Hst).
  - apply (run_op_wf hasher _ (OpActivateGuarded request) Hst).
Qed.

Lemma handle_world provider now now' late a w : world_ok now w →
  world_ok now (handle' provider now now' late a w).2 ∧ world_grows w (handle' provider now now' late a w).2.
Proof.
  intros [Hr Hs]. destruct (requests_call a) eqn:Ha.
  - destruct (handle_requests provider now now' late a w Ha Hr) as [E [Hr' Hg]].
    split; split; rewrite ?E; try done. apply store_grows_refl.
  - destruct (handle_rulesets provider now now' late a w Ha Hs) as [E [Hs' Hg]].
    split; split; rewrite ?E; try done. apply requests_grow_refl.
Qed.

(** Answers teach true facts. *)
Lemma handle_learns provider now now' late a w x w' : world_ok now w →
  (∀ target env, provider target = Ok env → provides target env) →
  handle' provider now now' late a w = (x, w') → Forall (backed w') (learned a x).
Proof.
  intros [Hr Hs] Hp Hh.
  assert (Hclaim : ∀ (r : ActivationRequest) id attempt st', aw_requests w' = st' →
            store_step sha256 try_seconds now (aw_requests w) st' →
            bt_get st' id = Some r ∧ ar_state r = StApplying ∧ ar_apply_attempt_id r = Some attempt →
            Forall (backed w') [FactClaimed r]).
  { intros r id attempt st' <- [Hok _] (Hl & Hst & _). constructor; [|done]. cbn. split; [done|].
    pose proof (rs_ids _ _ _ _ Hok _ _ Hl) as Hid. exists now. split; [by eapply rs_valid|].
    exists r. rewrite Hid. split; [done|apply extends_refl]. }
  destruct a; try by constructor; cbn in Hh.
  - pose proof (store_claim_apply_step sha256 try_seconds checked_add_signed seconds now now' id attempt lease_seconds _ Hr) as H.
    revert Hh H. cbn. destruct (store_claim_apply _ _ _ _ _ _ _ _ _ _) as [y st']. intros [= <- <-] [Hstep H].
    destruct y as [[]|]; try by constructor. by eapply Hclaim.
  - pose proof (store_claim_resume_step sha256 try_seconds checked_add_signed seconds now now' id attempt lease_seconds _ Hr) as H.
    revert Hh H. cbn. destruct (store_claim_resume _ _ _ _ _ _ _ _ _ _) as [y st']. intros [= <- <-] [Hstep H].
    destruct y as [[]|]; try by constructor. by eapply Hclaim.
  - injection Hh as <- <-. cbn. destruct (find_version _ _ _ _) eqn:E; by repeat constructor.
  - injection Hh as <- <-. cbn. destruct (provider target) eqn:E; repeat constructor. cbn. by apply Hp.
Qed.

(** ** The service activates what it claimed and checked *)
Definition ready_in (env : ActivationEnvironment) (artifact : RuleSetVersion) : Prop :=
  ∃ runtime, check_readiness hasher artifact (en_bindings env) (en_guild_capabilities env)
               (en_role_permissions env) = Ok runtime.

(** What product activations check besides. *)
Definition product_ready (r : ActivationRequest) (c : ProductApprovalContextV1) (env : ActivationEnvironment)
    (artifact : RuleSetVersion) : Prop :=
  product_binding_drift sha256 (tg_guild_id (ar_target r)) (pc_binding c) env = Ok None ∧
  ∃ hierarchy, check_role_hierarchy_v1 artifact (en_bindings env) (en_role_hierarchy env) = Ok hierarchy.

Definition seen (K : list Fact) (target : ActivationTarget) (artifact : RuleSetVersion) : Prop :=
  FactVersion (tg_guild_id target) (tg_ruleset_key target) (tg_version target) artifact ∈ K.

Definition allowed (K : list Fact) (a : Action) : Prop :=
  match a with
  | CallActivate g key version =>
      ∃ r artifact artifact' env, FactClaimed r ∈ K ∧ ar_approval_context r = LegacyManual ∧
        g = tg_guild_id (ar_target r) ∧ key = tg_ruleset_key (ar_target r) ∧ version = tg_version (ar_target r) ∧
        seen K (ar_target r) artifact ∧ artifact_matches (ar_target r) artifact = true ∧
        FactLoaded (ar_target r) env ∈ K ∧ seen K (ar_target r) artifact' ∧ ready_in env artifact'
  | CallActivateGuarded request =>
      ∃ r c artifact env, FactClaimed r ∈ K ∧ ar_approval_context r = ProductAuthoring c ∧
        request = guarded_request (ar_target r) (expected_active_ruleset (pc_baseline c)) ∧
        seen K (ar_target r) artifact ∧ artifact_matches (ar_target r) artifact = true ∧
        FactLoaded (ar_target r) env ∈ K ∧ ready_in env artifact ∧ product_ready r c env artifact
  | _ => True
  end.

Definition safe {A} (p : Prog A) (K : list Fact) : Prop := wp allowed p K (λ _ _, True).

(** The last call of a program, whatever it answers. *)
Ltac last_call := split; [done|]; by intros [[]|].

Abbreviation release_known' := (release_known display_apply_error).

Lemma safe_release {A} id attempt e K : safe (release_known' id attempt e : Prog (Result ApplyError A)) K.
Proof. last_call. Qed.

Lemma safe_or_release {A B} id attempt (p : Prog (Result ApplyError A)) (f : A → Prog (Result ApplyError B)) K :
  wp allowed p K (λ r K', match r with Ok a => safe (f a) K' | Err _ => True end) →
  safe (or_release display_apply_error id attempt p f) K.
Proof.
  intros H. unfold safe, or_release. apply wp_bind. eapply wp_mono; [|exact H].
  intros [a|e] K'; [done|]. intros _. apply safe_release.
Qed.

Lemma prepare_activation_learns target K :
  wp allowed (prepare_activation target) K (λ r K',
    match r with
    | Ok (PreparedReady env) => FactLoaded target env ∈ K' ∧ K ⊆ K' ∧
        ∃ artifact, seen K' target artifact ∧ artifact_matches target artifact = true
    | _ => True
    end).
Proof.
  split; [done|]. intros [[artifact|]|]; [|done..]. cbn.
  destruct (artifact_matches target artifact) eqn:Hm; [|done]. split; [done|]. intros [active|]; [|done]. cbn.
  assert (Hload : wp allowed
    (prog_try ErrEnvironment (perform (CallLoadFresh target)) (λ env, Done (Ok (PreparedReady env))))
    (FactVersion (tg_guild_id target) (tg_ruleset_key target) (tg_version target) artifact :: K) (λ r K',
      match r with
      | Ok (PreparedReady env) => FactLoaded target env ∈ K' ∧ K ⊆ K' ∧
          ∃ artifact, seen K' target artifact ∧ artifact_matches target artifact = true
      | _ => True
      end)).
  { split; [done|]. intros [env|]; [|done]. cbn. split; [set_solver|]. split; [set_solver|].
    exists artifact. split; [unfold seen; set_solver|done]. }
  destruct active as [a|]; [|exact Hload]. destruct (_ =? _); [|exact Hload]. cbn. by destruct (bool_decide _).
Qed.

Lemma safe_legacy id attempt by_ r K : FactClaimed r ∈ K → ar_approval_context r = LegacyManual →
  safe (apply_legacy_claimed hasher debug_finding display_apply_error id attempt by_ (ar_target r)) K.
Proof.
  intros Hr Hc. apply safe_or_release. eapply wp_mono; [|apply prepare_activation_learns].
  intros [[|env]|] K'; [intros _; last_call| |done].
  intros (Hl & Hsub & artifact & Hs & Hm). split; [done|]. intros [[]|]; [|done..]. cbn. split; [done|].
  intros [[artifact'|]|]; [|last_call..]. cbn.
  destruct (check_readiness _ _ _ _ _) as [rt|] eqn:Hready; [|last_call]. split.
  - exists r, artifact, artifact', env. unfold seen in *. split_and!; try done; try set_solver. by exists rt.
  - intros [activation|e]; cbn; [last_call|]. destruct e; try done; last_call.
Qed.

Lemma load_exact_target_learns target K :
  wp allowed (load_exact_target target) K (λ r K',
    match r with
    | Ok artifact => K ⊆ K' ∧ seen K' target artifact ∧ artifact_matches target artifact = true
    | Err _ => True
    end).
Proof.
  split; [done|]. intros [[artifact|]|]; [|done..]. cbn. unfold validate_product_target_v1.
  destruct (artifact_matches target artifact) eqn:Hm; [|done]. cbn. unfold seen. split_and!; [set_solver..|done].
Qed.

Lemma active_learns g key K :
  wp allowed (prog_try ErrRuleSet (perform (CallActive g key)) (λ a, Done (Ok a))) K (λ r K', K' = K).
Proof. split; [done|]. by intros []. Qed.

Lemma load_fresh_learns target K :
  wp allowed (prog_try ErrEnvironment (perform (CallLoadFresh target)) (λ env, Done (Ok env))) K (λ r K',
    match r with Ok env => K ⊆ K' ∧ FactLoaded target env ∈ K' | Err _ => True end).
Proof. split; [done|]. intros [env|]; [|done]. cbn. split; set_solver. Qed.

Lemma safe_product id attempt by_ r c K : FactClaimed r ∈ K → ar_approval_context r = ProductAuthoring c →
  safe (apply_product_claimed sha256 hasher debug_finding display_apply_error id attempt by_ (ar_target r) c) K.
Proof.
  intros Hr Hc. apply safe_or_release. eapply wp_mono; [|apply load_exact_target_learns].
  intros [artifact|] K1; [|done]. intros (Hsub1 & Hs & Hm).
  apply safe_or_release. eapply wp_mono; [|apply active_learns]. intros [active|] K2; [intros ->|done].
  destruct (assess_product_target_v1 _ c _) as [ready|reason] eqn:Ha; [|last_call].
  apply safe_or_release. eapply wp_mono; [|apply load_fresh_learns]. intros [env|] K3; [intros [Hsub3 Hl]|done].
  assert (Hready : tr_target ready = ar_target r ∧ tr_binding ready = pc_binding c ∧
            tr_expected_active ready = expected_active_ruleset (pc_baseline c)).
  { revert Ha. unfold assess_product_target_v1. destruct (_ && _); by intros [= <-]. }
  destruct Hready as (Ht & Hb & Hexp).
  destruct (check_product_readiness_v1 _ _ _ _ _ _) as [[pf|reason]|e] eqn:Hp;
    [|last_call|last_call].
  unfold check_product_readiness_v1 in Hp. rewrite Ht, Hb in Hp.
  apply bind_Ok_inv in Hp as (u & _ & Hp). apply bind_Ok_inv in Hp as (drift & Hdrift & Hp).
  destruct drift; [done|]. apply bind_Ok_inv in Hp as (rt & Hrt & Hp).
  apply bind_Ok_inv in Hp as (hierarchy & Hh & [= <-]). cbn.
  destruct (tr_target_is_active ready); [last_call|]. split; [done|]. intros [[]|]; [|done..].
  cbn. rewrite Hexp. split.
  - exists r, c, artifact, env. unfold seen in *. split_and!; try done; try set_solver.
    + exists rt. by apply map_err_Ok in Hrt.
    + split; [done|]. exists hierarchy. by apply map_err_Ok in Hh.
  - intros [[| |observed]|e]; cbn; [last_call..|]. destruct e; try done; last_call.
Qed.

Lemma safe_apply_claim id attempt by_ claim K : (∀ r, claim = Claimed r → FactClaimed r ∈ K) →
  safe (apply_claim sha256 hasher debug_finding display_apply_error id attempt by_ claim) K.
Proof.
  intros Hk. destruct claim as [r| | | | |]; try done. apply wp_deadline; [done..|]. unfold apply_claimed.
  destruct (ar_approval_context r) eqn:Hc; [apply safe_legacy|apply safe_product]; auto.
Qed.

Lemma safe_forget {A} (p : Prog A) K : safe p K → safe (forget p) K.
Proof. intros H. unfold safe, forget. apply wp_bind. by eapply wp_mono; [|exact H]. Qed.

Lemma safe_apply id attempt by_ K :
  safe (apply sha256 hasher debug_finding display_apply_error id attempt by_) K.
Proof.
  split; [done|]. intros [[r|]|]; [|done..]. cbn [learned app]. cbn -[apply_claim awaits_link].
  destruct (awaits_link r); [done|]. destruct (ar_state r); try done;
    (split; [done|]; intros [claim|]; [|done]; apply (safe_apply_claim id attempt by_ claim);
     intros r' ->; cbn; set_solver).
Qed.

Lemma safe_resume id attempt by_ K :
  safe (resume sha256 hasher debug_finding display_apply_error id attempt by_) K.
Proof.
  split; [done|]. intros [[r|]|]; [|done..]. cbn [learned app]. cbn -[apply_claim awaits_link].
  destruct (awaits_link r); [done|]. destruct (ar_state r); try done;
    (split; [done|]; intros [claim|]; [|done]; apply (safe_apply_claim id attempt by_ claim);
     intros r' ->; cbn; set_solver).
Qed.

Lemma safe_recover_one r K : safe (recover_one debug_store_error display_activation_error r) K.
Proof.
  split; [done|]. intros [[artifact|]|]; [|done..]. cbn. destruct (bool_decide _); [|done]. cbn.
  split; [done|]. intros [[a|]|]; [|done..]. cbn. destruct (bool_decide _); [|done]. last_call.
Qed.

Lemma safe_recover_all rs entries K : safe (recover_all debug_store_error display_activation_error rs entries) K.
Proof.
  revert entries K. induction rs as [|r rs IH]; intros entries K; [done|]. apply wp_bind.
  eapply wp_mono; [|apply safe_recover_one]. intros d K' _. apply IH.
Qed.

Lemma safe_request input K : safe (request_activation input) K.
Proof.
  split; [done|]. intros [[artifact|]|]; [|done..]. cbn. destruct (_ || _ || _); [done|].
  split; [done|]. intros [active|]; [|done]. by split; [|intros []].
Qed.

Lemma started_safe p K : started p → safe p K.
Proof.
  destruct 1 as [id attempt by_|id attempt by_|g|input|a Ha]; apply safe_forget.
  - apply safe_apply.
  - apply safe_resume.
  - split; [done|]. intros [rs|]; [|done]. apply safe_recover_all.
  - apply safe_request.
  - split; [|done]. by destruct a.
Qed.

(** ** The invariant of the system *)
Record system_ok (s : System) : Prop := {
  so_world : world_ok (sy_now s) (sy_world s);
  so_threads : ∀ p, p ∈ sy_threads s → ∃ K, safe p K ∧ Forall (backed (sy_world s)) K
}.

Lemma answered_world now now' a w x w' : world_ok now w → answered now now' a w x w' →
  world_ok now w' ∧ world_grows w w' ∧ Forall (backed w') (learned a x).
Proof.
  intros Hw. destruct 1 as [provider late x w' Hp Hh|m x Hx|provider late m x x' w' Hx Hh].
  - pose proof (handle_learns provider now now' late a w x w' Hw Hp Hh) as Hl.
    pose proof (handle_world provider now now' late a w Hw) as [H1 H2]. by rewrite Hh in H1, H2.
  - split_and!; [done|apply world_grows_refl|]. destruct a; try done; by injection Hx as <-.
  - pose proof (handle_world provider now now' late a w Hw) as [H1 H2]. rewrite Hh in H1, H2.
    split_and!; [done..|]. destruct a; try done; by injection Hx as <-.
Qed.

Lemma world_ok_later now now' w : now ≤ now' → world_ok now w → world_ok now' w.
Proof. intros Hle [Hr Hs]. split; [by eapply requests_ok_later|done]. Qed.

Lemma sys_step_ok s s' : system_ok s → sys_step forward s s' → system_ok s'.
Proof.
  intros [Hw Ht] Hstep. destruct Hstep as [w now ts p Hp|w now ts1 a k ts2 t t' x w' Ht1 Ht2 Hans|w now ts1 p ts2];
    unfold forward in *; cbn in *.
  - split; cbn; [done|]. intros p' [->|Hin]%elem_of_cons; [|by apply Ht].
    exists []. split; [by apply started_safe|constructor].
  - pose proof (world_ok_later now t w ltac:(lia) Hw) as Hwt.
    destruct (answered_world t t' a w x w' Hwt Hans) as (Hw' & Hg & Hl).
    split; cbn; [eapply world_ok_later; [|done]; lia|]. intros p Hp.
    assert (Hold : ∀ K, Forall (backed w) K → Forall (backed w') K).
    { intros K. apply Forall_impl. intros f. by eapply backed_grows. }
    apply elem_of_app in Hp as [Hp|[->|Hp]%elem_of_cons].
    + destruct (Ht p) as (K & ? & ?); [set_solver|]. exists K. auto.
    + destruct (Ht (Call a k)) as (K & [_ Hs] & HK); [set_solver|]. exists (learned a x ++ K).
      split; [apply Hs|]. apply Forall_app. auto.
    + destruct (Ht p) as (K & ? & ?); [set_solver|]. exists K. auto.
  - split; cbn; [done|]. intros p' Hin. apply Ht. set_solver.
Qed.

Lemma reachable_ok s : sys_reachable forward s → system_ok s.
Proof.
  induction 1 as [now|s s' _ IH Hstep]; [|by eapply sys_step_ok].
  split; cbn; [|by intros p ?%not_elem_of_nil]. split; cbn; [apply requests_ok_empty|].
  intros g key entry. by rewrite lookup_empty.
Qed.
End system.
