(* ===== verification/ActivationSafety.v ===== *)
(** * What activation guarantees

    The theorems on the activation system: requests stay valid and are applied one
    at a time, decisions are permanent, and a rule set's active version only moves
    to what was approved, with its content, in an environment it is ready for. *)

From Stdlib Require Import ZArith Lia Ascii String.
From stdpp Require Import base decidable list strings gmap numbers relations sorting.
From S2P Require Import Prelude RustStd DiscordModel Resolution AutomationState AutomationPlan.
From S2P Require Import AutomationValidate RuleSet RuleSetSpec Readiness ApprovalBinding Activation.
From S2P Require Import ActivationStore ActivationService ActivationSpec ActivationStoreSpec ActivationSystem.
Open Scope Z_scope.

(** ** Approved requests *)

(** As many users as required approved it, each once and within its lifetime, and
    for a product request each approved its payload. *)
Definition approved (r : ActivationRequest) : Prop :=
  ar_required_approvals r ≤ Z.of_nat (length (ar_approvals r)) ∧ ar_required_approvals r ≠ 0 ∧
  NoDup (map aa_approver (ar_approvals r)) ∧
  ∀ a, a ∈ ar_approvals r →
    ar_created_at r ≤ aa_approved_at a < ar_expires_at r ∧
    aa_payload_digest a = match ar_approval_context r with
                          | LegacyManual => None
                          | ProductAuthoring c => Some (pc_approval_payload_digest c)
                          end.

Section approved.
Context (sha256 : list Z → list Z) (try_seconds : Z → option Z).
Abbreviation ok := (request_ok sha256 try_seconds).

Lemma sorted_NoDup {A} (key : A → Z) l : StronglySorted (λ a b, key a < key b) l → NoDup (map key l).
Proof.
  induction 1 as [|y l Hl IH Hy]; cbn; constructor; [|done].
  intros (z & Ez & Hz)%list_elem_of_fmap. rewrite Forall_forall in Hy. specialize (Hy _ Hz). cbn in Hy. lia.
Qed.

Lemma valid_approvals now r : ok now r →
  NoDup (map aa_approver (ar_approvals r)) ∧
  ∀ a, a ∈ ar_approvals r →
    ar_created_at r ≤ aa_approved_at a < ar_expires_at r ∧
    aa_payload_digest a = match ar_approval_context r with
                          | LegacyManual => None
                          | ProductAuthoring c => Some (pc_approval_payload_digest c)
                          end.
Proof.
  intros (_ & V2 & _ & V4 & _)%rk_valid%request_validate_parts. unfold validate_approvals in V2.
  rewrite ensure_Ok, andb_true_iff, windows_lt_sorted, forallb_forall in V2. destruct V2 as [Hs Hw].
  split; [by apply sorted_NoDup|]. intros a Ha%list_elem_of_In. split; [by apply within_spec, Hw|].
  unfold validate_context in V4. destruct (ar_approval_context r) as [|c].
  - rewrite ensure_Ok, andb_true_iff, forallb_forall in V4. destruct V4 as [_ V4]. specialize (V4 a Ha).
    by destruct (aa_payload_digest a).
  - apply then_Ok in V4 as [_ (ttl & _ & (V4 & _)%then_Ok)%bind_Ok_inv].
    rewrite ensure_Ok, andb_true_iff, forallb_forall in V4. destruct V4 as [_ V4]. specialize (V4 a Ha).
    by apply bool_decide_eq_true in V4.
Qed.

Lemma applying_approved now r : ok now r → ar_state r = StApplying → approved r.
Proof.
  intros H Hs. pose proof (valid_approvals now r H) as [Hnd Hall].
  apply rk_valid, request_validate_parts in H as (V1 & _ & _ & _ & _ & V6). unfold validate_state in V6. rewrite Hs in V6.
  rewrite ensure_Ok, !andb_true_iff, Z.leb_le in V6. unfold approval_count, u32_len in V6.
  unfold validate_policy in V1. rewrite ensure_Ok, negb_true_iff, orb_false_iff, Z.eqb_neq in V1.
  split_and!; [lia|tauto|done|done].
Qed.

(** Approval is not lost. *)
Lemma approved_extends now r r' : approved r → ok now r' → extends r r' → approved r'.
Proof.
  intros (Hc & H1 & Hnd & _) Hr' E. pose proof (valid_approvals now r' Hr') as [Hnd' Hall].
  rewrite <- (ex_required _ _ E) in Hc, H1. split_and!; [|done..].
  assert (length (ar_approvals r) ≤ length (ar_approvals r'))%nat; [|lia].
  apply submseteq_length, NoDup_submseteq; [by eapply NoDup_fmap_1|]. apply (ex_approvals _ _ E).
Qed.
End approved.

(** ** Moving an active version *)
Section moves.
Context (hasher : Z → InteractionRuleSet → Result RuleSetHashError (list Z)).

Lemma activate_moves st g key version x st' g' key' : activate g key version st = (x, st') →
  observed_active st' g' key' ≠ observed_active st g' key' →
  (g', key') = (g, key) ∧ observed_active st' g key = version_identity <$> find_version st g key version.
Proof.
  unfold activate, observed_active. rewrite !find_active_entry, find_version_entry.
  destruct (st !! (g, key)) as [entry|] eqn:Hl; [|by intros [= <- <-]].
  destruct (is_some _) eqn:Hs; intros [= <- <-]; [|done].
  destruct (decide ((g, key) = (g', key'))) as [[= <- <-]|Hne].
  - rewrite lookup_insert_eq. cbn. intros _. split; [done|]. by apply is_some_true in Hs as [v ->].
  - by rewrite lookup_insert_ne.
Qed.

Lemma guarded_moves st request x st' g' key' : ruleset_store_wf hasher st →
  activate_guarded request st = (x, st') → observed_active st' g' key' ≠ observed_active st g' key' →
  let g := ga_guild_id request in let key := ga_ruleset_key request in
  (g', key') = (g, key) ∧ observed_active st' g key = Some (ga_target request) ∧
  observed_active st g key = match ga_expected_active request with ExpectAbsent => None | ExpectExact i => Some i end.
Proof.
  intros Hst Hrun Hne g key. pose proof (activate_guarded_contract hasher st request x st' Hst Hrun) as Hc.
  unfold guarded_contract in Hc. cbv zeta in Hc. destruct x as [[a|a|o]|e]; cycle 1.
  - destruct Hc as (_ & _ & -> & _). done.
  - destruct Hc as (_ & _ & _ & _ & ->). done.
  - destruct e; try done; by destruct Hc as [_ ->].
  - destruct Hc as (_ & _ & Hexp & Hnew & _ & _ & Hother).
    destruct (decide ((g', key') = (g, key))) as [[= -> ->]|Hd]; [done|].
    destruct Hne. unfold observed_active. by rewrite Hother.
Qed.
End moves.

Section safety.
Context (sha256 : list Z → list Z).
Context (checked_add_signed : DateTime → Duration → option DateTime).
Context (try_seconds : Z → option Duration) (seconds : Z → Duration).
Context (hasher : Z → InteractionRuleSet → Result RuleSetHashError (list Z)).
Context (debug_finding : PolicyFinding → string).
Context (display_apply_error : ApplyError → string) (debug_store_error : RuleSetStoreError → string)
  (display_activation_error : ActivationStoreError → string).
Context (provides : ActivationTarget → ActivationEnvironment → Prop).

Abbreviation step := (sys_step sha256 checked_add_signed try_seconds seconds hasher debug_finding
  display_apply_error debug_store_error display_activation_error provides forward).
Abbreviation reachable := (sys_reachable sha256 checked_add_signed try_seconds seconds hasher debug_finding
  display_apply_error debug_store_error display_activation_error provides forward).
Abbreviation handle' := (handle sha256 checked_add_signed try_seconds seconds hasher).

(** A call that does not activate leaves every active version in place. *)
Lemma handle_keeps_active provider now now' late a w g key : moves_active a = false →
  ruleset_store_wf hasher (aw_rulesets w) →
  observed_active (aw_rulesets (handle' provider now now' late a w).2) g key =
  observed_active (aw_rulesets w) g key.
Proof.
  intros Ha Hst. destruct a; try discriminate Ha; try reflexivity.
  unfold observed_active. cbn. by rewrite publish_keeps_active.
Qed.

(** The claim behind an activation, as it is stored. *)
Lemma claimed_stored now w r : world_ok sha256 try_seconds hasher now w →
  backed sha256 try_seconds provides w (FactClaimed r) →
  ∃ r', bt_get (aw_requests w) (ar_id r) = Some r' ∧ approved r' ∧
    ar_target r' = ar_target r ∧ ar_approval_context r' = ar_approval_context r.
Proof.
  intros [Hr _] (Hs & t & Ht & r' & Hl & E). exists r'. split; [done|].
  split; [|split; [apply (ex_target _ _ E)|apply (ex_context _ _ E)]].
  eapply approved_extends; [by eapply applying_approved|by eapply rs_valid|done].
Qed.

Lemma artifact_matches_identity target artifact : artifact_matches target artifact = true →
  version_identity artifact = target_identity target.
Proof.
  unfold artifact_matches. rewrite !andb_true_iff, !Z.eqb_eq, bool_decide_eq_true.
  intros [[[_ _] Hv] Hh]. unfold version_identity, target_identity. by rewrite Hv, Hh.
Qed.

(** What stands behind a move of the active version from [before]: a stored request
    with its artifact and an environment. *)
Definition behind_move (w : ActWorld) (g : GuildId) (key : RuleSetKey)
    (before after : option RuleSetVersionIdentity) : Prop :=
  ∃ id r artifact env,
    bt_get (aw_requests w) id = Some r ∧ approved r ∧
    tg_guild_id (ar_target r) = g ∧ tg_ruleset_key (ar_target r) = key ∧
    after = Some (target_identity (ar_target r)) ∧
    find_version (aw_rulesets w) g key (tg_version (ar_target r)) = Some artifact ∧
    version_identity artifact = target_identity (ar_target r) ∧
    provides (ar_target r) env ∧ ready_in hasher env artifact ∧
    match ar_approval_context r with
    | LegacyManual => True
    | ProductAuthoring c => product_active_baseline_v1 before = pc_baseline c ∧
                            product_ready sha256 r c env artifact
    end.

Lemma allowed_move now now' provider late a w K g key x w' : world_ok sha256 try_seconds hasher now w →
  allowed sha256 hasher K a → Forall (backed sha256 try_seconds provides w) K →
  handle' provider now now' late a w = (x, w') →
  observed_active (aw_rulesets w') g key ≠ observed_active (aw_rulesets w) g key →
  behind_move w g key (observed_active (aw_rulesets w) g key) (observed_active (aw_rulesets w') g key).
Proof.
  intros Hw Ha HK Hh Hne. rewrite Forall_forall in HK. destruct (moves_active a) eqn:Hm; cycle 1.
  { destruct Hne. pose proof (handle_keeps_active provider now now' late a w g key Hm (proj2 Hw)) as E.
    by rewrite Hh in E. }
  destruct a; try discriminate Hm; cbn in Hh; injection Hh as <- <-; cbn in Ha, Hne |- *.
  - destruct Ha as (r & artifact & artifact' & env & Hr & Hctx & -> & -> & -> & Hs & Hmatch & Hl & Hs' & Hready).
    apply HK in Hs, Hs', Hl. cbn in Hs, Hs', Hl. rewrite Hs in Hs'. injection Hs' as <-.
    destruct (claimed_stored now w r Hw (HK _ Hr)) as (r' & Hst & Happ & Et & Ec).
    destruct (activate _ _ _ _) as [y st'] eqn:Hact. cbn in *.
    destruct (activate_moves _ _ _ _ _ _ _ _ Hact Hne) as [[= -> ->] Hafter]. rewrite Hafter, Hs.
    apply artifact_matches_identity in Hmatch.
    exists (ar_id r), r', artifact, env. rewrite Et, Ec, Hctx. cbn. rewrite Hmatch. by split_and!.
  - destruct Ha as (r & c & artifact & env & Hr & Hctx & -> & Hs & Hmatch & Hl & Hready & Hprod).
    apply HK in Hs, Hl. cbn in Hs, Hl.
    destruct (claimed_stored now w r Hw (HK _ Hr)) as (r' & Hst & Happ & Et & Ec).
    destruct (activate_guarded _ _) as [y st'] eqn:Hact. cbn in *.
    destruct (guarded_moves hasher _ _ _ _ _ _ (proj2 Hw) Hact Hne) as ([= -> ->] & Hafter & Hbefore).
    cbn in Hafter, Hbefore. rewrite Hafter, Hbefore. apply artifact_matches_identity in Hmatch.
    exists (ar_id r), r', artifact, env. rewrite Et, Ec, Hctx. split_and!; try done.
    + by destruct (pc_baseline c).
    + unfold product_ready in *. by rewrite Et.
Qed.

(** C2: However service runs interleave, stop or lose answers, while the clock is not
    set back and only the service activates, a step that moves a rule set's active
    version moves it to the target of a stored request that enough distinct users
    approved in time, and for its payload; the version is published with the approved
    content hash and passed readiness in an environment the provider loaded for it; and
    for a product request the version it replaces is exactly the approved baseline. *)
Theorem activations_are_approved s s' g key :
  reachable s → step s s' →
  let before := observed_active (aw_rulesets (sy_world s)) g key in
  let after := observed_active (aw_rulesets (sy_world s')) g key in
  after ≠ before → behind_move (sy_world s) g key before after.
Proof.
  intros [Hw Ht]%reachable_ok Hstep before after Hne. subst before after.
  destruct Hstep as [w now ts p Hp|w now ts1 a k ts2 t t' x w' Ht1 Ht2 Hans|w now ts1 p ts2];
    unfold forward in *; cbn in *; [done| |done].
  apply (world_ok_later _ _ _ now t) in Hw; [|lia].
  destruct (Ht (Call a k)) as (K & [Ha _] & HK); [set_solver|].
  destruct Hans as [provider late x w' _ Hh|m x _|provider late m x x' w' _ Hh]; [|done|];
    by eapply allowed_move.
Qed.

(** *** Validity *)

(** The error of the request store in an answer. *)
Definition store_error (a : Action) : answer a → option ActivationStoreError :=
  match a with
  | CallLinkProduct _ _ => λ x, match x with Err (LeStore e) => Some e | _ => None end
  | CallGet _ => λ x, match x with Err e => Some e | _ => None end
  | CallApprove _ _ | CallApproveBound _ _ _ => λ x, match x with Err (ApStore e) => Some e | _ => None end
  | CallReject _ _ _ => λ x, match x with Err (RjStore e) => Some e | _ => None end
  | CallWithdraw _ _ _ => λ x, match x with Err (WeStore e) => Some e | _ => None end
  | CallClaimApply _ _ _ | CallClaimResume _ _ _ => λ x, match x with Err e => Some e | _ => None end
  | CallRenewLease _ _ _ | CallCompleteApplied _ _ _ _ _ | CallRelease _ _ _ | CallSupersede _ _ _
  | CallMarkExpired _ | CallBookkeep _ _ => λ x, match x with Err e => Some e | _ => None end
  | CallListApplying _ => λ x, match x with Err e => Some e | _ => None end
  | _ => λ _, None
  end.

(** The errors of in-place decisions. *)
Lemma decided_error {D E A} (from : D → E) (wrap : ActivationStoreError → E) (f : Cmd ActivationRequest D A) now id st
    (err : E → option ActivationStoreError) :
  requests_ok sha256 try_seconds now st →
  (∀ r, request_ok sha256 try_seconds now r → good_step sha256 try_seconds now r (f r).2) →
  (∀ r, quiet r (f r).2) →
  (∀ e, err (wrap e) = Some e) → (∀ d, err (from d) = None) →
  ∀ e, match (in_place (wrap RequestNotFound) id (decide_valid sha256 try_seconds from wrap f) st).1 with
       | Err y => err y | Ok _ => None end = Some e → claim_refusal e.
Proof.
  intros Hst Hg Hq Hwrap Hfrom e.
  pose proof (in_place_decide sha256 try_seconds from wrap (wrap RequestNotFound) f now id st Hst Hg Hq) as H.
  destruct (in_place _ _ _ _) as [[r|y] st']; [done|]. destruct H as [_ [->|[d ->]]]; cbn.
  - rewrite Hwrap. intros [= <-]. by left.
  - by rewrite Hfrom.
Qed.

Lemma update_no_error now id step' st : requests_ok sha256 try_seconds now st →
  (∀ r, request_ok sha256 try_seconds now r → good_step sha256 try_seconds now r (step' r).2) →
  (∀ r, quiet r (step' r).2) → ∃ b, (update_if sha256 try_seconds id step' st).1 = Ok b.
Proof.
  intros Hst Hg Hq. pose proof (update_if_step sha256 try_seconds now id step' st Hst Hg Hq) as H.
  destruct (update_if _ _ _ _ _). destruct H as [_ (b & -> & _)]. by exists b.
Qed.

Lemma handle_errors provider now now' late a w e : requests_ok sha256 try_seconds now (aw_requests w) →
  store_error a (handle' provider now now' late a w).1 = Some e → claim_refusal e.
Proof.
  intros Hst. destruct a; try done; cbn.
  - eapply (decided_error link_error_from LeStore _ now id _ (λ y, match y with LeStore e => Some e | _ => None end));
      auto using link_good, link_quiet. by intros [].
  - pose proof (store_get_step sha256 try_seconds now id _ Hst) as H. destruct (store_get _ _ _ _ _).
    destruct H as [_ ->]. done.
  - eapply (decided_error approve_error_from ApStore _ now id _ (λ y, match y with ApStore e => Some e | _ => None end));
      auto using approve_good, approve_quiet. by intros [].
  - eapply (decided_error approve_error_from ApStore _ now id _ (λ y, match y with ApStore e => Some e | _ => None end));
      auto using approve_bound_good, approve_bound_quiet. by intros [].
  - eapply (decided_error reject_error_from RjStore _ now id _ (λ y, match y with RjStore e => Some e | _ => None end));
      auto using reject_good, reject_quiet. by intros [].
  - pose proof (store_withdraw_step sha256 try_seconds now id withdrawn_by reason _ Hst) as H.
    destruct (store_withdraw _ _ _ _ _ _ _) as [[]?]; [done|]. destruct H as [_ [_ [->|[[] ->]]]]; cbn; try done.
    intros [= <-]. by left.
  - pose proof (store_claim_apply_step sha256 try_seconds checked_add_signed seconds now now' id attempt lease_seconds _ Hst) as H.
    destruct (store_claim_apply _ _ _ _ _ _ _ _ _ _) as [[]?]; [done|]. intros [= <-]. apply H.
  - pose proof (store_claim_resume_step sha256 try_seconds checked_add_signed seconds now now' id attempt lease_seconds _ Hst) as H.
    destruct (store_claim_resume _ _ _ _ _ _ _ _ _ _) as [[]?]; [done|]. intros [= <-]. apply H.
  - unfold store_renew_lease. destruct (lease_until _ _ _ _) eqn:Hl; [|intros [= <-]; by eapply lease_refusal].
    edestruct (update_no_error now id (renew_lease_at attempt a) _ Hst) as [b ->]; auto using renew_good, renew_quiet. done.
  - edestruct (update_no_error now id) as [b E]; [exact Hst|..|unfold store_complete_applied; rewrite E; done];
      auto using complete_good, complete_quiet.
  - edestruct (update_no_error now id) as [b E]; [exact Hst|..|unfold store_release_to_approved; rewrite E; done];
      auto using release_good, release_quiet.
  - edestruct (update_no_error now id) as [b E]; [exact Hst|..|unfold store_supersede_applying; rewrite E; done];
      auto using supersede_good, supersede_quiet.
  - edestruct (update_no_error now id) as [b E]; [exact Hst|..|unfold store_mark_expired; rewrite E; done];
      auto using expire_good, expire_quiet.
  - change (match (store_list_applying sha256 try_seconds g (aw_requests w)).1 with Err y => Some y | Ok _ => None end
            = Some e → claim_refusal e). by rewrite (store_list_applying_run _ _ now).
  - edestruct (update_no_error now id) as [b E]; [exact Hst|..|unfold store_bookkeep_applied; rewrite E; done];
      auto using bookkeep_good, bookkeep_quiet.
Qed.

(** A request is decided in place before it is validated: one decided before it was created
    is stored, and refused whenever it is read. *)
Lemma backdated_reject now0 now id by_ reason st r later :
  requests_ok sha256 try_seconds now0 st → bt_get st id = Some r → ar_state r = StPending →
  awaits_link r = false → now < ar_created_at r →
  ∃ m, (store_get sha256 try_seconds later id (store_reject sha256 try_seconds now id by_ reason st).2).1
       = Err (InvalidRequest m).
Proof.
  intros Hok Hl Hs Ha Hc.
  set (r' := with_rejection (Some (mkRejection now by_ reason)) (with_state StRejected r)).
  assert (He : expire_if_due now r = (false, r)).
  { pose proof (valid_Ok _ _ _ _ (rs_valid _ _ _ _ Hok _ _ Hl)) as E.
    apply bind_Ok_inv in E as ([] & E & _). apply ensure_Ok_inv in E.
    unfold expire_if_due. rewrite Hs. bool_facts. by rewrite (proj2 (Z.leb_gt _ _)) by lia. }
  assert (Hst : bt_get (store_reject sha256 try_seconds now id by_ reason st).2 id = Some r').
  { unfold store_reject, in_place. rewrite Hl. unfold decide_valid, reject_at.
    rewrite He, Ha, bool_decide_eq_true_2 by done. cbn. by rewrite bt_insert_lookup, decide_True by first [apply Hok|done]. }
  unfold store_get. rewrite Hst. cbn.
  destruct (validate_request sha256 try_seconds r') as [[]|m] eqn:E; [|by exists m].
  exfalso. clear -E Hc.
  apply bind_Ok_inv in E as ([] & _ & E). apply bind_Ok_inv in E as ([] & _ & E).
  apply bind_Ok_inv in E as ([] & E & _). apply timestamps_spec in E as (E & _).
  specialize (E _ eq_refl). cbn in E. lia.
Qed.

(** C25: While the clock is not set back, each stored request is valid under its own id
    in every reachable state, a rule set has at most one request that is being applied, and no
    call on the store fails because a stored request is not valid: its errors are a missing
    request, a lease beyond the calendar or an exhausted attempt counter. The clock is
    needed: a rejection that reads a time before the creation of the pending request leaves
    in the store a request that every later read refuses. *)
Theorem activation_requests_stay_valid s :
  reachable s →
  let st := aw_requests (sy_world s) in
  (∀ id r, bt_get st id = Some r → ar_id r = id ∧ validate_request sha256 try_seconds r = Ok tt) ∧
  (∀ id1 id2 r1 r2, bt_get st id1 = Some r1 → bt_get st id2 = Some r2 → ar_state r1 = StApplying →
     ar_state r2 = StApplying → same_ruleset r1 r2 → id1 = id2) ∧
  (∀ provider now now' late a e, forward (sy_now s) now →
     store_error a (handle' provider now now' late a (sy_world s)).1 = Some e → claim_refusal e) ∧
  (∀ id r now by_ reason later, bt_get st id = Some r → ar_state r = StPending → awaits_link r = false →
     now < ar_created_at r →
     ∃ m, (store_get sha256 try_seconds later id (store_reject sha256 try_seconds now id by_ reason st).2).1
          = Err (InvalidRequest m)).
Proof.
  intros [[Hr Hs] _]%reachable_ok st. split_and!.
  - intros id r Hl. split; [by eapply rs_ids|]. by eapply valid_Ok, rs_valid.
  - apply (rs_exclusive _ _ _ _ Hr).
  - intros provider now now' late a e Hle. apply handle_errors. by eapply requests_ok_later.
  - intros id r now by_ reason later Hl Hp Ha Hn. by eapply backdated_reject.
Qed.

Lemma step_grows s s' : reachable s → step s s' → requests_grow (aw_requests (sy_world s)) (aw_requests (sy_world s')).
Proof.
  intros [Hw _]%reachable_ok Hstep.
  destruct Hstep as [w now ts p Hp|w now ts1 a k ts2 t t' x w' Ht1 Ht2 Hans|w now ts1 p ts2];
    unfold forward in *; cbn in *;
    try apply requests_grow_refl.
  apply (world_ok_later _ _ _ now t) in Hw; [|lia]. by eapply answered_world in Hans as (_ & [? _] & _).
Qed.

(** What is decided stays: a request is never lost, its target, policy and
    context never change, approvals and the link are kept, and a request that is
    applied, rejected, expired, superseded or withdrawn never changes again. *)
Theorem activation_decisions_are_permanent s s' id r :
  reachable s → rtc step s s' → bt_get (aw_requests (sy_world s)) id = Some r →
  ∃ r', bt_get (aw_requests (sy_world s')) id = Some r' ∧ extends r r'.
Proof.
  intros Hreach Hsteps. revert r Hreach. induction Hsteps as [s|s1 s2 s3 Hstep _ IH]; intros r Hreach Hl.
  - exists r. split; [done|apply extends_refl].
  - destruct (step_grows _ _ Hreach Hstep _ _ Hl) as (r2 & Hl2 & E2).
    destruct (IH r2) as (r3 & Hl3 & E3); [by eapply SysNext|done|]. exists r3. split; [done|by eapply extends_trans].
Qed.
End safety.

(** ** Approval digests commit to what is approved

    The digests of [automation-ruleset-activation] are taken over length-framed
    fields. The fields can be read back, so equal digests mean equal contents unless
    SHA-256 collides. *)

(** Values as their Rust types hold them. *)
Definition hash_ok (h : list Z) : Prop := length h = 32%nat ∧ Forall is_byte h.

Definition target_ok (t : ActivationTarget) : Prop :=
  u64_valid (tg_guild_id t) ∧ short (tg_ruleset_key t) ∧ u32_valid (tg_version t) ∧ hash_ok (tg_content_hash t).

Definition baseline_ok (b : ExpectedActiveBaselineV1) : Prop :=
  match b with BaselineAbsent => True | BaselineExact v h => u32_valid v ∧ hash_ok h end.

Definition policy_ok (p : ApprovalPolicyBindingV1) : Prop :=
  u64_valid (ap_revision p) ∧ u32_valid (ap_required_approvals p) ∧ u64_valid (ap_ttl_seconds p) ∧ short (ap_digest p).

Definition context_ok (c : ProductApprovalContextV1) : Prop :=
  short (pc_promotion_id c) ∧ short (pc_promotion_request_digest c) ∧ short (pc_approval_payload_digest c) ∧
  u64_valid (ab_revision (pc_binding c)) ∧ short (ab_fingerprint (pc_binding c)) ∧
  Forall binding_ok (ab_required_bindings (pc_binding c)) ∧ baseline_ok (pc_baseline c) ∧ policy_ok (pc_policy c).

Lemma u32_bytes_inj r r' : u32_valid r → u32_valid r' → be_bytes 4 r = be_bytes 4 r' → r = r'.
Proof. intros Hr Hr'. apply be_bytes_inj; unfold u32_valid, u32_max in *; lia. Qed.

Lemma hash_bytes_inj h h' : hash_ok h → hash_ok h' →
  str_bytes (to_hex h) = str_bytes (to_hex h') → h = h'.
Proof. intros [_ H] [_ H'] E%str_bytes_inj. by apply to_hex_inj. Qed.

Lemma fits_hash h : hash_ok h → fits (str_bytes (to_hex h)).
Proof.
  intros [Hl Hb]. unfold fits. rewrite str_bytes_length. destruct (parse_chunks_to_hex h Hb) as (_ & _ & ->).
  rewrite Hl. lia.
Qed.

Create HintDb fields.
#[local] Hint Resolve fits_print fits_str fits_hash : fields.
#[local] Hint Extern 1 (fits (be_bytes _ _)) => (apply fits_be_bytes; lia) : fields.

(** The ten fields before the bindings and the four after the baseline have fixed
    places; a binding starts with a word that no baseline starts with. *)
Lemma baseline_fields_inj b b' rest rest' : baseline_ok b → baseline_ok b' →
  baseline_fields b ++ rest = baseline_fields b' ++ rest' → b = b' ∧ rest = rest'.
Proof.
  destruct b as [|v h], b' as [|v' h']; cbn [baseline_fields app]; intros Hb Hb' E;
    field E Et; try discriminate Et; [done|].
  field E Ev. field E Eh. destruct Hb, Hb'. apply u32_bytes_inj in Ev; [|done..].
  apply hash_bytes_inj in Eh; [|done..]. by subst.
Qed.

Lemma bindings_then_baseline_inj bs bs' b b' rest rest' :
  Forall binding_ok bs → Forall binding_ok bs' → baseline_ok b → baseline_ok b' →
  (bs ≫= binding_fields) ++ baseline_fields b ++ rest = (bs' ≫= binding_fields) ++ baseline_fields b' ++ rest' →
  bs = bs' ∧ b = b' ∧ rest = rest'.
Proof.
  intros Hbs. revert bs'. induction Hbs as [|x bs Hx _ IH]; intros [|x' bs'] Hbs' Hb Hb' E.
  - cbn [mbind list_bind app] in E. split; [done|]. by apply baseline_fields_inj.
  - exfalso. rewrite bind_cons in E. destruct b, x'; cbn [mbind list_bind app baseline_fields binding_fields] in E;
      field E Et; discriminate Et.
  - exfalso. rewrite bind_cons in E. destruct b', x; cbn [mbind list_bind app baseline_fields binding_fields] in E;
      field E Et; discriminate Et.
  - apply Forall_cons_1 in Hbs' as [Hx' Hbs']. rewrite !bind_cons, <- !app_assoc in E.
    apply binding_fields_inj in E as [-> E]; [|done..]. by apply IH in E as (-> & -> & ->).
Qed.

Lemma context_fields_fit id t u c : short id → target_ok t → context_ok c →
  Forall fits (product_context_fields id t u c).
Proof.
  intros Hid (_ & Hk & _ & Hh) (H1 & H2 & H3 & _ & H4 & Hbs & Hb & (_ & _ & _ & Hd)). unfold short in *.
  unfold product_context_fields. constructor; [done|]. repeat (apply Forall_app; split);
    try by apply fits_bindings.
  3: { destruct (pc_baseline c) as [|v h]; repeat constructor; try destruct Hb; auto with fields; done. }
  all: repeat constructor; auto with fields.
Qed.

Section digests.
Context (sha256 : list Z → list Z) (Hsha : sha_bytes sha256).

Lemma digest_parses x : activation_hash_parse (to_hex (sha256 x)) = Ok (to_hex (sha256 x)).
Proof.
  destruct (Hsha x) as [Hl Hb]. destruct (parse_chunks_to_hex _ Hb) as (_ & Hall & Hlen).
  unfold activation_hash_parse, str_len. by rewrite Hall, Hlen, Hl.
Qed.
End digests.

(** Unless SHA-256 collides on the two framed contexts, the approval context digest commits to the request,
    the target with its content, the requester, the promotion and its digests, the
    bindings with revision and fingerprint, the baseline and the policy: two
    contexts with one digest agree in all of them. The digest is a well-formed
    identity. *)
Theorem approval_context_digest_commits sha256 id id' t t' u u' c c' :
  sha_bytes sha256 → short id → short id' → target_ok t → target_ok t' → u64_valid u → u64_valid u' →
  context_ok c → context_ok c' →
  let d := product_approval_context_digest_v1 sha256 id t u c in
  activation_hash_parse d = Ok d ∧
  (d = product_approval_context_digest_v1 sha256 id' t' u' c' →
   (id = id' ∧ t = t' ∧ u = u' ∧ pc_promotion_id c = pc_promotion_id c' ∧
    pc_promotion_request_digest c = pc_promotion_request_digest c' ∧
    pc_approval_payload_digest c = pc_approval_payload_digest c' ∧
    pc_binding c = pc_binding c' ∧ pc_baseline c = pc_baseline c' ∧ pc_policy c = pc_policy c') ∨
   sha_collision sha256 (frames (product_context_fields id t u c)) (frames (product_context_fields id' t' u' c'))).
Proof.
  intros Hs Hid Hid' Ht Ht' Hu Hu' Hc Hc' d. split; [by apply digest_parses|].
  intros E. apply framed_digest_inj in E as [E|]; [left|by right|done|by apply context_fields_fit..].
  destruct Ht as (Tg & _ & Tv & Th), Ht' as (Tg' & _ & Tv' & Th').
  destruct Hc as (_ & _ & _ & Cr & _ & Cb & Cl & Pr & Pa & Pt & _), Hc' as (_ & _ & _ & Cr' & _ & Cb' & Cl' & Pr' & Pa' & Pt' & _).
  unfold product_context_fields, target_fields in E. cbn [app] in E.
  field E Ed. field E Eid. field E Eg. field E Ek. field E Ev. field E Eh. field E Eu.
  field E Ep. field E Eqd. field E Ea. field E Er. field E Ef.
  apply bindings_then_baseline_inj in E as (Eb & El & E); [|done..].
  field E Epr. field E Epa. field E Ept. field E Epd.
  repeat match goal with H : str_bytes _ = str_bytes _ |- _ => apply str_bytes_inj in H end.
  apply print_u64_inj in Eg, Eu; [|done..]. apply u32_bytes_inj in Ev, Epa; [|done..].
  apply u64_bytes_inj in Er, Epr, Ept; [|done..]. apply to_hex_inj in Eh; [|by destruct Th|by destruct Th'].
  split_and!; try done.
  - destruct t, t'; cbn in *; congruence.
  - destruct (pc_binding c), (pc_binding c'); cbn in *; congruence.
  - destruct (pc_policy c), (pc_policy c'); cbn in *; congruence.
Qed.
