(* ===== verification/ActivationLive.v ===== *)
(** * Approved requests go live

    A run of the service over healthy stores: an approved request whose target is
    published, ready and not raced by another is applied, its target becomes active
    and the request ends as applied. *)

From Stdlib Require Import ZArith Lia Ascii String.
From stdpp Require Import base decidable list strings gmap numbers.
From S2P Require Import Prelude RustStd DiscordModel Resolution AutomationState AutomationPlan.
From S2P Require Import AutomationValidate RuleSet RuleSetSpec Readiness ApprovalBinding Activation.
From S2P Require Import ActivationStore ActivationService ActivationSpec ActivationStoreSpec ActivationSystem.
From S2P Require Import ActivationSafety.
Open Scope Z_scope.

Section live.
Context (sha256 : list Z → list Z).
Context (checked_add_signed : DateTime → Duration → option DateTime).
Context (try_seconds : Z → option Duration) (seconds : Z → Duration).
Context (hasher : Z → InteractionRuleSet → Result RuleSetHashError (list Z)).
Context (debug_finding : PolicyFinding → string) (display_apply_error : ApplyError → string).
Context (provider : ActivationTarget → Result ActivationEnvironmentError ActivationEnvironment).
Implicit Types (st : list (string * ActivationRequest)) (r : ActivationRequest).

Abbreviation run' := (run sha256 checked_add_signed try_seconds seconds hasher provider).
Abbreviation handle' := (handle sha256 checked_add_signed try_seconds seconds hasher provider).

Lemma run_bind {A B} clock n (p : Prog A) (f : A → Prog B) w :
  run' clock n (prog_bind p f) w = let '(n', (a, w')) := run' clock n p w in run' clock n' (f a) w'.
Proof.
  revert n w. induction p as [a|a k IH]; intros n w; [done|]. cbn [prog_bind run].
  destruct (handle' _ _ _ a w) as [x w']. apply IH.
Qed.

Lemma run_deadline {A} clock n (elapsed : A) (p : Prog A) w :
  run' clock n (with_deadline elapsed p) w = run' clock n p w.
Proof.
  revert n w. induction p as [a|a k IH]; intros n w; [done|]. cbn [with_deadline run].
  change (handle' (clock n) (clock n) false PollDeadline w) with (false, w). cbn [run].
  destruct (handle' _ _ _ a w) as [x w']. apply IH.
Qed.

(** The request is stored, and no other is being applied to its rule set. *)
Record holds (now : DateTime) st id r : Prop := {
  ho_ok : requests_ok sha256 try_seconds now st;
  ho_stored : bt_get st id = Some r;
  ho_free : unblocked st id r
}.

Lemma holds_later now now' st id r : now ≤ now' → holds now st id r → holds now' st id r.
Proof. intros Hle []. split; [by eapply requests_ok_later|done|done]. Qed.

Lemma holds_put now st id r r' : holds now st id r → good_step sha256 try_seconds now r r' →
  holds now (bt_insert id r' st) id r'.
Proof.
  intros [Hok Hl Hf] [Hr' He].
  assert (Hfree : unblocked st id r').
  { intros id' r2 Hl2 S2 [G K]. apply (Hf id' r2 Hl2 S2). split; by rewrite <- (ex_target _ _ He). }
  assert (Hstep : store_step sha256 try_seconds now st (bt_insert id r' st)).
  { apply store_put; [done| |done|by intros ?; rewrite Hl; intros [= <-]|done].
    rewrite (ex_id _ _ He). by eapply rs_ids. }
  split; [apply Hstep|by rewrite bt_insert_lookup, decide_True by first [apply Hok|done]|].
  intros id' r2. rewrite bt_insert_lookup by apply Hok. case_decide; [done|]. apply Hfree.
Qed.

(** ** The calls on such a request *)
Lemma get_run now st id r : holds now st id r → (expire_if_due now r).1 = false →
  ∃ st', store_get sha256 try_seconds now id st = (Ok (Some r), st') ∧ holds now st' id r.
Proof.
  intros H He. unfold store_get. rewrite (ho_stored _ _ _ _ H).
  destruct (expire_cases now r) as [(_ & _ & E)|[_ E]]; rewrite E in He |- *; [done|]. cbn.
  pose proof (rs_valid _ _ _ _ (ho_ok _ _ _ _ H) _ _ (ho_stored _ _ _ _ H)) as Hr.
  rewrite (valid_Ok _ _ _ _ Hr). eexists. split; [done|]. by eapply holds_put; [|apply good_refl].
Qed.

Definition begun (attempt : string) (until : DateTime) r : ActivationRequest :=
  with_attempt (Some attempt) (Some until) (with_state StApplying (with_attempt_no (ar_apply_attempt_no r + 1) r)).

Lemma claim_run now st id r attempt until : holds now st id r → ar_state r = StApproved →
  now < ar_expires_at r → awaits_link r = false → ar_apply_attempt_no r < u64_max →
  checked_add_signed now (seconds APPLY_LEASE_SECONDS) = Some until →
  ∃ st', store_claim_apply sha256 checked_add_signed try_seconds seconds now now id attempt APPLY_LEASE_SECONDS st =
           (Ok (Claimed (begun attempt until r)), st') ∧ holds now st' id (begun attempt until r).
Proof.
  intros H Hs Hnow Haw Hno Hadd. unfold store_claim_apply, lease_until. rewrite Hadd. cbn.
  rewrite (ho_stored _ _ _ _ H).
  pose proof (rs_valid _ _ _ _ (ho_ok _ _ _ _ H) _ _ (ho_stored _ _ _ _ H)) as Hr.
  pose proof (claim_apply_good sha256 try_seconds attempt now until r Hr) as G.
  assert (Hc : claim_apply_at attempt now until r = (Ok DecClaimed, begun attempt until r)).
  { unfold claim_apply_at. destruct (expire_cases now r) as [(_ & ? & _)|[_ ->]]; [lia|]. rewrite Haw, Hs.
    cbv [mbind Cmd_bind cmd_bind begin_attempt]. unfold u64_checked_add.
    destruct (ar_apply_attempt_no r + 1 <=? u64_max) eqn:E; [done|]. apply Z.leb_gt in E. lia. }
  rewrite Hc in G |- *. cbn [snd is_claimed] in *.
  assert (Hid : ar_id r = id) by (by eapply rs_ids; [apply H|apply H]).
  destruct (List.find _ _) as [blocking|] eqn:Hf.
  { exfalso. apply find_some in Hf as [Hin Hb]. unfold blocks in Hb.
    rewrite !andb_true_iff, negb_true_iff, String.eqb_neq, bool_decide_eq_true, Z.eqb_eq, String.eqb_eq in Hb.
    destruct Hb as [[[Hne Hsb] Hg] Hk]. apply list_elem_of_In, list_elem_of_fmap in Hin as ([id' r'] & -> & Hin).
    apply bt_get_elem in Hin; [|apply H]. cbn in *. destruct Hne. rewrite Hid.
    rewrite (rs_ids _ _ _ _ (ho_ok _ _ _ _ H) _ _ Hin). by eapply (ho_free _ _ _ _ H); [done..|split]. }
  rewrite (valid_Ok _ _ _ _ (proj1 G)). unfold put_back. cbn [from_decision].
  assert (Hid' : ar_id (begun attempt until r) = id) by done. rewrite Hid'. eexists. split; [done|].
  by eapply holds_put.
Qed.

Lemma update_exact now st id r step : requests_ok sha256 try_seconds now st → bt_get st id = Some r →
  (step r).1 = true → good_step sha256 try_seconds now r (step r).2 →
  update_if sha256 try_seconds id step st = (Ok true, bt_insert id (step r).2 st).
Proof.
  intros Hst Hl Hs G. unfold update_if. rewrite Hl. destruct (step r) as [[] r'] eqn:E; [|done].
  cbn in *. rewrite (valid_Ok _ _ _ _ (proj1 G)). unfold put_back.
  by rewrite (ex_id _ _ (proj2 G)), (rs_ids _ _ _ _ Hst _ _ Hl).
Qed.

Lemma update_run now st id r step : holds now st id r → (step r).1 = true →
  good_step sha256 try_seconds now r (step r).2 →
  ∃ st', update_if sha256 try_seconds id step st = (Ok true, st') ∧ holds now st' id (step r).2.
Proof.
  intros H Hs G. eexists. split; [eapply update_exact; [apply H|apply H|done|done]|by eapply holds_put].
Qed.

Lemma renew_run now st id r attempt until : holds now st id r → held_by attempt r = true →
  checked_add_signed now (seconds APPLY_LEASE_SECONDS) = Some until →
  ∃ st' r', store_renew_lease sha256 checked_add_signed try_seconds seconds now id attempt APPLY_LEASE_SECONDS st =
              (Ok true, st') ∧ holds now st' id r' ∧ held_by attempt r' = true.
Proof.
  intros H Hh Hadd. unfold store_renew_lease, lease_until. rewrite Hadd. cbn.
  pose proof (rs_valid _ _ _ _ (ho_ok _ _ _ _ H) _ _ (ho_stored _ _ _ _ H)) as Hr.
  destruct (update_run now st id r (renew_lease_at attempt until) H) as (st' & E & H').
  - unfold renew_lease_at. by rewrite Hh.
  - by apply renew_good.
  - exists st', (renew_lease_at attempt until r).2. split_and!; [done..|].
    unfold renew_lease_at. rewrite Hh. exact Hh.
Qed.

Lemma complete_run now st id r attempt by_ kind notices : holds now st id r → held_by attempt r = true →
  ∃ st' r', store_complete_applied sha256 try_seconds now id attempt by_ kind notices st = (Ok true, st') ∧
    bt_get st' id = Some r' ∧ ar_state r' = StApplied ∧ ar_completion r' = Some (mkCompletion now by_ kind notices).
Proof.
  intros H Hh. pose proof (rs_valid _ _ _ _ (ho_ok _ _ _ _ H) _ _ (ho_stored _ _ _ _ H)) as Hr.
  destruct (update_run now st id r (complete_at attempt (mkCompletion now by_ kind notices)) H) as (st' & E & H').
  - unfold complete_at. by rewrite Hh.
  - by apply complete_good.
  - exists st', (complete_at attempt (mkCompletion now by_ kind notices) r).2. split_and!; [done|apply H'|..];
      unfold complete_at; by rewrite Hh.
Qed.

(** ** Runs *)
Context (clock : nat → DateTime) (Hclock : ∀ n, clock n ≤ clock (S n)).
Context (Hlease : ∀ n, is_Some (checked_add_signed (clock n) (seconds APPLY_LEASE_SECONDS))).

(** The request ended as applied. *)
Definition applied_in (w : ActWorld) (id : string) : Prop :=
  ∃ r, bt_get (aw_requests w) id = Some r ∧ ar_state r = StApplied ∧ is_Some (ar_completion r).

(** A run from a claimed request. *)
Definition live_run (n : nat) (p : Prog (Result ApplyError ApplyOutcome)) (w : ActWorld) (id : string)
    (out : ApplyOutcome) (g : GuildId) (key : RuleSetKey) (after : option RuleSetVersionIdentity) : Prop :=
  ∃ n' w', run' clock n p w = (n', (Ok out, w')) ∧ applied_in w' id ∧
           observed_active (aw_rulesets w') g key = after.

Lemma run_complete n id r attempt by_ kind notices out w g key :
  holds (clock n) (aw_requests w) id r → held_by attempt r = true →
  live_run n (prog_try (λ e, e) (svc_complete id attempt by_ kind notices) (λ _, Done (Ok out))) w id out g key
    (observed_active (aw_rulesets w) g key).
Proof.
  intros H Hh. destruct (complete_run (clock n) _ id r attempt by_ kind notices H Hh) as (st' & r' & E & Hl & Hs & Hc).
  exists (S n), (mkActWorld st' (aw_rulesets w)). split_and!; [|exists r'; by rewrite Hc|done].
  unfold live_run, svc_complete, prog_try, perform. cbn [prog_bind run handle]. by rewrite E.
Qed.

(** A call on the rule set store that only reads. *)
Lemma run_get_version {A} n g key version (k : _ → Prog A) w :
  run' clock n (Call (CallGetVersion g key version) k) w =
  run' clock (S n) (k (Ok (find_version (aw_rulesets w) g key version))) w.
Proof. by destruct w. Qed.

Lemma run_active {A} n g key (k : _ → Prog A) w :
  run' clock n (Call (CallActive g key) k) w = run' clock (S n) (k (Ok (find_active (aw_rulesets w) g key))) w.
Proof. by destruct w. Qed.

Lemma run_load {A} n target (k : _ → Prog A) w :
  run' clock n (Call (CallLoadFresh target) k) w = run' clock (S n) (k (provider target)) w.
Proof. done. Qed.

Lemma run_renew n id r attempt w : holds (clock n) (aw_requests w) id r → held_by attempt r = true →
  ∃ st' r', holds (clock n) st' id r' ∧ held_by attempt r' = true ∧
    ∀ A (k : Result ActivationStoreError bool → Prog A),
      run' clock n (Call (CallRenewLease id attempt APPLY_LEASE_SECONDS) k) w =
      run' clock (S n) (k (Ok true)) (mkActWorld st' (aw_rulesets w)).
Proof.
  intros H Hh. destruct (Hlease n) as [until Hu].
  destruct (renew_run (clock n) _ id r attempt until H Hh Hu) as (st' & r' & E & H' & Hh').
  exists st', r'. split_and!; [done..|]. intros A k. cbn [run handle]. by rewrite E.
Qed.

Lemma clock_mono n m : (n ≤ m)%nat → clock n ≤ clock m.
Proof. induction 1 as [|m _ IH]; [done|]. etrans; [exact IH|apply Hclock]. Qed.

Lemma holds_at n m st id r : (n ≤ m)%nat → holds (clock n) st id r → holds (clock m) st id r.
Proof. intros Hle. apply holds_later. by apply clock_mono. Qed.

Lemma activate_published rulesets g key v artifact : find_version rulesets g key v = Some artifact →
  ∃ act, (activate g key v rulesets).1 = Ok act ∧
    observed_active (activate g key v rulesets).2 g key = Some (version_identity artifact).
Proof.
  unfold find_version, activate, observed_active, find_active. destruct (rulesets !! (g, key)) as [entry|] eqn:Hl; [|done].
  cbn. intros Hb. rewrite Hb. cbn. eexists. split; [done|]. rewrite lookup_insert_eq. cbn. by rewrite Hb.
Qed.

Section target.
Context (w : ActWorld) (Hwf : ruleset_store_wf hasher (aw_rulesets w)).
Context (target : ActivationTarget) (artifact : RuleSetVersion) (env : ActivationEnvironment).
Abbreviation g := (tg_guild_id target).
Abbreviation key := (tg_ruleset_key target).
Context (Hpub : find_version (aw_rulesets w) g key (tg_version target) = Some artifact).
Context (Hmatch : artifact_matches target artifact = true).
Context (Henv : provider target = Ok env) (Hready : ready_in hasher env artifact).

(** Whether the target is active already. *)
Definition target_active : bool :=
  bool_decide (observed_active (aw_rulesets w) g key = Some (target_identity target)).
Definition live_outcome : ApplyOutcome := if target_active then ApplyAlreadyActive else ApplyActivated.

(** An active version with the number of the target is the target. *)
Lemma active_number a : find_active (aw_rulesets w) g key = Some a → rv_version a = tg_version target → a = artifact.
Proof. intros Ha Hv. apply (active_is_published hasher) in Ha; [|done]. rewrite Hv, Hpub in Ha. congruence. Qed.

(** What preparing the activation finds. *)
Lemma run_prepare n : ∃ n', (n ≤ n')%nat ∧
  run' clock n (prepare_activation target) w =
    (n', (Ok (if target_active then PreparedAlreadyActive else PreparedReady env), w)).
Proof.
  unfold prepare_activation, prog_try, perform. cbn [prog_bind]. rewrite run_get_version, Hpub. cbn [prog_bind].
  rewrite Hmatch. cbn [negb]. rewrite run_active. pose proof (artifact_matches_identity _ _ Hmatch) as Hid.
  unfold target_active, observed_active. destruct (find_active (aw_rulesets w) g key) as [a|] eqn:Ha; cbn [fmap option_fmap option_map prog_bind].
  - destruct (rv_version a =? tg_version target) eqn:Hv.
    + apply Z.eqb_eq in Hv. rewrite (active_number a Ha Hv), Hid.
      rewrite bool_decide_eq_true_2 by (injection Hid; done). rewrite bool_decide_eq_true_2 by done.
      exists (S (S n)). split; [lia|done].
    + rewrite bool_decide_eq_false_2; [|intros [= E _]; rewrite E, Z.eqb_refl in Hv; done].
      rewrite run_load, Henv. exists (S (S (S n))). split; [lia|done].
  - rewrite run_load, Henv. exists (S (S (S n))). split; [lia|done].
Qed.

Lemma run_legacy n id r attempt by_ : holds (clock n) (aw_requests w) id r → held_by attempt r = true →
  live_run n (apply_legacy_claimed hasher debug_finding display_apply_error id attempt by_ target) w id
    live_outcome g key (Some (target_identity target)).
Proof.
  intros H Hh. pose proof (artifact_matches_identity _ _ Hmatch) as Hid. destruct Hready as [rt Hrt].
  destruct (run_prepare n) as (n1 & Hn1 & E1). unfold live_run, apply_legacy_claimed, or_release.
  rewrite run_bind, E1. unfold live_outcome. destruct target_active eqn:Ht.
  - unfold target_active in Ht. apply bool_decide_eq_true in Ht. rewrite <- Ht.
    apply run_complete with r; [by eapply holds_at|done].
  - destruct (run_renew n1 id r attempt w) as (st' & r' & H' & Hh' & E2); [by eapply holds_at|done|].
    unfold prog_try, perform. cbn [prog_bind]. rewrite E2. cbn [negb].
    unfold execute_activation, activate_if_ready_calls, prog_try, perform. cbn [prog_bind].
    rewrite run_get_version. cbn [aw_rulesets]. rewrite Hpub. cbn [prog_bind]. rewrite Hrt. cbn [prog_bind].
    destruct (activate_published _ _ _ _ _ Hpub) as (act & Ea & Eo). rewrite Hid in Eo.
    cbn [run handle aw_rulesets]. destruct (activate _ _ _ _) as [y rs']. cbn in Ea, Eo. subst y. cbn [on_rulesets fst snd prog_bind].
    rewrite <- Eo. apply (run_complete _ id r' attempt by_ _ _ _ (mkActWorld st' rs')); [|done].
    eapply holds_at; [|exact H']. lia.
Qed.

Context (c : ProductApprovalContextV1).
Context (Hbase : target_active = true ∨
  product_active_baseline_v1 (observed_active (aw_rulesets w) g key) = pc_baseline c).
Context (Hdrift : product_binding_drift sha256 g (pc_binding c) env = Ok None).
Context (Hhier : is_ok (check_role_hierarchy_v1 artifact (en_bindings env) (en_role_hierarchy env)) = true).

(** The guarded activation of the target from its baseline. *)
Lemma guarded_activates : target_active = false →
  ∃ act, (activate_guarded (guarded_request target (expected_active_ruleset (pc_baseline c))) (aw_rulesets w)).1 =
           Ok (Activated act) ∧
    observed_active (activate_guarded (guarded_request target (expected_active_ruleset (pc_baseline c)))
      (aw_rulesets w)).2 g key = Some (target_identity target).
Proof.
  intros Hna. destruct Hbase as [?|Hb]; [congruence|]. unfold target_active in Hna. apply bool_decide_eq_false in Hna.
  destruct (activate_guarded _ _) as [x rs'] eqn:E.
  pose proof (activate_guarded_contract hasher _ _ _ _ Hwf E) as Hc. unfold guarded_contract in Hc. cbn in Hc |- *.
  rewrite Hpub in Hc. cbn in Hc. rewrite (artifact_matches_identity _ _ Hmatch) in Hc.
  destruct x as [[act|act|o]|e].
  - exists act. split; [done|]. apply Hc.
  - destruct Hc as (_ & Ho & _). done.
  - destruct Hc as (_ & _ & _ & Ho & _). destruct Ho. rewrite <- Hb. by destruct (observed_active _ _ _) as [[]|].
  - destruct e; try done; [by destruct Hc|]. destruct Hc as [(i & [= <-] & Hi) _]. done.
Qed.

Lemma run_product n id r attempt by_ : holds (clock n) (aw_requests w) id r → held_by attempt r = true →
  live_run n (apply_product_claimed sha256 hasher debug_finding display_apply_error id attempt by_ target c) w id
    live_outcome g key (Some (target_identity target)).
Proof.
  intros H Hh. pose proof guarded_activates as Hga. destruct Hready as [rt Hrt]. apply is_ok_true in Hhier as Hh'. destruct Hh' as [hierarchy Hhi].
  assert (Hval : validate_product_target_v1 target artifact = Ok target)
    by (unfold validate_product_target_v1; by rewrite Hmatch).
  unfold live_run, apply_product_claimed, or_release, load_exact_target, prog_try, perform. cbn [prog_bind].
  rewrite run_get_version, Hpub. cbn [prog_bind ok_or mbind Result_bind]. rewrite Hval. cbn [map_err mbind Result_bind prog_bind].
  rewrite run_active. cbn [prog_bind].
  assert (Hassess : assess_product_target_v1 target c (version_identity <$> find_active (aw_rulesets w) g key) =
    TargetReady (mkTargetReady target (pc_binding c) target_active (expected_active_ruleset (pc_baseline c)))).
  { unfold assess_product_target_v1. fold (observed_active (aw_rulesets w) g key). fold target_active.
    destruct Hbase as [->|Hb]; [done|]. rewrite Hb, bool_decide_eq_true_2 by done. by rewrite andb_false_r. }
  rewrite Hassess. cbn [prog_bind]. rewrite run_load, Henv. cbn [prog_bind].
  unfold check_product_readiness_v1. cbn [tr_target tr_binding tr_target_is_active tr_expected_active].
  rewrite Hval, Hdrift, Hrt, Hhi. cbn [mbind Result_bind map_err pf_activation_notices pf_target_is_active pf_expected_active].
  unfold live_outcome. destruct target_active eqn:Ht.
  - pose proof Ht as Ho. unfold target_active in Ho. apply bool_decide_eq_true in Ho. rewrite <- Ho.
    apply run_complete with r; [|done]. eapply holds_at; [|exact H]. lia.
  - destruct (run_renew (S (S (S n))) id r attempt w) as (st' & r' & H2 & Hh2 & E2);
      [eapply holds_at; [|exact H]; lia|done|].
    unfold prog_try, perform. cbn [prog_bind]. rewrite E2. cbn [negb prog_bind].
    destruct (Hga eq_refl) as (act & Ea & Eo).
    cbn [run handle aw_rulesets]. destruct (activate_guarded _ _) as [y rs']. cbn in Ea, Eo. subst y.
    cbn [on_rulesets fst snd finish_guarded]. rewrite <- Eo.
    apply (run_complete _ id r' attempt by_ _ _ _ (mkActWorld st' rs')); [|done].
    eapply holds_at; [|exact H2]. lia.
Qed.
End target.

(** C8: A healthy run of [apply] takes an approved request live. Its clock goes
    forward, the request is not due, no other request is being applied to the rule
    set, the target is published with the approved hash and ready in the environment
    the provider loads; for a product request the bindings have not drifted, the bot
    can manage the roles, and the active version is the baseline or the target. Then
    the run answers that it activated the target, or that it was active; it is
    active, and the request has ended as applied. *)
Theorem approved_requests_go_live w id attempt by_ r artifact env :
  world_ok sha256 try_seconds hasher (clock 0) w →
  bt_get (aw_requests w) id = Some r → ar_state r = StApproved → clock 1 < ar_expires_at r →
  ar_apply_attempt_no r < u64_max → unblocked (aw_requests w) id r →
  let target := ar_target r in
  find_version (aw_rulesets w) (tg_guild_id target) (tg_ruleset_key target) (tg_version target) = Some artifact →
  artifact_matches target artifact = true → provider target = Ok env → ready_in hasher env artifact →
  match ar_approval_context r with
  | LegacyManual => True
  | ProductAuthoring c =>
      (target_active w target = true ∨
       product_active_baseline_v1 (observed_active (aw_rulesets w) (tg_guild_id target) (tg_ruleset_key target))
         = pc_baseline c) ∧
      product_binding_drift sha256 (tg_guild_id target) (pc_binding c) env = Ok None ∧
      is_ok (check_role_hierarchy_v1 artifact (en_bindings env) (en_role_hierarchy env)) = true
  end →
  live_run 0 (apply sha256 hasher debug_finding display_apply_error id attempt by_) w id
    (live_outcome w target) (tg_guild_id target) (tg_ruleset_key target) (Some (target_identity target)).
Proof.
  intros [Hst Hwf] Hl Hs Hexp Hno Hfree target Hpub Hm Henv Hready Hctx.
  assert (H0 : holds (clock 0) (aw_requests w) id r) by done. pose proof (Hclock 0) as H01.
  assert (Haw : awaits_link r = false) by (eapply approved_linked; [by eapply rs_valid|done]).
  assert (Hdue : ∀ n, (n ≤ 1)%nat → (expire_if_due (clock n) r).1 = false).
  { intros n Hn. pose proof (clock_mono n 1 Hn). destruct (expire_cases (clock n) r) as [(_ & ? & _)|[_ ->]]; [lia|done]. }
  destruct (get_run (clock 0) _ id r H0 (Hdue 0%nat ltac:(lia))) as (st1 & E1 & H1).
  apply (holds_at 0 1) in H1; [|lia]. destruct (Hlease 1) as [until Hu].
  destruct (claim_run (clock 1) st1 id r attempt until H1 Hs Hexp Haw Hno Hu) as (st2 & E2 & H2).
  apply (holds_at 1 2) in H2; [|lia].
  set (w2 := mkActWorld st2 (aw_rulesets w)). assert (Hh : held_by attempt (begun attempt until r) = true)
    by (apply held_by_spec; done).
  assert (Hrun : run' clock 0 (apply sha256 hasher debug_finding display_apply_error id attempt by_) w =
                 run' clock 2 (apply_claimed sha256 hasher debug_finding display_apply_error id attempt by_ (begun attempt until r)) w2).
  { unfold apply, load_request, prog_try, perform. cbn [prog_bind run handle]. rewrite E1.
    cbn [on_requests fst snd prog_bind ok_or aw_requests aw_rulesets]. rewrite Haw, Hs. cbn [prog_bind run handle aw_requests].
    rewrite E2. cbn [on_requests fst snd aw_rulesets apply_claim]. by rewrite run_deadline. }
  unfold live_run. rewrite Hrun. unfold apply_claimed. cbn [begun ar_approval_context with_attempt with_state with_attempt_no].
  destruct (ar_approval_context r) as [|c].
  - by apply (run_legacy w2 Hwf target artifact env Hpub Hm Henv Hready 2 id (begun attempt until r)).
  - destruct Hctx as (Hb & Hd & Hhi).
    by apply (run_product w2 Hwf target artifact env Hpub Hm Henv Hready c Hb Hd Hhi 2 id (begun attempt until r)).
Qed.

(** ** Recovery *)
Section recovery.
Context (debug_store_error : RuleSetStoreError → string) (display_activation_error : ActivationStoreError → string).
Context (rulesets : gmap (GuildId * RuleSetKey) GuildRuleSet) (Hwf : ruleset_store_wf hasher rulesets).

(** The request's target is the active version of its rule set. *)
Definition target_live (r : ActivationRequest) : bool :=
  bool_decide (observed_active rulesets (tg_guild_id (ar_target r)) (tg_ruleset_key (ar_target r)) =
               Some (target_identity (ar_target r))).

Definition recovered_request (now : DateTime) (r : ActivationRequest) : ActivationRequest :=
  with_completion (Some (mkCompletion now (ar_requester r) KindCrashRecovered None)) (end_attempt StApplied None r).

Lemma bookkeep_exact now st r : requests_ok sha256 try_seconds now st → bt_get st (ar_id r) = Some r →
  ar_state r = StApplying →
  store_bookkeep_applied sha256 try_seconds now (ar_id r) (ar_requester r) st =
    (Ok true, bt_insert (ar_id r) (recovered_request now r) st).
Proof.
  intros Hst Hl Hs. unfold store_bookkeep_applied.
  assert (Hb : bookkeep_at (mkCompletion now (ar_requester r) KindCrashRecovered None) r = (true, recovered_request now r))
    by (unfold bookkeep_at; by rewrite bool_decide_eq_true_2).
  rewrite (update_exact now st (ar_id r) r); rewrite ?Hb; try done.
  apply complete_step_good; try done. by eapply rs_valid.
Qed.

Lemma run_recover_one n r st : requests_ok sha256 try_seconds (clock (S (S n))) st → bt_get st (ar_id r) = Some r →
  ar_state r = StApplying →
  ∃ n' d, run' clock n (recover_one debug_store_error display_activation_error r) (mkActWorld st rulesets) =
    (n', (d, mkActWorld (if target_live r then bt_insert (ar_id r) (recovered_request (clock (S (S n))) r) st else st)
              rulesets)) ∧
    re_disposition (recovery_entry r d) = (if target_live r then Recovered else KeptApplying) ∧ (n ≤ n')%nat ∧
    (target_live r = true → (S (S n) ≤ n')%nat).
Proof.
  intros Hst Hl Hs. unfold recover_one, prog_try, perform, target_live, observed_active. cbn [prog_bind].
  rewrite run_get_version. cbn [aw_rulesets].
  set (g := tg_guild_id (ar_target r)). set (key := tg_ruleset_key (ar_target r)).
  assert (Hpub : version_identity <$> find_active rulesets g key = Some (target_identity (ar_target r)) →
    ∃ a, find_active rulesets g key = Some a ∧ version_identity a = target_identity (ar_target r) ∧
         find_version rulesets g key (tg_version (ar_target r)) = Some a).
  { destruct (find_active rulesets g key) as [a|] eqn:Ha; [|done]. intros [= Hv Hh]. exists a.
    split; [done|]. split; [by unfold version_identity, target_identity; rewrite Hv, Hh|].
    rewrite <- Hv. by apply (active_is_published hasher). }
  destruct (bool_decide (version_identity <$> _ = _)) eqn:Hlive.
  - apply bool_decide_eq_true in Hlive. destruct (Hpub Hlive) as (a & Ha & Hid & ->). cbn [prog_bind].
    rewrite bool_decide_eq_true_2 by (injection Hid; done). cbn [negb prog_bind].
    rewrite run_active. cbn [aw_rulesets]. rewrite Ha. cbn [prog_bind]. rewrite bool_decide_eq_true_2 by done.
    cbn [negb prog_bind run handle aw_requests]. rewrite (bookkeep_exact (clock (S (S n)))) by done.
    eexists _, (Ok true). split_and!; [done|done|lia|intros _; lia].
  - apply bool_decide_eq_false in Hlive.
    assert (Hkeep : ∀ d, d ≠ Ok true → re_disposition (recovery_entry r d) = KeptApplying) by (intros [[]|] ?; done).
    destruct (find_version _ _ _ _) as [artifact|]; cbn [prog_bind]; [|eexists _, _; split_and!; [done|by apply Hkeep|lia|done]].
    destruct (bool_decide (rv_content_hash artifact = _)); cbn [negb prog_bind];
      [|eexists _, _; split_and!; [done|by apply Hkeep|lia|done]].
    rewrite run_active. cbn [aw_rulesets]. fold g key. destruct (find_active rulesets g key) as [a|]; cbn [prog_bind];
      [|eexists _, _; split_and!; [done|by apply Hkeep|lia|done]].
    rewrite bool_decide_eq_false_2 by (intros E; apply Hlive; cbn; by rewrite E). cbn [negb].
    eexists _, _; split_and!; [done|by apply Hkeep|lia|done].
Qed.

Definition recovery_report (l : list ActivationRequest) : list (string * RecoveryDisposition) :=
  map (λ r, (ar_id r, if target_live r then Recovered else KeptApplying)) l.

(** What recovery made of a request of the list. *)
Definition settled st r : Prop :=
  if target_live r then ∃ now, bt_get st (ar_id r) = Some (recovered_request now r)
  else bt_get st (ar_id r) = Some r.

Lemma run_recover_all n l entries st : requests_ok sha256 try_seconds (clock n) st → NoDup (map ar_id l) →
  (∀ r, r ∈ l → bt_get st (ar_id r) = Some r ∧ ar_state r = StApplying) →
  ∃ n' report st',
    run' clock n (recover_all debug_store_error display_activation_error l entries) (mkActWorld st rulesets) =
      (n', (Ok report, mkActWorld st' rulesets)) ∧
    map (λ e, (re_request_id e, re_disposition e)) report =
      map (λ e, (re_request_id e, re_disposition e)) entries ++ recovery_report l ∧
    (∀ r, r ∈ l → settled st' r) ∧ (∀ id, id ∉ map ar_id l → bt_get st' id = bt_get st id).
Proof.
  revert n entries st. induction l as [|r l IH]; intros n entries st Hst Hnd Hall.
  { exists n, entries, st. split_and!; [done|by rewrite app_nil_r|by intros r ?%not_elem_of_nil|done]. }
  inversion_clear Hnd as [|?? Hnew Hnd']. destruct (Hall r) as [Hl Hs]; [left|].
  assert (Hst2 : requests_ok sha256 try_seconds (clock (S (S n))) st)
    by (eapply requests_ok_later; [|exact Hst]; apply clock_mono; lia).
  destruct (run_recover_one n r st Hst2 Hl Hs) as (n1 & d & E1 & Hd & Hn1 & Hn1').
  set (st1 := if target_live r then _ else st) in E1.
  assert (Hother : ∀ id, id ≠ ar_id r → bt_get st1 id = bt_get st id).
  { intros id Hne. unfold st1. destruct (target_live r); [|done]. rewrite bt_insert_lookup by apply Hst.
    by rewrite decide_False. }
  assert (Hset : settled st1 r).
  { unfold settled, st1. destruct (target_live r); [|done]. eexists. rewrite bt_insert_lookup by apply Hst.
    by rewrite decide_True. }
  assert (Hst1 : requests_ok sha256 try_seconds (clock n1) st1).
  { unfold st1. destruct (target_live r); [|eapply requests_ok_later; [|exact Hst]; by apply clock_mono].
    eapply requests_ok_later; [apply clock_mono, Hn1'; done|].
    eapply (store_transition sha256 try_seconds _ st (ar_id r) r); [done..| |by intros ?].
    apply complete_step_good; [by eapply rs_valid|done|done]. }
  cbn [recover_all]. rewrite run_bind, E1.
  destruct (IH n1 (entries ++ [recovery_entry r d]) st1 Hst1 Hnd') as (n' & report & st' & E2 & Hrep & Hin & Hout).
  { intros r' Hr'. destruct (Hall r') as [Hl' Hs']; [by right|]. split; [|done]. rewrite Hother; [done|].
    intros Eid. apply Hnew. rewrite <- Eid. by apply list_elem_of_fmap_2. }
  exists n', report, st'. split_and!; [done| | |].
  - rewrite Hrep, map_app, <- app_assoc. cbn in Hd |- *. by rewrite Hd.
  - intros r' [->|Hr']%elem_of_cons; [|by apply Hin]. unfold settled in *. by rewrite (Hout _ Hnew).
  - intros id Hid. cbn in Hid. rewrite not_elem_of_cons in Hid. destruct Hid. rewrite Hout, Hother by done. done.
Qed.

Lemma filtered_ids now st p : requests_ok sha256 try_seconds now st → NoDup (map ar_id (List.filter p st.*2)).
Proof.
  intros Hst. assert (Hids : map ar_id st.*2 = st.*1).
  { rewrite <- list_fmap_compose. apply list_fmap_ext. intros i [id r] Hi. cbn. eapply rs_ids; [exact Hst|].
    apply bt_get_elem; [apply Hst|]. by eapply list_elem_of_lookup_2. }
  pose proof (bt_sorted_NoDup _ (rs_sorted _ _ _ _ Hst)) as Hnd. rewrite <- Hids in Hnd. revert Hnd.
  generalize (st.*2). clear. intros l. induction l as [|r l IH]; cbn; [done|]. inversion_clear 1 as [|?? Hn Hnd'].
  destruct (p r); [|by apply IH]. cbn. constructor; [|by apply IH].
  intros (r' & E & Hr')%list_elem_of_fmap. apply Hn, list_elem_of_fmap. exists r'. split; [done|].
  apply list_elem_of_In in Hr'. apply filter_In in Hr' as [? _]. by apply list_elem_of_In.
Qed.

(** C31: Recovery after a crash settles the requests that were being applied: those
    whose target is the active version end as applied, recorded as recovered, and
    every other request is left as it is. The report names them in order. *)
Theorem recovery_settles_applying g st :
  requests_ok sha256 try_seconds (clock 0) st →
  let applying := List.filter (λ r, (tg_guild_id (ar_target r) =? g) && bool_decide (ar_state r = StApplying)) st.*2 in
  ∃ n' report st',
    run' clock 0 (recover_applying debug_store_error display_activation_error g) (mkActWorld st rulesets) =
      (n', (Ok report, mkActWorld st' rulesets)) ∧
    map (λ e, (re_request_id e, re_disposition e)) report = recovery_report applying ∧
    ∀ id r, bt_get st id = Some r →
      if (tg_guild_id (ar_target r) =? g) && bool_decide (ar_state r = StApplying) && target_live r
      then ∃ now, bt_get st' id = Some (recovered_request now r)
      else bt_get st' id = Some r.
Proof.
  intros Hst applying.
  assert (Hall : ∀ r, r ∈ applying → bt_get st (ar_id r) = Some r ∧ ar_state r = StApplying).
  { intros r Hr. unfold applying in Hr. apply list_elem_of_In, filter_In in Hr as [Hr Hs].
    apply andb_true_iff in Hs as [_ Hs%bool_decide_eq_true]. split; [|done].
    apply list_elem_of_In, list_elem_of_fmap in Hr as ([id r'] & -> & Hin). apply bt_get_elem in Hin; [|apply Hst].
    cbn. by rewrite (rs_ids _ _ _ _ Hst _ _ Hin). }
  assert (Hnd : NoDup (map ar_id applying)) by (eapply filtered_ids, Hst).
  unfold recover_applying, prog_try, perform. cbn [prog_bind run handle aw_requests].
  rewrite (store_list_applying_run _ _ (clock 0)) by done. fold applying. cbn [on_requests fst snd aw_rulesets].
  destruct (run_recover_all 1 applying [] st) as (n' & report & st' & E & Hrep & Hin & Hout); try done.
  { eapply requests_ok_later; [|exact Hst]. apply Hclock. }
  exists n', report, st'. split_and!; [done|done|]. intros id r Hl.
  pose proof (rs_ids _ _ _ _ Hst _ _ Hl) as <-.
  destruct ((_ =? g) && bool_decide (ar_state r = StApplying)) eqn:Happ; cbn [andb].
  - apply Hin. unfold applying. apply list_elem_of_In, filter_In. split; [|done].
    apply bt_get_elem in Hl; [|apply Hst]. by apply list_elem_of_In, (list_elem_of_fmap_2 snd _ _ Hl).
  - rewrite Hout; [done|]. intros (r' & Eid & Hr')%list_elem_of_fmap. destruct (Hall r' Hr') as [Hl' _].
    rewrite <- Eid, Hl in Hl'. injection Hl' as <-. unfold applying in Hr'.
    apply list_elem_of_In, filter_In in Hr' as [_ Hr']. congruence.
Qed.
End recovery.
End live.
