(* ===== verification/ActivationExamples.v ===== *)
(** * A sample activation

    The study rooms of [DispatchExamples.v] are activated through a product request:
    published, requested, linked, approved and applied. The theorems on digests, on
    the activation system and on going live apply to this run. *)

From Stdlib Require Import ZArith Lia Ascii String.
From stdpp Require Import base decidable list strings gmap numbers relations.
From S2P Require Import Prelude RustStd DiscordModel Resolution AutomationState AutomationPlan.
From S2P Require Import AutomationValidate AutomationExamples RuleSet RuleSetSpec Readiness DispatchExamples.
From S2P Require Import ApprovalBinding Activation ActivationStore ActivationService ActivationSpec.
From S2P Require Import ActivationStoreSpec ActivationSystem ActivationSafety ActivationLive.
Open Scope string_scope.
Open Scope Z_scope.

(** ** The third-party functions *)
Definition sample_sha (x : list Z) : list Z := replicate 32 (foldl Z.add 0 x mod 256).
Definition sample_add (t d : Z) : option Z := if t + d <=? i64_max then Some (t + d) else None.
Definition sample_try_seconds (s : Z) : option Z := if s * 1000000000 <=? i64_max then Some (s * 1000000000) else None.
Definition sample_seconds (s : Z) : Z := s * 1000000000.

Lemma sample_sha_bytes : sha_bytes sample_sha.
Proof.
  intros x. unfold sample_sha. split; [apply length_replicate|]. apply Forall_replicate.
  unfold is_byte. pose proof (Z.mod_pos_bound (foldl Z.add 0 x) 256). lia.
Qed.

Definition sample_bindings : list ResolvedApprovalBinding := [BindingChannel "hub" 700; BindingRole "member" 800].

Lemma approval_fingerprint_commits_witness :
  ∃ fp, approval_binding_fingerprint_v1 sample_sha 7 3 sample_bindings = Ok fp ∧
        (7 = 7 ∧ 3 = 3 ∧ sample_bindings = sample_bindings ∨
         sha_collision sample_sha (frames (approval_binding_fields 7 3 sample_bindings))
           (frames (approval_binding_fields 7 3 sample_bindings))).
Proof.
  eexists. split; [vm_compute; reflexivity|].
  refine (approval_fingerprint_commits sample_sha 7 7 3 3 sample_bindings sample_bindings _ sample_sha_bytes
    _ _ _ _ _ _ _ _); try (unfold u64_valid, u64_max; lia);
    try (repeat constructor; unfold u64_valid, u64_max; cbn; lia); vm_compute; reflexivity.
Defined.

(** ** The request *)
Definition room_target : ActivationTarget := mkTarget 7 "study" 1 (replicate 32 3).
Definition hex64 (c : string) : string := String.concat EmptyString (replicate 64 c).

Definition room_context (digest : string) : ProductApprovalContextV1 :=
  mkProductContext (hex64 "a") (hex64 "b") (hex64 "c") digest
    (mkBindingContext 1 [] (match approval_binding_fingerprint_v1 sample_sha 7 1 [] with Ok fp => fp | Err _ => EmptyString end))
    BaselineAbsent
    (mkPolicyBinding 1 1 3600 (approval_policy_digest_v1 sample_sha 1 1 3600)).

Definition room_digest : string :=
  product_approval_context_digest_v1 sample_sha "req-1" room_target 5 (room_context EmptyString).

Definition room_product : CreateProductActivationRequest :=
  mkCreateProduct "req-1" room_target 5 (room_context room_digest).

Lemma room_target_ok : target_ok room_target.
Proof.
  split_and!; [unfold u64_valid, u64_max; cbn; lia|vm_compute; reflexivity|unfold u32_valid, u32_max; cbn; lia|].
  split; [done|]. apply Forall_replicate. unfold is_byte. lia.
Qed.

Lemma room_context_ok d : context_ok (room_context d).
Proof.
  refine (conj _ (conj _ (conj _ (conj _ (conj _ (conj _ (conj _ (conj _ (conj _ (conj _ _))))))))));
    first [constructor; fail|split; vm_compute; discriminate|vm_compute; exact eq_refl].
Qed.

Lemma approval_context_digest_commits_witness :
  activation_hash_parse room_digest = Ok room_digest ∧
  (pc_binding (room_context EmptyString) = pc_binding (room_context room_digest) ∨
   sha_collision sample_sha (frames (product_context_fields "req-1" room_target 5 (room_context EmptyString)))
     (frames (product_context_fields "req-1" room_target 5 (room_context room_digest)))).
Proof.
  assert (Hid : short "req-1") by (vm_compute; reflexivity).
  assert (Hu : u64_valid 5) by (unfold u64_valid, u64_max; lia).
  destruct (approval_context_digest_commits sample_sha "req-1" "req-1" room_target room_target 5 5
    (room_context EmptyString) (room_context room_digest) sample_sha_bytes Hid Hid room_target_ok room_target_ok
    Hu Hu (room_context_ok _) (room_context_ok _)) as [Hp Hd].
  split; [exact Hp|]. destruct (Hd eq_refl) as [(_ & _ & _ & _ & _ & _ & Hb & _)|Hc]; [left; exact Hb|right; exact Hc].
Defined.

(** ** The run *)
Definition room_env : ActivationEnvironment :=
  mkEnvironment (Some 1) no_bindings bot_capabilities ∅ (Some sample_hierarchy).
Definition sample_provider (target : ActivationTarget) : Result ActivationEnvironmentError ActivationEnvironment :=
  if tg_guild_id target =? 7 then Ok room_env else Err (EnvironmentLoad "unknown guild").
Definition sample_provides (target : ActivationTarget) (env : ActivationEnvironment) : Prop :=
  sample_provider target = Ok env.

Abbreviation sample_step := (sys_step sample_sha sample_add sample_try_seconds sample_seconds sample_hash
  (λ _, "finding") (λ _, "error") (λ _, "error") (λ _, "error") sample_provides forward).
Abbreviation sample_reachable := (sys_reachable sample_sha sample_add sample_try_seconds sample_seconds sample_hash
  (λ _, "finding") (λ _, "error") (λ _, "error") (λ _, "error") sample_provides forward).

(** The first calls of a program, one after the other. *)
Fixpoint advance (n : nat) (p : Prog unit) (w : ActWorld) : Prog unit * ActWorld :=
  match n, p with
  | S n, Call a k =>
      let '(x, w') := handle sample_sha sample_add sample_try_seconds sample_seconds sample_hash sample_provider
                        100 100 false a w in
      advance n (k x) w'
  | _, _ => (p, w)
  end.

Lemma advance_steps n p w ts :
  rtc sample_step (mkSystem w 100 (p :: ts)) (mkSystem (advance n p w).2 100 ((advance n p w).1 :: ts)).
Proof.
  revert p w. induction n as [|n IH]; intros p w; [apply rtc_refl|]. destruct p as [u|a k]; [apply rtc_refl|].
  cbn [advance]. destruct (handle _ _ _ _ _ _ _ _ _ a w) as [x w'] eqn:E. eapply rtc_l; [|apply IH].
  apply (SysCall _ _ _ _ _ _ _ _ _ _ _ w 100 [] a k ts 100 100); [unfold forward; lia..|].
  by eapply AnsweredNormally; [|exact E].
Qed.

Lemma advance_reachable n p w ts : sample_reachable (mkSystem w 100 (p :: ts)) →
  sample_reachable (mkSystem (advance n p w).2 100 ((advance n p w).1 :: ts)).
Proof.
  intros H. pose proof (advance_steps n p w ts) as Hs. revert H. generalize (mkSystem w 100 (p :: ts)), Hs.
  clear. intros s. induction 1 as [s|s1 s2 s3 Hstep _ IH]; [done|]. intros H. apply IH. by eapply SysNext.
Qed.

(** A started program, run for [n] calls and then left. *)
Lemma start_reachable n p w : sample_reachable (mkSystem w 100 []) →
  started sample_sha sample_hash (λ _, "finding") (λ _, "error") (λ _, "error") (λ _, "error") p →
  sample_reachable (mkSystem (advance n p w).2 100 []).
Proof.
  intros H Hp. eapply SysNext; [apply advance_reachable; eapply SysNext; [exact H|by apply SysStart]|].
  apply (SysStop _ _ _ _ _ _ _ _ _ _ _ (advance n p w).2 100 [] (advance n p w).1 []).
Qed.

Definition call (a : Action) (w : ActWorld) : ActWorld := (advance 1 (forget (perform a)) w).2.

Definition room_link : LinkProductActivation := mkLink (hex64 "a") (hex64 "b") room_digest.

(** Published, requested, linked and approved. *)
Definition approved_world : ActWorld :=
  call (CallApproveBound "req-1" 9 (hex64 "c"))
    (call (CallLinkProduct "req-1" room_link)
       (call (CallCreateProduct room_product)
          (call (CallPublish room_request) (mkActWorld [] ∅)))).

Definition room_apply : Prog unit :=
  forget (apply sample_sha sample_hash (λ _, "finding") (λ _, "error") "req-1" "attempt-1" 9).

(** Up to the guarded activation, and one call further. *)
Definition before_move : Prog unit * ActWorld := advance 11 room_apply approved_world.
Definition after_move : Prog unit * ActWorld := advance 1 before_move.1 before_move.2.

Lemma approved_reachable : sample_reachable (mkSystem approved_world 100 []).
Proof.
  unfold approved_world, call. repeat (apply start_reachable; [|by apply StartedCall]). apply SysInitial.
Qed.

Definition before_sys : System := mkSystem before_move.2 100 [before_move.1].
Definition after_sys : System := mkSystem after_move.2 100 [after_move.1].

Lemma before_reachable : sample_reachable before_sys.
Proof.
  apply advance_reachable. eapply SysNext; [apply approved_reachable|]. apply SysStart, StartedApply.
Qed.

Lemma move_step : sample_step before_sys after_sys.
Proof.
  unfold before_sys, after_sys, after_move. destruct before_move as [p w] eqn:E. cbn [fst snd]. destruct p as [u|a k].
  { exfalso. apply (f_equal (λ x, match x.1 with Done _ => true | Call _ _ => false end)) in E.
    vm_compute in E. discriminate E. }
  cbn [advance]. destruct (handle _ _ _ _ _ _ _ _ _ a w) as [x w'] eqn:Eh. cbn [fst snd].
  apply (SysCall _ _ _ _ _ _ _ _ _ _ _ w 100 [] a k [] 100 100); [unfold forward; lia..|].
  by eapply AnsweredNormally; [|exact Eh].
Qed.

Lemma before_observed : observed_active (aw_rulesets (sy_world before_sys)) 7 "study" = None.
Proof. vm_compute. reflexivity. Qed.
Lemma after_observed :
  observed_active (aw_rulesets (sy_world after_sys)) 7 "study" = Some (target_identity room_target).
Proof. vm_compute. reflexivity. Qed.
Lemma observed_differ :
  observed_active (aw_rulesets (sy_world after_sys)) 7 "study" ≠
  observed_active (aw_rulesets (sy_world before_sys)) 7 "study".
Proof. rewrite before_observed, after_observed. discriminate. Qed.

Lemma activations_are_approved_witness :
  behind_move sample_sha sample_hash sample_provides (sy_world before_sys) 7 "study"
    (observed_active (aw_rulesets (sy_world before_sys)) 7 "study")
    (observed_active (aw_rulesets (sy_world after_sys)) 7 "study").
Proof.
  exact (activations_are_approved sample_sha sample_add sample_try_seconds sample_seconds sample_hash
    (λ _, "finding") (λ _, "error") (λ _, "error") (λ _, "error") sample_provides
    before_sys after_sys 7 "study" before_reachable move_step observed_differ).
Defined.

(** The stored request before it is applied. *)
Definition room_stored : ActivationRequest :=
  match bt_get (aw_requests approved_world) "req-1" with
  | Some r => r
  | None => new_request "req-1" room_target 5 1 LegacyManual LinkNotRequired None 0 0
  end.

Lemma room_stored_found : bt_get (aw_requests approved_world) "req-1" = Some room_stored.
Proof. vm_compute. reflexivity. Qed.

(** Before it is approved, the request is pending and linked. *)
Definition linked_world : ActWorld :=
  call (CallLinkProduct "req-1" room_link)
    (call (CallCreateProduct room_product) (call (CallPublish room_request) (mkActWorld [] ∅))).

Lemma linked_reachable : sample_reachable (mkSystem linked_world 100 []).
Proof. unfold linked_world, call. repeat (apply start_reachable; [|by apply StartedCall]). apply SysInitial. Qed.

Definition room_pending : ActivationRequest :=
  match bt_get (aw_requests linked_world) "req-1" with
  | Some r => r
  | None => new_request "req-1" room_target 5 1 LegacyManual LinkNotRequired None 0 0
  end.

Lemma activation_requests_stay_valid_witness :
  ar_id room_pending = "req-1" ∧ validate_request sample_sha sample_try_seconds room_pending = Ok tt ∧
  ∃ m, (store_get sample_sha sample_try_seconds 101 "req-1"
          (store_reject sample_sha sample_try_seconds 99 "req-1" 9 "late" (aw_requests linked_world)).2).1
       = Err (InvalidRequest m).
Proof.
  assert (Hl : bt_get (aw_requests linked_world) "req-1" = Some room_pending) by (vm_compute; reflexivity).
  destruct (activation_requests_stay_valid sample_sha sample_add sample_try_seconds sample_seconds sample_hash
    (λ _, "finding") (λ _, "error") (λ _, "error") (λ _, "error") sample_provides
    (mkSystem linked_world 100 []) linked_reachable) as (Hv & _ & _ & Hb).
  destruct (Hv "req-1" room_pending Hl) as [Hi Hok]. refine (conj Hi (conj Hok _)).
  apply (Hb "req-1" room_pending 99 9 "late" 101 Hl); vm_compute; reflexivity.
Defined.

Definition approved_sys : System := mkSystem approved_world 100 [].

Lemma apply_steps : rtc sample_step approved_sys before_sys.
Proof. eapply rtc_l; [apply SysStart, StartedApply|]. apply advance_steps. Qed.

Lemma activation_decisions_are_permanent_witness :
  ∃ r', bt_get (aw_requests (sy_world before_sys)) "req-1" = Some r' ∧ extends room_stored r'.
Proof.
  exact (activation_decisions_are_permanent sample_sha sample_add sample_try_seconds sample_seconds sample_hash
    (λ _, "finding") (λ _, "error") (λ _, "error") (λ _, "error") sample_provides
    approved_sys before_sys "req-1" room_stored approved_reachable apply_steps room_stored_found).
Defined.

Lemma single_unblocked sha try now st id r : requests_ok sha try now st → st.*1 = [id] → unblocked st id r.
Proof.
  intros Hst Hk id' r' Hl _ _. apply bt_get_elem in Hl; [|apply Hst].
  apply (list_elem_of_fmap_2 fst) in Hl. rewrite Hk in Hl. by apply list_elem_of_singleton in Hl.
Qed.

Lemma approved_requests_go_live_witness :
  live_run sample_sha sample_add sample_try_seconds sample_seconds sample_hash sample_provider (λ _, 100) 0
    (apply sample_sha sample_hash (λ _, "finding") (λ _, "error") "req-1" "attempt-1" 9) approved_world "req-1"
    (live_outcome approved_world (ar_target room_stored)) (tg_guild_id (ar_target room_stored))
    (tg_ruleset_key (ar_target room_stored)) (Some (target_identity (ar_target room_stored))).
Proof.
  refine (approved_requests_go_live sample_sha sample_add sample_try_seconds sample_seconds sample_hash
    (λ _, "finding") (λ _, "error") sample_provider (λ _, 100) _ _ approved_world "req-1" "attempt-1" 9 room_stored
    room_version room_env _ room_stored_found _ _ _ _ _ _ _ _ _).
  - intros n. lia.
  - intros n. eexists. vm_compute. reflexivity.
  - exact (so_world _ _ _ _ _ (reachable_ok _ _ _ _ _ _ _ _ _ _ _ approved_reachable)).
  - vm_compute. reflexivity.
  - vm_compute. reflexivity.
  - vm_compute. reflexivity.
  - eapply single_unblocked; [|vm_compute; reflexivity].
    exact (proj1 (so_world _ _ _ _ _ (reachable_ok _ _ _ _ _ _ _ _ _ _ _ approved_reachable))).
  - vm_compute. reflexivity.
  - vm_compute. reflexivity.
  - vm_compute. reflexivity.
  - apply is_ok_true. vm_compute. reflexivity.
  - vm_compute. split; [right|split]; reflexivity.
Defined.

(** The process stops after the guarded activation; the request is left applying. *)
Definition crashed_world : ActWorld := sy_world after_sys.

Definition crashed_request : ActivationRequest :=
  match bt_get (aw_requests crashed_world) "req-1" with Some r => r | None => room_stored end.

Lemma after_reachable : sample_reachable after_sys.
Proof. exact (SysNext _ _ _ _ _ _ _ _ _ _ _ _ _ before_reachable move_step). Qed.

Lemma crashed_ok : world_ok sample_sha sample_try_seconds sample_hash 100 crashed_world.
Proof. exact (so_world _ _ _ _ _ (reachable_ok _ _ _ _ _ _ _ _ _ _ _ after_reachable)). Qed.

Lemma recovery_settles_applying_witness :
  ∃ n' report st' now,
    run sample_sha sample_add sample_try_seconds sample_seconds sample_hash sample_provider (λ _, 100) 0
      (recover_applying (λ _, "error") (λ _, "error") 7)
      (mkActWorld (aw_requests crashed_world) (aw_rulesets crashed_world)) =
      (n', (Ok report, mkActWorld st' (aw_rulesets crashed_world))) ∧
    map (λ e, (re_request_id e, re_disposition e)) report = [("req-1", Recovered)] ∧
    bt_get st' "req-1" = Some (recovered_request now crashed_request).
Proof.
  destruct crashed_ok as [Hst Hwf].
  destruct (recovery_settles_applying sample_sha sample_add sample_try_seconds sample_seconds sample_hash
    sample_provider (λ _, 100) (λ n, Z.le_refl 100) (λ _, "error") (λ _, "error") (aw_rulesets crashed_world) Hwf 7
    (aw_requests crashed_world) Hst) as (n' & report & st' & E & Hrep & Hreq).
  assert (Hl : bt_get (aw_requests crashed_world) "req-1" = Some crashed_request) by (vm_compute; reflexivity).
  pose proof (Hreq _ _ Hl) as Hr.
  assert (Hc : (tg_guild_id (ar_target crashed_request) =? 7) && bool_decide (ar_state crashed_request = StApplying)
            && target_live (aw_rulesets crashed_world) crashed_request = true) by (vm_compute; reflexivity).
  rewrite Hc in Hr. destruct Hr as [now Hr]. exists n', report, st', now.
  refine (conj _ (conj _ Hr)); [exact E|]. etransitivity; [exact Hrep|]. vm_compute. reflexivity.
Defined.
