(* ===== verification/SpecModel.v ===== *)
(** * Automation specs

    Crate [automation-spec], [model.rs]: the versioned document in which an automation
    is authored, and its lowering to the interaction rules of [automation-state].
    Every workflow and action has an id of its own; references say whether they name a
    bound resource, one the workflow creates, or one of the instance at hand. *)

From Stdlib Require Import ZArith Lia Ascii String.
From stdpp Require Import base decidable list strings numbers.
From S2P Require Import Prelude RustStd RustText DiscordModel Instance AutomationState.
Open Scope string_scope.
Open Scope Z_scope.

Definition AUTOMATION_SPEC_SCHEMA_VERSION_V1 : Z := 1.
Definition AUTOMATION_SPEC_KIND_V1 : string := "starring.automation-spec.v1".

(** ** Triggers and conditions *)
Inductive TriggerV1 :=
| ButtonClickV1 (trigger_id : string)
| ModalSubmitV1 (modal_id : string)
| InstanceActionV1 (action_id : string).

#[export] Instance TriggerV1_eq_dec : EqDecision TriggerV1.
Proof. solve_decision. Defined.

#[warnings="-register-all"]
Inductive ConditionExprV1 :=
| AlwaysV1
| InputNonEmptyV1 (input_id : string)
| InputEqualsV1 (input_id value : string)
| AllV1 (conditions : list ConditionExprV1)
| AnyV1 (conditions : list ConditionExprV1)
| NotV1 (condition : ConditionExprV1).

Definition is_unconditional (c : ConditionExprV1) : bool :=
  match c with AlwaysV1 => true | _ => false end.

(** ** References *)
Inductive ActionTargetV1 := ActorV1.

Inductive InstanceReferenceV1 :=
| EventInstanceV1
| CreatedInstanceV1 (output : string).

Inductive RoleReferenceV1 :=
| ExistingRoleV1 (binding : string)
| CreatedRoleV1 (output : string)
| InstanceRoleV1 (instance : InstanceReferenceV1) (alias : string).

Inductive ChannelReferenceV1 :=
| ExistingChannelV1 (binding : string)
| CreatedChannelV1 (output : string).

Inductive OverwriteTargetV1 :=
| EveryoneV1
| RoleTargetV1 (role : RoleReferenceV1).

Inductive ActionButtonRouteV1 :=
| StaticRouteV1 (trigger_id : string)
| InstanceActionRouteV1 (instance : InstanceReferenceV1) (action_id : string).

Record ActionButtonV1 := mkActionButton {
  ab_label : string;
  ab_route : ActionButtonRouteV1
}.

(** A [CreatedResourceReferenceV1] is the output it names. *)
Record InstanceResourcesV1 := mkResourcesV1 {
  ir_roles : list (string * string);
  ir_channels : list (string * string);
  ir_messages : list (string * string)
}.

Inductive DiscordPermissionV1 :=
| PermAddReactions | PermViewChannel | PermSendMessages | PermEmbedLinks
| PermAttachFiles | PermReadMessageHistory | PermConnect | PermSpeak.

#[export] Instance DiscordPermissionV1_eq_dec : EqDecision DiscordPermissionV1.
Proof. solve_decision. Defined.

Definition runtime_permission (p : DiscordPermissionV1) : Permissions :=
  match p with
  | PermAddReactions => ADD_REACTIONS
  | PermViewChannel => VIEW_CHANNEL
  | PermSendMessages => SEND_MESSAGES
  | PermEmbedLinks => EMBED_LINKS
  | PermAttachFiles => ATTACH_FILES
  | PermReadMessageHistory => READ_MESSAGE_HISTORY
  | PermConnect => CONNECT
  | PermSpeak => SPEAK
  end.

(** ** Actions and workflows *)
Inductive ActionV1 :=
| GrantRoleV1 (role : RoleReferenceV1) (target : ActionTargetV1)
| RespondEphemeralV1 (content : string)
| OpenModalV1 (modal_id : string)
| CreateChannelV1 (output name : string)
| CreateRoleV1 (output name : string)
| UpsertOverwriteV1 (channel : ChannelReferenceV1) (target : OverwriteTargetV1)
    (allow deny : list DiscordPermissionV1)
| PostPanelV1 (output : string) (channel : ChannelReferenceV1) (content : string)
    (buttons : list ActionButtonV1)
| DeferEphemeralV1
| EditResponseV1 (content : string)
| RegisterInstanceV1 (output instance_kind : string) (resources : InstanceResourcesV1)
| TeardownInstanceV1 (instance : InstanceReferenceV1).

Record ActionNodeV1 := mkActionNode {
  an_id : string;
  an_action : ActionV1
}.

Record WorkflowSpecV1 := mkWorkflow {
  wf_id : string;
  wf_trigger : TriggerV1;
  wf_condition : ConditionExprV1;
  wf_actions : list ActionNodeV1
}.

(** ** Panels and modals *)
Record DeclaredButtonV1 := mkDeclaredButton {
  db_label : string;
  db_trigger_id : string
}.

Record DeclaredPanelV1 := mkDeclaredPanel {
  dp_id : string;
  dp_channel : string;
  dp_content : string;
  dp_buttons : list DeclaredButtonV1
}.

Inductive ModalFieldStyleV1 := ShortV1 | ParagraphV1.
Inductive ModalInputPolicyV1 := PreserveV1 | TrimUnicodeWhitespaceV1.

Record ModalFieldDefinitionV1 := mkFieldDefinition {
  fd_id : string;
  fd_label : string;
  fd_style : ModalFieldStyleV1;
  fd_required : bool;
  fd_min_length : option Z;
  fd_max_length : option Z;
  fd_input_policy : ModalInputPolicyV1
}.

Record ModalDefinitionV1 := mkModalDefinition {
  md_id : string;
  md_title : string;
  md_fields : list ModalFieldDefinitionV1
}.

Record AutomationSpecV1 := mkAutomationSpec {
  as_schema_version : Z;
  as_kind : string;
  as_key : string;
  as_display_name : string;
  as_description : string;
  as_panels : list DeclaredPanelV1;
  as_modals : list ModalDefinitionV1;
  as_workflows : list WorkflowSpecV1
}.

(** ** Lowering *)
Definition lower_panel (panel : DeclaredPanelV1) : PanelSpec :=
  mkPanel (dp_id panel) (dp_channel panel) (dp_content panel)
    (map (λ button, mkButton (db_label button) (RouteStatic (db_trigger_id button))) (dp_buttons panel)).

Definition lower_field (field : ModalFieldDefinitionV1) : ModalFieldSpec :=
  mkModalField (fd_id field) (fd_label field)
    (match fd_style field with ShortV1 => Short | ParagraphV1 => Paragraph end)
    (fd_required field) (fd_min_length field) (fd_max_length field)
    (match fd_input_policy field with
     | PreserveV1 => Preserve
     | TrimUnicodeWhitespaceV1 => TrimUnicodeWhitespace
     end).

Definition lower_modal (modal : ModalDefinitionV1) : ModalSpec :=
  mkModal (md_id modal) (md_title modal) (map lower_field (md_fields modal)).

Definition lower_trigger (trigger : TriggerV1) : TriggerSpec :=
  match trigger with
  | ButtonClickV1 trigger_id => OnButtonClick trigger_id
  | ModalSubmitV1 modal_id => OnModalSubmit modal_id
  | InstanceActionV1 action_id => OnInstanceAction action_id
  end.

Definition lower_instance_reference (reference : InstanceReferenceV1) : InstanceRef :=
  match reference with
  | EventInstanceV1 => InstanceEvent
  | CreatedInstanceV1 output => InstanceCreated output
  end.

Definition lower_role_reference (reference : RoleReferenceV1) : RoleRef :=
  match reference with
  | ExistingRoleV1 binding => RoleExisting binding
  | CreatedRoleV1 output => RoleCreated output
  | InstanceRoleV1 instance alias => RoleInstance (lower_instance_reference instance) alias
  end.

Definition lower_channel_reference (reference : ChannelReferenceV1) : ChannelRef :=
  match reference with
  | ExistingChannelV1 binding => ChannelExisting binding
  | CreatedChannelV1 output => ChannelCreated output
  end.

(** [references.iter().map(..).collect()]: the entries keep their order. *)
Definition lower_created_resource_map (references : list (string * string)) : list (string * string) :=
  map (λ '(alias, output), (alias, output)) references.

Definition permission_set (permissions : list DiscordPermissionV1) : Permissions :=
  foldl (λ set permission, Z.lor set (runtime_permission permission)) 0 permissions.

Definition lower_button (button : ActionButtonV1) : ButtonSpec :=
  mkButton (ab_label button)
    (match ab_route button with
     | StaticRouteV1 trigger_id => RouteStatic trigger_id
     | InstanceActionRouteV1 instance action_id =>
         RouteInstanceAction (lower_instance_reference instance) action_id
     end).

Definition lower_action (action : ActionV1) : ActionSpec :=
  match action with
  | GrantRoleV1 role ActorV1 => GrantRole (lower_role_reference role) Actor
  | RespondEphemeralV1 content => RespondEphemeral content
  | OpenModalV1 modal_id => OpenModal modal_id
  | CreateChannelV1 output name => CreateChannel output name
  | CreateRoleV1 output name => CreateRole output name
  | UpsertOverwriteV1 channel target allow deny =>
      UpsertOverwrite (lower_channel_reference channel)
        (match target with
         | EveryoneV1 => SpecEveryone
         | RoleTargetV1 role => SpecRole (lower_role_reference role)
         end)
        (permission_set allow) (permission_set deny)
  | PostPanelV1 output channel content buttons =>
      PostPanel output (lower_channel_reference channel) content (map lower_button buttons)
  | DeferEphemeralV1 => DeferEphemeral
  | EditResponseV1 content => EditResponse content
  | RegisterInstanceV1 output instance_kind resources =>
      RegisterInstance output instance_kind
        (mkResourceRefs (lower_created_resource_map (ir_roles resources))
           (lower_created_resource_map (ir_channels resources))
           (lower_created_resource_map (ir_messages resources)))
  | TeardownInstanceV1 instance => TeardownInstance (lower_instance_reference instance)
  end.

Definition lower_workflow (workflow : WorkflowSpecV1) : InteractionRule :=
  mkRule (wf_id workflow) (lower_trigger (wf_trigger workflow))
    (map (λ node, lower_action (an_action node)) (wf_actions workflow)).

(** [lower_shape] of [validate.rs]. *)
Definition lower_shape (spec : AutomationSpecV1) : InteractionRuleSet :=
  mkRuleSet 1 (map lower_panel (as_panels spec)) (map lower_modal (as_modals spec))
    (map lower_workflow (as_workflows spec)).
