(* ===== verification/SpecValidate.v ===== *)
(** * Validation of automation specs

    Crate [automation-spec], [validate.rs]. The passes are those of the source, in its
    order; each returns the diagnostics it pushes, and the sets and counters it updates
    are passed on. A set that is only inserted into and looked up is a [gset], one that
    is iterated a sorted list. The length of the JSON encoding and the [Debug] text of
    a validation error are parameters. *)

From Stdlib Require Import ZArith Lia Ascii String.
From stdpp Require Import base decidable list strings gmap numbers.
From S2P Require Import Prelude RustStd RustText DiscordModel Instance AutomationState Template.
From S2P Require Import AutomationPlan AutomationValidate SpecModel.
Open Scope string_scope.
Open Scope list_scope.
Open Scope Z_scope.

Definition MAX_AUTOMATION_DISPLAY_NAME_CHARS_V1 : Z := 100.
Definition MAX_AUTOMATION_DESCRIPTION_BYTES_V1 : Z := 2000.
Definition MAX_AUTOMATION_SPEC_CANONICAL_BYTES_V1 : Z := 40 * 1024.
Definition MAX_AUTOMATION_PANELS_V1 : Z := 16.
Definition MAX_MODAL_DEFINITIONS_V1 : Z := 16.
Definition MAX_AUTOMATION_WORKFLOWS_V1 : Z := 32.
Definition MAX_ACTIONS_PER_WORKFLOW_V1 : Z := 64.
Definition MAX_TOTAL_ACTIONS_V1 : Z := 256.
Definition MAX_CONDITION_DEPTH_V1 : Z := 8.
Definition MAX_CONDITION_NODES_V1 : Z := 64.
Definition MAX_PANEL_CONTENT_CHARS_V1 : Z := 2000.
Definition MAX_PANEL_BUTTONS_V1 : Z := 5.
Definition MAX_BUTTON_LABEL_CHARS_V1 : Z := 80.
Definition MAX_MODAL_TITLE_CHARS_V1 : Z := 45.
Definition MAX_MODAL_FIELDS_V1 : Z := 5.
Definition MAX_MODAL_FIELD_LABEL_CHARS_V1 : Z := 45.
Definition MAX_MODAL_INPUT_UTF16_UNITS_V1 : Z := 4000.
Definition MAX_TEMPLATE_SOURCE_CHARS_V1 : Z := 2000.
Definition MAX_RESOURCE_NAME_TEMPLATE_CHARS_V1 : Z := 100.
Definition MAX_INSTANCE_RESOURCE_ALIASES_V1 : Z := 64.
Definition MAX_SIMULATION_INPUTS_V1 : Z := 5.
Definition MAX_SIMULATION_INPUT_UTF16_UNITS_V1 : Z := 4000.
Definition MAX_IDENTIFIER_BYTES_V1 : Z := 64.
Definition MAX_INSTANCE_ACTION_ID_BYTES_V1 : Z := 56.
Definition MAX_RESOURCE_ALIAS_BYTES_V1 : Z := 32.
Definition MAX_DISCORD_CUSTOM_ID_BYTES_V1 : Z := 100.
Definition MAX_DISCORD_GUILD_ID_DECIMAL_BYTES : Z := 20.
Definition COMPONENT_CUSTOM_ID_FIXED_BYTES : Z :=
  str_len "starring:" + MAX_DISCORD_GUILD_ID_DECIMAL_BYTES + 1 + 1 + str_len "button:".

(** ** Diagnostics *)
Record AutomationSpecDiagnosticV1 := mkDiagnostic {
  dg_code : string;
  dg_path : string;
  dg_message : string
}.

#[export] Instance AutomationSpecDiagnosticV1_eq_dec : EqDecision AutomationSpecDiagnosticV1.
Proof. solve_decision. Defined.

Abbreviation Diagnostics := (list AutomationSpecDiagnosticV1) (only parsing).

Definition push (code path message : string) : Diagnostics := [mkDiagnostic code path message].
Definition push_if (b : bool) (code path message : string) : Diagnostics :=
  if b then push code path message else [].

(** [format!]: the parts of a text, with numbers printed in decimal. *)
Definition fmt (parts : list string) : string := foldr String.append EmptyString parts.
Definition num (n : Z) : string := print_u64 n.
Definition child (path field : string) : string := fmt [path; "/"; field].
Definition item (path : string) (index : nat) : string := child path (num (Z.of_nat index)).

(** [left.path.cmp(&right.path).then(code).then(message)], and the stable sort by it. *)
Definition diagnostic_le (x y : AutomationSpecDiagnosticV1) : bool :=
  match cmp (dg_path x) (dg_path y) with
  | Lt => true
  | Gt => false
  | Eq => match cmp (dg_code x) (dg_code y) with
          | Lt => true
          | Gt => false
          | Eq => match cmp (dg_message x) (dg_message y) with Gt => false | _ => true end
          end
  end.

Fixpoint insert_by {A} (le : A → A → bool) (x : A) (l : list A) : list A :=
  match l with
  | [] => [x]
  | y :: rest => if le x y then x :: y :: rest else y :: insert_by le x rest
  end.
Definition sort_by {A} (le : A → A → bool) (l : list A) : list A := foldr (insert_by le) [] l.

(** ** Loops

    [for (index, x) in l.iter().enumerate()] over mutable state [s]. *)
Definition pass {S A} (f : nat → A → S → S * Diagnostics) : nat → list A → S → S * Diagnostics :=
  fix go (index : nat) (l : list A) (s : S) : S * Diagnostics :=
    match l with
    | [] => (s, [])
    | x :: rest =>
        let '(s1, d1) := f index x s in
        let '(s2, d2) := go (Datatypes.S index) rest s1 in
        (s2, d1 ++ d2)
    end.

Definition each {A} (f : nat → A → Diagnostics) (l : list A) : Diagnostics := concat (imap f l).

Definition usize_saturating_add (a b : Z) : Z := Z.min (a + b) u64_max.
Definition len {A} (l : list A) : Z := Z.of_nat (length l).

(** [if !set.insert(key) { push(..) }]. *)
Definition insert_or (key : string) (s : gset string) (code path message : string)
  : gset string * Diagnostics :=
  (set_insert key s, push_if (bool_decide (key ∈ s)) code path message).

(** A [BTreeSet<String>] that is iterated. *)
Definition bs_insert (key : string) (s : list (string * unit)) : list (string * unit) := bt_insert key tt s.
Definition bs_extend (keys : list string) (s : list (string * unit)) : list (string * unit) :=
  foldl (λ s key, bs_insert key s) s keys.

(** ** Small checks *)
Definition identifier_byte (c : ascii) : bool :=
  is_ascii_lowercase c || is_ascii_digit c || Ascii.eqb c "_"%char.

Definition valid_identifier (value : string) : bool :=
  negb (str_is_empty value) && (str_len value <=? MAX_IDENTIFIER_BYTES_V1)
  && match value with String c _ => is_ascii_lowercase c | EmptyString => false end
  && str_all identifier_byte value.

Definition validate_identifier (path value : string) : Diagnostics :=
  push_if (negb (valid_identifier value)) "invalid_identifier" path
    "identifiers must match [a-z][a-z0-9_]{0,63}".

Definition alias_byte (c : ascii) : bool :=
  is_ascii_alphanumeric c || Ascii.eqb c "_"%char || Ascii.eqb c "-"%char.

Definition validate_resource_alias (path value : string) : Diagnostics :=
  push_if (negb (negb (str_is_empty value) && (str_len value <=? MAX_RESOURCE_ALIAS_BYTES_V1)
                 && str_all alias_byte value))
    "invalid_resource_alias" path
    "instance resource aliases must contain 1..=32 ASCII alphanumeric, '_' or '-' bytes".

Definition bounded_chars (path value : string) (minimum maximum : Z) (code : string) : Diagnostics :=
  let count := len (chars value) in
  push_if ((count <? minimum) || (maximum <? count)) code path
    (fmt ["value must contain "; num minimum; "..="; num maximum; " characters"]).

Definition bounded_len (path : string) (actual maximum : Z) : Diagnostics :=
  push_if (maximum <? actual) "collection_budget_exceeded" path
    (fmt ["collection must not exceed "; num maximum; " entries"]).

Definition validate_instance_action_id (path value : string) : Diagnostics :=
  validate_identifier path value
  ++ push_if (MAX_INSTANCE_ACTION_ID_BYTES_V1 <? str_len value) "instance_action_id_too_large" path
       "instance action IDs must fit the Discord custom ID budget".

Definition validate_component_custom_id_budget (path ruleset_key component_key : string) : Diagnostics :=
  push_if (MAX_DISCORD_CUSTOM_ID_BYTES_V1 <?
             COMPONENT_CUSTOM_ID_FIXED_BYTES + str_len ruleset_key + str_len component_key)
    "component_custom_id_too_large" path
    "the automation key and component ID do not fit Discord's 100-byte custom ID limit".

Definition validate_declared_panel_content (path content : string) : Diagnostics :=
  if str_is_empty content then []
  else
    let rendered := template ← template_parse content; render template [] EphemeralMessageContent in
    push_if (negb (match rendered with Ok safe => String.eqb safe content | Err _ => false end))
      "unsafe_declared_panel_content" path
      "declared panel content must already be nonempty, mention-neutral, control-free, and within the runtime message limit".

Definition validate_literal_template (path source : string) (context : SanitizeContext) : Diagnostics :=
  match template_parse source with
  | Err _ => []
  | Ok template =>
      let keys := input_keys template in
      let empty_inputs := foldl (λ m key, bt_insert key EmptyString m) [] keys in
      let unrenderable :=
        match render template empty_inputs context with
        | Err (TooLong _ _) => true
        | Err EmptyAfterSanitize => match keys with [] => true | _ => false end
        | Err (BadSyntax _) | Err (UnsupportedVariable _) | Err (MissingInput _) => true
        | Ok _ => false
        end in
      push_if unrenderable "literal_template_unrenderable" path
        "the template's fixed output must remain within its runtime limit, and literal-only output must remain nonempty after sanitization"
  end.

Definition validate_permission_set (path : string) (permissions : list DiscordPermissionV1) : Diagnostics :=
  push_if (bool_decide (¬ NoDup permissions)) "duplicate_permission" path
    "permission lists must not contain duplicates".

Definition validate_instance_ref (path : string) (reference : InstanceReferenceV1) : Diagnostics :=
  match reference with
  | CreatedInstanceV1 output => validate_identifier (child path "instance/output") output
  | EventInstanceV1 => []
  end.

Definition validate_channel_ref (path : string) (reference : ChannelReferenceV1) : Diagnostics :=
  match reference with
  | ExistingChannelV1 binding => validate_identifier (child path "channel/binding") binding
  | CreatedChannelV1 output => validate_identifier (child path "channel/output") output
  end.

Definition validate_role_ref (path : string) (reference : RoleReferenceV1) : Diagnostics :=
  match reference with
  | ExistingRoleV1 binding => validate_identifier (child path "role/binding") binding
  | CreatedRoleV1 output => validate_identifier (child path "role/output") output
  | InstanceRoleV1 instance alias =>
      validate_instance_ref (child path "role") instance
      ++ validate_resource_alias (child path "role/alias") alias
  end.

(** ** Conditions *)
Definition validate_input_condition (path input_id : string) (declared_fields : option (gset string))
    (modal_trigger : bool) : Diagnostics :=
  validate_identifier (child path "input_id") input_id
  ++ (if negb modal_trigger
      then push "input_condition_requires_modal_trigger" path
             "input conditions are available only for modal_submit workflows"
      else push_if (is_some_and (λ fields, bool_decide (input_id ∉ fields)) declared_fields)
             "unknown_condition_input" (child path "input_id")
             "condition input_id must name a field declared by the trigger modal").

Definition empty_group {A} (conditions : list A) : bool := match conditions with [] => true | _ => false end.

Fixpoint validate_condition (condition : ConditionExprV1) (path : string) (depth nodes : Z)
    (declared_fields : option (gset string)) (modal_trigger : bool) : Z * Diagnostics :=
  let nodes := usize_saturating_add nodes 1 in
  if MAX_CONDITION_DEPTH_V1 <? depth
  then (nodes, push "condition_depth_exceeded" path
                 (fmt ["condition depth must not exceed "; num MAX_CONDITION_DEPTH_V1]))
  else if MAX_CONDITION_NODES_V1 <? nodes
  then (nodes, push "condition_node_budget_exceeded" path
                 (fmt ["a condition must not exceed "; num MAX_CONDITION_NODES_V1; " nodes"]))
  else match condition with
  | AlwaysV1 => (nodes, [])
  | InputNonEmptyV1 input_id => (nodes, validate_input_condition path input_id declared_fields modal_trigger)
  | InputEqualsV1 input_id value =>
      (nodes, validate_input_condition path input_id declared_fields modal_trigger
              ++ push_if (MAX_MODAL_INPUT_UTF16_UNITS_V1 <? utf16_len value)
                   "condition_literal_too_large" (child path "value")
                   "condition literals must not exceed 4000 UTF-16 code units")
  | AllV1 conditions | AnyV1 conditions =>
      let empty := push_if (empty_group conditions) "empty_condition_group" (child path "conditions")
                     "all and any condition groups must not be empty" in
      let '(nodes', diagnostics) :=
        pass (λ index c nodes,
                validate_condition c (item (child path "conditions") index) (depth + 1) nodes
                  declared_fields modal_trigger) 0 conditions nodes in
      (nodes', empty ++ diagnostics)
  | NotV1 c => validate_condition c (child path "condition") (depth + 1) nodes declared_fields modal_trigger
  end.

(** ** Actions *)
Definition is_instance_trigger (trigger : TriggerV1) : bool :=
  match trigger with InstanceActionV1 _ => true | _ => false end.

Definition route_unique (route_identity button_path : string) (routes : gset string) : gset string * Diagnostics :=
  insert_or route_identity routes "duplicate_runtime_panel_route" (child button_path "route")
    "runtime panel button routes must produce unique custom IDs".

(** One button of a posted panel; the routes of the buttons before it are [routes]. *)
Definition validate_posted_button (key path : string) (workflow_trigger : TriggerV1)
    (registered_instance_outputs : gset string) (index : nat) (button : ActionButtonV1)
    (routes : gset string) : gset string * Diagnostics :=
  let button_path := item (child path "buttons") index in
  let label := bounded_chars (child button_path "label") (ab_label button) 1 MAX_BUTTON_LABEL_CHARS_V1
                 "invalid_button_label" in
  match ab_route button with
  | StaticRouteV1 trigger_id =>
      let '(routes', unique) := route_unique (fmt ["static:"; trigger_id]) button_path routes in
      (routes',
       label ++ validate_identifier (child button_path "route/trigger_id") trigger_id
       ++ validate_component_custom_id_budget (child button_path "route/trigger_id") key trigger_id
       ++ unique)
  | InstanceActionRouteV1 instance action_id =>
      let '(route_identity, scope) :=
        match instance with
        | EventInstanceV1 =>
            (fmt ["event:"; action_id],
             push_if (negb (is_instance_trigger workflow_trigger)) "event_instance_requires_instance_trigger"
               (child button_path "route/instance")
               "the event instance is available only in an instance_action workflow")
        | CreatedInstanceV1 output =>
            (fmt ["created:"; output; ":"; action_id],
             push_if (bool_decide (output ∉ registered_instance_outputs)) "unknown_panel_instance_output"
               (child button_path "route/instance/output")
               "created instance routes must reference a register_instance output in the same workflow")
        end in
      let '(routes', unique) := route_unique route_identity button_path routes in
      (routes',
       label ++ validate_instance_ref button_path instance
       ++ validate_instance_action_id (child button_path "route/action_id") action_id
       ++ scope ++ unique)
  end.

Definition validate_resource_entries (path kind : string) (entries : list (string * string)) : Diagnostics :=
  entries ≫= λ '(alias, output),
    validate_resource_alias (fmt [path; "/resources/"; kind; "/"; alias]) alias
    ++ validate_identifier (fmt [path; "/resources/"; kind; "/"; alias; "/output"]) output.

Definition validate_response_content (path content : string) : Diagnostics :=
  bounded_chars (child path "content") content 1 MAX_TEMPLATE_SOURCE_CHARS_V1 "invalid_response_content"
  ++ validate_literal_template (child path "content") content EphemeralMessageContent.

Definition validate_resource_name (path output name : string) (context : SanitizeContext) : Diagnostics :=
  validate_identifier (child path "output") output
  ++ bounded_chars (child path "name") name 1 MAX_RESOURCE_NAME_TEMPLATE_CHARS_V1
       "invalid_resource_name_template"
  ++ validate_literal_template (child path "name") name context.

Definition validate_action (key : string) (action : ActionV1) (path : string) (workflow_trigger : TriggerV1)
    (registered_instance_outputs : gset string) : Diagnostics :=
  match action with
  | GrantRoleV1 role _ => validate_role_ref path role
  | RespondEphemeralV1 content | EditResponseV1 content => validate_response_content path content
  | OpenModalV1 modal_id => validate_identifier (child path "modal_id") modal_id
  | CreateChannelV1 output name => validate_resource_name path output name ChannelName
  | CreateRoleV1 output name => validate_resource_name path output name RoleName
  | UpsertOverwriteV1 channel target allow deny =>
      validate_channel_ref path channel
      ++ match target with RoleTargetV1 role => validate_role_ref path role | EveryoneV1 => [] end
      ++ validate_permission_set (child path "allow") allow
      ++ validate_permission_set (child path "deny") deny
      ++ push_if (existsb (λ permission, bool_decide (permission ∈ deny)) allow)
           "overlapping_overwrite_permissions" path
           "the same permission cannot be both allowed and denied"
      ++ push_if (empty_group allow && empty_group deny) "empty_overwrite" path
           "an overwrite must allow or deny at least one permission"
  | PostPanelV1 output channel content buttons =>
      validate_identifier (child path "output") output
      ++ validate_channel_ref path channel
      ++ push_if (str_is_empty content) "empty_panel_content" (child path "content")
           "runtime panels require nonempty content"
      ++ bounded_chars (child path "content") content 1 MAX_TEMPLATE_SOURCE_CHARS_V1 "invalid_panel_content"
      ++ validate_literal_template (child path "content") content EphemeralMessageContent
      ++ push_if (empty_group buttons || (MAX_PANEL_BUTTONS_V1 <? len buttons))
           "invalid_runtime_panel_button_count" (child path "buttons")
           (fmt ["runtime panels require 1..="; num MAX_PANEL_BUTTONS_V1; " buttons in runtime V1"])
      ++ (pass (validate_posted_button key path workflow_trigger registered_instance_outputs) 0 buttons ∅).2
  | DeferEphemeralV1 => []
  | RegisterInstanceV1 output instance_kind resources =>
      validate_identifier (child path "output") output
      ++ validate_identifier (child path "instance_kind") instance_kind
      ++ push_if (MAX_INSTANCE_RESOURCE_ALIASES_V1 <?
                    len (ir_roles resources) + len (ir_channels resources) + len (ir_messages resources))
           "instance_resource_budget_exceeded" (child path "resources")
           (fmt ["an instance may declare at most "; num MAX_INSTANCE_RESOURCE_ALIASES_V1; " resource aliases"])
      ++ validate_resource_entries path "roles" (ir_roles resources)
      ++ validate_resource_entries path "channels" (ir_channels resources)
      ++ validate_resource_entries path "messages" (ir_messages resources)
  | TeardownInstanceV1 instance => validate_instance_ref path instance
  end.

(** ** Panels and modals *)
Definition validate_declared_button (key path : string) (index : nat) (button : DeclaredButtonV1)
    (trigger_ids : gset string) : gset string * Diagnostics :=
  let button_path := item (child path "buttons") index in
  let '(trigger_ids', unique) :=
    insert_or (db_trigger_id button) trigger_ids "duplicate_button_trigger_id" (child button_path "trigger_id")
      "button trigger IDs must be unique across declared panels" in
  (trigger_ids',
   bounded_chars (child button_path "label") (db_label button) 1 MAX_BUTTON_LABEL_CHARS_V1 "invalid_button_label"
   ++ validate_identifier (child button_path "trigger_id") (db_trigger_id button)
   ++ validate_component_custom_id_budget (child button_path "trigger_id") key (db_trigger_id button)
   ++ unique).

Definition validate_panel (key : string) (index : nat) (panel : DeclaredPanelV1)
    (state : gset string * gset string) : (gset string * gset string) * Diagnostics :=
  let '(panel_ids, trigger_ids) := state in
  let path := item "/panels" index in
  let '(panel_ids', unique) :=
    insert_or (dp_id panel) panel_ids "duplicate_panel_id" (child path "id") "panel IDs must be unique" in
  let '(trigger_ids', buttons) := pass (validate_declared_button key path) 0 (dp_buttons panel) trigger_ids in
  ((panel_ids', trigger_ids'),
   validate_identifier (child path "id") (dp_id panel)
   ++ validate_identifier (child path "channel") (dp_channel panel)
   ++ unique
   ++ push_if (str_is_empty (dp_content panel) && empty_group (dp_buttons panel)) "empty_panel" path
        "a panel must contain content or at least one button"
   ++ bounded_chars (child path "content") (dp_content panel) 0 MAX_PANEL_CONTENT_CHARS_V1 "invalid_panel_content"
   ++ validate_declared_panel_content (child path "content") (dp_content panel)
   ++ push_if (MAX_PANEL_BUTTONS_V1 <? len (dp_buttons panel)) "too_many_panel_buttons" (child path "buttons")
        (fmt ["panels support at most "; num MAX_PANEL_BUTTONS_V1; " buttons"])
   ++ buttons).

Definition validate_panels (spec : AutomationSpecV1) : Diagnostics :=
  (pass (validate_panel (as_key spec)) 0 (as_panels spec) (∅, ∅)).2.

Definition validate_field (path : string) (index : nat) (field : ModalFieldDefinitionV1) (field_ids : gset string)
  : gset string * Diagnostics :=
  let field_path := item (child path "fields") index in
  let '(field_ids', unique) :=
    insert_or (fd_id field) field_ids "duplicate_modal_field_id" (child field_path "id")
      "modal field IDs must be unique within the modal" in
  (field_ids',
   validate_identifier (child field_path "id") (fd_id field)
   ++ unique
   ++ bounded_chars (child field_path "label") (fd_label field) 1 MAX_MODAL_FIELD_LABEL_CHARS_V1
        "invalid_modal_field_label"
   ++ push_if (is_some_and (λ value, MAX_MODAL_INPUT_UTF16_UNITS_V1 <? value) (fd_min_length field))
        "invalid_modal_min_length" (child field_path "min_length")
        "modal min_length must not exceed 4000 UTF-16 code units"
   ++ push_if (is_some_and (λ value, (value =? 0) || (MAX_MODAL_INPUT_UTF16_UNITS_V1 <? value))
                 (fd_max_length field))
        "invalid_modal_max_length" (child field_path "max_length")
        "modal max_length must be in 1..=4000 UTF-16 code units"
   ++ push_if (match fd_min_length field, fd_max_length field with
               | Some min, Some max => max <? min
               | _, _ => false
               end)
        "invalid_modal_length_range" field_path "modal min_length must not exceed max_length").

Definition validate_modal (key : string) (index : nat) (modal : ModalDefinitionV1)
    (state : gset string * gmap string (gset string))
  : (gset string * gmap string (gset string)) * Diagnostics :=
  let '(modal_ids, modal_fields) := state in
  let path := item "/modals" index in
  let '(modal_ids', unique) :=
    insert_or (md_id modal) modal_ids "duplicate_modal_id" (child path "id") "modal IDs must be unique" in
  let '(field_ids, fields) := pass (validate_field path) 0 (md_fields modal) ∅ in
  ((modal_ids', <[md_id modal := field_ids]> modal_fields),
   validate_identifier (child path "id") (md_id modal)
   ++ validate_component_custom_id_budget (child path "id") key (md_id modal)
   ++ unique
   ++ bounded_chars (child path "title") (md_title modal) 1 MAX_MODAL_TITLE_CHARS_V1 "invalid_modal_title"
   ++ push_if (empty_group (md_fields modal) || (MAX_MODAL_FIELDS_V1 <? len (md_fields modal)))
        "invalid_modal_field_count" (child path "fields")
        (fmt ["modals must contain 1..="; num MAX_MODAL_FIELDS_V1; " fields"])
   ++ fields).

Definition validate_modals (spec : AutomationSpecV1) : gmap string (gset string) * Diagnostics :=
  let '(state, diagnostics) := pass (validate_modal (as_key spec)) 0 (as_modals spec) (∅, ∅) in
  (state.2, diagnostics).

(** ** Workflows *)
Definition trigger_identity (trigger : TriggerV1) : string :=
  match trigger with
  | ButtonClickV1 trigger_id => fmt ["button:"; trigger_id]
  | ModalSubmitV1 modal_id => fmt ["modal:"; modal_id]
  | InstanceActionV1 action_id => fmt ["instance:"; action_id]
  end.

Definition validate_trigger (path : string) (trigger : TriggerV1) : Diagnostics :=
  match trigger with
  | ButtonClickV1 trigger_id => validate_identifier (child path "trigger/trigger_id") trigger_id
  | ModalSubmitV1 modal_id => validate_identifier (child path "trigger/modal_id") modal_id
  | InstanceActionV1 action_id => validate_instance_action_id (child path "trigger/action_id") action_id
  end.

Definition is_direct_response (action : ActionV1) : bool :=
  match action with RespondEphemeralV1 _ | OpenModalV1 _ => true | _ => false end.
Definition is_initial_response (action : ActionV1) : bool :=
  match action with RespondEphemeralV1 _ | OpenModalV1 _ | DeferEphemeralV1 => true | _ => false end.
Definition is_edit_response (action : ActionV1) : bool :=
  match action with EditResponseV1 _ => true | _ => false end.
Definition is_teardown_action (action : ActionV1) : bool :=
  match action with TeardownInstanceV1 _ => true | _ => false end.

Definition registered_outputs (actions : list ActionNodeV1) : gset string :=
  list_to_set (omap (λ node, match an_action node with
                             | RegisterInstanceV1 output _ _ => Some output
                             | _ => None
                             end) actions).

Definition count_nodes (P : ActionV1 → bool) (actions : list ActionNodeV1) : Z :=
  len (List.filter (λ node, P (an_action node)) actions).

(** The state of the loop over the nodes of a workflow: [action_ids], [teardown_seen]. *)
Definition validate_node (key path : string) (workflow : WorkflowSpecV1) (registered : gset string)
    (index : nat) (node : ActionNodeV1) (state : gset string * bool) : (gset string * bool) * Diagnostics :=
  let '(action_ids, teardown_seen) := state in
  let node_path := item (child path "actions") index in
  let '(action_ids', unique) :=
    insert_or (an_id node) action_ids "duplicate_action_node_id" (child node_path "id")
      "action node IDs must be unique across the automation" in
  ((action_ids', teardown_seen || is_teardown_action (an_action node)),
   push_if (is_direct_response (an_action node) && negb (Z.of_nat index + 1 =? len (wf_actions workflow)))
     "initial_response_not_final" (child node_path "action")
     "respond_ephemeral and open_modal must be the final workflow action"
   ++ push_if (teardown_seen && negb (is_edit_response (an_action node)))
        "action_after_teardown" (child node_path "action")
        "teardown_instance must be the final mutable action; only edit_response may follow"
   ++ validate_identifier (child node_path "id") (an_id node)
   ++ unique
   ++ validate_action key (an_action node) (child node_path "action") (wf_trigger workflow) registered).

Record WorkflowPass := mkWorkflowPass {
  wp_workflow_ids : gset string;
  wp_action_ids : gset string;
  wp_trigger_identities : gset string;
  wp_total_actions : Z
}.

Definition validate_workflow (key : string) (modal_fields : gmap string (gset string)) (index : nat)
    (workflow : WorkflowSpecV1) (state : WorkflowPass) : WorkflowPass * Diagnostics :=
  let path := item "/workflows" index in
  let '(workflow_ids, unique) :=
    insert_or (wf_id workflow) (wp_workflow_ids state) "duplicate_workflow_id" (child path "id")
      "workflow IDs must be unique" in
  let '(trigger_identities, unique_trigger) :=
    insert_or (trigger_identity (wf_trigger workflow)) (wp_trigger_identities state) "duplicate_trigger"
      (child path "trigger") "only one workflow may consume a trigger" in
  let declared_fields :=
    match wf_trigger workflow with ModalSubmitV1 modal_id => modal_fields !! modal_id | _ => None end in
  let modal_trigger := match wf_trigger workflow with ModalSubmitV1 _ => true | _ => false end in
  let '(node_state, nodes) :=
    pass (validate_node key path workflow (registered_outputs (wf_actions workflow))) 0
      (wf_actions workflow) (wp_action_ids state, false) in
  (mkWorkflowPass workflow_ids node_state.1 trigger_identities
     (usize_saturating_add (wp_total_actions state) (len (wf_actions workflow))),
   validate_identifier (child path "id") (wf_id workflow)
   ++ unique
   ++ validate_trigger path (wf_trigger workflow)
   ++ unique_trigger
   ++ push_if (empty_group (wf_actions workflow) || (MAX_ACTIONS_PER_WORKFLOW_V1 <? len (wf_actions workflow)))
        "invalid_action_count" (child path "actions")
        (fmt ["each workflow must contain 1..="; num MAX_ACTIONS_PER_WORKFLOW_V1; " actions"])
   ++ (validate_condition (wf_condition workflow) (child path "condition") 1 0 declared_fields modal_trigger).2
   ++ nodes
   ++ push_if (negb (count_nodes is_initial_response (wf_actions workflow) =? 1))
        "invalid_initial_response_count" (child path "actions")
        "each workflow must acknowledge its interaction exactly once with respond_ephemeral, open_modal, or a leading defer_ephemeral"
   ++ push_if (1 <? count_nodes is_direct_response (wf_actions workflow))
        "multiple_initial_responses" (child path "actions")
        "a workflow may send at most one immediate interaction response").

Definition validate_workflows (spec : AutomationSpecV1) (modal_fields : gmap string (gset string))
  : Diagnostics :=
  let '(state, diagnostics) :=
    pass (validate_workflow (as_key spec) modal_fields) 0 (as_workflows spec) (mkWorkflowPass ∅ ∅ ∅ 0) in
  diagnostics
  ++ push_if (MAX_TOTAL_ACTIONS_V1 <? wp_total_actions state) "automation_action_budget_exceeded" "/workflows"
       (fmt ["the automation must not exceed "; num MAX_TOTAL_ACTIONS_V1; " total actions"]).

(** ** Routes *)
Definition bump (key : string) (counts : gmap string Z) : gmap string Z :=
  <[key := default 0 (counts !! key) + 1]> counts.

Definition require_route_handler (handlers : gmap string Z) (path route_identity : string) : Diagnostics :=
  push_if (negb (bool_decide (handlers !! route_identity = Some 1))) "rendered_route_without_handler" path
    "every rendered button or opened modal must have exactly one matching workflow".

Definition button_route_identity (button : ActionButtonV1) : string :=
  match ab_route button with
  | StaticRouteV1 trigger_id => fmt ["button:"; trigger_id]
  | InstanceActionRouteV1 _ action_id => fmt ["instance:"; action_id]
  end.

Definition validate_node_routes (handlers : gmap string Z) (workflow_index index : nat) (node : ActionNodeV1)
  : Diagnostics :=
  let path := child (item (child (item "/workflows" workflow_index) "actions") index) "action" in
  match an_action node with
  | OpenModalV1 modal_id => require_route_handler handlers (child path "modal_id") (fmt ["modal:"; modal_id])
  | PostPanelV1 _ _ _ buttons =>
      each (λ button_index button,
              require_route_handler handlers (child (item (child path "buttons") button_index) "route")
                (button_route_identity button)) buttons
  | _ => []
  end.

Definition route_handlers (spec : AutomationSpecV1) : gmap string Z :=
  foldl (λ handlers workflow, bump (trigger_identity (wf_trigger workflow)) handlers) ∅ (as_workflows spec).

Definition validate_rendered_route_handlers (spec : AutomationSpecV1) : Diagnostics :=
  let handlers := route_handlers spec in
  each (λ panel_index panel,
          each (λ button_index button,
                  require_route_handler handlers
                    (child (item (child (item "/panels" panel_index) "buttons") button_index) "trigger_id")
                    (fmt ["button:"; db_trigger_id button])) (dp_buttons panel)) (as_panels spec)
  ++ each (λ workflow_index workflow,
             each (validate_node_routes handlers workflow_index) (wf_actions workflow)) (as_workflows spec).

(** ** The roles a created instance must have

    What each instance action needs of the instance it runs on: the role aliases its
    workflow uses, and those of the actions it forwards the instance to. *)
Abbreviation Requirements := (list (string * list (string * unit))) (only parsing).

Definition event_role_alias (action : ActionV1) : option string :=
  let role := match action with
              | GrantRoleV1 role _ => Some role
              | UpsertOverwriteV1 _ (RoleTargetV1 role) _ _ => Some role
              | _ => None
              end in
  match role with
  | Some (InstanceRoleV1 EventInstanceV1 alias) => Some alias
  | _ => None
  end.

Definition collect_event_role_aliases (action : ActionV1) (aliases : list (string * unit))
  : list (string * unit) :=
  match event_role_alias action with Some alias => bs_insert alias aliases | None => aliases end.

Definition forwarded_actions (action : ActionV1) : list string :=
  match action with
  | PostPanelV1 _ _ _ buttons =>
      omap (λ button, match ab_route button with
                      | InstanceActionRouteV1 EventInstanceV1 action_id => Some action_id
                      | _ => None
                      end) buttons
  | _ => []
  end.

Definition or_default {V} (o : option (list V)) : list V := default [] o.

(** The two maps, after a workflow for [action_id] with these actions. *)
Definition collect_handler_requirements (action_id : string) (actions : list ActionNodeV1)
    (state : Requirements * Requirements) : Requirements * Requirements :=
  let '(required, forwarded) := state in
  (bt_upsert (λ o, foldl (λ roles node, collect_event_role_aliases (an_action node) roles)
                     (or_default o) actions) action_id required,
   bt_upsert (λ o, foldl (λ targets node, bs_extend (forwarded_actions (an_action node)) targets)
                     (or_default o) actions) action_id forwarded).

(** The roles of the actions forwarded to. *)
Definition inherited_roles (downstream : list (string * unit)) (required : Requirements) : list string :=
  downstream.*1 ≫= λ action, (or_default (bt_get required action)).*1.

(** One turn of the loop over [forwarded]. *)
Fixpoint inherit_turn (forwarded required : Requirements) : Requirements * bool :=
  match forwarded with
  | [] => (required, false)
  | (action_id, downstream) :: rest =>
      let inherited := inherited_roles downstream required in
      let previous := or_default (bt_get required action_id) in
      let roles := bs_extend inherited previous in
      let '(required', changed) := inherit_turn rest (bt_insert action_id roles required) in
      (required', negb (len roles =? len previous) || changed)
  end.

(** [loop { .. if !changed { break } }]. *)
Fixpoint inherit_loop (fuel : nat) (forwarded required : Requirements) : Requirements :=
  match fuel with
  | O => required
  | S fuel' =>
      let '(required', changed) := inherit_turn forwarded required in
      if changed then inherit_loop fuel' forwarded required' else required'
  end.

(** Every turn but the last adds a role to an action: one of the roles collected, to
    one of the actions that forward. *)
Definition inherit_fuel (forwarded required : Requirements) : nat :=
  S (length forwarded * sum_list (map (λ e : string * list (string * unit), length e.2) required)).

Definition required_roles (state : Requirements * Requirements) : Requirements :=
  inherit_loop (inherit_fuel state.2 state.1) state.2 state.1.

(** The instances the actions register, the first manifest of each output. *)
Definition register_manifest (state : gmap string InstanceResourcesV1 * gmap string Z) (node : ActionNodeV1)
  : gmap string InstanceResourcesV1 * gmap string Z :=
  match an_action node with
  | RegisterInstanceV1 output _ resources =>
      (match state.1 !! output with Some _ => state.1 | None => <[output := resources]> state.1 end,
       bump output state.2)
  | _ => state
  end.

Definition manifests_of (actions : list ActionNodeV1) : gmap string InstanceResourcesV1 * gmap string Z :=
  foldl register_manifest (∅, ∅) actions.

(** The aliases a button of a created instance requires and its manifest lacks. *)
Definition missing_aliases (actions : list ActionNodeV1) (handler_counts : gmap string Z)
    (required : Requirements) (button : ActionButtonV1) : list string :=
  match ab_route button with
  | InstanceActionRouteV1 (CreatedInstanceV1 output) action_id =>
      let '(manifests, manifest_counts) := manifests_of actions in
      if negb (bool_decide (manifest_counts !! output = Some 1))
         || negb (bool_decide (handler_counts !! action_id = Some 1)) then []
      else match manifests !! output, bt_get required action_id with
           | Some resources, Some roles =>
               List.filter (λ alias, negb (is_some (bt_get (ir_roles resources) alias))) roles.*1
           | _, _ => []
           end
  | _ => []
  end.

(** The buttons the actions post, each with its place. *)
Definition validate_creator_branch (actions : list ActionNodeV1) (path : string)
    (handler_counts : gmap string Z) (required : Requirements) (code : string) (message : string → string)
  : Diagnostics :=
  each (λ action_index node,
    match an_action node with
    | PostPanelV1 _ _ _ buttons =>
        each (λ button_index button,
          missing_aliases actions handler_counts required button ≫= λ alias,
            push code
              (fmt [item path action_index; "/action/buttons/"; num (Z.of_nat button_index); "/route/instance"])
              (message alias)) buttons
    | _ => []
    end) actions.

Definition collect_workflow (state : gmap string Z * (Requirements * Requirements)) (workflow : WorkflowSpecV1)
  : gmap string Z * (Requirements * Requirements) :=
  match wf_trigger workflow with
  | InstanceActionV1 action_id =>
      (bump action_id state.1, collect_handler_requirements action_id (wf_actions workflow) state.2)
  | _ => state
  end.

Definition missing_handler_resource (alias : string) : string :=
  fmt ["the created instance must declare role alias "; alias;
       " required by this handler or a forwarded instance action"].

Definition validate_created_instance_route_resources (spec : AutomationSpecV1) : Diagnostics :=
  let '(handler_counts, state) := foldl collect_workflow (∅, ([], [])) (as_workflows spec) in
  let required := required_roles state in
  each (λ workflow_index workflow,
    validate_creator_branch (wf_actions workflow) (child (item "/workflows" workflow_index) "actions")
      handler_counts required "created_instance_missing_handler_resource" missing_handler_resource)
    (as_workflows spec).

(** ** The whole document *)
Section spec.
(** The length of [serde_json::to_vec(spec)] where it succeeds, and [format!("{error:?}")]. *)
Context (encoded_len : AutomationSpecV1 → option Z) (debug_validation_error : ValidationError → string).

Definition shape_diagnostics (spec : AutomationSpecV1) : Diagnostics :=
  push_if (negb (as_schema_version spec =? AUTOMATION_SPEC_SCHEMA_VERSION_V1)) "unsupported_schema_version"
    "/schema_version" "AutomationSpec V1 requires schema_version 1"
  ++ push_if (negb (String.eqb (as_kind spec) AUTOMATION_SPEC_KIND_V1)) "invalid_kind" "/kind"
       (fmt ["AutomationSpec V1 requires kind "; AUTOMATION_SPEC_KIND_V1])
  ++ push_if (is_some_and (λ bytes, MAX_AUTOMATION_SPEC_CANONICAL_BYTES_V1 <? bytes) (encoded_len spec))
       "automation_spec_too_large" "/"
       (fmt ["the automation spec must not exceed "; num MAX_AUTOMATION_SPEC_CANONICAL_BYTES_V1; " encoded bytes"])
  ++ validate_identifier "/key" (as_key spec)
  ++ push_if (str_is_empty (str_trim (as_display_name spec))
              || (MAX_AUTOMATION_DISPLAY_NAME_CHARS_V1 <? len (chars (as_display_name spec))))
       "invalid_display_name" "/display_name"
       (fmt ["display_name must contain 1..="; num MAX_AUTOMATION_DISPLAY_NAME_CHARS_V1; " characters"])
  ++ push_if (MAX_AUTOMATION_DESCRIPTION_BYTES_V1 <? str_len (as_description spec))
       "description_too_large" "/description"
       (fmt ["description must not exceed "; num MAX_AUTOMATION_DESCRIPTION_BYTES_V1; " UTF-8 bytes"])
  ++ bounded_len "/panels" (len (as_panels spec)) MAX_AUTOMATION_PANELS_V1
  ++ bounded_len "/modals" (len (as_modals spec)) MAX_MODAL_DEFINITIONS_V1
  ++ push_if (empty_group (as_workflows spec) || (MAX_AUTOMATION_WORKFLOWS_V1 <? len (as_workflows spec)))
       "invalid_workflow_count" "/workflows"
       (fmt ["workflows must contain 1..="; num MAX_AUTOMATION_WORKFLOWS_V1; " entries"])
  ++ validate_panels spec
  ++ (let '(modal_fields, modals) := validate_modals spec in
      modals ++ validate_workflows spec modal_fields)
  ++ validate_rendered_route_handlers spec
  ++ validate_created_instance_route_resources spec.

Definition graph_diagnostics (spec : AutomationSpecV1) : Diagnostics :=
  match validate_structural (lower_shape spec) with
  | Ok _ => []
  | Err errors =>
      each (λ index error,
              push "invalid_interaction_graph" (item "/compiled_ruleset/errors" index)
                (debug_validation_error error)) errors
  end.

Definition validate_automation_spec_v1 (spec : AutomationSpecV1) : Result Diagnostics unit :=
  let shape := shape_diagnostics spec in
  let diagnostics := match shape with [] => graph_diagnostics spec | _ => shape end in
  match sort_by diagnostic_le diagnostics with
  | [] => Ok tt
  | sorted => Err sorted
  end.
End spec.
