(* ===== verification/SpecCompile.v ===== *)
(** * Simulation, preview and compilation of automation specs

    Crate [automation-spec]: [simulate.rs] (which workflow an event selects and what it
    would do), [preview.rs] (the permissions and effects an author is shown),
    [source_map.rs] and [compile.rs] (the rule set, the map from its rules and actions
    back to the document, and the digests that bind them). The JSON encoders, the
    content hash and SHA-256 are parameters. *)

From Stdlib Require Import ZArith Lia Ascii String.
From stdpp Require Import base decidable list strings gmap numbers.
From S2P Require Import Prelude RustStd RustText DiscordModel Instance AutomationState Template.
From S2P Require Import AutomationPlan AutomationValidate RuleSet ApprovalBinding SpecModel SpecValidate.
Open Scope string_scope.
Open Scope list_scope.
Open Scope Z_scope.

(** ** Simulation *)
Definition MAX_SIMULATION_INPUT_BYTES_V1 : Z := 4000.
Definition MAX_SIMULATION_PAYLOAD_BYTES_V1 : Z := 20000.

Record AutomationSimulationEventV1 := mkSimulationEvent {
  se_trigger : TriggerV1;
  se_inputs : list (string * string)
}.

Inductive AutomationSimulationOutcomeV1 := NoTriggerMatch | ConditionNotSatisfied | ActionsPlanned.

Record AutomationSimulationTraceV1 := mkSimulationTrace {
  tr_outcome : AutomationSimulationOutcomeV1;
  tr_workflow_id : option string;
  tr_condition_result : option bool;
  tr_normalized_inputs : list (string * string);
  tr_action_node_ids : list string
}.

Inductive AutomationSimulationErrorV1 :=
| SimulationInvalidSpec (diagnostics : Diagnostics)
| SimulationInvalidEvent (diagnostics : Diagnostics).

Definition trigger_name (trigger : TriggerV1) : string :=
  match trigger with ButtonClickV1 id | ModalSubmitV1 id | InstanceActionV1 id => id end.

Definition is_modal_trigger (trigger : TriggerV1) : bool :=
  match trigger with ModalSubmitV1 _ => true | _ => false end.

(** [left.path.cmp(&right.path).then(code)]. *)
Definition event_diagnostic_le (x y : AutomationSpecDiagnosticV1) : bool :=
  match cmp (dg_path x) (dg_path y) with
  | Lt => true
  | Gt => false
  | Eq => match cmp (dg_code x) (dg_code y) with Gt => false | _ => true end
  end.

Definition input_diagnostics (key value : string) : Diagnostics :=
  push_if (negb (valid_identifier key)) "invalid_simulation_input_id" (fmt ["/event/inputs/"; key])
    "simulation input IDs must match [a-z][a-z0-9_]{0,63}"
  ++ push_if ((MAX_SIMULATION_INPUT_BYTES_V1 <? str_len value)
              || (MAX_SIMULATION_INPUT_UTF16_UNITS_V1 <? utf16_len value))
       "simulation_input_too_large" (fmt ["/event/inputs/"; key])
       "simulation inputs must not exceed 4000 UTF-8 bytes or UTF-16 code units".

Definition payload_bytes (event : AutomationSimulationEventV1) : Z :=
  foldl (λ total '(key, value), usize_saturating_add (usize_saturating_add total (str_len key)) (str_len value))
    (str_len (trigger_name (se_trigger event))) (se_inputs event).

Definition validate_simulation_event (event : AutomationSimulationEventV1)
  : Result AutomationSimulationErrorV1 unit :=
  let diagnostics :=
    push_if (negb (valid_identifier (trigger_name (se_trigger event)))) "invalid_simulation_trigger"
      "/event/trigger" "simulation trigger IDs must match [a-z][a-z0-9_]{0,63}"
    ++ push_if (negb (is_modal_trigger (se_trigger event)) && negb (empty_group (se_inputs event)))
         "inputs_require_modal_trigger" "/event/inputs" "only modal_submit simulation events may carry inputs"
    ++ push_if (MAX_SIMULATION_INPUTS_V1 <? len (se_inputs event)) "simulation_input_count_exceeded"
         "/event/inputs" (fmt ["simulation events support at most "; num MAX_SIMULATION_INPUTS_V1; " inputs"])
    ++ (se_inputs event ≫= λ '(key, value), input_diagnostics key value)
    ++ push_if (MAX_SIMULATION_PAYLOAD_BYTES_V1 <? payload_bytes event) "simulation_payload_too_large" "/event"
         "simulation trigger and input payload must not exceed 20000 UTF-8 bytes" in
  match diagnostics with
  | [] => Ok tt
  | _ => Err (SimulationInvalidEvent (sort_by event_diagnostic_le diagnostics))
  end.

Definition modal_input_diagnostic (error : ModalInputError) : AutomationSpecDiagnosticV1 :=
  match error with
  | ModalDefinitionMissing modal =>
      mkDiagnostic "simulation_modal_missing" "/event/trigger/modal_id"
        (fmt ["modal definition is missing: "; modal])
  | RequiredMissing _ field =>
      mkDiagnostic "simulation_required_input_missing" (fmt ["/event/inputs/"; field])
        "required modal input is missing or empty after normalization"
  | UnexpectedInput _ field =>
      mkDiagnostic "simulation_input_unexpected" (fmt ["/event/inputs/"; field])
        "input is not declared by the trigger modal"
  | InputTooShort _ field _ _ =>
      mkDiagnostic "simulation_input_too_short" (fmt ["/event/inputs/"; field])
        "input is shorter than the modal minimum after normalization"
  | InputTooLong _ field _ _ =>
      mkDiagnostic "simulation_input_too_long" (fmt ["/event/inputs/"; field])
        "input is longer than the modal maximum after normalization"
  end.

Definition normalize_event_inputs (spec : AutomationSpecV1) (event : AutomationSimulationEventV1)
  : Result AutomationSimulationErrorV1 (list (string * string)) :=
  match se_trigger event with
  | ModalSubmitV1 modal_id =>
      match normalize_modal_submit_inputs (mkEvent 1 1 (EvModalSubmit modal_id (se_inputs event)))
              (lower_shape spec) with
      | Ok (Some inputs) => Ok inputs
      | Ok None => Ok []
      | Err error => Err (SimulationInvalidEvent [modal_input_diagnostic error])
      end
  | _ => Ok []
  end.

Fixpoint evaluate_condition (condition : ConditionExprV1) (inputs : list (string * string)) : bool :=
  match condition with
  | AlwaysV1 => true
  | InputNonEmptyV1 input_id => is_some_and (λ value, negb (str_is_empty value)) (bt_get inputs input_id)
  | InputEqualsV1 input_id value => bool_decide (bt_get inputs input_id = Some value)
  | AllV1 conditions => forallb (λ c, evaluate_condition c inputs) conditions
  | AnyV1 conditions => existsb (λ c, evaluate_condition c inputs) conditions
  | NotV1 c => negb (evaluate_condition c inputs)
  end.

(** ** Preview *)
Inductive AutomationCapabilityV1 :=
| CapInteractionResponse | CapManageChannels | CapManageInstances | CapManageRoles | CapPostMessages.

#[export] Instance AutomationCapabilityV1_eq_dec : EqDecision AutomationCapabilityV1.
Proof. solve_decision. Defined.

(** The set of capabilities, in the order of the enum when it is collected. *)
Definition all_capabilities : list AutomationCapabilityV1 :=
  [CapInteractionResponse; CapManageChannels; CapManageInstances; CapManageRoles; CapPostMessages].

Record AutomationPerEventEffectSummaryV1 := mkPerEvent {
  pe_response_steps : Z;
  pe_compensatable_external_writes : Z;
  pe_non_compensatable_external_writes : Z
}.

Record Classified := mkClassified {
  cl_capabilities : list AutomationCapabilityV1;
  cl_required_permissions : Permissions;
  cl_effects : AutomationPerEventEffectSummaryV1
}.

Definition needs (capabilities : list AutomationCapabilityV1) (permissions : Permissions)
    (effect : AutomationPerEventEffectSummaryV1 → AutomationPerEventEffectSummaryV1) (c : Classified)
  : Classified :=
  mkClassified (capabilities ++ cl_capabilities c) (Z.lor (cl_required_permissions c) permissions)
    (effect (cl_effects c)).

Definition response_step (e : AutomationPerEventEffectSummaryV1) : AutomationPerEventEffectSummaryV1 :=
  mkPerEvent (pe_response_steps e + 1) (pe_compensatable_external_writes e)
    (pe_non_compensatable_external_writes e).
Definition compensatable (e : AutomationPerEventEffectSummaryV1) : AutomationPerEventEffectSummaryV1 :=
  mkPerEvent (pe_response_steps e) (pe_compensatable_external_writes e + 1)
    (pe_non_compensatable_external_writes e).
Definition non_compensatable (e : AutomationPerEventEffectSummaryV1) : AutomationPerEventEffectSummaryV1 :=
  mkPerEvent (pe_response_steps e) (pe_compensatable_external_writes e)
    (pe_non_compensatable_external_writes e + 1).

Definition classify_action (action : ActionV1) (c : Classified) : Classified :=
  match action with
  | RespondEphemeralV1 _ | OpenModalV1 _ | DeferEphemeralV1 =>
      needs [CapInteractionResponse] 0 response_step c
  | EditResponseV1 _ => needs [CapInteractionResponse] 0 non_compensatable c
  | CreateChannelV1 _ _ => needs [CapManageChannels] MANAGE_CHANNELS compensatable c
  | CreateRoleV1 _ _ | GrantRoleV1 _ _ => needs [CapManageRoles] MANAGE_ROLES compensatable c
  | UpsertOverwriteV1 _ _ _ _ => needs [CapManageChannels; CapManageRoles] MANAGE_ROLES compensatable c
  | PostPanelV1 _ _ _ _ => needs [CapPostMessages] (Z.lor VIEW_CHANNEL SEND_MESSAGES) compensatable c
  | RegisterInstanceV1 _ _ _ => needs [CapManageInstances] 0 compensatable c
  | TeardownInstanceV1 _ =>
      needs [CapManageChannels; CapManageInstances; CapManageRoles] (Z.lor MANAGE_CHANNELS MANAGE_ROLES)
        non_compensatable c
  end.

Fixpoint count_condition_nodes (condition : ConditionExprV1) : Z :=
  match condition with
  | AlwaysV1 | InputNonEmptyV1 _ | InputEqualsV1 _ _ => 1
  | AllV1 conditions | AnyV1 conditions =>
      1 + (fix sum (l : list ConditionExprV1) : Z :=
             match l with [] => 0 | c :: rest => count_condition_nodes c + sum rest end) conditions
  | NotV1 c => 1 + count_condition_nodes c
  end.

(** What the loops of [preview_automation_spec_v1] compute. *)
Definition classify_spec (spec : AutomationSpecV1) : Classified :=
  let start :=
    match as_panels spec with
    | [] => mkClassified [] 0 (mkPerEvent 0 0 0)
    | _ => mkClassified [CapPostMessages] (Z.lor VIEW_CHANNEL SEND_MESSAGES) (mkPerEvent 0 0 0)
    end in
  foldl (λ c node, classify_action (an_action node) c) start (as_workflows spec ≫= wf_actions).

Definition is_conditional (spec : AutomationSpecV1) : bool :=
  existsb (λ workflow, negb (is_unconditional (wf_condition workflow))) (as_workflows spec).

(** [n as u32]. *)
Definition as_u32 (n : Z) : Z := n mod 2 ^ 32.

(** ** Identities and source maps *)
Definition AUTOMATION_COMPILER_REVISION_V1 : Z := 1.
Definition AUTOMATION_SOURCE_MAP_SCHEMA_VERSION_V1 : Z := 1.
Definition AUTOMATION_SOURCE_MAP_KIND_V1 : string := "starring.automation-source-map.v1".
Definition AUTOMATION_COMPILATION_BINDING_FORMAT_VERSION_V1 : Z := 1.
Definition AUTOMATION_COMPILATION_BINDING_KIND_V1 : string := "starring.automation-compilation-binding.v1".
Definition AUTOMATION_SPEC_DIGEST_DOMAIN_V1 : list Z := domain_bytes "starring.automation_spec.v1".
Definition SOURCE_MAP_DOMAIN_V1 : list Z := domain_bytes "starring.automation_source_map.v1".
Definition COMPILATION_BINDING_DOMAIN_V1 : list Z := domain_bytes "starring.automation_compilation_binding.v1".

Record AutomationSpecIdentityV1 := mkSpecIdentity {
  si_schema_version : Z;
  si_digest : list Z
}.

Record AutomationRuleSetIdentityV1 := mkRuleSetIdentity {
  ri_ruleset_key : string;
  ri_schema_version : Z;
  ri_content_hash : list Z
}.

Record ActionSourceMapV1 := mkActionSource {
  sa_action_node_id : string;
  sa_source_action_index : Z;
  sa_target_action_index : Z
}.

Record WorkflowSourceMapV1 := mkWorkflowSource {
  sw_workflow_id : string;
  sw_source_workflow_index : Z;
  sw_target_rule_index : Z;
  sw_target_rule_key : string;
  sw_actions : list ActionSourceMapV1
}.

Record AutomationSourceMapV1 := mkSourceMap {
  sm_schema_version : Z;
  sm_kind : string;
  sm_compiler_revision : Z;
  sm_source : AutomationSpecIdentityV1;
  sm_target : AutomationRuleSetIdentityV1;
  sm_workflows : list WorkflowSourceMapV1
}.

Record AutomationCompilationBindingV1 := mkCompilationBinding {
  cb_format_version : Z;
  cb_kind : string;
  cb_compiler_revision : Z;
  cb_source : AutomationSpecIdentityV1;
  cb_target : AutomationRuleSetIdentityV1;
  cb_source_map_schema_version : Z;
  cb_source_map_digest : list Z
}.

#[export] Instance AutomationSpecIdentityV1_eq_dec : EqDecision AutomationSpecIdentityV1.
Proof. solve_decision. Defined.
#[export] Instance AutomationRuleSetIdentityV1_eq_dec : EqDecision AutomationRuleSetIdentityV1.
Proof. solve_decision. Defined.
#[export] Instance ActionSourceMapV1_eq_dec : EqDecision ActionSourceMapV1.
Proof. solve_decision. Defined.
#[export] Instance WorkflowSourceMapV1_eq_dec : EqDecision WorkflowSourceMapV1.
Proof. solve_decision. Defined.
#[export] Instance AutomationSourceMapV1_eq_dec : EqDecision AutomationSourceMapV1.
Proof. solve_decision. Defined.
#[export] Instance AutomationCompilationBindingV1_eq_dec : EqDecision AutomationCompilationBindingV1.
Proof. solve_decision. Defined.

Record CompiledTargetArtifactsV1 := mkArtifacts {
  ct_ruleset : InteractionRuleSet;
  ct_target : AutomationRuleSetIdentityV1;
  ct_source_map : AutomationSourceMapV1;
  ct_source_map_digest : list Z;
  ct_binding : AutomationCompilationBindingV1;
  ct_binding_digest : list Z
}.

Inductive AutomationSpecDigestErrorV1 :=
| DigestInvalid (diagnostics : Diagnostics)
| DigestEncoding.

Inductive AutomationCompilationIdentityErrorV1 :=
| IdentityInvalidSpec (diagnostics : Diagnostics)
| IdentitySpec (e : AutomationSpecDigestErrorV1)
| IdentityRuleSetKey
| IdentityRuleSetIdentity
| IdentityEncoding
| IdentityMismatch
| IdentityConditionalRuntimeUnavailable.

(** ** Previews *)
Inductive AutomationStaticEligibilityV1 := CompatibleWithInteractionRuntimeV1 | RuntimeExtensionRequired.
Inductive AutomationDeploymentBlockerV1 := ConditionalExecutionRuntimeUnavailable.
Inductive AutomationCompilationPreviewV1 :=
| CompilationAvailable (target : AutomationRuleSetIdentityV1) (source_map_digest binding_digest : list Z)
| CompilationBlocked.

Record AutomationPreviewSummaryV1 := mkPreviewSummary {
  ps_panels : Z;
  ps_modals : Z;
  ps_workflows : Z;
  ps_actions : Z;
  ps_maximum_actions_per_event : Z;
  ps_condition_nodes : Z
}.

(** The three readiness fields have one value each and are left out. *)
Record AutomationPreviewV1 := mkAutomationPreview {
  ap_schema_version : Z;
  ap_spec_digest : list Z;
  ap_display_name : string;
  ap_description : string;
  ap_summary : AutomationPreviewSummaryV1;
  ap_capabilities : list AutomationCapabilityV1;
  ap_conservative_discord_permission_bits : Z;
  ap_declared_panel_posts : Z;
  ap_per_event : AutomationPerEventEffectSummaryV1;
  ap_static_eligibility : AutomationStaticEligibilityV1;
  ap_deployment_blockers : list AutomationDeploymentBlockerV1;
  ap_compilation : AutomationCompilationPreviewV1
}.

Inductive AutomationPreviewErrorV1 :=
| PreviewInvalid (diagnostics : Diagnostics)
| PreviewIdentity (e : AutomationSpecDigestErrorV1)
| PreviewCompilation (e : AutomationCompilationIdentityErrorV1).

Record CompiledAutomationSpecV1 := mkCompiledSpec {
  cs_spec_digest : list Z;
  cs_ruleset_content_hash : list Z;
  cs_target : AutomationRuleSetIdentityV1;
  cs_ruleset : InteractionRuleSet;
  cs_source_map : AutomationSourceMapV1;
  cs_source_map_digest : list Z;
  cs_binding : AutomationCompilationBindingV1;
  cs_binding_digest : list Z;
  cs_preview : AutomationPreviewV1
}.

Inductive AutomationSpecCompileErrorV1 :=
| CompileInvalid (diagnostics : Diagnostics)
| CompileConditionalRuntimeUnavailable
| CompileCompilationIdentity (e : AutomationCompilationIdentityErrorV1)
| CompilePreview (e : AutomationPreviewErrorV1).

Definition action_source_map (actions : list ActionNodeV1) : list ActionSourceMapV1 :=
  imap (λ index node, mkActionSource (an_id node) (as_u32 (Z.of_nat index)) (as_u32 (Z.of_nat index))) actions.

Definition workflow_source_map (workflows : list WorkflowSpecV1) : list WorkflowSourceMapV1 :=
  imap (λ index workflow,
          mkWorkflowSource (wf_id workflow) (as_u32 (Z.of_nat index)) (as_u32 (Z.of_nat index))
            (wf_id workflow) (action_source_map (wf_actions workflow))) workflows.

(** What [framed_sha256] digests: the domain, then the length and the bytes. *)
Definition framed_sha256 (sha256 : list Z → list Z) (domain bytes : list Z) : list Z :=
  sha256 (domain ++ framed bytes).

Section compile.
Context (encoded_len : AutomationSpecV1 → option Z) (debug_validation_error : ValidationError → string).
(** [canonical_json_bytes] of the three documents, and [content_hash]. *)
Context (spec_json : AutomationSpecV1 → option (list Z))
        (source_map_json : AutomationSourceMapV1 → option (list Z))
        (binding_json : AutomationCompilationBindingV1 → option (list Z)).
Context (content_hash : Z → InteractionRuleSet → Result RuleSetHashError (list Z)).
Context (sha256 : list Z → list Z).

Abbreviation validate_spec := (validate_automation_spec_v1 encoded_len debug_validation_error) (only parsing).

Definition simulate_automation_spec_v1 (spec : AutomationSpecV1) (event : AutomationSimulationEventV1)
  : Result AutomationSimulationErrorV1 AutomationSimulationTraceV1 :=
  _ ← map_err SimulationInvalidSpec (validate_spec spec);
  _ ← validate_simulation_event event;
  match List.find (λ workflow, bool_decide (wf_trigger workflow = se_trigger event)) (as_workflows spec) with
  | None => Ok (mkSimulationTrace NoTriggerMatch None None [] [])
  | Some workflow =>
      normalized_inputs ← normalize_event_inputs spec event;
      let condition_result := evaluate_condition (wf_condition workflow) normalized_inputs in
      Ok (mkSimulationTrace (if condition_result then ActionsPlanned else ConditionNotSatisfied)
            (Some (wf_id workflow)) (Some condition_result) normalized_inputs
            (if condition_result then map an_id (wf_actions workflow) else []))
  end.

Definition automation_spec_digest_v1 (spec : AutomationSpecV1) : Result AutomationSpecDigestErrorV1 (list Z) :=
  _ ← map_err DigestInvalid (validate_spec spec);
  bytes ← ok_or (spec_json spec) DigestEncoding;
  Ok (framed_sha256 sha256 AUTOMATION_SPEC_DIGEST_DOMAIN_V1 bytes).

Definition automation_source_map_digest_v1 (source_map : AutomationSourceMapV1)
  : Result AutomationCompilationIdentityErrorV1 (list Z) :=
  bytes ← ok_or (source_map_json source_map) IdentityEncoding;
  Ok (framed_sha256 sha256 SOURCE_MAP_DOMAIN_V1 bytes).

Definition automation_compilation_binding_digest_v1 (binding : AutomationCompilationBindingV1)
  : Result AutomationCompilationIdentityErrorV1 (list Z) :=
  bytes ← ok_or (binding_json binding) IdentityEncoding;
  Ok (framed_sha256 sha256 COMPILATION_BINDING_DOMAIN_V1 bytes).

Definition build_compiled_target_artifacts_v1 (spec : AutomationSpecV1)
  : Result AutomationCompilationIdentityErrorV1 CompiledTargetArtifactsV1 :=
  _ ← map_err IdentityInvalidSpec (validate_spec spec);
  _ ← ensure (negb (is_conditional spec)) IdentityConditionalRuntimeUnavailable;
  _ ← map_err (λ _, IdentityRuleSetKey) (ruleset_key_parse (as_key spec));
  let ruleset := lower_shape spec in
  hash ← map_err (λ _, IdentityRuleSetIdentity) (content_hash CURRENT_RULESET_SCHEMA_VERSION ruleset);
  digest ← map_err IdentitySpec (automation_spec_digest_v1 spec);
  let source := mkSpecIdentity (as_schema_version spec) digest in
  let target := mkRuleSetIdentity (as_key spec) CURRENT_RULESET_SCHEMA_VERSION hash in
  let source_map :=
    mkSourceMap AUTOMATION_SOURCE_MAP_SCHEMA_VERSION_V1 AUTOMATION_SOURCE_MAP_KIND_V1
      AUTOMATION_COMPILER_REVISION_V1 source target (workflow_source_map (as_workflows spec)) in
  source_map_digest ← automation_source_map_digest_v1 source_map;
  let binding :=
    mkCompilationBinding AUTOMATION_COMPILATION_BINDING_FORMAT_VERSION_V1
      AUTOMATION_COMPILATION_BINDING_KIND_V1 AUTOMATION_COMPILER_REVISION_V1 source target
      AUTOMATION_SOURCE_MAP_SCHEMA_VERSION_V1 source_map_digest in
  binding_digest ← automation_compilation_binding_digest_v1 binding;
  Ok (mkArtifacts ruleset target source_map source_map_digest binding binding_digest).

Definition validate_automation_compilation_v1 (spec : AutomationSpecV1) (ruleset : InteractionRuleSet)
    (source_map : AutomationSourceMapV1) (binding : AutomationCompilationBindingV1)
  : Result AutomationCompilationIdentityErrorV1 unit :=
  expected ← build_compiled_target_artifacts_v1 spec;
  if negb (bool_decide (ct_ruleset expected = ruleset))
     || negb (bool_decide (ct_source_map expected = source_map))
     || negb (bool_decide (ct_binding expected = binding))
     || negb (sm_schema_version source_map =? AUTOMATION_SOURCE_MAP_SCHEMA_VERSION_V1)
     || negb (String.eqb (sm_kind source_map) AUTOMATION_SOURCE_MAP_KIND_V1)
     || negb (sm_compiler_revision source_map =? AUTOMATION_COMPILER_REVISION_V1)
     || negb (cb_format_version binding =? AUTOMATION_COMPILATION_BINDING_FORMAT_VERSION_V1)
     || negb (String.eqb (cb_kind binding) AUTOMATION_COMPILATION_BINDING_KIND_V1)
     || negb (cb_compiler_revision binding =? AUTOMATION_COMPILER_REVISION_V1)
     || negb (cb_source_map_schema_version binding =? AUTOMATION_SOURCE_MAP_SCHEMA_VERSION_V1)
  then Err IdentityMismatch
  else
    digest ← automation_source_map_digest_v1 source_map;
    ensure (bool_decide (digest = cb_source_map_digest binding)) IdentityMismatch.

Definition preview_automation_spec_v1 (spec : AutomationSpecV1)
  : Result AutomationPreviewErrorV1 AutomationPreviewV1 :=
  _ ← map_err PreviewInvalid (validate_spec spec);
  spec_digest ← map_err PreviewIdentity (automation_spec_digest_v1 spec);
  let classified := classify_spec spec in
  let conditional := is_conditional spec in
  let actions := map (λ workflow, as_u32 (len (wf_actions workflow))) (as_workflows spec) in
  compilation ← (if conditional then Ok CompilationBlocked
                 else compiled ← map_err PreviewCompilation (build_compiled_target_artifacts_v1 spec);
                      Ok (CompilationAvailable (ct_target compiled) (ct_source_map_digest compiled)
                            (ct_binding_digest compiled)));
  Ok (mkAutomationPreview (as_schema_version spec) spec_digest (as_display_name spec) (as_description spec)
        (mkPreviewSummary (as_u32 (len (as_panels spec))) (as_u32 (len (as_modals spec)))
           (as_u32 (len (as_workflows spec))) (foldr Z.add 0 actions) (foldr Z.max 0 actions)
           (as_u32 (foldr Z.add 0 (map (λ w, count_condition_nodes (wf_condition w)) (as_workflows spec)))))
        (List.filter (λ c, bool_decide (c ∈ cl_capabilities classified)) all_capabilities)
        (cl_required_permissions classified)
        (as_u32 (len (as_panels spec)))
        (cl_effects classified)
        (if conditional then RuntimeExtensionRequired else CompatibleWithInteractionRuntimeV1)
        (if conditional then [ConditionalExecutionRuntimeUnavailable] else [])
        compilation).

Definition compile_deployable_automation_spec_v1 (spec : AutomationSpecV1)
  : Result AutomationSpecCompileErrorV1 CompiledAutomationSpecV1 :=
  _ ← map_err CompileInvalid (validate_spec spec);
  _ ← ensure (negb (is_conditional spec)) CompileConditionalRuntimeUnavailable;
  compiled ← map_err CompileCompilationIdentity (build_compiled_target_artifacts_v1 spec);
  preview ← map_err CompilePreview (preview_automation_spec_v1 spec);
  Ok (mkCompiledSpec (si_digest (cb_source (ct_binding compiled))) (ri_content_hash (ct_target compiled))
        (ct_target compiled) (ct_ruleset compiled) (ct_source_map compiled) (ct_source_map_digest compiled)
        (ct_binding compiled) (ct_binding_digest compiled) preview).
End compile.
