(* ===== verification/SpecSound.v ===== *)
(** * What validation of a document promises

    First the roles along forwarded instance actions, then routes and instances. The theory of the loop by which validation collects what an instance action needs
    of the instance it runs on: the loop ends, and it computes exactly the aliases used
    by the actions that can be reached by forwarding the instance. *)

From Stdlib Require Import ZArith Lia Ascii String.
From stdpp Require Import base decidable list strings gmap sets fin_sets numbers relations.
From S2P Require Import Prelude RustStd RustText DiscordModel Resolution Instance AutomationState Template.
From S2P Require Import AutomationPlan AutomationValidate AutomationExec AutomationSound AutomationFootprint.
From S2P Require Import RuleSet Readiness ReadinessSpec ApprovalBinding SpecModel SpecValidate SpecCompile.
Open Scope Z_scope.

(** ** Sets as sorted lists *)
Definition bset (s : list (string * unit)) : gset string := list_to_set s.*1.

Lemma elem_of_bset k s : bt_sorted s → k ∈ bset s ↔ bt_get s k = Some tt.
Proof.
  intros Hs. unfold bset. rewrite elem_of_list_to_set, list_elem_of_fmap. rewrite <- bt_get_elem by done. split.
  - by intros ([? []] & -> & ?).
  - intros ?. by exists (k, tt).
Qed.

Lemma bset_size s : bt_sorted s → size (bset s) = length s.
Proof.
  intros Hs. unfold bset. rewrite size_list_to_set by (by apply bt_sorted_NoDup). by rewrite length_fmap.
Qed.

Lemma bset_insert k s : bt_sorted s → bset (bs_insert k s) = {[k]} ∪ bset s.
Proof.
  intros Hs. apply set_eq. intros x. unfold bs_insert, bt_insert.
  rewrite elem_of_union, elem_of_singleton, !elem_of_bset by (try apply bt_upsert_sorted; done).
  destruct (decide (x = k)) as [->|Hne].
  - rewrite bt_get_upsert_eq by done. naive_solver.
  - rewrite bt_get_upsert_ne by done. naive_solver.
Qed.

Lemma bs_extend_sorted keys s : bt_sorted s → bt_sorted (bs_extend keys s).
Proof.
  revert s. induction keys as [|k keys IH]; intros s Hs; [done|]. cbn. apply IH, bt_upsert_sorted, Hs.
Qed.

Lemma bset_extend keys s : bt_sorted s → bset (bs_extend keys s) = list_to_set keys ∪ bset s.
Proof.
  revert s. induction keys as [|k keys IH]; intros s Hs; [cbn; set_solver|].
  change (bs_extend (k :: keys) s) with (bs_extend keys (bs_insert k s)).
  rewrite IH by (by apply bt_upsert_sorted). rewrite bset_insert by done. cbn. set_solver.
Qed.

(** ** Requirements as functions *)
Definition roles (R : Requirements) (action : string) : gset string := bset (or_default (bt_get R action)).

Record req_wf (R : Requirements) : Prop := {
  rq_sorted : bt_sorted R;
  rq_values : ∀ a s, bt_get R a = Some s → bt_sorted s
}.

Lemma value_sorted R a : req_wf R → bt_sorted (or_default (bt_get R a)).
Proof. intros [_ Hv]. destruct (bt_get R a) eqn:E; [by eapply Hv|]. constructor. Qed.

Lemma req_wf_nil : req_wf [].
Proof. split; [constructor|done]. Qed.

Lemma req_wf_upsert f a R : req_wf R → (∀ s, bt_sorted (or_default s) → bt_sorted (f s)) →
  req_wf (bt_upsert f a R).
Proof.
  intros HR Hf. split; [apply bt_upsert_sorted, HR|]. intros b s.
  destruct (decide (a = b)) as [<-|Hne].
  - rewrite bt_get_upsert_eq by apply HR. intros [= <-]. apply Hf, value_sorted, HR.
  - rewrite bt_get_upsert_ne by done. apply HR.
Qed.

Lemma roles_upsert f a R b : req_wf R →
  roles (bt_upsert f a R) b = if decide (a = b) then bset (f (bt_get R a)) else roles R b.
Proof.
  intros HR. unfold roles. destruct (decide (a = b)) as [<-|Hne].
  - by rewrite bt_get_upsert_eq by apply HR.
  - by rewrite bt_get_upsert_ne.
Qed.

Lemma inherited_spec downstream R x :
  x ∈ inherited_roles downstream R ↔ ∃ b, b ∈ bset downstream ∧ x ∈ roles R b.
Proof.
  unfold inherited_roles, roles, bset. rewrite list_elem_of_bind. setoid_rewrite elem_of_list_to_set. naive_solver.
Qed.

(** ** The loop *)

(** [F] is what each action forwards to; [R] is closed when nothing is left to inherit. *)
Definition closed (F : string → gset string) (R : string → string → Prop) : Prop :=
  ∀ a b x, b ∈ F a → R b x → R a x.

Definition within (R : Requirements) (S : string → string → Prop) : Prop := ∀ a x, x ∈ roles R a → S a x.

Definition forwards (forwarded : Requirements) (a : string) : gset string := roles forwarded a.

Section turn.
Context (F : string → gset string).

(** One entry of a turn. *)
Definition inherit_entry (a : string) (downstream : list (string * unit)) (R : Requirements) : Requirements :=
  bt_insert a (bs_extend (inherited_roles downstream R) (or_default (bt_get R a))) R.

Lemma inherit_entry_wf a d R : req_wf R → req_wf (inherit_entry a d R).
Proof.
  intros HR. apply req_wf_upsert; [done|]. intros _ _. apply bs_extend_sorted, value_sorted, HR.
Qed.

Lemma inherit_entry_roles a d R b : req_wf R →
  roles (inherit_entry a d R) b =
    if decide (a = b) then list_to_set (inherited_roles d R) ∪ roles R a else roles R b.
Proof.
  intros HR. unfold inherit_entry, bt_insert. rewrite roles_upsert by done.
  destruct (decide (a = b)); [|done]. by rewrite bset_extend by (by apply value_sorted).
Qed.

Lemma inherit_entry_grows a d R b : req_wf R → roles R b ⊆ roles (inherit_entry a d R) b.
Proof. intros HR. rewrite inherit_entry_roles by done. case_decide; set_solver. Qed.

(** What a closed assignment allows stays allowed. *)
Lemma inherit_entry_least a d R S : req_wf R → (∀ b, b ∈ bset d → b ∈ F a) → closed F S →
  within R S → within (inherit_entry a d R) S.
Proof.
  intros HR Hd HS Hle b x. rewrite inherit_entry_roles by done. case_decide as Hab; [|apply Hle]. subst b.
  rewrite elem_of_union, elem_of_list_to_set, inherited_spec. intros [(b & Hb & Hx)|Hx]; [|by apply Hle].
  apply (HS a b); [by apply Hd|]. by apply Hle.
Qed.

Record turn_spec (fwd : Requirements) (R R' : Requirements) (changed : bool) : Prop := {
  ts_wf : req_wf R';
  ts_grows : ∀ b, roles R b ⊆ roles R' b;
  ts_least : ∀ S, closed F S → within R S → within R' S;
  ts_changed : if changed then ∃ a, a ∈ fwd.*1 ∧ (size (roles R a) < size (roles R' a))%nat
               else (∀ b, roles R' b = roles R b) ∧ ∀ a d, (a, d) ∈ fwd → ∀ b, b ∈ bset d → roles R b ⊆ roles R a
}.

Lemma inherit_turn_spec fwd R R' changed : req_wf R → (∀ a d, (a, d) ∈ fwd → ∀ b, b ∈ bset d → b ∈ F a) →
  inherit_turn fwd R = (R', changed) → turn_spec fwd R R' changed.
Proof.
  revert R R' changed. induction fwd as [|[a d] fwd IH]; intros R R' changed HR HF.
  { intros [= <- <-]. split; [done|done|naive_solver|]. split; [done|]. by intros ?? ?%not_elem_of_nil. }
  cbn [inherit_turn].
  change (bt_insert a (bs_extend (inherited_roles d R) (or_default (bt_get R a))) R) with (inherit_entry a d R).
  destruct (inherit_turn fwd (inherit_entry a d R)) as [R2 ch] eqn:E. intros [= <- <-].
  pose proof (inherit_entry_wf a d R HR) as HR1.
  destruct (IH _ _ _ HR1 (λ a' d' H, HF a' d' (list_elem_of_further _ _ _ H)) E) as [Hwf Hgr Hle Hch].
  pose proof (λ b, inherit_entry_grows a d R b HR) as Hg1.
  pose proof (value_sorted R a HR) as Hv.
  assert (Hsize : ∀ b, (size (roles R b) ≤ size (roles (inherit_entry a d R) b))%nat)
    by (intros b; by apply subseteq_size).
  split; [done|intros b; etrans; [apply Hg1|apply Hgr]| |].
  { intros S HS HRS. apply Hle; [done|]. apply inherit_entry_least; [done|apply (HF a d); left|done|done]. }
  assert (Hlen : len (bs_extend (inherited_roles d R) (or_default (bt_get R a))) =
                 Z.of_nat (size (roles (inherit_entry a d R) a))).
  { unfold len. rewrite <- bset_size by (by apply bs_extend_sorted). rewrite bset_extend by done.
    rewrite inherit_entry_roles, decide_True by done. done. }
  assert (Hlen0 : len (or_default (bt_get R a)) = Z.of_nat (size (roles R a))).
  { unfold len, roles. by rewrite bset_size. }
  rewrite Hlen, Hlen0. destruct (Z.eqb_spec (Z.of_nat (size (roles (inherit_entry a d R) a)))
    (Z.of_nat (size (roles R a)))) as [Hsz|Hsz]; cbn [negb orb].
  - assert (Hsame : ∀ b, roles (inherit_entry a d R) b = roles R b).
    { intros b. destruct (decide (a = b)) as [<-|Hne].
      - symmetry. apply set_subseteq_size_eq; [apply Hg1|lia].
      - by rewrite inherit_entry_roles, decide_False. }
    destruct ch.
    + destruct Hch as (a' & Ha' & Hlt). exists a'. rewrite Hsame in Hlt. split; [by right|done].
    + destruct Hch as [Heq Hcl]. split; [intros b; by rewrite Heq|].
      intros a' d' [Had|Hin]%elem_of_cons b Hb.
      * injection Had as -> ->. rewrite <- (Hsame a), inherit_entry_roles, decide_True by done.
        intros x Hx. apply elem_of_union_l, elem_of_list_to_set, inherited_spec. eauto.
      * rewrite <- (Hsame a'), <- (Hsame b). by eapply Hcl.
  - assert (Hlt : (size (roles R a) < size (roles R2 a))%nat).
    { pose proof (Hsize a). pose proof (subseteq_size _ _ (Hgr a)). lia. }
    exists a. split; [left|done].
Qed.
End turn.

Definition total_roles (keys : list string) (R : Requirements) : nat :=
  sum_list (map (λ a, size (roles R a)) keys).

Lemma total_roles_bound keys R (U : gset string) : (∀ b, roles R b ⊆ U) →
  (total_roles keys R ≤ length keys * size U)%nat.
Proof.
  intros HU. unfold total_roles. induction keys as [|k keys IH]; cbn; [done|].
  pose proof (subseteq_size _ _ (HU k)). lia.
Qed.

Lemma total_roles_grows keys R R' : (∀ b, roles R b ⊆ roles R' b) →
  (∃ a, a ∈ keys ∧ (size (roles R a) < size (roles R' a))%nat) → (total_roles keys R < total_roles keys R')%nat.
Proof.
  intros Hgr (a & Ha & Hlt). unfold total_roles.
  assert (Hle : ∀ l : list string,
    (sum_list (map (λ a, size (roles R a)) l) ≤ sum_list (map (λ a, size (roles R' a)) l))%nat).
  { intros l. induction l as [|k l IH]; cbn; [done|]. pose proof (subseteq_size _ _ (Hgr k)). lia. }
  induction Ha as [k l|k k' l Hk IH]; cbn; [pose proof (Hle l); lia|].
  pose proof (subseteq_size _ _ (Hgr k')). specialize (IH Hlt). lia.
Qed.

(** The aliases that occur anywhere. *)
Definition universe (R : Requirements) : gset string := ⋃ (map (λ e : string * list (string * unit), bset e.2) R).

Lemma roles_universe R b : req_wf R → roles R b ⊆ universe R.
Proof.
  intros HR x Hx. unfold roles in Hx. destruct (bt_get R b) as [s|] eqn:E; [|by apply elem_of_empty in Hx].
  apply elem_of_union_list. exists (bset s). split; [|done]. apply list_elem_of_fmap. exists (b, s).
  split; [done|]. apply bt_get_elem; [apply HR|done].
Qed.

Lemma universe_size R : req_wf R →
  (size (universe R) ≤ sum_list (map (λ e : string * list (string * unit), length e.2) R))%nat.
Proof.
  intros [Hs Hv]. assert (Hall : Forall (λ e : string * list (string * unit), bt_sorted e.2) R).
  { apply Forall_forall. intros [a s] Hin. eapply Hv. by apply bt_get_elem. }
  clear Hs Hv. unfold universe. induction Hall as [|[a s] R Hs _ IH]; [done|]. cbn in Hs.
  cbn [map union_list foldr sum_list fst snd].
  set (V := ⋃ map (λ e : string * list (string * unit), bset e.2) R) in *. change (foldr _ _ _) with V.
  rewrite size_union_alt, bset_size by done. pose proof (subseteq_size (V ∖ bset s) V ltac:(set_solver)). change (id (length s)) with (length s). lia.
Qed.

Record inherits (forwarded R R' : Requirements) : Prop := {
  in_wf : req_wf R';
  in_grows : ∀ b, roles R b ⊆ roles R' b;
  in_closed : closed (forwards forwarded) (λ a x, x ∈ roles R' a);
  in_least : ∀ S, closed (forwards forwarded) S → within R S → within R' S
}.

Lemma forwards_entry fwd a d : req_wf fwd → (a, d) ∈ fwd → forwards fwd a = bset d.
Proof. intros HF Hin. unfold forwards, roles. apply bt_get_elem in Hin; [|apply HF]. by rewrite Hin. Qed.

Lemma inherit_loop_spec fwd fuel R U : req_wf fwd → req_wf R → (∀ b, roles R b ⊆ U) →
  (length fwd * size U < fuel + total_roles fwd.*1 R)%nat → inherits fwd R (inherit_loop fuel fwd R).
Proof.
  intros HF. revert R. induction fuel as [|fuel IH]; intros R HR HU Hfuel; cbn [inherit_loop].
  { pose proof (total_roles_bound fwd.*1 R U HU) as Hb. rewrite length_fmap in Hb. lia. }
  destruct (inherit_turn fwd R) as [R1 ch] eqn:E.
  apply (inherit_turn_spec (forwards fwd)) in E as [Hwf Hgr Hle Hch]; [|done|].
  2: { intros a d Hin b Hb. by rewrite (forwards_entry _ _ _ HF Hin). }
  destruct ch.
  - apply (total_roles_grows fwd.*1) in Hch; [|done].
    destruct (IH R1) as [W G C L]; [done| |lia|].
    { intros b x. apply (Hle (λ _ x, x ∈ U)); [by intros a c y _|by intros a y Hy; apply (HU a)]. }
    split; [done|intros b; etrans; [apply Hgr|apply G]|done|]. intros S HS HRS. apply L; [done|]. by apply Hle.
  - destruct Hch as [Heq Hcl]. split; [done|done| |done]. intros a b x Hb. rewrite !Heq.
    unfold forwards, roles in Hb. destruct (bt_get fwd a) as [d|] eqn:Ed; [|by apply elem_of_empty in Hb].
    apply bt_get_elem in Ed; [|apply HF]. by apply (Hcl a d Ed b Hb).
Qed.

Lemma required_roles_spec R fwd : req_wf R → req_wf fwd → inherits fwd R (required_roles (R, fwd)).
Proof.
  intros HR HF. apply (inherit_loop_spec _ _ _ (universe R)); [done|done|by intros b; apply roles_universe|].
  unfold inherit_fuel. cbn [fst snd]. pose proof (universe_size R HR). nia.
Qed.

(** [b] is reached from [a] by forwarding. *)
Definition forwards_to (F : string → gset string) : string → string → Prop := rtc (λ a b, b ∈ F a).

(** The least closed assignment is the union over what is reached. *)
Lemma inherits_reach fwd R R' a x : req_wf R → inherits fwd R R' →
  x ∈ roles R' a ↔ ∃ b, forwards_to (forwards fwd) a b ∧ x ∈ roles R b.
Proof.
  intros HR [W G C L]. split.
  - apply (L (λ a x, ∃ b, forwards_to (forwards fwd) a b ∧ x ∈ roles R b)).
    + intros a' b y Hb (c & Hc & Hy). exists c. split; [by eapply rtc_l|done].
    + intros b y Hy. exists b. split; [apply rtc_refl|done].
  - intros (b & Hab & Hx). induction Hab as [a|a b c Hb _ IH]; [by apply G|]. apply (C a b x Hb). by apply IH.
Qed.

(** ** What validated automation specs guarantee

    Reading an empty list of diagnostics, the handlers behind the routes of a spec, the
    roles of the instances it creates, and the composition with the runtime: what a
    validated spec compiles to is ready to run and does not go wrong. *)

(** ** Reading an empty list of diagnostics *)
Lemma push_if_nil b code path message : push_if b code path message = [] ↔ b = false.
Proof. by destruct b. Qed.

Lemma each_nil {A} (f : nat → A → Diagnostics) l : each f l = [] ↔ ∀ i x, l !! i = Some x → f i x = [].
Proof.
  unfold each. revert f. induction l as [|x l IH]; intros f; cbn; [split; [by intros _ [|i]|done]|].
  rewrite app_nil, IH. split.
  - intros [Hx Hl] [|i] y; cbn; [by intros [= <-]|apply Hl].
  - intros Hl. split; [by apply (Hl 0%nat)|]. intros i y. apply (Hl (S i)).
Qed.

Lemma pass_nil {S A} (f : nat → A → S → S * Diagnostics) n l s : (pass f n l s).2 = [] →
  ∀ i x, l !! i = Some x → ∃ s', (f (n + i)%nat x s').2 = [].
Proof.
  revert n s. induction l as [|x l IH]; intros n s Hp i y; [done|]. cbn in Hp.
  destruct (f n x s) as [s1 d1] eqn:E. change (_ (Datatypes.S n) l s1) with (pass f (Datatypes.S n) l s1) in Hp.
  destruct (pass f (Datatypes.S n) l s1) as [s2 d2] eqn:E2. cbn in Hp. apply app_nil in Hp as [-> ->].
  destruct i as [|i]; cbn.
  - intros [= <-]. exists s. by rewrite Nat.add_0_r, E.
  - intros Hy. destruct (IH (Datatypes.S n) s1) with (i := i) (x := y) as [s' Hs']; [by rewrite E2|done|].
    exists s'. by rewrite Nat.add_succ_r.
Qed.

Lemma pass_elem {S A} (f : nat → A → S → S * Diagnostics) n l s x : (pass f n l s).2 = [] → x ∈ l →
  ∃ i s', (f i x s').2 = [].
Proof. intros Hp [i Hi]%list_elem_of_lookup. destruct (pass_nil _ _ _ _ Hp _ _ Hi) as [s' ?]. eauto. Qed.

Lemma sort_by_nil {A} (le : A → A → bool) l : sort_by le l = [] ↔ l = [].
Proof.
  destruct l as [|x l]; [done|]. split; [|done]. cbn. generalize (foldr (insert_by le) [] l). intros [|y l']; [done|].
  cbn. by destruct (le x y).
Qed.

Ltac no_diagnostics :=
  repeat match goal with
         | H : _ ++ _ = [] |- _ => apply app_nil in H as [? H]
         | H : push_if _ _ _ _ = [] |- _ => apply push_if_nil in H
         end.

Section validated.
Context (encoded_len : AutomationSpecV1 → option Z) (debug_validation_error : ValidationError → string).

(** The facts about a validated document that the theorems use. *)
Record spec_valid (spec : AutomationSpecV1) : Prop := {
  sv_workflows : validate_workflows spec (validate_modals spec).1 = [];
  sv_routes : validate_rendered_route_handlers spec = [];
  sv_resources : validate_created_instance_route_resources spec = [];
  sv_structural : validate_structural (lower_shape spec) = Ok tt
}.

Lemma validated_spec spec : validate_automation_spec_v1 encoded_len debug_validation_error spec = Ok tt →
  spec_valid spec.
Proof.
  unfold validate_automation_spec_v1. destruct (sort_by _ _) as [|d ds] eqn:Hs; [|done]. intros _.
  apply sort_by_nil in Hs. destruct (shape_diagnostics encoded_len spec) as [|? ?] eqn:Hshape; [|done].
  unfold shape_diagnostics in Hshape. destruct (validate_modals spec) as [fields modals] eqn:Hm.
  no_diagnostics. split; [by rewrite Hm|done|done|].
  unfold graph_diagnostics in Hs. destruct (validate_structural _) as [[]|errors] eqn:Hv; [done|].
  destruct errors as [|e errors].
  - unfold validate_structural, errors_result in Hv. by destruct (structural_errors _).
  - rewrite each_nil in Hs. by specialize (Hs 0%nat e eq_refl).
Qed.
End validated.

(** ** Posted buttons *)
Lemma lower_registers actions :
  registers (map (λ node, lower_action (an_action node)) actions) = registered_outputs actions.
Proof.
  unfold registers, registered_outputs. f_equal. induction actions as [|node actions IH]; [done|].
  cbn. rewrite IH. by destruct (an_action node) as [? []| | | | | | | | | |].
Qed.

Lemma validated_node spec workflow node : spec_valid spec → workflow ∈ as_workflows spec →
  node ∈ wf_actions workflow →
  ∃ path, validate_action (as_key spec) (an_action node) path (wf_trigger workflow)
            (registered_outputs (wf_actions workflow)) = [].
Proof.
  intros Hv Hw Hn. pose proof (sv_workflows _ Hv) as H. unfold validate_workflows in H.
  destruct (pass _ 0 (as_workflows spec) _) as [state ds] eqn:E. apply app_nil in H as [-> _].
  assert (Hp : (pass (validate_workflow (as_key spec) (validate_modals spec).1) 0 (as_workflows spec)
    (mkWorkflowPass ∅ ∅ ∅ 0)).2 = []) by (by rewrite E).
  destruct (pass_elem _ _ _ _ _ Hp Hw) as (i & s & Hi). unfold validate_workflow in Hi.
  destruct (insert_or (wf_id workflow) _ _ _ _) as [? ?]. destruct (insert_or (trigger_identity _) _ _ _ _) as [? ?].
  destruct (pass _ 0 (wf_actions workflow) _) as [ns nodes] eqn:En. cbn [snd] in Hi. no_diagnostics.
  match goal with H : nodes = [] |- _ => rename H into Hnodes end.
  assert (Hp2 : (pass (validate_node (as_key spec) (item "/workflows" i) workflow
    (registered_outputs (wf_actions workflow))) 0 (wf_actions workflow) (wp_action_ids s, false)).2 = [])
    by (by rewrite En).
  destruct (pass_elem _ _ _ _ _ Hp2 Hn) as (j & [ids seen] & Hj). unfold validate_node in Hj.
  destruct (insert_or _ _ _ _ _). cbn [snd] in Hj. no_diagnostics. eauto.
Qed.

Lemma validated_button spec workflow node output channel content buttons button :
  spec_valid spec → workflow ∈ as_workflows spec → node ∈ wf_actions workflow →
  an_action node = PostPanelV1 output channel content buttons → button ∈ buttons →
  match ab_route button with
  | StaticRouteV1 _ => True
  | InstanceActionRouteV1 EventInstanceV1 _ => is_instance_trigger (wf_trigger workflow) = true
  | InstanceActionRouteV1 (CreatedInstanceV1 created) _ => created ∈ registered_outputs (wf_actions workflow)
  end.
Proof.
  intros Hv Hw Hn Ha Hb. destruct (validated_node _ _ _ Hv Hw Hn) as [path H]. rewrite Ha in H.
  cbn [validate_action] in H. no_diagnostics. destruct (pass_elem _ _ _ _ _ H Hb) as (i & s & Hi).
  unfold validate_posted_button, route_unique, insert_or in Hi.
  destruct (ab_route button) as [|[|created] action]; [done| |]; cbn [snd] in Hi; no_diagnostics.
  - match goal with H : negb _ = false |- _ => by apply negb_false_iff in H end.
  - match goal with H : bool_decide (_ ∉ _) = false |- _ => apply bool_decide_eq_false in H; by apply dec_stable end.
Qed.

Lemma validated_posted spec : spec_valid spec → posted_instances_registered (lower_shape spec).
Proof.
  intros Hv rule (workflow & -> & Hw)%list_elem_of_fmap. cbn [lower_workflow ru_actions].
  apply Forall_forall. intros a (node & -> & Hn)%list_elem_of_fmap. rewrite lower_registers.
  destruct (an_action node) as [? []| | | | | |output channel content buttons| | | |] eqn:Ha; try done.
  cbn [lower_action buttons_ok]. intros b (button & -> & Hb)%list_elem_of_fmap.
  pose proof (validated_button _ _ _ _ _ _ _ _ Hv Hw Hn Ha Hb) as H. unfold button_ok, lower_button. cbn [bt_route].
  destruct (ab_route button) as [|[|created] action]; cbn [lower_instance_reference]; try done.
  unfold is_instance_rule, lower_workflow. cbn [ru_trigger]. by destruct (wf_trigger workflow).
Qed.

(** ** Counting *)
Definition occurrences (key : string) (keys : list string) : nat := length (filter (λ k, k = key) keys).

Lemma bump_counts keys counts key :
  foldl (λ c k, bump k c) counts keys !! key =
    match occurrences key keys with
    | O => counts !! key
    | n => Some (default 0 (counts !! key) + Z.of_nat n)
    end.
Proof.
  revert counts. induction keys as [|k keys IH]; intros counts; [done|].
  cbn [foldl]. rewrite IH. unfold occurrences, bump. rewrite filter_cons. case_decide as Hk; cbn [length].
  - subst k. rewrite lookup_insert_eq. destruct (length _); cbn [default from_option id]; f_equal; lia.
  - by rewrite lookup_insert_ne.
Qed.

Lemma counted_once keys key : foldl (λ c k, bump k c) ∅ keys !! key = Some 1 ↔ occurrences key keys = 1%nat.
Proof.
  rewrite bump_counts, lookup_empty. cbn [default]. destruct (occurrences key keys) as [|n]; [by split|].
  split; [intros H; apply (inj Some) in H|intros [= ->]; done]. cbn in H. lia.
Qed.

Lemma occurrences_map {A} (f : A → string) (l : list A) key x y : occurrences key (map f l) = 1%nat →
  x ∈ l → y ∈ l → f x = key → f y = key → x = y.
Proof.
  unfold occurrences. induction l as [|z l IH]; [intros _ []%not_elem_of_nil|].
  cbn [map]. rewrite filter_cons. case_decide as Hz; cbn [length].
  - intros [= Hl]. assert (Hno : ∀ w, w ∈ l → f w ≠ key).
    { intros w Hw Hf. apply nil_length_inv in Hl. assert (Hin : f w ∈ filter (λ k, k = key) (map f l)).
      { apply list_elem_of_filter. split; [done|]. by apply list_elem_of_fmap_2. }
      rewrite Hl in Hin. by apply not_elem_of_nil in Hin. }
    intros [->|Hx]%elem_of_cons [->|Hy]%elem_of_cons Hfx Hfy; try done; exfalso; by eapply Hno.
  - intros Hl [->|Hx]%elem_of_cons [->|Hy]%elem_of_cons Hfx Hfy; try done. by apply IH.
Qed.

Lemma occurrences_pos {A} (f : A → string) (l : list A) key : occurrences key (map f l) ≠ 0%nat →
  ∃ x, x ∈ l ∧ f x = key.
Proof.
  unfold occurrences. intros H. destruct (filter _ (map f l)) as [|k ks] eqn:E; [done|].
  assert (Hin : k ∈ filter (λ k, k = key) (map f l)) by (rewrite E; left).
  apply list_elem_of_filter in Hin as [-> (x & -> & Hx)%list_elem_of_fmap]. eauto.
Qed.

(** ** Routes *)
Lemma append_empty (s : string) : (s +:+ EmptyString)%string = s.
Proof. induction s as [|c s IH]; [done|]. exact (f_equal (String c) IH). Qed.

Lemma trigger_identity_inj t1 t2 : trigger_identity t1 = trigger_identity t2 → t1 = t2.
Proof.
  destruct t1 as [a|a|a], t2 as [b|b|b]; cbn; intros H; try discriminate H;
    rewrite !append_empty in H; apply (inj (String.append _)) in H; by subst.
Qed.

Lemma route_handlers_counts spec key :
  route_handlers spec !! key = Some 1 ↔
  occurrences key (map (λ w, trigger_identity (wf_trigger w)) (as_workflows spec)) = 1%nat.
Proof.
  rewrite <- counted_once. unfold route_handlers. generalize (∅ : gmap string Z).
  induction (as_workflows spec) as [|w l IH]; intros c; [done|]. cbn. apply IH.
Qed.

(** Exactly one workflow handles the trigger. *)
Definition handled_once (spec : AutomationSpecV1) (trigger : TriggerV1) : Prop :=
  ∃ workflow, workflow ∈ as_workflows spec ∧ wf_trigger workflow = trigger ∧
    ∀ other, other ∈ as_workflows spec → wf_trigger other = trigger → other = workflow.

(** The trigger's identity is counted once. *)
Definition trigger_count (spec : AutomationSpecV1) (trigger : TriggerV1) : nat :=
  occurrences (trigger_identity trigger) (map (λ w, trigger_identity (wf_trigger w)) (as_workflows spec)).

Lemma require_counted spec path trigger :
  require_route_handler (route_handlers spec) path (trigger_identity trigger) = [] → trigger_count spec trigger = 1%nat.
Proof.
  unfold require_route_handler. by rewrite push_if_nil, negb_false_iff, bool_decide_eq_true, route_handlers_counts.
Qed.

Lemma counted_handled spec trigger : trigger_count spec trigger = 1%nat → handled_once spec trigger.
Proof.
  intros H. destruct (occurrences_pos _ _ _ ltac:(unfold trigger_count in H; by rewrite H)) as (w & Hw & E).
  exists w. split; [done|]. split; [by apply trigger_identity_inj|]. intros o Ho Et.
  eapply (occurrences_map _ _ _ o w H); try done. by rewrite Et.
Qed.

Definition button_trigger (button : ActionButtonV1) : TriggerV1 :=
  match ab_route button with
  | StaticRouteV1 trigger_id => ButtonClickV1 trigger_id
  | InstanceActionRouteV1 _ action_id => InstanceActionV1 action_id
  end.

(** What the automation renders: buttons it declares or posts, modals it opens. *)
Inductive renders (spec : AutomationSpecV1) : TriggerV1 → Prop :=
| RendersDeclared panel button : panel ∈ as_panels spec → button ∈ dp_buttons panel →
    renders spec (ButtonClickV1 (db_trigger_id button))
| RendersModal workflow node modal : workflow ∈ as_workflows spec → node ∈ wf_actions workflow →
    an_action node = OpenModalV1 modal → renders spec (ModalSubmitV1 modal)
| RendersPosted workflow node output channel content buttons button :
    workflow ∈ as_workflows spec → node ∈ wf_actions workflow →
    an_action node = PostPanelV1 output channel content buttons → button ∈ buttons →
    renders spec (button_trigger button).

Lemma rendered_counted spec trigger : spec_valid spec → renders spec trigger → trigger_count spec trigger = 1%nat.
Proof.
  intros Hv. pose proof (sv_routes _ Hv) as H. unfold validate_rendered_route_handlers in H.
  apply app_nil in H as [Hd Hw]. rewrite each_nil in Hd. rewrite each_nil in Hw.
  intros [panel button [i Hi]%list_elem_of_lookup [j Hj]%list_elem_of_lookup
         |workflow node modal [i Hi]%list_elem_of_lookup [j Hj]%list_elem_of_lookup Ha
         |workflow node output channel content buttons button [i Hi]%list_elem_of_lookup
            [j Hj]%list_elem_of_lookup Ha [k Hk]%list_elem_of_lookup].
  - by eapply (require_counted _ _ (ButtonClickV1 _)), (proj1 (each_nil _ _) (Hd i panel Hi) j button Hj).
  - pose proof (proj1 (each_nil _ _) (Hw i workflow Hi) j node Hj) as H. unfold validate_node_routes in H.
    rewrite Ha in H. by eapply (require_counted _ _ (ModalSubmitV1 _)), H.
  - pose proof (proj1 (each_nil _ _) (Hw i workflow Hi) j node Hj) as H. unfold validate_node_routes in H.
    rewrite Ha in H. pose proof (proj1 (each_nil _ _) H k button Hk) as Hb.
    unfold button_trigger. unfold button_route_identity in Hb.
    destruct (ab_route button); [by eapply (require_counted _ _ (ButtonClickV1 _)), Hb|].
    by eapply (require_counted _ _ (InstanceActionV1 _)), Hb.
Qed.

(** ** What an instance action needs *)
Abbreviation Handlers := (list (string * list ActionNodeV1)) (only parsing).

(** The instance actions and what they do. *)
Definition instance_handlers (workflows : list WorkflowSpecV1) : Handlers :=
  omap (λ w, match wf_trigger w with InstanceActionV1 a => Some (a, wf_actions w) | _ => None end) workflows.

Definition collect_all (handlers : Handlers) (state : Requirements * Requirements) : Requirements * Requirements :=
  foldl (λ state h, collect_handler_requirements h.1 h.2 state) state handlers.

Lemma exists_cons {A} (P : A → Prop) x l : (∃ y, y ∈ x :: l ∧ P y) ↔ P x ∨ ∃ y, y ∈ l ∧ P y.
Proof.
  split.
  - intros (y & [->|Hy]%elem_of_cons & HP); [by left|right; eauto].
  - intros [HP|(y & Hy & HP)]; [exists x; split; [left|done]|exists y; split; [by right|done]].
Qed.

Lemma exists_nil {A} (P : A → Prop) : (∃ y, y ∈ [] ∧ P y) ↔ False.
Proof. split; [|done]. by intros (y & ?%not_elem_of_nil & _). Qed.

(** Some handler of the action has a node with [P]. *)
Definition some_node (P : ActionNodeV1 → Prop) (handlers : Handlers) (action : string) : Prop :=
  ∃ actions node, (action, actions) ∈ handlers ∧ node ∈ actions ∧ P node.

(** An action names a role of the instance it runs for when it grants the role or sets its
    overwrite in a channel; it passes the instance on when it posts a button for it. *)
Inductive names_event_role (alias : string) : ActionV1 → Prop :=
| grants_event_role target :
    names_event_role alias (GrantRoleV1 (InstanceRoleV1 EventInstanceV1 alias) target)
| overwrites_event_role channel allow deny :
    names_event_role alias
      (UpsertOverwriteV1 channel (RoleTargetV1 (InstanceRoleV1 EventInstanceV1 alias)) allow deny).

Inductive offers_event_action (next : string) : ActionV1 → Prop :=
| posts_event_button output channel content buttons button :
    button ∈ buttons → ab_route button = InstanceActionRouteV1 EventInstanceV1 next →
    offers_event_action next (PostPanelV1 output channel content buttons).

(** A workflow that handles the instance action [action] does [P]. *)
Definition handler_does (P : ActionV1 → Prop) (workflows : list WorkflowSpecV1) (action : string) : Prop :=
  ∃ workflow node, workflow ∈ workflows ∧ wf_trigger workflow = InstanceActionV1 action ∧
    node ∈ wf_actions workflow ∧ P (an_action node).

Definition uses_role (spec : AutomationSpecV1) (action alias : string) : Prop :=
  handler_does (names_event_role alias) (as_workflows spec) action.

Definition passes_on (spec : AutomationSpecV1) (action next : string) : Prop :=
  handler_does (offers_event_action next) (as_workflows spec) action.

Lemma event_role_alias_names action alias : event_role_alias action = Some alias ↔ names_event_role alias action.
Proof.
  split.
  - destruct action as [[| |[] ?]| | | | |? [|[| |[] ?]]| | | | |]; cbn; try done; intros [= ->]; constructor.
  - by intros [].
Qed.

Lemma forwarded_actions_offers action next : next ∈ forwarded_actions action ↔ offers_event_action next action.
Proof.
  split.
  - destruct action; cbn; try (by intros ?%not_elem_of_nil).
    intros (button & Hb & Hr)%list_elem_of_omap. destruct (ab_route button) as [|[]] eqn:E; simplify_eq.
    by econstructor.
  - intros [? ? ? ? button Hb Hr]. cbn. apply list_elem_of_omap. exists button. by rewrite Hr.
Qed.

Definition collected_role (handlers : Handlers) (action alias : string) : Prop :=
  some_node (λ node, event_role_alias (an_action node) = Some alias) handlers action.

Definition collected_forward (handlers : Handlers) (action next : string) : Prop :=
  some_node (λ node, next ∈ forwarded_actions (an_action node)) handlers action.

Lemma some_node_handler P workflows action :
  some_node (λ node, P (an_action node)) (instance_handlers workflows) action ↔ handler_does P workflows action.
Proof.
  unfold some_node, handler_does, instance_handlers. split.
  - intros (actions & node & (w & Hw & Hwa)%list_elem_of_omap & Hn & HP).
    destruct (wf_trigger w) eqn:Ht; simplify_eq. eauto 10.
  - intros (w & node & Hw & Ht & Hn & HP). exists (wf_actions w), node. split_and!; try done.
    apply list_elem_of_omap. exists w. by rewrite Ht.
Qed.

Lemma collected_role_uses spec action alias :
  collected_role (instance_handlers (as_workflows spec)) action alias ↔ uses_role spec action alias.
Proof.
  unfold collected_role, uses_role. rewrite <-some_node_handler. unfold some_node.
  setoid_rewrite event_role_alias_names. done.
Qed.

Lemma collected_forward_passes spec action next :
  collected_forward (instance_handlers (as_workflows spec)) action next ↔ passes_on spec action next.
Proof.
  unfold collected_forward, passes_on. rewrite <-some_node_handler. unfold some_node.
  setoid_rewrite forwarded_actions_offers. done.
Qed.

Lemma some_node_cons P action actions handlers a :
  some_node P ((action, actions) :: handlers) a ↔
  (action = a ∧ ∃ node, node ∈ actions ∧ P node) ∨ some_node P handlers a.
Proof.
  unfold some_node. split.
  - intros (as' & node & [[= -> ->]|Hin]%elem_of_cons & Hn & HP); [left; eauto|right; eauto 6].
  - intros [(-> & node & Hn & HP)|(as' & node & Hin & Hn & HP)]; [exists actions|exists as'];
      exists node; (split; [by constructor|done]).
Qed.

Lemma aliases_fold actions s : bt_sorted s →
  bt_sorted (foldl (λ roles node, collect_event_role_aliases (an_action node) roles) s actions) ∧
  ∀ x, x ∈ bset (foldl (λ roles node, collect_event_role_aliases (an_action node) roles) s actions) ↔
       x ∈ bset s ∨ ∃ node, node ∈ actions ∧ event_role_alias (an_action node) = Some x.
Proof.
  revert s. induction actions as [|node actions IH]; intros s Hs; cbn [foldl].
  { split; [done|]. intros x. rewrite exists_nil. tauto. }
  assert (Hc : bt_sorted (collect_event_role_aliases (an_action node) s) ∧
    ∀ x, x ∈ bset (collect_event_role_aliases (an_action node) s) ↔
         x ∈ bset s ∨ event_role_alias (an_action node) = Some x).
  { unfold collect_event_role_aliases. destruct (event_role_alias _) as [alias|].
    - split; [by apply bt_upsert_sorted|]. intros x. rewrite bset_insert, elem_of_union, elem_of_singleton by done.
      split; intros [?|?]; simplify_eq; auto.
    - split; [done|]. intros x. split; [by left|by intros [?|?]]. }
  destruct Hc as [Hc Hx]. destruct (IH _ Hc) as [H1 H2]. split; [done|]. intros x.
  rewrite H2, Hx, exists_cons. tauto.
Qed.

Lemma forwarded_fold actions s : bt_sorted s →
  bt_sorted (foldl (λ targets node, bs_extend (forwarded_actions (an_action node)) targets) s actions) ∧
  ∀ x, x ∈ bset (foldl (λ targets node, bs_extend (forwarded_actions (an_action node)) targets) s actions) ↔
       x ∈ bset s ∨ ∃ node, node ∈ actions ∧ x ∈ forwarded_actions (an_action node).
Proof.
  revert s. induction actions as [|node actions IH]; intros s Hs; cbn [foldl].
  { split; [done|]. intros x. rewrite exists_nil. tauto. }
  destruct (IH (bs_extend (forwarded_actions (an_action node)) s)) as [H1 H2]; [by apply bs_extend_sorted|].
  split; [done|]. intros x. rewrite H2, bset_extend, elem_of_union, elem_of_list_to_set by done.
  rewrite exists_cons. tauto.
Qed.

Lemma collect_all_spec handlers R F R' F' : req_wf R → req_wf F → collect_all handlers (R, F) = (R', F') →
  req_wf R' ∧ req_wf F' ∧
  (∀ a x, x ∈ roles R' a ↔ x ∈ roles R a ∨ collected_role handlers a x) ∧
  (∀ a b, b ∈ forwards F' a ↔ b ∈ forwards F a ∨ collected_forward handlers a b).
Proof.
  revert R F. induction handlers as [|[action actions] handlers IH]; intros R F HR HF.
  { intros [= <- <-]. split_and!; try done; intros ? x; (split; [by left|]);
      by intros [?|(? & ? & ?%not_elem_of_nil & _)]. }
  cbn [collect_all foldl fst snd collect_handler_requirements]. intros E.
  apply IH in E as (HR' & HF' & Hr & Hf).
  2: apply req_wf_upsert; [done|]; intros o Ho; by apply aliases_fold.
  2: apply req_wf_upsert; [done|]; intros o Ho; by apply forwarded_fold.
  split_and!; [done|done| |]; intros a x.
  - rewrite Hr, roles_upsert by done. unfold collected_role. rewrite some_node_cons.
    case_decide as Ha; [|tauto]. subst a. rewrite (proj2 (aliases_fold _ _ (value_sorted _ _ HR))).
    unfold roles. tauto.
  - rewrite Hf. unfold forwards. rewrite roles_upsert by done. unfold collected_forward. rewrite some_node_cons.
    case_decide as Ha; [|tauto]. subst a. rewrite (proj2 (forwarded_fold _ _ (value_sorted _ _ HF))).
    unfold roles. tauto.
Qed.

(** The collected requirements are exactly what is used along the forwarded actions. *)
Lemma required_exact handlers action alias :
  alias ∈ roles (required_roles (collect_all handlers ([], []))) action ↔
  ∃ last, rtc (collected_forward handlers) action last ∧ collected_role handlers last alias.
Proof.
  destruct (collect_all handlers ([], [])) as [R F] eqn:E.
  apply collect_all_spec in E as (HR & HF & Hr & Hf); [|apply req_wf_nil..].
  assert (Hr' : ∀ a x, x ∈ roles R a ↔ collected_role handlers a x).
  { intros a x. rewrite Hr. split; [|by right]. by intros [?%elem_of_empty|]. }
  assert (Hf' : ∀ a b, b ∈ forwards F a ↔ collected_forward handlers a b).
  { intros a b. rewrite Hf. split; [|by right]. by intros [?%elem_of_empty|]. }
  rewrite (inherits_reach F R _ _ _ HR (required_roles_spec R F HR HF)). setoid_rewrite Hr'.
  split; intros (last & Hl & Hu); exists last; (split; [|done]);
    (eapply rtc_subrel; [|exact Hl]); intros x y; apply Hf'.
Qed.

Lemma collect_workflows workflows counts state :
  foldl collect_workflow (counts, state) workflows =
    (foldl (λ c k, bump k c) counts (instance_handlers workflows).*1,
     collect_all (instance_handlers workflows) state).
Proof.
  revert counts state. induction workflows as [|w workflows IH]; intros counts state; [done|].
  cbn [foldl]. unfold collect_workflow at 2. unfold instance_handlers. cbn [omap list_omap].
  destruct (wf_trigger w); cbn [fst snd]; apply IH.
Qed.

(** ** Created instances *)
Lemma structural_footprint ruleset rule : validate_structural ruleset = Ok tt → rule ∈ rs_rules ruleset →
  check_instance_footprint rule = [].
Proof.
  unfold validate_structural. rewrite errors_result_Ok. unfold structural_errors. intros H Hin.
  destruct (panels_pass _ _ _) as [bk1 e1]. destruct (posted_panels_pass _ _) as [bk e2].
  destruct (modals_pass _ _ _) as [[mk fields] e3]. no_errors.
  destruct (rules_pass_nil _ _ _ _ _ _ _ _ H Hin) as [Hr _]. unfold rule_errors in Hr. by no_errors.
Qed.

Definition registers_instance (node : ActionNodeV1) : bool :=
  match an_action node with RegisterInstanceV1 _ _ _ => true | _ => false end.

Lemma lower_is_register node : is_register (lower_action (an_action node)) = registers_instance node.
Proof. unfold registers_instance. by destruct (an_action node) as [? []| | | | | | | | | |]. Qed.

(** A workflow of a validated spec registers at most one instance. *)
Lemma one_register spec workflow output : spec_valid spec → workflow ∈ as_workflows spec →
  output ∈ registered_outputs (wf_actions workflow) →
  ∃ pre node kind resources post, wf_actions workflow = pre ++ node :: post ∧
    an_action node = RegisterInstanceV1 output kind resources ∧
    Forall (λ n, registers_instance n = false) (pre ++ post).
Proof.
  intros Hv Hw Hout. rewrite <- lower_registers, registers_spec in Hout. destruct Hout as (kind & r & Hreg).
  pose proof (structural_footprint _ (lower_workflow workflow) (sv_structural _ Hv)
    (list_elem_of_fmap_2 _ _ _ Hw)) as Hf.
  apply footprint_split in Hf as (pre & k & kd & r' & post & Hacts & Hpre & Hpost & _).
  2: { apply existsb_exists. exists (RegisterInstance output kind r). split; [|done]. by apply list_elem_of_In. }
  cbn [lower_workflow ru_actions] in Hacts. rewrite Hacts in Hreg.
  assert (Hk : k = output).
  { rewrite Forall_forall in Hpre, Hpost.
    apply elem_of_app in Hreg as [Hin|[[= -> _ _]|Hin]%elem_of_cons]; [by apply Hpre in Hin|done|by apply Hpost in Hin as [? _]]. }
  subst k. apply map_eq_app in Hacts as (pre0 & rest0 & -> & <- & Hrest).
  apply map_eq_cons in Hrest as (node & post0 & -> & Hnode & <-).
  assert (Ha : ∃ resources, an_action node = RegisterInstanceV1 output kd resources).
  { destruct (an_action node) as [? []| | | | | | | | |? ? res|]; try done. injection Hnode as -> -> _. by exists res. }
  destruct Ha as [resources Ha]. exists pre0, node, kd, resources, post0. split; [done|]. split; [done|].
  apply Forall_app. split; apply Forall_forall; intros n Hn; rewrite <- lower_is_register.
  - rewrite Forall_forall in Hpre. apply Hpre. by apply (list_elem_of_fmap_2 (λ node, lower_action (an_action node))).
  - rewrite Forall_forall in Hpost. apply Hpost. by apply (list_elem_of_fmap_2 (λ node, lower_action (an_action node))).
Qed.

Lemma manifests_skip actions state : Forall (λ n, registers_instance n = false) actions →
  foldl register_manifest state actions = state.
Proof.
  intros H. revert state. induction H as [|n actions Hn _ IH]; intros state; [done|]. cbn [foldl]. rewrite <- (IH state) at 2.
  f_equal. unfold register_manifest. unfold registers_instance in Hn. by destruct (an_action n).
Qed.

Lemma manifests_one pre node post output kind resources :
  an_action node = RegisterInstanceV1 output kind resources →
  Forall (λ n, registers_instance n = false) (pre ++ post) →
  manifests_of (pre ++ node :: post) = ({[output := resources]}, {[output := 1]}).
Proof.
  intros Ha [Hpre Hpost]%Forall_app. unfold manifests_of. rewrite foldl_app. cbn [foldl].
  rewrite (manifests_skip pre) by done. rewrite (manifests_skip post) by done.
  unfold register_manifest. rewrite Ha. cbn [fst snd]. rewrite lookup_empty. unfold bump. by rewrite lookup_empty.
Qed.

(** Instance actions are counted as triggers are. *)
Lemma handler_counted spec action :
  occurrences action (instance_handlers (as_workflows spec)).*1 =
  occurrences (trigger_identity (InstanceActionV1 action))
    (map (λ w, trigger_identity (wf_trigger w)) (as_workflows spec)).
Proof.
  unfold occurrences, instance_handlers. induction (as_workflows spec) as [|w l IH]; [done|].
  cbn [omap list_omap map]. rewrite filter_cons.
  destruct (wf_trigger w) as [b|m|a] eqn:Et; cbn [fmap list_fmap fst]; rewrite ?filter_cons.
  1, 2: rewrite decide_False; [exact IH|]; intros E; by apply trigger_identity_inj in E.
  destruct (decide (a = action)) as [->|Hne].
  - rewrite decide_True by done. cbn [length]. by f_equal.
  - rewrite decide_False; [exact IH|]. intros E. apply trigger_identity_inj in E. congruence.
Qed.

Lemma handled_counts spec action : spec_valid spec → renders spec (InstanceActionV1 action) →
  foldl (λ c k, bump k c) ∅ (instance_handlers (as_workflows spec)).*1 !! action = Some 1.
Proof. intros Hv Hr. apply counted_once. rewrite handler_counted. by apply rendered_counted. Qed.

(** ** What validation promises of routes and instances *)
Lemma branch_complete actions path counts required code message node output channel content buttons button :
  validate_creator_branch actions path counts required code message = [] →
  node ∈ actions → an_action node = PostPanelV1 output channel content buttons → button ∈ buttons →
  missing_aliases actions counts required button = [].
Proof.
  unfold validate_creator_branch. rewrite each_nil. intros H [i Hi]%list_elem_of_lookup Ha [j Hj]%list_elem_of_lookup.
  specialize (H i node Hi). rewrite Ha, each_nil in H. specialize (H j button Hj). cbv beta in H.
  by destruct (missing_aliases _ _ _ _).
Qed.

Lemma no_missing_alias roles (declared : list (string * string)) alias :
  List.filter (λ alias, negb (is_some (bt_get declared alias))) roles.*1 = [] →
  alias ∈ bset roles → is_some (bt_get declared alias) = true.
Proof.
  unfold bset. rewrite elem_of_list_to_set. intros Hf Ha. destruct (is_some (bt_get declared alias)) eqn:E; [done|].
  exfalso. assert (Hin : alias ∈ List.filter (λ alias, negb (is_some (bt_get declared alias))) roles.*1).
  { apply list_elem_of_In, filter_In. split; [by apply list_elem_of_In|by rewrite E]. }
  rewrite Hf in Hin. by apply not_elem_of_nil in Hin.
Qed.

Lemma declares_reachable_roles spec workflow node output channel content buttons button created action last alias :
  spec_valid spec → workflow ∈ as_workflows spec → node ∈ wf_actions workflow →
  an_action node = PostPanelV1 output channel content buttons → button ∈ buttons →
  ab_route button = InstanceActionRouteV1 (CreatedInstanceV1 created) action →
  rtc (passes_on spec) action last →
  uses_role spec last alias →
  ∃ registration kind resources, registration ∈ wf_actions workflow ∧
    an_action registration = RegisterInstanceV1 created kind resources ∧
    is_some (bt_get (ir_roles resources) alias) = true.
Proof.
  intros Hv Hw Hn Ha Hb Hroute Hreach Huse.
  pose proof (validated_button _ _ _ _ _ _ _ _ Hv Hw Hn Ha Hb) as Hreg. rewrite Hroute in Hreg.
  destruct (one_register _ _ _ Hv Hw Hreg) as (pre & reg & kind & resources & post & Hacts & Hregister & Hothers).
  exists reg, kind, resources. split; [rewrite Hacts; apply elem_of_app; right; left|]. split; [done|].
  assert (Hr : renders spec (InstanceActionV1 action)).
  { pose proof (RendersPosted _ _ _ _ _ _ _ _ Hw Hn Ha Hb) as Hr. unfold button_trigger in Hr. by rewrite Hroute in Hr. }
  pose proof (sv_resources _ Hv) as H. unfold validate_created_instance_route_resources in H.
  rewrite collect_workflows in H. cbv zeta in H. rewrite each_nil in H.
  pose proof Hw as [i Hi]%list_elem_of_lookup. specialize (H i workflow Hi).
  eapply branch_complete in H; [|done..]. unfold missing_aliases in H. rewrite Hroute, Hacts in H.
  rewrite (manifests_one _ _ _ _ _ _ Hregister Hothers) in H. rewrite (handled_counts _ _ Hv Hr) in H.
  rewrite !lookup_singleton_eq in H. rewrite !bool_decide_true in H by done. cbn [negb orb] in H.
  assert (Hin : alias ∈ roles (required_roles (collect_all (instance_handlers (as_workflows spec)) ([], []))) action)
    by (apply required_exact; exists last; split; [|by apply collected_role_uses];
        eapply rtc_subrel; [|exact Hreach]; intros x y; apply collected_forward_passes).
  unfold roles in Hin. destruct (bt_get _ action) as [rs|]; [|by apply elem_of_empty in Hin].
  by eapply no_missing_alias.
Qed.

Section promises.
Context (encoded_len : AutomationSpecV1 → option Z) (debug_validation_error : ValidationError → string).

(** C20: No dead routes. In a document that validates, everything the automation renders
    (a declared or posted button, a modal it opens) is handled by exactly one workflow. *)
Theorem rendered_routes_have_one_handler spec trigger :
  validate_automation_spec_v1 encoded_len debug_validation_error spec = Ok tt →
  renders spec trigger → handled_once spec trigger.
Proof. intros Hv%validated_spec Hr. by apply counted_handled, rendered_counted. Qed.

(** C12: Created instances carry the roles they will be asked for. When a validated
    document posts a button that starts an instance action on an instance the same
    workflow creates, then the workflow registers that instance with every role alias
    that the handler of the action grants or sets an overwrite for, or that any handler does
    which is reached through buttons that forward the instance, however long the chain. *)
Theorem created_instances_have_their_roles
    spec workflow node output channel content buttons button created action last alias :
  validate_automation_spec_v1 encoded_len debug_validation_error spec = Ok tt →
  workflow ∈ as_workflows spec → node ∈ wf_actions workflow →
  an_action node = PostPanelV1 output channel content buttons → button ∈ buttons →
  ab_route button = InstanceActionRouteV1 (CreatedInstanceV1 created) action →
  rtc (passes_on spec) action last →
  uses_role spec last alias →
  ∃ registration kind resources, registration ∈ wf_actions workflow ∧
    an_action registration = RegisterInstanceV1 created kind resources ∧
    is_some (bt_get (ir_roles resources) alias) = true.
Proof. intros Hv%validated_spec. by apply declares_reachable_roles. Qed.
End promises.
