(* ===== verification/SpecReady.v ===== *)
(** * From a validated document to a running automation

    Compilation is exact, what it yields passes the readiness gate in any guild whose bot
    has the permissions the preview shows, and events it handles do not go wrong. The
    simulation of a document selects the rule the runtime selects. *)

From Stdlib Require Import ZArith Lia Ascii String.
From stdpp Require Import base decidable list strings gmap sets numbers relations.
From S2P Require Import Prelude RustStd RustText DiscordModel Resolution Instance AutomationState Template.
From S2P Require Import AutomationPlan AutomationValidate AutomationExec AutomationSound AutomationFootprint.
From S2P Require Import RuleSet RuleSetSpec Readiness ReadinessSpec ApprovalBinding.
From S2P Require Import SpecModel SpecValidate SpecCompile SpecSound.
Open Scope Z_scope.

(** ** Permissions *)
Lemma classify_covers nodes start : ∀ node, node ∈ nodes →
  perms_contains (cl_required_permissions (foldl (λ c n, classify_action (an_action n) c) start nodes))
    (action_capabilities (lower_action (an_action node))) = true.
Proof.
  assert (Hmono : ∀ l c i, 0 ≤ i → Z.testbit (cl_required_permissions c) i = true →
    Z.testbit (cl_required_permissions (foldl (λ c n, classify_action (an_action n) c) c l)) i = true).
  { induction l as [|n l IH]; intros c i Hi Hb; [done|]. cbn [foldl]. apply IH; [done|].
    destruct (an_action n); cbn [classify_action needs cl_required_permissions]; by rewrite Z.lor_spec, Hb. }
  revert start. induction nodes as [|n l IH]; intros start node; [by intros ?%not_elem_of_nil|].
  intros [->|Hin]%elem_of_cons; [|by apply IH]. cbn [foldl]. apply perms_contains_spec. intros i Hi Hb.
  apply Hmono; [done|].
  destruct (an_action n) as [? []| | | | | | | | | |];
    cbn [classify_action needs cl_required_permissions lower_action action_capabilities] in *;
    rewrite Z.lor_spec, orb_true_iff; right; try done; by rewrite ?Z.bits_0 in Hb.
Qed.

Lemma perms_contains_trans a b c : perms_contains a b = true → perms_contains b c = true → perms_contains a c = true.
Proof. rewrite !perms_contains_spec. intros Hab Hbc i Hi Hc. auto. Qed.

Lemma permission_set_unprivileged permissions : Z.land (permission_set permissions) automation_privileged_mask = 0.
Proof.
  unfold permission_set. assert (H : Z.land 0 automation_privileged_mask = 0) by done. revert H. generalize 0 at 1 3.
  induction permissions as [|p permissions IH]; intros acc Hacc; [done|]. cbn [foldl]. apply IH.
  rewrite Z.land_lor_distr_l, Hacc. by destruct p.
Qed.

(** No workflow grants a bound role that carries privileged permissions. *)
Definition grants_unprivileged (spec : AutomationSpecV1) (roles : gmap string Permissions) : Prop :=
  ∀ workflow node binding target p, workflow ∈ as_workflows spec → node ∈ wf_actions workflow →
    an_action node = GrantRoleV1 (ExistingRoleV1 binding) target → roles !! binding = Some p →
    Z.land p automation_privileged_mask = 0.

Lemma lowered_unprivileged spec roles rule a : grants_unprivileged spec roles →
  rule ∈ rs_rules (lower_shape spec) → a ∈ ru_actions rule → unprivileged roles a.
Proof.
  intros Hg (workflow & -> & Hw)%list_elem_of_fmap (node & -> & Hn)%list_elem_of_fmap.
  destruct (an_action node) as [role []| | | | | ? [] ? ?| | | | |] eqn:Ha; try done.
  - destruct role as [binding| |]; try done. cbn. intros p. by eapply Hg.
  - apply permission_set_unprivileged.
  - apply permission_set_unprivileged.
Qed.

Section ready.
Context (encoded_len : AutomationSpecV1 → option Z) (debug_validation_error : ValidationError → string).
Context (spec_json : AutomationSpecV1 → option (list Z))
        (source_map_json : AutomationSourceMapV1 → option (list Z))
        (binding_json : AutomationCompilationBindingV1 → option (list Z)).
Context (content_hash : Z → InteractionRuleSet → Result RuleSetHashError (list Z)).
Context (sha256 : list Z → list Z).

Abbreviation validate_spec := (validate_automation_spec_v1 encoded_len debug_validation_error) (only parsing).
Abbreviation build := (build_compiled_target_artifacts_v1 encoded_len debug_validation_error spec_json
  source_map_json binding_json content_hash sha256) (only parsing).
Abbreviation preview_spec := (preview_automation_spec_v1 encoded_len debug_validation_error spec_json
  source_map_json binding_json content_hash sha256) (only parsing).
Abbreviation compile_spec := (compile_deployable_automation_spec_v1 encoded_len debug_validation_error spec_json
  source_map_json binding_json content_hash sha256) (only parsing).
Abbreviation check_compilation := (validate_automation_compilation_v1 encoded_len debug_validation_error spec_json
  source_map_json binding_json content_hash sha256) (only parsing).

(** ** What compilation yields *)
Lemma build_parts spec artifacts : build spec = Ok artifacts →
  validate_spec spec = Ok tt ∧ is_conditional spec = false ∧ ct_ruleset artifacts = lower_shape spec ∧
  content_hash CURRENT_RULESET_SCHEMA_VERSION (lower_shape spec) = Ok (ri_content_hash (ct_target artifacts)) ∧
  automation_source_map_digest_v1 source_map_json sha256 (ct_source_map artifacts) =
    Ok (cb_source_map_digest (ct_binding artifacts)) ∧
  sm_schema_version (ct_source_map artifacts) = AUTOMATION_SOURCE_MAP_SCHEMA_VERSION_V1 ∧
  sm_kind (ct_source_map artifacts) = AUTOMATION_SOURCE_MAP_KIND_V1 ∧
  sm_compiler_revision (ct_source_map artifacts) = AUTOMATION_COMPILER_REVISION_V1 ∧
  cb_format_version (ct_binding artifacts) = AUTOMATION_COMPILATION_BINDING_FORMAT_VERSION_V1 ∧
  cb_kind (ct_binding artifacts) = AUTOMATION_COMPILATION_BINDING_KIND_V1 ∧
  cb_compiler_revision (ct_binding artifacts) = AUTOMATION_COMPILER_REVISION_V1 ∧
  cb_source_map_schema_version (ct_binding artifacts) = AUTOMATION_SOURCE_MAP_SCHEMA_VERSION_V1.
Proof.
  unfold build_compiled_target_artifacts_v1. intros ([] & Hv%map_err_Ok & H)%bind_Ok_inv.
  apply bind_Ok_inv in H as ([] & Hc%ensure_Ok_inv%negb_true_iff & H).
  apply bind_Ok_inv in H as (key & _ & H). apply bind_Ok_inv in H as (hash & Hh%map_err_Ok & H).
  apply bind_Ok_inv in H as (digest & _ & H). apply bind_Ok_inv in H as (smd & Hs & H).
  apply bind_Ok_inv in H as (bd & _ & [= <-]). by split_and!.
Qed.

Lemma check_accepts spec artifacts : build spec = Ok artifacts →
  check_compilation spec (ct_ruleset artifacts) (ct_source_map artifacts) (ct_binding artifacts) = Ok tt.
Proof.
  intros Hb. pose proof (build_parts _ _ Hb) as (_ & _ & _ & _ & Hd & E1 & E2 & E3 & E4 & E5 & E6 & E7).
  unfold validate_automation_compilation_v1. rewrite Hb. cbn [mbind Result_bind].
  rewrite E1, E2, E3, E4, E5, E6, E7, Hd, !bool_decide_true by done. rewrite !Z.eqb_refl, !String.eqb_refl.
  cbn [negb orb mbind Result_bind]. by rewrite bool_decide_true.
Qed.

Lemma preview_bits spec preview : preview_spec spec = Ok preview →
  ap_conservative_discord_permission_bits preview = cl_required_permissions (classify_spec spec).
Proof.
  unfold preview_automation_spec_v1. intros ([] & _ & H)%bind_Ok_inv. apply bind_Ok_inv in H as (d & _ & H).
  cbv zeta in H. by apply bind_Ok_inv in H as (c & _ & [= <-]).
Qed.

Lemma compile_parts spec compiled : compile_spec spec = Ok compiled →
  validate_spec spec = Ok tt ∧ is_conditional spec = false ∧ cs_ruleset compiled = lower_shape spec ∧
  content_hash CURRENT_RULESET_SCHEMA_VERSION (lower_shape spec) = Ok (cs_ruleset_content_hash compiled) ∧
  check_compilation spec (cs_ruleset compiled) (cs_source_map compiled) (cs_binding compiled) = Ok tt ∧
  ap_conservative_discord_permission_bits (cs_preview compiled) = cl_required_permissions (classify_spec spec).
Proof.
  unfold compile_deployable_automation_spec_v1. intros ([] & _ & H)%bind_Ok_inv.
  apply bind_Ok_inv in H as ([] & _ & H). apply bind_Ok_inv in H as (artifacts & Hb%map_err_Ok & H).
  apply bind_Ok_inv in H as (preview & Hp%map_err_Ok & [= <-]). cbn.
  apply preview_bits in Hp. pose proof (build_parts _ _ Hb) as (? & ? & ? & ? & _).
  split_and!; try done. by apply check_accepts.
Qed.

(** The stored compilation is checked exactly. A rule set, source map and binding are
    accepted for a document exactly when they are the ones its compilation yields. *)
Theorem compilation_checked_exactly spec ruleset source_map binding :
  validate_automation_compilation_v1 encoded_len debug_validation_error spec_json source_map_json binding_json
    content_hash sha256 spec ruleset source_map binding = Ok tt ↔
  ∃ artifacts, build_compiled_target_artifacts_v1 encoded_len debug_validation_error spec_json source_map_json
      binding_json content_hash sha256 spec = Ok artifacts ∧ ct_ruleset artifacts = ruleset ∧
    ct_source_map artifacts = source_map ∧ ct_binding artifacts = binding.
Proof.
  unfold validate_automation_compilation_v1. split.
  - intros (artifacts & Hb & H)%bind_Ok_inv. exists artifacts. split; [done|].
    destruct (bool_decide (ct_ruleset artifacts = ruleset)) eqn:E1; [|done].
    destruct (bool_decide (ct_source_map artifacts = source_map)) eqn:E2; [|done].
    destruct (bool_decide (ct_binding artifacts = binding)) eqn:E3; [|done].
    by rewrite !bool_decide_eq_true in *.
  - intros (artifacts & Hb & <- & <- & <-). by apply check_accepts.
Qed.

Lemma compiled_runnable spec compiled artifact bindings capabilities roles :
  compile_spec spec = Ok compiled →
  rv_schema_version artifact = CURRENT_RULESET_SCHEMA_VERSION →
  rv_content_hash artifact = cs_ruleset_content_hash compiled → rv_definition artifact = cs_ruleset compiled →
  validate_bindings (cs_ruleset compiled) bindings = Ok tt → grants_unprivileged spec roles →
  perms_contains (base_permissions capabilities)
    (ap_conservative_discord_permission_bits (cs_preview compiled)) = true →
  runnable content_hash artifact bindings capabilities roles.
Proof.
  intros (Hv%validated_spec & _ & Hrs & Hh & _ & Hbits)%compile_parts Hs Hhash Hdef Hbind Hgrants Hperms.
  unfold runnable. cbv zeta. rewrite Hs, Hhash, Hdef, Hrs. rewrite Hrs in Hbind. split_and!; try done.
  - apply validate_parts. split; [apply Hv|done].
  - intros rule a Hr Ha. by eapply lowered_unprivileged.
  - right. intros rule a (workflow & -> & Hw)%list_elem_of_fmap (node & -> & Hn)%list_elem_of_fmap.
    apply action_capabilities_spec. eapply perms_contains_trans; [exact Hperms|]. rewrite Hbits. apply classify_covers.
    apply list_elem_of_bind. eauto.
Qed.

(** C11: What compiles runs. Take a document that compiles and a published version of what
    it compiles to, a guild where its references are bound, no bound role it grants is
    privileged, and the bot has the permissions the preview showed. Then the version
    passes the readiness gate with the compiled rules, and handling a button or a modal
    fails only where the outside world does; it is a no-op exactly when no workflow has
    the trigger. *)
Theorem compiled_specs_run {W} `{AutomationServices W}
    spec compiled artifact bindings capabilities roles event failure identity :
  services_speak W →
  compile_deployable_automation_spec_v1 encoded_len debug_validation_error spec_json source_map_json binding_json
    content_hash sha256 spec = Ok compiled →
  rv_schema_version artifact = CURRENT_RULESET_SCHEMA_VERSION →
  rv_content_hash artifact = cs_ruleset_content_hash compiled → rv_definition artifact = cs_ruleset compiled →
  validate_bindings (cs_ruleset compiled) bindings = Ok tt → grants_unprivileged spec roles →
  perms_contains (base_permissions capabilities)
    (ap_conservative_discord_permission_bits (cs_preview compiled)) = true →
  (∀ id action, ev_kind event ≠ EvInstanceAction id action) →
  ∃ runtime, check_readiness content_hash artifact bindings capabilities roles = Ok runtime ∧
    rt_definition runtime = lower_shape spec ∧
    safe false (handle_event event (rt_definition runtime) bindings failure identity) (λ outcome,
      outcome = HandleNoOp ↔
      Forall (λ w, trigger_matches (lower_trigger (wf_trigger w)) (ev_kind event) = false) (as_workflows spec)).
Proof.
  intros Hspeak Hc Hs Hh Hd Hb Hg Hp Hev.
  pose proof (compiled_runnable _ _ _ _ _ _ Hc Hs Hh Hd Hb Hg Hp) as Hrun.
  pose proof (compile_parts _ _ Hc) as (Hv%validated_spec & _ & Hrs & _). rewrite Hrs in Hd, Hb.
  eexists. split; [by apply check_readiness_Ok|]. cbn [rt_definition]. rewrite Hd. split; [done|].
  eapply safe_mono; [|apply handled_events_safe; try done; [|by apply validated_posted]].
  - intros outcome Ho. rewrite Ho. cbn [lower_shape rs_rules]. by rewrite Forall_map.
  - apply validate_parts. split; [apply Hv|done].
Qed.

(** ** The simulation and the runtime *)

(** The event the runtime receives for a simulated one; an instance action is received on some instance. *)
Definition runtime_kind (instance : InstanceId) (event : AutomationSimulationEventV1) : EventKind :=
  match se_trigger event with
  | ButtonClickV1 trigger => EvButtonClick trigger
  | ModalSubmitV1 modal => EvModalSubmit modal (se_inputs event)
  | InstanceActionV1 action => EvInstanceAction instance action
  end.

Lemma lowered_matches instance event trigger :
  trigger_matches (lower_trigger trigger) (runtime_kind instance event) = bool_decide (trigger = se_trigger event).
Proof.
  unfold runtime_kind. destruct trigger as [a|a|a], (se_trigger event) as [b|b|b]; cbn [lower_trigger trigger_matches];
    try (by rewrite bool_decide_false);
    (destruct (String.eqb_spec a b) as [->|Hne]; [by rewrite bool_decide_true|by rewrite bool_decide_false by congruence]).
Qed.

Lemma find_lowered spec instance event :
  List.find (λ rule, trigger_matches (ru_trigger rule) (runtime_kind instance event)) (rs_rules (lower_shape spec)) =
  lower_workflow <$> List.find (λ w, bool_decide (wf_trigger w = se_trigger event)) (as_workflows spec).
Proof.
  cbn [lower_shape rs_rules]. induction (as_workflows spec) as [|w l IH]; [done|].
  cbn [map List.find lower_workflow ru_trigger]. rewrite lowered_matches.
  destruct (bool_decide _); [done|]. apply IH.
Qed.

Lemma unconditional_holds condition inputs : is_unconditional condition = true → evaluate_condition condition inputs = true.
Proof. by destruct condition. Qed.

Lemma action_sources_ids actions : map sa_action_node_id (action_source_map actions) = map an_id actions.
Proof.
  enough (Hmap : ∀ (f : nat → nat) l, map sa_action_node_id (imap (λ i node,
      mkActionSource (an_id node) (as_u32 (Z.of_nat (f i))) (as_u32 (Z.of_nat (f i)))) l) = map an_id l)
    by apply (Hmap id).
  intros f l. revert f. induction l as [|node l IH]; intros f; [done|]. cbn. f_equal. apply (IH (f ∘ S)).
Qed.

Lemma source_map_entry workflows workflow : workflow ∈ workflows →
  ∃ entry, entry ∈ workflow_source_map workflows ∧ sw_target_rule_key entry = wf_id workflow ∧
    map sa_action_node_id (sw_actions entry) = map an_id (wf_actions workflow).
Proof.
  intros [i Hi]%list_elem_of_lookup. eexists. split; [|split].
  - eapply list_elem_of_lookup_2. unfold workflow_source_map. rewrite list_lookup_imap, Hi. done.
  - done.
  - apply action_sources_ids.
Qed.

(** C19: The simulation shown to an author is what the runtime does. For a document
    without conditions and an accepted simulation event, the simulation finds no
    workflow exactly when no compiled rule matches the event; otherwise the rule the
    runtime picks has the simulated workflow's id, the source map lists the planned
    nodes under that rule, and the inputs are those the runtime computes. *)
Theorem simulation_agrees_with_runtime spec event trace guild actor instance :
  simulate_automation_spec_v1 encoded_len debug_validation_error spec event = Ok trace →
  is_conditional spec = false →
  let received := mkEvent guild actor (runtime_kind instance event) in
  match List.find (λ rule, trigger_matches (ru_trigger rule) (ev_kind received)) (rs_rules (lower_shape spec)) with
  | None => tr_outcome trace = NoTriggerMatch ∧ tr_action_node_ids trace = []
  | Some rule =>
      tr_outcome trace = ActionsPlanned ∧ tr_workflow_id trace = Some (ru_key rule) ∧
      (∃ entry, entry ∈ workflow_source_map (as_workflows spec) ∧ sw_target_rule_key entry = ru_key rule ∧
         map sa_action_node_id (sw_actions entry) = tr_action_node_ids trace) ∧
      length (tr_action_node_ids trace) = length (ru_actions rule) ∧
      ∃ normalized, normalize_modal_submit_inputs received (lower_shape spec) = Ok normalized ∧
        default [] normalized = tr_normalized_inputs trace
  end.
Proof.
  unfold simulate_automation_spec_v1. intros ([] & _ & H)%bind_Ok_inv. apply bind_Ok_inv in H as ([] & _ & H).
  intros Hc. cbv zeta. cbn [ev_kind]. rewrite find_lowered.
  destruct (List.find _ (as_workflows spec)) as [w|] eqn:Hf; [|by simplify_eq]. cbn [fmap option_fmap option_map].
  apply find_some in Hf as [Hin%list_elem_of_In _]. apply bind_Ok_inv in H as (inputs & Hn & H).
  assert (Hu : is_unconditional (wf_condition w) = true).
  { unfold is_conditional in Hc. apply not_true_iff_false in Hc. apply not_false_iff_true. intros E. apply Hc.
    apply existsb_exists. exists w. rewrite E. split; [by apply list_elem_of_In|done]. }
  cbv zeta in H. rewrite (unconditional_holds _ _ Hu) in H. injection H as <-.
  cbn [tr_outcome tr_workflow_id tr_action_node_ids tr_normalized_inputs lower_workflow ru_key ru_actions].
  split; [done|]. split; [done|]. split; [by apply source_map_entry|]. split; [by rewrite !length_map|].
  unfold normalize_event_inputs in Hn. unfold normalize_modal_submit_inputs, runtime_kind in *. cbn [ev_kind] in *.
  destruct (se_trigger event); [by exists None; simplify_eq| |by exists None; simplify_eq].
  destruct (if negb _ then _ else _) as [[normalized|]|e]; simplify_eq; eauto.
Qed.
End ready.
