(* ===== verification/SpecExamples.v ===== *)
(** * A sample automation document

    Study rooms once more, as an author writes them: a button opens a modal, submitting it
    creates a room with a role, a button in the room forwards to a second one that grants
    the role. The theorems on validated and compiled documents apply to it. *)

From Stdlib Require Import ZArith Lia Ascii String.
From stdpp Require Import base decidable list strings gmap numbers sets relations.
From S2P Require Import Prelude RustStd RustText DiscordModel Resolution Instance AutomationState AutomationPlan.
From S2P Require Import AutomationValidate AutomationExec AutomationSound AutomationExamples RuleSet Readiness.
From S2P Require Import SpecModel SpecValidate SpecCompile SpecSound SpecReady.
Open Scope Z_scope.
Open Scope string_scope.

Definition rules_button : ActionButtonV1 :=
  mkActionButton "Rules" (InstanceActionRouteV1 (CreatedInstanceV1 "instance") "rules").

Definition room_panel : ActionNodeV1 :=
  mkActionNode "post_room"
    (PostPanelV1 "message" (CreatedChannelV1 "channel") "Welcome to ${input.name}"
       [rules_button]).

Definition create_room : WorkflowSpecV1 :=
  mkWorkflow "create" (ModalSubmitV1 "create") AlwaysV1
    [mkActionNode "defer" DeferEphemeralV1;
     mkActionNode "make_role" (CreateRoleV1 "role" "study ${input.name}");
     mkActionNode "make_channel" (CreateChannelV1 "channel" "study ${input.name}");
     mkActionNode "open_channel"
       (UpsertOverwriteV1 (CreatedChannelV1 "channel") (RoleTargetV1 (CreatedRoleV1 "role")) [PermViewChannel] []);
     room_panel;
     mkActionNode "register"
       (RegisterInstanceV1 "instance" "study_room"
          (mkResourcesV1 [("member", "role")] [("room", "channel")] [("panel", "message")]));
     mkActionNode "done" (EditResponseV1 "Created ${input.name}")].

Definition show_rules : WorkflowSpecV1 :=
  mkWorkflow "rules" (InstanceActionV1 "rules") AlwaysV1
    [mkActionNode "defer_rules" DeferEphemeralV1;
     mkActionNode "post_rules"
       (PostPanelV1 "rules_message" (ExistingChannelV1 "lobby") "Accept the rules"
          [mkActionButton "Join" (InstanceActionRouteV1 EventInstanceV1 "join")]);
     mkActionNode "rules_done" (EditResponseV1 "See the lobby")].

Definition join_room : WorkflowSpecV1 :=
  mkWorkflow "join" (InstanceActionV1 "join") AlwaysV1
    [mkActionNode "defer_join" DeferEphemeralV1;
     mkActionNode "grant" (GrantRoleV1 (InstanceRoleV1 EventInstanceV1 "member") ActorV1);
     mkActionNode "joined" (EditResponseV1 "Welcome")].

Definition study_spec : AutomationSpecV1 :=
  mkAutomationSpec 1 AUTOMATION_SPEC_KIND_V1 "study" "Study rooms" "Rooms on demand"
    [mkDeclaredPanel "lobby" "lobby" "Open a room" [mkDeclaredButton "Open" "open"]]
    [mkModalDefinition "create" "New room"
       [mkFieldDefinition "name" "Name" ShortV1 true (Some 2) (Some 40) TrimUnicodeWhitespaceV1]]
    [mkWorkflow "ask" (ButtonClickV1 "open") AlwaysV1 [mkActionNode "ask_name" (OpenModalV1 "create")];
     create_room; show_rules; join_room].

Definition sample_len (_ : AutomationSpecV1) : option Z := Some 2000.
Definition sample_debug (_ : ValidationError) : string := "error".
Definition sample_spec_json (spec : AutomationSpecV1) : option (list Z) := Some [as_schema_version spec].
Definition sample_map_json (m : AutomationSourceMapV1) : option (list Z) := Some [Z.of_nat (length (sm_workflows m))].
Definition sample_binding_json (b : AutomationCompilationBindingV1) : option (list Z) := Some (cb_source_map_digest b).
Definition sample_hash (version : Z) (rules : InteractionRuleSet) : Result RuleSetHashError (list Z) :=
  Ok [version; Z.of_nat (length (rs_rules rules))].
Definition sample_sha (bytes : list Z) : list Z := take 32 (rev bytes).

Lemma study_validates : validate_automation_spec_v1 sample_len sample_debug study_spec = Ok tt.
Proof. vm_compute. reflexivity. Qed.

Lemma study_elem : create_room ∈ as_workflows study_spec.
Proof. vm_compute. do 1 right. left. Qed.

Lemma panel_elem : room_panel ∈ wf_actions create_room.
Proof. vm_compute. do 4 right. left. Qed.

Lemma rendered_routes_have_one_handler_witness :
  validate_automation_spec_v1 sample_len sample_debug study_spec = Ok tt ∧
  renders study_spec (InstanceActionV1 "rules") ∧ handled_once study_spec (InstanceActionV1 "rules").
Proof.
  assert (Hr : renders study_spec (InstanceActionV1 "rules")).
  { apply (RendersPosted study_spec create_room room_panel _ _ _ _ rules_button study_elem panel_elem eq_refl). left. }
  split; [exact study_validates|]. split; [exact Hr|].
  exact (rendered_routes_have_one_handler sample_len sample_debug _ _ study_validates Hr).
Defined.

Lemma rules_forward : passes_on study_spec "rules" "join".
Proof.
  eexists show_rules, _.
  split; [by apply list_elem_of_lookup; exists 2%nat|]. split; [reflexivity|]. split; [right; left|].
  econstructor; [left|reflexivity].
Qed.

Lemma join_uses : uses_role study_spec "join" "member".
Proof.
  eexists join_room, _.
  split; [by apply list_elem_of_lookup; exists 3%nat|]. split; [reflexivity|]. split; [right; left|]. constructor.
Qed.

(** The role that the second button in the chain grants is registered by the creation. *)
Lemma created_instances_have_their_roles_witness :
  validate_automation_spec_v1 sample_len sample_debug study_spec = Ok tt ∧
  ∃ registration kind resources, registration ∈ wf_actions create_room ∧
    an_action registration = RegisterInstanceV1 "instance" kind resources ∧
    is_some (bt_get (ir_roles resources) "member") = true.
Proof.
  split; [exact study_validates|].
  apply (created_instances_have_their_roles sample_len sample_debug study_spec create_room room_panel _ _ _ _
    rules_button "instance" "rules" "join"
    "member" study_validates study_elem panel_elem eq_refl).
  - left.
  - reflexivity.
  - eapply rtc_l; [exact rules_forward|apply rtc_refl].
  - exact join_uses.
Defined.

(** ** Compiled *)
Definition study_compiled : CompiledAutomationSpecV1 :=
  match compile_deployable_automation_spec_v1 sample_len sample_debug sample_spec_json sample_map_json
          sample_binding_json sample_hash sample_sha study_spec with
  | Ok compiled => compiled
  | Err _ => mkCompiledSpec [] [] (mkRuleSetIdentity "study" 1 []) (lower_shape study_spec)
               (mkSourceMap 0 "study" 0 (mkSpecIdentity 0 []) (mkRuleSetIdentity "study" 1 []) []) []
               (mkCompilationBinding 0 "study" 0 (mkSpecIdentity 0 []) (mkRuleSetIdentity "study" 1 []) 0 []) []
               (mkAutomationPreview 0 [] "none" "none" (mkPreviewSummary 0 0 0 0 0 0) [] 0 0 (mkPerEvent 0 0 0)
                  RuntimeExtensionRequired [] CompilationBlocked)
  end.

Lemma study_compiles :
  compile_deployable_automation_spec_v1 sample_len sample_debug sample_spec_json sample_map_json
    sample_binding_json sample_hash sample_sha study_spec = Ok study_compiled.
Proof. vm_compute. reflexivity. Qed.

Definition study_version : RuleSetVersion :=
  mkRuleSetVersion 7 "study" 1 1 (cs_ruleset study_compiled) (cs_ruleset_content_hash study_compiled) 5.

Definition study_bindings : ResourceBindingMap := mkBindings ∅ {["lobby" := 70]}.
Definition study_capabilities : GuildCapabilities :=
  mkCapabilities (ap_conservative_discord_permission_bits (cs_preview study_compiled)).

Lemma study_grants : grants_unprivileged study_spec ∅.
Proof. intros ? ? ? ? p _ _ _ Hp. by rewrite lookup_empty in Hp. Qed.

Lemma compiled_specs_run_witness :
  ∃ runtime,
    check_readiness sample_hash study_version study_bindings study_capabilities ∅ = Ok runtime ∧
    rt_definition runtime = lower_shape study_spec ∧
    safe (W := MockWorld) false
      (handle_event (H := telling_services) submit_event (rt_definition runtime) study_bindings "failed" study_identity)
      (λ outcome, outcome = HandleNoOp ↔
        Forall (λ w, trigger_matches (lower_trigger (wf_trigger w)) (ev_kind submit_event) = false)
          (as_workflows study_spec)).
Proof.
  apply (compiled_specs_run (H := telling_services) sample_len sample_debug sample_spec_json sample_map_json
    sample_binding_json sample_hash sample_sha study_spec study_compiled study_version study_bindings
    study_capabilities ∅ submit_event "failed" study_identity telling_speaks study_compiles eq_refl eq_refl eq_refl).
  - vm_compute. reflexivity.
  - exact study_grants.
  - vm_compute. reflexivity.
  - intros id action. discriminate.
Defined.

Lemma study_simulates :
  simulate_automation_spec_v1 sample_len sample_debug study_spec
    (mkSimulationEvent (ModalSubmitV1 "create") [("name", " Rocq ")]) =
  Ok (mkSimulationTrace ActionsPlanned (Some "create") (Some true) [("name", "Rocq")]
        ["defer"; "make_role"; "make_channel"; "open_channel"; "post_room"; "register"; "done"]).
Proof. vm_compute. reflexivity. Qed.

Lemma simulation_agrees_with_runtime_witness :
  normalize_modal_submit_inputs submit_event (lower_shape study_spec) = Ok (Some [("name", "Rocq")]).
Proof.
  destruct (simulation_agrees_with_runtime sample_len sample_debug study_spec _ _ 7 5 "room" study_simulates eq_refl)
    as (_ & _ & _ & _ & [inputs|] & Hn & Hi).
  - cbn in Hi. subst inputs. exact Hn.
  - discriminate Hi.
Defined.
