(* ===== verification/StatefulModel.v ===== *)
(** * Stateful automation documents

    Crate [automation-stateful-spec]: [model.rs], a document with state variables and
    workflows that choose a branch and assign state, and [view.rs], the stateless document
    that stands for one choice of branches. *)

From Stdlib Require Import ZArith Lia Ascii String.
From stdpp Require Import base decidable list strings gmap numbers.
From S2P Require Import Prelude RustStd RustText SpecModel SpecValidate.
Open Scope string_scope.
Open Scope list_scope.
Open Scope Z_scope.

(** ** Values *)
Definition STATEFUL_SPEC_SCHEMA_VERSION_V1 : Z := 1.
Definition STATEFUL_SPEC_KIND_V1 : string := "starring.stateful-spec.v1".
Definition MAX_SAFE_INTEGER_V1 : Z := 9007199254740991.

Inductive StateScopeV1 := ScopeInstallation | ScopeActor | ScopeInstance | ScopeActorInstance.

Inductive StateValueTypeV1 :=
| BoolType
| IntegerType (min max : Z)
| TextType (max_utf8_bytes : Z).

Inductive StateValueV1 :=
| BoolValue (value : bool)
| IntegerValue (value : Z)
| TextValue (value : string).

#[export] Instance StateScopeV1_eq_dec : EqDecision StateScopeV1.
Proof. solve_decision. Defined.
#[export] Instance StateValueTypeV1_eq_dec : EqDecision StateValueTypeV1.
Proof. solve_decision. Defined.
#[export] Instance StateValueV1_eq_dec : EqDecision StateValueV1.
Proof. solve_decision. Defined.

Inductive StatePrimitiveTypeV1 := PrimitiveBool | PrimitiveInteger | PrimitiveText.

#[export] Instance StatePrimitiveTypeV1_eq_dec : EqDecision StatePrimitiveTypeV1.
Proof. solve_decision. Defined.

Definition type_primitive_type (t : StateValueTypeV1) : StatePrimitiveTypeV1 :=
  match t with
  | BoolType => PrimitiveBool
  | IntegerType _ _ => PrimitiveInteger
  | TextType _ => PrimitiveText
  end.

Definition value_primitive_type (v : StateValueV1) : StatePrimitiveTypeV1 :=
  match v with
  | BoolValue _ => PrimitiveBool
  | IntegerValue _ => PrimitiveInteger
  | TextValue _ => PrimitiveText
  end.

(** [(-MAX_SAFE_INTEGER_V1..=MAX_SAFE_INTEGER_V1).contains(&value)]. *)
Definition js_safe (value : Z) : bool := (- MAX_SAFE_INTEGER_V1 <=? value) && (value <=? MAX_SAFE_INTEGER_V1).

Definition accepts (t : StateValueTypeV1) (v : StateValueV1) : bool :=
  match t, v with
  | BoolType, BoolValue _ => true
  | IntegerType min max, IntegerValue value => js_safe value && ((min <=? value) && (value <=? max))
  | TextType max_utf8_bytes, TextValue value => str_len value <=? max_utf8_bytes
  | _, _ => false
  end.

Record StateVariableV1 := mkStateVariable {
  sv_id : string;
  sv_scope : StateScopeV1;
  sv_value_type : StateValueTypeV1;
  sv_initial_value : StateValueV1
}.

(** ** Expressions *)
Inductive StatefulValueExprV1 :=
| LiteralExpr (value : StateValueV1)
| InputTextExpr (input_id : string)
| StateExpr (variable_id : string)
| CheckedAddExpr (left right : StatefulValueExprV1)
| CheckedSubExpr (left right : StatefulValueExprV1).

Inductive IntegerComparisonV1 :=
| CompareEqual | CompareNotEqual | CompareLessThan | CompareLessThanOrEqual
| CompareGreaterThan | CompareGreaterThanOrEqual.

Inductive StatefulConditionExprV1 :=
| CondAlways
| CondInputNonEmpty (input_id : string)
| CondInputEquals (input_id value : string)
| CondStateEquals (variable_id : string) (value : StatefulValueExprV1)
| CondIntegerCompare (left : StatefulValueExprV1) (operator : IntegerComparisonV1) (right : StatefulValueExprV1)
| CondAll (conditions : list StatefulConditionExprV1)
| CondAny (conditions : list StatefulConditionExprV1)
| CondNot (condition : StatefulConditionExprV1).

(** ** Workflows *)
Record StateSetNodeV1 := mkStateSet {
  sn_id : string;
  sn_variable_id : string;
  sn_value : StatefulValueExprV1
}.

Record StatefulResponseNodeV1 := mkResponseNode {
  rn_id : string;
  rn_content : string
}.

Record StatefulBranchV1 := mkBranch {
  br_state_actions : list StateSetNodeV1;
  br_effects : list ActionNodeV1;
  br_response : StatefulResponseNodeV1
}.

Record StatefulWorkflowV1 := mkStatefulWorkflow {
  sw_id : string;
  sw_trigger : TriggerV1;
  sw_condition : StatefulConditionExprV1;
  sw_on_true : StatefulBranchV1;
  sw_on_false : StatefulBranchV1
}.

Record StatefulSpecV1 := mkStatefulSpec {
  ss_schema_version : Z;
  ss_kind : string;
  ss_key : string;
  ss_display_name : string;
  ss_description : string;
  ss_panels : list DeclaredPanelV1;
  ss_modals : list ModalDefinitionV1;
  ss_stateless_workflows : list WorkflowSpecV1;
  ss_state_variables : list StateVariableV1;
  ss_stateful_workflows : list StatefulWorkflowV1
}.

(** ** Views *)
Inductive BranchViewV1 := ViewTrue | ViewFalse.

Definition selected_branch (selected : BranchViewV1) (workflow : StatefulWorkflowV1) : StatefulBranchV1 :=
  match selected with ViewTrue => sw_on_true workflow | ViewFalse => sw_on_false workflow end.

Definition branch_node_ids (branch : StatefulBranchV1) : list string :=
  map sn_id (br_state_actions branch) ++ map an_id (br_effects branch) ++ [rn_id (br_response branch)].

Definition all_node_ids (spec : StatefulSpecV1) : gset string :=
  list_to_set ((ss_stateless_workflows spec ≫= λ workflow, map an_id (wf_actions workflow))
               ++ (ss_stateful_workflows spec ≫= λ workflow,
                     branch_node_ids (sw_on_true workflow) ++ branch_node_ids (sw_on_false workflow))).

(** [for nonce in 1..=u16::MAX]; after the last nonce the source is [unreachable!]. *)
Fixpoint ack_candidate (prefix : string) (user_node_ids : gset string) (nonce : Z) (left : nat) : option string :=
  match left with
  | O => None
  | S left' =>
      let candidate := fmt [prefix; "_"; num nonce] in
      if bool_decide (candidate ∈ user_node_ids) then ack_candidate prefix user_node_ids (nonce + 1) left'
      else Some candidate
  end.

Definition u16_max : Z := 65535.

Definition implicit_ack_id (workflow_index : nat) (user_node_ids : gset string) : option string :=
  let prefix := fmt ["implicit_ack_"; num (Z.of_nat workflow_index)] in
  if bool_decide (prefix ∉ user_node_ids) then Some prefix
  else ack_candidate prefix user_node_ids 1 (Z.to_nat u16_max).

Definition view_workflow (selected : BranchViewV1) (user_node_ids : gset string) (workflow_index : nat)
    (workflow : StatefulWorkflowV1) : option WorkflowSpecV1 :=
  let branch := selected_branch selected workflow in
  ack ← implicit_ack_id workflow_index user_node_ids;
  Some (mkWorkflow (sw_id workflow) (sw_trigger workflow) AlwaysV1
    (mkActionNode ack DeferEphemeralV1
     :: br_effects branch
     ++ [mkActionNode (rn_id (br_response branch)) (EditResponseV1 (rn_content (br_response branch)))])).

(** [None] where the source panics. *)
Definition automation_spec_validation_view_v1 (spec : StatefulSpecV1) (selected : BranchViewV1)
  : option AutomationSpecV1 :=
  let user_node_ids := all_node_ids spec in
  stateful ← mapM (λ '(index, workflow), view_workflow selected user_node_ids index workflow)
               (imap pair (ss_stateful_workflows spec));
  Some (mkAutomationSpec AUTOMATION_SPEC_SCHEMA_VERSION_V1 AUTOMATION_SPEC_KIND_V1 (ss_key spec)
          (ss_display_name spec) (ss_description spec) (ss_panels spec) (ss_modals spec)
          (ss_stateless_workflows spec ++ stateful)).
