(* ===== verification/StatefulValidate.v ===== *)
(** * Validation of stateful automation documents

    Crate [automation-stateful-spec], [validate.rs]: bounds, declarations, the graph with
    the types of its expressions, the roles of created instances over both branches, and
    the validation of both stateless views. The diagnostics, with code, path and message,
    are those of the source, in its order. *)

From Stdlib Require Import ZArith Lia Ascii String.
From stdpp Require Import base decidable list strings gmap numbers.
From S2P Require Import Prelude RustStd RustText AutomationValidate SpecModel SpecValidate StatefulModel.
Open Scope string_scope.
Open Scope list_scope.
Open Scope Z_scope.

Definition MAX_STATEFUL_SPEC_CANONICAL_BYTES_V1 : Z := 64 * 1024.
Definition MAX_STATE_VARIABLES_V1 : Z := 64.
Definition MAX_STATEFUL_WORKFLOWS_V1 : Z := 32.
Definition MAX_NODES_PER_BRANCH_V1 : Z := 64.
Definition MAX_STATE_ACTIONS_PER_BRANCH_V1 : Z := 32.
Definition MAX_TOTAL_STATEFUL_NODES_V1 : Z := 512.
Definition MAX_VALUE_EXPR_DEPTH_V1 : Z := 8.
Definition MAX_VALUE_EXPR_NODES_V1 : Z := 64.
Definition MAX_STATE_TEXT_BYTES_V1 : Z := 4000.
Definition MAX_STATE_TEXT_UTF16_UNITS_V1 : Z := 4000.

(** ** References and values *)

(** [value.contains('\0')]. *)
Definition contains_nul (value : string) : bool := negb (str_all (λ c, negb (Ascii.eqb c Ascii.zero)) value).

Definition text_too_large (value : string) : bool :=
  (MAX_STATE_TEXT_BYTES_V1 <? str_len value) || (MAX_STATE_TEXT_UTF16_UNITS_V1 <? utf16_len value).

Definition validate_text (value path : string) : Diagnostics :=
  push_if (contains_nul value) "state_text_contains_nul" path "state text must not contain U+0000"
  ++ push_if (text_too_large value) "state_text_too_large" path
       "state text must not exceed 4000 UTF-8 bytes or UTF-16 code units".

Definition validate_state_value (value : StateValueV1) (path : string) : Diagnostics :=
  match value with
  | IntegerValue value =>
      push_if (negb (js_safe value)) "integer_value_not_js_safe" (child path "value")
        "integer values must be within the JavaScript-safe integer range"
  | TextValue value => validate_text value (child path "value")
  | BoolValue _ => []
  end.

Record InputContext := mkInputContext {
  ic_is_modal : bool;
  ic_declared_inputs : option (gset string)
}.

Definition validate_input_reference (input_id path : string) (context : InputContext) : Diagnostics :=
  validate_identifier (child path "input_id") input_id
  ++ (if negb (ic_is_modal context)
      then push "input_reference_requires_modal_trigger" path
             "input references are available only to modal_submit workflows"
      else push_if (is_some_and (λ fields, bool_decide (input_id ∉ fields)) (ic_declared_inputs context))
             "unknown_input_reference" (child path "input_id")
             "input_id must name a field declared by the trigger modal").

Definition needs_instance (scope : StateScopeV1) : bool :=
  match scope with ScopeInstance | ScopeActorInstance => true | _ => false end.

Definition validate_state_reference (variable_id path : string) (trigger : TriggerV1)
    (variables : gmap string StateVariableV1) : option StateVariableV1 * Diagnostics :=
  match variables !! variable_id with
  | None => (None, validate_identifier path variable_id
                   ++ push "unknown_state_variable" path "state references must name a declared variable")
  | Some variable =>
      (Some variable,
       validate_identifier path variable_id
       ++ push_if (needs_instance (sv_scope variable) && negb (is_instance_trigger trigger))
            "instance_scope_unavailable" path
            "instance and actor_instance state is available only to instance_action workflows")
  end.

(** ** Expressions *)

(** [i64::checked_add] and [checked_sub]. *)
Definition i64_checked (value : Z) : option Z :=
  if (- 2 ^ 63 <=? value) && (value <? 2 ^ 63) then Some value else None.

Fixpoint constant_integer_value (expression : StatefulValueExprV1) : option Z :=
  match expression with
  | LiteralExpr (IntegerValue value) => Some value
  | CheckedAddExpr lhs rhs =>
      l ← constant_integer_value lhs; r ← constant_integer_value rhs; i64_checked (l + r)
  | CheckedSubExpr lhs rhs =>
      l ← constant_integer_value lhs; r ← constant_integer_value rhs; i64_checked (l - r)
  | LiteralExpr _ | InputTextExpr _ | StateExpr _ => None
  end.

(** The check of two constant operands. *)
Definition constant_overflow (path : string) (operation : Z → Z → Z) (lhs rhs : StatefulValueExprV1)
  : Diagnostics :=
  match constant_integer_value lhs, constant_integer_value rhs with
  | Some l, Some r =>
      push_if (negb (is_some_and js_safe (i64_checked (operation l r)))) "constant_checked_arithmetic_overflow"
        path "constant checked arithmetic must stay within the JavaScript-safe integer range"
  | _, _ => []
  end.

Definition not_integer (t : option StatePrimitiveTypeV1) : bool :=
  is_some_and (λ t, negb (bool_decide (t = PrimitiveInteger))) t.

Section expressions.
Context (trigger : TriggerV1) (input_context : InputContext) (variables : gmap string StateVariableV1).

(** The type, the nodes counted so far, and the diagnostics. *)
Fixpoint infer_value_expr (expression : StatefulValueExprV1) (path : string) (depth nodes : Z)
  : option StatePrimitiveTypeV1 * Z * Diagnostics :=
  let nodes := usize_saturating_add nodes 1 in
  let arithmetic operation lhs rhs :=
    let '(left_type, nodes, left_diagnostics) := infer_value_expr lhs (child path "left") (depth + 1) nodes in
    let '(right_type, nodes, right_diagnostics) := infer_value_expr rhs (child path "right") (depth + 1) nodes in
    let mismatch side t :=
      push_if (not_integer t) "checked_arithmetic_type_mismatch" (child path side)
        "checked arithmetic requires integer operands" in
    (Some PrimitiveInteger, nodes,
     left_diagnostics ++ mismatch "left" left_type
     ++ right_diagnostics ++ mismatch "right" right_type
     ++ constant_overflow path operation lhs rhs) in
  if MAX_VALUE_EXPR_DEPTH_V1 <? depth
  then (None, nodes, push "value_expression_depth_exceeded" path
                       (fmt ["value expression depth must not exceed "; num MAX_VALUE_EXPR_DEPTH_V1]))
  else if MAX_VALUE_EXPR_NODES_V1 <? nodes
  then (None, nodes, push "value_expression_node_budget_exceeded" path
                       (fmt ["a value expression must not exceed "; num MAX_VALUE_EXPR_NODES_V1; " nodes"]))
  else match expression with
  | LiteralExpr value =>
      (Some (value_primitive_type value), nodes, validate_state_value value (child path "value"))
  | InputTextExpr input_id => (Some PrimitiveText, nodes, validate_input_reference input_id path input_context)
  | StateExpr variable_id =>
      let '(variable, diagnostics) :=
        validate_state_reference variable_id (child path "variable_id") trigger variables in
      ((λ v, type_primitive_type (sv_value_type v)) <$> variable, nodes, diagnostics)
  | CheckedAddExpr lhs rhs => arithmetic Z.add lhs rhs
  | CheckedSubExpr lhs rhs => arithmetic Z.sub lhs rhs
  end.

(** An expression on its own: the count starts at zero. *)
Definition infer_expression (expression : StatefulValueExprV1) (path : string)
  : option StatePrimitiveTypeV1 * Diagnostics :=
  let '(t, _, diagnostics) := infer_value_expr expression path 1 0 in (t, diagnostics).

Definition types_differ (variable : option StateVariableV1) (t : option StatePrimitiveTypeV1) : bool :=
  match variable, t with
  | Some variable, Some t => negb (bool_decide (type_primitive_type (sv_value_type variable) = t))
  | _, _ => false
  end.

Definition validate_operand (path side : string) (expression : StatefulValueExprV1) : Diagnostics :=
  let '(t, diagnostics) := infer_expression expression (child path side) in
  diagnostics ++ push_if (not_integer t) "integer_comparison_type_mismatch" (child path side)
                   "integer comparisons require integer operands".

Fixpoint validate_stateful_condition (condition : StatefulConditionExprV1) (path : string) (depth nodes : Z)
  : Z * Diagnostics :=
  let nodes := usize_saturating_add nodes 1 in
  if MAX_CONDITION_DEPTH_V1 <? depth
  then (nodes, push "condition_depth_exceeded" path
                 (fmt ["condition depth must not exceed "; num MAX_CONDITION_DEPTH_V1]))
  else if MAX_CONDITION_NODES_V1 <? nodes
  then (nodes, push "condition_node_budget_exceeded" path
                 (fmt ["a condition must not exceed "; num MAX_CONDITION_NODES_V1; " nodes"]))
  else match condition with
  | CondAlways => (nodes, [])
  | CondInputNonEmpty input_id => (nodes, validate_input_reference input_id path input_context)
  | CondInputEquals input_id value =>
      (nodes, validate_input_reference input_id path input_context ++ validate_text value (child path "value"))
  | CondStateEquals variable_id value =>
      let '(variable, reference) :=
        validate_state_reference variable_id (child path "variable_id") trigger variables in
      let '(t, diagnostics) := infer_expression value (child path "value") in
      (nodes, reference ++ diagnostics
              ++ push_if (types_differ variable t) "state_equality_type_mismatch" (child path "value")
                   "state equality operands must have the same primitive type")
  | CondIntegerCompare lhs _ rhs =>
      (nodes, validate_operand path "left" lhs ++ validate_operand path "right" rhs)
  | CondAll conditions | CondAny conditions =>
      let empty := push_if (empty_group conditions) "empty_condition_group" (child path "conditions")
                     "all and any groups must not be empty" in
      let '(nodes', diagnostics) :=
        pass (λ index c nodes,
                validate_stateful_condition c (item (child path "conditions") index) (depth + 1) nodes)
          0 conditions nodes in
      (nodes', empty ++ diagnostics)
  | CondNot c => validate_stateful_condition c (child path "condition") (depth + 1) nodes
  end.
End expressions.

(** ** Header and declarations *)
Definition validate_header_and_bounds (encoded_len : StatefulSpecV1 → option Z) (spec : StatefulSpecV1)
  : Diagnostics :=
  let workflow_count := usize_saturating_add (len (ss_stateless_workflows spec)) (len (ss_stateful_workflows spec)) in
  push_if (negb (ss_schema_version spec =? STATEFUL_SPEC_SCHEMA_VERSION_V1)) "unsupported_schema_version"
    "/schema_version" "StatefulSpec V1 requires schema_version 1"
  ++ push_if (negb (String.eqb (ss_kind spec) STATEFUL_SPEC_KIND_V1)) "invalid_kind" "/kind"
       (fmt ["StatefulSpec V1 requires kind "; STATEFUL_SPEC_KIND_V1])
  ++ push_if (is_some_and (λ bytes, MAX_STATEFUL_SPEC_CANONICAL_BYTES_V1 <? bytes) (encoded_len spec))
       "stateful_spec_too_large" "/"
       (fmt ["the stateful spec must not exceed "; num MAX_STATEFUL_SPEC_CANONICAL_BYTES_V1; " encoded bytes"])
  ++ push_if (MAX_STATE_VARIABLES_V1 <? len (ss_state_variables spec)) "state_variable_count_exceeded"
       "/state_variables" (fmt ["at most "; num MAX_STATE_VARIABLES_V1; " state variables are supported"])
  ++ push_if ((workflow_count =? 0) || (MAX_STATEFUL_WORKFLOWS_V1 <? workflow_count)) "invalid_workflow_count" "/"
       (fmt ["stateless_workflows and stateful_workflows together must contain 1..=";
             num MAX_STATEFUL_WORKFLOWS_V1; " entries"]).

Definition validate_value_type (path : string) (value_type : StateValueTypeV1) : Diagnostics :=
  match value_type with
  | BoolType => []
  | IntegerType min max =>
      push_if ((max <? min) || (min <? - MAX_SAFE_INTEGER_V1) || (MAX_SAFE_INTEGER_V1 <? max))
        "invalid_integer_bounds" (child path "value_type")
        "integer state requires JS-safe min/max with min less than or equal to max"
  | TextType max_utf8_bytes =>
      push_if ((max_utf8_bytes =? 0) || (MAX_STATE_TEXT_BYTES_V1 <? max_utf8_bytes)) "invalid_text_bound"
        (child path "value_type/max_utf8_bytes") "text state max_utf8_bytes must be in 1..=4000"
  end.

Definition validate_declaration (index : nat) (variable : StateVariableV1) (variables : gmap string StateVariableV1)
  : gmap string StateVariableV1 * Diagnostics :=
  let path := item "/state_variables" index in
  (<[sv_id variable := variable]> variables,
   validate_identifier (child path "id") (sv_id variable)
   ++ push_if (is_some (variables !! sv_id variable)) "duplicate_state_variable_id" (child path "id")
        "state variable IDs must be unique"
   ++ validate_value_type path (sv_value_type variable)
   ++ validate_state_value (sv_initial_value variable) (child path "initial_value")
   ++ (if negb (bool_decide (type_primitive_type (sv_value_type variable) =
                             value_primitive_type (sv_initial_value variable)))
       then push "initial_value_type_mismatch" (child path "initial_value")
              "initial_value primitive type must match value_type"
       else push_if (negb (accepts (sv_value_type variable) (sv_initial_value variable)))
              "initial_value_out_of_bounds" (child path "initial_value")
              "initial_value must satisfy its declared integer or text bounds")).

Definition validate_state_declarations (spec : StatefulSpecV1) : gmap string StateVariableV1 * Diagnostics :=
  pass validate_declaration 0 (ss_state_variables spec) ∅.

(** ** The graph *)
Record GraphPass := mkGraphPass {
  gp_workflow_ids : gset string;
  gp_trigger_ids : gset string;
  gp_node_ids : gset string
}.

Definition register_workflow_identity (id : string) (trigger : TriggerV1) (path : string) (state : GraphPass)
  : GraphPass * Diagnostics :=
  let '(workflow_ids, duplicate_id) :=
    insert_or id (gp_workflow_ids state) "duplicate_workflow_id" (child path "id")
      "workflow IDs must be unique across stateless and stateful workflows" in
  let '(trigger_ids, duplicate_trigger) :=
    insert_or (trigger_identity trigger) (gp_trigger_ids state) "duplicate_trigger" (child path "trigger")
      "only one workflow may consume a trigger" in
  (mkGraphPass workflow_ids trigger_ids (gp_node_ids state),
   validate_identifier (child path "id") id ++ duplicate_id ++ duplicate_trigger).

Definition register_node_id (id path : string) (node_ids : gset string) : gset string * Diagnostics :=
  let '(node_ids, duplicate) :=
    insert_or id node_ids "duplicate_node_id" path
      "node IDs must be unique across stateless and stateful workflows" in
  (node_ids, validate_identifier path id ++ duplicate).

Definition is_always (condition : ConditionExprV1) : bool :=
  match condition with AlwaysV1 => true | _ => false end.

Definition validate_stateless_workflow (index : nat) (workflow : WorkflowSpecV1) (state : GraphPass)
  : GraphPass * Diagnostics :=
  let path := item "/stateless_workflows" index in
  let '(state, identity) := register_workflow_identity (wf_id workflow) (wf_trigger workflow) path state in
  let '(node_ids, nodes) :=
    pass (λ action_index node, register_node_id (an_id node) (child (item (child path "actions") action_index) "id"))
      0 (wf_actions workflow) (gp_node_ids state) in
  (mkGraphPass (gp_workflow_ids state) (gp_trigger_ids state) node_ids,
   identity
   ++ push_if (negb (is_always (wf_condition workflow))) "stateless_condition_must_be_always"
        (child path "condition")
        "StatefulSpec V1 stateless workflows must use the always condition; conditional branching belongs in stateful_workflows"
   ++ nodes).

Section branches.
Context (trigger : TriggerV1) (input_context : InputContext) (variables : gmap string StateVariableV1).

Definition literal_out_of_bounds (variable : option StateVariableV1) (t : option StatePrimitiveTypeV1)
    (expression : StatefulValueExprV1) : bool :=
  match variable, t, expression with
  | Some variable, Some _, LiteralExpr value => negb (accepts (sv_value_type variable) value)
  | _, _, _ => false
  end.

(** One assignment; the state is the node ids and the variables written so far. *)
Definition validate_state_action (path : string) (index : nat) (action : StateSetNodeV1)
    (state : gset string * gset string) : (gset string * gset string) * Diagnostics :=
  let action_path := item (child path "state_actions") index in
  let '(node_ids, node) := register_node_id (sn_id action) (child action_path "id") state.1 in
  let '(written, duplicate) :=
    insert_or (sn_variable_id action) state.2 "duplicate_branch_state_write" (child action_path "variable_id")
      "parallel branch assignment may target each variable at most once" in
  let '(variable, reference) :=
    validate_state_reference (sn_variable_id action) (child action_path "variable_id") trigger variables in
  let '(t, expression) :=
    infer_expression trigger input_context variables (sn_value action) (child action_path "value") in
  ((node_ids, written),
   node
   ++ validate_identifier (child action_path "variable_id") (sn_variable_id action)
   ++ duplicate ++ reference ++ expression
   ++ push_if (types_differ variable t) "state_set_type_mismatch" (child action_path "value")
        "state assignment expression type must match its target variable"
   ++ push_if (literal_out_of_bounds variable t (sn_value action)) "state_set_literal_out_of_bounds"
        (child action_path "value") "literal assignment must satisfy the target variable bounds").

Definition is_response_action (action : ActionV1) : bool :=
  match action with
  | RespondEphemeralV1 _ | OpenModalV1 _ | DeferEphemeralV1 | EditResponseV1 _ => true
  | _ => false
  end.

Definition validate_effect (path : string) (index : nat) (effect : ActionNodeV1) (node_ids : gset string)
  : gset string * Diagnostics :=
  let effect_path := item (child path "effects") index in
  let '(node_ids, node) := register_node_id (an_id effect) (child effect_path "id") node_ids in
  (node_ids,
   node ++ push_if (is_response_action (an_action effect)) "response_action_forbidden_in_effects"
             (child effect_path "action")
             "effects cannot contain response actions; stateful branches use an implicit defer and dedicated final response").

Definition branch_nodes (branch : StatefulBranchV1) : Z :=
  usize_saturating_add (usize_saturating_add (len (br_state_actions branch)) (len (br_effects branch))) 1.

Definition validate_branch (branch : StatefulBranchV1) (path : string) (node_ids : gset string)
  : gset string * Diagnostics :=
  let '(state, actions) := pass (validate_state_action path) 0 (br_state_actions branch) (node_ids, ∅) in
  let '(node_ids, effects) := pass (validate_effect path) 0 (br_effects branch) state.1 in
  let '(node_ids, response) :=
    register_node_id (rn_id (br_response branch)) (child path "response/id") node_ids in
  (node_ids,
   push_if (MAX_NODES_PER_BRANCH_V1 <? branch_nodes branch) "branch_node_count_exceeded" path
     (fmt ["a branch must not exceed "; num MAX_NODES_PER_BRANCH_V1; " authored nodes"])
   ++ push_if (MAX_STATE_ACTIONS_PER_BRANCH_V1 <? len (br_state_actions branch))
        "branch_state_action_count_exceeded" (child path "state_actions")
        (fmt ["a branch must not exceed "; num MAX_STATE_ACTIONS_PER_BRANCH_V1; " state assignments"])
   ++ actions ++ effects ++ response).
End branches.

Definition modal_inputs (spec : StatefulSpecV1) : gmap string (gset string) :=
  foldl (λ m modal, <[md_id modal := list_to_set (map fd_id (md_fields modal))]> m) ∅ (ss_modals spec).

Definition input_context_of (modal_fields : gmap string (gset string)) (trigger : TriggerV1) : InputContext :=
  match trigger with
  | ModalSubmitV1 modal_id => mkInputContext true (modal_fields !! modal_id)
  | _ => mkInputContext false None
  end.

(** One stateful workflow; the state is the ids seen and the nodes counted. *)
Definition validate_stateful_workflow (modal_fields : gmap string (gset string))
    (variables : gmap string StateVariableV1) (index : nat) (workflow : StatefulWorkflowV1)
    (state : GraphPass * Z) : (GraphPass * Z) * Diagnostics :=
  let path := item "/stateful_workflows" index in
  let trigger := sw_trigger workflow in
  let context := input_context_of modal_fields trigger in
  let '(pass_state, identity) := register_workflow_identity (sw_id workflow) trigger path state.1 in
  let condition :=
    (validate_stateful_condition trigger context variables (sw_condition workflow) (child path "condition") 1 0).2 in
  let '(node_ids, on_true) :=
    validate_branch trigger context variables (sw_on_true workflow) (child path "on_true") (gp_node_ids pass_state) in
  let '(node_ids, on_false) :=
    validate_branch trigger context variables (sw_on_false workflow) (child path "on_false") node_ids in
  let count total branch :=
    usize_saturating_add
      (usize_saturating_add (usize_saturating_add total (len (br_state_actions branch))) (len (br_effects branch))) 1 in
  ((mkGraphPass (gp_workflow_ids pass_state) (gp_trigger_ids pass_state) node_ids,
    count (count state.2 (sw_on_true workflow)) (sw_on_false workflow)),
   identity ++ condition ++ on_true ++ on_false).

Definition validate_graph (spec : StatefulSpecV1) (variables : gmap string StateVariableV1) : Diagnostics :=
  let '(state, stateless) :=
    pass validate_stateless_workflow 0 (ss_stateless_workflows spec) (mkGraphPass ∅ ∅ ∅) in
  let '(state, stateful) :=
    pass (validate_stateful_workflow (modal_inputs spec) variables) 0 (ss_stateful_workflows spec) (state, 0) in
  stateless ++ stateful
  ++ push_if (MAX_TOTAL_STATEFUL_NODES_V1 <? state.2) "stateful_node_budget_exceeded" "/stateful_workflows"
       (fmt ["at most "; num MAX_TOTAL_STATEFUL_NODES_V1; " stateful nodes are supported"]).

(** ** Roles of created instances, over both branches *)
Definition collect_stateful_workflow (state : gmap string Z * (Requirements * Requirements))
    (workflow : StatefulWorkflowV1) : gmap string Z * (Requirements * Requirements) :=
  match sw_trigger workflow with
  | InstanceActionV1 action_id =>
      (bump action_id state.1,
       collect_handler_requirements action_id (br_effects (sw_on_false workflow))
         (collect_handler_requirements action_id (br_effects (sw_on_true workflow)) state.2))
  | _ => state
  end.

Definition missing_cross_branch_resource (alias : string) : string :=
  fmt ["the created instance must declare role alias "; alias;
       " required by either handler branch or a transitively forwarded instance action"].

Definition validate_cross_branch_instance_resources (spec : StatefulSpecV1) : Diagnostics :=
  let '(handler_counts, state) :=
    foldl collect_stateful_workflow (foldl collect_workflow (∅, ([], [])) (ss_stateless_workflows spec))
      (ss_stateful_workflows spec) in
  let required := required_roles state in
  let creator actions path :=
    validate_creator_branch actions path handler_counts required
      "created_instance_missing_cross_branch_handler_resource" missing_cross_branch_resource in
  each (λ index workflow, creator (wf_actions workflow) (child (item "/stateless_workflows" index) "actions"))
    (ss_stateless_workflows spec)
  ++ each (λ index workflow,
             creator (br_effects (sw_on_true workflow)) (child (item "/stateful_workflows" index) "on_true/effects")
             ++ creator (br_effects (sw_on_false workflow))
                  (child (item "/stateful_workflows" index) "on_false/effects"))
       (ss_stateful_workflows spec).

(** ** The whole document *)

(** [Vec::dedup]: of equal neighbours the first is kept. *)
Fixpoint dedup {A} `{EqDecision A} (l : list A) : list A :=
  match l with
  | x :: (y :: _) as rest => if decide (x = y) then dedup rest else x :: dedup rest
  | _ => l
  end.

Inductive StatefulSpecValidationErrorV1 :=
| StatefulDiagnostics (diagnostics : Diagnostics)
| StatefulPanic.

Section stateful.
Context (encoded_len : StatefulSpecV1 → option Z) (view_encoded_len : AutomationSpecV1 → option Z).
Context (debug_validation_error : ValidationError → string).

Definition shape_view_diagnostics (spec : StatefulSpecV1) (branch_name : string) (selected : BranchViewV1)
  : option Diagnostics :=
  view ← automation_spec_validation_view_v1 spec selected;
  Some match validate_automation_spec_v1 view_encoded_len debug_validation_error view with
       | Ok _ => []
       | Err diagnostics =>
           map (λ d, mkDiagnostic (fmt ["runtime_shape_"; dg_code d])
                       (fmt ["/"; branch_name; "_branch_runtime_shape"; dg_path d]) (dg_message d)) diagnostics
       end.

Definition validate_runtime_shape_views (spec : StatefulSpecV1) : option Diagnostics :=
  on_true ← shape_view_diagnostics spec "true" ViewTrue;
  on_false ← shape_view_diagnostics spec "false" ViewFalse;
  Some (on_true ++ on_false).

Definition validate_stateful_spec_v1 (spec : StatefulSpecV1) : Result StatefulSpecValidationErrorV1 unit :=
  let '(variables, declarations) := validate_state_declarations spec in
  views ← ok_or (validate_runtime_shape_views spec) StatefulPanic;
  match dedup (sort_by diagnostic_le
                 (validate_header_and_bounds encoded_len spec
                  ++ declarations
                  ++ validate_graph spec variables
                  ++ validate_cross_branch_instance_resources spec
                  ++ views)) with
  | [] => Ok tt
  | diagnostics => Err (StatefulDiagnostics diagnostics)
  end.
End stateful.
