(* ===== verification/StatefulEval.v ===== *)
(** * Evaluation and simulation of stateful automations

    Crate [automation-stateful-spec]: [evaluate.rs] (conditions, values and parallel
    assignment), [event.rs] (inputs of an event) and [simulate.rs]. Normalized inputs are a
    sorted list as in the stateless simulation; the state is a finite map. *)

From Stdlib Require Import ZArith Lia Ascii String.
From stdpp Require Import base decidable list strings gmap numbers.
From S2P Require Import Prelude RustStd RustText AutomationValidate SpecModel SpecValidate SpecCompile.
From S2P Require Import ApprovalBinding StatefulModel StatefulValidate.
Open Scope string_scope.
Open Scope list_scope.
Open Scope Z_scope.

Abbreviation State := (gmap string StateValueV1) (only parsing).
Abbreviation Inputs := (list (string * string)) (only parsing).

(** ** Evaluation *)
Inductive StatefulCoreBranchSelectionV1 := SelectTrue | SelectFalse.

Record StatefulCoreTransitionV1 := mkCoreTransition {
  tn_node_id : string;
  tn_variable_id : string;
  tn_before : StateValueV1;
  tn_after : StateValueV1
}.

Record StatefulCoreEvaluationV1 := mkCoreEvaluation {
  ce_workflow_id : string;
  ce_condition_result : bool;
  ce_branch : StatefulCoreBranchSelectionV1;
  ce_state_after : State;
  ce_transitions : list StatefulCoreTransitionV1;
  ce_external_node_ids : list string
}.

Inductive StatefulCoreEvaluationErrorV1 :=
| CoreInvalidSpec
| CoreWorkflowMismatch
| CoreInvalidInputs
| CoreInvalidState
| CoreEvaluation (code : string) (node_id : option string)
| CorePanic.

Definition spec_failure (e : StatefulSpecValidationErrorV1) : StatefulCoreEvaluationErrorV1 :=
  match e with StatefulDiagnostics _ => CoreInvalidSpec | StatefulPanic => CorePanic end.

(** The fold over the inputs, in key order. *)
Fixpoint inputs_payload (inputs : Inputs) (total : Z) : Result StatefulCoreEvaluationErrorV1 Z :=
  match inputs with
  | [] => Ok total
  | (key, value) :: rest =>
      _ ← ensure (negb (str_is_empty key || (64 <? str_len key)
                        || (MAX_SIMULATION_INPUT_BYTES_V1 <? str_len value)
                        || (MAX_SIMULATION_INPUT_BYTES_V1 <? utf16_len value))) CoreInvalidInputs;
      _ ← ensure (negb (contains_nul value)) (CoreEvaluation "input_text_contains_nul" None);
      inputs_payload rest (usize_saturating_add (usize_saturating_add total (str_len key)) (str_len value))
  end.

Definition validate_inputs (inputs : Inputs) : Result StatefulCoreEvaluationErrorV1 unit :=
  _ ← ensure (negb (MAX_SIMULATION_INPUTS_V1 <? len inputs)) CoreInvalidInputs;
  payload_bytes ← inputs_payload inputs 0;
  ensure (negb (MAX_SIMULATION_PAYLOAD_BYTES_V1 <? payload_bytes)) CoreInvalidInputs.

Definition bad_text (value : StateValueV1) : bool :=
  match value with TextValue text => contains_nul text || text_too_large text | _ => false end.

Fixpoint validate_variables (variables : list StateVariableV1) (state : State)
  : Result StatefulCoreEvaluationErrorV1 unit :=
  match variables with
  | [] => Ok tt
  | variable :: rest =>
      value ← ok_or (state !! sv_id variable) CoreInvalidState;
      _ ← ensure (accepts (sv_value_type variable) value) CoreInvalidState;
      _ ← ensure (negb (bad_text value)) CoreInvalidState;
      validate_variables rest state
  end.

Definition validate_state (spec : StatefulSpecV1) (state : State) : Result StatefulCoreEvaluationErrorV1 unit :=
  _ ← ensure (bool_decide (size state = length (ss_state_variables spec))) CoreInvalidState;
  validate_variables (ss_state_variables spec) state.

Section values.
Context (inputs : Inputs) (state : State).

Definition as_integer (code : string) (node_id : option string) (value : StateValueV1)
  : Result StatefulCoreEvaluationErrorV1 Z :=
  match value with IntegerValue value => Ok value | _ => Err (CoreEvaluation code node_id) end.

Fixpoint evaluate_value (expression : StatefulValueExprV1) (node_id : option string)
  : Result StatefulCoreEvaluationErrorV1 StateValueV1 :=
  let arithmetic operation lhs rhs :=
    left_value ← evaluate_value lhs node_id;
    left_value ← as_integer "checked_arithmetic_type_mismatch" node_id left_value;
    right_value ← evaluate_value rhs node_id;
    right_value ← as_integer "checked_arithmetic_type_mismatch" node_id right_value;
    match i64_checked (operation left_value right_value) with
    | Some value =>
        if js_safe value then Ok (IntegerValue value) else Err (CoreEvaluation "integer_overflow" node_id)
    | None => Err (CoreEvaluation "integer_overflow" node_id)
    end in
  match expression with
  | LiteralExpr value => Ok value
  | InputTextExpr input_id =>
      let value := default EmptyString (bt_get inputs input_id) in
      if contains_nul value then Err (CoreEvaluation "input_text_contains_nul" node_id) else Ok (TextValue value)
  | StateExpr variable_id => ok_or (state !! variable_id) CoreInvalidState
  | CheckedAddExpr lhs rhs => arithmetic Z.add lhs rhs
  | CheckedSubExpr lhs rhs => arithmetic Z.sub lhs rhs
  end.

Definition compare_integers (operator : IntegerComparisonV1) (l r : Z) : bool :=
  match operator with
  | CompareEqual => l =? r
  | CompareNotEqual => negb (l =? r)
  | CompareLessThan => l <? r
  | CompareLessThanOrEqual => l <=? r
  | CompareGreaterThan => r <? l
  | CompareGreaterThanOrEqual => r <=? l
  end.

Fixpoint evaluate_stateful_condition (condition : StatefulConditionExprV1)
  : Result StatefulCoreEvaluationErrorV1 bool :=
  match condition with
  | CondAlways => Ok true
  | CondInputNonEmpty input_id => Ok (is_some_and (λ value, negb (str_is_empty value)) (bt_get inputs input_id))
  | CondInputEquals input_id value => Ok (bool_decide (bt_get inputs input_id = Some value))
  | CondStateEquals variable_id value =>
      value ← evaluate_value value None;
      Ok (bool_decide (state !! variable_id = Some value))
  | CondIntegerCompare lhs operator rhs =>
      l ← evaluate_value lhs None;
      l ← as_integer "invalid_integer_comparison_operand" None l;
      r ← evaluate_value rhs None;
      r ← as_integer "invalid_integer_comparison_operand" None r;
      Ok (compare_integers operator l r)
  | CondAll conditions =>
      (fix all (l : list StatefulConditionExprV1) : Result StatefulCoreEvaluationErrorV1 bool :=
         match l with
         | [] => Ok true
         | c :: rest => b ← evaluate_stateful_condition c; if b : bool then all rest else Ok false
         end) conditions
  | CondAny conditions =>
      (fix any (l : list StatefulConditionExprV1) : Result StatefulCoreEvaluationErrorV1 bool :=
         match l with
         | [] => Ok false
         | c :: rest => b ← evaluate_stateful_condition c; if b : bool then Ok true else any rest
         end) conditions
  | CondNot c => b ← evaluate_stateful_condition c; Ok (negb b)
  end.
End values.

(** ** Branches *)
Record BranchExecutionV1 := mkBranchExecution {
  be_state_after : State;
  be_transitions : list StatefulCoreTransitionV1;
  be_external_node_ids : list string
}.

(** Every right-hand side reads the state before the branch. *)
Definition pending_transition (inputs : Inputs) (state_before : State) (declarations : gmap string StateVariableV1)
    (action : StateSetNodeV1) : Result StatefulCoreEvaluationErrorV1 StatefulCoreTransitionV1 :=
  before ← ok_or (state_before !! sn_variable_id action) CoreInvalidState;
  after ← evaluate_value inputs state_before (sn_value action) (Some (sn_id action));
  declaration ← ok_or (declarations !! sn_variable_id action) CoreInvalidState;
  _ ← ensure (accepts (sv_value_type declaration) after)
        (CoreEvaluation "state_value_out_of_bounds" (Some (sn_id action)));
  Ok (mkCoreTransition (sn_id action) (sn_variable_id action) before after).

Definition apply_transition (state : State) (transition : StatefulCoreTransitionV1) : State :=
  <[tn_variable_id transition := tn_after transition]> state.

Fixpoint collect_results {E A B} (f : A → Result E B) (l : list A) : Result E (list B) :=
  match l with
  | [] => Ok []
  | x :: rest => y ← f x; ys ← collect_results f rest; Ok (y :: ys)
  end.

Definition execute_parallel_branch (branch : StatefulBranchV1) (inputs : Inputs) (state_before : State)
    (declarations : gmap string StateVariableV1) : Result StatefulCoreEvaluationErrorV1 BranchExecutionV1 :=
  pending ← collect_results (pending_transition inputs state_before declarations) (br_state_actions branch);
  Ok (mkBranchExecution (foldl apply_transition state_before pending) pending
        (map an_id (br_effects branch) ++ [rn_id (br_response branch)])).

Definition declarations_of (spec : StatefulSpecV1) : gmap string StateVariableV1 :=
  foldl (λ m variable, <[sv_id variable := variable]> m) ∅ (ss_state_variables spec).

Section workflow.
Context (encoded_len : StatefulSpecV1 → option Z) (view_encoded_len : AutomationSpecV1 → option Z).
Context (debug_validation_error : ValidationError → string).

Definition evaluate_validated_stateful_workflow_v1 (spec : StatefulSpecV1) (trigger : TriggerV1)
    (normalized_inputs : Inputs) (state_before : State)
  : Result StatefulCoreEvaluationErrorV1 StatefulCoreEvaluationV1 :=
  _ ← map_err spec_failure (validate_stateful_spec_v1 encoded_len view_encoded_len debug_validation_error spec);
  _ ← validate_inputs normalized_inputs;
  _ ← validate_state spec state_before;
  match List.filter (λ workflow, bool_decide (sw_trigger workflow = trigger)) (ss_stateful_workflows spec) with
  | [workflow] =>
      condition_result ← evaluate_stateful_condition normalized_inputs state_before (sw_condition workflow);
      let '(selection, branch) :=
        if condition_result : bool then (SelectTrue, sw_on_true workflow) else (SelectFalse, sw_on_false workflow) in
      execution ← execute_parallel_branch branch normalized_inputs state_before (declarations_of spec);
      Ok (mkCoreEvaluation (sw_id workflow) condition_result selection (be_state_after execution)
            (be_transitions execution) (be_external_node_ids execution))
  | _ => Err CoreWorkflowMismatch
  end.
End workflow.

(** ** Event inputs *)
Inductive StatefulEventNormalizationErrorV1 :=
| EventInvalidSpec (e : StatefulSpecValidationErrorV1)
| EventInvalid (diagnostics : Diagnostics)
| EventInvalidShapeView
| EventPanic.

(** The codes of the stateless simulation, prefixed. *)
Definition event_diagnostics (diagnostics : Diagnostics) : Diagnostics :=
  map (λ d, mkDiagnostic (fmt ["event_"; dg_code d]) (dg_path d) (dg_message d)) diagnostics.

Definition no_trigger_match (outcome : AutomationSimulationOutcomeV1) : bool :=
  match outcome with NoTriggerMatch => true | _ => false end.

(** ** Simulation *)
Definition MAX_STATEFUL_SIMULATION_CELLS_V1 : Z := 64.
Definition MAX_STATEFUL_SIMULATION_FIXTURE_CANONICAL_BYTES_V1 : Z := 64 * 1024.
Definition MAX_STATEFUL_SIMULATION_TOTAL_CANONICAL_BYTES_V1 : Z := 128 * 1024.
Definition STATEFUL_SIMULATION_TRACE_SCHEMA_VERSION_V1 : Z := 1.
Definition STATEFUL_SIMULATION_TRACE_KIND_V1 : string := "starring.stateful-simulation-trace.v1".

Record StateSimulationCellV1 := mkCell {
  cl_variable_id : string;
  cl_value : StateValueV1
}.

(** A [StatefulSimulationEventV1] is the stateless event. *)
Record StatefulSimulationInputV1 := mkSimulationInput {
  in_event : AutomationSimulationEventV1;
  in_state : list StateSimulationCellV1
}.

Inductive StatefulSimulationOutcomeV1 :=
| OutcomeNoTriggerMatch
| OutcomeStatelessConditionNotSatisfied
| OutcomeStatelessActionsPlanned
| OutcomeStatefulBranchPlanned.

Inductive StatefulSimulationWorkflowKindV1 := KindStateless | KindStateful.

Record StatefulSimulationTraceV1 := mkStatefulTrace {
  st_schema_version : Z;
  st_kind : string;
  st_spec_digest : list Z;
  st_event_trigger : TriggerV1;
  st_outcome : StatefulSimulationOutcomeV1;
  st_workflow_id : option string;
  st_workflow_kind : option StatefulSimulationWorkflowKindV1;
  st_condition_result : option bool;
  st_branch : option StatefulCoreBranchSelectionV1;
  st_normalized_inputs : Inputs;
  st_state_before : State;
  st_state_after : State;
  st_state_transitions : list StatefulCoreTransitionV1;
  st_external_node_ids : list string
}.

Record StatefulSimulationResultV1 := mkStatefulResult {
  sr_spec_digest : list Z;
  sr_trace : StatefulSimulationTraceV1;
  sr_trace_digest : list Z
}.

(** ** Digests and the shape of a trace *)
Definition MAX_STATEFUL_SIMULATION_TRACE_CANONICAL_BYTES_V1 : Z := 8 * 1024 * 1024.
Definition STATEFUL_SPEC_DIGEST_DOMAIN_V1 : list Z := domain_bytes "starring.stateful_spec.v1".
Definition STATEFUL_SIMULATION_TRACE_DIGEST_DOMAIN_V1 : list Z :=
  domain_bytes "starring.stateful_simulation_trace.v1".

(** Decoding, which alone fails with [NonCanonical], is left out. *)
Inductive StatefulSpecDigestErrorV1 :=
| StatefulDigestInvalid (e : StatefulSpecValidationErrorV1)
| StatefulDigestEncoding.

Inductive StatefulSimulationTraceDigestErrorV1 := TraceInvalid | TraceEncoding.

#[export] Instance StatefulSimulationWorkflowKindV1_eq_dec : EqDecision StatefulSimulationWorkflowKindV1.
Proof. solve_decision. Defined.

Definition trace_shape_valid (trace : StatefulSimulationTraceV1) : bool :=
  let kind k := bool_decide (st_workflow_kind trace = Some k) in
  match st_outcome trace with
  | OutcomeNoTriggerMatch =>
      negb (is_some (st_workflow_id trace)) && negb (is_some (st_workflow_kind trace)) && negb (is_some (st_condition_result trace))
      && negb (is_some (st_branch trace)) && empty_group (st_state_transitions trace)
      && empty_group (st_external_node_ids trace)
  | OutcomeStatelessConditionNotSatisfied =>
      is_some (st_workflow_id trace) && kind KindStateless
      && bool_decide (st_condition_result trace = Some false)
      && negb (is_some (st_branch trace)) && empty_group (st_state_transitions trace)
      && empty_group (st_external_node_ids trace)
  | OutcomeStatelessActionsPlanned =>
      is_some (st_workflow_id trace) && kind KindStateless
      && bool_decide (st_condition_result trace = Some true)
      && negb (is_some (st_branch trace)) && empty_group (st_state_transitions trace)
      && negb (empty_group (st_external_node_ids trace))
  | OutcomeStatefulBranchPlanned =>
      is_some (st_workflow_id trace) && kind KindStateful
      && match st_condition_result trace, st_branch trace with
         | Some true, Some SelectTrue | Some false, Some SelectFalse => true
         | _, _ => false
         end
      && negb (empty_group (st_external_node_ids trace))
  end.

(** The transitions replayed from the state before; each variable and node once. *)
Fixpoint reconstruct (transitions : list StatefulCoreTransitionV1) (variables nodes : gset string) (state : State)
  : option State :=
  match transitions with
  | [] => Some state
  | transition :: rest =>
      if bool_decide (tn_variable_id transition ∈ variables) || bool_decide (tn_node_id transition ∈ nodes)
         || negb (bool_decide (state !! tn_variable_id transition = Some (tn_before transition)))
      then None
      else reconstruct rest ({[tn_variable_id transition]} ∪ variables) ({[tn_node_id transition]} ∪ nodes)
             (apply_transition state transition)
  end.

Definition validate_trace (trace : StatefulSimulationTraceV1) : Result StatefulSimulationTraceDigestErrorV1 unit :=
  _ ← ensure ((st_schema_version trace =? STATEFUL_SIMULATION_TRACE_SCHEMA_VERSION_V1)
              && String.eqb (st_kind trace) STATEFUL_SIMULATION_TRACE_KIND_V1) TraceInvalid;
  _ ← ensure (trace_shape_valid trace) TraceInvalid;
  _ ← ensure (bool_decide (st_workflow_kind trace = Some KindStateful)
              || bool_decide (st_state_before trace = st_state_after trace)) TraceInvalid;
  reconstructed ← ok_or (reconstruct (st_state_transitions trace) ∅ ∅ (st_state_before trace)) TraceInvalid;
  ensure (bool_decide (reconstructed = st_state_after trace) && bool_decide (NoDup (st_external_node_ids trace)))
    TraceInvalid.

Inductive StatefulSimulationErrorV1 :=
| StatefulInvalidSpec (e : StatefulSpecValidationErrorV1)
| StatefulInvalidInput (diagnostics : Diagnostics)
| StatefulEvaluation (code : string) (node_id : option string)
| StatefulSpecIdentity (e : StatefulSpecDigestErrorV1)
| StatefulTraceIdentity (e : StatefulSimulationTraceDigestErrorV1)
| StatefulInvalidShapeView
| StatefulSimulationPanic.

Definition input_prebound (input_id value : string) : Diagnostics :=
  push_if ((64 <? str_len input_id) || (MAX_SIMULATION_INPUT_BYTES_V1 <? str_len value)
           || (MAX_SIMULATION_INPUT_BYTES_V1 <? utf16_len value))
    "simulation_input_prebound_exceeded" (fmt ["/event/inputs/"; input_id])
    "simulation input keys and values must satisfy the bounded event surface".

Definition cell_prebound (index : nat) (cell : StateSimulationCellV1) : Diagnostics :=
  let value_oversized := match cl_value cell with TextValue value => text_too_large value | _ => false end in
  push_if ((64 <? str_len (cl_variable_id cell)) || value_oversized) "simulation_state_cell_prebound_exceeded"
    (item "/state" index)
    "simulation state cell identifiers and values must satisfy the bounded state surface".

Definition cheap_simulation_shape_diagnostics (input : StatefulSimulationInputV1) : Diagnostics :=
  if MAX_STATEFUL_SIMULATION_CELLS_V1 <? len (in_state input)
  then push "simulation_state_cell_count_exceeded" "/state"
         (fmt ["simulation fixtures support at most "; num MAX_STATEFUL_SIMULATION_CELLS_V1; " state cells"])
  else if MAX_SIMULATION_INPUTS_V1 <? len (se_inputs (in_event input))
  then push "simulation_input_count_exceeded" "/event/inputs"
         (fmt ["simulation events support at most "; num MAX_SIMULATION_INPUTS_V1; " inputs"])
  else
    (se_inputs (in_event input) ≫= λ '(input_id, value), input_prebound input_id value)
    ++ push_if (MAX_SIMULATION_PAYLOAD_BYTES_V1 <? payload_bytes (in_event input))
         "simulation_payload_prebound_exceeded" "/event"
         "simulation input payload must not exceed 20000 UTF-8 bytes"
    ++ each cell_prebound (in_state input).

(** One supplied cell; a cell of an unknown variable is skipped. *)
Definition resolve_cell (declarations : gmap string StateVariableV1) (index : nat) (cell : StateSimulationCellV1)
    (supplied : State) : State * Diagnostics :=
  let path := item "/state" index in
  match declarations !! cl_variable_id cell with
  | None => (supplied, push "simulation_state_unknown" (child path "variable_id")
                         "simulation state cells must name declared variables")
  | Some variable =>
      (<[cl_variable_id cell := cl_value cell]> supplied,
       push_if (is_some (supplied !! cl_variable_id cell)) "simulation_state_duplicate" (child path "variable_id")
         "simulation state variable IDs must be unique"
       ++ (if negb (bool_decide (type_primitive_type (sv_value_type variable) = value_primitive_type (cl_value cell)))
           then push "simulation_state_type_mismatch" (child path "value")
                  "simulation state primitive types must match their declarations"
           else push_if (negb (accepts (sv_value_type variable) (cl_value cell))) "simulation_state_out_of_bounds"
                  (child path "value") "simulation state values must satisfy their declarations")
       ++ match cl_value cell with
          | TextValue value =>
              push_if (contains_nul value) "simulation_state_text_contains_nul" (child path "value/value")
                "state text must not contain U+0000"
              ++ push_if (text_too_large value) "simulation_state_text_too_large" (child path "value/value")
                   "simulation state text must not exceed 4000 UTF-8 bytes or UTF-16 code units"
          | _ => []
          end)
  end.

Definition resolve_simulation_state (spec : StatefulSpecV1) (state : list StateSimulationCellV1)
  : Result StatefulSimulationErrorV1 State :=
  let '(supplied, diagnostics) := pass (resolve_cell (declarations_of spec)) 0 state ∅ in
  match sort_by event_diagnostic_le diagnostics with
  | [] => Ok (foldl (λ m variable,
                <[sv_id variable := default (sv_initial_value variable) (supplied !! sv_id variable)]> m)
                ∅ (ss_state_variables spec))
  | diagnostics => Err (StatefulInvalidInput diagnostics)
  end.

Section simulation.
Context (encoded_len : StatefulSpecV1 → option Z) (view_encoded_len : AutomationSpecV1 → option Z).
Context (debug_validation_error : ValidationError → string).
(** [serde_json::to_vec] of the fixture, [canonical_json_bytes] of a spec and a trace, SHA-256. *)
Context (fixture_len : StatefulSimulationInputV1 → option Z).
Context (spec_json : StatefulSpecV1 → option (list Z)) (trace_json : StatefulSimulationTraceV1 → option (list Z)).
Context (sha256 : list Z → list Z).

Abbreviation validate_spec :=
  (validate_stateful_spec_v1 encoded_len view_encoded_len debug_validation_error) (only parsing).

Definition normalize_stateful_event_inputs_v1 (spec : StatefulSpecV1) (trigger : TriggerV1) (raw_inputs : Inputs)
  : Result StatefulEventNormalizationErrorV1 Inputs :=
  _ ← map_err EventInvalidSpec (validate_spec spec);
  view ← ok_or (automation_spec_validation_view_v1 spec ViewTrue) EventPanic;
  match simulate_automation_spec_v1 view_encoded_len debug_validation_error view
          (mkSimulationEvent trigger raw_inputs) with
  | Ok trace =>
      if no_trigger_match (tr_outcome trace)
      then Err (EventInvalid (push "event_trigger_not_declared" "/event/trigger"
                  "the derived trigger must match exactly one validated workflow"))
      else match List.find (λ '(_, value), contains_nul value) (tr_normalized_inputs trace) with
           | Some (input_id, _) =>
               Err (EventInvalid (push "event_input_contains_nul" (fmt ["/event/inputs/"; input_id])
                      "normalized event inputs must not contain U+0000"))
           | None => Ok (tr_normalized_inputs trace)
           end
  | Err (SimulationInvalidEvent diagnostics) => Err (EventInvalid (event_diagnostics diagnostics))
  | Err (SimulationInvalidSpec _) => Err EventInvalidShapeView
  end.

Definition validate_simulation_size (spec : StatefulSpecV1) (input : StatefulSimulationInputV1)
  : Result StatefulSimulationErrorV1 unit :=
  match cheap_simulation_shape_diagnostics input with
  | _ :: _ as diagnostics => Err (StatefulInvalidInput (sort_by event_diagnostic_le diagnostics))
  | [] =>
      fixture_bytes ← ok_or (fixture_len input)
        (StatefulInvalidInput (push "simulation_fixture_encoding_failed" "/"
           "the simulation fixture could not be encoded"));
      spec_bytes ← ok_or (encoded_len spec)
        (StatefulInvalidInput (push "simulation_spec_encoding_failed" "/"
           "the simulation spec could not be encoded"));
      match push_if (MAX_STATEFUL_SIMULATION_FIXTURE_CANONICAL_BYTES_V1 <? fixture_bytes)
              "simulation_fixture_too_large" "/"
              (fmt ["the simulation fixture must not exceed ";
                    num MAX_STATEFUL_SIMULATION_FIXTURE_CANONICAL_BYTES_V1; " encoded bytes"])
            ++ push_if (MAX_STATEFUL_SIMULATION_TOTAL_CANONICAL_BYTES_V1 <?
                          usize_saturating_add spec_bytes fixture_bytes)
                 "simulation_total_size_exceeded" "/"
                 (fmt ["the spec and simulation fixture together must not exceed ";
                       num MAX_STATEFUL_SIMULATION_TOTAL_CANONICAL_BYTES_V1; " encoded bytes"]) with
      | [] => Ok tt
      | diagnostics => Err (StatefulInvalidInput diagnostics)
      end
  end.

Definition stateful_spec_digest_v1 (spec : StatefulSpecV1) : Result StatefulSpecDigestErrorV1 (list Z) :=
  _ ← map_err StatefulDigestInvalid (validate_spec spec);
  bytes ← ok_or (spec_json spec) StatefulDigestEncoding;
  Ok (framed_sha256 sha256 STATEFUL_SPEC_DIGEST_DOMAIN_V1 bytes).

Definition canonical_stateful_simulation_trace_bytes_v1 (trace : StatefulSimulationTraceV1)
  : Result StatefulSimulationTraceDigestErrorV1 (list Z) :=
  _ ← validate_trace trace;
  bytes ← ok_or (trace_json trace) TraceEncoding;
  _ ← ensure (negb (MAX_STATEFUL_SIMULATION_TRACE_CANONICAL_BYTES_V1 <? len bytes)) TraceInvalid;
  Ok bytes.

Definition stateful_simulation_trace_digest_v1 (trace : StatefulSimulationTraceV1)
  : Result StatefulSimulationTraceDigestErrorV1 (list Z) :=
  bytes ← canonical_stateful_simulation_trace_bytes_v1 trace;
  Ok (framed_sha256 sha256 STATEFUL_SIMULATION_TRACE_DIGEST_DOMAIN_V1 bytes).

Definition finish (spec_digest : list Z) (trace : StatefulSimulationTraceV1)
  : Result StatefulSimulationErrorV1 StatefulSimulationResultV1 :=
  digest ← map_err StatefulTraceIdentity (stateful_simulation_trace_digest_v1 trace);
  Ok (mkStatefulResult spec_digest trace digest).

(** [base_trace], with the fields a stateless workflow fills in. *)
Definition stateless_trace (spec_digest : list Z) (trigger : TriggerV1) (outcome : StatefulSimulationOutcomeV1)
    (workflow_id : option string) (normalized : AutomationSimulationTraceV1) (state : State)
  : StatefulSimulationTraceV1 :=
  mkStatefulTrace STATEFUL_SIMULATION_TRACE_SCHEMA_VERSION_V1 STATEFUL_SIMULATION_TRACE_KIND_V1 spec_digest trigger
    outcome workflow_id
    (match workflow_id with Some _ => Some KindStateless | None => None end)
    (match workflow_id with Some _ => tr_condition_result normalized | None => None end)
    None (tr_normalized_inputs normalized) state state []
    (match workflow_id with Some _ => tr_action_node_ids normalized | None => [] end).

Definition simulate_stateful_spec_v1 (spec : StatefulSpecV1) (input : StatefulSimulationInputV1)
  : Result StatefulSimulationErrorV1 StatefulSimulationResultV1 :=
  let trigger := se_trigger (in_event input) in
  _ ← map_err StatefulInvalidSpec (validate_spec spec);
  _ ← validate_simulation_size spec input;
  state_before ← resolve_simulation_state spec (in_state input);
  spec_digest ← map_err StatefulSpecIdentity (stateful_spec_digest_v1 spec);
  view ← ok_or (automation_spec_validation_view_v1 spec ViewTrue) StatefulSimulationPanic;
  normalized ←
    match simulate_automation_spec_v1 view_encoded_len debug_validation_error view (in_event input) with
    | Ok trace => Ok trace
    | Err (SimulationInvalidEvent diagnostics) => Err (StatefulInvalidInput (event_diagnostics diagnostics))
    | Err (SimulationInvalidSpec _) => Err StatefulInvalidShapeView
    end;
  if no_trigger_match (tr_outcome normalized)
  then finish spec_digest (stateless_trace spec_digest trigger OutcomeNoTriggerMatch None normalized state_before)
  else match List.find (λ workflow, bool_decide (wf_trigger workflow = trigger)) (ss_stateless_workflows spec) with
  | Some workflow =>
      let outcome := match tr_outcome normalized with
                     | ActionsPlanned => OutcomeStatelessActionsPlanned
                     | _ => OutcomeStatelessConditionNotSatisfied
                     end in
      finish spec_digest (stateless_trace spec_digest trigger outcome (Some (wf_id workflow)) normalized state_before)
  | None =>
      execution ← map_err (λ e, match e with
                                | CoreEvaluation code node_id => StatefulEvaluation code node_id
                                | CorePanic => StatefulSimulationPanic
                                | _ => StatefulEvaluation "shared_stateful_core_failed" None
                                end)
        (evaluate_validated_stateful_workflow_v1 encoded_len view_encoded_len debug_validation_error spec trigger
           (tr_normalized_inputs normalized) state_before);
      finish spec_digest
        (mkStatefulTrace STATEFUL_SIMULATION_TRACE_SCHEMA_VERSION_V1 STATEFUL_SIMULATION_TRACE_KIND_V1 spec_digest
           trigger OutcomeStatefulBranchPlanned (Some (ce_workflow_id execution)) (Some KindStateful)
           (Some (ce_condition_result execution)) (Some (ce_branch execution)) (tr_normalized_inputs normalized)
           state_before (ce_state_after execution) (ce_transitions execution) (ce_external_node_ids execution))
  end.
End simulation.
