(* ===== verification/StatefulSound.v ===== *)
(** * What validated stateful documents guarantee

    Validation is a sound type system for the expressions: evaluating a validated document
    on inputs and state it accepts fails only on overflow or on a bound of a variable, and
    leaves a state it accepts. A branch assigns in parallel. *)

From Stdlib Require Import ZArith Lia Ascii String.
From stdpp Require Import base decidable list strings gmap sets fin_sets numbers relations.
From S2P Require Import Prelude RustStd RustText AutomationValidate SpecModel SpecValidate SpecCompile.
From S2P Require Import SpecSound StatefulModel StatefulValidate StatefulEval.
Open Scope string_scope.
Open Scope list_scope.
Open Scope Z_scope.

(** ** Reading diagnostics *)
Lemma dedup_nil {A} `{EqDecision A} (l : list A) : dedup l = [] → l = [].
Proof.
  induction l as [|x [|y l] IH]; [done|done|]. cbn. case_decide; [|done]. intros Hd. by apply IH in Hd.
Qed.

(** A loop that registers a key of each element in a set sees distinct keys. *)
Lemma pass_distinct {S A} (f : nat → A → S → S * Diagnostics) (key : A → string) (proj : S → gset string) n l s :
  (∀ i x s, (f i x s).2 = [] → key x ∉ proj s ∧ proj (f i x s).1 = {[key x]} ∪ proj s) →
  (pass f n l s).2 = [] →
  NoDup (map key l) ∧ (∀ x, x ∈ l → key x ∉ proj s) ∧ proj (pass f n l s).1 = list_to_set (map key l) ∪ proj s.
Proof.
  intros Hf. revert n s. induction l as [|x l IH]; intros n s Hp.
  { cbn. split; [constructor|]. split; [by intros x ?%not_elem_of_nil|set_solver]. }
  cbn in Hp |- *. pose proof (Hf n x s) as Hx. destruct (f n x s) as [s1 d1].
  change (_ (Datatypes.S n) l s1) with (pass f (Datatypes.S n) l s1) in *.
  specialize (IH (Datatypes.S n) s1). destruct (pass f (Datatypes.S n) l s1) as [s2 d2]. cbn in *.
  apply app_nil in Hp as [-> ->]. destruct (Hx eq_refl) as [Hnew Hs1]. destruct (IH eq_refl) as (Hnd & Hfresh & Hs2).
  rewrite Hs1 in Hfresh, Hs2. split.
  { constructor; [|done]. intros (y & Hk & Hy)%list_elem_of_fmap. apply (Hfresh y Hy). set_solver. }
  split; [|rewrite Hs2; set_solver]. intros y [->|Hy]%elem_of_cons; [done|]. specialize (Hfresh y Hy). set_solver.
Qed.

Lemma insert_or_fresh key s code path message : (insert_or key s code path message).2 = [] →
  key ∉ s ∧ (insert_or key s code path message).1 = {[key]} ∪ s.
Proof.
  unfold insert_or. cbn [fst snd]. rewrite push_if_nil. intros H%bool_decide_eq_false. split; [done|].
  unfold set_insert. set_solver.
Qed.

Lemma NoDup_map_inj {A} (f : A → string) (l : list A) x y :
  NoDup (map f l) → x ∈ l → y ∈ l → f x = f y → x = y.
Proof.
  intros Hnd [i Hi]%list_elem_of_lookup [j Hj]%list_elem_of_lookup E.
  assert (i = j) as ->; [|congruence]. eapply (NoDup_lookup _ _ _ (f x) Hnd).
  - by apply list_lookup_fmap_Some_2.
  - rewrite E. by apply list_lookup_fmap_Some_2.
Qed.

(** ** Values *)
Definition text_ok (text : string) : Prop := contains_nul text = false ∧ text_too_large text = false.

Definition value_ok (v : StateValueV1) : Prop :=
  match v with
  | BoolValue _ => True
  | IntegerValue z => js_safe z = true
  | TextValue text => text_ok text
  end.

Lemma validated_text text path : validate_text text path = [] → text_ok text.
Proof. unfold validate_text. intros H. no_diagnostics. by split. Qed.

Lemma validated_value v path : validate_state_value v path = [] → value_ok v.
Proof.
  destruct v as [b|z|text]; cbn; [done| |apply validated_text]. intros H. no_diagnostics. by apply negb_false_iff.
Qed.

Lemma accepts_type t v : accepts t v = true → value_primitive_type v = type_primitive_type t.
Proof. by destruct t, v. Qed.

Lemma accepted_ok t v : accepts t v = true → bad_text v = false → value_ok v.
Proof.
  destruct t, v as [|z|text]; try done; cbn.
  - by intros [? _]%andb_true_iff _.
  - intros _ [? ?]%orb_false_iff. by split.
Qed.

Lemma ok_not_bad v : value_ok v → bad_text v = false.
Proof. destruct v as [| |text]; try done. intros [H1 H2]. cbn. by rewrite H1, H2. Qed.

(** The state has a value of its type for every variable. *)
Definition state_typed (variables : gmap string StateVariableV1) (state : gmap string StateValueV1) : Prop :=
  ∀ id variable, variables !! id = Some variable →
    ∃ v, state !! id = Some v ∧ accepts (sv_value_type variable) v = true ∧ bad_text v = false.

Definition inputs_ok (inputs : list (string * string)) : Prop :=
  ∀ id text, bt_get inputs id = Some text → text_ok text.

(** The failures that remain: an integer leaves the safe range. *)
Definition overflow (node_id : option string) (e : StatefulCoreEvaluationErrorV1) : Prop :=
  e = CoreEvaluation "integer_overflow" node_id.

(** ** Expressions *)
Section typing.
Context (trigger : TriggerV1) (context : InputContext) (variables : gmap string StateVariableV1).
Context (inputs : list (string * string)) (state : gmap string StateValueV1).
Hypothesis Htyped : state_typed variables state.
Hypothesis Hinputs : inputs_ok inputs.

(** The value an expression of type [t] may have. *)
Definition has_type (t : option StatePrimitiveTypeV1) (node_id : option string)
    (r : Result StatefulCoreEvaluationErrorV1 StateValueV1) : Prop :=
  match r with
  | Ok v => t = Some (value_primitive_type v) ∧ value_ok v
  | Err e => t = Some PrimitiveInteger ∧ overflow node_id e
  end.

Lemma text_ok_empty : text_ok EmptyString.
Proof. by split. Qed.

Lemma arithmetic_sound operation (r1 r2 : Result StatefulCoreEvaluationErrorV1 StateValueV1) t1 t2 node_id :
  has_type t1 node_id r1 → has_type t2 node_id r2 → not_integer t1 = false → not_integer t2 = false →
  has_type (Some PrimitiveInteger) node_id
    (left_value ← r1; left_value ← as_integer "checked_arithmetic_type_mismatch" node_id left_value;
     right_value ← r2; right_value ← as_integer "checked_arithmetic_type_mismatch" node_id right_value;
     match i64_checked (operation left_value right_value) with
     | Some value =>
         if js_safe value then Ok (IntegerValue value) else Err (CoreEvaluation "integer_overflow" node_id)
     | None => Err (CoreEvaluation "integer_overflow" node_id)
     end).
Proof.
  intros H1 H2 Hn1 Hn2. destruct r1 as [v1|e1]; [|by destruct H1; split]. destruct H1 as [-> _]. destruct v1 as [b|z1|s]; try done.
  cbn [as_integer mbind Result_bind]. destruct r2 as [v2|e2]; [|by destruct H2; split]. destruct H2 as [-> _].
  destruct v2 as [b|z2|s]; try done. cbn [as_integer mbind Result_bind].
  destruct (i64_checked _) as [z|]; [|done]. by destruct (js_safe z) eqn:Hs.
Qed.

Lemma infer_sound e path depth nodes t n node_id :
  infer_value_expr trigger context variables e path depth nodes = (t, n, []) →
  has_type t node_id (evaluate_value inputs state e node_id).
Proof.
  revert path depth nodes t n.
  induction e as [v|input|id|e1 IH1 e2 IH2|e1 IH1 e2 IH2]; intros path depth nodes t n;
    cbn [infer_value_expr evaluate_value];
    (destruct (_ <? depth); [by intros [= <- <- ?]|]); (destruct (_ <? usize_saturating_add nodes 1); [by intros [= <- <- ?]|]).
  - intros [= <- <- Hd]. split; [done|]. by eapply validated_value.
  - intros [= <- <- _]. assert (Ht : text_ok (default EmptyString (bt_get inputs input))).
    { destruct (bt_get inputs input) eqn:E; [by eapply Hinputs|apply text_ok_empty]. }
    destruct Ht as [Hn Hl]. rewrite Hn. by split.
  - unfold validate_state_reference. destruct (variables !! id) as [variable|] eqn:Hv.
    + intros [= <- <- _]. destruct (Htyped _ _ Hv) as (v & -> & Ha & Hb). cbn. split; [|by eapply accepted_ok].
      f_equal. symmetry. by apply accepts_type.
    + intros [= <- <- Hd]. no_diagnostics. done.
  - destruct (infer_value_expr _ _ _ e1 _ _ _) as [[t1 n1] d1] eqn:E1.
    destruct (infer_value_expr _ _ _ e2 _ _ _) as [[t2 n2] d2] eqn:E2. intros [= <- <- Hd]. no_diagnostics. subst.
    eapply arithmetic_sound; eauto.
  - destruct (infer_value_expr _ _ _ e1 _ _ _) as [[t1 n1] d1] eqn:E1.
    destruct (infer_value_expr _ _ _ e2 _ _ _) as [[t2 n2] d2] eqn:E2. intros [= <- <- Hd]. no_diagnostics. subst.
    eapply arithmetic_sound; eauto.
Qed.

Lemma infer_typed e path t : infer_expression trigger context variables e path = (t, []) → is_Some t.
Proof.
  unfold infer_expression. destruct e as [v|input|id|e1 e2|e1 e2]; cbn; try done.
  - intros [= <- _]. done.
  - intros [= <- _]. done.
  - unfold validate_state_reference. destruct (variables !! id); intros [= <- Hd]; [done|]. by no_diagnostics.
  - repeat destruct (infer_value_expr _ _ _ _ _ _ _) as [[? ?] ?]. intros [= <- _]. done.
  - repeat destruct (infer_value_expr _ _ _ _ _ _ _) as [[? ?] ?]. intros [= <- _]. done.
Qed.

Lemma infer_expression_sound e path t node_id :
  infer_expression trigger context variables e path = (t, []) →
  has_type t node_id (evaluate_value inputs state e node_id).
Proof.
  unfold infer_expression. destruct (infer_value_expr _ _ _ e _ _ _) as [[t' n] d] eqn:E. intros [= -> ->].
  by eapply infer_sound.
Qed.

(** ** Conditions *)
Lemma condition_induction (P : StatefulConditionExprV1 → Prop) :
  P CondAlways → (∀ i, P (CondInputNonEmpty i)) → (∀ i v, P (CondInputEquals i v)) →
  (∀ i e, P (CondStateEquals i e)) → (∀ l o r, P (CondIntegerCompare l o r)) →
  (∀ l, Forall P l → P (CondAll l)) → (∀ l, Forall P l → P (CondAny l)) → (∀ c, P c → P (CondNot c)) → ∀ c, P c.
Proof.
  intros H1 H2 H3 H4 H5 H6 H7 H8. fix go 1. intros [|i|i v|i e|l o r|l|l|c].
  - exact H1.
  - apply H2.
  - apply H3.
  - apply H4.
  - apply H5.
  - apply H6. induction l as [|c l IH]; constructor; [apply go|exact IH].
  - apply H7. induction l as [|c l IH]; constructor; [apply go|exact IH].
  - apply H8, go.
Qed.

Definition decides (r : Result StatefulCoreEvaluationErrorV1 bool) : Prop :=
  match r with Ok _ => True | Err e => overflow None e end.

Lemma operand_sound path side e : validate_operand trigger context variables path side e = [] →
  match evaluate_value inputs state e None with Ok v => ∃ z, v = IntegerValue z | Err e => overflow None e end.
Proof.
  unfold validate_operand. destruct (infer_expression _ _ _ e _) as [t d] eqn:E. intros H. no_diagnostics. subst d.
  apply (infer_expression_sound _ _ _ None) in E. destruct (evaluate_value _ _ _ _) as [v|err]; [|by destruct E].
  destruct E as [-> _]. destruct v; try done. eauto.
Qed.

Definition condition_checked (c : StatefulConditionExprV1) : Prop := ∀ path depth nodes n,
  validate_stateful_condition trigger context variables c path depth nodes = (n, []) →
  decides (evaluate_stateful_condition inputs state c).

Lemma members_sound path depth nodes l n : Forall condition_checked l →
  pass (λ index c nodes, validate_stateful_condition trigger context variables c
          (item (child path "conditions") index) (depth + 1) nodes) 0 l nodes = (n, []) →
  ∀ c, c ∈ l → decides (evaluate_stateful_condition inputs state c).
Proof.
  intros IH Hp c Hc. rewrite Forall_forall in IH. destruct (pass_elem _ _ _ _ c (f_equal snd Hp) Hc) as (i & s & Hi).
  destruct (validate_stateful_condition _ _ _ c _ _ _) as [n' d'] eqn:E. cbn in Hi. subst d'. exact (IH c Hc _ _ _ _ E).
Qed.

Lemma condition_sound c : condition_checked c.
Proof.
  induction c as [|i|i v|i e|l o r|l IH|l IH|c IH] using condition_induction; intros path depth nodes n;
    cbn [validate_stateful_condition evaluate_stateful_condition]; try done;
    (destruct (_ <? depth); [by intros [= _ ?]|]); (destruct (_ <? usize_saturating_add nodes 1); [by intros [= _ ?]|]).
  - destruct (validate_state_reference _ _ _ _) as [variable d]. destruct (infer_expression _ _ _ e _) as [t d'] eqn:E.
    intros [= _ Hd]. no_diagnostics. subst. apply (infer_expression_sound _ _ _ None) in E.
    by destruct (evaluate_value _ _ _ _); [|destruct E].
  - intros [= _ Hd]. no_diagnostics. apply operand_sound in H. apply operand_sound in Hd.
    destruct (evaluate_value _ _ l _) as [v|]; [|done]. destruct H as [z ->]. cbn [as_integer mbind Result_bind].
    destruct (evaluate_value _ _ r _) as [v|]; [|done]. by destruct Hd as [z' ->].
  - destruct (pass _ 0 l _) as [n' d] eqn:Hp. intros [= _ Hd]. no_diagnostics. subst d.
    pose proof (members_sound _ _ _ _ _ IH Hp) as Hl.
    clear -Hl. induction l as [|c l IH]; [done|]. pose proof (Hl c ltac:(left)) as Hc. 
    destruct (evaluate_stateful_condition _ _ c) as [[]|]; [|done|done]. apply IH. intros c' ?. apply Hl. by right.
  - destruct (pass _ 0 l _) as [n' d] eqn:Hp. intros [= _ Hd]. no_diagnostics. subst d.
    pose proof (members_sound _ _ _ _ _ IH Hp) as Hl.
    clear -Hl. induction l as [|c l IH]; [done|]. pose proof (Hl c ltac:(left)) as Hc.
    destruct (evaluate_stateful_condition _ _ c) as [[]|]; [done| |done]. apply IH. intros c' ?. apply Hl. by right.
  - intros Hv. apply IH in Hv. by destruct (evaluate_stateful_condition _ _ c).
Qed.
End typing.

(** ** What expressions and conditions mean

    Over the integers, without bounds: the evaluator computes this, or finds that a sum or
    a difference leaves the safe range. *)
Section meaning.
Context (inputs : list (string * string)) (state : gmap string StateValueV1).

Definition on_integers (f : Z → Z → Z) (l r : option StateValueV1) : option StateValueV1 :=
  match l, r with Some (IntegerValue x), Some (IntegerValue y) => Some (IntegerValue (f x y)) | _, _ => None end.

Fixpoint meaning (e : StatefulValueExprV1) : option StateValueV1 :=
  match e with
  | LiteralExpr v => Some v
  | InputTextExpr id => Some (TextValue (default EmptyString (bt_get inputs id)))
  | StateExpr id => state !! id
  | CheckedAddExpr l r => on_integers Z.add (meaning l) (meaning r)
  | CheckedSubExpr l r => on_integers Z.sub (meaning l) (meaning r)
  end.

(** Some sum or difference in the expression is no safe integer. *)
Definition unsafe (v : option StateValueV1) : Prop :=
  ∃ z, v = Some (IntegerValue z) ∧ ¬ (- (2 ^ 53 - 1) ≤ z ≤ 2 ^ 53 - 1).

Fixpoint exceeds (e : StatefulValueExprV1) : Prop :=
  match e with
  | CheckedAddExpr l r | CheckedSubExpr l r => exceeds l ∨ exceeds r ∨ unsafe (meaning e)
  | _ => False
  end.

Definition compares (operator : IntegerComparisonV1) (x y : Z) : Prop :=
  match operator with
  | CompareEqual => x = y
  | CompareNotEqual => x ≠ y
  | CompareLessThan => x < y
  | CompareLessThanOrEqual => x ≤ y
  | CompareGreaterThan => y < x
  | CompareGreaterThanOrEqual => y ≤ x
  end.

Fixpoint holds (c : StatefulConditionExprV1) : Prop :=
  match c with
  | CondAlways => True
  | CondInputNonEmpty id => ∃ text, bt_get inputs id = Some text ∧ text ≠ EmptyString
  | CondInputEquals id text => bt_get inputs id = Some text
  | CondStateEquals id e => ∃ v, meaning e = Some v ∧ state !! id = Some v
  | CondIntegerCompare l operator r => ∃ x y, meaning l = Some (IntegerValue x) ∧
      meaning r = Some (IntegerValue y) ∧ compares operator x y
  | CondAll cs => foldr (λ c rest, holds c ∧ rest) True cs
  | CondAny cs => foldr (λ c rest, holds c ∨ rest) False cs
  | CondNot c => ¬ holds c
  end.

Fixpoint condition_exceeds (c : StatefulConditionExprV1) : Prop :=
  match c with
  | CondStateEquals _ e => exceeds e
  | CondIntegerCompare l _ r => exceeds l ∨ exceeds r
  | CondAll cs | CondAny cs => foldr (λ c rest, condition_exceeds c ∨ rest) False cs
  | CondNot c => condition_exceeds c
  | _ => False
  end.

Lemma evaluate_means e node_id v : evaluate_value inputs state e node_id = Ok v → meaning e = Some v.
Proof.
  revert v. induction e as [w|input|id|e1 IH1 e2 IH2|e1 IH1 e2 IH2]; intros v; cbn [evaluate_value meaning].
  - by intros [= ->].
  - destruct (contains_nul _); [done|]. by intros [= <-].
  - by intros ?%ok_or_Ok_inv.
  - intros (v1 & H1 & H)%bind_Ok_inv. apply bind_Ok_inv in H as (x & Hx & H).
    apply bind_Ok_inv in H as (v2 & H2 & H). apply bind_Ok_inv in H as (y & Hy & H).
    rewrite (IH1 _ H1), (IH2 _ H2). destruct v1, v2; try done. injection Hx as ->. injection Hy as ->.
    unfold i64_checked in H. repeat case_match; simplify_eq; done.
  - intros (v1 & H1 & H)%bind_Ok_inv. apply bind_Ok_inv in H as (x & Hx & H).
    apply bind_Ok_inv in H as (v2 & H2 & H). apply bind_Ok_inv in H as (y & Hy & H).
    rewrite (IH1 _ H1), (IH2 _ H2). destruct v1, v2; try done. injection Hx as ->. injection Hy as ->.
    unfold i64_checked in H. repeat case_match; simplify_eq; done.
Qed.

Lemma unsafe_result z node_id n :
  match i64_checked z with
  | Some value =>
      if js_safe value then Ok (IntegerValue value) else Err (CoreEvaluation "integer_overflow" node_id)
  | None => Err (CoreEvaluation "integer_overflow" node_id)
  end = Err (CoreEvaluation "integer_overflow" n) → unsafe (Some (IntegerValue z)).
Proof.
  intros H. exists z. split; [done|]. intros Hz.
  assert (Hs : js_safe z = true) by (unfold js_safe, MAX_SAFE_INTEGER_V1; rewrite andb_true_iff, !Z.leb_le; lia).
  unfold i64_checked in H. destruct (_ && _) eqn:Hb; [by rewrite Hs in H|].
  rewrite <-not_true_iff_false, andb_true_iff, Z.leb_le, Z.ltb_lt in Hb. lia.
Qed.

Lemma evaluate_exceeds e node_id n :
  evaluate_value inputs state e node_id = Err (CoreEvaluation "integer_overflow" n) → exceeds e.
Proof.
  induction e as [w|input|id|e1 IH1 e2 IH2|e1 IH1 e2 IH2]; cbn [evaluate_value exceeds meaning].
  - done.
  - by destruct (contains_nul _).
  - by destruct (state !! id).
  - destruct (evaluate_value _ _ e1 _) as [v1|] eqn:H1; [|intros [= ->]; auto].
    destruct v1 as [|x|]; try done. cbn [as_integer mbind Result_bind].
    destruct (evaluate_value _ _ e2 _) as [v2|] eqn:H2; [|intros [= ->]; auto].
    destruct v2 as [|y|]; try done. cbn [as_integer mbind Result_bind]. intros H%unsafe_result.
    right. right. by rewrite (evaluate_means _ _ _ H1), (evaluate_means _ _ _ H2).
  - destruct (evaluate_value _ _ e1 _) as [v1|] eqn:H1; [|intros [= ->]; auto].
    destruct v1 as [|x|]; try done. cbn [as_integer mbind Result_bind].
    destruct (evaluate_value _ _ e2 _) as [v2|] eqn:H2; [|intros [= ->]; auto].
    destruct v2 as [|y|]; try done. cbn [as_integer mbind Result_bind]. intros H%unsafe_result.
    right. right. by rewrite (evaluate_means _ _ _ H1), (evaluate_means _ _ _ H2).
Qed.

Lemma compare_integers_spec operator x y : compare_integers operator x y = true ↔ compares operator x y.
Proof.
  destruct operator; cbn; rewrite ?negb_true_iff, ?Z.eqb_eq, ?Z.eqb_neq, ?Z.ltb_lt, ?Z.leb_le; done.
Qed.

Lemma condition_means c b : evaluate_stateful_condition inputs state c = Ok b → (b = true ↔ holds c).
Proof.
  revert b. induction c as [|i|i v|i e|l o r|l IH|l IH|c IH] using condition_induction; intros b;
    cbn [evaluate_stateful_condition holds].
  - by intros [= <-].
  - intros [= <-]. destruct (bt_get inputs i) as [text|]; cbn; [|naive_solver].
    unfold str_is_empty. rewrite negb_true_iff, String.eqb_neq. naive_solver.
  - intros [= <-]. by rewrite bool_decide_eq_true.
  - intros (v & Hv%evaluate_means & [= <-])%bind_Ok_inv. rewrite bool_decide_eq_true, Hv. naive_solver.
  - intros (v1 & H1%evaluate_means & H)%bind_Ok_inv. apply bind_Ok_inv in H as (x & Hx & H).
    apply bind_Ok_inv in H as (v2 & H2%evaluate_means & H). apply bind_Ok_inv in H as (y & Hy & [= <-]).
    destruct v1, v2; try done. injection Hx as ->. injection Hy as ->.
    rewrite compare_integers_spec, H1, H2. naive_solver.
  - revert b. induction IH as [|c l Hc _ IHl]; intros b; cbn [foldr].
    + by intros [= <-].
    + intros (b1 & H1%Hc & H)%bind_Ok_inv. destruct b1; [apply IHl in H|injection H as <-]; naive_solver.
  - revert b. induction IH as [|c l Hc _ IHl]; intros b; cbn [foldr].
    + by intros [= <-].
    + intros (b1 & H1%Hc & H)%bind_Ok_inv. destruct b1; [injection H as <-|apply IHl in H]; naive_solver.
  - intros (b1 & H1%IH & [= <-])%bind_Ok_inv. rewrite negb_true_iff, <-H1. by destruct b1.
Qed.

Lemma condition_overflow_exceeds c n :
  evaluate_stateful_condition inputs state c = Err (CoreEvaluation "integer_overflow" n) → condition_exceeds c.
Proof.
  induction c as [|i|i v|i e|l o r|l IH|l IH|c IH] using condition_induction;
    cbn [evaluate_stateful_condition condition_exceeds]; try done.
  - destruct (evaluate_value _ _ e _) eqn:He; [done|]. intros [= ->]. by eapply evaluate_exceeds.
  - destruct (evaluate_value _ _ l _) as [v1|] eqn:H1; [|intros [= ->]; left; by eapply evaluate_exceeds].
    destruct v1; try done. cbn [as_integer mbind Result_bind].
    destruct (evaluate_value _ _ r _) as [v2|] eqn:H2; [|intros [= ->]; right; by eapply evaluate_exceeds].
    by destruct v2.
  - induction IH as [|c l Hc _ IHl]; cbn [foldr]; [done|].
    destruct (evaluate_stateful_condition _ _ c) as [[]|]; [by right; apply IHl|done|]. intros [= ->]. by left; apply Hc.
  - induction IH as [|c l Hc _ IHl]; cbn [foldr]; [done|].
    destruct (evaluate_stateful_condition _ _ c) as [[]|]; [done|by right; apply IHl|]. intros [= ->]. by left; apply Hc.
  - destruct (evaluate_stateful_condition _ _ c) as [|]; [done|]. intros [= ->]. by apply IH.
Qed.
End meaning.

(** A value of the right type is not one the variable may have. *)
Definition outside (t : StateValueTypeV1) (v : StateValueV1) : Prop :=
  match t, v with
  | IntegerType min max, IntegerValue z => ¬ (min ≤ z ≤ max)
  | TextType max_utf8_bytes, TextValue text => max_utf8_bytes < str_len text
  | _, _ => False
  end.

Lemma rejected_outside t v :
  type_primitive_type t = value_primitive_type v → value_ok v → accepts t v = false → outside t v.
Proof.
  destruct t, v; cbn; try done.
  - intros _ -> H Hz. cbn in H. rewrite <-not_true_iff_false, andb_true_iff, !Z.leb_le in H. lia.
  - intros _ _. by rewrite Z.leb_gt.
Qed.

(** ** The whole document *)
Lemma pass_state {S A} (f : nat → A → S → S * Diagnostics) (g : S → A → S) n l s :
  (∀ i x s, (f i x s).1 = g s x) → (pass f n l s).1 = foldl g s l.
Proof.
  intros Hf. revert n s. induction l as [|x l IH]; intros n s; [done|]. cbn. pose proof (Hf n x s) as Hx.
  destruct (f n x s) as [s1 d1]. change (_ (Datatypes.S n) l s1) with (pass f (Datatypes.S n) l s1).
  specialize (IH (Datatypes.S n) s1). destruct (pass f (Datatypes.S n) l s1) as [s2 d2]. cbn in *. by subst.
Qed.

Lemma declared_variables spec : (validate_state_declarations spec).1 = declarations_of spec.
Proof. unfold validate_state_declarations, declarations_of. by apply pass_state. Qed.

Lemma foldl_insert_elem {A V} (key : A → string) (val : A → V) (l : list A) (m : gmap string V) id v :
  foldl (λ m x, <[key x := val x]> m) m l !! id = Some v →
  m !! id = Some v ∨ ∃ x, x ∈ l ∧ key x = id ∧ val x = v.
Proof.
  revert m. induction l as [|x l IH]; intros m Hv; [by left|]. cbn [foldl] in Hv. apply IH in Hv as [Hv|(y & Hy & ?)].
  - destruct (decide (key x = id)) as [<-|Hne].
    + rewrite lookup_insert_eq in Hv. injection Hv as <-. right. exists x. split; [left|done].
    + rewrite lookup_insert_ne in Hv by done. by left.
  - right. exists y. split; [by right|done].
Qed.

Lemma declaration_elem spec id variable : declarations_of spec !! id = Some variable →
  variable ∈ ss_state_variables spec ∧ sv_id variable = id.
Proof.
  unfold declarations_of. intros [Hv|(x & Hx & <- & ->)]%(foldl_insert_elem sv_id (λ v, v)); [|done].
  by rewrite lookup_empty in Hv.
Qed.

Section document.
Context (encoded_len : StatefulSpecV1 → option Z) (view_encoded_len : AutomationSpecV1 → option Z).
Context (debug_validation_error : ValidationError → string).
Context (spec : StatefulSpecV1).

Abbreviation validate_spec :=
  (validate_stateful_spec_v1 encoded_len view_encoded_len debug_validation_error) (only parsing).

Record stateful_valid : Prop := {
  sf_declarations : (validate_state_declarations spec).2 = [];
  sf_graph : validate_graph spec (declarations_of spec) = [];
  sf_cross : validate_cross_branch_instance_resources spec = [];
  sf_views : ∀ selected, ∃ view, automation_spec_validation_view_v1 spec selected = Some view ∧
    validate_automation_spec_v1 view_encoded_len debug_validation_error view = Ok tt
}.

Lemma view_valid name selected : shape_view_diagnostics view_encoded_len debug_validation_error spec name selected = Some [] →
  ∃ view, automation_spec_validation_view_v1 spec selected = Some view ∧
    validate_automation_spec_v1 view_encoded_len debug_validation_error view = Ok tt.
Proof.
  unfold shape_view_diagnostics. destruct (automation_spec_validation_view_v1 _ _) as [view|]; [|done]. cbn.
  intros H. exists view. split; [done|]. destruct (validate_automation_spec_v1 _ _ view) as [[]|ds] eqn:E; [done|].
  unfold validate_automation_spec_v1 in E. destruct (sort_by _ _) as [|d rest]; [done|]. injection E as <-. done.
Qed.

Lemma validated_stateful : validate_spec spec = Ok tt → stateful_valid.
Proof.
  unfold validate_stateful_spec_v1. pose proof (declared_variables spec) as Hvars.
  destruct (validate_state_declarations spec) as [variables declarations] eqn:Hd. cbn in Hvars. subst variables.
  intros (views & Hviews & H)%bind_Ok_inv. destruct (dedup _) as [|d ds] eqn:Hnil; [|done].
  apply dedup_nil, sort_by_nil in Hnil. no_diagnostics. subst.
  unfold validate_runtime_shape_views in Hviews. 
  destruct (shape_view_diagnostics _ _ spec "true" ViewTrue) as [dt|] eqn:Ht; [|done]. cbn in Hviews.
  destruct (shape_view_diagnostics _ _ spec "false" ViewFalse) as [df|] eqn:Hf; [|done]. cbn in Hviews.
  injection Hviews as Happ. apply app_nil in Happ as [-> ->].
  split; [by rewrite Hd|done|done|]. intros [|]; by eapply view_valid.
Qed.

Lemma validated_bounds : validate_spec spec = Ok tt →
  len (ss_state_variables spec) ≤ MAX_STATE_VARIABLES_V1 ∧ len (ss_stateful_workflows spec) ≤ MAX_STATEFUL_WORKFLOWS_V1.
Proof.
  unfold validate_stateful_spec_v1. destruct (validate_state_declarations spec) as [variables declarations].
  intros (views & _ & H)%bind_Ok_inv. destruct (dedup _) as [|d ds] eqn:Hnil; [|done].
  apply dedup_nil, sort_by_nil in Hnil. apply app_nil in Hnil as [Hh _]. unfold validate_header_and_bounds in Hh.
  no_diagnostics. apply orb_false_iff in Hh as [_ Hw]. apply Z.ltb_ge in Hw. split; [by apply Z.ltb_ge|].
  unfold usize_saturating_add, MAX_STATEFUL_WORKFLOWS_V1, len in *. unfold u64_max in *. lia.
Qed.

(** ** Branches *)
Record branch_valid (trigger : TriggerV1) (context : InputContext) (branch : StatefulBranchV1) : Prop := {
  bv_actions : ∀ action, action ∈ br_state_actions branch →
    ∃ variable path, declarations_of spec !! sn_variable_id action = Some variable ∧
      infer_expression trigger context (declarations_of spec) (sn_value action) path =
        (Some (type_primitive_type (sv_value_type variable)), []);
  bv_variables : NoDup (map sn_variable_id (br_state_actions branch));
  bv_nodes : NoDup (branch_node_ids branch)
}.

Lemma register_fresh id path s : (register_node_id id path s).2 = [] →
  id ∉ s ∧ (register_node_id id path s).1 = {[id]} ∪ s.
Proof.
  unfold register_node_id. pose proof (insert_or_fresh id s "duplicate_node_id" path
    "node IDs must be unique across stateless and stateful workflows") as H.
  destruct (insert_or _ _ _ _ _) as [s' d]. cbn in *. intros Hd. no_diagnostics. auto.
Qed.

Lemma state_action_fresh trigger context path i action state :
  (validate_state_action trigger context (declarations_of spec) path i action state).2 = [] →
  (sn_id action ∉ state.1 ∧
   (validate_state_action trigger context (declarations_of spec) path i action state).1.1 = {[sn_id action]} ∪ state.1) ∧
  (sn_variable_id action ∉ state.2 ∧
   (validate_state_action trigger context (declarations_of spec) path i action state).1.2 =
     {[sn_variable_id action]} ∪ state.2) ∧
  ∃ variable vpath, declarations_of spec !! sn_variable_id action = Some variable ∧
    infer_expression trigger context (declarations_of spec) (sn_value action) vpath =
      (Some (type_primitive_type (sv_value_type variable)), []).
Proof.
  unfold validate_state_action.
  pose proof (register_fresh (sn_id action) (child (item (child path "state_actions") i) "id") state.1) as Hr.
  destruct (register_node_id _ _ _) as [ids d1].
  pose proof (insert_or_fresh (sn_variable_id action) state.2 "duplicate_branch_state_write"
    (child (item (child path "state_actions") i) "variable_id")
    "parallel branch assignment may target each variable at most once") as Hi.
  destruct (insert_or _ _ _ _ _) as [written d2].
  unfold validate_state_reference. destruct (declarations_of spec !! sn_variable_id action) as [variable|] eqn:Hv.
  - destruct (infer_expression _ _ _ _ _) as [t d3] eqn:He. cbn [fst snd] in *. intros Hd. no_diagnostics. subst.
    split; [auto|]. split; [auto|]. exists variable. eexists. split; [done|]. rewrite He. f_equal.
    destruct t as [t|]; cbn in *.
    + match goal with H : negb (bool_decide _) = false |- _ => apply negb_false_iff, bool_decide_eq_true in H; by rewrite H end.
    + by apply infer_typed in He as [? ?].
  - destruct (infer_expression _ _ _ _ _) as [t d3]. cbn [fst snd]. intros Hd. no_diagnostics. done.
Qed.

Lemma effect_fresh path i effect ids : (validate_effect path i effect ids).2 = [] →
  an_id effect ∉ ids ∧ (validate_effect path i effect ids).1 = {[an_id effect]} ∪ ids.
Proof.
  unfold validate_effect.
  pose proof (register_fresh (an_id effect) (child (item (child path "effects") i) "id") ids) as Hr.
  destruct (register_node_id _ _ _) as [ids' d]. cbn in *. intros Hd. no_diagnostics. auto.
Qed.

Lemma validated_branch trigger context branch path ids :
  (validate_branch trigger context (declarations_of spec) branch path ids).2 = [] →
  branch_valid trigger context branch ∧ (∀ id, id ∈ branch_node_ids branch → id ∉ ids) ∧
  (validate_branch trigger context (declarations_of spec) branch path ids).1 = list_to_set (branch_node_ids branch) ∪ ids.
Proof.
  unfold validate_branch.
  destruct (pass (validate_state_action _ _ _ path) 0 _ _) as [state d1] eqn:E1.
  destruct (pass (validate_effect path) 0 _ _) as [ids1 d2] eqn:E2.
  pose proof (register_fresh (rn_id (br_response branch)) (child path "response/id") ids1) as Hr.
  destruct (register_node_id _ _ _) as [ids2 d3]. cbn [fst snd] in *. intros Hd. no_diagnostics. subst.
  destruct (Hr eq_refl) as [Hfresh ->].
  destruct (pass_distinct (validate_state_action trigger context (declarations_of spec) path) sn_id fst _ _ _
    (λ i x s H, proj1 (state_action_fresh _ _ _ i x s H)) (f_equal snd E1)) as (Hn1 & Hf1 & Hs1).
  destruct (pass_distinct (validate_state_action trigger context (declarations_of spec) path) sn_variable_id snd _ _ _
    (λ i x s H, proj1 (proj2 (state_action_fresh _ _ _ i x s H))) (f_equal snd E1)) as (Hvars & _ & _).
  destruct (pass_distinct (validate_effect path) an_id (λ s, s) _ _ _ (effect_fresh path) (f_equal snd E2))
    as (Hn2 & Hf2 & Hs2).
  rewrite E1 in Hs1. rewrite E2 in Hs2. cbn [fst] in Hs1, Hs2. cbn in Hf1. rewrite Hs1 in Hf2, Hs2. subst ids1.
  split; [split|split].
  - intros action Ha. destruct (pass_elem _ _ _ _ action (f_equal snd E1) Ha) as (i & s & Hi).
    by apply state_action_fresh in Hi as (_ & _ & ?).
  - done.
  - unfold branch_node_ids. apply NoDup_app. split; [done|]. split.
    { intros id (a & -> & Ha)%list_elem_of_fmap [(e & He & Hin)%list_elem_of_fmap|He%list_elem_of_singleton]%elem_of_app.
      - apply (Hf2 e Hin). rewrite <- He. apply elem_of_union_l, elem_of_list_to_set. by apply list_elem_of_fmap_2.
      - apply Hfresh. rewrite <- He. apply elem_of_union_r, elem_of_union_l, elem_of_list_to_set.
        by apply list_elem_of_fmap_2. }
    apply NoDup_app. split; [done|]. split; [|apply NoDup_singleton].
    intros id Hid ->%list_elem_of_singleton. apply Hfresh. by apply elem_of_union_l, elem_of_list_to_set.
  - unfold branch_node_ids. intros id [(a & -> & Ha)%list_elem_of_fmap|
      [(e & -> & He)%list_elem_of_fmap| ->%list_elem_of_singleton]%elem_of_app]%elem_of_app.
    + by apply Hf1.
    + specialize (Hf2 e He). set_solver.
    + set_solver.
  - unfold branch_node_ids. rewrite !list_to_set_app_L. cbn. set_solver.
Qed.

(** ** Workflows *)
Lemma stateful_identity modal_fields variables i workflow state :
  (validate_stateful_workflow modal_fields variables i workflow state).2 = [] →
  trigger_identity (sw_trigger workflow) ∉ gp_trigger_ids state.1 ∧
  gp_trigger_ids (validate_stateful_workflow modal_fields variables i workflow state).1.1 =
    {[trigger_identity (sw_trigger workflow)]} ∪ gp_trigger_ids state.1.
Proof.
  unfold validate_stateful_workflow, register_workflow_identity.
  destruct (insert_or (sw_id workflow) _ _ _ _) as [ws d1].
  pose proof (insert_or_fresh (trigger_identity (sw_trigger workflow)) (gp_trigger_ids state.1) "duplicate_trigger"
    (child (item "/stateful_workflows" i) "trigger") "only one workflow may consume a trigger") as Ht.
  destruct (insert_or (trigger_identity _) _ _ _ _) as [ts d2].
  destruct (validate_branch _ _ _ (sw_on_true workflow) _ _) as [i1 d3].
  destruct (validate_branch _ _ _ (sw_on_false workflow) _ _) as [i2 d4]. cbn in *. intros Hd. no_diagnostics. auto.
Qed.

Lemma stateful_graph : stateful_valid →
  ∃ state, (pass (validate_stateful_workflow (modal_inputs spec) (declarations_of spec)) 0
              (ss_stateful_workflows spec) (state, 0)).2 = [].
Proof.
  intros Hv. pose proof (sf_graph Hv) as H. unfold validate_graph in H.
  destruct (pass validate_stateless_workflow 0 _ _) as [state d1]. exists state.
  destruct (pass (validate_stateful_workflow _ _) 0 _ _) as [state' d2]. by no_diagnostics.
Qed.

Definition workflow_context (workflow : StatefulWorkflowV1) : InputContext :=
  input_context_of (modal_inputs spec) (sw_trigger workflow).

Lemma validated_workflow workflow : stateful_valid → workflow ∈ ss_stateful_workflows spec →
  (∃ path n, validate_stateful_condition (sw_trigger workflow) (workflow_context workflow) (declarations_of spec)
               (sw_condition workflow) path 1 0 = (n, [])) ∧
  branch_valid (sw_trigger workflow) (workflow_context workflow) (sw_on_true workflow) ∧
  branch_valid (sw_trigger workflow) (workflow_context workflow) (sw_on_false workflow).
Proof.
  intros Hv Hin. destruct (stateful_graph Hv) as [state Hp]. destruct (pass_elem _ _ _ _ _ Hp Hin) as (i & s & Hi).
  unfold validate_stateful_workflow in Hi. destruct (register_workflow_identity _ _ _ _) as [ps d1].
  fold (workflow_context workflow) in Hi.
  destruct (validate_stateful_condition _ _ _ _ _ _ _) as [n dc] eqn:Hc.
  pose proof (validated_branch (sw_trigger workflow) (workflow_context workflow) (sw_on_true workflow)
    (child (item "/stateful_workflows" i) "on_true") (gp_node_ids ps)) as Ht.
  destruct (validate_branch _ _ _ (sw_on_true workflow) _ _) as [i1 d3].
  pose proof (validated_branch (sw_trigger workflow) (workflow_context workflow) (sw_on_false workflow)
    (child (item "/stateful_workflows" i) "on_false") i1) as Hf.
  destruct (validate_branch _ _ _ (sw_on_false workflow) _ _) as [i2 d4]. cbn in *. no_diagnostics. subst.
  split; [eauto|]. split; [by apply Ht|by apply Hf].
Qed.

Lemma unique_workflow workflow : stateful_valid → workflow ∈ ss_stateful_workflows spec →
  List.filter (λ w, bool_decide (sw_trigger w = sw_trigger workflow)) (ss_stateful_workflows spec) = [workflow].
Proof.
  intros Hv Hin. destruct (stateful_graph Hv) as [state Hp].
  destruct (pass_distinct _ (λ w, trigger_identity (sw_trigger w)) (λ s, gp_trigger_ids s.1) _ _ _
    (stateful_identity _ _) Hp) as (Hnd & _ & _). clear Hp.
  induction (ss_stateful_workflows spec) as [|w l IH]; [by apply not_elem_of_nil in Hin|].
  cbn in Hnd |- *. apply NoDup_cons in Hnd as [Hw Hnd].
  assert (Hrest : ∀ u, u ∈ l → sw_trigger u ≠ sw_trigger w).
  { intros u Hu E. apply Hw. rewrite <- E. by apply (list_elem_of_fmap_2 (λ w, trigger_identity (sw_trigger w))). }
  apply elem_of_cons in Hin as [->|Hin].
  - rewrite bool_decide_true by done. f_equal. clear IH Hnd Hw. induction l as [|u l IHl]; [done|]. cbn.
    rewrite bool_decide_false by (apply Hrest; left). apply IHl. intros x Hx. apply Hrest. by right.
  - rewrite bool_decide_false; [by apply IH|]. intros E. by apply (Hrest workflow Hin).
Qed.

(** ** Evaluation *)
Lemma bt_get_in {V} (l : list (string * V)) k v : bt_get l k = Some v → (k, v) ∈ l.
Proof.
  induction l as [|[k' v'] l IH]; [done|]. cbn. destruct (cmp k k') eqn:Hc; intros H; [|right; by apply IH..].
  apply cmp_eq_iff in Hc as ->. injection H as ->. left.
Qed.

Lemma inputs_payload_ok inputs total total' : inputs_payload inputs total = Ok total' →
  ∀ k text, (k, text) ∈ inputs → text_ok text.
Proof.
  revert total. induction inputs as [|[k text] inputs IH]; intros total; [intros _ k text []%not_elem_of_nil|].
  cbn [inputs_payload]. intros ([] & H1%ensure_Ok_inv%negb_true_iff & H)%bind_Ok_inv.
  apply bind_Ok_inv in H as ([] & H2%ensure_Ok_inv%negb_true_iff & H).
  intros k' text' [[= -> ->]|Hin]%elem_of_cons; [|by eapply IH].
  apply orb_false_iff in H1 as [[_ ?]%orb_false_iff ?]. split; [done|]. unfold text_too_large. by apply orb_false_iff.
Qed.

Lemma validated_inputs inputs : validate_inputs inputs = Ok tt → inputs_ok inputs.
Proof.
  unfold validate_inputs. intros ([] & _ & H)%bind_Ok_inv. apply bind_Ok_inv in H as (total & H & _).
  intros id text Hget%bt_get_in. by eapply inputs_payload_ok.
Qed.

Lemma validate_variables_spec variables state : validate_variables variables state = Ok tt ↔
  ∀ variable, variable ∈ variables → ∃ v, state !! sv_id variable = Some v ∧
    accepts (sv_value_type variable) v = true ∧ bad_text v = false.
Proof.
  induction variables as [|variable variables IH]; cbn [validate_variables].
  { split; [|done]. intros _ variable []%not_elem_of_nil. }
  split.
  - intros (v & Hv%ok_or_Ok_inv & H)%bind_Ok_inv. apply bind_Ok_inv in H as ([] & Ha%ensure_Ok_inv & H).
    apply bind_Ok_inv in H as ([] & Hb%ensure_Ok_inv%negb_true_iff & H). rewrite IH in H.
    intros x [->|Hx]%elem_of_cons; [eauto|by apply H].
  - intros H. destruct (H variable ltac:(left)) as (v & -> & Ha & Hb). cbn. rewrite Ha, Hb. cbn.
    apply IH. intros x Hx. apply H. by right.
Qed.

Lemma validated_state state : validate_state spec state = Ok tt → state_typed (declarations_of spec) state.
Proof.
  unfold validate_state. intros ([] & _ & H)%bind_Ok_inv id variable [Hin <-]%declaration_elem.
  rewrite validate_variables_spec in H. by apply H.
Qed.

(** The failures of an assignment: its arithmetic leaves the safe range, or its value the
    bounds declared for the variable. *)
Inductive assignment_failure (inputs : list (string * string)) (state : gmap string StateValueV1)
    (actions : list StateSetNodeV1) : StatefulCoreEvaluationErrorV1 → Prop :=
| assignment_overflows action :
    action ∈ actions → exceeds inputs state (sn_value action) →
    assignment_failure inputs state actions (CoreEvaluation "integer_overflow" (Some (sn_id action)))
| assignment_outside action variable v :
    action ∈ actions → variable ∈ ss_state_variables spec → sv_id variable = sn_variable_id action →
    meaning inputs state (sn_value action) = Some v → outside (sv_value_type variable) v →
    assignment_failure inputs state actions (CoreEvaluation "state_value_out_of_bounds" (Some (sn_id action))).

(** What a transition records. *)
Definition records (inputs : list (string * string)) (state : gmap string StateValueV1) (action : StateSetNodeV1)
    (transition : StatefulCoreTransitionV1) : Prop :=
  tn_node_id transition = sn_id action ∧ tn_variable_id transition = sn_variable_id action ∧
  state !! sn_variable_id action = Some (tn_before transition) ∧
  evaluate_value inputs state (sn_value action) (Some (sn_id action)) = Ok (tn_after transition) ∧
  (∃ variable, declarations_of spec !! sn_variable_id action = Some variable ∧
     accepts (sv_value_type variable) (tn_after transition) = true) ∧
  bad_text (tn_after transition) = false.

Lemma pending_sound trigger context branch inputs state action :
  branch_valid trigger context branch → state_typed (declarations_of spec) state → inputs_ok inputs →
  action ∈ br_state_actions branch →
  match pending_transition inputs state (declarations_of spec) action with
  | Ok transition => records inputs state action transition
  | Err e => assignment_failure inputs state (br_state_actions branch) e
  end.
Proof.
  intros Hb Hs Hi Ha. destruct (bv_actions _ _ _ Hb action Ha) as (variable & path & Hv & He).
  destruct (Hs _ _ Hv) as (before & Hbefore & _). unfold pending_transition. rewrite Hbefore. cbn [ok_or mbind Result_bind].
  pose proof (infer_expression_sound _ _ _ _ _ Hs Hi _ _ _ (Some (sn_id action)) He) as Ht.
  destruct (evaluate_value _ _ _ _) as [after|e] eqn:Hev; cbn [mbind Result_bind].
  2: { destruct Ht as [_ ->]. apply assignment_overflows; [done|]. by eapply evaluate_exceeds. }
  rewrite Hv. cbn [ok_or mbind Result_bind].
  destruct (accepts (sv_value_type variable) after) eqn:Hacc; cbn [ensure mbind Result_bind].
  - split_and!; try done; [eauto|]. cbn. apply ok_not_bad, Ht.
  - destruct Ht as [[= Ht] Hok]. apply declaration_elem in Hv as [Hv Hid].
    eapply assignment_outside; [done|done|done|by eapply evaluate_means|by apply rejected_outside].
Qed.

Lemma collect_sound trigger context branch inputs state :
  branch_valid trigger context branch → state_typed (declarations_of spec) state → inputs_ok inputs →
  match collect_results (pending_transition inputs state (declarations_of spec)) (br_state_actions branch) with
  | Ok transitions => Forall2 (records inputs state) (br_state_actions branch) transitions
  | Err e => assignment_failure inputs state (br_state_actions branch) e
  end.
Proof.
  intros Hb Hs Hi. assert (Hall : ∀ a, a ∈ br_state_actions branch → a ∈ br_state_actions branch) by done. revert Hall.
  generalize (br_state_actions branch) at 1 3 4 as actions. induction actions as [|a actions IH]; intros Hall; cbn.
  { constructor. }
  pose proof (pending_sound _ _ _ inputs state a Hb Hs Hi (Hall a ltac:(left))) as Ha.
  destruct (pending_transition _ _ _ a) as [t|e]; [|done]. cbn [mbind Result_bind].
  specialize (IH (λ x Hx, Hall x (list_elem_of_further _ _ _ Hx))).
  destruct (collect_results _ actions) as [ts|e]; [|done]. by constructor.
Qed.

(** ** Parallel assignment *)
Lemma foldl_other transitions state id : id ∉ map tn_variable_id transitions →
  foldl apply_transition state transitions !! id = state !! id.
Proof.
  revert state. induction transitions as [|t ts IH]; intros state; [done|]. cbn. rewrite not_elem_of_cons.
  intros [Hne Hin]. rewrite IH by done. unfold apply_transition. by rewrite lookup_insert_ne.
Qed.

Lemma foldl_assigned transitions state t : NoDup (map tn_variable_id transitions) → t ∈ transitions →
  foldl apply_transition state transitions !! tn_variable_id t = Some (tn_after t).
Proof.
  revert state. induction transitions as [|u ts IH]; intros state; [by intros _ ?%not_elem_of_nil|]. cbn.
  intros [Hu Hnd]%NoDup_cons [->|Hin]%elem_of_cons; [|by apply IH]. rewrite foldl_other by done. apply lookup_insert_eq.
Qed.

Lemma foldl_size transitions (state : gmap string StateValueV1) :
  (∀ t, t ∈ transitions → is_Some (state !! tn_variable_id t)) →
  size (foldl apply_transition state transitions) = size state.
Proof.
  revert state. induction transitions as [|t ts IH]; intros state Hall; [done|]. cbn.
  assert (Hs : size (apply_transition state t) = size state).
  { unfold apply_transition. rewrite map_size_insert. by destruct (Hall t ltac:(left)) as [v ->]. }
  rewrite IH; [done|]. intros u Hu. unfold apply_transition. destruct (decide (tn_variable_id t = tn_variable_id u)) as [->|].
  - rewrite lookup_insert_eq. eauto.
  - rewrite lookup_insert_ne by done. apply Hall. by right.
Qed.

Lemma recorded_variables inputs state actions transitions : Forall2 (records inputs state) actions transitions →
  map tn_variable_id transitions = map sn_variable_id actions.
Proof. induction 1 as [|a t actions transitions (_ & Hv & _) _ IH]; [done|]. cbn. by rewrite Hv, IH. Qed.

Lemma recorded_transition inputs state actions transitions t : Forall2 (records inputs state) actions transitions →
  t ∈ transitions → ∃ a, a ∈ actions ∧ records inputs state a t.
Proof.
  intros Hall [i Hi]%list_elem_of_lookup. destruct (Forall2_lookup_r _ _ _ _ _ Hall Hi) as (a & Ha & Hr).
  exists a. split; [by eapply list_elem_of_lookup_2|done].
Qed.

(** What running a branch means: every assignment takes the value its expression has in
    the state before, and nothing else changes. *)
Definition assigned_in_parallel (inputs : list (string * string)) (before after : gmap string StateValueV1)
    (branch : StatefulBranchV1) : Prop :=
  (∀ action, action ∈ br_state_actions branch → ∃ v,
     meaning inputs before (sn_value action) = Some v ∧
     after !! sn_variable_id action = Some v) ∧
  (∀ id, id ∉ map sn_variable_id (br_state_actions branch) → after !! id = before !! id).

Lemma branch_assigns trigger context branch inputs state transitions :
  branch_valid trigger context branch → Forall2 (records inputs state) (br_state_actions branch) transitions →
  assigned_in_parallel inputs state (foldl apply_transition state transitions) branch.
Proof.
  intros Hb Hall. pose proof (recorded_variables _ _ _ _ Hall) as Hvars. pose proof (bv_variables _ _ _ Hb) as Hnd.
  rewrite <- Hvars in Hnd. split.
  - intros action [i Hi]%list_elem_of_lookup.
    destruct (Forall2_lookup_l _ _ _ _ _ Hall Hi) as (t & Ht & (_ & Hv & _ & Hev & _)).
    exists (tn_after t). split; [by eapply evaluate_means|]. rewrite <- Hv. apply foldl_assigned; [done|]. by eapply list_elem_of_lookup_2.
  - intros id Hid. apply foldl_other. by rewrite Hvars.
Qed.

Lemma branch_keeps_state trigger context branch inputs state transitions :
  branch_valid trigger context branch → validate_state spec state = Ok tt →
  NoDup (map sv_id (ss_state_variables spec)) →
  Forall2 (records inputs state) (br_state_actions branch) transitions →
  validate_state spec (foldl apply_transition state transitions) = Ok tt.
Proof.
  intros Hb Hs Hids Hall. unfold validate_state in *.
  apply bind_Ok_inv in Hs as ([] & Hsize%ensure_Ok_inv%bool_decide_eq_true & Hs).
  rewrite bool_decide_true; cbn [ensure mbind Result_bind].
  2: { rewrite foldl_size; [done|]. intros t Ht. destruct (recorded_transition _ _ _ _ _ Hall Ht) as (a & _ & Hr).
       destruct Hr as (_ & -> & -> & _). eauto. }
  rewrite validate_variables_spec in Hs |- *. intros variable Hin. destruct (Hs variable Hin) as (v & Hv & Ha & Hbad).
  destruct (decide (sv_id variable ∈ map tn_variable_id transitions)) as [(t & Hid & Ht)%list_elem_of_fmap|Hno].
  - destruct (recorded_transition _ _ _ _ _ Hall Ht) as (a & _ & (_ & Hva & _ & _ & (variable' & Hd & Hacc) & Hok)).
    exists (tn_after t). rewrite Hid. split.
    { apply foldl_assigned; [|done]. rewrite (recorded_variables _ _ _ _ Hall). apply (bv_variables _ _ _ Hb). }
    apply declaration_elem in Hd as [Hin' Hid']. assert (variable' = variable) as ->; [|done].
    apply (NoDup_map_inj sv_id (ss_state_variables spec)); try done. congruence.
  - exists v. by rewrite foldl_other.
Qed.

Lemma declared_once : stateful_valid → NoDup (map sv_id (ss_state_variables spec)).
Proof.
  intros Hv. pose proof (sf_declarations Hv) as H. unfold validate_state_declarations in H.
  apply (pass_distinct _ sv_id (λ m, dom m) _ _ _) in H as (Hnd & _); [done|]. clear H.
  intros i variable m Hd. unfold validate_declaration in *. cbn [fst snd] in *. no_diagnostics. split; [|apply dom_insert_L].
  intros [v Hm]%elem_of_dom. match goal with H : is_some _ = false |- _ => by rewrite Hm in H end.
Qed.

(** The branch a condition selects. *)
Definition chosen_branch (workflow : StatefulWorkflowV1) (condition_result : bool) : StatefulBranchV1 :=
  if condition_result then sw_on_true workflow else sw_on_false workflow.

(** What a successful evaluation says. *)
Record evaluated (workflow : StatefulWorkflowV1) (inputs : list (string * string)) (state : gmap string StateValueV1)
    (e : StatefulCoreEvaluationV1) : Prop := {
  ev_workflow : ce_workflow_id e = sw_id workflow;
  ev_condition : evaluate_stateful_condition inputs state (sw_condition workflow) = Ok (ce_condition_result e);
  ev_selection : ce_branch e = if ce_condition_result e then SelectTrue else SelectFalse;
  ev_assigned : assigned_in_parallel inputs state (ce_state_after e) (chosen_branch workflow (ce_condition_result e));
  ev_valid : validate_state spec (ce_state_after e) = Ok tt;
  ev_recorded : Forall2 (records inputs state)
    (br_state_actions (chosen_branch workflow (ce_condition_result e))) (ce_transitions e);
  ev_replayed : ce_state_after e = foldl apply_transition state (ce_transitions e);
  ev_external : ce_external_node_ids e = map an_id (br_effects (chosen_branch workflow (ce_condition_result e)))
    ++ [rn_id (br_response (chosen_branch workflow (ce_condition_result e)))]
}.

Lemma chosen_valid workflow b : stateful_valid → workflow ∈ ss_stateful_workflows spec →
  branch_valid (sw_trigger workflow) (workflow_context workflow) (chosen_branch workflow b).
Proof. intros Hv Hw. destruct (validated_workflow _ Hv Hw) as (_ & Ht & Hf). by destruct b. Qed.

(** Why the evaluation of a workflow may fail. *)
Inductive workflow_failure (workflow : StatefulWorkflowV1) (inputs : list (string * string))
    (state : gmap string StateValueV1) : StatefulCoreEvaluationErrorV1 → Prop :=
| condition_overflows :
    condition_exceeds inputs state (sw_condition workflow) →
    workflow_failure workflow inputs state (CoreEvaluation "integer_overflow" None)
| branch_fails (b : bool) e :
    (b = true ↔ holds inputs state (sw_condition workflow)) →
    assignment_failure inputs state (br_state_actions (chosen_branch workflow b)) e →
    workflow_failure workflow inputs state e.

Lemma evaluation_sound workflow inputs state :
  validate_spec spec = Ok tt → validate_inputs inputs = Ok tt → validate_state spec state = Ok tt →
  workflow ∈ ss_stateful_workflows spec →
  match evaluate_validated_stateful_workflow_v1 encoded_len view_encoded_len debug_validation_error spec
          (sw_trigger workflow) inputs state with
  | Ok e => evaluated workflow inputs state e
  | Err e => workflow_failure workflow inputs state e
  end.
Proof.
  intros Hspec Hinputs Hstate Hw. unfold evaluate_validated_stateful_workflow_v1.
  rewrite Hspec, Hinputs, Hstate. cbn [map_err mbind Result_bind]. pose proof (validated_stateful Hspec) as Hv.
  rewrite (unique_workflow _ Hv Hw). destruct (validated_workflow _ Hv Hw) as ((path & n & Hc) & _).
  pose proof (validated_state _ Hstate) as Htyped. pose proof (validated_inputs _ Hinputs) as Hin.
  apply (condition_sound _ _ _ inputs state Htyped Hin) in Hc.
  destruct (evaluate_stateful_condition _ _ _) as [b|e] eqn:Hb; cbn [mbind Result_bind].
  2: { unfold decides, overflow in Hc. subst e. constructor. by eapply condition_overflow_exceeds. }
  pose proof (chosen_valid workflow b Hv Hw) as Hbr. pose proof (collect_sound _ _ _ inputs state Hbr Htyped Hin) as Hcs.
  unfold execute_parallel_branch.
  destruct b; cbn [chosen_branch] in *; (destruct (collect_results _ _) as [ts|e];
    [|by eapply (branch_fails _ _ _ _ _ (condition_means _ _ _ _ Hb))]); cbn [mbind Result_bind];
    (split; cbn [ce_workflow_id ce_condition_result ce_branch ce_state_after ce_transitions ce_external_node_ids
       be_state_after be_transitions be_external_node_ids chosen_branch]; try done;
     [by eapply branch_assigns|eapply branch_keeps_state; eauto using declared_once]).
Qed.
End document.

(** C14: Validated stateful automations do not go wrong. Evaluate a validated document for
    the trigger of one of its workflows, on inputs and a state it accepts. The evaluation
    either succeeds, or fails because a sum or a difference in the condition or in an
    assignment of the branch the condition selects is no safe integer, or because the value
    of such an assignment, of the right type, is outside the bounds declared for its variable
    (an integer out of its range, a text of too many bytes); it never meets a missing
    variable, a wrong type or an ambiguous workflow. When it succeeds, the result of the
    condition is what the condition means, the assignments of its branch took place in
    parallel (each variable has the value its expression means in the old state, every other
    variable its old value), and the new state is again one the document accepts. *)
Theorem stateful_evaluation_cannot_go_wrong encoded_len view_encoded_len debug_validation_error
    spec workflow inputs state :
  validate_stateful_spec_v1 encoded_len view_encoded_len debug_validation_error spec = Ok tt →
  validate_inputs inputs = Ok tt → validate_state spec state = Ok tt →
  workflow ∈ ss_stateful_workflows spec →
  match evaluate_validated_stateful_workflow_v1 encoded_len view_encoded_len debug_validation_error spec
          (sw_trigger workflow) inputs state with
  | Ok e =>
      ce_workflow_id e = sw_id workflow ∧
      (ce_condition_result e = true ↔ holds inputs state (sw_condition workflow)) ∧
      assigned_in_parallel inputs state (ce_state_after e) (chosen_branch workflow (ce_condition_result e)) ∧
      validate_state spec (ce_state_after e) = Ok tt
  | Err e => workflow_failure spec workflow inputs state e
  end.
Proof.
  intros Hs Hi Hst Hw. pose proof (evaluation_sound _ _ _ _ _ _ _ Hs Hi Hst Hw) as H.
  destruct (evaluate_validated_stateful_workflow_v1 _ _ _ _ _ _ _); [|done]. destruct H.
  split_and!; try done; by eapply condition_means.
Qed.

(** ** When the validation of a stateful document panics

    The views of a stateful document need an acknowledgement node whose id no author has
    used. [view.rs] tries 65,536 of them and declares the rest unreachable, but the
    validation builds the views of documents that are over its bounds as well. *)

Definition ack_prefix (index : nat) : string := fmt ["implicit_ack_"; num (Z.of_nat index)].
Definition ack_numbered (index : nat) (nonce : Z) : string := fmt [ack_prefix index; "_"; num nonce].

(** The author has used every id the view may choose. *)
Definition ack_exhausted (ids : gset string) (index : nat) : Prop :=
  ack_prefix index ∈ ids ∧ ∀ nonce, 1 ≤ nonce ≤ u16_max → ack_numbered index nonce ∈ ids.

Lemma ack_candidate_None prefix ids nonce left :
  ack_candidate prefix ids nonce left = None ↔
  ∀ k, nonce ≤ k < nonce + Z.of_nat left → fmt [prefix; "_"; num k] ∈ ids.
Proof.
  revert nonce. induction left as [|left IH]; intros nonce.
  - split; [intros _ k ?; lia|done].
  - cbn [ack_candidate]. case_bool_decide as Hin.
    + rewrite IH. split; intros H k Hk.
      * destruct (decide (k = nonce)) as [->|]; [done|]. apply H. lia.
      * apply H. lia.
    + split; [done|]. intros H. destruct Hin. apply H. lia.
Qed.

Lemma implicit_ack_None index ids : implicit_ack_id index ids = None ↔ ack_exhausted ids index.
Proof.
  unfold implicit_ack_id, ack_exhausted. fold (ack_prefix index). case_bool_decide as Hin.
  - split; [done|]. intros [? _]. done.
  - rewrite ack_candidate_None. unfold u16_max. split.
    + intros H. split; [done|]. intros n Hn. apply H. lia.
    + intros [_ H] k Hk. apply H. unfold u16_max. lia.
Qed.

Lemma view_None spec selected :
  automation_spec_validation_view_v1 spec selected = None ↔
  ∃ index, (index < length (ss_stateful_workflows spec))%nat ∧ ack_exhausted (all_node_ids spec) index.
Proof.
  unfold automation_spec_validation_view_v1. set (f := λ '(index, workflow), view_workflow _ _ index workflow).
  transitivity (mapM f (imap pair (ss_stateful_workflows spec)) = None).
  { destruct (mapM f _); cbn; naive_solver. }
  rewrite mapM_None, Exists_exists. split.
  - intros ([index w] & (i & y & [= <- <-] & Hw)%elem_of_lookup_imap_1 & H). exists index.
    split; [by apply lookup_lt_Some in Hw|]. apply implicit_ack_None. cbn in H. unfold view_workflow in H.
    by destruct (implicit_ack_id _ _).
  - intros (index & Hi & H%implicit_ack_None). apply lookup_lt_is_Some in Hi as [w Hw].
    exists (index, w). split; [by apply (elem_of_lookup_imap_2 pair)|]. cbn. unfold view_workflow. by rewrite H.
Qed.

Lemma append_nothing (a : string) : (a +:+ EmptyString = a)%string.
Proof. induction a as [|c a IH]; [done|]. by rewrite str_app_cons, IH. Qed.

Lemma append_length (a b : string) : String.length (a +:+ b)%string = (String.length a + String.length b)%nat.
Proof. induction a as [|c a IH]; [done|]. rewrite str_app_cons. cbn. by rewrite IH. Qed.

Lemma ack_numbered_inj index a b : u64_valid a → u64_valid b → ack_numbered index a = ack_numbered index b → a = b.
Proof.
  intros Ha Hb. unfold ack_numbered, fmt; cbn [foldr]. rewrite !append_nothing. intros H.
  apply print_u64_inj; [done..|]. by do 2 apply (inj (String.append _)) in H.
Qed.

Lemma ack_numbered_ne index n : ack_numbered index n ≠ ack_prefix index.
Proof.
  intros H. apply (f_equal String.length) in H. unfold ack_numbered in H. cbn [fmt foldr] in H.
  rewrite !append_length in H. cbn in H. lia.
Qed.

Lemma exhausted_large ids index : ack_exhausted ids index → (Z.to_nat u16_max < size ids)%nat.
Proof.
  intros [Hp Hn]. set (used := ack_prefix index :: (ack_numbered index <$> seqZ 1 u16_max)).
  assert (NoDup used) as Hd.
  { apply NoDup_cons. split.
    - intros (n & E & _)%list_elem_of_fmap. by eapply ack_numbered_ne.
    - apply NoDup_fmap_2_strong; [|apply NoDup_seqZ]. intros a b Ha%elem_of_seqZ Hb%elem_of_seqZ.
      apply ack_numbered_inj; unfold u64_valid, u64_max, u16_max in *; lia. }
  assert (list_to_set used ⊆ ids) as Hsub.
  { intros x [->|(n & -> & Hi%elem_of_seqZ)%list_elem_of_fmap]%elem_of_list_to_set%elem_of_cons; [done|].
    apply Hn. lia. }
  apply subseteq_size in Hsub. rewrite size_list_to_set in Hsub by done.
  unfold used in Hsub. cbn [length] in Hsub. rewrite length_fmap, length_seqZ in Hsub. lia.
Qed.

(** C39: The validation of a stateful document panics, instead of reporting diagnostics, exactly
    when the document uses every id an acknowledgement of one of its stateful workflows may
    get. Such a document has more than 65,535 node ids: the validator's own bounds rule it
    out, but they are reported and not acted on before the views are built. *)
Theorem stateful_validation_panics_exactly encoded_len view_encoded_len debug_validation_error spec :
  (validate_stateful_spec_v1 encoded_len view_encoded_len debug_validation_error spec = Err StatefulPanic ↔
   ∃ index, (index < length (ss_stateful_workflows spec))%nat ∧ ack_exhausted (all_node_ids spec) index) ∧
  ((size (all_node_ids spec) ≤ Z.to_nat u16_max)%nat →
   validate_stateful_spec_v1 encoded_len view_encoded_len debug_validation_error spec ≠ Err StatefulPanic).
Proof.
  assert (validate_stateful_spec_v1 encoded_len view_encoded_len debug_validation_error spec = Err StatefulPanic ↔
   ∃ index, (index < length (ss_stateful_workflows spec))%nat ∧ ack_exhausted (all_node_ids spec) index) as Hiff.
  { rewrite <- (view_None spec ViewTrue). unfold validate_stateful_spec_v1, validate_runtime_shape_views, shape_view_diagnostics.
    destruct (validate_state_declarations spec), (automation_spec_validation_view_v1 spec ViewTrue) eqn:Ht; cbn; [|done].
    destruct (automation_spec_validation_view_v1 spec ViewFalse) eqn:Hf; cbn.
    - by destruct (dedup _).
    - apply view_None, (view_None spec ViewTrue) in Hf. congruence. }
  split; [done|]. intros Hs (index & _ & H%exhausted_large)%Hiff. lia.
Qed.
