(* ===== verification/StatefulStore.v ===== *)
(** * State and outbox of stateful automations

    Crate [automation-stateful-runtime]: [state.rs] (keys, reads, writes, snapshots),
    [digest.rs] (the payload and the prepared commit with the digest it is bound to) and
    [store.rs], the in-memory store: a commit checks what it read, writes and queues its
    effects at once; the outbox hands an entry to one claimant at a time. SHA-256 is a
    parameter. *)

From Stdlib Require Import ZArith Lia Ascii String.
From stdpp Require Import base decidable list strings gmap countable numbers.
From S2P Require Import Prelude RustStd RustText RuleSet ApprovalBinding SpecValidate StatefulModel StatefulValidate.
Open Scope string_scope.
Open Scope list_scope.
Open Scope Z_scope.

(** ** Keys *)
Inductive ScopedStateAddressV1 :=
| AddressInstallation
| AddressActor (actor_user_id : Z)
| AddressInstance (instance_id : string)
| AddressActorInstance (actor_user_id : Z) (instance_id : string).

Record ResolvedStateKeyV1 := mkStateKey {
  sk_tenant_id : string;
  sk_installation_id : string;
  sk_guild_id : Z;
  sk_program_key : string;
  sk_variable_id : string;
  sk_address : ScopedStateAddressV1
}.

#[export] Instance ScopedStateAddressV1_eq_dec : EqDecision ScopedStateAddressV1.
Proof. solve_decision. Defined.
#[export] Instance ResolvedStateKeyV1_eq_dec : EqDecision ResolvedStateKeyV1.
Proof. solve_decision. Defined.

(** The derived order compares the fields in turn, an address by its variant first. *)
Definition address_parts (a : ScopedStateAddressV1) : Z * (Z * string) :=
  match a with
  | AddressInstallation => (0, (0, EmptyString))
  | AddressActor actor => (1, (actor, EmptyString))
  | AddressInstance instance => (2, (0, instance))
  | AddressActorInstance actor instance => (3, (actor, instance))
  end.

Definition key_parts (k : ResolvedStateKeyV1) : string * (string * (Z * (string * (string * (Z * (Z * string)))))) :=
  (sk_tenant_id k, (sk_installation_id k, (sk_guild_id k, (sk_program_key k,
    (sk_variable_id k, address_parts (sk_address k)))))).

Lemma address_parts_inj a b : address_parts a = address_parts b → a = b.
Proof. destruct a, b; cbn; intros E; by simplify_eq. Qed.

#[export] Instance key_parts_inj : Inj (=) (=) key_parts.
Proof.
  intros [? ? ? ? ? a] [? ? ? ? ? b] E. unfold key_parts in E. cbn [sk_tenant_id sk_installation_id sk_guild_id
    sk_program_key sk_variable_id sk_address] in E. injection E as -> -> -> -> -> Ea. f_equal. by apply address_parts_inj.
Qed.

#[export] Instance ResolvedStateKeyV1_Ord : Ord ResolvedStateKeyV1 := λ x y, cmp (key_parts x) (key_parts y).
#[export] Instance ResolvedStateKeyV1_OrdLaws : OrdLaws ResolvedStateKeyV1.
Proof.
  split.
  - intros x y. transitivity (key_parts x = key_parts y); [exact (cmp_eq_iff (key_parts x) (key_parts y))|]. split; [apply (inj key_parts)|by intros ->].
  - intros x y. exact (cmp_antisym (key_parts x) (key_parts y)).
  - intros x y z. exact (cmp_lt_trans (key_parts x) (key_parts y) (key_parts z)).
Qed.

Definition address_of_parts (p : Z * (Z * string)) : ScopedStateAddressV1 :=
  let '(tag, (actor, instance)) := p in
  if tag =? 0 then AddressInstallation else if tag =? 1 then AddressActor actor
  else if tag =? 2 then AddressInstance instance else AddressActorInstance actor instance.

#[export] Instance ResolvedStateKeyV1_countable : Countable ResolvedStateKeyV1.
Proof.
  refine (inj_countable' key_parts
    (λ '(t, (i, (g, (p, (v, a))))), mkStateKey t i g p v (address_of_parts a)) _).
  intros [? ? ? ? ? []]; reflexivity.
Defined.

(** ** Reads and writes *)
Definition MAX_STATE_READS_V1 : Z := 64.
Definition MAX_STATE_WRITES_V1 : Z := 32.

(** [revision.next()], of a [NonZeroU64]. *)
Definition revision_next (revision : Z) : option Z := u64_checked_add revision 1.

Record ResolvedStateReadV1 := mkStateRead {
  rd_key : ResolvedStateKeyV1;
  rd_revision : option Z;
  rd_declaration_digest : string;
  rd_value : StateValueV1
}.

Record ResolvedStateWriteV1 := mkStateWrite {
  wr_key : ResolvedStateKeyV1;
  wr_expected_revision : option Z;
  wr_declaration_digest : string;
  wr_before : StateValueV1;
  wr_after : StateValueV1;
  wr_state_action_node_id : string;
  wr_source_ordinal : Z
}.

#[export] Instance ResolvedStateReadV1_eq_dec : EqDecision ResolvedStateReadV1.
Proof. solve_decision. Defined.
#[export] Instance ResolvedStateWriteV1_eq_dec : EqDecision ResolvedStateWriteV1.
Proof. solve_decision. Defined.

(** [l.windows(2).all(|pair| pair[0] < pair[1])]. *)
Fixpoint strictly_sorted {A} `{Ord A} (l : list A) : bool :=
  match l with
  | x :: (y :: _) as rest => (match cmp x y with Lt => true | _ => false end) && strictly_sorted rest
  | _ => true
  end.

Definition backs (read : ResolvedStateReadV1) (write : ResolvedStateWriteV1) : bool :=
  bool_decide (rd_revision read = wr_expected_revision write)
  && String.eqb (rd_declaration_digest read) (wr_declaration_digest write)
  && bool_decide (rd_value read = wr_before write).

(** The binary search runs on strictly sorted reads, where it finds the one of the key. *)
Definition validate_read_write_sets (reads : list ResolvedStateReadV1) (writes : list ResolvedStateWriteV1) : bool :=
  (len reads <=? MAX_STATE_READS_V1)
  && (len writes <=? MAX_STATE_WRITES_V1)
  && strictly_sorted (map rd_key reads)
  && strictly_sorted (map wr_key writes)
  && forallb (λ write, is_some_and (λ read, backs read write)
                         (List.find (λ read, bool_decide (rd_key read = wr_key write)) reads)) writes
  && bool_decide (NoDup (map wr_state_action_node_id writes))
  && bool_decide (NoDup (map rd_key reads)).

(** ** Bytes fed to the hasher *)
Definition append_string (value : string) : list Z := framed (str_bytes value).

Definition append_state_value (value : StateValueV1) : list Z :=
  match value with
  | BoolValue value => [0; if value then 1 else 0]
  | IntegerValue value => 1 :: be_bytes 8 value
  | TextValue value => 2 :: append_string value
  end.

Definition append_state_key (key : ResolvedStateKeyV1) : list Z :=
  append_string (sk_tenant_id key) ++ append_string (sk_installation_id key) ++ be_bytes 8 (sk_guild_id key)
  ++ append_string (sk_program_key key) ++ append_string (sk_variable_id key)
  ++ match sk_address key with
     | AddressInstallation => [0]
     | AddressActor actor => 1 :: be_bytes 8 actor
     | AddressInstance instance => 2 :: append_string instance
     | AddressActorInstance actor instance => 3 :: be_bytes 8 actor ++ append_string instance
     end.

Definition append_revision (revision : option Z) : list Z :=
  match revision with None => [0] | Some revision => 1 :: be_bytes 8 revision end.

Definition append_read (read : ResolvedStateReadV1) : list Z :=
  append_state_key (rd_key read) ++ append_revision (rd_revision read)
  ++ append_string (rd_declaration_digest read) ++ append_state_value (rd_value read).

Definition append_write (write : ResolvedStateWriteV1) : list Z :=
  append_state_key (wr_key write) ++ append_revision (wr_expected_revision write)
  ++ append_string (wr_declaration_digest write) ++ append_state_value (wr_before write)
  ++ append_state_value (wr_after write) ++ append_string (wr_state_action_node_id write)
  ++ be_bytes 2 (wr_source_ordinal write).

Definition append_list {A} (f : A → list Z) (l : list A) : list Z := be_bytes 8 (len l) ++ (l ≫= f).

(** ** Sizes *)
Definition state_key_size (key : ResolvedStateKeyV1) : Z :=
  str_len (sk_tenant_id key) + str_len (sk_installation_id key) + str_len (sk_program_key key)
  + str_len (sk_variable_id key) + 8
  + match sk_address key with
    | AddressInstallation => 1
    | AddressActor _ => 9
    | AddressInstance instance => 9 + str_len instance
    | AddressActorInstance _ instance => 17 + str_len instance
    end.

Definition state_value_size (value : StateValueV1) : Z :=
  match value with BoolValue _ => 2 | IntegerValue _ => 9 | TextValue value => 9 + str_len value end.

Definition state_material_size (reads : list ResolvedStateReadV1) (writes : list ResolvedStateWriteV1) : Z :=
  foldl usize_saturating_add 0
    (map (λ read, state_key_size (rd_key read) + 8 + 64 + state_value_size (rd_value read)) reads
     ++ map (λ write, state_key_size (wr_key write) + 8 + 64 + state_value_size (wr_before write)
               + state_value_size (wr_after write) + str_len (wr_state_action_node_id write) + 2) writes).

(** ** Prepared commits *)
Definition MAX_OUTBOX_PAYLOAD_BYTES_V1 : Z := 2 * 1024 * 1024.
Definition MAX_EXTERNAL_ACTIONS_V1 : Z := 64.
Definition MAX_PLAN_STATE_MATERIAL_BYTES_V1 : Z := 1024 * 1024.
Definition STATEFUL_COMPILER_REVISION_V1 : Z := 1.
Definition STATEFUL_EVALUATOR_REVISION_V1 : Z := 1.
Definition ACKNOWLEDGEMENT_STRATEGY_V1 : string := "durable_defer_then_atomic_commit_then_edit_v1".
Definition FAILURE_TAIL_OBLIGATION_V1 : string := "receipt_fenced_durable_failure_edit_v1".
Definition EXECUTION_PLAN_DOMAIN_V1 : list Z := domain_bytes "starring.stateful_execution_plan.v1".
Definition OUTBOX_PAYLOAD_DOMAIN_V1 : list Z := domain_bytes "starring.stateful_outbox_payload.v1".
Definition STATE_VALUE_DIGEST_DOMAIN_V1 : list Z := domain_bytes "starring.stateful_state_value.v1".

(** An [InteractionReceiptIdentityV1]: the application and the interaction. *)
Abbreviation ReceiptIdentity := (Z * Z)%type (only parsing).

Record StatefulOutboxPayloadV1 := mkOutboxPayload {
  op_digest : string;
  op_external_node_ids : list string;
  op_canonical_effect_plan_bytes : list Z
}.

Record OutboxDispatchAuthorityV1 := mkDispatchAuthority {
  da_process_instance_id : string;
  da_gateway_shard_identity : string;
  da_gateway_owner_lease_epoch : Z;
  da_gateway_owner_revision : Z;
  da_runtime_build_revision : string;
  da_serving_lease_epoch : Z;
  da_serving_lease_revision : Z;
  da_route_fencing_token : Z;
  da_route_incarnation : Z
}.

Record PreparedStatefulCommitV1 := mkPreparedCommit {
  pc_receipt_identity : ReceiptIdentity;
  pc_request_digest : string;
  pc_envelope_digest : string;
  pc_source_spec_digest : string;
  pc_stateful_artifact_digest : string;
  pc_state_schema_digest : string;
  pc_evaluation_proof_digest : string;
  pc_external_action_plan_digest : string;
  pc_dispatch_authority : OutboxDispatchAuthorityV1;
  pc_acknowledgement_strategy : string;
  pc_failure_tail_obligation : string;
  pc_reads : list ResolvedStateReadV1;
  pc_writes : list ResolvedStateWriteV1;
  pc_outbox_payload : StatefulOutboxPayloadV1;
  pc_plan_digest : string
}.

#[export] Instance StatefulOutboxPayloadV1_eq_dec : EqDecision StatefulOutboxPayloadV1.
Proof. solve_decision. Defined.
#[export] Instance OutboxDispatchAuthorityV1_eq_dec : EqDecision OutboxDispatchAuthorityV1.
Proof. solve_decision. Defined.
#[export] Instance PreparedStatefulCommitV1_eq_dec : EqDecision PreparedStatefulCommitV1.
Proof. solve_decision. Defined.

Inductive StatefulOutboxPayloadErrorV1 := InvalidPayload | InvalidPayloadDigest.

Section digests.
Context (sha256 : list Z → list Z).

Definition outbox_payload_digest (external_node_ids : list string) (canonical_effect_plan_bytes : list Z) : string :=
  to_hex (sha256 (OUTBOX_PAYLOAD_DOMAIN_V1 ++ append_list append_string external_node_ids
                  ++ framed canonical_effect_plan_bytes)).

Definition from_canonical_effect_plan (external_node_ids : list string) (canonical_effect_plan_bytes : list Z)
  : Result StatefulOutboxPayloadErrorV1 StatefulOutboxPayloadV1 :=
  _ ← ensure (negb (empty_group external_node_ids
                    || (MAX_EXTERNAL_ACTIONS_V1 <? len external_node_ids)
                    || existsb (λ id, negb (valid_identifier id)) external_node_ids
                    || negb (bool_decide (NoDup external_node_ids))
                    || empty_group canonical_effect_plan_bytes
                    || (MAX_OUTBOX_PAYLOAD_BYTES_V1 <? len canonical_effect_plan_bytes))) InvalidPayload;
  Ok (mkOutboxPayload (outbox_payload_digest external_node_ids canonical_effect_plan_bytes)
        external_node_ids canonical_effect_plan_bytes).

Definition payload_verify (payload : StatefulOutboxPayloadV1) : bool :=
  String.eqb (outbox_payload_digest (op_external_node_ids payload) (op_canonical_effect_plan_bytes payload))
    (op_digest payload).

Definition execution_plan_digest (commit : PreparedStatefulCommitV1) : string :=
  to_hex (sha256 (EXECUTION_PLAN_DOMAIN_V1
    ++ append_string (pc_envelope_digest commit) ++ append_string (pc_source_spec_digest commit)
    ++ append_string (pc_stateful_artifact_digest commit) ++ append_string (pc_state_schema_digest commit)
    ++ append_string (pc_evaluation_proof_digest commit)
    ++ be_bytes 4 STATEFUL_COMPILER_REVISION_V1 ++ be_bytes 4 STATEFUL_EVALUATOR_REVISION_V1
    ++ append_list append_read (pc_reads commit) ++ append_list append_write (pc_writes commit)
    ++ append_string (pc_external_action_plan_digest commit)
    ++ append_list append_string (op_external_node_ids (pc_outbox_payload commit))
    ++ append_string (op_digest (pc_outbox_payload commit))
    ++ append_string (pc_acknowledgement_strategy commit) ++ append_string (pc_failure_tail_obligation commit))).

Definition commit_verify (commit : PreparedStatefulCommitV1) : bool :=
  String.eqb (pc_acknowledgement_strategy commit) ACKNOWLEDGEMENT_STRATEGY_V1
  && String.eqb (pc_failure_tail_obligation commit) FAILURE_TAIL_OBLIGATION_V1
  && payload_verify (pc_outbox_payload commit)
  && validate_read_write_sets (pc_reads commit) (pc_writes commit)
  && (state_material_size (pc_reads commit) (pc_writes commit) <=? MAX_PLAN_STATE_MATERIAL_BYTES_V1)
  && String.eqb (execution_plan_digest commit) (pc_plan_digest commit).

Definition state_value_digest (value : StateValueV1) : string :=
  to_hex (sha256 (STATE_VALUE_DIGEST_DOMAIN_V1 ++ append_state_value value)).
End digests.

(** ** The store *)
Definition MAX_OUTBOX_SCAN_LIMIT_V1 : Z := 256.
Definition MAX_OUTBOX_CLAIM_MILLISECONDS_V1 : Z := 5 * 60 * 1000.

Inductive AtomicCommitDispositionV1 := CommitApplied | CommitExactReplay.

Inductive OutboxStateV1 := OutboxQueued | OutboxClaimed | WaitingEffectRecovery | OutboxCompleted | OutboxRecoveryRequired.

#[export] Instance OutboxStateV1_eq_dec : EqDecision OutboxStateV1.
Proof. solve_decision. Defined.

Inductive StatefulStoreErrorV1 :=
| StoreInvalidInput | StoreReceiptConflict | StoreStateConflict | StoreDefinitionMismatch | StoreCorrupt
| StoreRevisionExhausted | StoreNotFound | StoreOutboxConflict | StoreAuthorityMismatch | StoreStaleClaim
| StoreClaimExpired | StoreRecoveryRequired.

Definition claimant_char (c : ascii) : bool :=
  is_ascii_alphanumeric c || existsb (Ascii.eqb c) ["_"%char; "-"%char; "."%char; ":"%char; "/"%char].

(** An [OutboxClaimantIdV1] is its text. *)
Definition claimant_parse (value : string) : Result StatefulStoreErrorV1 string :=
  _ ← ensure (negb (str_is_empty value || (128 <? str_len value) || negb (str_all claimant_char value)))
        StoreInvalidInput;
  Ok value.

Record StateTransitionLedgerEntryV1 := mkLedgerEntry {
  le_receipt_identity : ReceiptIdentity;
  le_transition_index : Z;
  le_state_action_node_id : string;
  le_source_ordinal : Z;
  le_key : ResolvedStateKeyV1;
  le_before_revision : option Z;
  le_after_revision : Z;
  le_before_value_digest : string;
  le_after_value_digest : string;
  le_changed : bool
}.

Record StatefulCommitReceiptV1 := mkCommitReceipt {
  cr_prepared : PreparedStatefulCommitV1;
  cr_transition_count : Z
}.

Record StoredStateV1 := mkStoredState {
  sd_value : StateValueV1;
  sd_revision : Z;
  sd_declaration_digest : string
}.

Record StoredOutboxEntryV1 := mkOutboxEntry {
  oe_receipt_identity : ReceiptIdentity;
  oe_request_digest : string;
  oe_plan_digest : string;
  oe_payload : StatefulOutboxPayloadV1;
  oe_required_authority : OutboxDispatchAuthorityV1;
  oe_state : OutboxStateV1;
  oe_head_revision : Z;
  oe_claim_revision : option Z;
  oe_claimant_id : option string;
  oe_acquired_at_ms : option Z;
  oe_expires_at_ms : option Z;
  oe_available_at_ms : Z;
  oe_external_intent_started : bool
}.

Record OutboxEntryMetadataV1 := mkMetadata {
  om_receipt_identity : ReceiptIdentity;
  om_plan_digest : string;
  om_payload_digest : string;
  om_state : OutboxStateV1;
  om_head_revision : Z;
  om_claim_revision : option Z;
  om_available_at_ms : Z;
  om_acquired_at_ms : option Z;
  om_expires_at_ms : option Z
}.

Definition metadata (entry : StoredOutboxEntryV1) : OutboxEntryMetadataV1 :=
  mkMetadata (oe_receipt_identity entry) (oe_plan_digest entry) (op_digest (oe_payload entry)) (oe_state entry)
    (oe_head_revision entry) (oe_claim_revision entry) (oe_available_at_ms entry) (oe_acquired_at_ms entry)
    (oe_expires_at_ms entry).

Record OutboxClaimTokenV1 := mkClaimToken {
  ct_receipt_identity : ReceiptIdentity;
  ct_head_revision : Z;
  ct_claim_revision : Z;
  ct_claimant_id : string;
  ct_authority : OutboxDispatchAuthorityV1;
  ct_acquired_at_ms : Z;
  ct_expires_at_ms : Z
}.

Record OutboxClaimRequestV1 := mkClaimRequest {
  cq_receipt_identity : ReceiptIdentity;
  cq_expected_head_revision : Z;
  cq_claimant_id : string;
  cq_authority : OutboxDispatchAuthorityV1;
  cq_now_ms : Z;
  cq_lease_duration_ms : Z
}.

Record ClaimedOutboxWorkV1 := mkClaimedWork {
  cw_token : OutboxClaimTokenV1;
  cw_payload : StatefulOutboxPayloadV1
}.

Record StatefulAtomicCommitResultV1 := mkCommitResult {
  ar_disposition : AtomicCommitDispositionV1;
  ar_receipt : StatefulCommitReceiptV1;
  ar_outbox : OutboxEntryMetadataV1
}.

(** [state] and [receipts] are only looked up, [outbox] is iterated. *)
Record InMemoryAtomicStateOutboxStoreV1 := mkOutboxStore {
  ms_state : gmap ResolvedStateKeyV1 StoredStateV1;
  ms_receipts : gmap ReceiptIdentity StatefulCommitReceiptV1;
  ms_outbox : list (ReceiptIdentity * StoredOutboxEntryV1);
  ms_transitions : list StateTransitionLedgerEntryV1
}.

Definition empty_store : InMemoryAtomicStateOutboxStoreV1 := mkOutboxStore ∅ ∅ [] [].

(** ** Snapshots *)
Record StateSnapshotRequestEntryV1 := mkSnapshotEntry {
  qe_artifact_variable_index : Z;
  qe_key : ResolvedStateKeyV1;
  qe_declaration_digest : string;
  qe_value_type : StateValueTypeV1;
  qe_default_value : StateValueV1
}.

Record StateSnapshotRequestV1 := mkSnapshotRequest {
  sq_envelope_digest : string;
  sq_bundle_digest : string;
  sq_workflow_id : string;
  sq_artifact_workflow_index : Z;
  sq_request_digest : string;
  sq_entries : list StateSnapshotRequestEntryV1
}.

Record StateSnapshotV1 := mkSnapshot {
  sp_envelope_digest : string;
  sp_bundle_digest : string;
  sp_workflow_id : string;
  sp_artifact_workflow_index : Z;
  sp_request_digest : string;
  sp_reads : list ResolvedStateReadV1
}.

Definition snapshot_read (state : gmap ResolvedStateKeyV1 StoredStateV1) (entry : StateSnapshotRequestEntryV1)
  : Result StatefulStoreErrorV1 ResolvedStateReadV1 :=
  match state !! qe_key entry with
  | None => Ok (mkStateRead (qe_key entry) None (qe_declaration_digest entry) (qe_default_value entry))
  | Some stored =>
      if String.eqb (sd_declaration_digest stored) (qe_declaration_digest entry)
      then Ok (mkStateRead (qe_key entry) (Some (sd_revision stored)) (qe_declaration_digest entry) (sd_value stored))
      else Err StoreDefinitionMismatch
  end.

Fixpoint snapshot_reads (state : gmap ResolvedStateKeyV1 StoredStateV1) (entries : list StateSnapshotRequestEntryV1)
  : Result StatefulStoreErrorV1 (list ResolvedStateReadV1) :=
  match entries with
  | [] => Ok []
  | entry :: rest => read ← snapshot_read state entry; reads ← snapshot_reads state rest; Ok (read :: reads)
  end.

Definition read_snapshot_v1 (request : StateSnapshotRequestV1) (store : InMemoryAtomicStateOutboxStoreV1)
  : Result StatefulStoreErrorV1 StateSnapshotV1 :=
  reads ← snapshot_reads (ms_state store) (sq_entries request);
  Ok (mkSnapshot (sq_envelope_digest request) (sq_bundle_digest request) (sq_workflow_id request)
        (sq_artifact_workflow_index request) (sq_request_digest request) reads).

(** [validate_state_value] of [state.rs]. *)
Definition value_satisfies (value_type : StateValueTypeV1) (value : StateValueV1) : bool :=
  accepts value_type value
  && match value with TextValue text => negb (contains_nul text || text_too_large text) | _ => true end.

Fixpoint reads_match (entries : list StateSnapshotRequestEntryV1) (reads : list ResolvedStateReadV1) : bool :=
  match entries, reads with
  | entry :: entries, read :: reads =>
      bool_decide (qe_key entry = rd_key read)
      && String.eqb (qe_declaration_digest entry) (rd_declaration_digest read)
      && value_satisfies (qe_value_type entry) (rd_value read)
      && (is_some (rd_revision read) || bool_decide (rd_value read = qe_default_value entry))
      && reads_match entries reads
  | _, _ => true
  end.

Definition exact_snapshot (request : StateSnapshotRequestV1) (snapshot : StateSnapshotV1) : bool :=
  String.eqb (sp_envelope_digest snapshot) (sq_envelope_digest request)
  && String.eqb (sp_bundle_digest snapshot) (sq_bundle_digest request)
  && String.eqb (sp_workflow_id snapshot) (sq_workflow_id request)
  && (sp_artifact_workflow_index snapshot =? sq_artifact_workflow_index request)
  && String.eqb (sp_request_digest snapshot) (sq_request_digest request)
  && bool_decide (length (sp_reads snapshot) = length (sq_entries request))
  && reads_match (sq_entries request) (sp_reads snapshot).

(** ** Commits *)
Definition u16_try_from (value : Z) : option Z := if value <=? u16_max then Some value else None.

Definition read_current (state : gmap ResolvedStateKeyV1 StoredStateV1) (read : ResolvedStateReadV1) : bool :=
  match state !! rd_key read, rd_revision read with
  | None, None => true
  | Some stored, Some revision =>
      (sd_revision stored =? revision) && String.eqb (sd_declaration_digest stored) (rd_declaration_digest read)
      && bool_decide (sd_value stored = rd_value read)
  | _, _ => false
  end.

Section store.
Context (sha256 : list Z → list Z).

Definition transition_entry (receipt_identity : ReceiptIdentity) (index : Z) (write : ResolvedStateWriteV1)
    (after_revision : Z) : Result StatefulStoreErrorV1 StateTransitionLedgerEntryV1 :=
  transition_index ← ok_or (u16_try_from index) StoreInvalidInput;
  Ok (mkLedgerEntry receipt_identity transition_index (wr_state_action_node_id write) (wr_source_ordinal write)
        (wr_key write) (wr_expected_revision write) after_revision
        (state_value_digest sha256 (wr_before write)) (state_value_digest sha256 (wr_after write))
        (negb (bool_decide (wr_before write = wr_after write)))).

(** The loop over the writes, on the copies of the state and the ledger. *)
Fixpoint apply_writes (receipt_identity : ReceiptIdentity) (index : Z) (writes : list ResolvedStateWriteV1)
    (state : gmap ResolvedStateKeyV1 StoredStateV1) (transitions : list StateTransitionLedgerEntryV1)
  : Result StatefulStoreErrorV1 (gmap ResolvedStateKeyV1 StoredStateV1 * list StateTransitionLedgerEntryV1) :=
  match writes with
  | [] => Ok (state, transitions)
  | write :: rest =>
      after_revision ← match wr_expected_revision write with
                       | None => Ok 1
                       | Some revision => ok_or (revision_next revision) StoreRevisionExhausted
                       end;
      entry ← transition_entry receipt_identity index write after_revision;
      apply_writes receipt_identity (index + 1) rest
        (<[wr_key write := mkStoredState (wr_after write) after_revision (wr_declaration_digest write)]> state)
        (transitions ++ [entry])
  end.

Definition new_outbox_entry (prepared : PreparedStatefulCommitV1) : StoredOutboxEntryV1 :=
  mkOutboxEntry (pc_receipt_identity prepared) (pc_request_digest prepared) (pc_plan_digest prepared)
    (pc_outbox_payload prepared) (pc_dispatch_authority prepared) OutboxQueued 1 None None None None 0 false.

Definition atomic_commit_v1 (prepared : PreparedStatefulCommitV1)
  : Cmd InMemoryAtomicStateOutboxStoreV1 StatefulStoreErrorV1 StatefulAtomicCommitResultV1 := λ store,
  if negb (commit_verify sha256 prepared) then (Err StoreInvalidInput, store)
  else match ms_receipts store !! pc_receipt_identity prepared with
  | Some receipt =>
      match bt_get (ms_outbox store) (pc_receipt_identity prepared) with
      | None => (Err StoreCorrupt, store)
      | Some outbox =>
          if bool_decide (cr_prepared receipt = prepared)
          then (Ok (mkCommitResult CommitExactReplay receipt (metadata outbox)), store)
          else (Err StoreReceiptConflict, store)
      end
  | None =>
      if negb (forallb (read_current (ms_state store)) (pc_reads prepared)) then (Err StoreStateConflict, store)
      else match apply_writes (pc_receipt_identity prepared) 0 (pc_writes prepared) (ms_state store)
                   (ms_transitions store) with
      | Err e => (Err e, store)
      | Ok (next_state, next_transitions) =>
          match u16_try_from (len (pc_writes prepared)) with
          | None => (Err StoreInvalidInput, store)
          | Some transition_count =>
              let receipt := mkCommitReceipt prepared transition_count in
              let outbox := new_outbox_entry prepared in
              (Ok (mkCommitResult CommitApplied receipt (metadata outbox)),
               mkOutboxStore next_state (<[pc_receipt_identity prepared := receipt]> (ms_receipts store))
                 (bt_insert (pc_receipt_identity prepared) outbox (ms_outbox store)) next_transitions)
          end
      end
  end.
End store.

(** ** The outbox *)
Definition entry_due (now_ms : Z) (entry : StoredOutboxEntryV1) : bool :=
  (bool_decide (oe_state entry = OutboxQueued) && (oe_available_at_ms entry <=? now_ms))
  || (bool_decide (oe_state entry = OutboxClaimed)
      && is_some_and (λ expiry, expiry <=? now_ms) (oe_expires_at_ms entry)).

Definition due_outbox_v1 (now_ms limit : Z) (store : InMemoryAtomicStateOutboxStoreV1)
  : Result StatefulStoreErrorV1 (list OutboxEntryMetadataV1) :=
  _ ← ensure (negb ((limit =? 0) || (MAX_OUTBOX_SCAN_LIMIT_V1 <? limit))) StoreInvalidInput;
  Ok (map metadata (take (Z.to_nat limit) (List.filter (entry_due now_ms) (ms_outbox store).*2))).

(** What a method does to the entry it has borrowed from the map. *)
Abbreviation EntryCmd := (Cmd StoredOutboxEntryV1 StatefulStoreErrorV1) (only parsing).

Definition on_entry {A} (receipt_identity : ReceiptIdentity) (method : EntryCmd A)
  : Cmd InMemoryAtomicStateOutboxStoreV1 StatefulStoreErrorV1 A := λ store,
  match bt_get (ms_outbox store) receipt_identity with
  | None => (Err StoreNotFound, store)
  | Some entry =>
      let '(result, entry') := method entry in
      (result, mkOutboxStore (ms_state store) (ms_receipts store)
                 (bt_insert receipt_identity entry' (ms_outbox store)) (ms_transitions store))
  end.

Definition guard (b : StoredOutboxEntryV1 → bool) (e : StatefulStoreErrorV1) : EntryCmd unit :=
  cmd_lift (λ entry, ensure (b entry) e).

Definition set_head_revision (revision : Z) (e : StoredOutboxEntryV1) : StoredOutboxEntryV1 :=
  mkOutboxEntry (oe_receipt_identity e) (oe_request_digest e) (oe_plan_digest e) (oe_payload e)
    (oe_required_authority e) (oe_state e) revision (oe_claim_revision e) (oe_claimant_id e)
    (oe_acquired_at_ms e) (oe_expires_at_ms e) (oe_available_at_ms e) (oe_external_intent_started e).

Definition set_claim (revision : Z) (claimant : string) (acquired expires : Z) (e : StoredOutboxEntryV1)
  : StoredOutboxEntryV1 :=
  mkOutboxEntry (oe_receipt_identity e) (oe_request_digest e) (oe_plan_digest e) (oe_payload e)
    (oe_required_authority e) OutboxClaimed (oe_head_revision e) (Some revision) (Some claimant)
    (Some acquired) (Some expires) (oe_available_at_ms e) false.

Definition set_reset (state : OutboxStateV1) (available_at_ms : Z) (e : StoredOutboxEntryV1) : StoredOutboxEntryV1 :=
  mkOutboxEntry (oe_receipt_identity e) (oe_request_digest e) (oe_plan_digest e) (oe_payload e)
    (oe_required_authority e) state (oe_head_revision e) (oe_claim_revision e) None None None available_at_ms
    (oe_external_intent_started e).

Definition set_intent (e : StoredOutboxEntryV1) : StoredOutboxEntryV1 :=
  mkOutboxEntry (oe_receipt_identity e) (oe_request_digest e) (oe_plan_digest e) (oe_payload e)
    (oe_required_authority e) (oe_state e) (oe_head_revision e) (oe_claim_revision e) (oe_claimant_id e)
    (oe_acquired_at_ms e) (oe_expires_at_ms e) (oe_available_at_ms e) true.

Definition bump_head : EntryCmd unit :=
  revision ← cmd_lift (λ e, ok_or (revision_next (oe_head_revision e)) StoreRevisionExhausted);
  cmd_modify (set_head_revision revision).

Definition reset_claim (state : OutboxStateV1) (available_at_ms : Z) : EntryCmd OutboxEntryMetadataV1 :=
  _ ← bump_head;
  _ ← cmd_modify (set_reset state available_at_ms);
  cmd_lift (λ e, Ok (metadata e)).

Definition is_claimed (e : StoredOutboxEntryV1) : bool := bool_decide (oe_state e = OutboxClaimed).
Definition lease_over (now_ms : Z) (e : StoredOutboxEntryV1) : bool :=
  is_some_and (λ expiry, expiry <=? now_ms) (oe_expires_at_ms e).

Definition claim_entry (request : OutboxClaimRequestV1) : EntryCmd ClaimedOutboxWorkV1 :=
  _ ← guard (λ e, bool_decide (cq_authority request = oe_required_authority e)) StoreAuthorityMismatch;
  _ ← guard (λ e, cq_expected_head_revision request =? oe_head_revision e) StoreStaleClaim;
  let reclaiming e := is_claimed e && lease_over (cq_now_ms request) e in
  _ ← guard (λ e, (bool_decide (oe_state e = OutboxQueued) && (oe_available_at_ms e <=? cq_now_ms request))
                  || reclaiming e) StoreOutboxConflict;
  _ ← guard (λ e, negb (reclaiming e && oe_external_intent_started e)) StoreRecoveryRequired;
  expires_at_ms ← cmd_lift (λ _, ok_or (u64_checked_add (cq_now_ms request) (cq_lease_duration_ms request))
                                   StoreInvalidInput);
  _ ← bump_head;
  claim_revision ← cmd_lift (λ e, match oe_claim_revision e with
                                  | None => Ok 1
                                  | Some revision => ok_or (revision_next revision) StoreRevisionExhausted
                                  end);
  _ ← cmd_modify (set_claim claim_revision (cq_claimant_id request) (cq_now_ms request) expires_at_ms);
  cmd_lift (λ e, Ok (mkClaimedWork
    (mkClaimToken (oe_receipt_identity e) (oe_head_revision e) claim_revision (cq_claimant_id request)
       (cq_authority request) (cq_now_ms request) expires_at_ms) (oe_payload e))).

Definition claim_outbox_v1 (request : OutboxClaimRequestV1)
  : Cmd InMemoryAtomicStateOutboxStoreV1 StatefulStoreErrorV1 ClaimedOutboxWorkV1 :=
  _ ← cmd_lift (λ _, ensure (negb ((cq_lease_duration_ms request =? 0)
                                   || (MAX_OUTBOX_CLAIM_MILLISECONDS_V1 <? cq_lease_duration_ms request)))
                       StoreInvalidInput);
  on_entry (cq_receipt_identity request) (claim_entry request).

Definition token_current (token : OutboxClaimTokenV1) (e : StoredOutboxEntryV1) : bool :=
  is_claimed e && (oe_head_revision e =? ct_head_revision token)
  && bool_decide (oe_claim_revision e = Some (ct_claim_revision token))
  && bool_decide (oe_claimant_id e = Some (ct_claimant_id token))
  && bool_decide (oe_required_authority e = ct_authority token)
  && bool_decide (oe_acquired_at_ms e = Some (ct_acquired_at_ms token))
  && bool_decide (oe_expires_at_ms e = Some (ct_expires_at_ms token)).

(** [valid_claim_mut], then the rest of the method on the borrowed entry. *)
Definition with_valid_claim {A} (token : OutboxClaimTokenV1) (now_ms : Z) (method : EntryCmd A)
  : Cmd InMemoryAtomicStateOutboxStoreV1 StatefulStoreErrorV1 A :=
  on_entry (ct_receipt_identity token)
    (_ ← guard (token_current token) StoreStaleClaim;
     _ ← guard (λ _, negb ((now_ms <? ct_acquired_at_ms token) || (ct_expires_at_ms token <=? now_ms)))
           StoreClaimExpired;
     method).

Definition record_external_intent_v1 (token : OutboxClaimTokenV1) (now_ms : Z)
  : Cmd InMemoryAtomicStateOutboxStoreV1 StatefulStoreErrorV1 unit :=
  with_valid_claim token now_ms (cmd_modify set_intent).

Definition release_before_external_intent_v1 (token : OutboxClaimTokenV1) (now_ms available_at_ms : Z)
  : Cmd InMemoryAtomicStateOutboxStoreV1 StatefulStoreErrorV1 OutboxEntryMetadataV1 :=
  with_valid_claim token now_ms
    (_ ← guard (λ e, negb (oe_external_intent_started e || (available_at_ms <? now_ms))) StoreOutboxConflict;
     reset_claim OutboxQueued available_at_ms).

Definition wait_for_effect_recovery_v1 (token : OutboxClaimTokenV1) (now_ms available_at_ms : Z)
  : Cmd InMemoryAtomicStateOutboxStoreV1 StatefulStoreErrorV1 OutboxEntryMetadataV1 :=
  with_valid_claim token now_ms
    (_ ← guard (λ e, negb (negb (oe_external_intent_started e) || (available_at_ms <? now_ms))) StoreOutboxConflict;
     reset_claim WaitingEffectRecovery available_at_ms).

Definition expire_claim_v1 (receipt_identity : ReceiptIdentity) (expected_head_revision : Z)
    (authority : OutboxDispatchAuthorityV1) (now_ms recovery_available_at_ms : Z)
  : Cmd InMemoryAtomicStateOutboxStoreV1 StatefulStoreErrorV1 OutboxEntryMetadataV1 :=
  on_entry receipt_identity
    (_ ← guard (λ e, bool_decide (oe_required_authority e = authority)) StoreAuthorityMismatch;
     _ ← guard (λ e, negb (negb (is_claimed e) || negb (oe_head_revision e =? expected_head_revision)
                           || negb (lease_over now_ms e) || (recovery_available_at_ms <? now_ms)))
           StoreOutboxConflict;
     started ← cmd_lift (λ e, Ok (oe_external_intent_started e));
     reset_claim (if started : bool then WaitingEffectRecovery else OutboxQueued) recovery_available_at_ms).

Definition complete_outbox_v1 (token : OutboxClaimTokenV1) (now_ms : Z)
  : Cmd InMemoryAtomicStateOutboxStoreV1 StatefulStoreErrorV1 OutboxEntryMetadataV1 :=
  with_valid_claim token now_ms
    (_ ← guard oe_external_intent_started StoreOutboxConflict; reset_claim OutboxCompleted now_ms).

Definition require_recovery_v1 (token : OutboxClaimTokenV1) (now_ms : Z)
  : Cmd InMemoryAtomicStateOutboxStoreV1 StatefulStoreErrorV1 OutboxEntryMetadataV1 :=
  with_valid_claim token now_ms
    (_ ← guard oe_external_intent_started StoreOutboxConflict; reset_claim OutboxRecoveryRequired now_ms).
