(* ===== verification/StatefulCompile.v ===== *)
(** * Compiling stateful documents

    Crate [automation-stateful-compiler], and [stateless_fragment.rs] of [automation-spec]:
    a stateful document is compiled into the rules of its stateless workflows and a separate
    artifact with the state schema, the workflows and the variables each of them reads and
    writes; the source map, the binding and the digests identify the parts. *)

From Stdlib Require Import ZArith Lia Ascii String.
From stdpp Require Import base decidable list strings gmap sets fin_sets numbers relations.
From S2P Require Import Prelude RustStd RustText AutomationState AutomationValidate RuleSet ApprovalBinding.
From S2P Require Import SpecModel SpecValidate SpecCompile StatefulModel StatefulValidate StatefulEval StatefulStore.
Open Scope string_scope.
Open Scope list_scope.
Open Scope Z_scope.

(** ** The stateless fragment *)
Inductive StatelessRuleSetFragmentErrorV1 :=
| FragmentInvalidRuleSetKey | FragmentConditionalWorkflow | FragmentInvalidLegacyTarget | FragmentIdentity.

Definition compile_structurally_validated_stateless_fragment_v1
    (content_hash : Z → InteractionRuleSet → Result RuleSetHashError (list Z)) (ruleset_key : string)
    (panels : list DeclaredPanelV1) (modals : list ModalDefinitionV1) (workflows : list WorkflowSpecV1)
  : Result StatelessRuleSetFragmentErrorV1 (InteractionRuleSet * AutomationRuleSetIdentityV1) :=
  _ ← map_err (λ _, FragmentInvalidRuleSetKey) (ruleset_key_parse ruleset_key);
  _ ← ensure (negb (existsb (λ workflow, negb (is_unconditional (wf_condition workflow))) workflows))
        FragmentConditionalWorkflow;
  let ruleset := mkRuleSet 1 (map lower_panel panels) (map lower_modal modals) (map lower_workflow workflows) in
  _ ← map_err (λ _, FragmentInvalidLegacyTarget) (validate_structural ruleset);
  hash ← map_err (λ _, FragmentIdentity) (content_hash CURRENT_RULESET_SCHEMA_VERSION ruleset);
  Ok (ruleset, mkRuleSetIdentity ruleset_key CURRENT_RULESET_SCHEMA_VERSION hash).

(** ** Artifacts *)
Definition STATEFUL_ARTIFACT_COMPILER_REVISION_V1 : Z := 1.
Definition STATEFUL_STATE_SCHEMA_VERSION_V1 : Z := 1.
Definition STATEFUL_STATE_SCHEMA_KIND_V1 : string := "starring.compiled-state-schema.v1".
Definition STATEFUL_ARTIFACT_SCHEMA_VERSION_V1 : Z := 1.
Definition STATEFUL_ARTIFACT_KIND_V1 : string := "starring.stateful-artifact.v1".
Definition STATEFUL_UNION_SOURCE_MAP_SCHEMA_VERSION_V1 : Z := 1.
Definition STATEFUL_UNION_SOURCE_MAP_KIND_V1 : string := "starring.stateful-union-source-map.v1".
Definition STATEFUL_COMPILATION_BINDING_FORMAT_VERSION_V1 : Z := 1.
Definition STATEFUL_COMPILATION_BINDING_KIND_V1 : string := "starring.stateful-compilation-binding.v1".

Record StatefulSourceSpecIdentityV1 := mkSourceIdentity {
  si_schema_version : Z;
  si_digest : list Z
}.

Record CompiledStateVariableV1 := mkCompiledVariable {
  cv_id : string;
  cv_scope : StateScopeV1;
  cv_value_type : StateValueTypeV1;
  cv_initial_value : StateValueV1;
  cv_declaration_digest : list Z
}.

Record CompiledStateSchemaV1 := mkStateSchema {
  cs_schema_version : Z;
  cs_kind : string;
  cs_compiler_revision : Z;
  cs_program_key : string;
  cs_variables : list CompiledStateVariableV1
}.

Record CompiledWorkflowDependenciesV1 := mkDependencies {
  cd_read_state_variable_indices : list Z;
  cd_write_state_variable_indices : list Z
}.

(** A [CompiledStatefulBranchV1] is the branch of the source; the acknowledgement strategy has
    one value and is left out. *)
Record CompiledStatefulWorkflowV1 := mkCompiledWorkflow {
  cw_id : string;
  cw_trigger : TriggerV1;
  cw_condition : StatefulConditionExprV1;
  cw_dependencies : CompiledWorkflowDependenciesV1;
  cw_on_true : StatefulBranchV1;
  cw_on_false : StatefulBranchV1
}.

Record CompiledStatefulArtifactV1 := mkStatefulArtifact {
  sa_schema_version : Z;
  sa_kind : string;
  sa_compiler_revision : Z;
  sa_source : StatefulSourceSpecIdentityV1;
  sa_program_key : string;
  sa_state_schema : CompiledStateSchemaV1;
  sa_state_schema_digest : list Z;
  sa_workflows : list CompiledStatefulWorkflowV1
}.

(** ** Source maps *)
Record StatefulStateVariableSourceMapV1 := mkVariableSource {
  vs_variable_id : string;
  vs_source_variable_index : Z;
  vs_artifact_variable_index : Z;
  vs_declaration_digest : list Z
}.

Record StatefulNodeSourceMapV1 := mkNodeSource {
  ns_node_id : string;
  ns_source_node_index : Z;
  ns_artifact_node_index : Z;
  ns_execution_ordinal : Z
}.

Record StatefulResponseSourceMapV1 := mkResponseSource {
  rs_node_id : string;
  rs_execution_ordinal : Z
}.

Record StatefulBranchSourceMapV1 := mkBranchSource {
  bm_implicit_acknowledgement_ordinal : Z;
  bm_state_actions : list StatefulNodeSourceMapV1;
  bm_effects : list StatefulNodeSourceMapV1;
  bm_response : StatefulResponseSourceMapV1
}.

Record StatefulWorkflowSourceMapV1 := mkStatefulWorkflowSource {
  wm_workflow_id : string;
  wm_source_workflow_index : Z;
  wm_artifact_workflow_index : Z;
  wm_on_true : StatefulBranchSourceMapV1;
  wm_on_false : StatefulBranchSourceMapV1
}.

(** A [StatefulStatelessWorkflowSourceMapV1] is the source map it wraps; the identities of the
    artifact, the schema and the source map are their digests, with constant versions. *)
Record StatefulUnionSourceMapV1 := mkUnionSourceMap {
  um_schema_version : Z;
  um_kind : string;
  um_compiler_revision : Z;
  um_source : StatefulSourceSpecIdentityV1;
  um_filtered_legacy_target : AutomationRuleSetIdentityV1;
  um_stateful_artifact : list Z;
  um_state_schema : list Z;
  um_stateless_workflows : list WorkflowSourceMapV1;
  um_state_variables : list StatefulStateVariableSourceMapV1;
  um_stateful_workflows : list StatefulWorkflowSourceMapV1
}.

Record StatefulCompilationBindingV1 := mkStatefulBinding {
  sb_format_version : Z;
  sb_kind : string;
  sb_compiler_revision : Z;
  sb_source : StatefulSourceSpecIdentityV1;
  sb_filtered_legacy_target : AutomationRuleSetIdentityV1;
  sb_stateful_artifact : list Z;
  sb_state_schema : list Z;
  sb_source_map : list Z
}.

Record CompiledStatefulBundleV1 := mkStatefulBundle {
  bu_source_spec : StatefulSpecV1;
  bu_filtered_legacy_ruleset : InteractionRuleSet;
  bu_filtered_legacy_target : AutomationRuleSetIdentityV1;
  bu_stateful_artifact : CompiledStatefulArtifactV1;
  bu_stateful_artifact_digest : list Z;
  bu_state_schema_digest : list Z;
  bu_union_source_map : StatefulUnionSourceMapV1;
  bu_union_source_map_digest : list Z;
  bu_binding : StatefulCompilationBindingV1;
  bu_binding_digest : list Z;
  bu_bundle_digest : list Z
}.

Definition node_source_map (start : Z) (ids : list string) : list StatefulNodeSourceMapV1 :=
  imap (λ index id, mkNodeSource id (as_u32 (Z.of_nat index)) (as_u32 (Z.of_nat index))
                      (as_u32 (start + as_u32 (Z.of_nat index)))) ids.

Definition branch_source_map_v1 (branch : StatefulBranchV1) : StatefulBranchSourceMapV1 :=
  let effects_start := as_u32 (1 + as_u32 (len (br_state_actions branch))) in
  mkBranchSource 0
    (node_source_map 1 (map sn_id (br_state_actions branch)))
    (node_source_map effects_start (map an_id (br_effects branch)))
    (mkResponseSource (rn_id (br_response branch))
       (as_u32 (effects_start + as_u32 (len (br_effects branch))))).

(** ** Dependencies *)
Fixpoint collect_value_reads (expression : StatefulValueExprV1) : gset string :=
  match expression with
  | LiteralExpr _ | InputTextExpr _ => ∅
  | StateExpr variable_id => {[variable_id]}
  | CheckedAddExpr lhs rhs | CheckedSubExpr lhs rhs => collect_value_reads lhs ∪ collect_value_reads rhs
  end.

Fixpoint collect_condition_reads (condition : StatefulConditionExprV1) : gset string :=
  match condition with
  | CondAlways | CondInputNonEmpty _ | CondInputEquals _ _ => ∅
  | CondStateEquals variable_id value => {[variable_id]} ∪ collect_value_reads value
  | CondIntegerCompare lhs _ rhs => collect_value_reads lhs ∪ collect_value_reads rhs
  | CondAll conditions | CondAny conditions => ⋃ (map collect_condition_reads conditions)
  | CondNot condition => collect_condition_reads condition
  end.

(** A write reads the row it replaces. *)
Definition branch_writes (branch : StatefulBranchV1) : gset string :=
  list_to_set (map sn_variable_id (br_state_actions branch)).

Definition branch_reads (branch : StatefulBranchV1) : gset string :=
  branch_writes branch ∪ ⋃ (map (λ action, collect_value_reads (sn_value action)) (br_state_actions branch)).

Definition workflow_reads (workflow : StatefulWorkflowV1) : gset string :=
  collect_condition_reads (sw_condition workflow)
  ∪ branch_reads (sw_on_true workflow) ∪ branch_reads (sw_on_false workflow).

Definition workflow_writes (workflow : StatefulWorkflowV1) : gset string :=
  branch_writes (sw_on_true workflow) ∪ branch_writes (sw_on_false workflow).

Inductive StatefulCompilationIdentityErrorV1 :=
| StatefulIdentityEncoding | StatefulIdentityBoundExceeded | StatefulNonCanonicalBundle
| StatefulInvalidSource | StatefulBundleMismatch.

Inductive StatefulSpecCompileErrorV1 :=
| StatefulCompileInvalidSpec (e : StatefulSpecValidationErrorV1)
| StatefulCompileSourceIdentity (e : StatefulSpecDigestErrorV1)
| StatefulCompileFragment (e : StatelessRuleSetFragmentErrorV1)
| StatefulCompileInvalidValidatedSource
| StatefulCompileIdentity (e : StatefulCompilationIdentityErrorV1).

Definition as_u16 (n : Z) : Z := n mod 2 ^ 16.

Definition variable_indices (variables : list StateVariableV1) : gmap string Z :=
  foldl (λ m '(index, variable), <[sv_id variable := as_u16 (Z.of_nat index)]> m) ∅ (imap pair variables).

(** The ids are a [BTreeSet]; the indices are sorted, so the order they are taken in is not seen. *)
Definition indices_in_declaration_order (ids : gset string) (indices : gmap string Z)
  : Result StatefulSpecCompileErrorV1 (list Z) :=
  found ← ok_or (mapM (λ id, indices !! id) (elements ids)) StatefulCompileInvalidValidatedSource;
  Ok (sort_by Z.leb found).

Definition compile_dependencies_v1 (workflow : StatefulWorkflowV1) (indices : gmap string Z)
  : Result StatefulSpecCompileErrorV1 CompiledWorkflowDependenciesV1 :=
  reads ← indices_in_declaration_order (workflow_reads workflow) indices;
  writes ← indices_in_declaration_order (workflow_writes workflow) indices;
  Ok (mkDependencies reads writes).

Definition compile_workflow (indices : gmap string Z) (workflow : StatefulWorkflowV1)
  : Result StatefulSpecCompileErrorV1 CompiledStatefulWorkflowV1 :=
  dependencies ← compile_dependencies_v1 workflow indices;
  Ok (mkCompiledWorkflow (sw_id workflow) (sw_trigger workflow) (sw_condition workflow) dependencies
        (sw_on_true workflow) (sw_on_false workflow)).

(** ** Digests *)
Definition MAX_COMPILED_STATE_SCHEMA_CANONICAL_BYTES_V1 : Z := 128 * 1024.
Definition MAX_STATEFUL_ARTIFACT_CANONICAL_BYTES_V1 : Z := 512 * 1024.
Definition MAX_STATEFUL_UNION_SOURCE_MAP_CANONICAL_BYTES_V1 : Z := 512 * 1024.
Definition MAX_STATEFUL_COMPILATION_BINDING_CANONICAL_BYTES_V1 : Z := 64 * 1024.
Definition MAX_STATEFUL_BUNDLE_CANONICAL_BYTES_V1 : Z := 2 * 1024 * 1024.
Definition STATE_SCHEMA_DOMAIN_V1 : list Z := domain_bytes "starring.compiled_state_schema.v1".
Definition STATEFUL_ARTIFACT_DOMAIN_V1 : list Z := domain_bytes "starring.stateful_artifact.v1".
Definition UNION_SOURCE_MAP_DOMAIN_V1 : list Z := domain_bytes "starring.stateful_union_source_map.v1".
Definition STATEFUL_COMPILATION_BINDING_DOMAIN_V1 : list Z :=
  domain_bytes "starring.stateful_compilation_binding.v1".
Definition BUNDLE_DOMAIN_V1 : list Z := domain_bytes "starring.stateful_compiled_bundle.v1".
Definition STATE_DECLARATION_DOMAIN_V1 : list Z := domain_bytes "starring.stateful_state_declaration.v1".

Definition append_state_type (value_type : StateValueTypeV1) : list Z :=
  match value_type with
  | BoolType => [0]
  | IntegerType min max => 1 :: be_bytes 8 min ++ be_bytes 8 max
  | TextType max_utf8_bytes => 2 :: be_bytes 2 max_utf8_bytes
  end.

Definition scope_tag (scope : StateScopeV1) : Z :=
  match scope with ScopeInstallation => 0 | ScopeActor => 1 | ScopeInstance => 2 | ScopeActorInstance => 3 end.

(** What the bundle digest covers: the source, the rules, the artifact, the map and the binding. *)
Abbreviation BundleParts :=
  (StatefulSpecV1 * InteractionRuleSet * CompiledStatefulArtifactV1 * StatefulUnionSourceMapV1
   * StatefulCompilationBindingV1)%type (only parsing).

Section compile.
Context (encoded_len : StatefulSpecV1 → option Z) (view_encoded_len : AutomationSpecV1 → option Z).
Context (debug_validation_error : ValidationError → string).
(** The canonical JSON of the parts, the canonical hash of a rule set, SHA-256. *)
Context (spec_json : StatefulSpecV1 → option (list Z)) (schema_json : CompiledStateSchemaV1 → option (list Z)).
Context (artifact_json : CompiledStatefulArtifactV1 → option (list Z)).
Context (map_json : StatefulUnionSourceMapV1 → option (list Z)).
Context (binding_json : StatefulCompilationBindingV1 → option (list Z)) (bundle_json : BundleParts → option (list Z)).
Context (content_hash : Z → InteractionRuleSet → Result RuleSetHashError (list Z)).
Context (sha256 : list Z → list Z).

Definition declaration_digest_v1 (program_key : string) (variable : StateVariableV1) : list Z :=
  sha256 (STATE_DECLARATION_DOMAIN_V1 ++ append_string program_key ++ append_string (sv_id variable)
          ++ [scope_tag (sv_scope variable)] ++ append_state_type (sv_value_type variable)
          ++ append_state_value (sv_initial_value variable)).

Definition bounded_canonical_json {A} (json : A → option (list Z)) (value : A) (max_bytes : Z)
  : Result StatefulCompilationIdentityErrorV1 (list Z) :=
  bytes ← ok_or (json value) StatefulIdentityEncoding;
  _ ← ensure (negb (max_bytes <? len bytes)) StatefulIdentityBoundExceeded;
  Ok bytes.

Definition stateful_state_schema_digest_v1 (schema : CompiledStateSchemaV1)
  : Result StatefulCompilationIdentityErrorV1 (list Z) :=
  bytes ← bounded_canonical_json schema_json schema MAX_COMPILED_STATE_SCHEMA_CANONICAL_BYTES_V1;
  Ok (framed_sha256 sha256 STATE_SCHEMA_DOMAIN_V1 bytes).

Definition stateful_artifact_digest_v1 (artifact : CompiledStatefulArtifactV1)
  : Result StatefulCompilationIdentityErrorV1 (list Z) :=
  bytes ← bounded_canonical_json artifact_json artifact MAX_STATEFUL_ARTIFACT_CANONICAL_BYTES_V1;
  Ok (framed_sha256 sha256 STATEFUL_ARTIFACT_DOMAIN_V1 bytes).

Definition stateful_union_source_map_digest_v1 (source_map : StatefulUnionSourceMapV1)
  : Result StatefulCompilationIdentityErrorV1 (list Z) :=
  bytes ← bounded_canonical_json map_json source_map MAX_STATEFUL_UNION_SOURCE_MAP_CANONICAL_BYTES_V1;
  Ok (framed_sha256 sha256 UNION_SOURCE_MAP_DOMAIN_V1 bytes).

Definition stateful_compilation_binding_digest_v1 (binding : StatefulCompilationBindingV1)
  : Result StatefulCompilationIdentityErrorV1 (list Z) :=
  bytes ← bounded_canonical_json binding_json binding MAX_STATEFUL_COMPILATION_BINDING_CANONICAL_BYTES_V1;
  Ok (framed_sha256 sha256 STATEFUL_COMPILATION_BINDING_DOMAIN_V1 bytes).

Definition stateful_bundle_parts_digest_v1 (parts : BundleParts)
  : Result StatefulCompilationIdentityErrorV1 (list Z) :=
  bytes ← bounded_canonical_json bundle_json parts MAX_STATEFUL_BUNDLE_CANONICAL_BYTES_V1;
  Ok (framed_sha256 sha256 BUNDLE_DOMAIN_V1 bytes).

Definition compiled_variable (program_key : string) (variable : StateVariableV1) : CompiledStateVariableV1 :=
  mkCompiledVariable (sv_id variable) (sv_scope variable) (sv_value_type variable) (sv_initial_value variable)
    (declaration_digest_v1 program_key variable).

Definition state_variable_source_map_v1 (index : nat) (variable : CompiledStateVariableV1)
  : StatefulStateVariableSourceMapV1 :=
  mkVariableSource (cv_id variable) (as_u32 (Z.of_nat index)) (as_u32 (Z.of_nat index))
    (cv_declaration_digest variable).

Definition stateful_workflow_source_map_v1 (index : nat) (workflow : StatefulWorkflowV1)
  : StatefulWorkflowSourceMapV1 :=
  mkStatefulWorkflowSource (sw_id workflow) (as_u32 (Z.of_nat index)) (as_u32 (Z.of_nat index))
    (branch_source_map_v1 (sw_on_true workflow)) (branch_source_map_v1 (sw_on_false workflow)).

Abbreviation identity := (map_err StatefulCompileIdentity) (only parsing).

Definition compile_stateful_spec_bundle_v1 (spec : StatefulSpecV1)
  : Result StatefulSpecCompileErrorV1 CompiledStatefulBundleV1 :=
  _ ← map_err StatefulCompileInvalidSpec
        (validate_stateful_spec_v1 encoded_len view_encoded_len debug_validation_error spec);
  source_digest ← map_err StatefulCompileSourceIdentity
    (stateful_spec_digest_v1 encoded_len view_encoded_len debug_validation_error spec_json sha256 spec);
  let source := mkSourceIdentity (ss_schema_version spec) source_digest in
  filtered ← map_err StatefulCompileFragment
    (compile_structurally_validated_stateless_fragment_v1 content_hash (ss_key spec) (ss_panels spec)
       (ss_modals spec) (ss_stateless_workflows spec));
  let '(filtered_legacy_ruleset, filtered_legacy_target) := filtered : InteractionRuleSet * _ in
  let compiled_variables := map (compiled_variable (ss_key spec)) (ss_state_variables spec) in
  workflows ← collect_results (compile_workflow (variable_indices (ss_state_variables spec)))
                (ss_stateful_workflows spec);
  let state_schema :=
    mkStateSchema STATEFUL_STATE_SCHEMA_VERSION_V1 STATEFUL_STATE_SCHEMA_KIND_V1
      STATEFUL_ARTIFACT_COMPILER_REVISION_V1 (ss_key spec) compiled_variables in
  state_schema_digest ← identity (stateful_state_schema_digest_v1 state_schema);
  let artifact :=
    mkStatefulArtifact STATEFUL_ARTIFACT_SCHEMA_VERSION_V1 STATEFUL_ARTIFACT_KIND_V1
      STATEFUL_ARTIFACT_COMPILER_REVISION_V1 source (ss_key spec) state_schema state_schema_digest workflows in
  artifact_digest ← identity (stateful_artifact_digest_v1 artifact);
  let union_source_map :=
    mkUnionSourceMap STATEFUL_UNION_SOURCE_MAP_SCHEMA_VERSION_V1 STATEFUL_UNION_SOURCE_MAP_KIND_V1
      STATEFUL_ARTIFACT_COMPILER_REVISION_V1 source filtered_legacy_target artifact_digest state_schema_digest
      (workflow_source_map (ss_stateless_workflows spec))
      (imap state_variable_source_map_v1 compiled_variables)
      (imap stateful_workflow_source_map_v1 (ss_stateful_workflows spec)) in
  union_source_map_digest ← identity (stateful_union_source_map_digest_v1 union_source_map);
  let binding :=
    mkStatefulBinding STATEFUL_COMPILATION_BINDING_FORMAT_VERSION_V1 STATEFUL_COMPILATION_BINDING_KIND_V1
      STATEFUL_ARTIFACT_COMPILER_REVISION_V1 source filtered_legacy_target artifact_digest state_schema_digest
      union_source_map_digest in
  binding_digest ← identity (stateful_compilation_binding_digest_v1 binding);
  bundle_digest ← identity (stateful_bundle_parts_digest_v1
    (spec, filtered_legacy_ruleset, artifact, union_source_map, binding));
  Ok (mkStatefulBundle spec filtered_legacy_ruleset filtered_legacy_target artifact artifact_digest
        state_schema_digest union_source_map union_source_map_digest binding binding_digest bundle_digest).
End compile.

(** ** Schema evolution *)
Inductive StateSchemaCompatibilityErrorV1 :=
| ProgramKeyChanged
| FormatChanged
| ExistingVariableRemovedOrReordered (index : Z)
| ExistingVariableChanged (variable_id : string).

Definition same_declaration (lhs rhs : CompiledStateVariableV1) : bool :=
  bool_decide (cv_scope lhs = cv_scope rhs) && bool_decide (cv_value_type lhs = cv_value_type rhs)
  && bool_decide (cv_initial_value lhs = cv_initial_value rhs)
  && bool_decide (cv_declaration_digest lhs = cv_declaration_digest rhs).

Fixpoint check_variables (index : Z) (previous candidate : list CompiledStateVariableV1)
  : Result StateSchemaCompatibilityErrorV1 unit :=
  match previous, candidate with
  | old :: previous, new :: candidate =>
      _ ← ensure (String.eqb (cv_id old) (cv_id new)) (ExistingVariableRemovedOrReordered index);
      _ ← ensure (same_declaration old new) (ExistingVariableChanged (cv_id old));
      check_variables (index + 1) previous candidate
  | _, _ => Ok tt
  end.

(** An [AdditiveStateSchemaCompatibilityV1] is the ids of the added variables. *)
Definition check_additive_state_schema_compatibility_v1 (previous candidate : CompiledStateSchemaV1)
  : Result StateSchemaCompatibilityErrorV1 (list string) :=
  _ ← ensure (String.eqb (cs_program_key previous) (cs_program_key candidate)) ProgramKeyChanged;
  _ ← ensure ((cs_schema_version previous =? cs_schema_version candidate)
              && String.eqb (cs_kind previous) (cs_kind candidate)
              && (cs_compiler_revision previous =? cs_compiler_revision candidate)) FormatChanged;
  _ ← ensure (negb (len (cs_variables candidate) <? len (cs_variables previous)))
        (ExistingVariableRemovedOrReordered (len (cs_variables candidate)));
  _ ← check_variables 0 (cs_variables previous) (cs_variables candidate);
  Ok (map cv_id (drop (length (cs_variables previous)) (cs_variables candidate))).
