(* ===== verification/Interaction.v ===== *)
(** * Verified interactions

    Crate [automation-runtime-interaction]: [custom_id.rs], what a Discord component carries;
    [identity.rs], receipts and the route an interaction is served on; [digest.rs], what the
    request and the claim root commit to; [verified_request.rs], a request that hashes to what
    its receipt recorded. Digests are their hexadecimal text; SHA-256 is a parameter. *)

From Stdlib Require Import ZArith Lia Ascii String.
From stdpp Require Import base decidable list strings gmap sets fin_sets numbers relations.
From S2P Require Import Prelude RustStd RustText DiscordModel ConvergenceTypes RuleSet RuleSetSpec ApprovalBinding.
Open Scope string_scope.
Open Scope list_scope.
Open Scope Z_scope.

(** ** Custom ids *)
Definition PREFIX : string := "starring".
Definition INSTANCE : string := "i".
Definition MAX_INTERACTION_CUSTOM_ID_BYTES_V1 : Z := 100.

Inductive InteractionComponentKindV1 := ComponentButton | ComponentModal.

Inductive ParsedInteractionCustomIdV1 :=
| ParsedComponent (guild_id : GuildId) (ruleset_key : string) (kind : InteractionComponentKindV1) (key : string)
| ParsedInstanceAction (instance_id action : string).

Inductive InteractionCustomIdErrorV1 :=
| CustomIdWrongPrefix | CustomIdWrongShape | CustomIdBadGuildId | CustomIdUnknownKind | CustomIdTooLong.

(** [text.split(c)]. *)
Fixpoint split_on (c : ascii) (text : string) : list string :=
  match text with
  | EmptyString => [EmptyString]
  | String a rest =>
      if Ascii.eqb a c then EmptyString :: split_on c rest
      else match split_on c rest with
           | part :: parts => String a part :: parts
           | [] => [String a EmptyString]
           end
  end.

(** [format!] with colons between the parts. *)
Fixpoint join_on (c : ascii) (parts : list string) : string :=
  match parts with
  | [] => EmptyString
  | [part] => part
  | part :: parts => (part +:+ String c (join_on c parts))%string
  end.

Definition encode_interaction_button_custom_id_v1 (guild_id : GuildId) (ruleset_key button_key : string) : string :=
  join_on ":" [PREFIX; print_u64 guild_id; ruleset_key; "button"; button_key].

Definition encode_interaction_modal_custom_id_v1 (guild_id : GuildId) (ruleset_key modal_key : string) : string :=
  join_on ":" [PREFIX; print_u64 guild_id; ruleset_key; "modal"; modal_key].

Definition encode_interaction_instance_action_custom_id_v1 (instance_id action : string)
  : Result InteractionCustomIdErrorV1 string :=
  let encoded := join_on ":" [PREFIX; INSTANCE; instance_id; action] in
  _ ← ensure (negb (MAX_INTERACTION_CUSTOM_ID_BYTES_V1 <? str_len encoded)) CustomIdTooLong;
  Ok encoded.

Definition component_kind (text : string) : Result InteractionCustomIdErrorV1 InteractionComponentKindV1 :=
  if String.eqb text "button" then Ok ComponentButton
  else if String.eqb text "modal" then Ok ComponentModal
  else Err CustomIdUnknownKind.

Definition decode_interaction_custom_id_v1 (custom_id : string)
  : Result InteractionCustomIdErrorV1 ParsedInteractionCustomIdV1 :=
  _ ← ensure (negb (MAX_INTERACTION_CUSTOM_ID_BYTES_V1 <? str_len custom_id)) CustomIdTooLong;
  let parts := split_on ":" custom_id in
  _ ← ensure (bool_decide (head parts = Some PREFIX)) CustomIdWrongPrefix;
  if bool_decide (parts !! 1%nat = Some INSTANCE)
  then match parts with
       | [_; _; instance_id; action] => Ok (ParsedInstanceAction instance_id action)
       | _ => Err CustomIdWrongShape
       end
  else match parts with
       | [_; guild; key; kind; component] =>
           guild_id ← ok_or (parse_u64 guild) CustomIdBadGuildId;
           kind ← component_kind kind;
           Ok (ParsedComponent guild_id key kind component)
       | _ => Err CustomIdWrongShape
       end.

(** ** Receipts and routes *)

(** An [InteractionReceiptIdentityV1]: the application and the interaction. *)
Abbreviation InteractionReceiptIdentityV1 := (Z * Z)%type (only parsing).

Record InteractionProductScopeV1 := mkProductScope {
  ps_tenant_id : TenantId;
  ps_installation_id : InstallationId;
  ps_deployment_id : DeploymentId
}.

Record InteractionGatewayOwnerIdentityV1 := mkGatewayOwner {
  go_shard_identity : string;
  go_lease_epoch : Z;
  go_owner_revision : Z;
  go_runtime_build_revision : string
}.

Record InteractionServingRouteIdentityV1 := mkServingIdentity {
  sv_attestation_digest : string;
  sv_lease_epoch : Z;
  sv_lease_revision : Z;
  sv_gateway_owner_identity : InteractionGatewayOwnerIdentityV1;
  sv_route_fencing_token : FencingToken;
  sv_route_incarnation : Z
}.

Definition sv_gateway_shard_identity (serving : InteractionServingRouteIdentityV1) : string :=
  go_shard_identity (sv_gateway_owner_identity serving).
Definition sv_gateway_owner_lease_epoch (serving : InteractionServingRouteIdentityV1) : Z :=
  go_lease_epoch (sv_gateway_owner_identity serving).
Definition sv_gateway_owner_revision (serving : InteractionServingRouteIdentityV1) : Z :=
  go_owner_revision (sv_gateway_owner_identity serving).
Definition sv_runtime_build_revision (serving : InteractionServingRouteIdentityV1) : string :=
  go_runtime_build_revision (sv_gateway_owner_identity serving).

Inductive InteractionExecutionRouteV1 :=
| StaticRoute (ruleset_version : Z) (ruleset_content_hash : string)
| InstanceRoute (instance_id : string) (pinned_ruleset_version : Z) (pinned_ruleset_content_hash : string)
    (resource_manifest_digest : string).

Record InteractionRouteBindingV1 := mkRouteBinding {
  ib_scope : InteractionProductScopeV1;
  ib_process_identity : RuntimeProcessIdentityV1;
  ib_serving_identity : InteractionServingRouteIdentityV1;
  ib_execution_route : InteractionExecutionRouteV1
}.

Record InteractionExpectedRouteV1 := mkExpectedRoute {
  xr_scope : InteractionProductScopeV1;
  xr_process_identity : RuntimeProcessIdentityV1;
  xr_gateway_shard_identity : string;
  xr_runtime_build_revision : string;
  xr_route_fencing_token : FencingToken;
  xr_route_incarnation : Z
}.

Record InteractionReceiptClaimRootV1 := mkClaimRoot {
  cl_identity : InteractionReceiptIdentityV1;
  cl_route : InteractionRouteBindingV1;
  cl_request_digest : string
}.

Record InteractionReceiptClaimCandidateV1 := mkClaimCandidate {
  cc_identity : InteractionReceiptIdentityV1;
  cc_expected_route : InteractionExpectedRouteV1;
  cc_request_digest : string
}.

#[export] Instance InteractionProductScopeV1_eq_dec : EqDecision InteractionProductScopeV1.
Proof. solve_decision. Defined.
#[export] Instance InteractionGatewayOwnerIdentityV1_eq_dec : EqDecision InteractionGatewayOwnerIdentityV1.
Proof. solve_decision. Defined.
#[export] Instance InteractionServingRouteIdentityV1_eq_dec : EqDecision InteractionServingRouteIdentityV1.
Proof. solve_decision. Defined.
#[export] Instance InteractionExecutionRouteV1_eq_dec : EqDecision InteractionExecutionRouteV1.
Proof. solve_decision. Defined.

Inductive InteractionRouteBindingErrorV1 :=
| RouteServingLeaseEpoch | RouteServingLeaseRevision | RouteGuildIdentity | RouteIncarnation | RouteGatewayShardIdentity
| RouteGatewayOwnerLeaseEpoch | RouteGatewayOwnerRevision | RouteRuntimeBuildRevision.
Inductive InteractionReceiptBindingErrorV1 := ExpectedRouteMismatch.

(** [InteractionGatewayShardIdentityV1::parse], and [InteractionRuntimeBuildRevisionV1::parse] with its own error. *)
Definition route_text_char (c : ascii) : bool :=
  is_ascii_alphanumeric c || existsb (Ascii.eqb c) ["_"%char; "-"%char; "."%char; ":"%char; "/"%char].

Definition gateway_shard_identity_parse (value : string) : Result InteractionRouteBindingErrorV1 string :=
  _ ← ensure (negb (str_is_empty value || (128 <? str_len value) || negb (str_all route_text_char value)))
        RouteGatewayShardIdentity;
  Ok value.

Definition runtime_build_revision_parse (value : string) : Result InteractionRouteBindingErrorV1 string :=
  _ ← ensure (negb (str_is_empty value || (128 <? str_len value) || negb (str_all route_text_char value)))
        RouteRuntimeBuildRevision;
  Ok value.

Definition validate_process_identity (process : RuntimeProcessIdentityV1)
  : Result InteractionRouteBindingErrorV1 unit :=
  ensure (negb (target_guild_id (process_target process) =? 0)) RouteGuildIdentity.

(** [InteractionRouteBindingV1::new_static]. *)
Definition new_static (scope : InteractionProductScopeV1) (process : RuntimeProcessIdentityV1)
    (serving : InteractionServingRouteIdentityV1) : Result InteractionRouteBindingErrorV1 InteractionRouteBindingV1 :=
  _ ← validate_process_identity process;
  Ok (mkRouteBinding scope process serving
        (StaticRoute (target_version (process_target process)) (ConvergenceTypes.content_hash (process_target process)))).

Definition new_instance (scope : InteractionProductScopeV1) (process : RuntimeProcessIdentityV1)
    (serving : InteractionServingRouteIdentityV1) (instance_id : string) (version : Z) (hash manifest : string)
  : Result InteractionRouteBindingErrorV1 InteractionRouteBindingV1 :=
  _ ← validate_process_identity process;
  Ok (mkRouteBinding scope process serving (InstanceRoute instance_id version hash manifest)).

(** [InteractionExpectedRouteV1::new]. *)
Definition expected_route_new (scope : InteractionProductScopeV1) (process : RuntimeProcessIdentityV1)
    (shard build : string) (token : FencingToken) (incarnation : Z)
  : Result InteractionRouteBindingErrorV1 InteractionExpectedRouteV1 :=
  _ ← validate_process_identity process;
  Ok (mkExpectedRoute scope process shard build token incarnation).

Definition from_authoritative (route : InteractionRouteBindingV1) : InteractionExpectedRouteV1 :=
  mkExpectedRoute (ib_scope route) (ib_process_identity route)
    (sv_gateway_shard_identity (ib_serving_identity route)) (sv_runtime_build_revision (ib_serving_identity route))
    (sv_route_fencing_token (ib_serving_identity route)) (sv_route_incarnation (ib_serving_identity route)).

Definition bind_authoritative (candidate : InteractionReceiptClaimCandidateV1) (route : InteractionRouteBindingV1)
  : Result InteractionReceiptBindingErrorV1 InteractionReceiptClaimRootV1 :=
  let expected := cc_expected_route candidate in
  let serving := ib_serving_identity route in
  _ ← ensure (bool_decide (xr_scope expected = ib_scope route)
              && bool_decide (xr_process_identity expected = ib_process_identity route)
              && String.eqb (xr_gateway_shard_identity expected) (sv_gateway_shard_identity serving)
              && String.eqb (xr_runtime_build_revision expected) (sv_runtime_build_revision serving)
              && (xr_route_fencing_token expected =? sv_route_fencing_token serving)
              && (xr_route_incarnation expected =? sv_route_incarnation serving)) ExpectedRouteMismatch;
  Ok (mkClaimRoot (cc_identity candidate) route (cc_request_digest candidate)).

(** ** Digests *)
Definition REQUEST_DIGEST_DOMAIN_V1 : list Z := domain_bytes "starring.runtime.interaction.request.v1".
Definition CLAIM_ROOT_DIGEST_DOMAIN_V1 : list Z := domain_bytes "starring.runtime.interaction.claim_root.v1".
Definition MAX_CUSTOM_ID_BYTES : Z := 100.
Definition MAX_LOCALE_BYTES : Z := 64.
Definition MAX_MODAL_INPUTS : Z := 5.
Definition MAX_MODAL_INPUT_VALUE_BYTES : Z := 4000.
Definition MAX_MODAL_PAYLOAD_BYTES : Z := 20000.

Inductive InteractionRequestDigestErrorV1 :=
| RequestIdentity | RequestCustomId | RequestLocale | RequestModalInputCount | RequestModalInput | RequestModalPayload.

(** What [append_field] frames: the name and the value. *)
Definition field (name : string) (value : list Z) : list (list Z) := [str_bytes name; value].
Definition text_field (name value : string) : list (list Z) := field name (str_bytes value).
Definition u64_field (name : string) (value : Z) : list (list Z) := field name (be_bytes 8 value).
Definition u32_field (name : string) (value : Z) : list (list Z) := field name (be_bytes 4 value).

Definition append_optional_field (name : string) (value : option string) : list (list Z) :=
  match value with
  | Some value => text_field name "some" ++ text_field "optional_value" value
  | None => text_field name "none"
  end.

Definition append_receipt_identity_v1 (identity : Z * Z) : list (list Z) :=
  u64_field "application_id" identity.1 ++ u64_field "interaction_id" identity.2.

Definition append_product_scope_v1 (scope : InteractionProductScopeV1) : list (list Z) :=
  text_field "tenant_id" (ps_tenant_id scope) ++ text_field "installation_id" (ps_installation_id scope)
  ++ text_field "deployment_id" (ps_deployment_id scope).

Definition append_process_identity_v1 (process : RuntimeProcessIdentityV1) : list (list Z) :=
  let target := process_target process in
  u64_field "target_guild_id" (target_guild_id target) ++ text_field "ruleset_key" (ruleset_key target)
  ++ u32_field "ruleset_version" (target_version target)
  ++ text_field "ruleset_content_hash" (ConvergenceTypes.content_hash target)
  ++ u64_field "binding_revision" (binding_revision target)
  ++ text_field "binding_fingerprint" (binding_fingerprint target)
  ++ u64_field "runtime_generation" (process_generation process)
  ++ text_field "process_instance_id" (process_instance_id process).

Definition append_execution_route_v1 (route : InteractionExecutionRouteV1) : list (list Z) :=
  match route with
  | StaticRoute version hash =>
      text_field "execution_route_kind" "static" ++ u32_field "execution_ruleset_version" version
      ++ text_field "execution_ruleset_content_hash" hash
  | InstanceRoute instance_id version hash manifest =>
      text_field "execution_route_kind" "instance" ++ text_field "instance_id" instance_id
      ++ u32_field "pinned_ruleset_version" version ++ text_field "pinned_ruleset_content_hash" hash
      ++ text_field "resource_manifest_digest" manifest
  end.

Definition append_route_binding_v1 (route : InteractionRouteBindingV1) : list (list Z) :=
  let serving := ib_serving_identity route in
  append_product_scope_v1 (ib_scope route) ++ append_process_identity_v1 (ib_process_identity route)
  ++ text_field "route_attestation_digest" (sv_attestation_digest serving)
  ++ u64_field "route_lease_epoch" (sv_lease_epoch serving)
  ++ u64_field "route_lease_revision" (sv_lease_revision serving)
  ++ text_field "gateway_shard_identity" (sv_gateway_shard_identity serving)
  ++ u64_field "gateway_owner_lease_epoch" (sv_gateway_owner_lease_epoch serving)
  ++ u64_field "gateway_owner_revision" (sv_gateway_owner_revision serving)
  ++ text_field "runtime_build_revision" (sv_runtime_build_revision serving)
  ++ u64_field "route_fencing_token" (sv_route_fencing_token serving)
  ++ u64_field "route_incarnation" (sv_route_incarnation serving)
  ++ append_execution_route_v1 (ib_execution_route route).

Definition append_claim_root_v1 (root : InteractionReceiptClaimRootV1) : list (list Z) :=
  append_receipt_identity_v1 (cl_identity root) ++ append_route_binding_v1 (cl_route root)
  ++ text_field "request_digest" (cl_request_digest root).

Definition contains_zero (text : string) : bool := negb (str_all (λ c, negb (Ascii.eqb c "000")) text).

Definition validate_custom_id (custom_id : string) : Result InteractionRequestDigestErrorV1 unit :=
  ensure (negb (str_is_empty custom_id || (MAX_CUSTOM_ID_BYTES <? str_len custom_id) || contains_zero custom_id))
    RequestCustomId.

Definition validate_locale (locale : option string) : Result InteractionRequestDigestErrorV1 unit :=
  ensure (negb (is_some_and (λ value, str_is_empty value || (MAX_LOCALE_BYTES <? str_len value)
                                      || existsb is_control (chars value)) locale)) RequestLocale.

(** Material as it was accepted: a button, or a modal with its inputs in order of their ids. *)
Inductive InteractionRequestMaterialV1 :=
| MaterialButton (guild_id channel_id actor_id : Z) (locale : option string) (custom_id : string)
| MaterialModalSubmit (guild_id channel_id actor_id : Z) (locale : option string) (custom_id : string)
    (inputs : list (string * string)).

Inductive InteractionRequestPayloadV1 :=
| PayloadButton (custom_id : string)
| PayloadModalSubmit (custom_id : string) (inputs : list (string * string)).

(** The loop over the inputs, with the bytes so far. *)
Fixpoint input_fields (payload_bytes : Z) (inputs : list (string * string))
  : Result InteractionRequestDigestErrorV1 (list (list Z)) :=
  match inputs with
  | [] => Ok []
  | (input_id, value) :: rest =>
      _ ← ensure (negb (str_is_empty input_id || (MAX_CUSTOM_ID_BYTES <? str_len input_id)
                        || (MAX_MODAL_INPUT_VALUE_BYTES <? str_len value) || contains_zero input_id))
            RequestModalInput;
      total ← ok_or (u64_checked_add payload_bytes (str_len input_id) ≫= λ total, u64_checked_add total (str_len value))
                RequestModalPayload;
      _ ← ensure (negb (MAX_MODAL_PAYLOAD_BYTES <? total)) RequestModalPayload;
      fields ← input_fields total rest;
      Ok (text_field "input_id" input_id ++ text_field "input_value" value ++ fields)
  end.

Definition payload_fields (payload : InteractionRequestPayloadV1)
  : Result InteractionRequestDigestErrorV1 (list (list Z)) :=
  match payload with
  | PayloadButton custom_id =>
      _ ← validate_custom_id custom_id;
      Ok (text_field "kind" "button" ++ text_field "custom_id" custom_id)
  | PayloadModalSubmit custom_id inputs =>
      _ ← validate_custom_id custom_id;
      _ ← ensure (negb ((Z.of_nat (length inputs) =? 0) || (MAX_MODAL_INPUTS <? Z.of_nat (length inputs)))) RequestModalInputCount;
      fields ← input_fields 0 inputs;
      Ok (text_field "kind" "modal_submit" ++ text_field "custom_id" custom_id
          ++ u64_field "input_count" (Z.of_nat (length inputs)) ++ fields)
  end.

Inductive VerifiedInteractionRequestErrorV1 :=
| VerifiedGuildMismatch
| VerifiedRequestDigestMismatch
| VerifiedRequestDigest (e : InteractionRequestDigestErrorV1).

Inductive VerifiedInteractionRequestKindV1 := RequestButton | RequestModalSubmit.

Record VerifiedInteractionRequestV1 := mkVerifiedRequest {
  vr_claim_root : InteractionReceiptClaimRootV1;
  vr_guild_id : Z;
  vr_channel_id : Z;
  vr_actor_id : Z;
  vr_locale : option string;
  vr_custom_id : string;
  vr_inputs : list (string * string);
  vr_kind : VerifiedInteractionRequestKindV1
}.

#[export] Instance VerifiedInteractionRequestKindV1_eq_dec : EqDecision VerifiedInteractionRequestKindV1.
Proof. solve_decision. Defined.

(** What the verified request will say, before it is checked. *)
Definition request_of (root : InteractionReceiptClaimRootV1) (material : InteractionRequestMaterialV1)
  : VerifiedInteractionRequestV1 :=
  match material with
  | MaterialButton guild channel actor locale custom_id =>
      mkVerifiedRequest root guild channel actor locale custom_id [] RequestButton
  | MaterialModalSubmit guild channel actor locale custom_id inputs =>
      mkVerifiedRequest root guild channel actor locale custom_id inputs RequestModalSubmit
  end.

Definition payload_of (request : VerifiedInteractionRequestV1) : InteractionRequestPayloadV1 :=
  match vr_kind request with
  | RequestButton => PayloadButton (vr_custom_id request)
  | RequestModalSubmit => PayloadModalSubmit (vr_custom_id request) (vr_inputs request)
  end.

Section digests.
Context (sha256 : list Z → list Z).

Definition build_interaction_receipt_claim_root_digest_v1 (root : InteractionReceiptClaimRootV1) : string :=
  to_hex (sha256 (frames (CLAIM_ROOT_DIGEST_DOMAIN_V1 :: append_claim_root_v1 root))).

(** The fields the request digest is taken over. *)
Definition request_fields (identity : Z * Z) (guild_id channel_id actor_id : Z) (locale : option string)
    (payload : InteractionRequestPayloadV1) : Result InteractionRequestDigestErrorV1 (list (list Z)) :=
  _ ← ensure (negb ((guild_id =? 0) || (channel_id =? 0) || (actor_id =? 0))) RequestIdentity;
  _ ← validate_locale locale;
  fields ← payload_fields payload;
  Ok (REQUEST_DIGEST_DOMAIN_V1 :: append_receipt_identity_v1 identity ++ u64_field "guild_id" guild_id
      ++ u64_field "channel_id" channel_id ++ u64_field "actor_id" actor_id
      ++ append_optional_field "locale" locale ++ fields).

Definition build_interaction_request_digest_v1 (identity : Z * Z) (guild_id channel_id actor_id : Z)
    (locale : option string) (payload : InteractionRequestPayloadV1)
  : Result InteractionRequestDigestErrorV1 string :=
  fields ← request_fields identity guild_id channel_id actor_id locale payload;
  Ok (to_hex (sha256 (frames fields))).

Definition verify (root : InteractionReceiptClaimRootV1) (material : InteractionRequestMaterialV1)
  : Result VerifiedInteractionRequestErrorV1 VerifiedInteractionRequestV1 :=
  let request := request_of root material in
  _ ← ensure (vr_guild_id request =? target_guild_id (process_target (ib_process_identity (cl_route root))))
        VerifiedGuildMismatch;
  recomputed ← map_err VerifiedRequestDigest
    (build_interaction_request_digest_v1 (cl_identity root) (vr_guild_id request) (vr_channel_id request)
       (vr_actor_id request) (vr_locale request) (payload_of request));
  _ ← ensure (String.eqb recomputed (cl_request_digest root)) VerifiedRequestDigestMismatch;
  Ok request.
End digests.

(** ** Custom ids round trip *)
Definition without (c : ascii) (text : string) : Prop := str_all (λ a, negb (Ascii.eqb a c)) text = true.

Lemma split_on_without c text : without c text → split_on c text = [text].
Proof.
  unfold without. induction text as [|a text IH]; cbn; [done|].
  intros [Ha H]%andb_true_iff. apply negb_true_iff in Ha. by rewrite Ha, IH.
Qed.

Lemma split_on_cons c text rest : without c text →
  split_on c (text +:+ String c rest)%string = text :: split_on c rest.
Proof.
  unfold without. induction text as [|a text IH].
  - intros _. change (EmptyString +:+ String c rest)%string with (String c rest). cbn [split_on]. by rewrite Ascii.eqb_refl.
  - change (String a text +:+ String c rest)%string with (String a (text +:+ String c rest)%string).
    cbn [str_all split_on]. intros [Ha H]%andb_true_iff. apply negb_true_iff in Ha. by rewrite Ha, IH.
Qed.

Lemma split_join c parts : Forall (without c) parts → parts ≠ [] → split_on c (join_on c parts) = parts.
Proof.
  induction 1 as [|part parts H Hs IH]; intros Hne; [done|].
  destruct parts as [|part' parts]; cbn [join_on]; [by apply split_on_without|].
  rewrite split_on_cons by done. f_equal. by apply IH.
Qed.

Lemma split_on_parts c text : Forall (without c) (split_on c text).
Proof.
  unfold without. induction text as [|a text IH]; cbn; [by constructor|].
  destruct (Ascii.eqb a c) eqn:E; [by constructor|].
  destruct (split_on c text) as [|part parts]; cbn.
  - repeat constructor. cbn. by rewrite E.
  - apply Forall_cons in IH as [H IH]. constructor; [|done]. cbn. by rewrite E.
Qed.

Lemma print_digits_without fuel n s : 0 ≤ n → without ":" s → without ":" (print_digits fuel n s).
Proof.
  unfold without. revert n s. induction fuel as [|fuel IH]; intros n s Hn Hs; cbn; [done|].
  assert (Hd : str_all (λ a, negb (Ascii.eqb a ":")) (String (digit_char (n mod 10)) s) = true).
  { cbn [str_all]. rewrite Hs, andb_true_r.
    assert (0 ≤ n mod 10 < 10) as Hm by (apply Z.mod_pos_bound; lia).
    generalize dependent (n mod 10). intros d Hd.
    assert (d = 0 ∨ d = 1 ∨ d = 2 ∨ d = 3 ∨ d = 4 ∨ d = 5 ∨ d = 6 ∨ d = 7 ∨ d = 8 ∨ d = 9) as Hc by lia.
    by repeat destruct Hc as [->|Hc]; subst. }
  destruct (n / 10 =? 0); [done|]. apply IH; [|done]. apply Z.div_pos; lia.
Qed.

Lemma print_u64_without n : u64_valid n → without ":" (print_u64 n).
Proof. intros [Hn _]. unfold print_u64. by apply print_digits_without. Qed.

Lemma print_u64_not_instance n : u64_valid n → print_u64 n ≠ INSTANCE.
Proof. intros H E. apply parse_print_u64 in H. rewrite E in H. by vm_compute in H. Qed.

(** What a component's custom id says. *)
Definition custom_id_of (parsed : ParsedInteractionCustomIdV1) : Result InteractionCustomIdErrorV1 string :=
  match parsed with
  | ParsedComponent guild key ComponentButton component => Ok (encode_interaction_button_custom_id_v1 guild key component)
  | ParsedComponent guild key ComponentModal component => Ok (encode_interaction_modal_custom_id_v1 guild key component)
  | ParsedInstanceAction instance action => encode_interaction_instance_action_custom_id_v1 instance action
  end.

Definition parts_of (parsed : ParsedInteractionCustomIdV1) : list string :=
  match parsed with
  | ParsedComponent _ key _ component => [key; component]
  | ParsedInstanceAction instance action => [instance; action]
  end.

Definition guild_of (parsed : ParsedInteractionCustomIdV1) : Z :=
  match parsed with ParsedComponent guild _ _ _ => guild | ParsedInstanceAction _ _ => 0 end.

Lemma decode_parts custom_id parts : str_len custom_id ≤ MAX_INTERACTION_CUSTOM_ID_BYTES_V1 →
  custom_id = join_on ":" (PREFIX :: parts) → Forall (without ":") parts →
  decode_interaction_custom_id_v1 custom_id =
  if bool_decide (head parts = Some INSTANCE)
  then match parts with [_; instance_id; action] => Ok (ParsedInstanceAction instance_id action)
       | _ => Err CustomIdWrongShape end
  else match parts with
       | [guild; key; kind; component] =>
           guild_id ← ok_or (parse_u64 guild) CustomIdBadGuildId;
           kind ← component_kind kind;
           Ok (ParsedComponent guild_id key kind component)
       | _ => Err CustomIdWrongShape
       end.
Proof.
  intros Hl E Hp. unfold decode_interaction_custom_id_v1. rewrite (proj2 (Z.ltb_ge _ _) Hl). cbn [negb ensure].
  rewrite E, split_join by (done || by constructor). cbn [head].
  rewrite (bool_decide_eq_true_2 (Some PREFIX = Some PREFIX)) by done.
  destruct parts as [|a parts]; cbn; [done|]. by destruct (bool_decide _), parts as [|? [|? [|? [|]]]].
Qed.

Lemma decode_component guild key kind text component :
  let custom_id := join_on ":" [PREFIX; print_u64 guild; key; text; component] in
  u64_valid guild → Forall (without ":") [key; text; component] → component_kind text = Ok kind →
  str_len custom_id ≤ MAX_INTERACTION_CUSTOM_ID_BYTES_V1 →
  decode_interaction_custom_id_v1 custom_id = Ok (ParsedComponent guild key kind component).
Proof.
  intros custom_id Hu Hp Hk Hl.
  rewrite (decode_parts _ [print_u64 guild; key; text; component] Hl eq_refl)
    by (constructor; [by apply print_u64_without|done]).
  rewrite bool_decide_eq_false_2 by (intros [= E]; by apply (print_u64_not_instance _ Hu)).
  rewrite parse_print_u64 by done. cbn. by rewrite Hk.
Qed.

(** C38: ids that Discord accepts come back as they were encoded, whatever the kind of component, as long as
    the names inside hold no colon. *)
Theorem custom_ids_round_trip parsed custom_id :
  Forall (without ":") (parts_of parsed) → u64_valid (guild_of parsed) →
  custom_id_of parsed = Ok custom_id → str_len custom_id ≤ MAX_INTERACTION_CUSTOM_ID_BYTES_V1 →
  decode_interaction_custom_id_v1 custom_id = Ok parsed.
Proof.
  intros Hp Hu Hc Hl.
  destruct parsed as [g k [] b|i a]; cbn [parts_of guild_of custom_id_of] in *; inversion_clear Hp as [|?? H1 Hp'];
    inversion_clear Hp' as [|?? H2 _].
  1-2: injection Hc as <-; by apply decode_component; [|repeat constructor| |].
  unfold encode_interaction_instance_action_custom_id_v1 in Hc.
  apply bind_Ok_inv in Hc as (_ & _ & [= <-]).
  rewrite (decode_parts _ [INSTANCE; i; a] Hl eq_refl) by (by repeat constructor). by rewrite bool_decide_eq_true_2.
Qed.

Lemma custom_ids_round_trip_witness :
  decode_interaction_custom_id_v1 "starring:107:studyroom:button:join"
  = Ok (ParsedComponent 107 "studyroom" ComponentButton "join").
Proof.
  apply (custom_ids_round_trip (ParsedComponent 107 "studyroom" ComponentButton "join"));
    [by repeat constructor|by vm_compute|reflexivity|by vm_compute].
Defined.

(** ** What the digests commit to *)
Definition material_ids (material : InteractionRequestMaterialV1) : list Z :=
  match material with
  | MaterialButton guild channel actor _ _ | MaterialModalSubmit guild channel actor _ _ _ => [guild; channel; actor]
  end.

(** The ids are [u64]s. *)
Definition request_typed (identity : Z * Z) (material : InteractionRequestMaterialV1) : Prop :=
  Forall u64_valid (identity.1 :: identity.2 :: material_ids material).

(** [injection] would compute the fields. *)
Lemma Ok_inv {E A} (x y : A) : Ok (E := E) x = Ok y → x = y.
Proof. by intros [= ->]. Qed.

Lemma fits_short n text : str_len text ≤ n → n < 2 ^ 64 → fits (str_bytes text).
Proof. intros. apply fits_str. lia. Qed.

Lemma field_fits name value : fits (str_bytes name) → fits value → Forall fits (field name value).
Proof. by repeat constructor. Qed.

Lemma custom_id_fits custom_id u : validate_custom_id custom_id = Ok u → fits (str_bytes custom_id).
Proof.
  intros H%ensure_Ok_inv. apply negb_true_iff in H. rewrite !orb_false_iff in H. destruct H as [[_ H] _].
  apply Z.ltb_ge in H. by apply (fits_short MAX_CUSTOM_ID_BYTES).
Qed.

Lemma locale_fits locale u : validate_locale locale = Ok u → Forall fits (append_optional_field "locale" locale).
Proof.
  intros H%ensure_Ok_inv. destruct locale as [text|]; cbn in H |- *; [|by repeat constructor].
  apply negb_true_iff in H. rewrite !orb_false_iff in H. destruct H as [[_ H] _]. apply Z.ltb_ge in H.
  repeat constructor; try done. by apply (fits_short MAX_LOCALE_BYTES).
Qed.

Lemma input_fields_fit total inputs fields : input_fields total inputs = Ok fields → Forall fits fields.
Proof.
  revert total fields. induction inputs as [|[id value] inputs IH]; intros total fields; cbn [input_fields]; [intros [= <-]; done|].
  intros (_ & H%ensure_Ok_inv & (total' & _ & (_ & _ & (rest & Hr & [= <-])%bind_Ok_inv)%bind_Ok_inv)%bind_Ok_inv)%bind_Ok_inv.
  apply negb_true_iff in H. rewrite !orb_false_iff in H. destruct H as [[[_ Hi] Hv] _]. apply Z.ltb_ge in Hi, Hv.
  repeat constructor; try done; [by apply (fits_short MAX_CUSTOM_ID_BYTES)|
    by apply (fits_short MAX_MODAL_INPUT_VALUE_BYTES)|by eapply IH].
Qed.

Lemma payload_fields_fit payload fields : payload_fields payload = Ok fields → Forall fits fields.
Proof.
  destruct payload as [custom_id|custom_id inputs]; cbn [payload_fields].
  - intros (u & H%custom_id_fits & <-%Ok_inv)%bind_Ok_inv. by apply Forall_app; split; apply field_fits.
  - intros (u & H%custom_id_fits & (_ & _ & (fs & Hf%input_fields_fit & <-%Ok_inv)%bind_Ok_inv)%bind_Ok_inv)%bind_Ok_inv.
    apply Forall_app. split; [by apply field_fits|]. apply Forall_app. split; [by apply field_fits|].
    apply Forall_app. split; [|done]. by apply field_fits.
Qed.

Lemma field_inj name name' value value' rest rest' :
  field name value ++ rest = field name' value' ++ rest' → name = name' ∧ value = value' ∧ rest = rest'.
Proof. intros E. unfold field in E. cbn [app] in E. field E En. field E Ev. by apply str_bytes_inj in En. Qed.

Lemma text_field_inj name name' value value' rest rest' :
  text_field name value ++ rest = text_field name' value' ++ rest' → value = value' ∧ rest = rest'.
Proof. by intros (_ & ->%str_bytes_inj & ->)%field_inj. Qed.

Lemma u64_field_inj name name' value value' rest rest' : u64_valid value → u64_valid value' →
  u64_field name value ++ rest = u64_field name' value' ++ rest' → value = value' ∧ rest = rest'.
Proof. intros ?? (_ & ->%u64_bytes_inj & ->)%field_inj; done. Qed.

Lemma optional_field_inj name value value' rest rest' :
  append_optional_field name value ++ rest = append_optional_field name value' ++ rest' → value = value' ∧ rest = rest'.
Proof.
  destruct value as [v|], value' as [v'|]; cbn [append_optional_field]; rewrite <- ?app_assoc; intros [E1 E]%text_field_inj;
    try discriminate E1; [|done]. by apply text_field_inj in E as [-> ->].
Qed.

Lemma input_fields_inj total total' inputs inputs' fields :
  input_fields total inputs = Ok fields → input_fields total' inputs' = Ok fields → inputs = inputs'.
Proof.
  revert total total' inputs' fields.
  induction inputs as [|[i v] inputs IH]; intros total total' [|[i' v'] inputs'] fields; cbn [input_fields]; [done| | |].
  1: intros <-%Ok_inv. 2: intros H <-%Ok_inv; revert H.
  1-2: intros (_ & _ & (? & _ & (_ & _ & (rest & _ & E)%bind_Ok_inv)%bind_Ok_inv)%bind_Ok_inv)%bind_Ok_inv;
       discriminate E.
  intros (_ & _ & (? & _ & (_ & _ & (rest & Hr & <-%Ok_inv)%bind_Ok_inv)%bind_Ok_inv)%bind_Ok_inv)%bind_Ok_inv.
  intros (_ & _ & (? & _ & (_ & _ & (rest' & Hr' & E%Ok_inv)%bind_Ok_inv)%bind_Ok_inv)%bind_Ok_inv)%bind_Ok_inv.
  apply text_field_inj in E as [-> E]. apply text_field_inj in E as [-> E]. f_equal. subst. by eapply IH.
Qed.

Lemma payload_fields_inj payload payload' fields :
  payload_fields payload = Ok fields → payload_fields payload' = Ok fields → payload = payload'.
Proof.
  destruct payload as [c|c inputs], payload' as [c'|c' inputs']; cbn [payload_fields].
  - intros (_ & _ & <-%Ok_inv)%bind_Ok_inv (_ & _ & E%Ok_inv)%bind_Ok_inv.
    apply text_field_inj in E as [_ E]. apply field_inv in E as [_ E]. apply field_inv in E as [E _].
    by apply str_bytes_inj in E as ->.
  - intros (_ & _ & <-%Ok_inv)%bind_Ok_inv (_ & _ & (_ & _ & (? & _ & E%Ok_inv)%bind_Ok_inv)%bind_Ok_inv)%bind_Ok_inv.
    by apply text_field_inj in E as [E _].
  - intros (_ & _ & (_ & _ & (? & _ & <-%Ok_inv)%bind_Ok_inv)%bind_Ok_inv)%bind_Ok_inv (_ & _ & E%Ok_inv)%bind_Ok_inv.
    by apply text_field_inj in E as [E _].
  - intros (_ & _ & (_ & _ & (fs & H & <-%Ok_inv)%bind_Ok_inv)%bind_Ok_inv)%bind_Ok_inv.
    intros (_ & _ & (_ & _ & (fs' & H' & E%Ok_inv)%bind_Ok_inv)%bind_Ok_inv)%bind_Ok_inv.
    apply text_field_inj in E as [_ E]. apply text_field_inj in E as [-> E]. apply field_inj in E as (_ & _ & ->).
    f_equal. by eapply input_fields_inj.
Qed.

Lemma request_fields_fit identity g c a locale payload fields :
  request_fields identity g c a locale payload = Ok fields → Forall fits fields.
Proof.
  intros (_ & _ & (u & Hl%locale_fits & (fs & Hf%payload_fields_fit & <-%Ok_inv)%bind_Ok_inv)%bind_Ok_inv)%bind_Ok_inv.
  constructor; [done|]. unfold append_receipt_identity_v1, u64_field.
  rewrite !Forall_app; repeat split; try done; apply field_fits; done || by apply fits_be_bytes.
Qed.

Lemma request_fields_inj identity identity' g g' c c' a a' locale locale' payload payload' fields :
  Forall u64_valid [identity.1; identity.2; g; c; a] → Forall u64_valid [identity'.1; identity'.2; g'; c'; a'] →
  request_fields identity g c a locale payload = Ok fields →
  request_fields identity' g' c' a' locale' payload' = Ok fields →
  identity = identity' ∧ g = g' ∧ c = c' ∧ a = a' ∧ locale = locale' ∧ payload = payload'.
Proof.
  rewrite !Forall_cons. intros (V1 & V2 & V3 & V4 & V5 & _) (W1 & W2 & W3 & W4 & W5 & _).
  intros (_ & _ & (u & _ & (fs & H & <-%Ok_inv)%bind_Ok_inv)%bind_Ok_inv)%bind_Ok_inv.
  intros (_ & _ & (u' & _ & (fs' & H' & E%Ok_inv)%bind_Ok_inv)%bind_Ok_inv)%bind_Ok_inv.
  apply field_inv in E as [_ E]. unfold append_receipt_identity_v1 in E. rewrite <- !app_assoc in E.
  repeat match type of E with u64_field _ _ ++ _ = _ =>
    let Ev := fresh "Ev" in apply u64_field_inj in E as [Ev E]; [|done..] end.
  apply optional_field_inj in E as [-> ->]. destruct identity, identity'; cbn in *; subst.
  repeat split. by eapply payload_fields_inj.
Qed.

(** The widths of what a claim root holds. *)
Definition process_typed (process : RuntimeProcessIdentityV1) : Prop :=
  let target := process_target process in
  Forall u64_valid [target_guild_id target; binding_revision target; process_generation process] ∧
  u32_valid (target_version target) ∧
  Forall short [ruleset_key target; ConvergenceTypes.content_hash target; binding_fingerprint target;
                process_instance_id process].

Definition serving_typed (serving : InteractionServingRouteIdentityV1) : Prop :=
  Forall u64_valid [sv_lease_epoch serving; sv_lease_revision serving; sv_gateway_owner_lease_epoch serving;
                    sv_gateway_owner_revision serving; sv_route_fencing_token serving; sv_route_incarnation serving] ∧
  Forall short [sv_attestation_digest serving; sv_gateway_shard_identity serving; sv_runtime_build_revision serving].

Definition execution_typed (route : InteractionExecutionRouteV1) : Prop :=
  match route with
  | StaticRoute version hash => u32_valid version ∧ short hash
  | InstanceRoute instance version hash manifest => u32_valid version ∧ Forall short [instance; hash; manifest]
  end.

Definition root_typed (root : InteractionReceiptClaimRootV1) : Prop :=
  let route := cl_route root in
  u64_valid (cl_identity root).1 ∧ u64_valid (cl_identity root).2 ∧ short (cl_request_digest root) ∧
  Forall short [ps_tenant_id (ib_scope route); ps_installation_id (ib_scope route); ps_deployment_id (ib_scope route)] ∧
  process_typed (ib_process_identity route) ∧ serving_typed (ib_serving_identity route) ∧
  execution_typed (ib_execution_route route).

Lemma u32_field_inj name name' value value' rest rest' : u32_valid value → u32_valid value' →
  u32_field name value ++ rest = u32_field name' value' ++ rest' → value = value' ∧ rest = rest'.
Proof. intros ?? (_ & ->%be_bytes_inj & ->)%field_inj; [done|unfold u32_valid, u32_max in *; lia..]. Qed.

(** Strips the named fields off two equal encodings. *)
Ltac strip E :=
  rewrite <- ?app_assoc in E;
  repeat first
    [ let Ev := fresh "Ev" in apply text_field_inj in E as [Ev E]
    | let Ev := fresh "Ev" in apply u64_field_inj in E as [Ev E]; [|done..]
    | let Ev := fresh "Ev" in apply u32_field_inj in E as [Ev E]; [|done..] ].

Lemma product_scope_fields_inj scope scope' rest rest' :
  append_product_scope_v1 scope ++ rest = append_product_scope_v1 scope' ++ rest' → scope = scope' ∧ rest = rest'.
Proof. intros E. unfold append_product_scope_v1 in E. strip E. by destruct scope, scope'; cbn in *; subst. Qed.

Lemma process_identity_fields_inj process process' rest rest' : process_typed process → process_typed process' →
  append_process_identity_v1 process ++ rest = append_process_identity_v1 process' ++ rest' →
  process = process' ∧ rest = rest'.
Proof.
  destruct process as [[]], process' as [[]]. unfold process_typed, append_process_identity_v1.
  cbn -[text_field u64_field u32_field app]. rewrite !Forall_cons. intros. destruct_and!.
  match goal with E : _ ++ _ = _ |- _ => strip E end. by subst.
Qed.

Lemma execution_route_fields_inj route route' rest rest' : execution_typed route → execution_typed route' →
  append_execution_route_v1 route ++ rest = append_execution_route_v1 route' ++ rest' → route = route' ∧ rest = rest'.
Proof.
  destruct route, route'; cbn -[text_field u64_field u32_field app]; rewrite ?Forall_cons; intros; destruct_and!;
    match goal with E : _ ++ _ = _ |- _ => strip E end; by subst.
Qed.

Lemma route_binding_fields_inj route route' rest rest' :
  process_typed (ib_process_identity route) → process_typed (ib_process_identity route') →
  serving_typed (ib_serving_identity route) → serving_typed (ib_serving_identity route') →
  execution_typed (ib_execution_route route) → execution_typed (ib_execution_route route') →
  append_route_binding_v1 route ++ rest = append_route_binding_v1 route' ++ rest' → route = route' ∧ rest = rest'.
Proof.
  destruct route as [sc p [? ? ? [] ? ?] x], route' as [sc' p' [? ? ? [] ? ?] x']. unfold append_route_binding_v1, serving_typed.
  cbn -[text_field u64_field u32_field app process_typed append_product_scope_v1 append_process_identity_v1
        append_execution_route_v1 execution_typed].
  rewrite !Forall_cons. intros P P' S S' X X' E. destruct_and!. rewrite <- !app_assoc in E.
  apply product_scope_fields_inj in E as [-> E]. apply process_identity_fields_inj in E as [-> E]; [|done..].
  strip E. apply execution_route_fields_inj in E as [-> ->]; [|done..]. by subst.
Qed.

Lemma text_field_fits name value : short name → short value → Forall fits (text_field name value).
Proof. intros. by apply field_fits; apply fits_str. Qed.

Lemma number_field_fits name n value : short name → (n ≤ 8)%nat → Forall fits (field name (be_bytes n value)).
Proof. intros. by apply field_fits; [apply fits_str|apply fits_be_bytes]. Qed.

(** Every named field of well-typed values fits its frame. *)
Ltac fields_fit :=
  rewrite ?Forall_app; repeat split;
  first [by apply text_field_fits|by (apply number_field_fits; [|lia])].

Lemma claim_root_fields_fit root : root_typed root → Forall fits (CLAIM_ROOT_DIGEST_DOMAIN_V1 :: append_claim_root_v1 root).
Proof.
  destruct root as [[] [[] [[]] [? ? ? [] ? ?] x] d].
  unfold root_typed, process_typed, serving_typed, append_claim_root_v1, append_receipt_identity_v1,
    append_route_binding_v1, append_product_scope_v1, append_process_identity_v1.
  cbn -[text_field u64_field u32_field app append_execution_route_v1 execution_typed CLAIM_ROOT_DIGEST_DOMAIN_V1].
  rewrite !Forall_cons. intros. destruct_and!. split; [done|].
  assert (Forall fits (append_execution_route_v1 x)).
  { destruct x; cbn -[text_field u64_field u32_field app] in *; rewrite ?Forall_cons in *; destruct_and!; fields_fit. }
  rewrite !Forall_app; repeat split; try done; fields_fit.
Qed.

Section commits.
Context (sha256 : list Z → list Z).
Hypothesis Hsha : sha_bytes sha256.

(** The fields that the digest of a request is taken of. *)
Definition request_preimage (root : InteractionReceiptClaimRootV1) (material : InteractionRequestMaterialV1)
  : Result InteractionRequestDigestErrorV1 (list (list Z)) :=
  let request := request_of root material in
  request_fields (cl_identity root) (vr_guild_id request) (vr_channel_id request) (vr_actor_id request)
    (vr_locale request) (payload_of request).

Lemma verify_Ok_inv root material request : verify sha256 root material = Ok request →
  request = request_of root material ∧
  vr_guild_id request = target_guild_id (process_target (ib_process_identity (cl_route root))) ∧
  ∃ fields, request_fields (cl_identity root) (vr_guild_id request) (vr_channel_id request) (vr_actor_id request)
              (vr_locale request) (payload_of request) = Ok fields ∧
            cl_request_digest root = to_hex (sha256 (frames fields)).
Proof.
  unfold verify. intros (_ & Hg%ensure_Ok_inv & (digest & Hd & (_ & He%ensure_Ok_inv & <-%Ok_inv)%bind_Ok_inv)
    %bind_Ok_inv)%bind_Ok_inv. apply Z.eqb_eq in Hg. apply String.eqb_eq in He as <-.
  split; [done|]. split; [done|].
  unfold build_interaction_request_digest_v1, mbind, Result_bind, map_err in Hd.
  destruct (request_fields _ _ _ _ _ _) as [fields|]; [|done]. exists fields. by apply Ok_inv in Hd as <-.
Qed.

Lemma request_of_inj root root' material material' :
  let r := request_of root material in let r' := request_of root' material' in
  vr_guild_id r = vr_guild_id r' → vr_channel_id r = vr_channel_id r' → vr_actor_id r = vr_actor_id r' →
  vr_locale r = vr_locale r' → payload_of r = payload_of r' → material = material'.
Proof. destruct material, material'; cbn; intros; simplify_eq; done. Qed.

(** C37: a verified request speaks for its receipt: two requests verified against receipts that recorded the
    same digest are of the same interaction and of the very same material — guild, channel, actor, locale,
    component and every modal input — or else the two framed requests that were hashed are themselves two
    different inputs on which SHA-256 collides. *)
Theorem verified_requests_are_bound root root' material material' request request' :
  request_typed (cl_identity root) material → request_typed (cl_identity root') material' →
  verify sha256 root material = Ok request → verify sha256 root' material' = Ok request' →
  cl_request_digest root = cl_request_digest root' →
  (cl_identity root = cl_identity root' ∧ material = material') ∨
  ∃ fields fields', request_preimage root material = Ok fields ∧ request_preimage root' material' = Ok fields' ∧
    sha_collision sha256 (frames fields) (frames fields').
Proof.
  intros T T' (-> & _ & fs & Hf & Hd)%verify_Ok_inv (-> & _ & fs' & Hf' & Hd')%verify_Ok_inv E.
  rewrite Hd, Hd' in E. apply framed_digest_inj in E as [<-|Hcol]; [left|right; by exists fs, fs'|done|by eapply request_fields_fit..].
  edestruct request_fields_inj as (Hi & Hg & Hc & Ha & Hl & Hp); [| |exact Hf|exact Hf'|].
  1-2: unfold request_typed in *; by destruct material, material'.
  split; [done|]. by eapply request_of_inj.
Qed.

(** The claim root digest commits to the complete receipt claim: product scope, process identity,
    static or instance pins, serving and gateway fences, receipt identity and request digest. *)
Theorem claim_root_digest_commits root root' : root_typed root → root_typed root' →
  build_interaction_receipt_claim_root_digest_v1 sha256 root = build_interaction_receipt_claim_root_digest_v1 sha256 root' →
  root = root' ∨
  sha_collision sha256 (frames (CLAIM_ROOT_DIGEST_DOMAIN_V1 :: append_claim_root_v1 root))
    (frames (CLAIM_ROOT_DIGEST_DOMAIN_V1 :: append_claim_root_v1 root')).
Proof.
  intros T T' E. apply framed_digest_inj in E as [E|]; [left|by right|done|by apply claim_root_fields_fit..].
  apply field_inv in E as [_ E]. unfold append_claim_root_v1, append_receipt_identity_v1 in E. rewrite <- !app_assoc in E.
  destruct root as [[i j] route d], root' as [[i' j'] route' d'].
  destruct T as (? & ? & ? & ? & ? & ? & ?), T' as (? & ? & ? & ? & ? & ? & ?).
  cbn [cl_identity cl_route cl_request_digest fst snd] in *.
  do 2 (let Ev := fresh "Ev" in apply u64_field_inj in E as [Ev E]; [|done..]).
  apply route_binding_fields_inj in E as [-> E]; [|done..].
  rewrite <- (app_nil_r (text_field _ d)), <- (app_nil_r (text_field _ d')) in E.
  apply text_field_inj in E as [-> _]. by subst.
Qed.
End commits.
