(* ===== verification/StatefulEvent.v ===== *)
(** * Stateful events

    Crate [automation-stateful-runtime]: [event.rs]. A verified interaction request becomes an
    event envelope for one compiled bundle: the publication has to name the very bundle, the
    route has to serve its rules, and the custom id of the component says which trigger fires.
    Digests of the bundle are bytes, as the compiler has them, and hexadecimal text in an
    envelope. SHA-256, the encoders and the canonical JSON of a spec are parameters. *)

From Stdlib Require Import ZArith Lia Ascii String.
From stdpp Require Import base decidable list strings gmap sets fin_sets numbers relations.
From S2P Require Import Prelude RustStd RustText DiscordModel AutomationValidate ConvergenceTypes RuleSet RuleSetSpec SpecModel SpecValidate SpecCompile ApprovalBinding.
From S2P Require Import StatefulModel StatefulValidate StatefulEval StatefulStore StatefulCompile Interaction.
Open Scope string_scope.
Open Scope list_scope.
Open Scope Z_scope.

Definition EVENT_ENVELOPE_SCHEMA_VERSION_V1 : Z := 1.
Definition EVENT_ENVELOPE_KIND_V1 : string := "starring.stateful-event-envelope.v1".
Definition EVENT_ENVELOPE_DOMAIN_V1 : list Z := domain_bytes "starring.stateful_event_envelope.v1".

Definition valid_digest (value : string) : bool := (str_len value =? 64) && str_all is_lower_hex value.

Inductive StatefulProgramIdentityErrorV1 := InvalidLegacyRuleSet | PublicationMismatch.

(** ** Identities *)
Record LegacyRuleSetIdentityV1 := mkLegacyRuleSet {
  lr_key : string;
  lr_version : Z;
  lr_content_hash : string
}.

(** [LegacyRuleSetIdentityV1::new]. *)
Definition legacy_ruleset_new (key : string) (version : Z) (content_hash : string)
  : Result StatefulProgramIdentityErrorV1 LegacyRuleSetIdentityV1 :=
  _ ← ensure (negb (negb (valid_identifier key) || (version =? 0) || negb (valid_digest content_hash)))
        InvalidLegacyRuleSet;
  Ok (mkLegacyRuleSet key version content_hash).

Record StatefulProgramIdentityV1 := mkProgramIdentity {
  pi_program_key : string;
  pi_source_spec_digest : list Z;
  pi_bundle_digest : string;
  pi_compilation_binding_digest : string;
  pi_union_source_map_digest : string;
  pi_stateful_artifact_digest : string;
  pi_state_schema_digest : string;
  pi_compiler_revision : Z;
  pi_evaluator_revision : Z;
  pi_filtered_legacy_ruleset : LegacyRuleSetIdentityV1
}.

Record StatefulBundlePublicationBindingV1 := mkPublication {
  pu_bundle_digest : string;
  pu_compilation_binding_digest : string;
  pu_union_source_map_digest : string;
  pu_source_spec_digest : string;
  pu_stateful_artifact_digest : string;
  pu_state_schema_digest : string;
  pu_program_key : string;
  pu_execution_ruleset_version : Z;
  pu_filtered_legacy_content_hash : string;
  pu_claim_root_digest : string
}.

Record EventEnvelopeScopeV1 := mkEventScope {
  es_tenant_id : string;
  es_installation_id : string;
  es_deployment_id : string;
  es_guild_id : Z;
  es_channel_id : Z;
  es_actor_user_id : Z;
  es_instance_id : option string;
  es_instance_manifest_digest : option string
}.

Record EventEnvelopeRouteV1 := mkEventRoute {
  er_active_ruleset_key : string;
  er_active_ruleset_version : Z;
  er_active_ruleset_content_hash : string;
  er_execution_ruleset_version : Z;
  er_execution_ruleset_content_hash : string;
  er_binding_revision : Z;
  er_binding_fingerprint : string;
  er_runtime_generation : Z;
  er_process_instance_id : string;
  er_route_attestation_digest : string;
  er_serving_lease_epoch : Z;
  er_serving_lease_revision : Z;
  er_gateway_shard_identity : string;
  er_gateway_owner_lease_epoch : Z;
  er_gateway_owner_revision : Z;
  er_runtime_build_revision : string;
  er_route_fencing_token : Z;
  er_route_incarnation : Z
}.

Record EventEnvelopeV1 := mkEnvelope {
  ev_schema_version : Z;
  ev_kind : string;
  ev_receipt_identity : Z * Z;
  ev_request_digest : string;
  ev_claim_root_digest : string;
  ev_program : StatefulProgramIdentityV1;
  ev_route : EventEnvelopeRouteV1;
  ev_scope : EventEnvelopeScopeV1;
  ev_trigger : TriggerV1;
  ev_normalized_inputs : list (string * string)
}.

(** [OutboxDispatchAuthorityV1::from_envelope]. *)
Definition authority_from_envelope (envelope : EventEnvelopeV1) : OutboxDispatchAuthorityV1 :=
  let route := ev_route envelope in
  mkDispatchAuthority (er_process_instance_id route) (er_gateway_shard_identity route)
    (er_gateway_owner_lease_epoch route) (er_gateway_owner_revision route) (er_runtime_build_revision route)
    (er_serving_lease_epoch route) (er_serving_lease_revision route) (er_route_fencing_token route)
    (er_route_incarnation route).

Inductive EventEnvelopeErrorV1 :=
| EnvelopeProgramIdentity
| EnvelopeRouteMismatch
| EnvelopeInvalidEvent (e : StatefulEventNormalizationErrorV1)
| EnvelopePublicationAuthorityMismatch.

(** ** Which program *)
Definition same_digest (text : string) (digest : list Z) : bool := String.eqb text (to_hex digest).

(** [StatefulProgramIdentityV1::from_compiled_bundle]. *)
Definition program_from_compiled_bundle (bundle : CompiledStatefulBundleV1)
    (publication : StatefulBundlePublicationBindingV1)
  : Result StatefulProgramIdentityErrorV1 StatefulProgramIdentityV1 :=
  let source := si_digest (sa_source (bu_stateful_artifact bundle)) in
  _ ← ensure (same_digest (pu_bundle_digest publication) (bu_bundle_digest bundle)
              && same_digest (pu_compilation_binding_digest publication) (bu_binding_digest bundle)
              && same_digest (pu_union_source_map_digest publication) (bu_union_source_map_digest bundle)
              && same_digest (pu_source_spec_digest publication) source
              && same_digest (pu_stateful_artifact_digest publication) (bu_stateful_artifact_digest bundle)
              && same_digest (pu_state_schema_digest publication) (bu_state_schema_digest bundle)
              && String.eqb (pu_program_key publication) (sa_program_key (bu_stateful_artifact bundle))
              && same_digest (pu_filtered_legacy_content_hash publication)
                   (ri_content_hash (bu_filtered_legacy_target bundle))) PublicationMismatch;
  Ok (mkProgramIdentity (sa_program_key (bu_stateful_artifact bundle)) source (to_hex (bu_bundle_digest bundle))
        (to_hex (bu_binding_digest bundle)) (to_hex (bu_union_source_map_digest bundle))
        (to_hex (bu_stateful_artifact_digest bundle)) (to_hex (bu_state_schema_digest bundle))
        STATEFUL_ARTIFACT_COMPILER_REVISION_V1 STATEFUL_EVALUATOR_REVISION_V1
        (mkLegacyRuleSet (pu_program_key publication) (pu_execution_ruleset_version publication)
           (pu_filtered_legacy_content_hash publication))).

Definition execution_pins (route : InteractionExecutionRouteV1) : Z * string :=
  match route with
  | StaticRoute version hash => (version, hash)
  | InstanceRoute _ version hash _ => (version, hash)
  end.

Record VerifiedLegacyRouteProjectionV1 := mkRouteProjection {
  rp_program_key : string;
  rp_execution_ruleset_version : Z;
  rp_filtered_legacy_content_hash : string;
  rp_claim_root_digest : string
}.

(** The trigger a component's custom id names, on the route that serves it. *)
Definition derive_trigger (verified : VerifiedInteractionRequestV1) (route_guild_id : Z) (route_ruleset_key : string)
    (route_instance_id : option string) : Result EventEnvelopeErrorV1 TriggerV1 :=
  parsed ← map_err (λ _, EnvelopeRouteMismatch) (decode_interaction_custom_id_v1 (vr_custom_id verified));
  match route_instance_id, parsed with
  | None, ParsedComponent guild_id ruleset_key kind key =>
      _ ← ensure ((guild_id =? route_guild_id) && String.eqb ruleset_key route_ruleset_key && valid_identifier key)
            EnvelopeRouteMismatch;
      match kind, vr_kind verified with
      | ComponentButton, RequestButton => Ok (ButtonClickV1 key)
      | ComponentModal, RequestModalSubmit => Ok (ModalSubmitV1 key)
      | _, _ => Err EnvelopeRouteMismatch
      end
  | Some expected_instance, ParsedInstanceAction instance_id action_id =>
      _ ← ensure (bool_decide (vr_kind verified = RequestButton) && String.eqb instance_id expected_instance
                  && valid_identifier action_id) EnvelopeRouteMismatch;
      Ok (InstanceActionV1 action_id)
  | _, _ => Err EnvelopeRouteMismatch
  end.

Definition append_optional_string (value : option string) : list Z :=
  match value with Some value => 1 :: append_string value | None => [0] end.

Definition append_trigger (trigger : TriggerV1) : list Z :=
  match trigger with
  | ButtonClickV1 trigger_id => 0 :: append_string trigger_id
  | ModalSubmitV1 modal_id => 1 :: append_string modal_id
  | InstanceActionV1 action_id => 2 :: append_string action_id
  end.

Definition append_program (program : StatefulProgramIdentityV1) : list Z :=
  let legacy := pi_filtered_legacy_ruleset program in
  append_string (pi_program_key program) ++ append_string (to_hex (pi_source_spec_digest program))
  ++ append_string (pi_bundle_digest program) ++ append_string (pi_compilation_binding_digest program)
  ++ append_string (pi_union_source_map_digest program) ++ append_string (pi_stateful_artifact_digest program)
  ++ append_string (pi_state_schema_digest program) ++ be_bytes 4 (pi_compiler_revision program)
  ++ be_bytes 4 (pi_evaluator_revision program) ++ append_string (lr_key legacy) ++ be_bytes 4 (lr_version legacy)
  ++ append_string (lr_content_hash legacy).

Definition append_route (route : EventEnvelopeRouteV1) : list Z :=
  append_string (er_active_ruleset_key route) ++ be_bytes 4 (er_active_ruleset_version route)
  ++ append_string (er_active_ruleset_content_hash route) ++ be_bytes 4 (er_execution_ruleset_version route)
  ++ append_string (er_execution_ruleset_content_hash route) ++ be_bytes 8 (er_binding_revision route)
  ++ append_string (er_binding_fingerprint route) ++ be_bytes 8 (er_runtime_generation route)
  ++ append_string (er_process_instance_id route) ++ append_string (er_route_attestation_digest route)
  ++ be_bytes 8 (er_serving_lease_epoch route) ++ be_bytes 8 (er_serving_lease_revision route)
  ++ append_string (er_gateway_shard_identity route) ++ be_bytes 8 (er_gateway_owner_lease_epoch route)
  ++ be_bytes 8 (er_gateway_owner_revision route) ++ append_string (er_runtime_build_revision route)
  ++ be_bytes 8 (er_route_fencing_token route) ++ be_bytes 8 (er_route_incarnation route).

Definition append_scope (scope : EventEnvelopeScopeV1) : list Z :=
  append_string (es_tenant_id scope) ++ append_string (es_installation_id scope)
  ++ append_string (es_deployment_id scope) ++ be_bytes 8 (es_guild_id scope) ++ be_bytes 8 (es_channel_id scope)
  ++ be_bytes 8 (es_actor_user_id scope) ++ append_optional_string (es_instance_id scope)
  ++ append_optional_string (es_instance_manifest_digest scope).

Definition append_input (input : string * string) : list Z := append_string input.1 ++ append_string input.2.

Section events.
Context (encoded_len : StatefulSpecV1 → option Z) (view_encoded_len : AutomationSpecV1 → option Z).
Context (debug_validation_error : ValidationError → string).
Context (spec_json : StatefulSpecV1 → option (list Z)) (sha256 : list Z → list Z).

Definition verified_legacy_route_projection (bundle : CompiledStatefulBundleV1) (verified : VerifiedInteractionRequestV1)
  : Result EventEnvelopeErrorV1 VerifiedLegacyRouteProjectionV1 :=
  let authoritative := cl_route (vr_claim_root verified) in
  let target := process_target (ib_process_identity authoritative) in
  let bundle_target := bu_filtered_legacy_target bundle in
  _ ← ensure (String.eqb (ruleset_key target) (ri_ruleset_key bundle_target)
              && String.eqb (sa_program_key (bu_stateful_artifact bundle)) (ri_ruleset_key bundle_target))
        EnvelopeRouteMismatch;
  let '(version, content_hash) := execution_pins (ib_execution_route authoritative) in
  _ ← ensure (same_digest content_hash (ri_content_hash bundle_target)) EnvelopeRouteMismatch;
  Ok (mkRouteProjection (ri_ruleset_key bundle_target) version content_hash
        (build_interaction_receipt_claim_root_digest_v1 sha256 (vr_claim_root verified))).

Definition from_program_and_verified_request (spec : StatefulSpecV1) (program : StatefulProgramIdentityV1)
    (verified : VerifiedInteractionRequestV1) : Result EventEnvelopeErrorV1 EventEnvelopeV1 :=
  expected_spec_digest ← map_err (λ _, EnvelopeProgramIdentity)
    (stateful_spec_digest_v1 encoded_len view_encoded_len debug_validation_error spec_json sha256 spec);
  _ ← ensure (String.eqb (pi_program_key program) (ss_key spec)
              && bool_decide (pi_source_spec_digest program = expected_spec_digest)) EnvelopeProgramIdentity;
  let claim_root := vr_claim_root verified in
  let authoritative := cl_route claim_root in
  let product_scope := ib_scope authoritative in
  let process := ib_process_identity authoritative in
  let target := process_target process in
  _ ← ensure (String.eqb (ruleset_key target) (pi_program_key program)) EnvelopeRouteMismatch;
  let '(execution_version, execution_hash) := execution_pins (ib_execution_route authoritative) in
  let '(instance_id, instance_manifest_digest) :=
    match ib_execution_route authoritative with
    | StaticRoute _ _ => (None, None)
    | InstanceRoute instance_id _ _ manifest => (Some instance_id, Some manifest)
    end in
  let legacy := pi_filtered_legacy_ruleset program in
  _ ← ensure (String.eqb (lr_key legacy) (ruleset_key target) && (lr_version legacy =? execution_version)
              && String.eqb (lr_content_hash legacy) execution_hash) EnvelopeRouteMismatch;
  trigger ← derive_trigger verified (target_guild_id target) (ruleset_key target) instance_id;
  normalized_inputs ← map_err EnvelopeInvalidEvent
    (normalize_stateful_event_inputs_v1 encoded_len view_encoded_len debug_validation_error spec trigger
       (vr_inputs verified));
  let serving := ib_serving_identity authoritative in
  Ok (mkEnvelope EVENT_ENVELOPE_SCHEMA_VERSION_V1 EVENT_ENVELOPE_KIND_V1 (cl_identity claim_root)
        (cl_request_digest claim_root) (build_interaction_receipt_claim_root_digest_v1 sha256 claim_root) program
        (mkEventRoute (ruleset_key target) (target_version target) (ConvergenceTypes.content_hash target)
           execution_version execution_hash (binding_revision target) (binding_fingerprint target)
           (process_generation process) (process_instance_id process) (sv_attestation_digest serving)
           (sv_lease_epoch serving) (sv_lease_revision serving) (sv_gateway_shard_identity serving)
           (sv_gateway_owner_lease_epoch serving) (sv_gateway_owner_revision serving)
           (sv_runtime_build_revision serving) (sv_route_fencing_token serving) (sv_route_incarnation serving))
        (mkEventScope (ps_tenant_id product_scope) (ps_installation_id product_scope)
           (ps_deployment_id product_scope) (vr_guild_id verified) (vr_channel_id verified) (vr_actor_id verified)
           instance_id instance_manifest_digest)
        trigger normalized_inputs).

(** [EventEnvelopeV1::from_compiled_bundle]. *)
Definition envelope_from_compiled_bundle (bundle : CompiledStatefulBundleV1)
    (publication : StatefulBundlePublicationBindingV1) (verified : VerifiedInteractionRequestV1)
  : Result EventEnvelopeErrorV1 EventEnvelopeV1 :=
  route_projection ← verified_legacy_route_projection bundle verified;
  _ ← ensure (same_digest (pu_bundle_digest publication) (bu_bundle_digest bundle)
              && same_digest (pu_compilation_binding_digest publication) (bu_binding_digest bundle)
              && same_digest (pu_union_source_map_digest publication) (bu_union_source_map_digest bundle)
              && same_digest (pu_source_spec_digest publication) (si_digest (sa_source (bu_stateful_artifact bundle)))
              && same_digest (pu_stateful_artifact_digest publication) (bu_stateful_artifact_digest bundle)
              && same_digest (pu_state_schema_digest publication) (bu_state_schema_digest bundle)
              && String.eqb (pu_program_key publication) (rp_program_key route_projection)
              && (pu_execution_ruleset_version publication =? rp_execution_ruleset_version route_projection)
              && String.eqb (pu_filtered_legacy_content_hash publication)
                   (rp_filtered_legacy_content_hash route_projection)
              && String.eqb (pu_claim_root_digest publication) (rp_claim_root_digest route_projection))
        EnvelopePublicationAuthorityMismatch;
  program ← map_err (λ _, EnvelopeProgramIdentity) (program_from_compiled_bundle bundle publication);
  envelope ← from_program_and_verified_request (bu_source_spec bundle) program verified;
  _ ← ensure (String.eqb (ev_claim_root_digest envelope) (pu_claim_root_digest publication)) EnvelopeProgramIdentity;
  Ok envelope.

(** What [event_envelope_digest_v1] feeds to the hasher. *)
Definition envelope_bytes (envelope : EventEnvelopeV1) : list Z :=
  EVENT_ENVELOPE_DOMAIN_V1 ++ be_bytes 2 (ev_schema_version envelope) ++ append_string (ev_kind envelope)
  ++ be_bytes 8 (ev_receipt_identity envelope).1 ++ be_bytes 8 (ev_receipt_identity envelope).2
  ++ append_string (ev_request_digest envelope) ++ append_string (ev_claim_root_digest envelope)
  ++ append_program (ev_program envelope) ++ append_route (ev_route envelope) ++ append_scope (ev_scope envelope)
  ++ append_trigger (ev_trigger envelope) ++ append_list append_input (ev_normalized_inputs envelope).

Definition event_envelope_digest_v1 (envelope : EventEnvelopeV1) : string := to_hex (sha256 (envelope_bytes envelope)).
End events.
