(* ===== verification/StatefulPrepare.v ===== *)
(** * Preparing stateful commits

    Crate [automation-stateful-runtime]: [state.rs] (which rows a workflow reads, their keys),
    [evaluator.rs] (an evaluation against one snapshot, checked against the compiled artifact
    and its source map) and [PreparedStatefulCommitV1::prepare] of [digest.rs]. A declaration
    and the dependencies bound to an event carry the names the compiler gives its own. *)

From Stdlib Require Import ZArith Lia Ascii String.
From stdpp Require Import base decidable list strings gmap sets fin_sets numbers relations.
From S2P Require Import Prelude RustStd RustText AutomationValidate RuleSet SpecModel SpecValidate SpecCompile ApprovalBinding.
From S2P Require Import StatefulModel StatefulValidate StatefulEval StatefulStore StatefulCompile StatefulEvent.
Open Scope string_scope.
Open Scope list_scope.
Open Scope Z_scope.

Definition SNAPSHOT_REQUEST_DOMAIN_V1 : list Z := domain_bytes "starring.stateful_snapshot_request.v1".
Definition STATEFUL_SNAPSHOT_DOMAIN_V1 : list Z := domain_bytes "starring.stateful_snapshot.v1".
Definition STATEFUL_EVALUATION_DOMAIN_V1 : list Z := domain_bytes "starring.stateful_evaluation_proof.v1".
Definition STATEFUL_EVALUATION_PROOF_SCHEMA_VERSION_V1 : Z := 1.
Definition STATEFUL_EVALUATION_PROOF_KIND_V1 : string := "starring.prepared-stateful-evaluation.v1".

(** ** Declarations and dependencies of an event *)
Inductive StatefulStateContractErrorV1 :=
| StateInvalidDefinition | StateProgramMismatch | StateWorkflowNotFound | StateInstanceUnavailable | StateReadBound
| StateDuplicateKey | StateDefinitionMismatch | StateInvalidStateAction.

Record CompiledStateVariableV1 := mkDefinition {
  df_program_key : string;
  df_source_spec_digest : string;
  df_state_schema_digest : string;
  df_variable_id : string;
  df_artifact_variable_index : Z;
  df_scope : StateScopeV1;
  df_value_type : StateValueTypeV1;
  df_default_value : StateValueV1;
  df_declaration_digest : string
}.

Record CompiledWorkflowDependenciesV1 := mkWorkflowDependencies {
  wd_envelope_digest : string;
  wd_bundle_digest : string;
  wd_compilation_binding_digest : string;
  wd_union_source_map_digest : string;
  wd_workflow_id : string;
  wd_artifact_workflow_index : Z;
  wd_definitions : list CompiledStateVariableV1
}.

(** What both the state contract and the evaluator compare of the program. *)
Definition program_bound (bundle : CompiledStatefulBundleV1) (program : StatefulProgramIdentityV1) : bool :=
  String.eqb (pi_program_key program) (sa_program_key (bu_stateful_artifact bundle))
  && bool_decide (pi_source_spec_digest program = si_digest (sa_source (bu_stateful_artifact bundle)))
  && same_digest (pi_bundle_digest program) (bu_bundle_digest bundle)
  && same_digest (pi_compilation_binding_digest program) (bu_binding_digest bundle)
  && same_digest (pi_union_source_map_digest program) (bu_union_source_map_digest bundle)
  && same_digest (pi_stateful_artifact_digest program) (bu_stateful_artifact_digest bundle)
  && same_digest (pi_state_schema_digest program) (bu_state_schema_digest bundle).

Definition validate_bundle_program_binding (bundle : CompiledStatefulBundleV1) (envelope : EventEnvelopeV1)
  : Result StatefulStateContractErrorV1 unit :=
  ensure (program_bound bundle (ev_program envelope)
          && (pi_compiler_revision (ev_program envelope) =? STATEFUL_ARTIFACT_COMPILER_REVISION_V1))
    StateProgramMismatch.

Definition from_compiled_bundle_index (bundle : CompiledStatefulBundleV1) (envelope : EventEnvelopeV1) (index : Z)
  : Result StatefulStateContractErrorV1 CompiledStateVariableV1 :=
  let artifact := bu_stateful_artifact bundle in
  _ ← validate_bundle_program_binding bundle envelope;
  variable ← ok_or (cs_variables (sa_state_schema artifact) !! Z.to_nat index) StateInvalidDefinition;
  _ ← ensure (value_satisfies (cv_value_type variable) (cv_initial_value variable)) StateDefinitionMismatch;
  Ok (mkDefinition (sa_program_key artifact) (to_hex (si_digest (sa_source artifact)))
        (to_hex (bu_state_schema_digest bundle)) (cv_id variable) index (cv_scope variable) (cv_value_type variable)
        (cv_initial_value variable) (to_hex (cv_declaration_digest variable))).

Definition is_bound_to (definition : CompiledStateVariableV1) (envelope : EventEnvelopeV1) : bool :=
  let program := ev_program envelope in
  String.eqb (df_program_key definition) (pi_program_key program)
  && String.eqb (df_source_spec_digest definition) (to_hex (pi_source_spec_digest program))
  && String.eqb (df_state_schema_digest definition) (pi_state_schema_digest program).

(** [ResolvedStateKeyV1::from_compiled_definition]. *)
Definition key_from_compiled_definition (envelope : EventEnvelopeV1) (definition : CompiledStateVariableV1)
  : Result StatefulStateContractErrorV1 ResolvedStateKeyV1 :=
  _ ← ensure (is_bound_to definition envelope) StateProgramMismatch;
  let scope := ev_scope envelope in
  address ← match df_scope definition with
            | ScopeInstallation => Ok AddressInstallation
            | ScopeActor => Ok (AddressActor (es_actor_user_id scope))
            | ScopeInstance =>
                instance_id ← ok_or (es_instance_id scope) StateInstanceUnavailable;
                Ok (AddressInstance instance_id)
            | ScopeActorInstance =>
                instance_id ← ok_or (es_instance_id scope) StateInstanceUnavailable;
                Ok (AddressActorInstance (es_actor_user_id scope) instance_id)
            end;
  Ok (mkStateKey (es_tenant_id scope) (es_installation_id scope) (es_guild_id scope) (df_program_key definition)
        (df_variable_id definition) address).

Definition authorized_for (key : ResolvedStateKeyV1) (envelope : EventEnvelopeV1) : bool :=
  let scope := ev_scope envelope in
  String.eqb (sk_tenant_id key) (es_tenant_id scope)
  && String.eqb (sk_installation_id key) (es_installation_id scope)
  && (sk_guild_id key =? es_guild_id scope)
  && String.eqb (sk_program_key key) (pi_program_key (ev_program envelope))
  && match sk_address key with
     | AddressInstallation => true
     | AddressActor actor => actor =? es_actor_user_id scope
     | AddressInstance instance => bool_decide (Some instance = es_instance_id scope)
     | AddressActorInstance actor instance =>
         (actor =? es_actor_user_id scope) && bool_decide (Some instance = es_instance_id scope)
     end.

Definition key_le (x y : ResolvedStateKeyV1) : bool := match cmp x y with Gt => false | _ => true end.

(** [windows(2).any(|pair| pair[0] == pair[1])]. *)
Fixpoint equal_neighbours (keys : list ResolvedStateKeyV1) : bool :=
  match keys with
  | x :: (y :: _) as rest => bool_decide (x = y) || equal_neighbours rest
  | _ => false
  end.

Definition append_entry (entry : StateSnapshotRequestEntryV1) : list Z :=
  be_bytes 2 (qe_artifact_variable_index entry) ++ append_state_key (qe_key entry)
  ++ append_string (qe_declaration_digest entry) ++ append_state_type (qe_value_type entry)
  ++ append_state_value (qe_default_value entry).

Definition snapshot_entry (envelope : EventEnvelopeV1) (definition : CompiledStateVariableV1)
  : Result StatefulStateContractErrorV1 StateSnapshotRequestEntryV1 :=
  key ← key_from_compiled_definition envelope definition;
  Ok (mkSnapshotEntry (df_artifact_variable_index definition) key (df_declaration_digest definition)
        (df_value_type definition) (df_default_value definition)).

(** The entries are strictly sorted, where the binary search finds the one of the key. *)
Definition artifact_index_for_key (request : StateSnapshotRequestV1) (key : ResolvedStateKeyV1) : option Z :=
  qe_artifact_variable_index <$> List.find (λ entry, bool_decide (qe_key entry = key)) (sq_entries request).

(** [ResolvedStateWriteV1::set]. *)
Definition write_set (definition : CompiledStateVariableV1) (read : ResolvedStateReadV1)
    (state_action_node_id : string) (source_ordinal : Z) (after : StateValueV1)
  : Result StatefulStateContractErrorV1 ResolvedStateWriteV1 :=
  _ ← ensure (String.eqb (df_variable_id definition) (sk_variable_id (rd_key read))
              && String.eqb (df_program_key definition) (sk_program_key (rd_key read))
              && String.eqb (df_declaration_digest definition) (rd_declaration_digest read)
              && value_satisfies (df_value_type definition) after) StateDefinitionMismatch;
  _ ← ensure (valid_identifier state_action_node_id) StateInvalidStateAction;
  Ok (mkStateWrite (rd_key read) (rd_revision read) (rd_declaration_digest read) (rd_value read) after
        state_action_node_id source_ordinal).

(** ** Prepared evaluations *)
Inductive StatefulEvaluationErrorV1 :=
| EvalProgramMismatch | EvalWorkflowMismatch | EvalSnapshotMismatch | EvalEvaluation | EvalBoundExceeded.

Definition map_state_error (e : StatefulStateContractErrorV1) : StatefulEvaluationErrorV1 :=
  match e with
  | StateWorkflowNotFound => EvalWorkflowMismatch
  | StateReadBound => EvalBoundExceeded
  | _ => EvalProgramMismatch
  end.

Inductive StatefulEvaluationExternalNodeKindV1 := ExternalEffect | ExternalFinalResponse.

Record StatefulEvaluationExternalNodeV1 := mkExternalNode {
  en_node_id : string;
  en_kind : StatefulEvaluationExternalNodeKindV1;
  en_source_node_index : option Z;
  en_artifact_node_index : option Z;
  en_execution_ordinal : Z
}.

Record StatefulEvaluationStateNodeV1 := mkStateNode {
  nd_node_id : string;
  nd_variable_id : string;
  nd_source_node_index : Z;
  nd_artifact_node_index : Z;
  nd_execution_ordinal : Z
}.

Record PreparedStatefulEvaluationV1 := mkPreparedEvaluation {
  pe_envelope : EventEnvelopeV1;
  pe_envelope_digest : string;
  pe_bundle_digest : list Z;
  pe_compilation_binding_digest : list Z;
  pe_union_source_map_digest : list Z;
  pe_source_spec_digest : list Z;
  pe_stateful_artifact_digest : list Z;
  pe_state_schema_digest : list Z;
  pe_snapshot : StateSnapshotV1;
  pe_snapshot_digest : string;
  pe_workflow_id : string;
  pe_source_workflow_index : Z;
  pe_artifact_workflow_index : Z;
  pe_branch : StatefulCoreBranchSelectionV1;
  pe_condition_result : bool;
  pe_implicit_acknowledgement_ordinal : Z;
  pe_state_nodes : list StatefulEvaluationStateNodeV1;
  pe_writes : list ResolvedStateWriteV1;
  pe_external_nodes : list StatefulEvaluationExternalNodeV1;
  pe_proof_digest : string
}.

Definition validate_program (bundle : CompiledStatefulBundleV1) (envelope : EventEnvelopeV1)
  : Result StatefulEvaluationErrorV1 unit :=
  ensure (program_bound bundle (ev_program envelope)
          && (pi_evaluator_revision (ev_program envelope) =? STATEFUL_EVALUATOR_REVISION_V1)) EvalProgramMismatch.

(** What the snapshot read of a variable, or its default. *)
Definition resolved_value (request : StateSnapshotRequestV1) (snapshot : StateSnapshotV1) (index : Z)
    (variable : StatefulCompile.CompiledStateVariableV1) : StateValueV1 :=
  match List.find (λ read, bool_decide (artifact_index_for_key request (rd_key read) = Some index))
          (sp_reads snapshot) with
  | Some read => rd_value read
  | None => cv_initial_value variable
  end.

(** The state an evaluation starts from. *)
Fixpoint resolved_state_from (request : StateSnapshotRequestV1) (snapshot : StateSnapshotV1) (index : Z)
    (variables : list StatefulCompile.CompiledStateVariableV1) (state_before : gmap string StateValueV1)
  : Result StatefulEvaluationErrorV1 (gmap string StateValueV1) :=
  match variables with
  | [] => Ok state_before
  | variable :: rest =>
      index16 ← ok_or (u16_try_from index) EvalBoundExceeded;
      resolved_state_from request snapshot (index + 1) rest
        (<[cv_id variable := resolved_value request snapshot index16 variable]> state_before)
  end.

Definition resolved_state_for_core (bundle : CompiledStatefulBundleV1) (request : StateSnapshotRequestV1)
    (snapshot : StateSnapshotV1) : Result StatefulEvaluationErrorV1 (gmap string StateValueV1) :=
  resolved_state_from request snapshot 0 (cs_variables (sa_state_schema (bu_stateful_artifact bundle))) ∅.

(** [iter().position(..)]. *)
Definition position {A} (P : A → Prop) `{∀ x, Decision (P x)} (l : list A) : option Z :=
  (λ found, Z.of_nat found.1) <$> list_find P l.

Definition prepare_write (bundle : CompiledStatefulBundleV1) (envelope : EventEnvelopeV1) (snapshot : StateSnapshotV1)
    (branch : StatefulBranchV1)
    (step : StateSetNodeV1 * StatefulNodeSourceMapV1 * StatefulCoreTransitionV1)
  : Result StatefulEvaluationErrorV1 (StatefulEvaluationStateNodeV1 * ResolvedStateWriteV1) :=
  let '(action, source_map, transition) := step in
  _ ← ensure (String.eqb (sn_id action) (ns_node_id source_map) && String.eqb (sn_id action) (tn_node_id transition)
              && String.eqb (sn_variable_id action) (tn_variable_id transition)
              && bool_decide (Some (ns_artifact_node_index source_map) =
                              position (λ candidate, sn_id candidate = sn_id action) (br_state_actions branch)))
        EvalWorkflowMismatch;
  variable_index ← ok_or (position (λ variable, cv_id variable = sn_variable_id action)
                            (cs_variables (sa_state_schema (bu_stateful_artifact bundle))) ≫= u16_try_from)
                     EvalWorkflowMismatch;
  definition ← map_err map_state_error (from_compiled_bundle_index bundle envelope variable_index);
  read ← ok_or (List.find (λ read, bool_decide (sk_variable_id (rd_key read) = sn_variable_id action))
                  (sp_reads snapshot)) EvalSnapshotMismatch;
  _ ← ensure (bool_decide (rd_value read = tn_before transition)) EvalSnapshotMismatch;
  execution_ordinal ← ok_or (u16_try_from (ns_execution_ordinal source_map)) EvalBoundExceeded;
  write ← map_err map_state_error
    (write_set definition read (sn_id action) execution_ordinal (tn_after transition));
  Ok (mkStateNode (sn_id action) (sn_variable_id action) (ns_source_node_index source_map)
        (ns_artifact_node_index source_map) (ns_execution_ordinal source_map), write).

Definition prepare_writes (bundle : CompiledStatefulBundleV1) (envelope : EventEnvelopeV1) (snapshot : StateSnapshotV1)
    (branch : StatefulBranchV1) (branch_map : StatefulBranchSourceMapV1) (transitions : list StatefulCoreTransitionV1)
  : Result StatefulEvaluationErrorV1 (list StatefulEvaluationStateNodeV1 * list ResolvedStateWriteV1) :=
  _ ← ensure (bool_decide (length (br_state_actions branch) = length (bm_state_actions branch_map))
              && bool_decide (length (br_state_actions branch) = length transitions)) EvalWorkflowMismatch;
  prepared ← collect_results (prepare_write bundle envelope snapshot branch)
    (zip (zip (br_state_actions branch) (bm_state_actions branch_map)) transitions);
  Ok (map fst prepared, map snd prepared).

Definition prepare_effect (step : nat * (ActionNodeV1 * StatefulNodeSourceMapV1))
  : Result StatefulEvaluationErrorV1 StatefulEvaluationExternalNodeV1 :=
  let '(index, (effect, source_map)) := step in
  _ ← ensure (String.eqb (an_id effect) (ns_node_id source_map)
              && (ns_artifact_node_index source_map =? Z.of_nat index)) EvalWorkflowMismatch;
  Ok (mkExternalNode (an_id effect) ExternalEffect (Some (ns_source_node_index source_map))
        (Some (ns_artifact_node_index source_map)) (ns_execution_ordinal source_map)).

(** The [scan] of the ordinals. *)
Fixpoint increasing_after (previous : Z) (ordinals : list Z) : bool :=
  match ordinals with
  | [] => true
  | ordinal :: rest => (previous <? ordinal) && increasing_after ordinal rest
  end.

Definition prepare_external_nodes (branch : StatefulBranchV1) (branch_map : StatefulBranchSourceMapV1)
  : Result StatefulEvaluationErrorV1 (list StatefulEvaluationExternalNodeV1) :=
  _ ← ensure (bool_decide (length (br_effects branch) = length (bm_effects branch_map))
              && String.eqb (rn_id (br_response branch)) (rs_node_id (bm_response branch_map))) EvalWorkflowMismatch;
  effects ← collect_results prepare_effect (imap pair (zip (br_effects branch) (bm_effects branch_map)));
  let nodes := effects ++ [mkExternalNode (rn_id (br_response branch)) ExternalFinalResponse None None
                             (rs_execution_ordinal (bm_response branch_map))] in
  let first := bm_implicit_acknowledgement_ordinal branch_map in
  _ ← ensure ((first =? 0)
              && increasing_after first
                   (map ns_execution_ordinal (bm_state_actions branch_map) ++ map en_execution_ordinal nodes))
        EvalWorkflowMismatch;
  Ok nodes.

Definition append_optional_u32 (value : option Z) : list Z :=
  match value with Some value => 1 :: be_bytes 4 value | None => [0] end.

Definition append_state_node (node : StatefulEvaluationStateNodeV1) : list Z :=
  append_string (nd_node_id node) ++ append_string (nd_variable_id node) ++ be_bytes 4 (nd_source_node_index node)
  ++ be_bytes 4 (nd_artifact_node_index node) ++ be_bytes 4 (nd_execution_ordinal node).

Definition append_external_node (node : StatefulEvaluationExternalNodeV1) : list Z :=
  append_string (en_node_id node) ++ [match en_kind node with ExternalEffect => 0 | ExternalFinalResponse => 1 end]
  ++ append_optional_u32 (en_source_node_index node) ++ append_optional_u32 (en_artifact_node_index node)
  ++ be_bytes 4 (en_execution_ordinal node).

Section prepare.
Context (encoded_len : StatefulSpecV1 → option Z) (view_encoded_len : AutomationSpecV1 → option Z).
Context (debug_validation_error : ValidationError → string) (sha256 : list Z → list Z).

(** [CompiledWorkflowDependenciesV1::from_compiled_bundle]. *)
Definition dependencies_from_compiled_bundle (bundle : CompiledStatefulBundleV1) (envelope : EventEnvelopeV1)
  : Result StatefulStateContractErrorV1 CompiledWorkflowDependenciesV1 :=
  _ ← validate_bundle_program_binding bundle envelope;
  match List.filter (λ '(_, workflow), bool_decide (cw_trigger workflow = ev_trigger envelope))
          (imap pair (sa_workflows (bu_stateful_artifact bundle))) with
  | [] => Err StateWorkflowNotFound
  | _ :: _ :: _ => Err StateInvalidDefinition
  | [(workflow_index, workflow)] =>
      let read_indices := cd_read_state_variable_indices (cw_dependencies workflow) in
      let write_indices := cd_write_state_variable_indices (cw_dependencies workflow) in
      _ ← ensure (negb ((MAX_STATE_READS_V1 <? len read_indices) || (MAX_STATE_READS_V1 <? len write_indices)
                        || negb (strictly_sorted read_indices) || negb (strictly_sorted write_indices)
                        || existsb (λ index, negb (bool_decide (index ∈ read_indices))) write_indices)) StateReadBound;
      definitions ← collect_results (from_compiled_bundle_index bundle envelope) read_indices;
      artifact_workflow_index ← ok_or (u16_try_from (Z.of_nat workflow_index)) StateInvalidDefinition;
      Ok (mkWorkflowDependencies (event_envelope_digest_v1 sha256 envelope) (to_hex (bu_bundle_digest bundle))
            (to_hex (bu_binding_digest bundle)) (to_hex (bu_union_source_map_digest bundle)) (cw_id workflow)
            artifact_workflow_index definitions)
  end.

Definition snapshot_request_digest (dependencies : CompiledWorkflowDependenciesV1)
    (entries : list StateSnapshotRequestEntryV1) : string :=
  to_hex (sha256 (SNAPSHOT_REQUEST_DOMAIN_V1 ++ append_string (wd_envelope_digest dependencies)
    ++ append_string (wd_bundle_digest dependencies) ++ append_string (wd_compilation_binding_digest dependencies)
    ++ append_string (wd_union_source_map_digest dependencies) ++ append_string (wd_workflow_id dependencies)
    ++ be_bytes 2 (wd_artifact_workflow_index dependencies) ++ append_list append_entry entries)).

Definition from_dependencies (envelope : EventEnvelopeV1) (dependencies : CompiledWorkflowDependenciesV1)
  : Result StatefulStateContractErrorV1 StateSnapshotRequestV1 :=
  let program := ev_program envelope in
  let envelope_digest := event_envelope_digest_v1 sha256 envelope in
  _ ← ensure (String.eqb (wd_envelope_digest dependencies) envelope_digest
              && String.eqb (wd_bundle_digest dependencies) (pi_bundle_digest program)
              && String.eqb (wd_compilation_binding_digest dependencies) (pi_compilation_binding_digest program)
              && String.eqb (wd_union_source_map_digest dependencies) (pi_union_source_map_digest program)
              && (len (wd_definitions dependencies) <=? MAX_STATE_READS_V1)) StateReadBound;
  unsorted ← collect_results (snapshot_entry envelope) (wd_definitions dependencies);
  let entries := sort_by (λ x y, key_le (qe_key x) (qe_key y)) unsorted in
  _ ← ensure (negb (equal_neighbours (map qe_key entries))) StateDuplicateKey;
  Ok (mkSnapshotRequest envelope_digest (wd_bundle_digest dependencies) (wd_workflow_id dependencies)
        (wd_artifact_workflow_index dependencies) (snapshot_request_digest dependencies entries) entries).

(** [StateSnapshotRequestV1::from_compiled_bundle]. *)
Definition request_from_compiled_bundle (bundle : CompiledStatefulBundleV1) (envelope : EventEnvelopeV1)
  : Result StatefulStateContractErrorV1 StateSnapshotRequestV1 :=
  dependencies ← dependencies_from_compiled_bundle bundle envelope;
  from_dependencies envelope dependencies.

Definition snapshot_digest_v1 (snapshot : StateSnapshotV1) : string :=
  to_hex (sha256 (STATEFUL_SNAPSHOT_DOMAIN_V1 ++ append_string (sp_envelope_digest snapshot)
    ++ append_string (sp_bundle_digest snapshot) ++ append_string (sp_workflow_id snapshot)
    ++ be_bytes 2 (sp_artifact_workflow_index snapshot) ++ append_string (sp_request_digest snapshot)
    ++ append_list append_read (sp_reads snapshot))).

Definition evaluation_proof_digest_v1 (evaluation : PreparedStatefulEvaluationV1) : string :=
  let envelope := pe_envelope evaluation in
  to_hex (sha256 (STATEFUL_EVALUATION_DOMAIN_V1 ++ be_bytes 2 STATEFUL_EVALUATION_PROOF_SCHEMA_VERSION_V1
    ++ append_string STATEFUL_EVALUATION_PROOF_KIND_V1 ++ be_bytes 4 STATEFUL_EVALUATOR_REVISION_V1
    ++ append_string (to_hex (pe_bundle_digest evaluation))
    ++ append_string (to_hex (pe_compilation_binding_digest evaluation))
    ++ append_string (to_hex (pe_union_source_map_digest evaluation))
    ++ append_string (to_hex (pe_source_spec_digest evaluation))
    ++ append_string (to_hex (pe_stateful_artifact_digest evaluation))
    ++ append_string (to_hex (pe_state_schema_digest evaluation))
    ++ append_string (pe_envelope_digest evaluation) ++ append_string (ev_request_digest envelope)
    ++ append_string (ev_claim_root_digest envelope) ++ append_string (pe_snapshot_digest evaluation)
    ++ append_string (pe_workflow_id evaluation) ++ be_bytes 4 (pe_source_workflow_index evaluation)
    ++ be_bytes 4 (pe_artifact_workflow_index evaluation)
    ++ [match pe_branch evaluation with SelectTrue => 1 | SelectFalse => 0 end]
    ++ [if pe_condition_result evaluation then 1 else 0]
    ++ be_bytes 4 (pe_implicit_acknowledgement_ordinal evaluation)
    ++ append_list append_input (ev_normalized_inputs envelope)
    ++ append_list append_state_node (pe_state_nodes evaluation)
    ++ append_list append_write (pe_writes evaluation)
    ++ append_list append_external_node (pe_external_nodes evaluation))).

Definition write_le (x y : ResolvedStateWriteV1) : bool := key_le (wr_key x) (wr_key y).

(** [PreparedStatefulEvaluationV1::prepare]. *)
Definition evaluation_prepare (bundle : CompiledStatefulBundleV1) (envelope : EventEnvelopeV1)
    (snapshot : StateSnapshotV1) : Result StatefulEvaluationErrorV1 PreparedStatefulEvaluationV1 :=
  let artifact := bu_stateful_artifact bundle in
  _ ← validate_program bundle envelope;
  request ← map_err map_state_error (request_from_compiled_bundle bundle envelope);
  _ ← ensure (exact_snapshot request snapshot) EvalSnapshotMismatch;
  let index := sq_artifact_workflow_index request in
  workflow ← ok_or (sa_workflows artifact !! Z.to_nat index) EvalWorkflowMismatch;
  _ ← ensure (String.eqb (cw_id workflow) (sq_workflow_id request)
              && bool_decide (cw_trigger workflow = ev_trigger envelope)) EvalWorkflowMismatch;
  workflow_map ←
    match List.filter (λ source_map, String.eqb (wm_workflow_id source_map) (cw_id workflow)
                                     && (wm_artifact_workflow_index source_map =? index))
            (um_stateful_workflows (bu_union_source_map bundle)) with
    | [workflow_map] => Ok workflow_map
    | _ => Err EvalWorkflowMismatch
    end;
  source_workflow ← ok_or (ss_stateful_workflows (bu_source_spec bundle)
                             !! Z.to_nat (wm_source_workflow_index workflow_map)) EvalWorkflowMismatch;
  _ ← ensure (String.eqb (sw_id source_workflow) (cw_id workflow)
              && bool_decide (sw_trigger source_workflow = cw_trigger workflow)) EvalWorkflowMismatch;
  state_before ← resolved_state_for_core bundle request snapshot;
  execution ← map_err (λ _, EvalEvaluation)
    (evaluate_validated_stateful_workflow_v1 encoded_len view_encoded_len debug_validation_error
       (bu_source_spec bundle) (ev_trigger envelope) (ev_normalized_inputs envelope) state_before);
  _ ← ensure (String.eqb (ce_workflow_id execution) (cw_id workflow)) EvalEvaluation;
  let '(compiled_branch, branch_map) :=
    match ce_branch execution with
    | SelectTrue => (cw_on_true workflow, wm_on_true workflow_map)
    | SelectFalse => (cw_on_false workflow, wm_on_false workflow_map)
    end in
  prepared_writes ← prepare_writes bundle envelope snapshot compiled_branch branch_map (ce_transitions execution);
  let state_nodes := prepared_writes.1 in
  let writes := sort_by write_le prepared_writes.2 in
  _ ← ensure (validate_read_write_sets (sp_reads snapshot) writes) EvalSnapshotMismatch;
  external_nodes ← prepare_external_nodes compiled_branch branch_map;
  _ ← ensure (bool_decide (ce_external_node_ids execution = map en_node_id external_nodes)
              && (len external_nodes <=? MAX_EXTERNAL_ACTIONS_V1)) EvalWorkflowMismatch;
  _ ← ensure (state_material_size (sp_reads snapshot) writes <=? MAX_PLAN_STATE_MATERIAL_BYTES_V1) EvalBoundExceeded;
  let prepared proof_digest :=
    mkPreparedEvaluation envelope (event_envelope_digest_v1 sha256 envelope) (bu_bundle_digest bundle)
      (bu_binding_digest bundle) (bu_union_source_map_digest bundle) (si_digest (sa_source artifact))
      (bu_stateful_artifact_digest bundle) (bu_state_schema_digest bundle) snapshot (snapshot_digest_v1 snapshot)
      (cw_id workflow) (wm_source_workflow_index workflow_map) (wm_artifact_workflow_index workflow_map)
      (ce_branch execution) (ce_condition_result execution) (bm_implicit_acknowledgement_ordinal branch_map)
      state_nodes writes external_nodes proof_digest in
  Ok (prepared (evaluation_proof_digest_v1 (prepared EmptyString))).

(** [PreparedStatefulEvaluationV1::verify]. *)
Definition evaluation_verify (evaluation : PreparedStatefulEvaluationV1) : bool :=
  let reads := sp_reads (pe_snapshot evaluation) in
  String.eqb (pe_envelope_digest evaluation) (event_envelope_digest_v1 sha256 (pe_envelope evaluation))
  && String.eqb (pe_snapshot_digest evaluation) (snapshot_digest_v1 (pe_snapshot evaluation))
  && validate_read_write_sets reads (pe_writes evaluation)
  && (state_material_size reads (pe_writes evaluation) <=? MAX_PLAN_STATE_MATERIAL_BYTES_V1)
  && String.eqb (pe_proof_digest evaluation) (evaluation_proof_digest_v1 evaluation).

Inductive StatefulExecutionPlanErrorV1 := PlanInvalidInput.

(** [PreparedStatefulCommitV1::prepare]. *)
Definition commit_prepare (evaluation : PreparedStatefulEvaluationV1) (external_action_plan_digest : string)
    (outbox_payload : StatefulOutboxPayloadV1) : Result StatefulExecutionPlanErrorV1 PreparedStatefulCommitV1 :=
  _ ← ensure (evaluation_verify evaluation) PlanInvalidInput;
  let envelope := pe_envelope evaluation in
  let snapshot := pe_snapshot evaluation in
  let reads := sp_reads snapshot in
  let writes := pe_writes evaluation in
  let envelope_digest := event_envelope_digest_v1 sha256 envelope in
  _ ← ensure (String.eqb (sp_envelope_digest snapshot) envelope_digest
              && payload_verify sha256 outbox_payload
              && bool_decide (op_external_node_ids outbox_payload = map en_node_id (pe_external_nodes evaluation))
              && validate_read_write_sets reads writes
              && forallb (λ read, authorized_for (rd_key read) envelope) reads
              && forallb (λ write, authorized_for (wr_key write) envelope) writes
              && (len (op_external_node_ids outbox_payload) <=? MAX_EXTERNAL_ACTIONS_V1)
              && (state_material_size reads writes <=? MAX_PLAN_STATE_MATERIAL_BYTES_V1)) PlanInvalidInput;
  let program := ev_program envelope in
  let commit plan_digest :=
    mkPreparedCommit (ev_receipt_identity envelope) (ev_request_digest envelope) envelope_digest
      (to_hex (pi_source_spec_digest program)) (pi_stateful_artifact_digest program) (pi_state_schema_digest program)
      (pe_proof_digest evaluation) external_action_plan_digest (authority_from_envelope envelope)
      ACKNOWLEDGEMENT_STRATEGY_V1 FAILURE_TAIL_OBLIGATION_V1 reads writes outbox_payload plan_digest in
  Ok (commit (execution_plan_digest sha256 (commit EmptyString))).
End prepare.
