(* ===== verification/StatefulSafety.v ===== *)
(** * What the stateful store guarantees

    The store under any sequence of calls by any number of workers: a commit is applied
    once, on the state it read; the ledger replays to the state; the effects of a commit
    are started under one claim only. *)

From Stdlib Require Import ZArith Lia Ascii String.
From stdpp Require Import base decidable list strings gmap sets fin_sets numbers relations.
From S2P Require Import Prelude RustStd SpecValidate StatefulModel StatefulStore.
Open Scope Z_scope.

(** ** Calls *)
Inductive StoreCall :=
| CallCommit (prepared : PreparedStatefulCommitV1)
| CallClaim (request : OutboxClaimRequestV1)
| CallIntent (token : OutboxClaimTokenV1) (now_ms : Z)
| CallRelease (token : OutboxClaimTokenV1) (now_ms available_at_ms : Z)
| CallWait (token : OutboxClaimTokenV1) (now_ms available_at_ms : Z)
| CallExpire (receipt_identity : Z * Z) (expected_head_revision : Z) (authority : OutboxDispatchAuthorityV1)
    (now_ms recovery_available_at_ms : Z)
| CallComplete (token : OutboxClaimTokenV1) (now_ms : Z)
| CallRecovery (token : OutboxClaimTokenV1) (now_ms : Z).

(** What the caller sees. *)
Inductive StoreAnswer :=
| AnsCommitted (prepared : PreparedStatefulCommitV1) (disposition : AtomicCommitDispositionV1)
| AnsClaimed (token : OutboxClaimTokenV1) (payload : StatefulOutboxPayloadV1)
| AnsIntent (token : OutboxClaimTokenV1)
| AnsEntry (entry : OutboxEntryMetadataV1)
| AnsRefused (e : StatefulStoreErrorV1).

Definition answer_of {A} (f : A → StoreAnswer) (r : Result StatefulStoreErrorV1 A) : StoreAnswer :=
  match r with Ok a => f a | Err e => AnsRefused e end.

Definition answer {A} (f : A → StoreAnswer) (r : Result StatefulStoreErrorV1 A * InMemoryAtomicStateOutboxStoreV1)
  : StoreAnswer * InMemoryAtomicStateOutboxStoreV1 := (answer_of f r.1, r.2).

Section calls.
Context (sha256 : list Z → list Z).

Definition perform (call : StoreCall) (store : InMemoryAtomicStateOutboxStoreV1) : StoreAnswer * InMemoryAtomicStateOutboxStoreV1 :=
  match call with
  | CallCommit prepared =>
      answer (λ r, AnsCommitted prepared (ar_disposition r)) (atomic_commit_v1 sha256 prepared store)
  | CallClaim request => answer (λ w, AnsClaimed (cw_token w) (cw_payload w)) (claim_outbox_v1 request store)
  | CallIntent token now => answer (λ _, AnsIntent token) (record_external_intent_v1 token now store)
  | CallRelease token now available => answer AnsEntry (release_before_external_intent_v1 token now available store)
  | CallWait token now available => answer AnsEntry (wait_for_effect_recovery_v1 token now available store)
  | CallExpire id revision authority now available =>
      answer AnsEntry (expire_claim_v1 id revision authority now available store)
  | CallComplete token now => answer AnsEntry (complete_outbox_v1 token now store)
  | CallRecovery token now => answer AnsEntry (require_recovery_v1 token now store)
  end.

Fixpoint run_calls (calls : list StoreCall) (store : InMemoryAtomicStateOutboxStoreV1) : list StoreAnswer * InMemoryAtomicStateOutboxStoreV1 :=
  match calls with
  | [] => ([], store)
  | call :: rest =>
      let '(a, store') := perform call store in
      let '(answers, store'') := run_calls rest store' in
      (a :: answers, store'')
  end.
End calls.

(** ** Calls on an entry *)

(** The entry's identity and work never change. *)
Definition same_work (e e' : StoredOutboxEntryV1) : Prop :=
  oe_receipt_identity e' = oe_receipt_identity e ∧ oe_payload e' = oe_payload e ∧
  oe_required_authority e' = oe_required_authority e.

(** No effect of a queued entry has been started; the claims are counted by the head. *)
Record entry_ok (e : StoredOutboxEntryV1) : Prop := {
  eo_queued : oe_state e = OutboxQueued → oe_external_intent_started e = false;
  eo_revisions : default 0 (oe_claim_revision e) < oe_head_revision e
}.

(** What one call does to an entry. *)
Inductive entry_step (e e' : StoredOutboxEntryV1) : StoreAnswer → Prop :=
| EntryRefused error : e' = e → entry_step e e' (AnsRefused error)
| EntryClaimed token : same_work e e' → oe_external_intent_started e = false →
    oe_external_intent_started e' = false → token_current token e' = true →
    ct_receipt_identity token = oe_receipt_identity e →
    default 0 (oe_claim_revision e) < ct_claim_revision token →
    entry_step e e' (AnsClaimed token (oe_payload e))
| EntryIntent token : token_current token e = true → ct_receipt_identity token = oe_receipt_identity e →
    e' = set_intent e → entry_step e e' (AnsIntent token)
| EntryReset m : same_work e e' → oe_external_intent_started e' = oe_external_intent_started e →
    is_claimed e' = false → oe_claim_revision e' = oe_claim_revision e → entry_step e e' (AnsEntry m).

Lemma guard_step {A} b error (k : Cmd StoredOutboxEntryV1 StatefulStoreErrorV1 A) e r e' :
  (_ ← guard b error; k) e = (r, e') → (r = Err error ∧ e' = e) ∨ (b e = true ∧ k e = (r, e')).
Proof.
  unfold guard, mbind, Cmd_bind, cmd_bind, cmd_lift, ensure. destruct (b e); naive_solver.
Qed.

Lemma bump_head_step {A} (k : unit → Cmd StoredOutboxEntryV1 StatefulStoreErrorV1 A) e r e' :
  (_ ← bump_head; k ()) e = (r, e') →
  (r = Err StoreRevisionExhausted ∧ e' = e) ∨
  (revision_next (oe_head_revision e) = Some (oe_head_revision e + 1) ∧
   k () (set_head_revision (oe_head_revision e + 1) e) = (r, e')).
Proof.
  unfold bump_head, revision_next, u64_checked_add, mbind, Cmd_bind, cmd_bind, cmd_lift, cmd_modify, ok_or.
  destruct (oe_head_revision e + 1 <=? u64_max); naive_solver.
Qed.

(** A claim is given up with the state it is left in. *)
Lemma reset_step state available e r e' :
  entry_ok e → state ≠ OutboxClaimed → (state = OutboxQueued → oe_external_intent_started e = false) →
  reset_claim state available e = (r, e') → entry_step e e' (answer_of AnsEntry r) ∧ entry_ok e'.
Proof.
  intros [Hq Hr] Hs Hi [[-> ->]|[_ H]]%(bump_head_step (λ _, _)); [by repeat constructor|].
  rewrite cmd_modify_step in H. unfold cmd_lift in H. simplify_eq/=. split.
  - constructor; cbn; [done|done|by apply bool_decide_eq_false|done].
  - constructor; cbn; [done|lia].
Qed.

(** The claims cannot run out before the heads. *)
Lemma claims_remain e :
  entry_ok e → revision_next (oe_head_revision e) = Some (oe_head_revision e + 1) →
  match oe_claim_revision (set_head_revision (oe_head_revision e + 1) e) with
  | None => Ok 1
  | Some revision => ok_or (revision_next revision) StoreRevisionExhausted
  end = Ok (default 0 (oe_claim_revision e) + 1).
Proof.
  intros [_ Hr] Hn. cbn. destruct (oe_claim_revision e) as [c|]; [|done]. cbn in *.
  unfold revision_next, u64_checked_add in *.
  destruct (Z.leb_spec (oe_head_revision e + 1) u64_max); [|done].
  by replace (c + 1 <=? u64_max) with true by (symmetry; apply Z.leb_le; lia).
Qed.

Lemma claim_step request e r e' :
  entry_ok e → claim_entry request e = (r, e') →
  entry_step e e' (answer_of (λ w, AnsClaimed (cw_token w) (cw_payload w)) r) ∧ entry_ok e'.
Proof.
  intros Hok [[-> ->]|[Ha H]]%guard_step; [by repeat constructor; apply Hok|].
  apply guard_step in H as [[-> ->]|[_ H]]; [by repeat constructor; apply Hok|].
  apply guard_step in H as [[-> ->]|[Hs H]]; [by repeat constructor; apply Hok|].
  apply guard_step in H as [[-> ->]|[Hi H]]; [by repeat constructor; apply Hok|].
  assert (oe_external_intent_started e = false) as Hfree.
  { destruct (oe_external_intent_started e) eqn:E; [|done].
    apply orb_true_iff in Hs as [[Hq%bool_decide_eq_true _]%andb_true_iff|Hs]; [by rewrite (eo_queued _ Hok Hq) in E|].
    by rewrite Hs in Hi. }
  apply cmd_lift_step in H as [(error & _ & -> & ->)|(expires & _ & H)]; [by repeat constructor; apply Hok|].
  apply (bump_head_step (λ _, _)) in H as [[-> ->]|[Hn H]]; [by repeat constructor; apply Hok|].
  rewrite (cmd_lift_run _ _ _ (default 0 (oe_claim_revision e) + 1)) in H by by apply claims_remain.
  rewrite cmd_modify_step in H. unfold cmd_lift in H. simplify_eq/=. destruct Hok as [_ Hr]. apply bool_decide_eq_true in Ha. split.
  - constructor; cbn; [done|done|done| |done|lia].
    unfold token_current; cbn. rewrite Z.eqb_refl, !bool_decide_eq_true_2 by done. done.
  - constructor; cbn; [done|lia].
Qed.

(** ** Calls on the store *)
Definition set_outbox (id : Z * Z) (e : StoredOutboxEntryV1) (s : InMemoryAtomicStateOutboxStoreV1) : InMemoryAtomicStateOutboxStoreV1 :=
  mkOutboxStore (ms_state s) (ms_receipts s) (bt_insert id e (ms_outbox s)) (ms_transitions s).

(** An entry has the receipt of the commit whose effects it carries, and a receipt its entry. *)
Record store_ok (s : InMemoryAtomicStateOutboxStoreV1) : Prop := {
  so_sorted : bt_sorted (ms_outbox s);
  so_entries id e : bt_get (ms_outbox s) id = Some e →
    oe_receipt_identity e = id ∧ entry_ok e ∧
    ∃ receipt, ms_receipts s !! id = Some receipt ∧
      oe_payload e = pc_outbox_payload (cr_prepared receipt) ∧
      oe_required_authority e = pc_dispatch_authority (cr_prepared receipt);
  so_receipts id receipt : ms_receipts s !! id = Some receipt →
    pc_receipt_identity (cr_prepared receipt) = id ∧ is_Some (bt_get (ms_outbox s) id)
}.

Section safety.
Context (sha256 : list Z → list Z).

(** What a call does to the store. *)
Inductive store_step (s s' : InMemoryAtomicStateOutboxStoreV1) : StoreAnswer → Prop :=
| StepRefused error : s' = s → store_step s s' (AnsRefused error)
| StepReplayed p receipt : ms_receipts s !! pc_receipt_identity p = Some receipt → cr_prepared receipt = p →
    s' = s → store_step s s' (AnsCommitted p CommitExactReplay)
| StepApplied p state ledger receipt :
    ms_receipts s !! pc_receipt_identity p = None → commit_verify sha256 p = true →
    forallb (read_current (ms_state s)) (pc_reads p) = true →
    apply_writes sha256 (pc_receipt_identity p) 0 (pc_writes p) (ms_state s) (ms_transitions s) = Ok (state, ledger) →
    cr_prepared receipt = p →
    s' = mkOutboxStore state (<[pc_receipt_identity p := receipt]> (ms_receipts s))
           (bt_insert (pc_receipt_identity p) (new_outbox_entry p) (ms_outbox s)) ledger →
    store_step s s' (AnsCommitted p CommitApplied)
| StepEntry id e e' a : bt_get (ms_outbox s) id = Some e → entry_step e e' a → entry_ok e' →
    s' = set_outbox id e' s → store_step s s' a.

Lemma commit_step p s :
  store_step s (atomic_commit_v1 sha256 p s).2
    (answer_of (λ r, AnsCommitted p (ar_disposition r)) (atomic_commit_v1 sha256 p s).1).
Proof.
  unfold atomic_commit_v1.
  destruct (commit_verify sha256 p) eqn:Hv; cbn; [|by constructor].
  destruct (ms_receipts s !! _) as [receipt|] eqn:Hr.
  - case_match; [|by constructor]. case_bool_decide; [|by constructor]. by eapply StepReplayed.
  - destruct (forallb _ _) eqn:Hc; cbn; [|by constructor].
    destruct (apply_writes _ _ _ _ _ _) as [[state ledger]|error] eqn:Hw; [|by constructor].
    destruct (u16_try_from _) as [count|]; [|by constructor].
    by apply (StepApplied _ _ _ state ledger (mkCommitReceipt p count)).
Qed.

Lemma on_entry_step {A} (f : A → StoreAnswer) id method s :
  store_ok s →
  (∀ e r e', oe_receipt_identity e = id → entry_ok e → method e = (r, e') → entry_step e e' (answer_of f r) ∧ entry_ok e') →
  store_step s (on_entry id method s).2 (answer_of f (on_entry id method s).1).
Proof.
  intros [_ He _] Hm. unfold on_entry. destruct (bt_get _ id) as [e|] eqn:Hg; [|by constructor].
  destruct (He _ _ Hg) as (Hid & Hok & _), (method e) as [r e'] eqn:Hr.
  destruct (Hm _ _ _ Hid Hok Hr). by eapply StepEntry.
Qed.

Lemma valid_claim_step {A} (f : A → StoreAnswer) token now method s :
  store_ok s →
  (∀ e r e', ct_receipt_identity token = oe_receipt_identity e → entry_ok e → token_current token e = true →
     method e = (r, e') →
     entry_step e e' (answer_of f r) ∧ entry_ok e') →
  store_step s (with_valid_claim token now method s).2 (answer_of f (with_valid_claim token now method s).1).
Proof.
  intros Hs Hm. apply on_entry_step; [done|]. intros e r e' Hid Hok H.
  apply guard_step in H as [[-> ->]|[Ht H]]; [by repeat constructor; apply Hok|].
  apply guard_step in H as [[-> ->]|[_ H]]; [by repeat constructor; apply Hok|]. by eapply Hm.
Qed.

Lemma intent_step token e r e' :
  ct_receipt_identity token = oe_receipt_identity e → entry_ok e → token_current token e = true → cmd_modify set_intent e = (r, e') →
  entry_step e e' (answer_of (λ _ : unit, AnsIntent token) r) ∧ entry_ok e'.
Proof.
  intros Hid [Hq Hr] Ht [= <- <-]. split; [by constructor|]. split; cbn; [|done].
  intros E. unfold token_current, is_claimed in Ht. by rewrite E in Ht.
Qed.

Lemma perform_step call s : store_ok s → store_step s (perform sha256 call s).2 (perform sha256 call s).1.
Proof.
  intros Hs. destruct call; cbn.
  - apply commit_step.
  - unfold claim_outbox_v1, mbind, Cmd_bind, cmd_bind, cmd_lift.
    destruct (ensure _ _); [|by constructor]. apply on_entry_step; [done|]. intros; by eapply claim_step.
  - apply valid_claim_step; [done|]. apply intent_step.
  - apply valid_claim_step; [done|]. intros e r e' _ Hok _ [[-> ->]|[Hg H]]%guard_step; [by repeat constructor; apply Hok|].
    eapply reset_step; [done| | |exact H]; [done|]. intros _. by destruct (oe_external_intent_started e).
  - apply valid_claim_step; [done|]. intros e r e' _ Hok _ [[-> ->]|[Hg H]]%guard_step; [by repeat constructor; apply Hok|].
    by eapply reset_step; [done| | |exact H].
  - apply on_entry_step; [done|]. intros e r e' _ Hok [[-> ->]|[_ H]]%guard_step; [by repeat constructor; apply Hok|].
    apply guard_step in H as [[-> ->]|[_ H]]; [by repeat constructor; apply Hok|].
    change ((x ← cmd_lift (λ e, Ok (oe_external_intent_started e)); reset_claim (if x : bool then WaitingEffectRecovery else OutboxQueued) recovery_available_at_ms) e = (r, e')) in H.
    rewrite (cmd_lift_run _ _ _ (oe_external_intent_started e)) in H by done.
    eapply reset_step; [done| | |exact H]; by destruct (oe_external_intent_started e).
  - apply valid_claim_step; [done|]. intros e r e' _ Hok _ [[-> ->]|[_ H]]%guard_step; [by repeat constructor; apply Hok|].
    by eapply reset_step; [done| | |exact H].
  - apply valid_claim_step; [done|]. intros e r e' _ Hok _ [[-> ->]|[_ H]]%guard_step; [by repeat constructor; apply Hok|].
    by eapply reset_step; [done| | |exact H].
Qed.

Lemma set_outbox_get id e s id' :
  bt_sorted (ms_outbox s) →
  bt_get (ms_outbox (set_outbox id e s)) id' = if decide (id = id') then Some e else bt_get (ms_outbox s) id'.
Proof.
  intros Hs. cbn. case_decide as Hi; [subst; by apply bt_get_upsert_eq|by apply bt_get_upsert_ne].
Qed.

Lemma entry_step_work e e' a : entry_step e e' a → same_work e e'.
Proof. by destruct 1; subst. Qed.

Lemma store_step_ok s s' a : store_step s s' a → store_ok s → store_ok s'.
Proof.
  intros [?|? ? ? ? ?|p state ledger receipt Hr _ _ _ Hp ->|id e e' ? Hg (Hw & Hpay & Hau)%entry_step_work He ->] Hs;
    [by subst|by subst| |]; destruct Hs as [Hs Hen Hrc].
  - split; cbn; [by apply bt_upsert_sorted| |].
    + intros id e. destruct (decide (pc_receipt_identity p = id)) as [<-|Hne].
      * unfold bt_insert. rewrite bt_get_upsert_eq, lookup_insert_eq by done. intros [= <-].
        split; [done|split; [done|]]. exists receipt. by subst.
      * unfold bt_insert. rewrite bt_get_upsert_ne, lookup_insert_ne by done. apply Hen.
    + intros id r. destruct (decide (pc_receipt_identity p = id)) as [<-|Hne].
      * unfold bt_insert. rewrite bt_get_upsert_eq, lookup_insert_eq by done. intros [= <-]. by subst.
      * unfold bt_insert. rewrite bt_get_upsert_ne, lookup_insert_ne by done. apply Hrc.
  - split; [by apply bt_upsert_sorted| |].
    + intros id' e0. rewrite set_outbox_get by done. case_decide as Hi; [|apply Hen]. subst. intros [= <-].
      destruct (Hen _ _ Hg) as (Hid & _ & r & ? & ? & ?). rewrite Hw, Hpay, Hau. naive_solver.
    + intros id' r Hr. rewrite set_outbox_get by done. destruct (Hrc _ _ Hr). by case_decide.
Qed.

(** ** Once *)

(** What may be answered after an answer: a receipt has one commit, claims take over from
    each other, a claim that has been taken over starts no effect, and once the effects of
    a receipt have been started nobody claims it and nobody else starts them. *)
Definition may_follow (x y : StoreAnswer) : Prop :=
  match x, y with
  | AnsCommitted p CommitApplied, AnsCommitted p' d =>
      pc_receipt_identity p' = pc_receipt_identity p → p' = p ∧ d = CommitExactReplay
  | AnsClaimed t _, AnsClaimed t' _ =>
      ct_receipt_identity t' = ct_receipt_identity t → ct_claim_revision t < ct_claim_revision t'
  | AnsClaimed t _, AnsIntent t' =>
      ct_receipt_identity t' = ct_receipt_identity t → ct_claim_revision t ≤ ct_claim_revision t'
  | AnsIntent t, AnsClaimed t' _ => ct_receipt_identity t' ≠ ct_receipt_identity t
  | AnsIntent t, AnsIntent t' => ct_receipt_identity t' = ct_receipt_identity t → t' = t
  | _, _ => True
  end.

Record answered (past : list StoreAnswer) (s : InMemoryAtomicStateOutboxStoreV1) : Prop := {
  an_applied p : AnsCommitted p CommitApplied ∈ past →
    ∃ receipt, ms_receipts s !! pc_receipt_identity p = Some receipt ∧ cr_prepared receipt = p;
  an_receipts id receipt : ms_receipts s !! id = Some receipt →
    AnsCommitted (cr_prepared receipt) CommitApplied ∈ past;
  an_claims t payload : AnsClaimed t payload ∈ past →
    ∃ e, bt_get (ms_outbox s) (ct_receipt_identity t) = Some e ∧ ct_claim_revision t ≤ default 0 (oe_claim_revision e);
  an_intents t : AnsIntent t ∈ past →
    ∃ e, bt_get (ms_outbox s) (ct_receipt_identity t) = Some e ∧ oe_external_intent_started e = true ∧
      (is_claimed e = true → token_current t e = true);
  an_current t e : bt_get (ms_outbox s) (ct_receipt_identity t) = Some e → token_current t e = true →
    AnsClaimed t (oe_payload e) ∈ past
}.

Lemma token_current_facts t e :
  token_current t e = true →
  is_claimed e = true ∧ oe_head_revision e = ct_head_revision t ∧ oe_claim_revision e = Some (ct_claim_revision t) ∧
  oe_claimant_id e = Some (ct_claimant_id t) ∧ oe_required_authority e = ct_authority t ∧
  oe_acquired_at_ms e = Some (ct_acquired_at_ms t) ∧ oe_expires_at_ms e = Some (ct_expires_at_ms t).
Proof.
  unfold token_current. rewrite !andb_true_iff, !bool_decide_eq_true, Z.eqb_eq. tauto.
Qed.

(** An entry is held by one token. *)
Lemma token_current_inj t t' e :
  token_current t e = true → token_current t' e = true → ct_receipt_identity t' = ct_receipt_identity t → t' = t.
Proof.
  intros (? & ? & ? & ? & ? & ? & ?)%token_current_facts (? & ? & ? & ? & ? & ? & ?)%token_current_facts ?.
  destruct t, t'; cbn in *; congruence.
Qed.

Lemma answered_same past s a :
  (∀ p, a ≠ AnsCommitted p CommitApplied) → (∀ t payload, a ≠ AnsClaimed t payload) → (∀ t, a ≠ AnsIntent t) →
  answered past s → answered (past ++ [a]) s.
Proof.
  intros Hp Hc Hi [H1 H2 H3 H4 H5]. split.
  - intros p [?|<-%list_elem_of_singleton]%elem_of_app; [by apply H1|by destruct (Hp p)].
  - intros; apply elem_of_app; left; eauto.
  - intros t payload [?|<-%list_elem_of_singleton]%elem_of_app; [by eapply H3|by destruct (Hc t payload)].
  - intros t [?|<-%list_elem_of_singleton]%elem_of_app; [by apply H4|by destruct (Hi t)].
  - intros; apply elem_of_app; left; eauto.
Qed.

Lemma answered_applied past s p state ledger receipt :
  store_ok s → answered past s → ms_receipts s !! pc_receipt_identity p = None → cr_prepared receipt = p →
  answered (past ++ [AnsCommitted p CommitApplied])
    (mkOutboxStore state (<[pc_receipt_identity p := receipt]> (ms_receipts s))
       (bt_insert (pc_receipt_identity p) (new_outbox_entry p) (ms_outbox s)) ledger).
Proof.
  intros Hs [H1 H2 H3 H4 H5] Hr Hp.
  assert (bt_get (ms_outbox s) (pc_receipt_identity p) = None) as Hnone.
  { apply eq_None_ne_Some. intros e (_ & _ & r & Hr' & _)%(so_entries _ Hs). congruence. }
  assert (∀ id e, bt_get (ms_outbox s) id = Some e →
    bt_get (bt_insert (pc_receipt_identity p) (new_outbox_entry p) (ms_outbox s)) id = Some e) as Hkeep.
  { intros id e He. unfold bt_insert. rewrite bt_get_upsert_ne; [done|]. intros <-. congruence. }
  split; cbn.
  - intros q [Hq|[= ->]%list_elem_of_singleton]%elem_of_app.
    + destruct (H1 _ Hq) as (r & ? & ?). exists r. rewrite lookup_insert_ne by congruence. done.
    + exists receipt. by rewrite lookup_insert_eq.
  - intros id r. destruct (decide (pc_receipt_identity p = id)) as [<-|Hne].
    + rewrite lookup_insert_eq. intros [= <-]. subst. set_solver.
    + rewrite lookup_insert_ne by done. intros ?%H2. set_solver.
  - intros t payload [Ht|?%list_elem_of_singleton]%elem_of_app; [|done].
    destruct (H3 _ _ Ht) as (e & ? & ?). eauto.
  - intros t [Ht|?%list_elem_of_singleton]%elem_of_app; [|done].
    destruct (H4 _ Ht) as (e & ? & ?). eauto.
  - intros t e. unfold bt_insert. destruct (decide (pc_receipt_identity p = ct_receipt_identity t)) as [Hi|Hne].
    + rewrite <- Hi, bt_get_upsert_eq by apply Hs. by intros [= <-].
    + rewrite bt_get_upsert_ne by done. intros. apply elem_of_app; left; eauto.
Qed.

Lemma entry_step_claims e e' a :
  entry_step e e' a → default 0 (oe_claim_revision e) ≤ default 0 (oe_claim_revision e').
Proof.
  intros [? ->|t ? ? ? (? & ? & -> & ?)%token_current_facts ? ?|? ? ? ->|? ? ? ? ->]; cbn in *; lia.
Qed.

Lemma entry_step_intent e e' a :
  entry_step e e' a → oe_external_intent_started e = true →
  oe_external_intent_started e' = true ∧
  (is_claimed e' = true → is_claimed e = true ∧ ∀ t, token_current t e' = token_current t e).
Proof. intros [? ->| | ? ? ? ->| ]; intros; split; [done|done|congruence|congruence|done|done|congruence|congruence]. Qed.

Lemma entry_step_token e e' a t :
  entry_step e e' a → token_current t e' = true → ct_receipt_identity t = oe_receipt_identity e →
  token_current t e = true ∨ a = AnsClaimed t (oe_payload e).
Proof.
  intros [? ->|t' ? ? ? Ht ? ?|? ? ? ->|m ? ? Hc ?] Ht' Hr; [by left| |by left|].
  - right. f_equal. by apply (token_current_inj t t' e'); [..|congruence].
  - apply token_current_facts in Ht' as [? _]. congruence.
Qed.

Lemma entry_step_answer e e' a :
  entry_step e e' a →
  match a with
  | AnsCommitted _ _ => False
  | AnsClaimed t payload => ct_receipt_identity t = oe_receipt_identity e ∧ token_current t e' = true ∧
      oe_external_intent_started e = false ∧ default 0 (oe_claim_revision e) < ct_claim_revision t
  | AnsIntent t => ct_receipt_identity t = oe_receipt_identity e ∧ token_current t e = true ∧ e' = set_intent e
  | _ => True
  end.
Proof. by destruct 1. Qed.

Lemma answered_entry past s id e e' a :
  store_ok s → answered past s → bt_get (ms_outbox s) id = Some e → entry_step e e' a →
  answered (past ++ [a]) (set_outbox id e' s).
Proof.
  intros Hs [H1 H2 H3 H4 H5] Hg Hstep. destruct (so_entries _ Hs _ _ Hg) as (Hid & _ & _).
  pose proof (entry_step_answer _ _ _ Hstep) as Ha. split.
  - intros p [?|<-%list_elem_of_singleton]%elem_of_app; [by apply H1|done].
  - intros i r ?%H2. set_solver.
  - intros t payload [Ht|<-%list_elem_of_singleton]%elem_of_app; rewrite set_outbox_get by apply Hs.
    + destruct (H3 _ _ Ht) as (e0 & Hg0 & ?). case_decide as E; [|eauto]. rewrite <- E, Hg in Hg0. injection Hg0 as <-.
      pose proof (entry_step_claims _ _ _ Hstep). exists e'. split; [done|lia].
    + destruct Ha as (-> & (_ & _ & Hc & _)%token_current_facts & _). rewrite Hid, decide_True by done.
      exists e'. rewrite Hc. done.
  - intros t [Ht|<-%list_elem_of_singleton]%elem_of_app; rewrite set_outbox_get by apply Hs.
    + destruct (H4 _ Ht) as (e0 & Hg0 & Hi & Hc). case_decide as E; [|eauto]. rewrite <- E, Hg in Hg0. injection Hg0 as <-.
      destruct (entry_step_intent _ _ _ Hstep Hi) as [? Hcl]. exists e'. split; [done|split; [done|]].
      intros [? ->]%Hcl. by apply Hc.
    + destruct Ha as (-> & ? & ->). rewrite Hid, decide_True by done. exists (set_intent e). done.
  - intros t e0. rewrite set_outbox_get by apply Hs. case_decide as Hi.
    + intros [= <-] Ht. destruct (entry_step_work _ _ _ Hstep) as (_ & -> & _). rewrite Hi in Hg.
      destruct (entry_step_token _ _ _ t Hstep Ht) as [?| ->]; [congruence|apply elem_of_app; left; eauto|set_solver].
    + intros. apply elem_of_app; left; eauto.
Qed.

Lemma step_answered past s s' a :
  store_ok s → answered past s → store_step s s' a → answered (past ++ [a]) s'.
Proof.
  intros Hs Ha [? ->|p r ? ? ->|p state ledger r Hr _ _ _ Hp ->|id e e' a' Hg Hstep _ ->].
  - by apply answered_same.
  - by apply answered_same.
  - by apply answered_applied.
  - by apply (answered_entry _ _ _ e).
Qed.

(** An entry's claim and its effects bound what comes next. *)
Lemma step_follows past s s' a :
  store_ok s → answered past s → store_step s s' a → Forall (λ x, may_follow x a) past.
Proof.
  intros Hs [H1 H2 H3 H4 _] Hstep. apply Forall_forall. intros x Hx.
  destruct Hstep as [? ->|p r Hr Hp ->|p state ledger r Hr _ _ _ Hp ->|id e e' a Hg Hstep _ ->].
  - by destruct x as [? []| | | |].
  - destruct x as [q []| | | |]; try done. cbn. intros E. destruct (H1 _ Hx) as (r' & ? & ?).
    split; [|done]. congruence.
  - destruct x as [q []| | | |]; try done. cbn. intros E. destruct (H1 _ Hx) as (r' & ? & ?). congruence.
  - destruct (so_entries _ Hs _ _ Hg) as (Hid & _). apply entry_step_answer in Hstep.
    destruct a; [done| | |by destruct x as [? []| | | |]..].
    + destruct Hstep as (Ht & _ & Hi & Hlt). destruct x as [? []|t pay|t| |]; try done; cbn; intros E.
      * destruct (H3 _ _ Hx) as (e0 & He0 & ?). rewrite <- E, Ht, Hid, Hg in He0. injection He0 as <-. lia.
      * destruct (H4 _ Hx) as (e0 & He0 & ? & _). rewrite <- E, Ht, Hid, Hg in He0. congruence.
    + destruct Hstep as (Ht & Hc & _). pose proof (token_current_facts _ _ Hc) as (Hcl & _ & Hrev & _).
      destruct x as [? []|t pay|t| |]; try done; cbn; intros E.
      * destruct (H3 _ _ Hx) as (e0 & He0 & Hle). rewrite <- E, Ht, Hid, Hg in He0. injection He0 as <-.
        by rewrite Hrev in Hle.
      * destruct (H4 _ Hx) as (e0 & He0 & _ & Hcur). rewrite <- E, Ht, Hid, Hg in He0. injection He0 as <-.
        by apply (token_current_inj _ _ e); [apply Hcur|..].
Qed.

(** ** Runs *)
Lemma empty_store_ok : store_ok empty_store.
Proof. split; [constructor|done|]. intros id r. cbn. by rewrite lookup_empty. Qed.

Lemma run_invariant (I : list StoreAnswer → InMemoryAtomicStateOutboxStoreV1 → Prop) :
  (∀ past s s' a, I past s → store_ok s → store_step s s' a → I (past ++ [a]) s') →
  ∀ calls past s, I past s → store_ok s →
    I (past ++ (run_calls sha256 calls s).1) (run_calls sha256 calls s).2 ∧
    store_ok (run_calls sha256 calls s).2.
Proof.
  intros Hstep calls. induction calls as [|call calls IH]; intros past s HI Hs; cbn.
  - by rewrite app_nil_r.
  - pose proof (perform_step call s Hs) as Hp. destruct (perform sha256 call s) as [a s1]; cbn in Hp.
    destruct (IH (past ++ [a]) s1) as [HI' Hs']; [by eapply Hstep|by eapply store_step_ok|].
    destruct (run_calls sha256 calls s1) as [answers s2]; cbn in *. by rewrite <- app_assoc in HI'.
Qed.

Lemma ForallOrdPairs_snoc {A} (R : A → A → Prop) l x :
  ForallOrdPairs R l → Forall (λ y, R y x) l → ForallOrdPairs R (l ++ [x]).
Proof.
  induction 1 as [|y l Hy Hl IH]; cbn; [repeat constructor|]. intros [? ?]%Forall_cons.
  constructor; [|by apply IH]. apply Forall_app. by repeat constructor.
Qed.

(** The commit whose effects a token starts, under its authority and with its payload. *)
Definition backed_by_commit (past : list StoreAnswer) (t : OutboxClaimTokenV1) : Prop :=
  ∃ p, AnsCommitted p CommitApplied ∈ past ∧ pc_receipt_identity p = ct_receipt_identity t ∧
    pc_dispatch_authority p = ct_authority t ∧ AnsClaimed t (pc_outbox_payload p) ∈ past.

Lemma step_backed past s s' t :
  store_ok s → answered past s → store_step s s' (AnsIntent t) → backed_by_commit past t.
Proof.
  intros Hs Ha Hstep. inversion Hstep as [| | |id e e' a Hg Hes _ _]; subst.
  destruct (so_entries _ Hs _ _ Hg) as (Hid & _ & r & Hr & Hpay & Hau).
  apply entry_step_answer in Hes as (Ht & Hc & _). exists (cr_prepared r).
  split; [by eapply an_receipts|]. destruct (so_receipts _ Hs _ _ Hr) as [-> _].
  split; [congruence|]. destruct (token_current_facts _ _ Hc) as (_ & _ & _ & _ & <- & _).
  split; [done|]. rewrite <- Hpay. eapply an_current; [done| |done]. by rewrite Ht, Hid.
Qed.

(** C15: Under every sequence of calls, by any number of workers and replays, the answers of
    the store come in an order that makes the effects of a commit exactly-once: a receipt is
    committed once and later commits under it are replays of the same commit; each claim of
    a receipt takes over from the earlier ones, whose tokens start nothing any more; once an
    effect has been started nobody claims the receipt again and no other token starts it; and
    the token that starts it was handed out with the payload and the authority of the commit. *)
Theorem stateful_effects_are_exactly_once calls :
  let answers := (run_calls sha256 calls empty_store).1 in
  ForallOrdPairs may_follow answers ∧ ∀ t, AnsIntent t ∈ answers → backed_by_commit answers t.
Proof.
  destruct (run_invariant (λ past s, answered past s ∧ ForallOrdPairs may_follow past ∧
    ∀ t, AnsIntent t ∈ past → backed_by_commit past t)) with calls (@nil StoreAnswer) empty_store as [(_ & H) _].
  - intros past s s' a (Ha & Ho & Hb) Hs Hstep. split; [by eapply step_answered|]. split.
    + apply ForallOrdPairs_snoc; [done|]. by eapply step_follows.
    + intros t Ht. assert (backed_by_commit past t) as (p & ? & ? & ? & ?).
      { apply elem_of_app in Ht as [?|<-%list_elem_of_singleton]; [by apply Hb|by eapply step_backed]. }
      exists p. set_solver.
  - split; [split; intros; set_solver|split; [constructor|set_solver]].
  - apply empty_store_ok.
  - done.
Qed.

(** ** The ledger *)

(** An auditor who follows the revisions and the value digests of one key. *)
Definition audit_entry (current : option (Z * string)) (entry : StateTransitionLedgerEntryV1)
  : option (option (Z * string)) :=
  if bool_decide (le_before_revision entry = fst <$> current)
     && is_none_or (λ c, String.eqb (le_before_value_digest entry) c.2) current
     && (le_after_revision entry =? default 0 (fst <$> current) + 1)
  then Some (Some (le_after_revision entry, le_after_value_digest entry)) else None.

Fixpoint audit (current : option (Z * string)) (ledger : list StateTransitionLedgerEntryV1)
  : option (option (Z * string)) :=
  match ledger with
  | [] => Some current
  | entry :: rest => audit_entry current entry ≫= λ next, audit next rest
  end.

Lemma audit_snoc current ledger entry :
  audit current (ledger ++ [entry]) = audit current ledger ≫= λ next, audit_entry next entry.
Proof.
  revert current. induction ledger as [|e ledger IH]; intros current; cbn; [by destruct (audit_entry _ _)|].
  destruct (audit_entry current e); cbn; [apply IH|done].
Qed.

Definition stored_summary (state : gmap ResolvedStateKeyV1 StoredStateV1) (key : ResolvedStateKeyV1)
  : option (Z * string) :=
  (λ stored, (sd_revision stored, state_value_digest sha256 (sd_value stored))) <$> state !! key.

Definition ledger_of (key : ResolvedStateKeyV1) (ledger : list StateTransitionLedgerEntryV1) :=
  filter (λ entry, le_key entry = key) ledger.

Definition audited (state : gmap ResolvedStateKeyV1 StoredStateV1) (ledger : list StateTransitionLedgerEntryV1) : Prop :=
  ∀ key, audit None (ledger_of key ledger) = Some (stored_summary state key).

(** The write was computed from what the key holds. *)
Definition write_current (state : gmap ResolvedStateKeyV1 StoredStateV1) (write : ResolvedStateWriteV1) : Prop :=
  wr_expected_revision write = sd_revision <$> state !! wr_key write ∧
  ∀ stored, state !! wr_key write = Some stored → sd_value stored = wr_before write.

Definition written (write : ResolvedStateWriteV1) : StoredStateV1 :=
  mkStoredState (wr_after write) (default 0 (wr_expected_revision write) + 1) (wr_declaration_digest write).

Lemma next_revision write r :
  match wr_expected_revision write with
  | None => Ok 1
  | Some revision => ok_or (revision_next revision) StoreRevisionExhausted
  end = Ok r → r = default 0 (wr_expected_revision write) + 1.
Proof.
  destruct (wr_expected_revision write) as [z|]; cbn; [|by intros [= <-]].
  unfold revision_next, u64_checked_add. destruct (z + 1 <=? u64_max); cbn; congruence.
Qed.

Lemma audited_write state ledger id index write r entry :
  audited state ledger → write_current state write → r = default 0 (wr_expected_revision write) + 1 →
  transition_entry sha256 id index write r = Ok entry →
  audited (<[wr_key write := mkStoredState (wr_after write) r (wr_declaration_digest write)]> state) (ledger ++ [entry]).
Proof.
  intros Ha [Hr Hv] -> (i & _ & [= <-])%bind_Ok_inv key. unfold ledger_of. rewrite filter_app.
  unfold stored_summary. destruct (decide (wr_key write = key)) as [<-|Hne].
  - rewrite filter_cons_True, filter_nil, audit_snoc by done. fold (ledger_of (wr_key write) ledger).
    rewrite Ha, lookup_insert_eq. unfold stored_summary, audit_entry. cbn.
    destruct (state !! wr_key write) as [stored|]; cbn in *; rewrite Hr; cbn.
    + by rewrite bool_decide_eq_true_2, <- (Hv _ eq_refl), String.eqb_refl, Z.eqb_refl.
    + done.
  - rewrite filter_cons_False, filter_nil, app_nil_r, lookup_insert_ne by done. apply Ha.
Qed.

Lemma apply_writes_audited id index writes state ledger state' ledger' :
  audited state ledger → NoDup (map wr_key writes) → Forall (write_current state) writes →
  apply_writes sha256 id index writes state ledger = Ok (state', ledger') → audited state' ledger'.
Proof.
  revert index state ledger. induction writes as [|write writes IH]; intros index state ledger Ha Hd Hc H; cbn in *.
  { by simplify_eq. }
  apply bind_Ok_inv in H as (r & Hr%next_revision & H). apply bind_Ok_inv in H as (entry & He & H).
  apply NoDup_cons in Hd as [Hnew Hd]. apply Forall_cons in Hc as [Hc Hcs].
  eapply IH; [by eapply audited_write|done| |exact H].
  apply Forall_forall. intros w Hw. rewrite Forall_forall in Hcs. destruct (Hcs _ Hw) as [? ?].
  assert (wr_key write ≠ wr_key w). { intros E. destruct Hnew. rewrite E. by apply list_elem_of_fmap_2. }
  unfold write_current. by rewrite lookup_insert_ne.
Qed.

Lemma apply_writes_state id index writes state ledger state' ledger' key :
  NoDup (map wr_key writes) → apply_writes sha256 id index writes state ledger = Ok (state', ledger') →
  state' !! key = match List.find (λ w, bool_decide (wr_key w = key)) writes with
                  | Some write => Some (written write)
                  | None => state !! key
                  end.
Proof.
  revert index state ledger. induction writes as [|write writes IH]; intros index state ledger Hd H; cbn in *.
  { by simplify_eq. }
  apply bind_Ok_inv in H as (r & Hr%next_revision & H). apply bind_Ok_inv in H as (entry & He & H).
  apply NoDup_cons in Hd as [Hnew Hd]. rewrite (IH _ _ _ Hd H). case_bool_decide as Hk; subst.
  - destruct (List.find _ writes) as [w|] eqn:Hf; [|by rewrite lookup_insert_eq].
    apply find_some in Hf as [Hw%list_elem_of_In Hk%bool_decide_eq_true]. destruct Hnew. rewrite <- Hk.
    by apply list_elem_of_fmap_2.
  - case_match; [done|]. by rewrite lookup_insert_ne.
Qed.

Lemma strictly_sorted_lt {A} `{OrdLaws A} (x : A) l :
  strictly_sorted (x :: l) = true → Forall (λ y, cmp x y = Lt) l ∧ strictly_sorted l = true.
Proof.
  revert x. induction l as [|y l IH]; intros x; [done|].
  change (strictly_sorted (x :: y :: l)) with
    ((match cmp x y with Lt => true | _ => false end) && strictly_sorted (y :: l)).
  intros [Hxy Hs]%andb_true_iff. destruct (cmp x y) eqn:E; try done. split; [|done]. constructor; [done|].
  apply IH in Hs as [Hy _]. eapply Forall_impl; [done|]. intros z Hz. by eapply cmp_lt_trans.
Qed.

Lemma strictly_sorted_NoDup {A} `{OrdLaws A} (l : list A) : strictly_sorted l = true → NoDup l.
Proof.
  induction l as [|x l IH]; [constructor|]. intros [Hx Hs]%strictly_sorted_lt. constructor; [|by apply IH].
  intros Hin. rewrite Forall_forall in Hx. apply Hx in Hin. by rewrite cmp_refl in Hin.
Qed.

(** The read holds what the key holds. *)
Definition read_holds (state : gmap ResolvedStateKeyV1 StoredStateV1) (read : ResolvedStateReadV1) : Prop :=
  rd_revision read = sd_revision <$> state !! rd_key read ∧
  ∀ stored, state !! rd_key read = Some stored →
    sd_value stored = rd_value read ∧ sd_declaration_digest stored = rd_declaration_digest read.

Lemma read_current_holds state read : read_current state read = true → read_holds state read.
Proof.
  unfold read_current, read_holds. destruct (state !! rd_key read) as [st|], (rd_revision read) as [r|]; try done; cbn.
  rewrite !andb_true_iff, Z.eqb_eq, String.eqb_eq, bool_decide_eq_true. naive_solver.
Qed.

(** An accepted commit writes keys it has read, once each. *)
Lemma accepted_writes s p :
  commit_verify sha256 p = true → forallb (read_current (ms_state s)) (pc_reads p) = true →
  NoDup (map wr_key (pc_writes p)) ∧ Forall (write_current (ms_state s)) (pc_writes p).
Proof.
  unfold commit_verify, validate_read_write_sets. rewrite !andb_true_iff.
  intros (((((_ & _) & _) & (((((_ & _) & _) & Hsorted) & Hbacked) & _) & _) & _) & _) Hreads.
  split; [by apply strictly_sorted_NoDup|]. apply Forall_forall. intros w Hw.
  rewrite forallb_forall in Hbacked, Hreads. specialize (Hbacked w (proj1 (list_elem_of_In _ _) Hw)).
  destruct (List.find _ _) as [read|] eqn:Hf; [|done]. cbn in Hbacked.
  apply find_some in Hf as [Hin Hkey%bool_decide_eq_true].
  apply Hreads, read_current_holds in Hin as [Hrev Hval]. rewrite Hkey in Hrev, Hval.
  unfold backs in Hbacked. rewrite !andb_true_iff, !bool_decide_eq_true in Hbacked.
  destruct Hbacked as [[Hr _] Hv]. split; [congruence|]. intros st [? _]%Hval. congruence.
Qed.

(** C16: After every sequence of calls the ledger explains the state: for each key an auditor
    who starts from nothing and checks each entry against the last (its revision, the digest
    of the value it replaced, the next revision being one more) accepts all the entries of
    the key and ends at the revision and the value digest the store holds. *)
Theorem stateful_ledger_explains_state calls key :
  let s := (run_calls sha256 calls empty_store).2 in
  audit None (ledger_of key (ms_transitions s)) = Some (stored_summary (ms_state s) key).
Proof.
  refine (proj1 (run_invariant (λ _ s, audited (ms_state s) (ms_transitions s)) _ calls [] empty_store _
    empty_store_ok) key); [|done].
  intros past s s' a Ha _ [? ->|? ? ? ? ->|p state ledger r _ Hv Hr Hw _ ->|id e e' a' _ _ _ ->]; [done|done| |done].
  cbn. destruct (accepted_writes _ _ Hv Hr). by eapply apply_writes_audited.
Qed.

(** ** Commits *)
Lemma snapshot_again entry read state state' :
  snapshot_read state entry = Ok read → read_holds state' read → snapshot_read state' entry = Ok read.
Proof.
  unfold snapshot_read, read_holds. intros H [Hr Hv].
  assert (rd_key read = qe_key entry ∧ rd_declaration_digest read = qe_declaration_digest entry ∧
          (rd_revision read = None → rd_value read = qe_default_value entry)) as (Hk & Hd & Hdef).
  { destruct (state !! _); [case_match|]; naive_solver. }
  rewrite Hk in Hr, Hv. destruct read as [k rev d v]; cbn in *.
  destruct (state' !! qe_key entry) as [st|]; cbn in Hr; subst; [|by rewrite Hdef].
  destruct (Hv _ eq_refl) as [<- ->]. by rewrite String.eqb_refl.
Qed.

Lemma snapshots_again entries reads state state' :
  snapshot_reads state entries = Ok reads → Forall (read_holds state') reads → snapshot_reads state' entries = Ok reads.
Proof.
  revert reads. induction entries as [|entry entries IH]; intros reads H Hf; cbn in *; [done|].
  apply bind_Ok_inv in H as (read & Hr & H). apply bind_Ok_inv in H as (rest & Hrest & [= <-]).
  apply Forall_cons in Hf as [Hread Hf]. rewrite (snapshot_again _ _ _ _ Hr Hread). cbn. by rewrite (IH _ Hrest Hf).
Qed.

(** Commits are serializable. If a commit is applied that was prepared from a snapshot
    of the store at some earlier moment, the snapshot taken again at the moment of the
    commit is the same one, so the evaluation holds there; and the commit changes exactly
    the keys it writes, each to the value evaluated and to the next revision. *)
Theorem stateful_commits_are_serializable request earlier snapshot p s s' result :
  read_snapshot_v1 request earlier = Ok snapshot → pc_reads p = sp_reads snapshot →
  atomic_commit_v1 sha256 p s = (Ok result, s') → ar_disposition result = CommitApplied →
  read_snapshot_v1 request s = Ok snapshot ∧
  ∀ key, ms_state s' !! key = match List.find (λ w, bool_decide (wr_key w = key)) (pc_writes p) with
                              | Some write => Some (written write)
                              | None => ms_state s !! key
                              end.
Proof.
  intros Hsnap Hreads Hc Hd. pose proof (commit_step p s) as Hstep. rewrite Hc in Hstep. cbn in Hstep.
  rewrite Hd in Hstep. inversion Hstep as [| |p' state ledger r _ Hv Hr Hw _ ->|? ? ? ? ? Hes]; subst;
    [|by apply entry_step_answer in Hes].
  split.
  - unfold read_snapshot_v1 in *. apply bind_Ok_inv in Hsnap as (reads & Hsnap & [= <-]). cbn in Hreads. subst reads.
    rewrite (snapshots_again _ _ _ (ms_state s) Hsnap); [done|]. apply Forall_forall. intros read Hin.
    rewrite forallb_forall in Hr. by apply read_current_holds, Hr, list_elem_of_In.
  - intros key. destruct (accepted_writes _ _ Hv Hr). by eapply apply_writes_state.
Qed.

(** ** Refusals *)
Lemma bt_insert_same {V} (m : list (Z * Z * V)) k v : bt_sorted m → bt_get m k = Some v → bt_insert k v m = m.
Proof.
  unfold bt_insert. induction 1 as [|[k' v'] m Hm IH Hall]; cbn; [done|]. destruct (cmp k k') eqn:E; cbn.
  - apply (proj1 (cmp_eq_iff k k')) in E as ->. by intros [= ->].
  - rewrite bt_get_fresh; [done|]. eapply Forall_impl; [exact Hall|]. intros e He. exact (cmp_lt_trans _ _ _ E He).
  - intros Hg. by rewrite IH.
Qed.

(** A call the store refuses, whatever the error and wherever the method stopped, leaves
    every store it can be called on as it was: a claim that advances the head of the entry
    has passed every later check already. *)
Theorem refused_store_calls_change_nothing calls call error s :
  (run_calls sha256 calls empty_store).2 = s → (perform sha256 call s).1 = AnsRefused error →
  (perform sha256 call s).2 = s.
Proof.
  intros <- He.
  destruct (run_invariant (λ _ _, True) (λ _ _ _ _ _ _ _, I) calls [] empty_store I empty_store_ok) as [_ Hs].
  pose proof (perform_step call _ Hs) as Hstep. rewrite He in Hstep. inversion Hstep as [| | |id e e' a Hg Hes _ Heq]; [done|].
  rewrite Heq. inversion Hes; subst. unfold set_outbox. rewrite bt_insert_same by (done || apply Hs).
  by destruct (run_calls sha256 calls empty_store).2.
Qed.
End safety.
