(* ===== verification/StatefulFlow.v ===== *)
(** * From a spec to a committed event

    The crates [automation-stateful-compiler] and [automation-stateful-runtime] together. What
    the compiler lists as a workflow's reads is all an evaluation can see; so an evaluation
    prepared from a snapshot of just those rows, once its commit is accepted, is the workflow
    run at that moment on everything the store holds. And for a compiled bundle none of the
    consistency checks on the way can fail. *)

From Stdlib Require Import ZArith Lia Ascii String.
From stdpp Require Import base decidable list strings gmap sets fin_sets numbers relations.
From S2P Require Import Prelude RustStd RustText AutomationState AutomationPlan AutomationValidate RuleSet SpecModel SpecValidate SpecSound SpecCompile ApprovalBinding.
From S2P Require Import StatefulModel StatefulValidate StatefulEval StatefulSound StatefulStore StatefulCompile Interaction StatefulEvent StatefulPrepare StatefulSafety.
Open Scope string_scope.
Open Scope list_scope.
Open Scope Z_scope.

(** ** An evaluation sees only what the compiler lists *)
Definition agree_on (ids : gset string) (s s' : gmap string StateValueV1) : Prop :=
  ∀ id, id ∈ ids → s !! id = s' !! id.

Lemma agree_on_mono ids ids' s s' : agree_on ids s s' → ids' ⊆ ids → agree_on ids' s s'.
Proof. intros H Hsub id Hid. apply H. set_solver. Qed.

Section agree.
Context (inputs : list (string * string)) (s s' : gmap string StateValueV1).

Lemma values_agree e node_id : agree_on (collect_value_reads e) s s' →
  evaluate_value inputs s e node_id = evaluate_value inputs s' e node_id.
Proof.
  induction e as [v|input|id|e1 IH1 e2 IH2|e1 IH1 e2 IH2]; intros Ha; cbn [evaluate_value]; try done.
  - rewrite (Ha id); [done|]. cbn. set_solver.
  - rewrite IH1, IH2; [done|eapply agree_on_mono; [done|cbn; set_solver]..].
  - rewrite IH1, IH2; [done|eapply agree_on_mono; [done|cbn; set_solver]..].
Qed.

Lemma conditions_agree c : agree_on (collect_condition_reads c) s s' →
  evaluate_stateful_condition inputs s c = evaluate_stateful_condition inputs s' c.
Proof.
  induction c as [|i|i v|i e|l o r|l IH|l IH|c IH] using condition_induction; intros Ha;
    cbn [evaluate_stateful_condition collect_condition_reads] in *; try done.
  - rewrite (values_agree e None), (Ha i); [done|set_solver|eapply agree_on_mono; [done|set_solver]].
  - rewrite (values_agree l None), (values_agree r None); [done|eapply agree_on_mono; [done|set_solver]..].
  - induction IH as [|c l Hc _ IH]; [done|]. cbn in Ha.
    rewrite Hc by (eapply agree_on_mono; [done|set_solver]).
    destruct (evaluate_stateful_condition inputs s' c) as [[]|]; cbn; try done.
    apply IH. eapply agree_on_mono; [done|set_solver].
  - induction IH as [|c l Hc _ IH]; [done|]. cbn in Ha.
    rewrite Hc by (eapply agree_on_mono; [done|set_solver]).
    destruct (evaluate_stateful_condition inputs s' c) as [[]|]; cbn; try done.
    apply IH. eapply agree_on_mono; [done|set_solver].
  - by rewrite IH.
Qed.

Lemma transitions_agree declarations actions :
  agree_on (list_to_set (map sn_variable_id actions)
            ∪ ⋃ (map (λ action, collect_value_reads (sn_value action)) actions)) s s' →
  collect_results (pending_transition inputs s declarations) actions
  = collect_results (pending_transition inputs s' declarations) actions.
Proof.
  induction actions as [|action actions IH]; intros Ha; cbn in *; [done|].
  rewrite IH by (eapply agree_on_mono; [done|set_solver]). unfold pending_transition.
  rewrite (Ha (sn_variable_id action)) by set_solver.
  by rewrite (values_agree (sn_value action)) by (eapply agree_on_mono; [done|set_solver]).
Qed.
End agree.

(** ** What a compiled bundle holds *)
Lemma insert_by_perm {A} (le : A → A → bool) x l : insert_by le x l ≡ₚ x :: l.
Proof.
  induction l as [|y l IH]; cbn; [done|]. destruct (le x y); [done|]. rewrite IH. by apply Permutation_swap.
Qed.

Lemma sort_by_perm {A} (le : A → A → bool) l : sort_by le l ≡ₚ l.
Proof. unfold sort_by. induction l as [|x l IH]; cbn; [done|]. by rewrite insert_by_perm, IH. Qed.

Lemma collect_results_Forall2 {E A B} (f : A → Result E B) l l' :
  collect_results f l = Ok l' ↔ Forall2 (λ x y, f x = Ok y) l l'.
Proof.
  revert l'. induction l as [|x l IH]; intros l'; cbn.
  - split; [intros [= <-]; constructor|by inversion 1].
  - split.
    + intros (y & Hy & (ys & Hys%IH & [= <-])%bind_Ok_inv)%bind_Ok_inv. by constructor.
    + inversion 1 as [|? y ? ys Hy Hys]; subst. apply IH in Hys. rewrite Hy. cbn. by rewrite Hys.
Qed.

Lemma variable_indices_lookup variables id z : variable_indices variables !! id = Some z →
  ∃ i variable, variables !! i = Some variable ∧ sv_id variable = id ∧ z = as_u16 (Z.of_nat i).
Proof.
  unfold variable_indices. intros H.
  assert (Hf : foldl (λ (m : gmap string Z) (p : nat * StateVariableV1), <[sv_id p.2 := as_u16 (Z.of_nat p.1)]> m) ∅
                 (imap pair variables) !! id = Some z).
  { rewrite <- H. clear H. generalize (∅ : gmap string Z). induction (imap pair variables) as [|[i v] l IH];
      intros m; [done|]. cbn. apply IH. }
  apply (foldl_insert_elem (λ p, sv_id p.2) (λ p, as_u16 (Z.of_nat p.1))) in Hf as [Hf|([i v] & Hin & Hid & Hz)];
    [by rewrite lookup_empty in Hf|].
  apply elem_of_lookup_imap_1 in Hin as (j & y & [= -> ->] & Hj). exists j, y. by subst.
Qed.

Lemma indices_of_ids ids indices l : indices_in_declaration_order ids indices = Ok l →
  ∀ z, z ∈ l ↔ ∃ id, id ∈ ids ∧ indices !! id = Some z.
Proof.
  intros (found & Hf%ok_or_Ok_inv & [= <-])%bind_Ok_inv z. rewrite sort_by_perm.
  apply mapM_Some in Hf. rewrite list_elem_of_lookup. split.
  - intros [k Hk]. destruct (Forall2_lookup_r _ _ _ _ _ Hf Hk) as (id & Hid & Hz). exists id. split; [|done].
    apply elem_of_elements. by eapply list_elem_of_lookup_2.
  - intros (id & Hid%elem_of_elements%list_elem_of_lookup & Hz). destruct Hid as [k Hk].
    destruct (Forall2_lookup_l _ _ _ _ _ Hf Hk) as (z' & Hz' & E). exists k. congruence.
Qed.

Lemma indices_total ids indices l : indices_in_declaration_order ids indices = Ok l →
  ∀ id, id ∈ ids → is_Some (indices !! id).
Proof.
  intros (found & Hf%ok_or_Ok_inv & _)%bind_Ok_inv id Hid%elem_of_elements%list_elem_of_lookup.
  destruct Hid as [k Hk]. apply mapM_Some in Hf. destruct (Forall2_lookup_l _ _ _ _ _ Hf Hk) as (z & _ & E). eauto.
Qed.

Lemma foldl_insert_out {A V} (key : A → string) (val : A → V) l (m : gmap string V) id : id ∉ map key l →
  foldl (λ m x, <[key x := val x]> m) m l !! id = m !! id.
Proof.
  revert m. induction l as [|x l IH]; intros m; cbn; [done|]. intros [Hne Hin]%not_elem_of_cons.
  by rewrite IH, lookup_insert_ne.
Qed.

Lemma foldl_insert_in {A V} (key : A → string) (val : A → V) l (m : gmap string V) x : NoDup (map key l) → x ∈ l →
  foldl (λ m x, <[key x := val x]> m) m l !! key x = Some (val x).
Proof.
  revert m. induction l as [|y l IH]; intros m; cbn; [by intros _ ?%not_elem_of_nil|].
  intros [Hy Hnd]%NoDup_cons [->|Hin]%elem_of_cons; [|by apply IH]. by rewrite foldl_insert_out, lookup_insert_eq.
Qed.

(** The row a variable has for an event, if it has one. *)
Definition row_of (envelope : EventEnvelopeV1) (variable : StateVariableV1) : option ResolvedStateKeyV1 :=
  let scope := ev_scope envelope in
  address ← match sv_scope variable with
            | ScopeInstallation => Some AddressInstallation
            | ScopeActor => Some (AddressActor (es_actor_user_id scope))
            | ScopeInstance => AddressInstance <$> es_instance_id scope
            | ScopeActorInstance => AddressActorInstance (es_actor_user_id scope) <$> es_instance_id scope
            end;
  Some (mkStateKey (es_tenant_id scope) (es_installation_id scope) (es_guild_id scope)
          (pi_program_key (ev_program envelope)) (sv_id variable) address).

(** What the event finds in the store: for each variable its row, or its initial value. *)
Definition stored_value (envelope : EventEnvelopeV1) (state : gmap ResolvedStateKeyV1 StoredStateV1)
    (variable : StateVariableV1) : StateValueV1 :=
  default (sv_initial_value variable) (key ← row_of envelope variable; sd_value <$> state !! key).

Definition program_state (spec : StatefulSpecV1) (envelope : EventEnvelopeV1)
    (state : gmap ResolvedStateKeyV1 StoredStateV1) : gmap string StateValueV1 :=
  foldl (λ m variable, <[sv_id variable := stored_value envelope state variable]> m) ∅ (ss_state_variables spec).

Lemma row_of_variable envelope variable key : row_of envelope variable = Some key → sk_variable_id key = sv_id variable.
Proof. unfold row_of. destruct (sv_scope variable), (es_instance_id (ev_scope envelope)); cbn; intros [= <-]; done. Qed.

Section flow.
Context (encoded_len : StatefulSpecV1 → option Z) (view_encoded_len : AutomationSpecV1 → option Z).
Context (debug_validation_error : ValidationError → string).
Context (spec_json : StatefulSpecV1 → option (list Z)) (schema_json : CompiledStateSchemaV1 → option (list Z)).
Context (artifact_json : CompiledStatefulArtifactV1 → option (list Z)).
Context (map_json : StatefulUnionSourceMapV1 → option (list Z)).
Context (binding_json : StatefulCompilationBindingV1 → option (list Z)) (bundle_json : BundleParts → option (list Z)).
Context (content_hash : Z → InteractionRuleSet → Result RuleSetHashError (list Z)).
Context (sha256 : list Z → list Z).

Abbreviation compile :=
  (compile_stateful_spec_bundle_v1 encoded_len view_encoded_len debug_validation_error spec_json schema_json
     artifact_json map_json binding_json bundle_json content_hash sha256) (only parsing).
Abbreviation validate :=
  (validate_stateful_spec_v1 encoded_len view_encoded_len debug_validation_error) (only parsing).

Record bundle_of (spec : StatefulSpecV1) (bundle : CompiledStatefulBundleV1) : Prop := {
  bo_valid : validate spec = Ok tt;
  bo_source : bu_source_spec bundle = spec;
  bo_key : sa_program_key (bu_stateful_artifact bundle) = ss_key spec;
  bo_variables : cs_variables (sa_state_schema (bu_stateful_artifact bundle)) =
                 map (compiled_variable sha256 (ss_key spec)) (ss_state_variables spec);
  bo_workflows : Forall2 (λ workflow compiled,
      compile_workflow (variable_indices (ss_state_variables spec)) workflow = Ok compiled)
    (ss_stateful_workflows spec) (sa_workflows (bu_stateful_artifact bundle));
  bo_maps : um_stateful_workflows (bu_union_source_map bundle) =
            imap stateful_workflow_source_map_v1 (ss_stateful_workflows spec)
}.

Lemma compiled_bundle spec bundle : compile spec = Ok bundle → bundle_of spec bundle.
Proof.
  unfold compile_stateful_spec_bundle_v1.
  intros ([] & Hv & (digest & _ & ([ruleset target] & _ & (workflows & Hw & H)%bind_Ok_inv)%bind_Ok_inv)
    %bind_Ok_inv)%bind_Ok_inv.
  apply bind_Ok_inv in H as (schema & _ & H). apply bind_Ok_inv in H as (artifact & _ & H).
  apply bind_Ok_inv in H as (source_map & _ & H). apply bind_Ok_inv in H as (binding & _ & H).
  apply bind_Ok_inv in H as (bundle_digest & _ & [= <-]).
  split; try done; cbn.
  - by destruct (validate spec) as [[]|].
  - by apply collect_results_Forall2.
Qed.

(** ** The snapshot an event asks for *)
Section event.
Context (spec : StatefulSpecV1) (bundle : CompiledStatefulBundleV1) (envelope : EventEnvelopeV1).
Hypothesis Hbundle : bundle_of spec bundle.

Definition entry_of (i : nat) (variable : StateVariableV1) : option StateSnapshotRequestEntryV1 :=
  key ← row_of envelope variable;
  Some (mkSnapshotEntry (Z.of_nat i) key (to_hex (declaration_digest_v1 sha256 (ss_key spec) variable))
          (sv_value_type variable) (sv_initial_value variable)).

Lemma small_index i variable : ss_state_variables spec !! i = Some variable → as_u16 (Z.of_nat i) = Z.of_nat i.
Proof.
  intros Hi%lookup_lt_Some. destruct (validated_bounds _ _ _ _ (bo_valid _ _ Hbundle)) as [Hl _].
  unfold len, MAX_STATE_VARIABLES_V1 in Hl. unfold as_u16. rewrite Z.mod_small; [done|]. lia.
Qed.

(** The definition at an index. *)
Lemma definition_at i variable definition : ss_state_variables spec !! i = Some variable →
  from_compiled_bundle_index bundle envelope (Z.of_nat i) = Ok definition →
  pi_program_key (ev_program envelope) = ss_key spec ∧
  definition = mkDefinition (ss_key spec) (to_hex (si_digest (sa_source (bu_stateful_artifact bundle))))
    (to_hex (bu_state_schema_digest bundle)) (sv_id variable) (Z.of_nat i) (sv_scope variable)
    (sv_value_type variable) (sv_initial_value variable)
    (to_hex (declaration_digest_v1 sha256 (ss_key spec) variable)).
Proof.
  intros Hi. unfold from_compiled_bundle_index. intros (_ & Hb%ensure_Ok_inv & H)%bind_Ok_inv.
  rewrite (bo_variables _ _ Hbundle), Nat2Z.id, list_lookup_fmap, Hi in H. cbn in H.
  apply bind_Ok_inv in H as (_ & _ & [= <-]). rewrite (bo_key _ _ Hbundle). split; [|done].
  unfold program_bound in Hb. rewrite !andb_true_iff in Hb. destruct Hb as [Hb _].
  do 6 destruct Hb as [Hb _]. apply String.eqb_eq in Hb. by rewrite Hb, (bo_key _ _ Hbundle).
Qed.

Lemma entry_at i variable definition entry : ss_state_variables spec !! i = Some variable →
  from_compiled_bundle_index bundle envelope (Z.of_nat i) = Ok definition →
  snapshot_entry envelope definition = Ok entry → entry_of i variable = Some entry.
Proof.
  intros Hi Hd. destruct (definition_at _ _ _ Hi Hd) as [Hkey ->].
  unfold snapshot_entry, key_from_compiled_definition, entry_of, row_of. cbn [df_scope df_artifact_variable_index
    df_declaration_digest df_value_type df_default_value df_program_key df_variable_id].
  intros (key & (_ & _ & (address & Ha & [= <-])%bind_Ok_inv)%bind_Ok_inv & [= <-])%bind_Ok_inv. rewrite Hkey.
  by destruct (sv_scope variable), (es_instance_id (ev_scope envelope)); cbn in *; simplify_eq.
Qed.

Record request_for (request : StateSnapshotRequestV1) (n : nat) (workflow : StatefulWorkflowV1) : Prop := {
  rf_workflow : ss_stateful_workflows spec !! n = Some workflow;
  rf_trigger : sw_trigger workflow = ev_trigger envelope;
  rf_index : sq_artifact_workflow_index request = Z.of_nat n;
  rf_id : sq_workflow_id request = sw_id workflow;
  rf_entries : ∀ entry, entry ∈ sq_entries request → ∃ i variable, ss_state_variables spec !! i = Some variable ∧
    sv_id variable ∈ workflow_reads workflow ∧ entry_of i variable = Some entry;
  rf_complete : ∀ id, id ∈ workflow_reads workflow → ∃ i variable entry, ss_state_variables spec !! i = Some variable ∧
    sv_id variable = id ∧ entry_of i variable = Some entry ∧ entry ∈ sq_entries request
}.

Lemma snapshot_request request : request_from_compiled_bundle sha256 bundle envelope = Ok request →
  ∃ n workflow, request_for request n workflow.
Proof.
  unfold request_from_compiled_bundle. intros (deps & Hdeps & H)%bind_Ok_inv.
  unfold dependencies_from_compiled_bundle in Hdeps. apply bind_Ok_inv in Hdeps as ([] & _ & Hdeps).
  destruct (List.filter _ _) as [|[n compiled] [|]] eqn:Hf; [done| |done].
  assert (Hin : (n, compiled) ∈ List.filter (λ '(_, workflow), bool_decide (cw_trigger workflow = ev_trigger envelope))
    (imap pair (sa_workflows (bu_stateful_artifact bundle)))) by (rewrite Hf; left).
  apply list_elem_of_In, filter_In in Hin as [Hin Ht%bool_decide_eq_true].
  apply list_elem_of_In, elem_of_lookup_imap_1 in Hin as (n' & ? & [= <- <-] & Hn).
  destruct (Forall2_lookup_r _ _ _ _ _ (bo_workflows _ _ Hbundle) Hn) as (workflow & Hw & Hc).
  exists n, workflow.
  apply bind_Ok_inv in Hc as (d & (reads & Hreads & (writes & _ & [= <-])%bind_Ok_inv)%bind_Ok_inv & [= <-]).
  cbn in Hdeps, Ht. apply bind_Ok_inv in Hdeps as (_ & _ & Hdeps).
  apply bind_Ok_inv in Hdeps as (defs & Hdefs%collect_results_Forall2 & Hdeps).
  apply bind_Ok_inv in Hdeps as (index & Hindex%ok_or_Ok_inv & [= <-]).
  unfold from_dependencies in H. apply bind_Ok_inv in H as (_ & _ & H).
  apply bind_Ok_inv in H as (unsorted & Hu%collect_results_Forall2 & H). cbn in Hu, H.
  apply bind_Ok_inv in H as (_ & _ & [= <-]).
  assert (Hread : ∀ z, z ∈ reads → ∃ i variable, ss_state_variables spec !! i = Some variable ∧
    sv_id variable ∈ workflow_reads workflow ∧ z = Z.of_nat i).
  { intros z (id & Hid & (i & variable & Hi & <- & ->)%variable_indices_lookup)%(indices_of_ids _ _ _ Hreads).
    exists i, variable. by rewrite (small_index _ _ Hi). }
  split; cbn; try done.
  - unfold u16_try_from in Hindex. case_match; congruence.
  - intros entry He. rewrite sort_by_perm in He. apply list_elem_of_lookup in He as [k Hk].
    destruct (Forall2_lookup_r _ _ _ _ _ Hu Hk) as (def & Hdef & He).
    destruct (Forall2_lookup_r _ _ _ _ _ Hdefs Hdef) as (z & Hz & Hd).
    destruct (Hread z) as (i & variable & Hi & Hid & ->); [by eapply list_elem_of_lookup_2|].
    exists i, variable. split; [done|]. split; [done|]. by eapply entry_at.
  - intros id Hid. destruct (indices_total _ _ _ Hreads id Hid) as [z Hz].
    destruct (variable_indices_lookup _ _ _ Hz) as (i & variable & Hi & <- & ->). rewrite (small_index _ _ Hi) in Hz.
    assert (Hin : Z.of_nat i ∈ reads) by (apply (indices_of_ids _ _ _ Hreads); eauto).
    apply list_elem_of_lookup in Hin as [k Hk]. destruct (Forall2_lookup_l _ _ _ _ _ Hdefs Hk) as (def & Hdef & Hd).
    destruct (Forall2_lookup_l _ _ _ _ _ Hu Hdef) as (entry & Hentry & He).
    exists i, variable, entry. split; [done|]. split; [done|]. split; [by eapply entry_at|].
    rewrite sort_by_perm. by eapply list_elem_of_lookup_2.
Qed.

(** ** The state the evaluation starts from *)
Definition matched (entry : StateSnapshotRequestEntryV1) (read : ResolvedStateReadV1) : Prop :=
  qe_key entry = rd_key read ∧ qe_declaration_digest entry = rd_declaration_digest read ∧
  value_satisfies (qe_value_type entry) (rd_value read) = true ∧
  (rd_revision read = None → rd_value read = qe_default_value entry).

Lemma exact_reads request snapshot : exact_snapshot request snapshot = true →
  Forall2 matched (sq_entries request) (sp_reads snapshot).
Proof.
  unfold exact_snapshot. rewrite !andb_true_iff. intros ((_ & Hl%bool_decide_eq_true) & Hm).
  generalize dependent (sp_reads snapshot). induction (sq_entries request) as [|entry entries IH]; intros [|read reads] Hl Hm;
    try done. cbn in Hm. rewrite !andb_true_iff in Hm. destruct Hm as ((((Hk%bool_decide_eq_true & Hd) & Hv) & Hr) & Hm).
  constructor; [|apply IH; [by injection Hl|done]]. split; [done|]. split; [by apply String.eqb_eq|]. split; [done|].
  intros Hn. rewrite Hn in Hr. cbn in Hr. by apply bool_decide_eq_true in Hr.
Qed.

Lemma variable_unique i j variable variable' : ss_state_variables spec !! i = Some variable →
  ss_state_variables spec !! j = Some variable' → sv_id variable = sv_id variable' → i = j ∧ variable = variable'.
Proof.
  intros Hi Hj E. assert (Hnd : NoDup (map sv_id (ss_state_variables spec))).
  { eapply declared_once, validated_stateful, bo_valid. exact Hbundle. }
  assert (i = j) as ->; [|by simplify_eq]. eapply (NoDup_lookup _ _ _ (sv_id variable) Hnd).
  - by apply list_lookup_fmap_Some_2.
  - rewrite E. by apply list_lookup_fmap_Some_2.
Qed.

Lemma entry_of_fields i variable entry : entry_of i variable = Some entry →
  row_of envelope variable = Some (qe_key entry) ∧ qe_artifact_variable_index entry = Z.of_nat i ∧
  qe_default_value entry = sv_initial_value variable ∧ qe_value_type entry = sv_value_type variable ∧
  qe_declaration_digest entry = to_hex (declaration_digest_v1 sha256 (ss_key spec) variable).
Proof. unfold entry_of. destruct (row_of envelope variable); cbn; [|done]. by intros [= <-]. Qed.

(** Two entries of one row are of one variable. *)
Lemma entry_unique i j variable variable' entry entry' :
  ss_state_variables spec !! i = Some variable → ss_state_variables spec !! j = Some variable' →
  entry_of i variable = Some entry → entry_of j variable' = Some entry' → qe_key entry = qe_key entry' →
  i = j ∧ variable = variable'.
Proof.
  intros Hi Hj (Hr & _)%entry_of_fields (Hr' & _)%entry_of_fields E. apply (variable_unique _ _ _ _ Hi Hj).
  apply row_of_variable in Hr, Hr'. congruence.
Qed.

(** The read of a variable the workflow reads. *)
Definition reads_variable (snapshot : StateSnapshotV1) (variable : StateVariableV1) (read : ResolvedStateReadV1) : Prop :=
  read ∈ sp_reads snapshot ∧ row_of envelope variable = Some (rd_key read) ∧
  rd_declaration_digest read = to_hex (declaration_digest_v1 sha256 (ss_key spec) variable) ∧
  value_satisfies (sv_value_type variable) (rd_value read) = true ∧
  (rd_revision read = None → rd_value read = sv_initial_value variable).

Lemma read_entry request snapshot n workflow read : request_for request n workflow →
  exact_snapshot request snapshot = true → read ∈ sp_reads snapshot →
  ∃ i variable entry, ss_state_variables spec !! i = Some variable ∧ sv_id variable ∈ workflow_reads workflow ∧
    entry_of i variable = Some entry ∧ entry ∈ sq_entries request ∧ qe_key entry = rd_key read ∧
    reads_variable snapshot variable read.
Proof.
  intros Hr Hm%exact_reads Hin. pose proof Hin as [k Hk]%list_elem_of_lookup.
  destruct (Forall2_lookup_r _ _ _ _ _ Hm Hk) as (entry & He & Hkey & Hdig & Hv & Hdef).
  apply list_elem_of_lookup_2 in He. destruct (rf_entries _ _ _ Hr _ He) as (i & variable & Hi & Hid & Hentry).
  exists i, variable, entry. destruct (entry_of_fields _ _ _ Hentry) as (Hrow & _ & Ed & Et & Eg).
  do 5 (split; [done|]). unfold reads_variable. rewrite Hrow, Hkey, <- Eg, <- Ed, <- Et. auto.
Qed.

Lemma index_of_key request n workflow i variable entry : request_for request n workflow →
  ss_state_variables spec !! i = Some variable → entry_of i variable = Some entry → entry ∈ sq_entries request →
  artifact_index_for_key request (qe_key entry) = Some (Z.of_nat i).
Proof.
  intros Hr Hi He Hin. unfold artifact_index_for_key.
  destruct (List.find _ _) as [entry'|] eqn:Hf.
  - apply find_some in Hf as [Hin'%list_elem_of_In Hk%bool_decide_eq_true].
    destruct (rf_entries _ _ _ Hr _ Hin') as (j & variable' & Hj & _ & He').
    destruct (entry_unique _ _ _ _ _ _ Hi Hj He He') as [-> ->]; [done|].
    cbn. f_equal. by destruct (entry_of_fields _ _ _ He') as (_ & -> & _).
  - eapply find_none in Hf; [|by apply list_elem_of_In]. by apply bool_decide_eq_false in Hf.
Qed.

Lemma read_index request snapshot n workflow read z : request_for request n workflow →
  exact_snapshot request snapshot = true → read ∈ sp_reads snapshot →
  artifact_index_for_key request (rd_key read) = Some z →
  ∃ i variable, z = Z.of_nat i ∧ ss_state_variables spec !! i = Some variable ∧
    sv_id variable ∈ workflow_reads workflow ∧ reads_variable snapshot variable read.
Proof.
  intros Hr Hx Hin Hz. destruct (read_entry _ _ _ _ _ Hr Hx Hin) as (i & variable & entry & Hi & Hid & He & Hein & Hk & Hrv).
  exists i, variable. rewrite <- Hk, (index_of_key _ _ _ _ _ _ Hr Hi He Hein) in Hz. by injection Hz as <-.
Qed.

(** Resolving finds exactly the reads. *)
Lemma resolved_read request snapshot n workflow i variable : request_for request n workflow →
  exact_snapshot request snapshot = true → ss_state_variables spec !! i = Some variable →
  (sv_id variable ∈ workflow_reads workflow ∧
   ∃ read, reads_variable snapshot variable read ∧
     resolved_value request snapshot (Z.of_nat i) (compiled_variable sha256 (ss_key spec) variable) = rd_value read) ∨
  (sv_id variable ∉ workflow_reads workflow ∧
   resolved_value request snapshot (Z.of_nat i) (compiled_variable sha256 (ss_key spec) variable)
   = sv_initial_value variable).
Proof.
  intros Hr Hx Hi. unfold resolved_value. destruct (List.find _ _) as [read|] eqn:Hf.
  - left. apply find_some in Hf as [Hin%list_elem_of_In Hz%bool_decide_eq_true].
    destruct (read_index _ _ _ _ _ _ Hr Hx Hin Hz) as (j & variable' & Hj & Hv & Hid & Hrv).
    apply Nat2Z.inj in Hj as <-. rewrite Hi in Hv. injection Hv as <-. eauto.
  - right. split; [|done]. intros Hid.
    destruct (rf_complete _ _ _ Hr _ Hid) as (j & variable' & entry & Hj & Eid & He & Hin).
    destruct (variable_unique _ _ _ _ Hi Hj (eq_sym Eid)) as [<- <-].
    pose proof (index_of_key _ _ _ _ _ _ Hr Hi He Hin) as Hz. apply list_elem_of_lookup in Hin as [k Hk].
    destruct (Forall2_lookup_l _ _ _ _ _ (exact_reads _ _ Hx) Hk) as (read & Hread & Hkey & _).
    eapply find_none in Hf; [|by eapply list_elem_of_In, list_elem_of_lookup_2].
    apply bool_decide_eq_false in Hf. by rewrite <- Hkey in Hf.
Qed.

Lemma resolved_from_lookup request snapshot index variables state out :
  resolved_state_from request snapshot index variables state = Ok out → NoDup (map cv_id variables) →
  (∀ k variable, variables !! k = Some variable →
     out !! cv_id variable = Some (resolved_value request snapshot (index + Z.of_nat k) variable)) ∧
  (∀ id, id ∉ map cv_id variables → out !! id = state !! id).
Proof.
  revert index state. induction variables as [|variable variables IH]; intros index state; cbn.
  { intros [= <-] _. done. }
  intros (index16 & H16%ok_or_Ok_inv & H)%bind_Ok_inv [Hv Hnd]%NoDup_cons.
  assert (index16 = index) as -> by (unfold u16_try_from in H16; case_match; congruence).
  destruct (IH _ _ H Hnd) as [IHin IHout]. split.
  - intros [|k] variable'; cbn.
    + intros [= <-]. rewrite IHout, lookup_insert_eq by done. by rewrite Z.add_0_r.
    + intros Hk. rewrite (IHin _ _ Hk). do 2 f_equal. lia.
  - intros id [Hne Hin]%not_elem_of_cons. by rewrite IHout, lookup_insert_ne.
Qed.

Lemma compiled_ids : NoDup (map cv_id (cs_variables (sa_state_schema (bu_stateful_artifact bundle)))).
Proof.
  rewrite (bo_variables _ _ Hbundle), map_map. eapply declared_once, validated_stateful, bo_valid. exact Hbundle.
Qed.

Lemma resolved_lookup request snapshot state i variable :
  resolved_state_for_core bundle request snapshot = Ok state → ss_state_variables spec !! i = Some variable →
  state !! sv_id variable =
  Some (resolved_value request snapshot (Z.of_nat i) (compiled_variable sha256 (ss_key spec) variable)).
Proof.
  intros H Hi. apply resolved_from_lookup in H as [H _]; [|exact compiled_ids].
  refine (H i (compiled_variable sha256 (ss_key spec) variable) _).
  by rewrite (bo_variables _ _ Hbundle), list_lookup_fmap, Hi.
Qed.

Lemma program_state_lookup state i variable : ss_state_variables spec !! i = Some variable →
  program_state spec envelope state !! sv_id variable = Some (stored_value envelope state variable).
Proof.
  intros Hi. apply (foldl_insert_in sv_id (stored_value envelope state)); [|by eapply list_elem_of_lookup_2].
  eapply declared_once, validated_stateful, bo_valid. exact Hbundle.
Qed.

(** A read that still holds is what the store has. *)
Lemma read_is_stored snapshot state variable read : reads_variable snapshot variable read →
  read_current state read = true → stored_value envelope state variable = rd_value read.
Proof.
  intros (_ & Hrow & _ & _ & Hdef) [Hrev Hval]%read_current_holds. unfold stored_value. rewrite Hrow. cbn.
  destruct (state !! rd_key read) as [stored|]; cbn in *; [by destruct (Hval _ eq_refl)|]. symmetry. by apply Hdef.
Qed.

Lemma snapshot_agrees request snapshot n workflow state_before state : request_for request n workflow →
  exact_snapshot request snapshot = true → resolved_state_for_core bundle request snapshot = Ok state_before →
  forallb (read_current state) (sp_reads snapshot) = true →
  agree_on (workflow_reads workflow) state_before (program_state spec envelope state).
Proof.
  intros Hr Hx Hs Hc id Hid. destruct (rf_complete _ _ _ Hr _ Hid) as (i & variable & entry & Hi & <- & _).
  rewrite (resolved_lookup _ _ _ _ _ Hs Hi), (program_state_lookup _ _ _ Hi).
  destruct (resolved_read _ _ _ _ _ _ Hr Hx Hi) as [(_ & read & Hrv & ->)|[? _]]; [|done].
  f_equal. symmetry. eapply read_is_stored; [exact Hrv|]. rewrite forallb_forall in Hc. apply Hc, list_elem_of_In, Hrv.
Qed.

(** ** Evaluations and their writes *)
Abbreviation evaluate :=
  (evaluate_validated_stateful_workflow_v1 encoded_len view_encoded_len debug_validation_error) (only parsing).
Abbreviation prepare :=
  (evaluation_prepare encoded_len view_encoded_len debug_validation_error sha256) (only parsing).

(** A successful evaluation ran the one workflow of the trigger. *)
Record evaluated_by (workflow : StatefulWorkflowV1) (inputs : list (string * string)) (state : gmap string StateValueV1)
    (execution : StatefulCoreEvaluationV1) : Prop := {
  eb_condition : evaluate_stateful_condition inputs state (sw_condition workflow) = Ok (ce_condition_result execution);
  eb_branch : ce_branch execution = if ce_condition_result execution then SelectTrue else SelectFalse;
  eb_pending : collect_results (pending_transition inputs state (declarations_of spec))
    (br_state_actions (chosen_branch workflow (ce_condition_result execution))) = Ok (ce_transitions execution);
  eb_external : ce_external_node_ids execution =
    map an_id (br_effects (chosen_branch workflow (ce_condition_result execution)))
    ++ [rn_id (br_response (chosen_branch workflow (ce_condition_result execution)))];
  eb_sound : evaluated spec workflow inputs state execution
}.

Lemma evaluate_Ok workflow inputs state execution : workflow ∈ ss_stateful_workflows spec →
  evaluate spec (sw_trigger workflow) inputs state = Ok execution → evaluated_by workflow inputs state execution.
Proof.
  intros Hw H. pose proof H as H'. unfold evaluate_validated_stateful_workflow_v1 in H.
  pose proof (validated_stateful _ _ _ _ (bo_valid _ _ Hbundle)) as Hv.
  rewrite (bo_valid _ _ Hbundle) in H. cbn [map_err mbind Result_bind] in H.
  apply bind_Ok_inv in H as ([] & Hi & H). apply bind_Ok_inv in H as ([] & Hs & H).
  rewrite (unique_workflow _ _ _ _ Hv Hw) in H. apply bind_Ok_inv in H as (b & Hb & H).
  pose proof (evaluation_sound encoded_len view_encoded_len debug_validation_error spec workflow inputs state
    (bo_valid _ _ Hbundle) Hi Hs Hw) as Hsound. rewrite H' in Hsound.
  destruct b; apply bind_Ok_inv in H as (exec & He & [= <-]); unfold execute_parallel_branch in He;
    apply bind_Ok_inv in He as (pending & Hp & [= <-]); by split.
Qed.

Record prepared_evaluation (snapshot : StateSnapshotV1) (evaluation : PreparedStatefulEvaluationV1)
    (workflow : StatefulWorkflowV1) (request : StateSnapshotRequestV1) (state_before : gmap string StateValueV1)
    (execution : StatefulCoreEvaluationV1) (writes : list ResolvedStateWriteV1) : Prop := {
  pv_workflow : workflow ∈ ss_stateful_workflows spec;
  pv_request : ∃ n, request_for request n workflow;
  pv_exact : exact_snapshot request snapshot = true;
  pv_state : resolved_state_for_core bundle request snapshot = Ok state_before;
  pv_evaluated : evaluated_by workflow (ev_normalized_inputs envelope) state_before execution;
  pv_envelope : pe_envelope evaluation = envelope;
  pv_snapshot : pe_snapshot evaluation = snapshot;
  pv_external : map en_node_id (pe_external_nodes evaluation) = ce_external_node_ids execution;
  pv_writes : pe_writes evaluation = sort_by write_le writes;
  pv_prepared : ∃ branch_map nodes, prepare_writes bundle envelope snapshot
    (chosen_branch workflow (ce_condition_result execution)) branch_map (ce_transitions execution) = Ok (nodes, writes)
}.

Lemma prepare_Ok snapshot evaluation : prepare bundle envelope snapshot = Ok evaluation →
  ∃ workflow request state_before execution writes,
    prepared_evaluation snapshot evaluation workflow request state_before execution writes.
Proof.
  unfold evaluation_prepare. intros (_ & _ & (request & Hreq & H)%bind_Ok_inv)%bind_Ok_inv.
  apply map_err_Ok in Hreq. destruct (snapshot_request _ Hreq) as (n & workflow & Hr).
  apply bind_Ok_inv in H as (_ & Hx%ensure_Ok_inv & H). apply bind_Ok_inv in H as (compiled & Hc%ok_or_Ok_inv & H).
  rewrite (rf_index _ _ _ Hr), Nat2Z.id in Hc.
  destruct (Forall2_lookup_r _ _ _ _ _ (bo_workflows _ _ Hbundle) Hc) as (workflow' & Hw & Hcw).
  rewrite (rf_workflow _ _ _ Hr) in Hw. injection Hw as <-.
  apply bind_Ok_inv in Hcw as (deps & _ & [= <-]). cbn in H.
  apply bind_Ok_inv in H as (_ & _ & H). apply bind_Ok_inv in H as (workflow_map & _ & H).
  apply bind_Ok_inv in H as (source & _ & H). apply bind_Ok_inv in H as (_ & _ & H).
  apply bind_Ok_inv in H as (state_before & Hs & H). apply bind_Ok_inv in H as (execution & He & H).
  apply map_err_Ok in He. apply bind_Ok_inv in H as (_ & _ & H).
  assert (Hin : workflow ∈ ss_stateful_workflows spec) by (eapply list_elem_of_lookup_2, (rf_workflow _ _ _ Hr)).
  rewrite (bo_source _ _ Hbundle), <- (rf_trigger _ _ _ Hr) in He.
  pose proof (evaluate_Ok _ _ _ _ Hin He) as Hev.
  assert (Hb : ∃ branch_map, match ce_branch execution with
      | SelectTrue => (sw_on_true workflow, wm_on_true workflow_map)
      | SelectFalse => (sw_on_false workflow, wm_on_false workflow_map)
      end = (chosen_branch workflow (ce_condition_result execution), branch_map)).
  { rewrite (eb_branch _ _ _ _ Hev). destruct (ce_condition_result execution); eauto. }
  destruct Hb as [branch_map Hb]. rewrite Hb in H.
  apply bind_Ok_inv in H as ([nodes writes] & Hwr & H). apply bind_Ok_inv in H as (_ & _ & H).
  apply bind_Ok_inv in H as (external & _ & H). apply bind_Ok_inv in H as (_ & Hext%ensure_Ok_inv & H).
  apply bind_Ok_inv in H as (_ & _ & [= <-]). exists workflow, request, state_before, execution, writes.
  apply andb_true_iff in Hext as [Hext%bool_decide_eq_true _]. split; try done; eauto.
Qed.

(** A prepared write goes to the row of its variable. *)
Lemma prepare_write_Ok request n workflow snapshot branch action source_map transition node write :
  request_for request n workflow → exact_snapshot request snapshot = true →
  prepare_write bundle envelope snapshot branch (action, source_map, transition) = Ok (node, write) →
  wr_after write = tn_after transition ∧
  ∃ i variable, ss_state_variables spec !! i = Some variable ∧ sv_id variable = tn_variable_id transition ∧
    row_of envelope variable = Some (wr_key write).
Proof.
  intros Hr Hx. unfold prepare_write. intros (_ & Hids%ensure_Ok_inv & H)%bind_Ok_inv.
  apply bind_Ok_inv in H as (index & _ & H). apply bind_Ok_inv in H as (definition & _ & H).
  apply bind_Ok_inv in H as (read & Hread%ok_or_Ok_inv & H). apply bind_Ok_inv in H as (_ & _ & H).
  apply bind_Ok_inv in H as (ordinal & _ & H). apply bind_Ok_inv in H as (write' & Hw%map_err_Ok & [= _ <-]).
  unfold write_set in Hw. apply bind_Ok_inv in Hw as (_ & _ & (_ & _ & [= <-])%bind_Ok_inv). cbn. split; [done|].
  apply find_some in Hread as [Hin%list_elem_of_In Hvar%bool_decide_eq_true].
  destruct (read_entry _ _ _ _ _ Hr Hx Hin) as (i & variable & entry & Hi & _ & _ & _ & _ & (_ & Hrow & _)).
  exists i, variable. split; [done|]. split; [|done]. apply row_of_variable in Hrow as <-.
  rewrite !andb_true_iff in Hids. destruct Hids as ((_ & Ev%String.eqb_eq) & _). congruence.
Qed.

(** The writes are the transitions, row by row. *)
Definition writes_transition (transition : StatefulCoreTransitionV1) (write : ResolvedStateWriteV1) : Prop :=
  wr_after write = tn_after transition ∧
  ∃ i variable, ss_state_variables spec !! i = Some variable ∧ sv_id variable = tn_variable_id transition ∧
    row_of envelope variable = Some (wr_key write).

Lemma prepare_writes_Ok request n workflow snapshot branch branch_map transitions nodes writes :
  request_for request n workflow → exact_snapshot request snapshot = true →
  prepare_writes bundle envelope snapshot branch branch_map transitions = Ok (nodes, writes) →
  Forall2 writes_transition transitions writes.
Proof.
  intros Hr Hx. unfold prepare_writes. intros (_ & Hl%ensure_Ok_inv & (prepared & Hp & [= _ <-])%bind_Ok_inv)%bind_Ok_inv.
  rewrite andb_true_iff, !bool_decide_eq_true in Hl. destruct Hl as [Hl1 Hl2].
  apply collect_results_Forall2 in Hp. apply Forall2_same_length_lookup. split.
  - rewrite length_map. apply Forall2_length in Hp. rewrite <- Hp, !length_zip_with. lia.
  - intros k transition write Ht (p & -> & Hk)%list_lookup_fmap_Some.
    destruct (Forall2_lookup_r _ _ _ _ _ Hp Hk) as ([[action source_map] t] & Hz & Hw).
    rewrite lookup_zip_with_Some in Hz. destruct Hz as ([a m] & t' & [= -> -> ->] & _ & Ht').
    assert (t' = transition) as -> by congruence. destruct p as [node write].
    by eapply prepare_write_Ok.
Qed.

Section commit.
Context (snapshot : StateSnapshotV1) (evaluation : PreparedStatefulEvaluationV1) (workflow : StatefulWorkflowV1).
Context (request : StateSnapshotRequestV1) (state_before : gmap string StateValueV1).
Context (execution : StatefulCoreEvaluationV1) (writes : list ResolvedStateWriteV1).
Hypothesis Hp : prepared_evaluation snapshot evaluation workflow request state_before execution writes.

Lemma all_written : Forall2 writes_transition (ce_transitions execution) writes.
Proof.
  destruct (pv_request _ _ _ _ _ _ _ Hp) as [n Hr]. destruct (pv_prepared _ _ _ _ _ _ _ Hp) as (branch_map & nodes & Hw).
  by eapply prepare_writes_Ok; [exact Hr|apply (pv_exact _ _ _ _ _ _ _ Hp)|].
Qed.

Lemma assigned_once : NoDup (map tn_variable_id (ce_transitions execution)).
Proof.
  rewrite (recorded_variables _ _ _ _ _ (ev_recorded _ _ _ _ _ (eb_sound _ _ _ _ (pv_evaluated _ _ _ _ _ _ _ Hp)))).
  eapply bv_variables, (chosen_valid encoded_len _ _ _ _ _ (validated_stateful _ _ _ _ (bo_valid _ _ Hbundle))).
  apply (pv_workflow _ _ _ _ _ _ _ Hp).
Qed.

Lemma find_write key write : NoDup (map wr_key (pe_writes evaluation)) → write ∈ pe_writes evaluation →
  wr_key write = key → List.find (λ w, bool_decide (wr_key w = key)) (pe_writes evaluation) = Some write.
Proof.
  intros Hnd Hin Hk. destruct (List.find _ _) as [write'|] eqn:Hf.
  - apply find_some in Hf as [Hin'%list_elem_of_In Hk'%bool_decide_eq_true]. f_equal.
    apply list_elem_of_lookup in Hin as [i Hi], Hin' as [j Hj].
    assert (i = j) as ->; [|congruence]. apply (NoDup_lookup _ _ _ key Hnd).
    + rewrite <- Hk. by apply list_lookup_fmap_Some_2.
    + rewrite <- Hk'. by apply list_lookup_fmap_Some_2.
  - eapply find_none in Hf; [|by apply list_elem_of_In]. by apply bool_decide_eq_false in Hf.
Qed.

Lemma write_of_transition transition : transition ∈ ce_transitions execution →
  ∃ write, write ∈ pe_writes evaluation ∧ writes_transition transition write.
Proof.
  intros [k Hk]%list_elem_of_lookup. destruct (Forall2_lookup_l _ _ _ _ _ all_written Hk) as (write & Hw & Ht).
  exists write. split; [|done]. rewrite (pv_writes _ _ _ _ _ _ _ Hp), sort_by_perm. by eapply list_elem_of_lookup_2.
Qed.

Lemma transition_of_write write : write ∈ pe_writes evaluation →
  ∃ transition, transition ∈ ce_transitions execution ∧ writes_transition transition write.
Proof.
  rewrite (pv_writes _ _ _ _ _ _ _ Hp), sort_by_perm. intros [k Hk]%list_elem_of_lookup.
  destruct (Forall2_lookup_r _ _ _ _ _ all_written Hk) as (transition & Hw & Ht).
  exists transition. split; [|done]. by eapply list_elem_of_lookup_2.
Qed.

Section rows.
Context (state state' : gmap ResolvedStateKeyV1 StoredStateV1).
Hypothesis Hnd : NoDup (map wr_key (pe_writes evaluation)).
Hypothesis Hrows : ∀ key, state' !! key =
  match List.find (λ w, bool_decide (wr_key w = key)) (pe_writes evaluation) with
  | Some write => Some (written write)
  | None => state !! key
  end.

Lemma assigned_value transition i variable : transition ∈ ce_transitions execution →
  ss_state_variables spec !! i = Some variable → sv_id variable = tn_variable_id transition →
  stored_value envelope state' variable = tn_after transition.
Proof.
  intros Ht Hi Hid. destruct (write_of_transition _ Ht) as (write & Hw & Hafter & j & variable' & Hj & Hid' & Hrow).
  destruct (variable_unique _ _ _ _ Hi Hj) as [<- <-]; [congruence|].
  unfold stored_value. rewrite Hrow. cbn. by rewrite Hrows, (find_write _ _ Hnd Hw eq_refl).
Qed.

Lemma untouched_row key :
  (∀ transition i variable, transition ∈ ce_transitions execution → ss_state_variables spec !! i = Some variable →
     sv_id variable = tn_variable_id transition → row_of envelope variable ≠ Some key) →
  state' !! key = state !! key.
Proof.
  intros Hno. rewrite Hrows. destruct (List.find _ _) as [write|] eqn:Hf; [|done].
  apply find_some in Hf as [Hin%list_elem_of_In Hk%bool_decide_eq_true].
  destruct (transition_of_write _ Hin) as (transition & Ht & _ & i & variable & Hi & Hid & Hrow). subst key.
  by destruct (Hno _ _ _ Ht Hi Hid).
Qed.

Lemma kept_value variable : sv_id variable ∉ map tn_variable_id (ce_transitions execution) →
  stored_value envelope state' variable = stored_value envelope state variable.
Proof.
  intros Hno. unfold stored_value. destruct (row_of envelope variable) as [key|] eqn:Hrow; [|done]. cbn.
  rewrite untouched_row; [done|]. intros transition i variable' Ht _ Hid Hrow'. apply Hno.
  apply row_of_variable in Hrow, Hrow'. rewrite <- Hrow, Hrow', Hid. by apply list_elem_of_fmap_2.
Qed.

(** The rows after the writes hold the assigned values. *)
Lemma written_state : program_state spec envelope state' =
  foldl apply_transition (program_state spec envelope state) (ce_transitions execution).
Proof.
  apply map_eq. intros id.
  destruct (decide (id ∈ map sv_id (ss_state_variables spec))) as [(variable & -> & [i Hi]%list_elem_of_lookup)
    %list_elem_of_fmap|Hout].
  - rewrite (program_state_lookup _ _ _ Hi).
    destruct (decide (sv_id variable ∈ map tn_variable_id (ce_transitions execution))) as [(t & Hid & Ht)
      %list_elem_of_fmap|Hno].
    + rewrite (assigned_value _ _ _ Ht Hi Hid), Hid. symmetry. by apply foldl_assigned; [apply assigned_once|].
    + rewrite foldl_other, (program_state_lookup _ _ _ Hi) by done. by rewrite kept_value.
  - unfold program_state at 1. rewrite (foldl_insert_out sv_id), lookup_empty by done.
    rewrite foldl_other; [unfold program_state; by rewrite (foldl_insert_out sv_id), lookup_empty|].
    intros (t & -> & Ht)%list_elem_of_fmap. destruct (write_of_transition _ Ht) as (_ & _ & _ & i & variable & Hi & Hid & _).
    apply Hout. rewrite <- Hid. by eapply list_elem_of_fmap_2, list_elem_of_lookup_2.
Qed.
End rows.

(** On a store where the snapshot still holds, the workflow runs to the same transitions. *)
Lemma runs_on_the_store state : forallb (read_current state) (sp_reads snapshot) = true →
  evaluate_stateful_condition (ev_normalized_inputs envelope) (program_state spec envelope state)
    (sw_condition workflow) = Ok (ce_condition_result execution) ∧
  execute_parallel_branch (chosen_branch workflow (ce_condition_result execution)) (ev_normalized_inputs envelope)
    (program_state spec envelope state) (declarations_of spec) =
  Ok (mkBranchExecution (foldl apply_transition (program_state spec envelope state) (ce_transitions execution))
        (ce_transitions execution) (ce_external_node_ids execution)).
Proof.
  intros Hc. destruct (pv_request _ _ _ _ _ _ _ Hp) as [n Hr].
  pose proof (snapshot_agrees _ _ _ _ _ _ Hr (pv_exact _ _ _ _ _ _ _ Hp) (pv_state _ _ _ _ _ _ _ Hp) Hc) as Ha.
  destruct (pv_evaluated _ _ _ _ _ _ _ Hp) as [Hcond _ Hpend Hext _]. split.
  - rewrite <- Hcond. symmetry. apply conditions_agree. eapply agree_on_mono; [exact Ha|]. unfold workflow_reads. set_solver.
  - unfold execute_parallel_branch. rewrite <- (transitions_agree _ state_before), Hpend; [by rewrite Hext|].
    eapply agree_on_mono; [exact Ha|]. unfold workflow_reads, branch_reads, branch_writes.
    destruct (ce_condition_result execution); cbn [chosen_branch]; set_solver.
Qed.
End commit.

Lemma commit_prepare_Ok evaluation plan payload prepared : commit_prepare sha256 evaluation plan payload = Ok prepared →
  pc_reads prepared = sp_reads (pe_snapshot evaluation) ∧ pc_writes prepared = pe_writes evaluation ∧
  pc_receipt_identity prepared = ev_receipt_identity (pe_envelope evaluation) ∧
  pc_dispatch_authority prepared = authority_from_envelope (pe_envelope evaluation) ∧
  op_external_node_ids (pc_outbox_payload prepared) = map en_node_id (pe_external_nodes evaluation).
Proof.
  intros (_ & _ & (_ & H%ensure_Ok_inv & [= <-])%bind_Ok_inv)%bind_Ok_inv. cbn.
  rewrite !andb_true_iff, !bool_decide_eq_true in H. naive_solver.
Qed.

Lemma bt_insert_get {V} (m : list (Z * Z * V)) k v : bt_get (bt_insert k v m) k = Some v.
Proof.
  unfold bt_insert. induction m as [|[k' v'] m IH]; cbn; [by rewrite cmp_refl|].
  destruct (cmp k k') eqn:E; cbn; rewrite ?cmp_refl; [done|done|]. by rewrite E.
Qed.

(** What a commit of the event leaves behind, had the workflow run on the store in one step. *)
Definition runs_atomically (store store' : InMemoryAtomicStateOutboxStoreV1) : Prop :=
  ∃ workflow b execution entry,
    workflow ∈ ss_stateful_workflows spec ∧ sw_trigger workflow = ev_trigger envelope ∧
    evaluate_stateful_condition (ev_normalized_inputs envelope) (program_state spec envelope (ms_state store))
      (sw_condition workflow) = Ok b ∧
    execute_parallel_branch (chosen_branch workflow b) (ev_normalized_inputs envelope)
      (program_state spec envelope (ms_state store)) (declarations_of spec) = Ok execution ∧
    program_state spec envelope (ms_state store') = be_state_after execution ∧
    (∀ key, (∀ variable, variable ∈ ss_state_variables spec → row_of envelope variable ≠ Some key) →
       ms_state store' !! key = ms_state store !! key) ∧
    bt_get (ms_outbox store') (ev_receipt_identity envelope) = Some entry ∧
    op_external_node_ids (oe_payload entry) = be_external_node_ids execution ∧
    oe_required_authority entry = authority_from_envelope envelope.

Lemma commit_runs_atomically snapshot evaluation plan payload prepared store store' result :
  prepare bundle envelope snapshot = Ok evaluation → commit_prepare sha256 evaluation plan payload = Ok prepared →
  atomic_commit_v1 sha256 prepared store = (Ok result, store') → ar_disposition result = CommitApplied →
  runs_atomically store store'.
Proof.
  intros (workflow & request & state_before & execution & writes & Hp)%prepare_Ok Hc%commit_prepare_Ok Ha Hd.
  destruct Hc as (Er & Ew & Ei & Eu & En). rewrite (pv_snapshot _ _ _ _ _ _ _ Hp) in Er.
  rewrite (pv_envelope _ _ _ _ _ _ _ Hp) in Ei, Eu. rewrite (pv_external _ _ _ _ _ _ _ Hp) in En.
  pose proof (commit_step sha256 prepared store) as Hstep. rewrite Ha in Hstep. cbn in Hstep. rewrite Hd in Hstep.
  inversion Hstep as [| |p' state ledger r _ Hv Hr Hw _ ->|? ? ? ? ? Hes]; subst; [|by apply entry_step_answer in Hes].
  destruct (accepted_writes _ _ _ Hv Hr) as [Hnd _]. rewrite Er in Hr. rewrite Ew in Hw, Hnd.
  assert (Hrows := λ key, apply_writes_state _ _ _ _ _ _ _ _ key Hnd Hw).
  destruct (runs_on_the_store _ _ _ _ _ _ _ Hp _ Hr) as [Hcond Hexec].
  exists workflow, (ce_condition_result execution), (mkBranchExecution
    (foldl apply_transition (program_state spec envelope (ms_state store)) (ce_transitions execution))
    (ce_transitions execution) (ce_external_node_ids execution)), (new_outbox_entry prepared). cbn.
  destruct (pv_request _ _ _ _ _ _ _ Hp) as [n Hreq].
  split; [by apply (pv_workflow _ _ _ _ _ _ _ Hp)|]. split; [by apply (rf_trigger _ _ _ Hreq)|].
  split; [done|]. split; [done|]. split; [by eapply written_state|]. split; [|by rewrite <- Ei, bt_insert_get].
  intros key Hno. eapply untouched_row; [done..|]. intros t i variable _ Hi _. by eapply Hno, list_elem_of_lookup_2.
Qed.
End event.

(** C13: An event that commits ran its workflow, in one step, on what the store held. Take a
    compiled document, a snapshot taken at any earlier moment of just the rows the compiler
    lists, the evaluation prepared from it and its commit. If the store, whatever happened
    to it in between, applies the commit, then: evaluating the condition of the workflow on
    the values the store holds for every variable of the document, read or not, and running
    the branch it selects, succeeds; the store afterwards holds exactly the state that run
    ends in; rows that belong to no variable of the event are untouched; and the outbox holds,
    under the event's receipt and for the route that admitted it, the effects and the final
    response of that branch, in order. *)
Theorem committed_events_run_atomically spec bundle envelope snapshot evaluation plan payload prepared
    store store' result :
  compile spec = Ok bundle →
  evaluation_prepare encoded_len view_encoded_len debug_validation_error sha256 bundle envelope snapshot
    = Ok evaluation →
  commit_prepare sha256 evaluation plan payload = Ok prepared →
  atomic_commit_v1 sha256 prepared store = (Ok result, store') → ar_disposition result = CommitApplied →
  runs_atomically spec envelope store store'.
Proof. intros Hb%compiled_bundle. by eapply commit_runs_atomically. Qed.
End flow.
