(* ===== verification/StatefulExamples.v ===== *)
(** * A sample stateful automation

    A button that counts at most three clicks and remembers the count before the last one,
    and a store two workers race on. The theorems on stateful documents and on the store
    apply to them. *)

From Stdlib Require Import ZArith Lia Ascii String.
From stdpp Require Import base decidable list strings gmap numbers sets relations.
From S2P Require Import ActivationExamples ConvergenceTypes Prelude RustStd RustText DiscordModel RuleSet ApprovalBinding SpecModel SpecValidate SpecCompile SpecExamples.
From S2P Require Import StatefulModel StatefulValidate StatefulEval StatefulSound StatefulStore StatefulCompile Interaction StatefulEvent StatefulPrepare StatefulSafety StatefulFlow.
Open Scope string_scope.
Open Scope list_scope.
Open Scope Z_scope.

Definition count_click : StatefulWorkflowV1 :=
  mkStatefulWorkflow "count" (ButtonClickV1 "click")
    (CondIntegerCompare (StateExpr "clicks") CompareLessThan (LiteralExpr (IntegerValue 3)))
    (mkBranch
       [mkStateSet "increment" "clicks" (CheckedAddExpr (StateExpr "clicks") (LiteralExpr (IntegerValue 1)));
        mkStateSet "remember" "before" (StateExpr "clicks")]
       [] (mkResponseNode "counted" "Counted"))
    (mkBranch [] [] (mkResponseNode "full" "No more clicks")).

Definition clicks_spec : StatefulSpecV1 :=
  mkStatefulSpec 1 STATEFUL_SPEC_KIND_V1 "clicks" "Clicks" "Counts clicks"
    [mkDeclaredPanel "lobby" "lobby" "Click" [mkDeclaredButton "Click" "click"]] [] []
    [mkStateVariable "clicks" ScopeInstallation (IntegerType 0 3) (IntegerValue 0);
     mkStateVariable "before" ScopeInstallation (IntegerType 0 3) (IntegerValue 0)]
    [count_click].

Definition clicks_len (_ : StatefulSpecV1) : option Z := Some 1000.

Definition two_clicks : gmap string StateValueV1 := {["clicks" := IntegerValue 2; "before" := IntegerValue 1]}.
Definition three_clicks : gmap string StateValueV1 := {["clicks" := IntegerValue 3; "before" := IntegerValue 2]}.

Lemma clicks_validates : validate_stateful_spec_v1 clicks_len sample_len sample_debug clicks_spec = Ok tt.
Proof. vm_compute. reflexivity. Qed.

(** Both assignments read the old count. *)
Lemma stateful_evaluation_cannot_go_wrong_witness :
  ∃ e, evaluate_validated_stateful_workflow_v1 clicks_len sample_len sample_debug clicks_spec
         (ButtonClickV1 "click") [] two_clicks = Ok e ∧
    ce_state_after e = three_clicks ∧ validate_state clicks_spec three_clicks = Ok tt.
Proof.
  assert (Hs : validate_state clicks_spec two_clicks = Ok tt) by (vm_compute; reflexivity).
  assert (Hw : count_click ∈ ss_stateful_workflows clicks_spec) by left.
  pose proof (stateful_evaluation_cannot_go_wrong clicks_len sample_len sample_debug clicks_spec count_click []
    two_clicks clicks_validates eq_refl Hs Hw) as H.
  destruct (evaluate_validated_stateful_workflow_v1 _ _ _ _ _ _ _) as [e|] eqn:He.
  - exists e. vm_compute in He. injection He as <-. destruct H as (_ & _ & _ & H).
    split; [reflexivity|]. split; [reflexivity|exact H].
  - vm_compute in He. discriminate.
Defined.

(** ** A document the validator panics on *)
Definition exhausting_spec : StatefulSpecV1 :=
  mkStatefulSpec 1 STATEFUL_SPEC_KIND_V1 "clicks" "Clicks" "Counts clicks" [] []
    [mkWorkflow "ids" (ButtonClickV1 "other") AlwaysV1
       (map (λ id, mkActionNode id DeferEphemeralV1) (ack_prefix 0 :: map (ack_numbered 0) (seqZ 1 u16_max)))]
    [] [count_click].

Lemma stateful_validation_panics_exactly_witness :
  validate_stateful_spec_v1 clicks_len sample_len sample_debug exhausting_spec = Err StatefulPanic.
Proof.
  apply stateful_validation_panics_exactly. exists 0%nat. split; [exact Nat.lt_0_1|].
  assert (∀ id, id ∈ ack_prefix 0 :: map (ack_numbered 0) (seqZ 1 u16_max) → id ∈ all_node_ids exhausting_spec) as Hin.
  { intros id Hid. unfold all_node_ids. apply elem_of_list_to_set, elem_of_app. left.
    cbn [exhausting_spec ss_stateless_workflows mbind list_bind app]. rewrite app_nil_r.
    cbn [wf_actions]. change (@map) with (@list_fmap). rewrite <- list_fmap_compose.
    apply list_elem_of_fmap. by exists id. }
  split; [apply Hin; left|]. intros n Hn. apply Hin. right. apply list_elem_of_fmap. exists n. split; [done|].
  apply elem_of_seqZ. lia.
Defined.

(** ** The store *)
Definition clicks_key (variable : string) : ResolvedStateKeyV1 :=
  mkStateKey "tenant" "installation" 1 "clicks" variable AddressInstallation.

Definition clicks_request : StateSnapshotRequestV1 :=
  mkSnapshotRequest "envelope" "bundle" "count" 0 "request"
    [mkSnapshotEntry 0 (clicks_key "before") "decl" (IntegerType 0 3) (IntegerValue 0);
     mkSnapshotEntry 1 (clicks_key "clicks") "decl" (IntegerType 0 3) (IntegerValue 0)].

Definition clicks_authority : OutboxDispatchAuthorityV1 := mkDispatchAuthority "process" "shard" 1 1 "build" 1 1 1 1.

Definition clicks_payload : StatefulOutboxPayloadV1 :=
  mkOutboxPayload (outbox_payload_digest sample_sha ["counted"] [1; 2; 3]) ["counted"] [1; 2; 3].

(** What the evaluation of [count_click] on the initial state commits. *)
Definition clicks_commit_draft (receipt : Z * Z) (digest : string) : PreparedStatefulCommitV1 :=
  mkPreparedCommit receipt "request" "envelope" "spec" "artifact" "schema" "proof" "actions" clicks_authority
    ACKNOWLEDGEMENT_STRATEGY_V1 FAILURE_TAIL_OBLIGATION_V1
    [mkStateRead (clicks_key "before") None "decl" (IntegerValue 0);
     mkStateRead (clicks_key "clicks") None "decl" (IntegerValue 0)]
    [mkStateWrite (clicks_key "before") None "decl" (IntegerValue 0) (IntegerValue 0) "remember" 1;
     mkStateWrite (clicks_key "clicks") None "decl" (IntegerValue 0) (IntegerValue 1) "increment" 0]
    clicks_payload digest.

Definition clicks_commit (receipt : Z * Z) : PreparedStatefulCommitV1 :=
  clicks_commit_draft receipt (execution_plan_digest sample_sha (clicks_commit_draft receipt "none")).

Definition clicks_claim (claimant : string) (revision now : Z) : OutboxClaimRequestV1 :=
  mkClaimRequest (1, 1) revision claimant clicks_authority now 1000.

Definition first_token : OutboxClaimTokenV1 := mkClaimToken (1, 1) 2 1 "one" clicks_authority 10 1010.
Definition second_token : OutboxClaimTokenV1 := mkClaimToken (1, 1) 3 2 "two" clicks_authority 2000 3000.

(** The first worker claims and stalls, the second takes over and starts the effects. *)
Definition racing_calls : list StoreCall :=
  [CallCommit (clicks_commit (1, 1)); CallCommit (clicks_commit (1, 1)); CallCommit (clicks_commit (1, 2));
   CallClaim (clicks_claim "one" 1 10); CallClaim (clicks_claim "two" 2 500); CallClaim (clicks_claim "two" 2 2000);
   CallIntent first_token 2001; CallIntent second_token 2002].

Example racing_answers :
  (run_calls sample_sha racing_calls empty_store).1 =
  [AnsCommitted (clicks_commit (1, 1)) CommitApplied; AnsCommitted (clicks_commit (1, 1)) CommitExactReplay;
   AnsRefused StoreStateConflict; AnsClaimed first_token clicks_payload; AnsRefused StoreOutboxConflict;
   AnsClaimed second_token clicks_payload; AnsRefused StoreStaleClaim; AnsIntent second_token].
Proof. vm_compute. reflexivity. Qed.

Example racing_ledger :
  audit None (ledger_of (clicks_key "clicks") (ms_transitions (run_calls sample_sha racing_calls empty_store).2)) =
  Some (Some (1, state_value_digest sample_sha (IntegerValue 1))).
Proof. vm_compute. reflexivity. Qed.

(** Nobody claims the receipt after the effects have been started. *)
Lemma refused_store_calls_change_nothing_witness :
  let s := (run_calls sample_sha racing_calls empty_store).2 in
  (perform sample_sha (CallClaim (clicks_claim "three" 3 9000)) s).2 = s.
Proof.
  apply (refused_store_calls_change_nothing sample_sha racing_calls _ StoreRecoveryRequired _ eq_refl).
  vm_compute. reflexivity.
Defined.

Definition other_commit : PreparedStatefulCommitV1 :=
  let draft digest :=
    mkPreparedCommit (1, 7) "request" "envelope" "spec" "artifact" "schema" "proof" "actions" clicks_authority
      ACKNOWLEDGEMENT_STRATEGY_V1 FAILURE_TAIL_OBLIGATION_V1
      [mkStateRead (clicks_key "other") None "decl" (IntegerValue 0)]
      [mkStateWrite (clicks_key "other") None "decl" (IntegerValue 0) (IntegerValue 5) "set" 0]
      clicks_payload digest in
  draft (execution_plan_digest sample_sha (draft "none")).

(** A commit on another variable comes between the snapshot and the commit. *)
Definition moved_store : InMemoryAtomicStateOutboxStoreV1 := (run_calls sample_sha [CallCommit other_commit] empty_store).2.

Lemma stateful_commits_are_serializable_witness :
  ms_state moved_store !! clicks_key "other" = Some (mkStoredState (IntegerValue 5) 1 "decl") ∧
  read_snapshot_v1 clicks_request moved_store = read_snapshot_v1 clicks_request empty_store ∧
  ms_state (atomic_commit_v1 sample_sha (clicks_commit (1, 1)) moved_store).2 !! clicks_key "clicks" =
    Some (mkStoredState (IntegerValue 1) 1 "decl").
Proof.
  split; [vm_compute; reflexivity|].
  set (p := clicks_commit (1, 1)).
  assert (Hs : read_snapshot_v1 clicks_request empty_store =
    Ok (mkSnapshot "envelope" "bundle" "count" 0 "request" (pc_reads p))) by (vm_compute; reflexivity).
  assert (Hc : atomic_commit_v1 sample_sha p moved_store =
    (Ok (mkCommitResult CommitApplied (mkCommitReceipt p 2) (metadata (new_outbox_entry p))),
     (atomic_commit_v1 sample_sha p moved_store).2)).
  { rewrite surjective_pairing at 1. f_equal. }
  destruct (stateful_commits_are_serializable sample_sha clicks_request empty_store _ p moved_store _ _ Hs eq_refl Hc
    eq_refl) as [H1 H2].
  split; [rewrite Hs; exact H1|]. rewrite H2. vm_compute. reflexivity.
Defined.

(** ** From the click to the commit *)
Definition clicks_json {A} (_ : A) : option (list Z) := Some [1; 2; 3].

Definition clicks_compiled : { bundle | compile_stateful_spec_bundle_v1 clicks_len sample_len sample_debug clicks_json
  clicks_json clicks_json clicks_json clicks_json clicks_json sample_hash sample_sha clicks_spec = Ok bundle }.
Proof. eexists. vm_compute. reflexivity. Defined.

Definition clicks_bundle : CompiledStatefulBundleV1 := proj1_sig clicks_compiled.
Definition clicks_hash : string := to_hex (ri_content_hash (bu_filtered_legacy_target clicks_bundle)).

Definition clicks_process : RuntimeProcessIdentityV1 :=
  mkProcessIdentity (mkTarget 1 "clicks" 4 clicks_hash 2 "bindings") 3 "process".

Definition clicks_serving : InteractionServingRouteIdentityV1 := mkServingIdentity "attested" 1 1 (mkGatewayOwner "shard" 1 1 "build") 1 1.

Definition clicks_route : InteractionRouteBindingV1 :=
  mkRouteBinding (mkProductScope "tenant" "installation" "deployment") clicks_process clicks_serving
    (StaticRoute 4 clicks_hash).

Definition clicks_material : InteractionRequestMaterialV1 :=
  MaterialButton 1 2 3 (Some "en-US") "starring:1:clicks:button:click".

Definition clicks_root (sha256 : list Z → list Z) : InteractionReceiptClaimRootV1 :=
  mkClaimRoot (11, 12) clicks_route
    (match build_interaction_request_digest_v1 sha256 (11, 12) 1 2 3 (Some "en-US")
             (PayloadButton "starring:1:clicks:button:click") with
     | Ok digest => digest
     | Err _ => EmptyString
     end).

Definition clicks_verified : VerifiedInteractionRequestV1 := request_of (clicks_root sample_sha) clicks_material.

Example clicks_verifies : verify sample_sha (clicks_root sample_sha) clicks_material = Ok clicks_verified.
Proof. vm_compute. reflexivity. Qed.

Definition clicks_publication : StatefulBundlePublicationBindingV1 :=
  let b := clicks_bundle in
  mkPublication (to_hex (bu_bundle_digest b)) (to_hex (bu_binding_digest b)) (to_hex (bu_union_source_map_digest b))
    (to_hex (si_digest (sa_source (bu_stateful_artifact b)))) (to_hex (bu_stateful_artifact_digest b))
    (to_hex (bu_state_schema_digest b)) "clicks" 4 clicks_hash
    (build_interaction_receipt_claim_root_digest_v1 sample_sha (clicks_root sample_sha)).

Definition clicks_enveloped : { envelope | envelope_from_compiled_bundle clicks_len sample_len sample_debug clicks_json
  sample_sha clicks_bundle clicks_publication clicks_verified = Ok envelope }.
Proof. eexists. vm_compute. reflexivity. Defined.

Definition clicks_envelope : EventEnvelopeV1 := proj1_sig clicks_enveloped.

Definition clicks_snapshot : { snapshot | (request ← map_err (λ _, StoreInvalidInput)
    (request_from_compiled_bundle sample_sha clicks_bundle clicks_envelope);
  read_snapshot_v1 request empty_store) = Ok snapshot }.
Proof. eexists. vm_compute. reflexivity. Defined.

Definition clicks_prepared : { evaluation | evaluation_prepare clicks_len sample_len sample_debug sample_sha
  clicks_bundle clicks_envelope (proj1_sig clicks_snapshot) = Ok evaluation }.
Proof. eexists. vm_compute. reflexivity. Defined.

Definition clicks_committing : { commit | commit_prepare sample_sha (proj1_sig clicks_prepared) "actions" clicks_payload
  = Ok commit }.
Proof. eexists. vm_compute. reflexivity. Defined.

(** The snapshot was taken of the empty store, the commit comes after one on another row. *)
Lemma committed_events_run_atomically_witness :
  runs_atomically clicks_spec clicks_envelope moved_store
    (atomic_commit_v1 sample_sha (proj1_sig clicks_committing) moved_store).2.
Proof.
  refine (committed_events_run_atomically clicks_len sample_len sample_debug clicks_json clicks_json clicks_json
    clicks_json clicks_json clicks_json sample_hash sample_sha clicks_spec clicks_bundle clicks_envelope
    (proj1_sig clicks_snapshot) (proj1_sig clicks_prepared) "actions" clicks_payload (proj1_sig clicks_committing)
    moved_store _ (mkCommitResult CommitApplied (mkCommitReceipt (proj1_sig clicks_committing) 2)
      (metadata (new_outbox_entry (proj1_sig clicks_committing))))
    (proj2_sig clicks_compiled) (proj2_sig clicks_prepared) (proj2_sig clicks_committing) _ eq_refl).
  rewrite surjective_pairing at 1. f_equal.
Defined.

(** ** What the request and the claim commit to *)
Abbreviation summed := ActivationExamples.sample_sha (only parsing).

Lemma verified_requests_are_bound_witness :
  ∃ request, verify summed (clicks_root summed) clicks_material = Ok request ∧
    ((cl_identity (clicks_root summed) = cl_identity (clicks_root summed) ∧ clicks_material = clicks_material)
     ∨ ∃ fields fields', request_preimage (clicks_root summed) clicks_material = Ok fields ∧
         request_preimage (clicks_root summed) clicks_material = Ok fields' ∧
         sha_collision summed (frames fields) (frames fields')).
Proof.
  eexists. split; [vm_compute; reflexivity|].
  eapply (verified_requests_are_bound summed sample_sha_bytes); [| |vm_compute; reflexivity..|reflexivity].
  all: unfold request_typed; cbn; repeat constructor; unfold u64_valid, u64_max; lia.
Defined.

Lemma claim_root_digest_commits_witness :
  clicks_root summed = clicks_root summed ∨
  sha_collision summed (frames (CLAIM_ROOT_DIGEST_DOMAIN_V1 :: append_claim_root_v1 (clicks_root summed)))
    (frames (CLAIM_ROOT_DIGEST_DOMAIN_V1 :: append_claim_root_v1 (clicks_root summed))).
Proof.
  apply (claim_root_digest_commits summed sample_sha_bytes); [| |reflexivity].
  all: unfold root_typed, process_typed, serving_typed, execution_typed;
    repeat (split || constructor); solve [vm_compute; reflexivity | unfold u64_valid, u32_valid, u64_max, u32_max; cbn; lia].
Defined.
